(* ===== verification/_CoqProject ===== *)
-Q . S2P
Prelude.v
Activation.v
ActivationTheory.v
Bitcoin.v
Psbt.v
Database.v
DatabaseTheory.v
PegoutScheduler.v
SchedulerTheory.v
CoinSelection.v
CoinSelectionTheory.v
ValidatePsbt.v
ValidateTheory.v
Signing.v
SigningTheory.v
DkgEncryption.v
Dkg.v
DkgTheory.v
Checkpoints.v
CheckpointsTheory.v
Codec.v
Headers.v
HeadersTheory.v
Peg.v
Mint.v
PegTheory.v
MintTheory.v
ChainRules.v
HeaderRules.v
RulesTheory.v
Execution.v
ExecutionTheory.v
BlockBuilder.v
BuilderTheory.v
Abci.v
AbciTheory.v
Snapshots.v
SnapshotsTheory.v
StateSync.v
StateSyncTheory.v
RpcTypes.v
Jwt.v
Server.v
ServerTheory.v
ServerPegs.v
ServerSample.v
PegoutValidation.v
PegoutValidationTheory.v
FrostSigning.v
FrostTask.v
FrostHistory.v
ServerLink.v
FrostTheory.v
FrostSample.v
WalletSync.v
WalletSyncTheory.v
WalletSyncSample.v
FrostMessages.v
FrostMessagesTheory.v
FrostNetwork.v
FrostNetworkTheory.v
FrostNetworkSample.v
PeginRecovery.v
PeginRecoveryTheory.v
PeginRecoverySample.v
Migration.v
MigrationTheory.v
MigrationSample.v
Serialization.v
HeaderRlp.v
HeaderRlpTheory.v
HeaderRlpSample.v
JwtTheory.v
