(* ===== verification/Prelude.v ===== *)
(** * Macbeth (Botanix): the federation's core, verified

    Macbeth is the Botanix node: a fork of the reth Ethereum node whose
    validators, the federation, hold bitcoin for the users of the chain.  Its own
    logic is in two places: the BTC server of each federation member
    ([bin/btc-server]), which keeps the wallet and signs pegouts with threshold
    (FROST) signatures, and the crates that decide network upgrades and consensus
    ([crates/botanix-*], [crates/consensus/authority]).

    ** How the parts interact

    The chain.  Every node follows bitcoind and keeps a window of recent Bitcoin
    block hashes, the checkpoints.  CometBFT orders the blocks: through the ABCI
    application it asks one node to prepare a proposal, every node to process it,
    and, once it is decided, to finalize and commit it.  The first transaction of a
    proposal carries what only the proposer knows (a checkpoint, the aggregate key,
    the fee recipient, the version and an upgrade vote); from it and from the other
    transactions each node builds and executes the same Ethereum block.  Execution
    looks at the logs of the mint contract: a log that mints must carry proofs of
    Bitcoin deposits under the checkpoint, or its transaction is undone.  Committing
    writes the pegs of the block to the Botanix database and the block to the
    Ethereum database.  The activation manager counts the validators' votes on a
    protocol upgrade and decides which version each block must carry.

    The wallet.  A pegout request is stored as pending in the server's database.  The
    coordinator takes the oldest pending pegouts, selects coins and builds a
    PSBT; every signer validates the PSBT against its own database and returns
    nonce commitments, then partial signatures; the coordinator aggregates them
    and broadcasts.  From then on the pegout scheduler tracks the transaction: it
    follows bitcoind block by block, records the pegouts of deeply confirmed
    transactions as finalized, and puts the pegouts of reorganised or dropped
    transactions back to pending.  The wallet's state is committed to by Merkle
    roots that all members must agree on.  The key the federation signs with comes
    from distributed key generation, which a coordinator relays.

    Between the two.  The handlers of the BTC server put these parts behind one
    interface, which asks every caller for a token of the shared secret.  On each
    federation node the FROST task is the client of that interface: it hands every
    committed block with its pegs to the wallet server until the server has accepted it,
    validates the PSBTs it is asked to help sign against the burns on the chain, takes
    signing sessions through their rounds with the other members, and runs key generation.
    The members talk over a protocol of their own: a manager knows which connections
    belong to authorities, a connection turns commands into bytes and bytes into events.
    At the end of an epoch a node compares with its peers which pegouts are paid.

    Beside them.  A pegin that was never minted can be returned by the recovery
    service, which holds exported key shares.  When a node starts, it moves the Botanix
    tables out of the reth database into a database of their own.

    ** Files

    - [Prelude]: outcomes of Rust functions ([result] with [Ok], [Err], [Panic]),
      the state-and-outcome monad [SM] with its loop rules, [guarantees] (what a
      program does to its state whatever its outcome), machine integers, byte
      codecs, stable sorting, the [macbeth] hint database.
    - [Activation], [ActivationTheory]: [crates/botanix-activation-manager] and the
      records of [crates/botanix-storage/src/models/activation_manager.rs].
      Modules [Version], [VoteWatcher], [Manager] hold one operation per Rust method.
      The storage trait is a class of operations with a class of laws; the
      manager is proved against the laws and the in-memory [VoteWatcher] proved
      to satisfy them.
    - [Bitcoin]: the data of the [bitcoin] crate, [pegout_id.rs] and the outpoint
      keys of [util.rs].
    - [Psbt]: [wallet/psbt.rs], [wallet/util.rs], [wallet/mod.rs]: proprietary
      fields, [create_psbt], weights.
    - [Database], [DatabaseTheory]: [database/mod.rs] and [merkle.rs]: record [Db]
      with one finite map per sled tree and one definition per method.
    - [PegoutScheduler], [SchedulerTheory]: [pegout_scheduler/mod.rs]: record
      [PegoutScheduler] with the code's fields, and [sync_until] with everything
      it calls.
    - [CoinSelection], [CoinSelectionTheory]: [wallet/coin_selection.rs].
    - [ValidatePsbt], [ValidateTheory]: [validate_psbt], [validate_outputs] and
      [has_conflicting_input] of [util.rs].
    - [Signing], [SigningTheory]: [signer/mod.rs] and [coordinator/mod.rs], with the
      signing packages of [wallet/psbt.rs].
    - [DkgEncryption], [Dkg], [DkgTheory]: [dkg/encryption.rs] and [dkg/mod.rs]: the
      three managers that authenticate the rounds of key generation, and record
      [DkgStateMachine] with [recv], [send] and [on_timeout].  A run is any sequence
      of those three ([dkg_step]), with any payloads.
    - [Checkpoints], [CheckpointsTheory]: [crates/botanix-bitcoin-checkpoint]: the
      window with its operations, and the synchronizer's loop as a step relation
      ([loop_turn]) with its trigger channel.
    - [Codec]: readers of byte streams with the rest of the input.
    - [HeaderRlp], [HeaderRlpTheory], [HeaderRlpSample]: the RLP codec of the header and
      sealed headers.
    - [Headers], [HeadersTheory]: the block header ([primitives-traits/src/header]),
      the extra data header ([crates/botanix-authority-edh]) and the
      non-deterministic data ([comet_bft/non_deterministic_data.rs]) with their codecs.
    - [Peg], [Mint], [PegTheory], [MintTheory]: [crates/botanix-authority-peg]: pegin
      proofs, their codec and validation ([peg_contract.rs]), amounts ([utils.rs]) and the
      logs of the mint contract ([mint_validation.rs]).
    - [ChainRules], [HeaderRules], [RulesTheory]: fork schedules, rewards and fees
      ([ethereum-forks], [chainspec], [consensus/common], [revm/src/state_change.rs]) and the
      checks on headers and blocks ([consensus/common/src/validation.rs],
      [consensus/authority/src/lib.rs]).
    - [Execution], [ExecutionTheory]: [ethereum/evm/src/execute.rs]: the transaction loop,
      the mint checks and the undoing of refused mints.
    - [BlockBuilder], [BuilderTheory]: [consensus/authority/src/excecution_utils.rs] and the
      checks after execution: building a block and executing a received one.
    - [Abci], [AbciTheory]: [comet_bft/abci.rs] with the staging tables of
      [crates/botanix-storage]: record [Abci] and one definition per request, and the
      driver that writes committed blocks.
    - [Snapshots], [SnapshotsTheory]: [snapshot_manager.rs] and the snapshot tables of
      [crates/botanix-storage]; [StateSync], [StateSyncTheory]: the snapshot requests of
      [abci.rs].
    - [RpcTypes], [Jwt], [Server]: [rpc/type_extensions.rs], the client's [jwt.rs], and the
      handlers of [btc-server/src/bin/main.rs]: record [App], module [App] with one
      definition per request.  [ServerTheory] and [ServerPegs] are about any sequence of
      calls, [ServerSample] is a concrete server, [JwtTheory] is about the tokens.
    - [PegoutValidation], [PegoutValidationTheory]: [consensus/authority/src/utils.rs]: PSBTs
      against the burns on the chain.
    - [FrostSigning]: [signing.rs], the sessions of a node, with the class [BtcServer], the
      server as a node sees it; [FrostTask]: [frost_task.rs]; [ServerLink]:
      [extended_client.rs], the instance of [BtcServer] that calls the handlers of [Server]
      over a connection that loses calls; [FrostHistory]: the calls of a node, recorded;
      [FrostTheory], [FrostSample].
    - [WalletSync], [WalletSyncTheory], [WalletSyncSample]: [wallet_state_sync.rs] with its
      tables.
    - [FrostMessages], [FrostMessagesTheory], [FrostNetwork], [FrostNetworkTheory],
      [FrostNetworkSample]: [crates/net/network/src/frost]: the wire format, the manager and
      the connection to a peer.
    - [PeginRecovery], [PeginRecoveryTheory], [PeginRecoverySample]: [bin/pegin-recovery].
    - [Migration], [MigrationTheory], [MigrationSample]: [crates/botanix-storage-migrate], the
      opening of a database directory ([storage/db]), and the start of a node around them
      ([bin/reth/src/commands/poa/mod.rs]), with a fault or a crash possible at every call.
    - [Serialization]: [crates/botanix-data-parser]; it implements the interfaces the
      snapshots and the wallet synchronization are proved against.

    ** What the theorems show

    - Minted coins are backed.  Every pegin a block reports carries proofs of distinct
      Bitcoin deposits to the federation, worth more than it mints, under a
      checkpoint of the chain; a transaction with any other mint only pays its fee,
      which the block counts.
    - Nodes agree.  A block a node builds passes the checks of the others and
      executes to the same result, under the forks of the Botanix chains (Cancun active,
      no blob transactions, Prague inactive); an honest proposal is accepted; finalizing
      gives the same hash whether the block was cached or rebuilt; committing stages
      exactly the pegs that executing the block gives, backed under its own header, and a
      crash between the two databases is repaired by the replay.
    - Snapshots keep every block.  The snapshot tables refine an archive of the processed
      blocks; what a node serves is a run of them, and a node that applies it stores
      exactly these blocks and ends at the listed one.
    - Checkpoints: the window is a linked run of blocks at the configured depths, and
      a triggered synchronizer reaches the window of a stable bitcoind in two turns.
    - The codecs of the extra data header, the non-deterministic data and pegin proofs
      read back what they write; parsing a mint log always ends.
    - What becomes of a pegout.  Whatever bitcoind answers and however a
      sync ends, a pegout that is tracked, pending or finalized stays so, until
      its finalized record expires, and unless its transaction has an output that an
      input known to the scheduler spends: finalizing such an input drops the
      transaction with its pegouts ([chained_pegout_dropped]).  Reorganisations are
      undone exactly; finalizing settles a block's transactions.  A transaction built for
      a pegout that is already being paid spends an input of the transaction
      paying it, and validation, which every signer runs, refuses a PSBT that
      does not.
    - Money is conserved.  Coin selection spends every required coin once, pays
      the pegouts less exactly the transaction fee, never below dust, and returns
      the rest as change; fee shares differ by at most one sat; the fees of a block
      are paid out in full.
    - Signing is safe.  A signer signs an input only under the commitment it made
      for it; a finalized PSBT carries verified signatures on the transaction that
      was validated.
    - Key generation is authenticated.  Whatever the network delivers, a member
      that finishes holds keys made of packages every other member signed for this
      session, confirmed by every member's signature; keys never change and
      sessions only move forward; a package encrypted for a member is read back
      by it.
    - The wallet server over time.  Whatever calls, failures and restarts come, signature
      shares never use a nonce twice, the group key is written once and only with an
      authenticated result, the pegs of an accepted block are kept (its pegouts only if
      the wallet is not empty), and pegouts leave the
      pending set only when bitcoind has the transaction that pays them.
    - The node and its wallet server.  A committed block stays staged until the server has
      accepted it, through lost calls, panics and restarts, and every check offers all
      staged blocks; only validated PSBTs are signed;
      a PSBT of the coin selection passes validation exactly when its fee divides evenly;
      the paid pegouts taken over from the peers are burns of the own chain, and those
      recorded of enough peers are taken over; a request is admitted exactly while
      the clocks agree to a minute.
    - The members' network.  No bytes of a peer panic the decoder or the manager; what is
      forwarded carries the identifier of the authority it came from; a sent message whose
      fields fit the wire format arrives unchanged.
    - Recovery and storage.  A recovery pays the deposit it names to the requested address and
      nothing else; the migration loses no table at any fault; a sealed header carries the
      hash of its header, however it was read.
    - The database lists what it stores, its commitment depends on its contents
      only, and pruning removes exactly the expired records.
    - Activation: exact acceptance conditions of proposals, on which proposer and
      validator agree, versions only go up and
      only by quorum, the in-memory vote store keeps each validator's latest vote in
      the window, and recorded transitions increase.

    ** Modelling choices

    Rust integers are [Z] with their width written out: [checked_*] operations
    return options, plain arithmetic wraps as in a release build.  [assert!],
    [expect], [unwrap] and out-of-range indexing are [Panic].  A method that
    changes state returns the state reached with every outcome, so early returns
    keep earlier effects.  A sled tree is a finite map iterated in key order; a
    [HashMap] is a finite map iterated in an arbitrary fixed order.  Store I/O and
    in-memory serialization do not fail.  Locks are held for the length of one
    method, so methods are atomic.  Logging and telemetry are left out.

    Code outside the repository is a class of operations, with a class of the
    documented laws the code relies on: the [bitcoin] crate ([BitcoinLib]),
    FROST ([Frost], [FrostSign]), the curve, transcript, cipher and key-generation
    parts ([DkgLib]), BDK's coin selection ([Bdk]), hashing, the key
    vault's cipher, and bitcoind ([Bitcoind], [CheckpointRpc]), which answers each call as
    a function of the number of calls made, so its view may change between any two
    calls; consensus encodings and curve points ([ConsensusEncoding], [Secp256k1]),
    Merkle proofs and addresses ([PegLib]), ABI decoding ([Abi]), tries, hashes and fee
    formulas ([EthLib], [BlockLib]), the EVM ([Evm]), the Ethereum database ([ChainLib],
    [ChainStore]), the block cache ([LruMap]), transaction bytes ([AbciLib]), RLP items
    ([RlpLib]), tokens, hex and base64 ([JwtLib], [TextLib], [JwtIssuer]), PSBT bytes and
    addresses ([WireLib]), bitcoind's wallet calls ([BitcoindWallet]), texts of peer ids and
    session ids ([PeerText], [UuidLib]), the recovery's exports ([RecoveryLib]), stored entries
    ([TableCodec]), formats and compression ([Serde], [Prost], [Compression]).  What the network
    does with a send or a connection is decided by the environment ([FrostNet], the link and
    the clocks of [ServerLink], the faults of [Migration]), at every step anew.  Between
    components of the repository such classes are interfaces: the vote store
    ([VoteStoreLaws]), the wallet server ([BtcServer]), the block parser ([ParserLaws]) and the
    codec of the synchronization ([SyncCodec]) have their implementations proved.
    Every class has a concrete instance, used by the worked examples.

    ** Fuel

    Loops whose length is not bounded by data carry fuel and report running out
    as an error of their own.  Safety theorems hold for every fuel.  Enough fuel
    is stated where termination is a theorem: rolling back needs one unit per
    known block, the walk from the tip one per missing block; [make_tx] needs one
    per output, or runs forever in the one case its theorem names; [read_proofs] has
    one unit per byte of the log and never runs out.

    ** Not modelled

    The rest of the reth node (networking, transaction pool, storage engine, tries, RPC,
    payload builder) is upstream code that the federation's rules call through the
    parameters above; generated message code, process glue (configuration, command lines,
    telemetry, HTTP, shutdown) and the scripts of [bin/botanix-up] and
    [bin/botanix-federation-utils] keep no state the parts above read; cryptography is a
    parameter.  Of the modelled files the constructors that only collect handles, debug
    formatting, metrics and functions used by tests alone are left out, as are genesis
    files, fork identifiers and the tables of upstream forks. *)

From stdpp Require Export base tactics list gmap sorting.
From Stdlib Require Export ZArith Lia.

#[export] Set Warnings "-clear-no-such-hyp".
Global Open Scope Z_scope.

(** ** Outcomes of Rust functions

    A Rust function that returns [Result<A, E>] and may also hit an [assert!],
    [expect] or [unwrap] has three outcomes.  [Panic] is the unwinding one. *)

Inductive result (E A : Type) : Type :=
  | Ok (a : A)
  | Err (e : E)
  | Panic.
Arguments Ok {E A} a.
Arguments Err {E A} e.
Arguments Panic {E A}.

Declare Scope rust_scope.
Delimit Scope rust_scope with rust.
Global Open Scope rust_scope.

(** The [?] operator: errors and panics leave the function early. *)
Definition rbind {E A B} (m : result E A) (k : A → result E B) : result E B :=
  match m with
  | Ok a => k a
  | Err e => Err e
  | Panic => Panic
  end.

Notation "'let?' x := m 'in' k" := (rbind m (λ x, k))
  (at level 10, x binder, m at level 100, k at level 200) : rust_scope.
Notation "'let?' ' p := m 'in' k" := (rbind m (λ p, k))
  (at level 10, p strict pattern, m at level 100, k at level 200) : rust_scope.

(** [Option::ok_or] and [Option::expect]. *)
Definition ok_or {E A} (o : option A) (e : E) : result E A :=
  match o with Some a => Ok a | None => Err e end.
Definition expect {E A} (o : option A) : result E A :=
  match o with Some a => Ok a | None => Panic end.

(** [From] conversions applied by [?], and [Result::map_err]. *)
Definition map_err {E F A} (f : E → F) (m : result E A) : result F A :=
  match m with Ok a => Ok a | Err e => Err (f e) | Panic => Panic end.

(** [assert!(b)]. *)
Definition rassert {E} (b : bool) : result E () := if b then Ok tt else Panic.

Definition is_ok {E A} (m : result E A) : bool :=
  match m with Ok _ => true | _ => false end.

(** ** Effects: a state and an outcome

    [&mut self] methods thread a state; the state reached so far survives an
    early return, so the state is part of every outcome. *)
Definition SM (S E A : Type) : Type := S → result E A * S.

Definition sret {S E A} (a : A) : SM S E A := λ s, (Ok a, s).
Definition sbind {S E A B} (m : SM S E A) (k : A → SM S E B) : SM S E B := λ s,
  match m s with
  | (Ok a, s') => k a s'
  | (Err e, s') => (Err e, s')
  | (Panic, s') => (Panic, s')
  end.
Definition sget {S E} : SM S E S := λ s, (Ok s, s).
Definition smodify {S E} (f : S → S) : SM S E () := λ s, (Ok tt, f s).
Definition slift {S E A} (r : result E A) : SM S E A := λ s, (r, s).
(** [map_err] on an effect. *)
Definition smap_err {S E F A} (f : E → F) (m : SM S E A) : SM S F A := λ s,
  let '(r, s') := m s in (map_err f r, s').
(** [.expect(..)] on an effect's outcome: errors become panics. *)
Definition sexpect {S E F A} (m : SM S E A) : SM S F A := λ s,
  let '(r, s') := m s in (match r with Ok a => Ok a | _ => Panic end, s').
(** An effect on a component of the state. *)
Definition zoom {S T E A} (get : S → T) (put : T → S → S) (m : SM T E A) : SM S E A := λ s,
  let '(r, t) := m (get s) in (r, put t s).

Notation "'let*' x := m 'in' k" := (sbind m (λ x, k))
  (at level 10, x binder, m at level 100, k at level 200) : rust_scope.
Notation "'let*' ' p := m 'in' k" := (sbind m (λ p, k))
  (at level 10, p strict pattern, m at level 100, k at level 200) : rust_scope.
Notation "m ;;* k" := (sbind m (λ _ : (), k))
  (at level 199, right associativity, k at level 200) : rust_scope.

(** [for x in l { f(x)?; }] *)
Fixpoint sfor {S E A} (l : list A) (f : A → SM S E ()) : SM S E () :=
  match l with
  | [] => sret tt
  | x :: l' => f x ;;* sfor l' f
  end.

(** ** Machine integers *)

Definition u16_max : Z := 65535.
Definition u32_max : Z := 4294967295.
Definition u64_max : Z := 18446744073709551615.
(** The targets are 64-bit: [usize] is [u64]. *)
Definition usize_max : Z := u64_max.

Definition wrap64 (x : Z) : Z := x mod (u64_max + 1).
(** [as u32] and wrapping [u32] arithmetic. *)
Definition wrap32 (x : Z) : Z := x mod (u32_max + 1).
Definition checked_add (a b : Z) : option Z :=
  if a + b <=? u64_max then Some (a + b) else None.
Definition checked_sub (a b : Z) : option Z :=
  if b <=? a then Some (a - b) else None.
Definition checked_mul (a b : Z) : option Z :=
  if a * b <=? u64_max then Some (a * b) else None.
Definition checked_div (a b : Z) : option Z :=
  if b =? 0 then None else Some (a / b).
Definition saturating_add (a b : Z) : Z := Z.min (a + b) u64_max.
Definition saturating_sub (a b : Z) : Z := Z.max (a - b) 0.
(** [usize::div_ceil]: quotient, plus one when the remainder is not zero; a
    zero divisor panics. *)
Definition div_ceil {E} (a b : Z) : result E Z :=
  if b =? 0 then Panic
  else Ok (if a mod b =? 0 then a / b else a / b + 1).

(** [Iterator::checked_sum] and [Iterator::sum] on amounts: the latter panics
    on overflow. *)
Fixpoint checked_sum_from (acc : Z) (l : list Z) : option Z :=
  match l with
  | [] => Some acc
  | x :: l' => match checked_add acc x with
               | Some acc' => checked_sum_from acc' l'
               | None => None
               end
  end.
Definition checked_sum (l : list Z) : option Z := checked_sum_from 0 l.
Definition amount_sum {E} (l : list Z) : result E Z := expect (checked_sum l).

Definition zsum (l : list Z) : Z := foldr Z.add 0 l.
Arguments zsum : simpl never.

(** ** Byte strings: fixed-width integer codecs ([to_le_bytes], [to_be_bytes]) *)

Abbreviation bytes := (list Z).

Definition is_byte (b : Z) : Prop := 0 ≤ b < 256.

Fixpoint to_le_bytes (n : nat) (z : Z) : bytes :=
  match n with
  | O => []
  | S n' => z mod 256 :: to_le_bytes n' (z / 256)
  end.
Fixpoint from_le_bytes (l : bytes) : Z :=
  match l with
  | [] => 0
  | b :: l' => b + 256 * from_le_bytes l'
  end.
Definition to_be_bytes (n : nat) (z : Z) : bytes := reverse (to_le_bytes n z).
Definition from_be_bytes (l : bytes) : Z := from_le_bytes (reverse l).

(** Lexicographic order on byte strings: the order in which an ordered
    key-value tree iterates. *)
Fixpoint bytes_leb (a b : bytes) : bool :=
  match a, b with
  | [], _ => true
  | _ :: _, [] => false
  | x :: a', y :: b' => (x <? y) || ((x =? y) && bytes_leb a' b')
  end.

(** ** Stable sorting ([slice::sort_by_key], [slice::sort_by])

    [le x y] is the comparison; an element moves in front of [y] only from the
    left, so equal elements keep their order. *)
Fixpoint insert_by {A} (le : A → A → bool) (x : A) (l : list A) : list A :=
  match l with
  | [] => [x]
  | y :: l' => if le x y then x :: y :: l' else y :: insert_by le x l'
  end.
Definition sort_by {A} (le : A → A → bool) (l : list A) : list A :=
  foldr (insert_by le) [] l.
Definition sort_by_key {A} (key : A → Z) (l : list A) : list A :=
  sort_by (λ x y, key x <=? key y) l.

(** ** Automation *)

Create HintDb macbeth.

(** Case analysis on the outcome of the first step of a [let?] chain. *)
Ltac rinv1 H :=
  match type of H with
  | rbind ?m _ = _ =>
      let E := fresh "E" in
      destruct m eqn:E; cbn [rbind] in H; [|discriminate H|discriminate H]
  end.
Ltac rinv H := repeat (rinv1 H).

Ltac bool_to_prop :=
  repeat match goal with
  | H : (_ <=? _) = true |- _ => apply Z.leb_le in H
  | H : (_ <=? _) = false |- _ => apply Z.leb_gt in H
  | H : (_ <? _) = true |- _ => apply Z.ltb_lt in H
  | H : (_ <? _) = false |- _ => apply Z.ltb_ge in H
  | H : (_ =? _) = true |- _ => apply Z.eqb_eq in H
  | H : (_ =? _) = false |- _ => apply Z.eqb_neq in H
  | H : andb _ _ = true |- _ => apply andb_true_iff in H as [? ?]
  | H : orb _ _ = false |- _ => apply orb_false_iff in H as [? ?]
  | H : negb _ = true |- _ => apply negb_true_iff in H
  | H : negb _ = false |- _ => apply negb_false_iff in H
  | H : bool_decide _ = true |- _ => apply bool_decide_eq_true in H
  | H : bool_decide _ = false |- _ => apply bool_decide_eq_false in H
  end.

(** Decide a closed proposition by evaluation. *)
Ltac decide_vm := refine (bool_decide_unpack _ _); vm_compute; exact I.

(** ** Lemmas: outcomes *)

Lemma rbind_ok {E A B} (m : result E A) (k : A → result E B) b :
  rbind m k = Ok b ↔ ∃ a, m = Ok a ∧ k a = Ok b.
Proof. destruct m; simpl; naive_solver. Qed.

Lemma ok_or_ok {E A} (o : option A) (e : E) a : ok_or o e = Ok a ↔ o = Some a.
Proof. destruct o; simpl; naive_solver. Qed.

Lemma expect_ok {E A} (o : option A) (a : A) : @expect E A o = Ok a ↔ o = Some a.
Proof. destruct o; simpl; naive_solver. Qed.

Lemma map_err_ok {E F A} (f : E → F) (m : result E A) a :
  map_err f m = Ok a ↔ m = Ok a.
Proof. destruct m; simpl; naive_solver. Qed.

Lemma sbind_ok {S E A B} (m : SM S E A) (k : A → SM S E B) s b s' :
  sbind m k s = (Ok b, s') ↔ ∃ a s1, m s = (Ok a, s1) ∧ k a s1 = (Ok b, s').
Proof. unfold sbind. destruct (m s) as [[] ?]; naive_solver. Qed.

(** Effects that never fail. *)
Lemma sbind_ext {S E A B} (m m' : SM S E A) (k k' : A → SM S E B) s :
  m s = m' s → (∀ a s1, k a s1 = k' a s1) → sbind m k s = sbind m' k' s.
Proof. unfold sbind. intros ->  Hk. destruct (m' s) as [[a| |] s1]; [apply Hk|done..]. Qed.

Definition always_ok {S E A} (f : SM S E A) : Prop := ∀ s, is_ok (f s).1 = true.

Lemma always_ok_ret {S E A} (a : A) : always_ok (sret (S := S) (E := E) a).
Proof. done. Qed.
Lemma always_ok_get {S E} : always_ok (sget (S := S) (E := E)).
Proof. done. Qed.
Lemma always_ok_modify {S E} (f : S → S) : always_ok (smodify (E := E) f).
Proof. done. Qed.
Lemma always_ok_bind {S E A B} (m : SM S E A) (k : A → SM S E B) :
  always_ok m → (∀ a, always_ok (k a)) → always_ok (sbind m k).
Proof.
  intros Hm Hk s. unfold sbind. specialize (Hm s).
  destruct (m s) as [[] s']; [apply Hk|done..].
Qed.
#[export] Hint Resolve always_ok_ret always_ok_get always_ok_modify : macbeth.

(** Decompose a chain of effects down to its primitive steps. *)
Ltac always_ok_tac :=
  repeat first
    [ progress intros
    | apply always_ok_bind
    | case_match
    | solve [eauto with macbeth] ].

Lemma sfor_app {S E A} (l1 l2 : list A) (f : A → SM S E ()) s :
  sfor (l1 ++ l2) f s = (sfor l1 f ;;* sfor l2 f) s.
Proof.
  revert s. induction l1 as [|x l1 IH]; intros s; [done|].
  simpl. unfold sbind at 1 3. unfold sbind at 1.
  destruct (f x s) as [[] s1]; simpl; [|done..]. rewrite IH. done.
Qed.

(** Loop rule: an invariant of the body that holds before a [for] loop holds
    after it, whatever the outcome. *)
Lemma sfor_invariant {S E A} (P : S → Prop) (l : list A) (f : A → SM S E ()) s :
  (∀ x s, x ∈ l → P s → P (f x s).2) → P s → P (sfor l f s).2.
Proof.
  revert s. induction l as [|x l IH]; intros s Hf HP; [done|].
  simpl. unfold sbind. pose proof (Hf x s ltac:(left) HP) as Hx.
  destruct (f x s) as [[] s1]; simpl in *; [|done..].
  apply IH; [|done]. intros y s2 Hy. apply Hf. by right.
Qed.

Lemma sfor_total {S E A} (l : list A) (f : A → SM S E ()) (g : A → S → S) s :
  (∀ x s, x ∈ l → f x s = (Ok tt, g x s)) →
  sfor l f s = (Ok tt, foldl (λ s x, g x s) s l).
Proof.
  revert s. induction l as [|x l IH]; intros s Hf; [done|].
  simpl. unfold sbind. rewrite Hf by left. apply IH.
  intros y s1 Hy. apply Hf. by right.
Qed.

(** ** Guarantees

    [guarantees T m]: running [m], whatever its outcome, relates the state before
    to the state after by [T].  For a preorder [T] the rules follow the program's
    structure. *)
Definition guarantees {S E A} (T : S → S → Prop) (m : SM S E A) : Prop := ∀ s, T s (m s).2.

Section guarantees.
Context {S E : Type} (T : S → S → Prop) `{!PreOrder T}.

Lemma guarantees_ret {A} (a : A) : guarantees T (sret (E := E) a).
Proof. intros s. simpl. reflexivity. Qed.
Lemma guarantees_get : guarantees T (sget (E := E)).
Proof. intros s. simpl. reflexivity. Qed.
Lemma guarantees_lift {A} (r : result E A) : guarantees T (slift r).
Proof. intros s. simpl. reflexivity. Qed.
Lemma guarantees_modify (f : S → S) : (∀ s, T s (f s)) → guarantees T (smodify (E := E) f).
Proof. intros Hf s. simpl. apply Hf. Qed.
Lemma guarantees_bind {A B} (m : SM S E A) (k : A → SM S E B) :
  guarantees T m → (∀ a, guarantees T (k a)) → guarantees T (sbind m k).
Proof.
  intros Hm Hk s. unfold sbind. specialize (Hm s).
  destruct (m s) as [[a|e|] s']; [|done..]. etrans; [done|apply Hk].
Qed.
(** A first step, whether the program goes on after it or not. *)
Lemma guarantees_prefix {A B} (m : SM S E A) (k : A → SM S E B) s r s' :
  guarantees T m → sbind m k s = (r, s') →
  (∃ x s1, m s = (Ok x, s1) ∧ T s s1 ∧ k x s1 = (r, s')) ∨ is_ok r = false ∧ T s s'.
Proof.
  intros Hm Heq. specialize (Hm s). unfold sbind in Heq.
  destruct (m s) as [[x|e|] s1]; simpl in *; [left; by exists x, s1|right..];
    by injection Heq as <- <-.
Qed.
Lemma guarantees_sfor {A} (l : list A) (f : A → SM S E ()) :
  (∀ x, x ∈ l → guarantees T (f x)) → guarantees T (sfor l f).
Proof.
  induction l as [|x l IH]; intros Hf; [apply guarantees_ret|]. simpl.
  apply guarantees_bind; [apply Hf; left|]. intros _. apply IH. intros y Hy. apply Hf. by right.
Qed.
Lemma guarantees_map_err {F A} (f : F → E) (m : SM S F A) :
  guarantees T m → guarantees T (smap_err f m).
Proof. intros Hm s. unfold smap_err. specialize (Hm s). by destruct (m s). Qed.
Lemma guarantees_expect {F A} (m : SM S F A) :
  guarantees T m → guarantees T (sexpect (F := E) m).
Proof. intros Hm s. unfold sexpect. specialize (Hm s). by destruct (m s). Qed.
Lemma guarantees_zoom {X A} (get : S → X) (put : X → S → S) (m : SM X E A) :
  (∀ s x, (m (get s)).2 = x → T s (put x s)) → guarantees T (zoom get put m).
Proof. intros Hm s. unfold zoom. specialize (Hm s). destruct (m (get s)). by apply Hm. Qed.
End guarantees.

(** Decompose a program down to the steps that change the state. *)
Ltac guarantees_tac :=
  repeat lazymatch goal with
  | |- ∀ _, _ => intro
  | |- guarantees _ (sbind _ _) => apply guarantees_bind; [typeclasses eauto| |]
  | |- guarantees _ (sfor _ _) => apply guarantees_sfor; [typeclasses eauto|]
  | |- guarantees _ (smap_err _ _) => apply guarantees_map_err
  | |- guarantees _ (sexpect _) => apply guarantees_expect
  | |- guarantees _ (match ?x with _ => _ end) => destruct x
  | |- guarantees _ (sret _) => apply guarantees_ret; typeclasses eauto
  | |- guarantees _ sget => apply guarantees_get; typeclasses eauto
  | |- guarantees _ (slift _) => apply guarantees_lift; typeclasses eauto
  | |- guarantees _ _ => solve [eauto with macbeth typeclass_instances]
  end.

(** ** Lemmas: machine integers *)

Lemma checked_add_some a b c : checked_add a b = Some c ↔ c = a + b ∧ a + b ≤ u64_max.
Proof. unfold checked_add. case_match; bool_to_prop; naive_solver lia. Qed.
Lemma checked_sub_some a b c : checked_sub a b = Some c ↔ c = a - b ∧ b ≤ a.
Proof. unfold checked_sub. case_match; bool_to_prop; naive_solver lia. Qed.
Lemma checked_mul_some a b c : checked_mul a b = Some c ↔ c = a * b ∧ a * b ≤ u64_max.
Proof. unfold checked_mul. case_match; bool_to_prop; naive_solver lia. Qed.
Lemma checked_div_some a b c : checked_div a b = Some c ↔ c = a / b ∧ b ≠ 0.
Proof. unfold checked_div. case_match; bool_to_prop; naive_solver lia. Qed.

Lemma wrap64_small x : 0 ≤ x ≤ u64_max → wrap64 x = x.
Proof. intros. unfold wrap64. apply Z.mod_small. lia. Qed.

Lemma wrap32_small x : 0 ≤ x ≤ u32_max → wrap32 x = x.
Proof. intros. unfold wrap32. apply Z.mod_small. lia. Qed.

(** Rounding up: [div_ceil] is the usual [(a + b - 1) / b]. *)
Lemma div_ceil_ok {E} a b : 0 < b → @div_ceil E a b = Ok ((a + b - 1) / b).
Proof.
  intros Hb. unfold div_ceil. rewrite (proj2 (Z.eqb_neq b 0)) by lia. f_equal.
  pose proof (Z.div_mod a b ltac:(lia)). pose proof (Z.mod_pos_bound a b Hb).
  case_match; bool_to_prop.
  - apply Z.div_unique with (r := b - 1); lia.
  - apply Z.div_unique with (r := a mod b - 1); lia.
Qed.
Lemma div_ceil_ge_iff a b q : 0 < b → q ≤ (a + b - 1) / b ↔ b * (q - 1) < a.
Proof.
  intros Hb. split.
  - intros Hq. pose proof (Z.mul_div_le (a + b - 1) b Hb). nia.
  - intros Hq. apply Z.div_le_lower_bound; [done|]. nia.
Qed.

Lemma zsum_app l1 l2 : zsum (l1 ++ l2) = zsum l1 + zsum l2.
Proof. unfold zsum. induction l1 as [|x l1 IH]; simpl; [lia|]. rewrite IH. lia. Qed.
Lemma zsum_cons x l : zsum (x :: l) = x + zsum l.
Proof. done. Qed.
Lemma zsum_nonneg l : Forall (λ x, 0 ≤ x) l → 0 ≤ zsum l.
Proof. induction 1; [done|]. rewrite zsum_cons. lia. Qed.
Lemma zsum_replicate n x : zsum (replicate n x) = Z.of_nat n * x.
Proof. induction n; [done|]. simpl replicate. rewrite zsum_cons. lia. Qed.
#[export] Instance zsum_perm : Proper ((≡ₚ) ==> (=)) zsum.
Proof. intros l1 l2. induction 1; rewrite ?zsum_cons in *; lia. Qed.
Lemma zsum_insert l i x y : l !! i = Some y → zsum (<[i:=x]> l) = zsum l - y + x.
Proof.
  revert i. induction l as [|z l IH]; intros [|i] Hi; simplify_eq/=.
  - rewrite !zsum_cons. lia.
  - rewrite !zsum_cons, (IH i) by done. lia.
Qed.

Lemma checked_sum_from_some acc l s :
  0 ≤ acc → Forall (λ x, 0 ≤ x) l →
  checked_sum_from acc l = Some s ↔ s = acc + zsum l ∧ (l = [] ∨ acc + zsum l ≤ u64_max).
Proof.
  intros Hacc Hl. revert acc Hacc. induction Hl as [|x l Hx Hl IH]; intros acc Hacc; simpl.
  - change (zsum []) with 0. rewrite Z.add_0_r. split; [intros [= ->]; auto|].
    by intros [-> _].
  - pose proof (zsum_nonneg _ Hl). rewrite zsum_cons.
    destruct (checked_add acc x) as [c|] eqn:Hc.
    + apply checked_add_some in Hc as [-> Hc]. rewrite IH by lia.
      split; intros [-> Hs]; (split; [lia|]); right; [|destruct Hs; [done|lia]].
      destruct Hs as [->|?]; [|lia]. change (zsum []) with 0. lia.
    + split; [done|]. intros [_ [?|?]]; [done|].
      unfold checked_add in Hc. case_match; bool_to_prop; [done|lia].
Qed.

(** The checked sum of amounts is their exact sum, and exists exactly when it
    fits in 64 bits. *)
Lemma checked_sum_some l s :
  Forall (λ x, 0 ≤ x) l → checked_sum l = Some s ↔ s = zsum l ∧ zsum l ≤ u64_max.
Proof.
  intros Hl. unfold checked_sum. rewrite checked_sum_from_some by (done || lia).
  rewrite Z.add_0_l. split; intros [-> Hs]; (split; [done|]); [|by right].
  destruct Hs as [->|?]; [|done]. change (zsum []) with 0. unfold u64_max. lia.
Qed.

Lemma amount_sum_ok {E} l s :
  Forall (λ x, 0 ≤ x) l → @amount_sum E l = Ok s ↔ s = zsum l ∧ zsum l ≤ u64_max.
Proof. intros. unfold amount_sum. rewrite expect_ok. by apply checked_sum_some. Qed.

(** ** Lemmas: codecs *)

Lemma length_to_le_bytes n z : length (to_le_bytes n z) = n.
Proof. revert z. induction n; intros; simpl; [done|]. by rewrite IHn. Qed.
Lemma length_to_be_bytes n z : length (to_be_bytes n z) = n.
Proof. unfold to_be_bytes. by rewrite length_reverse, length_to_le_bytes. Qed.

Lemma to_le_bytes_is_byte n z : Forall is_byte (to_le_bytes n z).
Proof.
  revert z. induction n; intros; simpl; constructor; [|done].
  unfold is_byte. pose proof (Z.mod_pos_bound z 256). lia.
Qed.

Lemma from_to_le_bytes n z : 0 ≤ z < 256 ^ Z.of_nat n → from_le_bytes (to_le_bytes n z) = z.
Proof.
  revert z. induction n as [|n IH]; intros z Hz; simpl.
  - change (256 ^ Z.of_nat 0) with 1 in Hz. lia.
  - rewrite Nat2Z.inj_succ, Z.pow_succ_r in Hz by lia.
    rewrite IH.
    + pose proof (Z.div_mod z 256 ltac:(lia)). lia.
    + split; [apply Z.div_pos; lia|]. apply Z.div_lt_upper_bound; lia.
Qed.

Lemma to_from_le_bytes l : Forall is_byte l → to_le_bytes (length l) (from_le_bytes l) = l.
Proof.
  induction 1 as [|b l Hb Hl IH]; simpl; [done|]. unfold is_byte in Hb.
  replace (b + 256 * from_le_bytes l) with (b + from_le_bytes l * 256) by lia.
  rewrite Z.mod_add, Z.div_add by lia.
  rewrite Z.mod_small, Z.div_small, Z.add_0_l, IH by lia. done.
Qed.

Lemma from_le_bytes_bound l :
  Forall is_byte l → 0 ≤ from_le_bytes l < 256 ^ Z.of_nat (length l).
Proof.
  induction 1 as [|b l Hb _ IH]; simpl length; [simpl; lia|].
  rewrite Nat2Z.inj_succ, Z.pow_succ_r by lia. unfold is_byte in Hb. simpl. lia.
Qed.

Lemma from_to_be_bytes n z : 0 ≤ z < 256 ^ Z.of_nat n → from_be_bytes (to_be_bytes n z) = z.
Proof.
  intros. unfold from_be_bytes, to_be_bytes. rewrite reverse_involutive.
  by apply from_to_le_bytes.
Qed.
Lemma to_from_be_bytes n l :
  length l = n → Forall is_byte l → to_be_bytes n (from_be_bytes l) = l.
Proof.
  intros <- Hl. unfold from_be_bytes, to_be_bytes. rewrite <-(length_reverse l).
  rewrite to_from_le_bytes by (by apply Forall_reverse). apply reverse_involutive.
Qed.

Lemma bytes_leb_total a b : bytes_leb a b = true ∨ bytes_leb b a = true.
Proof.
  revert b. induction a as [|x a IH]; intros [|y b]; simpl; auto.
  destruct (Z.lt_trichotomy x y) as [?|[->|?]].
  - left. apply orb_true_iff. left. by apply Z.ltb_lt.
  - rewrite Z.eqb_refl, !andb_true_l. destruct (IH b) as [->| ->]; rewrite orb_true_r; auto.
  - right. apply orb_true_iff. left. by apply Z.ltb_lt.
Qed.
Lemma bytes_leb_antisym a b : bytes_leb a b = true → bytes_leb b a = true → a = b.
Proof.
  revert b. induction a as [|x a IH]; intros [|y b]; simpl; try done.
  rewrite !orb_true_iff, !andb_true_iff, !Z.ltb_lt, !Z.eqb_eq.
  intros [?|[-> ?]] [?|[? ?]]; try lia. f_equal. by apply IH.
Qed.
Lemma bytes_leb_trans a b c :
  bytes_leb a b = true → bytes_leb b c = true → bytes_leb a c = true.
Proof.
  revert b c. induction a as [|x a IH]; intros [|y b] [|z c]; simpl; try done.
  rewrite !orb_true_iff, !andb_true_iff, !Z.ltb_lt, !Z.eqb_eq.
  intros [?|[-> ?]] [?|[? ?]]; [left; lia|left; lia|left; lia|right]. subst. eauto.
Qed.

(** ** Lemmas: stable sorting *)

Section sorting.
Context {A : Type} (le : A → A → bool).

Lemma insert_by_perm x l : insert_by le x l ≡ₚ x :: l.
Proof.
  induction l as [|y l IH]; simpl; [done|]. case_match; [done|].
  rewrite IH. apply Permutation_swap.
Qed.
Lemma sort_by_perm l : sort_by le l ≡ₚ l.
Proof. induction l as [|x l IH]; simpl; [done|]. by rewrite insert_by_perm, IH. Qed.

Context (le_total : ∀ x y, le x y = true ∨ le y x = true).
Context (le_trans : ∀ x y z, le x y = true → le y z = true → le x z = true).

Lemma insert_by_sorted x l :
  StronglySorted (λ a b, le a b = true) l →
  StronglySorted (λ a b, le a b = true) (insert_by le x l).
Proof.
  induction 1 as [|y l Hs IH Hy]; simpl; [repeat constructor|].
  destruct (le x y) eqn:Hxy.
  - constructor; [by constructor|]. constructor; [done|].
    eapply Forall_impl; [exact Hy|]. simpl. intros z. by apply le_trans.
  - constructor; [done|]. rewrite insert_by_perm. constructor; [|done].
    destruct (le_total x y); congruence.
Qed.
Lemma sort_by_sorted l : StronglySorted (λ a b, le a b = true) (sort_by le l).
Proof. induction l; simpl; [constructor|]. by apply insert_by_sorted. Qed.
End sorting.

Lemma StronglySorted_weaken {A} (R1 R2 : A → A → Prop) l :
  (∀ x y, R1 x y → R2 x y) → StronglySorted R1 l → StronglySorted R2 l.
Proof.
  intros HR. induction 1 as [|x l Hs IH Hx]; constructor; [done|].
  eapply Forall_impl; [exact Hx|]. simpl. auto.
Qed.

Section sort_key.
Context {A : Type} (key : A → Z).

Lemma sort_by_key_sorted l : StronglySorted (λ a b, key a ≤ key b) (sort_by_key key l).
Proof.
  apply (StronglySorted_weaken (λ a b, (key a <=? key b) = true)).
  - intros a b. by rewrite Z.leb_le.
  - apply sort_by_sorted; intros *; rewrite !Z.leb_le; lia.
Qed.

(** Stability: the elements with one key keep their relative order. *)
Lemma sort_by_key_stable k l :
  filter (λ x, key x = k) (sort_by_key key l) = filter (λ x, key x = k) l.
Proof.
  assert (∀ x l, filter (λ y, key y = k) (insert_by (λ a b, key a <=? key b) x l) =
                 filter (λ y, key y = k) (x :: l)) as Hins.
  { intros x l'. induction l' as [|y l' IH]; [done|]. simpl insert_by. case_match; [done|].
    bool_to_prop. rewrite filter_cons, IH, !filter_cons.
    repeat case_decide; try done. lia. }
  unfold sort_by_key, sort_by. induction l as [|x l IH]; [done|]. simpl foldr.
  rewrite Hins, !filter_cons, IH. done.
Qed.
End sort_key.

#[export] Hint Resolve zsum_nonneg length_to_le_bytes length_to_be_bytes
  sort_by_perm sort_by_sorted : macbeth.
