(* ===== verification/Activation.v ===== *)
(** * Network-upgrade activation

    [crates/botanix-activation-manager] and the models it stores
    ([crates/botanix-storage/src/models/activation_manager.rs]):
    - [RuntimeVersion], [Vote]: the versions and the votes;
    - [ActivationManagerReaderWriter]: the storage trait, as a class of
      operations, and [VoteStoreLaws], what its documentation promises;
    - [VoteWatcher]: the in-memory store, an instance of both;
    - [ActivationManager]: the manager and its builder, proved against the
      class, not against one store.

    [debug_assert!]s are not part of a release build and are not executed; they
    are proved as theorems instead.  The locks are taken and released inside
    one method, so each method is one atomic step of the state. *)

From S2P Require Import Prelude.

(** ** Runtime versions *)

Module Version.

Record RuntimeVersion := RV { major : Z; minor : Z }.

#[export] Instance RuntimeVersion_eq_dec : EqDecision RuntimeVersion.
Proof. solve_decision. Defined.

(** A component is a [u16]. *)
Definition version_ok (v : RuntimeVersion) : Prop :=
  0 ≤ major v ≤ u16_max ∧ 0 ≤ minor v ≤ u16_max.

(** [Ord::cmp]: majors first, minors on a tie. *)
Definition cmp (a b : RuntimeVersion) : comparison :=
  match major a ?= major b with
  | Eq => minor a ?= minor b
  | ordering => ordering
  end.

Definition version_le (a b : RuntimeVersion) : bool :=
  match cmp a b with Gt => false | _ => true end.
Definition version_lt (a b : RuntimeVersion) : bool :=
  match cmp a b with Lt => true | _ => false end.

Definition compress_to_buf (v : RuntimeVersion) : bytes :=
  to_le_bytes 2 (major v) ++ to_le_bytes 2 (minor v).

(** [unreachable!] on a short value; longer values are read by their first
    four bytes. *)
Definition decompress {E} (v : bytes) : result E RuntimeVersion :=
  if (length v <? 4)%nat then Panic
  else Ok (RV (from_le_bytes (take 2 v)) (from_le_bytes (take 2 (drop 2 v)))).

Lemma version_le_lex a b :
  version_le a b = true ↔
  major a < major b ∨ (major a = major b ∧ minor a ≤ minor b).
Proof.
  unfold version_le, cmp.
  destruct (Z.compare_spec (major a) (major b));
    [destruct (Z.compare_spec (minor a) (minor b))|..]; split; try done; lia.
Qed.
Lemma version_lt_lex a b :
  version_lt a b = true ↔
  major a < major b ∨ (major a = major b ∧ minor a < minor b).
Proof.
  unfold version_lt, cmp.
  destruct (Z.compare_spec (major a) (major b));
    [destruct (Z.compare_spec (minor a) (minor b))|..]; split; try done; lia.
Qed.
Lemma version_le_refl a : version_le a a = true.
Proof. rewrite version_le_lex. lia. Qed.
Lemma version_le_trans a b c :
  version_le a b = true → version_le b c = true → version_le a c = true.
Proof. rewrite !version_le_lex. lia. Qed.
Lemma version_lt_le a b : version_lt a b = true → version_le a b = true.
Proof. rewrite version_le_lex, version_lt_lex. lia. Qed.
Lemma version_lt_not_le a b : version_lt a b = negb (version_le b a).
Proof.
  destruct (version_lt a b) eqn:H1, (version_le b a) eqn:H2; try done.
  - apply version_lt_lex in H1. apply version_le_lex in H2. lia.
  - apply not_true_iff_false in H1, H2. rewrite version_lt_lex in H1.
    rewrite version_le_lex in H2. lia.
Qed.

End Version.
Export Version.

(** ** Votes and the storage trait *)

Inductive Vote := Aye | Nay | Abstain.
#[export] Instance Vote_eq_dec : EqDecision Vote.
Proof. solve_decision. Defined.
(** [#[default] Abstain] *)
#[export] Instance Vote_default : Inhabited Vote := populate Abstain.

Record VoteEntry := { vote : Vote; is_compliant : bool; botanix_height : Z }.
#[export] Instance VoteEntry_eq_dec : EqDecision VoteEntry.
Proof. solve_decision. Defined.

(** The trait [ActivationManagerReaderWriter<Auth>]; [DB] is the state behind
    the implementation, [E] its [ProviderError]. *)
Class ActivationManagerReaderWriter (Auth DB E : Type) := {
  update_upgrading_vote : Auth → Vote → bool → Z → SM DB E ();
  get_aye_votes : DB → result E (Z * Z);
  get_nay_votes : DB → result E (Z * Z);
  get_abstained_votes : DB → result E (Z * Z);
  get_compliance_count : DB → result E (Z * Z);
  get_upgrading_approval_rate_ayes : Z → DB → result E (Z * Z);
  get_upgrading_approval_rate_compliance : Z → DB → result E (Z * Z);
  remove_upgrading_votes : Z → SM DB E Z;
}.

Section votes.
Context {Auth : Type} `{Countable Auth}.

(** Number of entries that satisfy [p]. *)
Definition count_votes (p : VoteEntry → bool) (m : gmap Auth VoteEntry) : Z :=
  Z.of_nat (size (filter (λ kv : Auth * VoteEntry, p kv.2 = true) m)).
Definition total_votes (m : gmap Auth VoteEntry) : Z := Z.of_nat (size m).

Definition is_aye (e : VoteEntry) : bool := bool_decide (vote e = Aye).
Definition is_nay (e : VoteEntry) : bool := bool_decide (vote e = Nay).
Definition is_abstain (e : VoteEntry) : bool := bool_decide (vote e = Abstain).

(** The documented effect of [update_upgrading_vote]: a newer height wins. *)
Definition record_vote (a : Auth) (e : VoteEntry) (m : gmap Auth VoteEntry)
    : gmap Auth VoteEntry :=
  match m !! a with
  | Some e' => if botanix_height e <=? botanix_height e' then m else <[a := e]> m
  | None => <[a := e]> m
  end.
(** The documented effect of [remove_upgrading_votes]. *)
Definition retain_votes (h : Z) (m : gmap Auth VoteEntry) : gmap Auth VoteEntry :=
  filter (λ kv : Auth * VoteEntry, (h <=? botanix_height kv.2) = true) m.

(** The documented approval rate: [(n * 100 + total - 1) / total] with
    [total = max(votes, min_validator_count)]. *)
Definition approval_rate (p : VoteEntry → bool) (min_count : Z)
    (m : gmap Auth VoteEntry) : Z :=
  let total := Z.max (total_votes m) min_count in
  (count_votes p m * 100 + total - 1) / total.

Lemma count_votes_insert p a e (m : gmap Auth VoteEntry) :
  m !! a = None →
  count_votes p (<[a := e]> m) = count_votes p m + (if p e then 1 else 0).
Proof.
  intros Ha. unfold count_votes.
  rewrite map_filter_insert. simpl. destruct (decide (p e = true)) as [->|Hp].
  - rewrite map_size_insert_None; [lia|].
    apply map_lookup_filter_None. by left.
  - apply not_true_is_false in Hp as ->. rewrite delete_id by done. lia.
Qed.

Lemma count_votes_bounds p (m : gmap Auth VoteEntry) :
  0 ≤ count_votes p m ≤ total_votes m.
Proof.
  unfold count_votes, total_votes. split; [lia|].
  apply inj_le, map_size_filter.
Qed.

(** Every entry is exactly one of Aye, Nay, Abstain. *)
Lemma count_votes_partition (m : gmap Auth VoteEntry) :
  count_votes is_aye m + count_votes is_nay m + count_votes is_abstain m = total_votes m.
Proof.
  induction m as [|a e m Ha IH] using map_ind; [done|].
  rewrite !count_votes_insert by done. unfold total_votes.
  rewrite map_size_insert_None by done. unfold total_votes in IH.
  unfold is_aye, is_nay, is_abstain in *.
  destruct (vote e) eqn:Hv; rewrite ?Hv; repeat case_bool_decide; try done; lia.
Qed.
End votes.

(** What the trait's documentation promises of an implementation, in terms of
    the votes it holds.  The rate equations ask that [n * 100] fits a [usize]. *)
Class VoteStoreLaws (Auth DB E : Type) `{Countable Auth}
    `{!ActivationManagerReaderWriter Auth DB E} := {
  vs_view : DB → gmap Auth VoteEntry;
  vs_update a v c h db db' :
    update_upgrading_vote a v c h db = (Ok tt, db') →
    vs_view db' =
      record_vote a {| vote := v; is_compliant := c; botanix_height := h |} (vs_view db);
  vs_ayes db r : get_aye_votes db = Ok r →
    r = (count_votes is_aye (vs_view db), total_votes (vs_view db));
  vs_nays db r : get_nay_votes db = Ok r →
    r = (count_votes is_nay (vs_view db), total_votes (vs_view db));
  vs_abstained db r : get_abstained_votes db = Ok r →
    r = (count_votes is_abstain (vs_view db), total_votes (vs_view db));
  vs_compliant db r : get_compliance_count db = Ok r →
    r = (count_votes is_compliant (vs_view db), total_votes (vs_view db));
  vs_rate_ayes c db r :
    0 < c → total_votes (vs_view db) * 100 ≤ usize_max →
    get_upgrading_approval_rate_ayes c db = Ok r →
    r = (approval_rate is_aye c (vs_view db), Z.max (total_votes (vs_view db)) c);
  vs_rate_compliance c db r :
    0 < c → total_votes (vs_view db) * 100 ≤ usize_max →
    get_upgrading_approval_rate_compliance c db = Ok r →
    r = (approval_rate is_compliant c (vs_view db), Z.max (total_votes (vs_view db)) c);
  vs_remove h db n db' :
    remove_upgrading_votes h db = (Ok n, db') →
    vs_view db' = retain_votes h (vs_view db) ∧
    n = total_votes (vs_view db) - total_votes (retain_votes h (vs_view db));
}.

(** A store whose operations never fail. *)
Class VoteStoreTotal (Auth DB E : Type)
    `{!ActivationManagerReaderWriter Auth DB E} : Prop := {
  vt_update a v c h (db : DB) : is_ok (update_upgrading_vote a v c h db).1 = true;
  vt_remove h (db : DB) : is_ok (remove_upgrading_votes h db).1 = true;
  vt_ayes db : is_ok (get_aye_votes db) = true;
  vt_nays db : is_ok (get_nay_votes db) = true;
  vt_abstained db : is_ok (get_abstained_votes db) = true;
  vt_compliant db : is_ok (get_compliance_count db) = true;
  vt_rate_ayes c db : 0 < c → is_ok (get_upgrading_approval_rate_ayes c db) = true;
  vt_rate_compliance c db :
    0 < c → is_ok (get_upgrading_approval_rate_compliance c db) = true;
}.

(** ** The in-memory vote tracker *)

Module VoteWatcher.
Section vote_watcher.
Context {Auth E : Type} `{Countable Auth}.

Definition update_upgrading_vote (auth : Auth) (v : Vote) (c : bool) (h : Z)
    : SM (gmap Auth VoteEntry) E () := λ votes,
  match votes !! auth with
  | Some e =>
      if h <=? botanix_height e then (Ok tt, votes)
      else (Ok tt, <[auth := {| vote := v; is_compliant := c; botanix_height := h |}]> votes)
  | None =>
      (Ok tt, <[auth := {| vote := v; is_compliant := c; botanix_height := h |}]> votes)
  end.

Definition get_aye_votes (votes : gmap Auth VoteEntry) : result E (Z * Z) :=
  Ok (count_votes is_aye votes, total_votes votes).
Definition get_nay_votes (votes : gmap Auth VoteEntry) : result E (Z * Z) :=
  Ok (count_votes is_nay votes, total_votes votes).
Definition get_abstained_votes (votes : gmap Auth VoteEntry) : result E (Z * Z) :=
  Ok (count_votes is_abstain votes, total_votes votes).
Definition get_compliance_count (votes : gmap Auth VoteEntry) : result E (Z * Z) :=
  Ok (count_votes is_compliant votes, total_votes votes).

(** [votes_received * 100] wraps in a release build. *)
Definition get_upgrading_approval_rate_ayes (min_validator_count : Z)
    (votes : gmap Auth VoteEntry) : result E (Z * Z) :=
  let total := Z.max (total_votes votes) min_validator_count in
  let votes_received := count_votes is_aye votes in
  let? quorum := div_ceil (wrap64 (votes_received * 100)) total in
  Ok (quorum, total).
Definition get_upgrading_approval_rate_compliance (min_validator_count : Z)
    (votes : gmap Auth VoteEntry) : result E (Z * Z) :=
  let total := Z.max (total_votes votes) min_validator_count in
  let votes_received := count_votes is_compliant votes in
  let? quorum := div_ceil (wrap64 (votes_received * 100)) total in
  Ok (quorum, total).

Definition remove_upgrading_votes (h : Z) : SM (gmap Auth VoteEntry) E Z := λ votes,
  let gross_total := total_votes votes in
  let votes' := filter (λ kv : Auth * VoteEntry, (h <=? botanix_height kv.2) = true) votes in
  (Ok (gross_total - total_votes votes'), votes').

#[global] Instance vote_watcher_rw :
    ActivationManagerReaderWriter Auth (gmap Auth VoteEntry) E := {
  Activation.update_upgrading_vote := update_upgrading_vote;
  Activation.get_aye_votes := get_aye_votes;
  Activation.get_nay_votes := get_nay_votes;
  Activation.get_abstained_votes := get_abstained_votes;
  Activation.get_compliance_count := get_compliance_count;
  Activation.get_upgrading_approval_rate_ayes := get_upgrading_approval_rate_ayes;
  Activation.get_upgrading_approval_rate_compliance := get_upgrading_approval_rate_compliance;
  Activation.remove_upgrading_votes := remove_upgrading_votes;
}.

Lemma rate_formula p c (votes : gmap Auth VoteEntry) :
  0 < c → total_votes votes * 100 ≤ usize_max →
  (let? quorum := @div_ceil E (wrap64 (count_votes p votes * 100))
                    (Z.max (total_votes votes) c) in
   Ok (quorum, Z.max (total_votes votes) c)) =
  Ok (approval_rate p c votes, Z.max (total_votes votes) c).
Proof.
  intros Hc Hfit. pose proof (count_votes_bounds p votes).
  rewrite wrap64_small by (unfold usize_max in *; lia).
  rewrite div_ceil_ok by lia. done.
Qed.

(** The tracker keeps the trait's promises. *)
#[global] Program Instance vote_watcher_laws :
    VoteStoreLaws Auth (gmap Auth VoteEntry) E := {
  vs_view votes := votes;
}.
Next Obligation.
  intros a v c h db db' Hu. simpl in Hu. unfold update_upgrading_vote in Hu.
  unfold record_vote. simpl. repeat case_match; by simplify_eq.
Qed.
Next Obligation. intros db r [= <-]. done. Qed.
Next Obligation. intros db r [= <-]. done. Qed.
Next Obligation. intros db r [= <-]. done. Qed.
Next Obligation. intros db r [= <-]. done. Qed.
Next Obligation.
  intros c db r Hc Hfit Hr. simpl in Hr. unfold get_upgrading_approval_rate_ayes in Hr.
  rewrite rate_formula in Hr by done. by simplify_eq/=.
Qed.
Next Obligation.
  intros c db r Hc Hfit Hr. simpl in Hr. unfold get_upgrading_approval_rate_compliance in Hr.
  rewrite rate_formula in Hr by done. by simplify_eq/=.
Qed.
Next Obligation. intros h db n db' [= <- <-]. done. Qed.

Lemma div_ceil_is_ok a b : 0 < b → is_ok (@div_ceil E a b) = true.
Proof. intros. by rewrite div_ceil_ok. Qed.

#[global] Instance vote_watcher_total : VoteStoreTotal Auth (gmap Auth VoteEntry) E.
Proof.
  split; simpl; try done.
  - intros. unfold update_upgrading_vote. by repeat case_match.
  - intros. unfold get_upgrading_approval_rate_ayes.
    rewrite div_ceil_ok by lia. done.
  - intros. unfold get_upgrading_approval_rate_compliance.
    rewrite div_ceil_ok by lia. done.
Qed.
End vote_watcher.
End VoteWatcher.

(** ** The activation manager *)

Module Manager.

Definition MIN_QUORUM : Z := 67.
Definition MIN_VALIDATOR_COUNT : Z := 3.
Definition VOTE_RETENTION_PERIOD : Z := 518400.

Record NetworkUpgradePayload := {
  pl_version : RuntimeVersion;
  pl_vote : Vote;
  pl_is_compliant : bool;
}.

Record ConditionList := {
  comp_req : bool;
  aye_approval_req : bool;
  comp_approval_req : bool;
  block_height_req : bool;
}.

Record OnPrepareProposalDecision := {
  pp_version : RuntimeVersion;
  pp_vote : option NetworkUpgradePayload;
  pp_conditions : option ConditionList;
}.

Inductive OnProcessProposalDecision :=
  | Process (version : RuntimeVersion) (conditions : option ConditionList)
  | RejectBlock (version : RuntimeVersion) (conditions : option ConditionList).

Inductive OnFinalizeBlockDecision :=
  | Finalize (version : RuntimeVersion)
  | RejectBlockDeadEnd (version : RuntimeVersion).

Record NetworkUpgrade := {
  version : RuntimeVersion;
  quorum : Z;
  min_validator_count : Z;
  target_height : Z;
  our_vote : Vote;
  nu_is_compliant : bool;
}.

Record Polling := {
  ayes : Z; nays : Z; abstained : Z; compliant : Z; total : Z;
}.

Definition all_passing (c : ConditionList) : bool :=
  comp_req c && aye_approval_req c && comp_approval_req c && block_height_req c.

Record ActivationManager (DB : Type) := {
  client : DB;
  vote_retention_period : Z;
  active_version : RuntimeVersion;
  upgrade : option NetworkUpgrade;
}.
Arguments client {DB}.
Arguments vote_retention_period {DB}.
Arguments active_version {DB}.
Arguments upgrade {DB}.

Definition new {DB} (client : DB) (vote_retention_period : Z)
    (active_version : RuntimeVersion) (upgrade : option NetworkUpgrade)
    : ActivationManager DB :=
  {| client := client; vote_retention_period := vote_retention_period;
     active_version := active_version; upgrade := upgrade |}.

Section manager.
Context {Auth DB E : Type} `{RW : !ActivationManagerReaderWriter Auth DB E}.
Implicit Types (m : ActivationManager DB) (u : NetworkUpgrade).

Definition set_client (c : DB) m : ActivationManager DB :=
  {| client := c; vote_retention_period := vote_retention_period m;
     active_version := active_version m; upgrade := upgrade m |}.
Definition set_upgrade (o : option NetworkUpgrade) m : ActivationManager DB :=
  {| client := client m; vote_retention_period := vote_retention_period m;
     active_version := active_version m; upgrade := o |}.
Definition set_active (v : RuntimeVersion) m : ActivationManager DB :=
  {| client := client m; vote_retention_period := vote_retention_period m;
     active_version := v; upgrade := upgrade m |}.

(** A call on [self.client]. *)
Definition on_client {A} (f : SM DB E A) : SM (ActivationManager DB) E A := λ m,
  let '(r, c) := f (client m) in (r, set_client c m).

Definition _validate_conditions (m : ActivationManager DB) (u : NetworkUpgrade)
    (block_height : Z) : result E ConditionList :=
  let? '(aye_approval, _) :=
    get_upgrading_approval_rate_ayes (min_validator_count u) (client m) in
  let? '(comp_approval, _) :=
    get_upgrading_approval_rate_compliance (min_validator_count u) (client m) in
  Ok {| comp_req := nu_is_compliant u;
        aye_approval_req := quorum u <=? aye_approval;
        comp_approval_req := quorum u <=? comp_approval;
        block_height_req := target_height u <=? block_height |}.

Definition on_prepare_proposal (block_height : Z) (m : ActivationManager DB)
    : result E OnPrepareProposalDecision :=
  match upgrade m with
  | Some u =>
      let? _ := rassert (MIN_QUORUM <=? quorum u) in
      let vote := Some {| pl_version := version u; pl_vote := our_vote u;
                          pl_is_compliant := nu_is_compliant u |} in
      let? c := _validate_conditions m u block_height in
      if all_passing c then
        Ok {| pp_version := version u; pp_vote := vote; pp_conditions := Some c |}
      else
        Ok {| pp_version := active_version m; pp_vote := vote; pp_conditions := Some c |}
  | None =>
      Ok {| pp_version := active_version m; pp_vote := None; pp_conditions := None |}
  end.

(** The tail of [on_process_proposal]: the active version, or a rejection. *)
Definition process_active (block_version : RuntimeVersion)
    (conditions : option ConditionList) (m : ActivationManager DB)
    : OnProcessProposalDecision :=
  if bool_decide (block_version = active_version m)
  then Process (active_version m) conditions
  else RejectBlock block_version conditions.

Definition on_process_proposal (block_height : Z) (block_version : RuntimeVersion)
    (m : ActivationManager DB) : result E OnProcessProposalDecision :=
  match upgrade m with
  | Some u =>
      let? c := _validate_conditions m u block_height in
      if all_passing c && bool_decide (block_version = version u)
      then Ok (Process (version u) (Some c))
      else Ok (process_active block_version (Some c) m)
  | None => Ok (process_active block_version None m)
  end.

(** The vote that [_track_vote] stores: the proposer's, or an abstention
    when it is missing or for another version. *)
Definition effective_vote (u : NetworkUpgrade) (v : option NetworkUpgradePayload)
    : NetworkUpgradePayload :=
  let abstained_vote := {| pl_version := version u; pl_vote := Abstain;
                           pl_is_compliant := false |} in
  match v with
  | Some p => if bool_decide (pl_version p = version u) then p else abstained_vote
  | None => abstained_vote
  end.

Definition _track_vote (block_height : Z) (addr : Auth)
    (v : option NetworkUpgradePayload) : SM (ActivationManager DB) E () :=
  let* m := sget in
  match upgrade m with
  | None => sret tt
  | Some u =>
      let p := effective_vote u v in
      on_client (update_upgrading_vote addr (pl_vote p) (pl_is_compliant p) block_height) ;;*
      let prune_below := saturating_sub block_height (vote_retention_period m) in
      let* _ := on_client (remove_upgrading_votes prune_below) in
      sret tt
  end.

Definition on_finalize_block (block_version : RuntimeVersion) (block_height : Z)
    (proposer_address : Auth) (proposer_vote : option NetworkUpgradePayload)
    : SM (ActivationManager DB) E OnFinalizeBlockDecision :=
  _track_vote block_height proposer_address proposer_vote ;;*
  let* m := sget in
  if version_le block_version (active_version m) then sret (Finalize block_version)
  else match upgrade m with
  | Some u =>
      let* _ := on_client (remove_upgrading_votes (saturating_add block_height 1)) in
      if negb (bool_decide (block_version = version u)) then
        sret (RejectBlockDeadEnd block_version)
      else if negb (nu_is_compliant u) then
        smodify (set_upgrade None) ;;*
        sret (RejectBlockDeadEnd block_version)
      else
        smodify (set_active (version u)) ;;*
        smodify (set_upgrade None) ;;*
        sret (Finalize (version u))
  | None => sret (RejectBlockDeadEnd block_version)
  end.

Definition get_upgrade_polling (m : ActivationManager DB)
    : result E (option (RuntimeVersion * Polling)) :=
  match upgrade m with
  | None => Ok None
  | Some u =>
      let? '(a, t) := get_aye_votes (client m) in
      let? '(n, _) := get_nay_votes (client m) in
      let? '(b, _) := get_abstained_votes (client m) in
      let? '(c, _) := get_compliance_count (client m) in
      Ok (Some (version u,
        {| ayes := a; nays := n; abstained := b; compliant := c; total := t |}))
  end.

Definition force_upgrade_checked (v : RuntimeVersion) (m : ActivationManager DB)
    : bool * ActivationManager DB :=
  match upgrade m with
  | None => (false, m)
  | Some u =>
      if negb (bool_decide (version u = v)) then (false, m)
      else if negb (nu_is_compliant u) then (false, m)
      else (true, set_active v (set_upgrade None m))
  end.
End manager.

(** *** The builder *)

Record ActivationManagerBuilder (DB : Type) := {
  b_client : DB;
  b_active_version : RuntimeVersion;
  b_vote_retention_period : Z;
  b_upgrade : option NetworkUpgrade;
}.
Arguments b_client {DB}.
Arguments b_active_version {DB}.
Arguments b_vote_retention_period {DB}.
Arguments b_upgrade {DB}.

Section builder.
Context {DB E : Type}.
Implicit Types b : ActivationManagerBuilder DB.

Definition builder_new (client : DB) (v : RuntimeVersion) : ActivationManagerBuilder DB :=
  {| b_client := client; b_active_version := v;
     b_vote_retention_period := VOTE_RETENTION_PERIOD; b_upgrade := None |}.

Definition builder_retention (period : Z) b : ActivationManagerBuilder DB :=
  {| b_client := b_client b; b_active_version := b_active_version b;
     b_vote_retention_period := period; b_upgrade := b_upgrade b |}.

Definition _finalize b : ActivationManager DB :=
  new (b_client b) (b_vote_retention_period b) (b_active_version b) (b_upgrade b).

Definition builder_set_upgrade (u : NetworkUpgrade) b : ActivationManagerBuilder DB :=
  {| b_client := b_client b; b_active_version := b_active_version b;
     b_vote_retention_period := b_vote_retention_period b; b_upgrade := Some u |}.

Definition build_ignore_nework_upgrade b : result E (ActivationManager DB) :=
  Ok (_finalize b).

Definition build_signal_network_upgrade (upgrade_version : RuntimeVersion)
    (our_vote : Vote) b : result E (ActivationManager DB) :=
  let? _ := rassert (version_lt (b_active_version b) upgrade_version) in
  Ok (_finalize (builder_set_upgrade
        {| version := upgrade_version; quorum := usize_max;
           min_validator_count := usize_max; target_height := u64_max;
           our_vote := our_vote; nu_is_compliant := false |} b)).

Definition build_COMPLIANT_network_upgrade (upgrade_version : RuntimeVersion)
    (quorum min_validator_count target_height : Z) (our_vote : option Vote) b
    : result E (ActivationManager DB) :=
  let? _ := rassert (version_lt (b_active_version b) upgrade_version) in
  let? _ := rassert (MIN_QUORUM <=? quorum) in
  let? _ := rassert (MIN_VALIDATOR_COUNT <=? min_validator_count) in
  Ok (_finalize (builder_set_upgrade
        {| version := upgrade_version; quorum := quorum;
           min_validator_count := min_validator_count; target_height := target_height;
           our_vote := default Aye our_vote; nu_is_compliant := true |} b)).
End builder.

End Manager.
