(* ===== verification/ActivationTheory.v ===== *)
(** * Theorems about network-upgrade activation

    Everything about the manager is proved for any store that satisfies
    [VoteStoreLaws]; witnesses run the in-memory [VoteWatcher]. *)

From S2P Require Import Prelude Activation.
Import Manager.

(** ** Runs of the manager *)

Section runs.
Context {Auth DB E : Type} `{RW : !ActivationManagerReaderWriter Auth DB E}.
Implicit Types (m : ActivationManager DB) (u : NetworkUpgrade).

(** A manager as one of the three builder methods returns it. *)
Inductive built (b : ActivationManagerBuilder DB) : ActivationManager DB → Prop :=
  | built_ignore m : build_ignore_nework_upgrade (E := E) b = Ok m → built b m
  | built_signal v w m : build_signal_network_upgrade (E := E) v w b = Ok m → built b m
  | built_compliant v q c t w m :
      build_COMPLIANT_network_upgrade (E := E) v q c t w b = Ok m → built b m.

(** The calls that change the manager, whatever their outcome. *)
Inductive am_step : ActivationManager DB → ActivationManager DB → Prop :=
  | step_finalize v h (a : Auth) pv m r m' :
      on_finalize_block v h a pv m = (r, m') → am_step m m'
  | step_force v m r m' : force_upgrade_checked v m = (r, m') → am_step m m'.

(** A pending upgrade is newer than the active version and its thresholds are
    those the builder demands. *)
Definition wf m : Prop :=
  ∀ u, upgrade m = Some u →
    version_lt (active_version m) (version u) = true ∧
    MIN_QUORUM ≤ quorum u ∧ MIN_VALIDATOR_COUNT ≤ min_validator_count u.

Lemma built_wf b m : b_upgrade b = None → built b m → wf m.
Proof.
  intros Hb [m' Hm|v w m' Hm|v q c t w m' Hm] u Hu.
  - injection Hm as <-. simpl in Hu. congruence.
  - unfold build_signal_network_upgrade, rassert in Hm. case_match; [|done].
    simplify_eq/=. split; [done|]. by vm_compute.
  - unfold build_COMPLIANT_network_upgrade, rassert in Hm.
    repeat (case_match; [|done]; simpl in Hm). simplify_eq/=. bool_to_prop. done.
Qed.

(** How one call can move the version and the pending upgrade. *)
Definition moved m m' : Prop :=
  (active_version m' = active_version m ∧
   (upgrade m' = upgrade m ∨ upgrade m' = None)) ∨
  (∃ u, upgrade m = Some u ∧ nu_is_compliant u = true ∧
        active_version m' = version u ∧ upgrade m' = None).

Lemma moved_refl m : moved m m.
Proof. left; auto. Qed.
Lemma moved_trans m1 m2 m3 : moved m1 m2 → moved m2 m3 → moved m1 m3.
Proof.
  intros [[Ha Hu]|(u & Hu & Hc & Ha & Hn)] [[Ha' Hu']|(u' & Hu' & Hc' & Ha' & Hn')].
  - left. split; [congruence|]. destruct Hu as [<-|Hu]; [done|].
    right. destruct Hu'; congruence.
  - right. exists u'. destruct Hu; [|congruence]. repeat split; congruence.
  - right. exists u. repeat split; try congruence. destruct Hu'; congruence.
  - congruence.
Qed.
Lemma moved_wf m m' : wf m → moved m m' → wf m'.
Proof.
  intros Hwf [[Ha [Hu|Hu]]|(u & _ & _ & _ & Hn)] u' Hu'; [|congruence..].
  rewrite Ha. apply Hwf. congruence.
Qed.

Lemma on_client_frame {A} (f : SM DB E A) m r m' :
  on_client f m = (r, m') →
  active_version m' = active_version m ∧ upgrade m' = upgrade m.
Proof. unfold on_client. destruct (f (client m)). intros. by simplify_eq/=. Qed.

Lemma track_vote_frame h (a : Auth) pv m r m' :
  _track_vote h a pv m = (r, m') →
  active_version m' = active_version m ∧ upgrade m' = upgrade m.
Proof.
  unfold _track_vote, sget, sbind, sret. destruct (upgrade m) eqn:Hu; [|by intros; simplify_eq].
  destruct (on_client _ m) as [r1 m1] eqn:H1. apply on_client_frame in H1 as [? ?].
  destruct r1; [|intros; simplify_eq; by split; congruence..].
  destruct (on_client _ m1) as [r2 m2] eqn:H2. apply on_client_frame in H2 as [? ?].
  destruct r2; intros; simplify_eq; by split; congruence.
Qed.

Ltac stay := simplify_eq; left; split; [congruence|left; congruence].

Lemma am_step_moved m m' : am_step m m' → moved m m'.
Proof.
  intros [v h a pv m1 r m2 Hf|v m1 r m2 Hf].
  - unfold on_finalize_block, sget, sbind, smodify, sret in Hf.
    destruct (_track_vote h a pv m1) as [r0 m0] eqn:Ht.
    apply track_vote_frame in Ht as [Ha Hu].
    destruct r0; [|stay..].
    destruct (version_le v (active_version m0)); [stay|].
    destruct (upgrade m0) as [u|] eqn:Hup; [|stay].
    destruct (on_client _ m0) as [r1 m3] eqn:Hc. apply on_client_frame in Hc as [Ha' Hu'].
    destruct r1; [|stay..].
    destruct (negb _); [stay|].
    destruct (nu_is_compliant u) eqn:Hcomp; simplify_eq/=.
    + right. exists u. auto.
    + left. simpl. split; [congruence|auto].
  - unfold force_upgrade_checked in Hf.
    destruct (upgrade m1) as [u|] eqn:Hu; [|simplify_eq; apply moved_refl].
    destruct (bool_decide (version u = v)) eqn:Hv; simpl in Hf; [|simplify_eq; apply moved_refl].
    destruct (nu_is_compliant u) eqn:Hc; simplify_eq/=; [|apply moved_refl].
    bool_to_prop. right. exists u. auto.
Qed.

Lemma am_steps_moved m m' : rtc am_step m m' → moved m m'.
Proof.
  induction 1 as [m|m1 m2 m3 H1 _ IH]; [apply moved_refl|].
  eapply moved_trans; [by apply am_step_moved|done].
Qed.

Lemma reachable_wf b m0 m :
  b_upgrade b = None → built b m0 → rtc am_step m0 m → wf m.
Proof. eauto using built_wf, moved_wf, am_steps_moved. Qed.
End runs.

(** ** Decisions *)

Section decisions.
Context {Auth DB E : Type} `{Countable Auth}
  `{RW : !ActivationManagerReaderWriter Auth DB E}.
Implicit Types (m : ActivationManager DB) (u : NetworkUpgrade).

Definition accepts (d : OnProcessProposalDecision) : bool :=
  match d with Process _ _ => true | RejectBlock _ _ => false end.

(** The denominator of an approval rate. *)
Definition electorate u (votes : gmap Auth VoteEntry) : Z :=
  Z.max (total_votes votes) (min_validator_count u).

(** An upgrade may activate at a height: the node is compliant, the target is
    reached, and strictly more than [quorum - 1] percent of the electorate
    voted Aye, and is compliant. *)
Definition may_activate u (h : Z) (votes : gmap Auth VoteEntry) : Prop :=
  nu_is_compliant u = true ∧ target_height u ≤ h ∧
  electorate u votes * (quorum u - 1) < 100 * count_votes is_aye votes ∧
  electorate u votes * (quorum u - 1) < 100 * count_votes is_compliant votes.

Lemma approval_rate_ge p c q (votes : gmap Auth VoteEntry) :
  0 < c →
  q ≤ approval_rate p c votes ↔
  Z.max (total_votes votes) c * (q - 1) < 100 * count_votes p votes.
Proof.
  intros Hc. unfold approval_rate. rewrite div_ceil_ge_iff by lia.
  by rewrite (Z.mul_comm 100).
Qed.

Context `{L : !VoteStoreLaws Auth DB E}.

Definition fits m : Prop := total_votes (vs_view (client m)) * 100 ≤ usize_max.

Lemma validate_conditions_spec m u h c :
  0 < min_validator_count u → fits m → _validate_conditions m u h = Ok c →
  all_passing c = true ↔ may_activate u h (vs_view (client m)).
Proof.
  intros Hmin Hfit Hc. unfold _validate_conditions in Hc.
  rinv1 Hc. apply vs_rate_ayes in E0 as ->; [|done..].
  rinv1 Hc. apply vs_rate_compliance in E0 as ->; [|done..].
  injection Hc as <-. unfold all_passing, may_activate, electorate. simpl.
  rewrite !andb_true_iff, !Z.leb_le, !approval_rate_ge by done. tauto.
Qed.

Lemma process_accepts_cases m h v d :
  on_process_proposal h v m = Ok d →
  accepts d = true ↔
  v = active_version m ∨
  ∃ u c, upgrade m = Some u ∧ v = version u ∧
         _validate_conditions m u h = Ok c ∧ all_passing c = true.
Proof.
  unfold on_process_proposal, process_active. intros Hd.
  destruct (upgrade m) as [u|].
  - rinv1 Hd. destruct (all_passing a && _) eqn:Hp; simplify_eq/=.
    + bool_to_prop. split; [|done]. intros _. right. by exists u, a.
    + destruct (bool_decide_reflect (v = active_version m)); simpl; [by split; auto|].
      split; [done|]. intros [?|(u' & c & Hu & -> & Hv & Hc)]; [done|].
      assert (c = a) as -> by congruence. assert (u' = u) as -> by congruence.
      by rewrite Hc, bool_decide_eq_true_2 in Hp.
  - injection Hd as <-. case_bool_decide; simpl; [by split; auto|].
    split; [done|]. by intros [?|(? & ? & ? & _)].
Qed.

(** A node accepts a proposed block exactly when the block carries the
    active version, or the version of the tracked upgrade and that upgrade may
    activate at this height: the node is compliant, the target height is
    reached, and the Aye votes and the compliant validators each exceed
    [quorum - 1] percent of [max(voters, min_validator_count)].  The documented
    conditions are stricter: the rate is rounded up, and fewer than
    [min_validator_count] voters are enough when the rate is reached
    ([quorum_below_two_thirds], [too_few_voters_accepted]). *)
Theorem process_proposal_accepts_iff m h v d :
  wf m → fits m → on_process_proposal h v m = Ok d →
  accepts d = true ↔
  v = active_version m ∨
  ∃ u, upgrade m = Some u ∧ v = version u ∧
       may_activate u h (vs_view (client m)).
Proof.
  intros Hwf Hfit Hd. rewrite process_accepts_cases by done.
  f_equiv. unfold on_process_proposal in Hd. destruct (upgrade m) as [u|] eqn:Hu.
  - destruct (Hwf u Hu) as (_ & _ & Hmin). unfold MIN_VALIDATOR_COUNT in Hmin.
    rinv1 Hd. split.
    + intros (u' & c & Hu' & -> & Hc & Hp). simplify_eq.
      exists u'. split_and!; [done..|]. by apply (validate_conditions_spec m u' h c); [lia|..].
    + intros (u' & Hu' & -> & Hm). simplify_eq. exists u', a. split_and!; [done..|].
      by apply (validate_conditions_spec m u' h a); [lia|..].
  - split; [intros (? & ? & ? & _)|intros (? & ? & _)]; done.
Qed.

(** Two nodes with one ballot: the same active version and votes, and the second
    tracks the upgrade of the first and is compliant with it.  How the nodes vote
    themselves, and whether the first is compliant, is open. *)
Record same_ballot m1 m2 : Prop := {
  sb_active : active_version m2 = active_version m1;
  sb_votes : vs_view (client m2) = vs_view (client m1);
  sb_none : upgrade m1 = None → upgrade m2 = None;
  sb_upgrade u1 : upgrade m1 = Some u1 → ∃ u2, upgrade m2 = Some u2 ∧
    version u2 = version u1 ∧ quorum u2 = quorum u1 ∧
    min_validator_count u2 = min_validator_count u1 ∧
    target_height u2 = target_height u1 ∧ nu_is_compliant u2 = true;
}.

(** What a proposer proposes, over the conditions of its upgrade. *)
Lemma prepare_cases m h d :
  wf m → fits m → on_prepare_proposal h m = Ok d →
  match upgrade m with
  | None => pp_version d = active_version m
  | Some u => (may_activate u h (vs_view (client m)) ∧ pp_version d = version u) ∨
              (¬ may_activate u h (vs_view (client m)) ∧ pp_version d = active_version m)
  end.
Proof.
  unfold on_prepare_proposal. intros Hwf Hfit Hd.
  destruct (upgrade m) as [u|] eqn:Hu; [|by injection Hd as <-].
  destruct (Hwf u Hu) as (_ & _ & Hmin). unfold MIN_VALIDATOR_COUNT in Hmin.
  rinv1 Hd. rinv1 Hd. pose proof (validate_conditions_spec m u h _ ltac:(lia) Hfit E1) as Hspec.
  destruct (all_passing a0); injection Hd as <-; [left|right]; simpl; split; try done.
  - by apply Hspec.
  - intros Hm. by apply Hspec in Hm.
Qed.

(** C25. Proposer and validator agree.  Of two nodes with the same active version
    and votes, the second tracking the upgrade of the first and compliant with it,
    the second accepts at a height every block that carries the active version or
    the version that the first proposes at that height, however the nodes vote
    themselves; and if the first is compliant too, it accepts no other version.  The
    parameters of the upgrade are those a built manager can have, and the number of
    votes times 100 fits a machine word. *)
Theorem proposals_agree m1 m2 h v d r :
  wf m1 → fits m1 → same_ballot m1 m2 →
  on_prepare_proposal h m1 = Ok d → on_process_proposal h v m2 = Ok r →
  (v = active_version m1 ∨ v = pp_version d → accepts r = true) ∧
  ((∀ u, upgrade m1 = Some u → nu_is_compliant u = true) → accepts r = true →
   v = active_version m1 ∨ v = pp_version d).
Proof.
  intros Hwf Hfit [Hact Hview Hnone Hup] Hd%prepare_cases Hr; [|done..].
  rewrite (process_accepts_cases _ _ _ _ Hr), Hact.
  destruct (upgrade m1) as [u1|] eqn:Hu1.
  - destruct (Hup u1 eq_refl) as (u2 & Hu2 & Hv & Hq & Hc & Ht & Hcomp).
    destruct (Hwf u1 Hu1) as (_ & _ & Hmin). unfold MIN_VALIDATOR_COUNT in Hmin.
    unfold on_process_proposal in Hr. rewrite Hu2 in Hr |- *. rinv1 Hr.
    assert (all_passing a = true ↔ may_activate u2 h (vs_view (client m1))) as Hspec.
    { rewrite <-Hview. apply (validate_conditions_spec m2 u2 h a);
        [lia|unfold fits; by rewrite Hview|done]. }
    unfold may_activate, electorate in *. rewrite Hq, Hc, Ht in Hspec. rewrite <-Hv in Hd.
    split.
    + intros [-> | ->]; [by left|]. destruct Hd as [[Hm ->]|[_ ->]]; [right|by left].
      exists u2, a. split_and!; [done..|]. apply Hspec. naive_solver.
    + intros Hc1 [->|(u & c & Hu & -> & Hval & Hp)]; [by left|]. simplify_eq.
      assert (c = a) as -> by congruence. specialize (Hc1 u1 eq_refl). destruct Hd as [[_ ->]|[Hm _]]; [by right|].
      destruct Hm. apply Hspec in Hp. naive_solver.
  - rewrite (Hnone eq_refl). rewrite Hd. naive_solver.
Qed.
End decisions.

(** ** Safety along runs *)

Section safety.
Context {Auth DB E : Type} `{RW : !ActivationManagerReaderWriter Auth DB E}.
Implicit Types (m : ActivationManager DB) (u : NetworkUpgrade).

(** C36. Whatever sequence of finalized blocks and forced upgrades a built
    manager sees, and whatever the store answers, its active version is either
    the one it was built with or the version of the upgrade it was built to
    accept, and only a compliant node can have moved; the version never
    decreases, and an upgrade is never taken up again once cleared. *)
Theorem active_version_only_upgrades b m0 m :
  b_upgrade b = None → built (E := E) b m0 → rtc (am_step (Auth := Auth)) m0 m →
  version_le (active_version m0) (active_version m) = true ∧
  ((active_version m = active_version m0 ∧
    (upgrade m = upgrade m0 ∨ upgrade m = None)) ∨
   (∃ u, upgrade m0 = Some u ∧ nu_is_compliant u = true ∧
         active_version m = version u ∧ upgrade m = None)).
Proof.
  intros Hb Hm0 Hsteps. pose proof (am_steps_moved _ _ Hsteps) as Hmv. split; [|exact Hmv].
  pose proof (built_wf _ _ Hb Hm0) as Hwf.
  destruct Hmv as [[-> _]|(u & Hu & _ & -> & _)]; [apply version_le_refl|].
  apply version_lt_le, (Hwf u Hu).
Qed.

(** A node that only signals never leaves its version: along every run it
    proposes and accepts the version it was built with and nothing else, even
    when the network has reached every quorum. *)
Theorem signal_only_never_upgrades b v w m0 m :
  build_signal_network_upgrade (E := E) v w b = Ok m0 →
  rtc (am_step (Auth := Auth)) m0 m →
  active_version m = b_active_version b ∧
  (∀ h d, on_prepare_proposal h m = Ok d → pp_version d = b_active_version b) ∧
  (∀ h bv d, on_process_proposal h bv m = Ok d →
     accepts d = true ↔ bv = b_active_version b).
Proof.
  intros Hb Hsteps. unfold build_signal_network_upgrade, rassert in Hb.
  case_match; [|done]. injection Hb as <-.
  pose proof (am_steps_moved _ _ Hsteps) as Hmv. simpl in Hmv.
  assert (∀ u, upgrade m = Some u → nu_is_compliant u = false) as Hnc.
  { intros u Hu. destruct Hmv as [[_ [Hu'|Hu']]|(? & ? & ? & _ & Hu')]; simpl in *;
      [|congruence..]. rewrite Hu in Hu'. by injection Hu' as ->. }
  assert (active_version m = b_active_version b) as Hact.
  { destruct Hmv as [[-> _]|(u & Hu & Hc & _)]; [done|]. injection Hu as <-. done. }
  assert (∀ u h c, upgrade m = Some u → _validate_conditions m u h = Ok c →
            all_passing c = false) as Hfail.
  { intros u h c Hu Hc. unfold _validate_conditions in Hc. rinv1 Hc. destruct a.
    rinv1 Hc. destruct a. injection Hc as <-. unfold all_passing. simpl.
    by rewrite (Hnc u Hu). }
  split_and!; [done| |].
  - intros h d Hd. unfold on_prepare_proposal in Hd.
    destruct (upgrade m) as [u|] eqn:Hu; [|by injection Hd as <-].
    rinv1 Hd. rinv1 Hd. rewrite (Hfail u h a0) in Hd by done. by injection Hd as <-.
  - intros h bv d Hd. rewrite (process_accepts_cases m h bv d Hd), Hact. split; [|auto].
    intros [?|(u & c & Hu & _ & Hc & Hp)]; [done|]. by rewrite (Hfail u h c) in Hp.
Qed.

Section total.
Context `{T : !VoteStoreTotal Auth DB E}.

Lemma validate_conditions_total m u h :
  0 < min_validator_count u → ∃ c, _validate_conditions m u h = Ok c.
Proof.
  intros Hmin. unfold _validate_conditions.
  pose proof (vt_rate_ayes _ (client m) Hmin).
  pose proof (vt_rate_compliance _ (client m) Hmin).
  destruct (get_upgrading_approval_rate_ayes _ _) as [[]| |]; [|done..].
  destruct (get_upgrading_approval_rate_compliance _ _) as [[]| |]; [|done..].
  simpl. eauto.
Qed.

Lemma on_client_total {A} (f : SM DB E A) : always_ok f → always_ok (on_client f).
Proof.
  intros Hf m. unfold on_client. specialize (Hf (client m)).
  by destruct (f (client m)).
Qed.
Hint Resolve on_client_total vt_update vt_remove : macbeth.

Lemma on_finalize_block_total v h (a : Auth) pv :
  always_ok (on_finalize_block v h a pv : SM (ActivationManager DB) E _).
Proof.
  assert (∀ a v c h, always_ok (update_upgrading_vote (DB := DB) (E := E) (a : Auth) v c h))
    by (intros ???? db; apply vt_update).
  assert (∀ h, always_ok (remove_upgrading_votes (Auth := Auth) (DB := DB) (E := E) h))
    by (intros ? db; apply vt_remove).
  unfold on_finalize_block, _track_vote. always_ok_tac.
Qed.

Lemma get_upgrade_polling_total m : is_ok (get_upgrade_polling m) = true.
Proof.
  unfold get_upgrade_polling. destruct (upgrade m); [|done].
  pose proof (vt_ayes (client m)). pose proof (vt_nays (client m)).
  pose proof (vt_abstained (client m)). pose proof (vt_compliant (client m)).
  destruct (get_aye_votes _) as [[]| |]; [|done..].
  destruct (get_nay_votes _) as [[]| |]; [|done..].
  destruct (get_abstained_votes _) as [[]| |]; [|done..].
  by destruct (get_compliance_count _) as [[]| |].
Qed.

(** With a store that does not fail, no call of a built manager fails or
    panics, at any point of any run: the assertion on the quorum in
    [on_prepare_proposal] holds and no division is by zero. *)
Theorem manager_never_fails b m0 m :
  b_upgrade b = None → built (E := E) b m0 → rtc (am_step (Auth := Auth)) m0 m →
  (∀ h, is_ok (on_prepare_proposal h m) = true) ∧
  (∀ h v, is_ok (on_process_proposal h v m) = true) ∧
  (∀ v h (a : Auth) pv, is_ok (on_finalize_block v h a pv m).1 = true) ∧
  is_ok (get_upgrade_polling m) = true.
Proof.
  intros Hb Hm0 Hsteps. pose proof (reachable_wf _ _ _ Hb Hm0 Hsteps) as Hwf.
  assert (∀ u, upgrade m = Some u →
    0 < min_validator_count u ∧ (MIN_QUORUM <=? quorum u) = true) as Hu.
  { intros u Hu. destruct (Hwf u Hu) as (_ & ? & ?). unfold MIN_VALIDATOR_COUNT in *.
    split; [lia|by apply Z.leb_le]. }
  split_and!; [..|apply get_upgrade_polling_total].
  - intros h. unfold on_prepare_proposal, rassert. destruct (upgrade m) as [u|]; [|done].
    destruct (Hu u eq_refl) as [? ->]. simpl.
    destruct (validate_conditions_total m u h) as [c ->]; [done|]. simpl. by case_match.
  - intros h v. unfold on_process_proposal. destruct (upgrade m) as [u|]; [|done].
    destruct (Hu u eq_refl) as [? _].
    destruct (validate_conditions_total m u h) as [c ->]; [done|]. simpl. by case_match.
  - intros. apply on_finalize_block_total.
Qed.
End total.
End safety.

(** ** Functional behaviour of finalization *)

Section finalize.
Context {Auth DB E : Type} `{Countable Auth}
  `{RW : !ActivationManagerReaderWriter Auth DB E, L : !VoteStoreLaws Auth DB E}.
Implicit Types (m : ActivationManager DB) (u : NetworkUpgrade).

(** What the manager promises, without its store: a version, a pending
    upgrade and a set of votes. *)
Record SpecState := {
  sp_active : RuntimeVersion;
  sp_upgrade : option NetworkUpgrade;
  sp_votes : gmap Auth VoteEntry;
}.
Definition abs m : SpecState :=
  {| sp_active := active_version m; sp_upgrade := upgrade m;
     sp_votes := vs_view (client m) |}.

Definition spec_track (retention h : Z) (a : Auth) (pv : option NetworkUpgradePayload)
    (s : SpecState) : SpecState :=
  match sp_upgrade s with
  | None => s
  | Some u =>
      let p := effective_vote u pv in
      {| sp_active := sp_active s; sp_upgrade := sp_upgrade s;
         sp_votes := retain_votes (saturating_sub h retention)
           (record_vote a {| vote := pl_vote p; is_compliant := pl_is_compliant p;
                             botanix_height := h |} (sp_votes s)) |}
  end.

Definition spec_finalize (retention : Z) (v : RuntimeVersion) (h : Z) (a : Auth)
    (pv : option NetworkUpgradePayload) (s : SpecState)
    : OnFinalizeBlockDecision * SpecState :=
  let s1 := spec_track retention h a pv s in
  if version_le v (sp_active s1) then (Finalize v, s1)
  else match sp_upgrade s1 with
  | None => (RejectBlockDeadEnd v, s1)
  | Some u =>
      let votes := retain_votes (saturating_add h 1) (sp_votes s1) in
      if bool_decide (v = version u) then
        if nu_is_compliant u then
          (Finalize v, {| sp_active := v; sp_upgrade := None; sp_votes := votes |})
        else
          (RejectBlockDeadEnd v,
           {| sp_active := sp_active s1; sp_upgrade := None; sp_votes := votes |})
      else
        (RejectBlockDeadEnd v,
         {| sp_active := sp_active s1; sp_upgrade := Some u; sp_votes := votes |})
  end.

Lemma on_client_ok {A} (f : SM DB E A) m r m' :
  on_client f m = (Ok r, m') →
  f (client m) = (Ok r, client m') ∧ active_version m' = active_version m ∧
  upgrade m' = upgrade m ∧ vote_retention_period m' = vote_retention_period m.
Proof. unfold on_client. destruct (f (client m)). intros. by simplify_eq/=. Qed.

Lemma track_vote_refines h (a : Auth) pv m m' :
  _track_vote h a pv m = (Ok tt, m') →
  abs m' = spec_track (vote_retention_period m) h a pv (abs m) ∧
  vote_retention_period m' = vote_retention_period m.
Proof.
  unfold _track_vote. rewrite sbind_ok. intros (m0 & m1 & [= <- <-] & Ht).
  unfold spec_track. simpl. destruct (upgrade m) as [u|] eqn:Hu; [|by injection Ht as <-].
  apply sbind_ok in Ht as ([] & m2 & H2 & Ht). apply on_client_ok in H2 as (Hup & Ha & Hu2 & Hr).
  apply sbind_ok in Ht as (n & m3 & H3 & Ht). injection Ht as <-.
  apply on_client_ok in H3 as (Hrm & Ha3 & Hu3 & Hr3). split; [|congruence].
  unfold abs. apply vs_update in Hup. apply vs_remove in Hrm as [Hrm _].
  rewrite Hrm, Hup, Ha3, Ha, Hu3, Hu2, Hu. done.
Qed.

(** Finalization refines its specification: on success the decision, the
    active version, the pending upgrade and the stored votes are those of
    [spec_finalize], on every branch (old version, activation, refusal by a
    non-compliant node, unknown version, nothing tracked). *)
Theorem on_finalize_block_refines v h (a : Auth) pv m d m' :
  on_finalize_block v h a pv m = (Ok d, m') →
  spec_finalize (vote_retention_period m) v h a pv (abs m) = (d, abs m').
Proof.
  unfold on_finalize_block. rewrite sbind_ok. intros ([] & m1 & Ht & Hf).
  apply track_vote_refines in Ht as [Habs _]. unfold spec_finalize. rewrite <-Habs. simpl.
  apply sbind_ok in Hf as (m2 & m3 & [= <- <-] & Hf).
  destruct (version_le v (active_version m1)); [by injection Hf as <- <-|].
  destruct (upgrade m1) as [u|] eqn:Hu; [|by injection Hf as <- <-].
  apply sbind_ok in Hf as (n & m4 & Hc & Hf).
  apply on_client_ok in Hc as (Hrm & Ha & Hu4 & _). apply vs_remove in Hrm as [Hrm _].
  destruct (bool_decide_reflect (v = version u)) as [->|Hne]; simpl in Hf.
  - destruct (nu_is_compliant u); simpl in Hf; unfold sbind, smodify, sret in Hf;
      simplify_eq/=; unfold abs; simpl; by rewrite ?Hrm, ?Ha.
  - injection Hf as <- <-. unfold abs. by rewrite Hrm, Ha, Hu4, Hu.
Qed.

(** *** Votes after a stretch of ordinary blocks *)

Record FinalizedBlock := {
  fb_height : Z; fb_proposer : Auth; fb_vote : option NetworkUpgradePayload;
}.

Fixpoint run_blocks (v : RuntimeVersion) (bs : list FinalizedBlock)
    : SM (ActivationManager DB) E () :=
  match bs with
  | [] => sret tt
  | b :: bs' =>
      let* _ := on_finalize_block v (fb_height b) (fb_proposer b) (fb_vote b) in
      run_blocks v bs'
  end.

(** The last block a validator proposed, as the entry it leaves. *)
Definition latest_entry u (a : Auth) (bs : list FinalizedBlock) : option VoteEntry :=
  b ← last (filter (λ b, fb_proposer b = a) bs);
  let p := effective_vote u (fb_vote b) in
  Some {| vote := pl_vote p; is_compliant := pl_is_compliant p;
          botanix_height := fb_height b |}.
(** The entry counts as long as it is inside the retention window. *)
Definition live_entry u (cutoff : Z) (a : Auth) (bs : list FinalizedBlock)
    : option VoteEntry :=
  e ← latest_entry u a bs;
  if cutoff <=? botanix_height e then Some e else None.

Lemma latest_entry_snoc u a bs b :
  latest_entry u a (bs ++ [b]) =
  if decide (fb_proposer b = a) then
    Some {| vote := pl_vote (effective_vote u (fb_vote b));
            is_compliant := pl_is_compliant (effective_vote u (fb_vote b));
            botanix_height := fb_height b |}
  else latest_entry u a bs.
Proof.
  unfold latest_entry. rewrite filter_app, filter_cons, filter_nil.
  case_decide; [by rewrite last_snoc|]. by rewrite app_nil_r.
Qed.

Lemma latest_entry_height u a bs e :
  latest_entry u a bs = Some e → ∃ b, b ∈ bs ∧ botanix_height e = fb_height b.
Proof.
  unfold latest_entry. intros (b & Hb & [= <-])%bind_Some.
  apply last_Some_elem_of, list_elem_of_filter in Hb as [_ Hb]. eauto.
Qed.

Definition last_height (bs : list FinalizedBlock) : Z :=
  default 0 (fb_height <$> last bs).

Lemma run_blocks_snoc v bs b m m' :
  run_blocks v (bs ++ [b]) m = (Ok tt, m') →
  ∃ m1 d, run_blocks v bs m = (Ok tt, m1) ∧
    on_finalize_block v (fb_height b) (fb_proposer b) (fb_vote b) m1 = (Ok d, m').
Proof.
  revert m. induction bs as [|b0 bs IH]; intros m; simpl.
  - intros (d & m1 & Hf & [= <-])%sbind_ok. eauto.
  - intros (d & m1 & Hf & (m2 & d' & Hr & Hb)%IH)%sbind_ok.
    exists m2, d'. split; [|done]. apply sbind_ok. eauto.
Qed.

(** One ordinary block while an upgrade is tracked. *)
Lemma ordinary_block_votes v u h (a : Auth) pv m d m' :
  upgrade m = Some u → version_le v (active_version m) = true →
  on_finalize_block v h a pv m = (Ok d, m') →
  upgrade m' = Some u ∧ active_version m' = active_version m ∧
  vote_retention_period m' = vote_retention_period m ∧
  vs_view (client m') =
    retain_votes (saturating_sub h (vote_retention_period m))
      (record_vote a {| vote := pl_vote (effective_vote u pv);
                        is_compliant := pl_is_compliant (effective_vote u pv);
                        botanix_height := h |} (vs_view (client m))).
Proof.
  intros Hu Hv. unfold on_finalize_block. rewrite sbind_ok. intros ([] & m1 & Ht & Hf).
  apply track_vote_refines in Ht as [Habs Hr]. unfold spec_track in Habs.
  simpl in Habs. rewrite Hu in Habs. unfold abs in Habs. simpl in Habs.
  injection Habs as Ha Hu1 Hvw.
  apply sbind_ok in Hf as (m2 & m3 & [= <- <-] & Hf).
  rewrite Ha, Hv in Hf. injection Hf as <- <-. auto.
Qed.

Lemma retain_record_lookup (votes : gmap Auth VoteEntry) a a' e cut :
  (∀ e', votes !! a = Some e' → botanix_height e' < botanix_height e) →
  retain_votes cut (record_vote a e votes) !! a' =
  (e0 ← (if decide (a = a') then Some e else votes !! a');
   if cut <=? botanix_height e0 then Some e0 else None).
Proof.
  intros Hnew.
  assert (record_vote a e votes = <[a := e]> votes) as ->.
  { unfold record_vote. destruct (votes !! a) as [e'|] eqn:Ha; [|done].
    rewrite (proj2 (Z.leb_gt _ _)); [done|]. by apply Hnew. }
  unfold retain_votes. rewrite map_lookup_filter, lookup_insert.
  destruct (if decide (a = a') then Some e else votes !! a') as [e0|]; [|done]. simpl.
  destruct (cut <=? botanix_height e0) eqn:Hc.
  - rewrite option_guard_True; done.
  - rewrite option_guard_False; [done|congruence].
Qed.

(** C37. The vote table means what it should: after any stretch of blocks of the
    active version (heights increasing) that starts with no votes, a validator
    is counted exactly when its last proposed block lies within the retention
    period of the last block, and with the vote of that block; a missing vote
    or a vote for another version counts as a non-compliant abstention. *)
Theorem votes_are_latest_in_window v u bs m m' :
  upgrade m = Some u → version_le v (active_version m) = true →
  vs_view (client m) = ∅ → 0 ≤ vote_retention_period m →
  StronglySorted (λ b1 b2, fb_height b1 < fb_height b2) bs →
  Forall (λ b, 0 ≤ fb_height b) bs →
  run_blocks v bs m = (Ok tt, m') →
  ∀ a, vs_view (client m') !! a =
       live_entry u (saturating_sub (last_height bs) (vote_retention_period m)) a bs.
Proof.
  intros Hu Hv Hempty Hret Hsort Hpos.
  cut (run_blocks v bs m = (Ok tt, m') →
    upgrade m' = Some u ∧ active_version m' = active_version m ∧
    vote_retention_period m' = vote_retention_period m ∧
    ∀ a, vs_view (client m') !! a =
         live_entry u (saturating_sub (last_height bs) (vote_retention_period m)) a bs).
  { intros Hcut Hrun. apply Hcut, Hrun. }
  revert m'. induction bs as [|b bs IH] using rev_ind; intros m' Hrun.
  { injection Hrun as <-. split_and!; try done. intros a. by rewrite Hempty, lookup_empty. }
  apply run_blocks_snoc in Hrun as (m1 & d & Hrun & Hb).
  apply Forall_app in Hpos as [Hpos [Hbpos _]%Forall_cons].
  assert (∀ b', b' ∈ bs → fb_height b' < fb_height b) as Hlt.
  { intros b' Hb'. apply StronglySorted_app in Hsort as (Hlt & _). apply Hlt; [done|by left]. }
  apply StronglySorted_app_1_l in Hsort.
  destruct (IH Hsort Hpos m1 Hrun) as (Hu1 & Ha1 & Hr1 & Hvw).
  destruct (ordinary_block_votes v u (fb_height b) (fb_proposer b) (fb_vote b) m1 d m')
    as (Hu' & Ha' & Hr' & Hvw'); [done|congruence|done|].
  split_and!; [congruence..|]. intros a. rewrite Hvw'. clear Hvw' Hb.
  unfold last_height. rewrite last_snoc. simpl. unfold live_entry.
  rewrite latest_entry_snoc, retain_record_lookup, Hr1.
  - case_decide; [done|]. rewrite Hvw. unfold live_entry.
    destruct (latest_entry u a bs) as [e|] eqn:He; [|done]. simpl.
    destruct (_ <=? botanix_height e) eqn:Hold; [done|]. simpl.
    rewrite (proj2 (Z.leb_gt _ _)); [done|]. bool_to_prop.
    eapply Z.lt_le_trans; [exact Hold|]. unfold saturating_sub.
    enough (last_height bs ≤ fb_height b) by lia. unfold last_height.
    destruct (last bs) as [b'|] eqn:Hlast; simpl; [|lia].
    apply last_Some_elem_of, Hlt in Hlast. lia.
  - simpl. intros e'. rewrite Hvw. unfold live_entry. intros (e & He & He')%bind_Some.
    case_match; [|done]. simplify_eq.
    apply latest_entry_height in He as (b' & Hb' & ->). by apply Hlt.
Qed.

(** The reported poll is consistent (the manager's debug assertions):
    Ayes, Nays and abstentions partition the voters, and compliant validators
    are some of them; both approval rates are taken over one electorate that
    is at least [min_validator_count]. *)
Theorem polling_is_a_partition m v p :
  get_upgrade_polling m = Ok (Some (v, p)) →
  ayes p + nays p + abstained p = total p ∧ 0 ≤ compliant p ≤ total p ∧
  (∀ u r1 r2, upgrade m = Some u → 0 < min_validator_count u → fits m →
     get_upgrading_approval_rate_ayes (min_validator_count u) (client m) = Ok r1 →
     get_upgrading_approval_rate_compliance (min_validator_count u) (client m) = Ok r2 →
     v = version u ∧ r1.2 = r2.2 ∧ min_validator_count u ≤ r1.2 ∧
     0 ≤ r1.1 ≤ 100 ∧ 0 ≤ r2.1 ≤ 100).
Proof.
  unfold get_upgrade_polling. intros Hp. destruct (upgrade m) as [u|]; [|done].
  rinv1 Hp. apply vs_ayes in E0 as ->. rinv1 Hp. apply vs_nays in E0 as ->.
  rinv1 Hp. apply vs_abstained in E0 as ->. rinv1 Hp. apply vs_compliant in E0 as ->.
  injection Hp as <- <-. simpl.
  split_and!; [apply count_votes_partition|apply count_votes_bounds..|].
  intros u' r1 r2 [= <-] Hmin Hfit H1 H2.
  apply vs_rate_ayes in H1 as ->; [|done..]. apply vs_rate_compliance in H2 as ->; [|done..].
  simpl. assert (∀ p, 0 ≤ approval_rate p (min_validator_count u) (vs_view (client m)) ≤ 100).
  { intros q. pose proof (count_votes_bounds q (vs_view (client m))) as [Hc0 Hc1].
    unfold approval_rate. split; [apply Z.div_pos; lia|].
    apply Z.lt_succ_r, Z.div_lt_upper_bound; nia. }
  split_and!; try done; try lia; apply H0.
Qed.
End finalize.

(** ** Versions on disk, and rounding *)

(** A stored version is read back unchanged, whatever follows it in the
    buffer, and every four bytes are the encoding of the version they decode
    to; the order of versions is a total order on the pair. *)
Theorem version_codec_roundtrip {E} (v : RuntimeVersion) rest :
  version_ok v →
  @decompress E (compress_to_buf v ++ rest) = Ok v ∧
  (∀ bs w, length bs = 4%nat → Forall is_byte bs → @decompress E bs = Ok w →
     compress_to_buf w = bs ∧ version_ok w) ∧
  (∀ w, version_lt v w = true ∨ v = w ∨ version_lt w v = true).
Proof.
  intros [Hma Hmi]. unfold u16_max in *. split_and!.
  - unfold decompress, compress_to_buf.
    rewrite !length_app, !length_to_le_bytes.
    destruct (_ <? 4)%nat eqn:Hlen; [apply Nat.ltb_lt in Hlen; lia|].
    rewrite <-app_assoc, (take_app_length' _ _ 2), (drop_app_length' _ _ 2)
      by (by rewrite length_to_le_bytes).
    rewrite (take_app_length' _ _ 2) by (by rewrite length_to_le_bytes).
    rewrite !from_to_le_bytes by lia. by destruct v.
  - intros bs w Hlen Hbs. destruct bs as [|b0 [|b1 [|b2 [|b3 [|? ?]]]]]; try done.
    change (@decompress E [b0; b1; b2; b3])
      with (@Ok E _ (RV (from_le_bytes [b0; b1]) (from_le_bytes [b2; b3]))).
    intros Hw. assert (w = RV (from_le_bytes [b0; b1]) (from_le_bytes [b2; b3])) as -> by congruence.
    unfold compress_to_buf. cbn [major minor].
    repeat (apply Forall_cons in Hbs as [? Hbs]). unfold is_byte in *.
    assert (∀ x y, is_byte x → is_byte y → to_le_bytes 2 (from_le_bytes [x; y]) = [x; y]) as Hrt.
    { intros. apply (to_from_le_bytes [x; y]). rewrite !Forall_cons. auto using Forall_nil. }
    rewrite !Hrt by done.
    split; [done|]. unfold version_ok, u16_max. simpl. lia.
  - intros w. rewrite !version_lt_lex. destruct v as [a b], w as [c d]. simpl.
    destruct (Z.lt_trichotomy a c) as [?|[->|?]]; [auto| |auto].
    destruct (Z.lt_trichotomy b d) as [?|[->|?]]; auto.
Qed.

Lemma version_codec_roundtrip_witness :
  @decompress () (compress_to_buf (RV 1234 5678) ++ [9]) = Ok (RV 1234 5678).
Proof.
  apply (version_codec_roundtrip (RV 1234 5678) [9]).
  unfold version_ok, u16_max. simpl. lia.
Defined.

(** Two hundred validators, 133 of which vote Aye. *)
Definition narrow_votes : gmap Z VoteEntry :=
  list_to_map ((λ i, (Z.of_nat i, {| vote := if (i <? 133)%nat then Aye else Nay;
                                     is_compliant := true; botanix_height := 1 |}))
               <$> seq 0 200).

(** Approval rates round up, so the minimum quorum of 67 percent is reached
    with fewer than 67 percent, and fewer than two thirds, of the voters: 133
    Aye votes out of 200 (66.5 percent) report a rate of 67. *)
Theorem quorum_below_two_thirds :
  VoteWatcher.get_upgrading_approval_rate_ayes (E := ()) MIN_VALIDATOR_COUNT narrow_votes =
    Ok (MIN_QUORUM, 200) ∧
  count_votes is_aye narrow_votes * 100 < MIN_QUORUM * total_votes narrow_votes ∧
  count_votes is_aye narrow_votes * 3 < 2 * total_votes narrow_votes.
Proof. by vm_compute. Qed.

(** The approval rates never fail and are percentages: with a positive
    minimum of validators each rate is between 0 and 100, its base is the larger
    of the votes cast and that minimum, and it reaches a quorum [q] exactly when
    more than [q - 1] percent of the base voted so: a rate is rounded up. *)
Theorem approval_rates_are_percentages {Auth E} `{Countable Auth} c q (votes : gmap Auth VoteEntry) :
  0 < c → total_votes votes * 100 ≤ usize_max →
  let base := Z.max (total_votes votes) c in
  ∃ ayes comp,
    VoteWatcher.get_upgrading_approval_rate_ayes (E := E) c votes = Ok (ayes, base) ∧
    VoteWatcher.get_upgrading_approval_rate_compliance (E := E) c votes = Ok (comp, base) ∧
    0 ≤ ayes ≤ 100 ∧ 0 ≤ comp ≤ 100 ∧
    (q ≤ ayes ↔ base * (q - 1) < 100 * count_votes is_aye votes) ∧
    (q ≤ comp ↔ base * (q - 1) < 100 * count_votes is_compliant votes).
Proof.
  intros Hc Hfit base. exists (approval_rate is_aye c votes), (approval_rate is_compliant c votes).
  assert (∀ p, 0 ≤ approval_rate p c votes ≤ 100) as Hb.
  { intros p. pose proof (count_votes_bounds p votes). unfold approval_rate. split.
    - apply Z.div_pos; lia.
    - apply Z.lt_succ_r, Z.div_lt_upper_bound; lia. }
  split_and!; try apply Hb; try by apply approval_rate_ge.
  - by apply (VoteWatcher.rate_formula (E := E) is_aye).
  - by apply (VoteWatcher.rate_formula (E := E) is_compliant).
Qed.

Lemma approval_rates_are_percentages_witness :
  ∃ ayes, VoteWatcher.get_upgrading_approval_rate_ayes (E := ()) 10 narrow_votes = Ok (ayes, 200) ∧
    (67 ≤ ayes ↔ 200 * 66 < 100 * count_votes is_aye narrow_votes).
Proof.
  destruct (approval_rates_are_percentages (E := ()) 10 67 narrow_votes) as (a & c & Ha & _ & _ & _ & Hq & _).
  - lia.
  - vm_compute. discriminate.
  - exists a. split; [exact Ha|exact Hq].
Defined.

(** ** Witnesses: three compliant Aye voters on the in-memory tracker *)

Module Witness.
Definition aye_at (h : Z) : VoteEntry :=
  {| vote := Aye; is_compliant := true; botanix_height := h |}.
Definition votes : gmap Z VoteEntry :=
  {[ 1 := aye_at 5; 2 := aye_at 6; 3 := aye_at 7 ]}.
Definition u : NetworkUpgrade :=
  {| version := RV 2 0; quorum := 67; min_validator_count := 3; target_height := 10;
     our_vote := Nay; nu_is_compliant := true |}.
Definition b : ActivationManagerBuilder (gmap Z VoteEntry) := builder_new votes (RV 1 0).
Definition m : ActivationManager (gmap Z VoteEntry) :=
  new votes VOTE_RETENTION_PERIOD (RV 1 0) (Some u).
Lemma m_wf : wf m.
Proof. intros u' [= <-]. by vm_compute. Qed.
Lemma m_built : built (E := ()) b m.
Proof. by eapply (built_compliant b (RV 2 0) 67 3 10 (Some Nay)). Qed.
Definition vote_for (c : bool) : NetworkUpgradePayload :=
  {| pl_version := RV 2 0; pl_vote := Aye; pl_is_compliant := c |}.
(** The same node, built to signal only. *)
Definition sm : ActivationManager (gmap Z VoteEntry) :=
  new votes VOTE_RETENTION_PERIOD (RV 1 0)
    (Some {| version := RV 2 0; quorum := usize_max; min_validator_count := usize_max;
             target_height := u64_max; our_vote := Aye; nu_is_compliant := false |}).
(** Either node after a block of the new version was finalized at height 12. *)
Definition upgraded (m : ActivationManager (gmap Z VoteEntry)) :=
  (on_finalize_block (E := ()) (RV 2 0) 12 1 None m).2.
Lemma upgraded_step m : rtc (am_step (E := ()) (Auth := Z)) m (upgraded m).
Proof. eapply rtc_once, (step_finalize (RV 2 0) 12 1 None), surjective_pairing. Qed.
End Witness.

(** Two validators have voted at all, for an upgrade that asks for at least three,
    and the upgrade is accepted: 2 of 3 is rounded up to 67 percent. *)
Example too_few_voters_accepted :
  let votes := {[ 1 := Witness.aye_at 5; 2 := Witness.aye_at 6 ]} in
  let m := new votes VOTE_RETENTION_PERIOD (RV 1 0) (Some Witness.u) in
  total_votes votes < min_validator_count Witness.u ∧
  match on_process_proposal (E := ()) (Auth := Z) 12 (RV 2 0) m with
  | Ok r => accepts r = true
  | _ => False
  end.
Proof. by vm_compute. Qed.

Lemma process_proposal_accepts_iff_witness :
  ∃ d, on_process_proposal (E := ()) (Auth := Z) 12 (RV 2 0) Witness.m = Ok d ∧
       accepts d = true.
Proof.
  eexists. split; [by vm_compute|].
  apply (process_proposal_accepts_iff (E := ()) (Auth := Z) Witness.m 12 (RV 2 0));
    [apply Witness.m_wf|by vm_compute|by vm_compute|].
  right. exists Witness.u. by vm_compute.
Defined.

Lemma Witness_same : same_ballot (E := ()) (Auth := Z) Witness.m Witness.m.
Proof. split; [done..|]. intros u1 Hu1. exists u1. split_and!; try done. by injection Hu1 as <-. Qed.
Lemma proposals_agree_witness :
  ∃ d, on_prepare_proposal (E := ()) (Auth := Z) 12 Witness.m = Ok d ∧ pp_version d = RV 2 0 ∧
    (∃ r, on_process_proposal (E := ()) (Auth := Z) 12 (RV 2 0) Witness.m = Ok r ∧ accepts r = true) ∧
    ∃ r, on_process_proposal (E := ()) (Auth := Z) 12 (RV 3 0) Witness.m = Ok r ∧ accepts r ≠ true.
Proof.
  assert (∃ d, on_prepare_proposal (E := ()) (Auth := Z) 12 Witness.m = Ok d ∧ pp_version d = RV 2 0)
    as (d & Hd & Hv) by (eexists; split; by vm_compute).
  assert (∀ v, v = RV 2 0 ∨ v = RV 3 0 →
    ∃ r, on_process_proposal (E := ()) (Auth := Z) 12 v Witness.m = Ok r) as Hr
    by (intros v [-> | ->]; eexists; vm_compute; reflexivity).
  assert (fits (E := ()) (Auth := Z) Witness.m) as Hfit by (by vm_compute).
  exists d. split; [exact Hd|]. split; [exact Hv|]. split.
  - destruct (Hr (RV 2 0) (or_introl eq_refl)) as [r Hr2]. exists r. split; [exact Hr2|].
    apply (proposals_agree _ _ _ _ _ _ Witness.m_wf Hfit Witness_same Hd Hr2). by right.
  - destruct (Hr (RV 3 0) (or_intror eq_refl)) as [r Hr3]. exists r. split; [exact Hr3|]. intros Hacc.
    destruct (proposals_agree _ _ _ _ _ _ Witness.m_wf Hfit Witness_same Hd Hr3) as [_ Hno].
    destruct Hno as [Heq|Heq]; [intros u Hu; by injection Hu as <-|exact Hacc|..].
    + vm_compute in Heq. discriminate Heq.
    + rewrite Hv in Heq. discriminate Heq.
Defined.

Lemma active_version_only_upgrades_witness :
  active_version (Witness.upgraded Witness.m) = RV 2 0 ∧
  version_le (active_version Witness.m) (active_version (Witness.upgraded Witness.m)) = true.
Proof.
  split; [by vm_compute|].
  apply (active_version_only_upgrades (E := ()) (Auth := Z) Witness.b Witness.m);
    [done|apply Witness.m_built|apply Witness.upgraded_step].
Defined.

Lemma signal_only_never_upgrades_witness :
  active_version (Witness.upgraded Witness.sm) = RV 1 0.
Proof.
  apply (signal_only_never_upgrades (E := ()) (Auth := Z) Witness.b (RV 2 0) Aye Witness.sm);
    [by vm_compute|apply Witness.upgraded_step].
Defined.

Lemma manager_never_fails_witness :
  is_ok (on_prepare_proposal (E := ()) (Auth := Z) 12 Witness.m) = true.
Proof.
  apply (manager_never_fails (E := ()) (Auth := Z) Witness.b Witness.m Witness.m);
    [done|apply Witness.m_built|apply rtc_refl].
Defined.

Lemma on_finalize_block_refines_witness :
  ∃ m', on_finalize_block (E := ()) (RV 2 0) 12 1 None Witness.m = (Ok (Finalize (RV 2 0)), m') ∧
    spec_finalize VOTE_RETENTION_PERIOD (RV 2 0) 12 1 None (abs (E := ()) Witness.m) =
      (Finalize (RV 2 0), abs (E := ()) m').
Proof.
  eexists. split; [by vm_compute|].
  apply (on_finalize_block_refines (E := ()) (RV 2 0) 12 1 None Witness.m). by vm_compute.
Defined.

Lemma votes_are_latest_in_window_witness :
  ∃ m', run_blocks (E := ()) (RV 1 0)
          [ {| fb_height := 5; fb_proposer := 1; fb_vote := None |};
            {| fb_height := 8; fb_proposer := 1; fb_vote := Some (Witness.vote_for true) |} ]
          (new (∅ : gmap Z VoteEntry) 100 (RV 1 0) (Some Witness.u)) = (Ok tt, m') ∧
    vs_view (E := ()) (client m') !! 1 = Some (Witness.aye_at 8).
Proof.
  eexists. split; [by vm_compute|].
  rewrite (votes_are_latest_in_window (E := ()) (RV 1 0) Witness.u
    [ {| fb_height := 5; fb_proposer := 1; fb_vote := None |};
      {| fb_height := 8; fb_proposer := 1; fb_vote := Some (Witness.vote_for true) |} ]
    (new (∅ : gmap Z VoteEntry) 100 (RV 1 0) (Some Witness.u)));
    [by vm_compute|done|by vm_compute|done|by vm_compute| | |by vm_compute].
  - repeat constructor.
  - repeat constructor; done.
Defined.

Lemma polling_is_a_partition_witness :
  ∃ p, get_upgrade_polling (E := ()) (Auth := Z) Witness.m = Ok (Some (RV 2 0, p)) ∧
       ayes p + nays p + abstained p = total p.
Proof.
  eexists. split; [by vm_compute|].
  eapply (polling_is_a_partition (E := ()) (Auth := Z) Witness.m (RV 2 0)). by vm_compute.
Defined.
