(* ===== verification/Bitcoin.v ===== *)
(** * Bitcoin data and identifiers

    The data of the [bitcoin] crate that the BTC server handles (transactions,
    outputs, blocks), with the fields its code reads or writes, and the
    server's own identifiers: [PegoutId] ([bin/btc-server/src/pegout_id.rs]) and
    the outpoint keys ([bin/btc-server/src/util.rs]).  The crate's hash
    functions are parameters ([BitcoinHashes]). *)

From S2P Require Import Prelude.

(** A txid or a block hash is its 32 bytes. *)
Abbreviation Txid := (list Z).
Abbreviation BlockHash := (list Z).
Abbreviation Script := (list Z).

Record OutPoint := mkOutPoint { op_txid : Txid; vout : Z }.
Record TxOut := { value : Z; script_pubkey : Script }.
Record TxIn := {
  previous_output : OutPoint;
  script_sig : Script;
  sequence : Z;
  txin_witness : list bytes;
}.
Record Transaction := {
  tx_version : Z;
  lock_time : Z;
  input : list TxIn;
  output : list TxOut;
}.
Record Block := {
  prev_blockhash : BlockHash;
  block_timestamp : Z;
  txdata : list Transaction;
}.

(** [bitcoin::block::Header]: the 80-byte block header. *)
Record Header := {
  hd_version : Z;
  hd_prev_blockhash : BlockHash;
  hd_merkle_root : bytes;
  hd_time : Z;
  hd_bits : Z;
  hd_nonce : Z;
}.

#[export] Instance Header_eq_dec : EqDecision Header.
Proof. solve_decision. Defined.
#[export] Instance OutPoint_eq_dec : EqDecision OutPoint.
Proof. solve_decision. Defined.
#[export] Instance OutPoint_countable : Countable OutPoint.
Proof.
  refine (inj_countable' (λ o, (op_txid o, vout o)) (λ p, mkOutPoint p.1 p.2) _).
  by intros [].
Defined.
#[export] Instance TxOut_eq_dec : EqDecision TxOut.
Proof. solve_decision. Defined.
#[export] Instance TxOut_countable : Countable TxOut.
Proof.
  refine (inj_countable' (λ o, (value o, script_pubkey o))
            (λ p, {| value := p.1; script_pubkey := p.2 |}) _).
  by intros [].
Defined.
#[export] Instance TxIn_eq_dec : EqDecision TxIn.
Proof. solve_decision. Defined.
#[export] Instance Transaction_eq_dec : EqDecision Transaction.
Proof. solve_decision. Defined.

(** [Transaction::compute_txid] and [Block::block_hash]. *)
Class BitcoinHashes := {
  compute_txid : Transaction → Txid;
  block_hash : Block → BlockHash;
}.

(** [Header::block_hash]. *)
Class HeaderHash := header_hash : Header → BlockHash.

(** Amounts in outputs are [u64] satoshis. *)
Definition txout_ok (o : TxOut) : Prop := 0 ≤ value o ≤ u64_max.

(** ** Pegout ids *)

Record PegoutId := mkPegoutId { pid_txid : bytes; idx : Z }.
#[export] Instance PegoutId_eq_dec : EqDecision PegoutId.
Proof. solve_decision. Defined.
#[export] Instance PegoutId_countable : Countable PegoutId.
Proof.
  refine (inj_countable' (λ o, (pid_txid o, idx o)) (λ p, mkPegoutId p.1 p.2) _).
  by intros [].
Defined.

(** A value of the Rust type: [[u8; 32]] and [u32]. *)
Definition pegout_id_ok (p : PegoutId) : Prop :=
  length (pid_txid p) = 32%nat ∧ Forall is_byte (pid_txid p) ∧ 0 ≤ idx p ≤ u32_max.

Definition as_bytes (p : PegoutId) : bytes := pid_txid p ++ to_be_bytes 4 (idx p).

Definition from_bytes (bs : bytes) : result () PegoutId :=
  if (length bs =? 36)%nat
  then Ok (mkPegoutId (take 32 bs) (from_be_bytes (take 4 (drop 32 bs))))
  else Err tt.

(** [From<[u8; 36]>]: [from_bytes(..).expect("size is 36")]. *)
Definition pegout_id_from_array (bs : bytes) : result () PegoutId :=
  match from_bytes bs with Ok p => Ok p | _ => Panic end.

(** ** Outpoint keys *)

Definition outpoint_ok (o : OutPoint) : Prop :=
  length (op_txid o) = 32%nat ∧ Forall is_byte (op_txid o) ∧ 0 ≤ vout o ≤ u32_max.

Definition to_bytes (o : OutPoint) : bytes := op_txid o ++ to_le_bytes 4 (vout o).

(** [get_pegin_confirmation_depth]: unsupported networks panic. *)
Inductive Network := NetBitcoin | NetTestnet | NetSignet | NetRegtest.
Definition get_pegin_confirmation_depth (n : Network) : result () Z :=
  match n with
  | NetRegtest | NetSignet => Ok 1
  | NetBitcoin => Ok 18
  | NetTestnet => Panic
  end.

(** ** Round trips *)

Lemma as_bytes_length p : pegout_id_ok p → length (as_bytes p) = 36%nat.
Proof.
  intros (Hl & _). unfold as_bytes. by rewrite length_app, length_to_be_bytes, Hl.
Qed.

Lemma from_bytes_as_bytes_len p :
  length (pid_txid p) = 32%nat → 0 ≤ idx p ≤ u32_max → from_bytes (as_bytes p) = Ok p.
Proof.
  intros Hl Hi. unfold from_bytes, as_bytes, u32_max in *.
  rewrite length_app, length_to_be_bytes, Hl. simpl.
  rewrite take_app_length', drop_app_length' by done.
  rewrite take_ge by (by rewrite length_to_be_bytes).
  rewrite from_to_be_bytes by lia. by destruct p.
Qed.
Lemma from_bytes_as_bytes p : pegout_id_ok p → from_bytes (as_bytes p) = Ok p.
Proof. intros (Hl & _ & Hi). by apply from_bytes_as_bytes_len. Qed.

Lemma from_be_bytes_u32 l :
  length l = 4%nat → Forall is_byte l → 0 ≤ from_be_bytes l ≤ u32_max.
Proof.
  intros Hlen Hl. destruct l as [|a [|b [|c [|d [|? ?]]]]]; try done.
  rewrite !Forall_cons in Hl. unfold is_byte in Hl. unfold u32_max, from_be_bytes.
  change (reverse [a; b; c; d]) with [d; c; b; a]. simpl. lia.
Qed.

Lemma from_bytes_ok bs p :
  Forall is_byte bs → from_bytes bs = Ok p → pegout_id_ok p ∧ as_bytes p = bs.
Proof.
  intros Hbs. unfold from_bytes. case_match eqn:Hl; [|done]. apply Nat.eqb_eq in Hl.
  intros [= <-]. unfold pegout_id_ok, as_bytes. cbn [pid_txid idx].
  assert (length (drop 32 bs) = 4%nat) as Hd by (rewrite length_drop; lia).
  rewrite (take_ge (drop 32 bs)) by lia.
  rewrite to_from_be_bytes by (done || by apply Forall_drop).
  rewrite take_drop. split; [|done]. split; [rewrite length_take; lia|].
  split; [by apply Forall_take|]. apply from_be_bytes_u32; [done|by apply Forall_drop].
Qed.

Lemma to_bytes_inj o1 o2 :
  outpoint_ok o1 → outpoint_ok o2 → to_bytes o1 = to_bytes o2 → o1 = o2.
Proof.
  intros (Hl1 & _ & Hv1) (Hl2 & _ & Hv2) Heq. unfold to_bytes in Heq.
  apply app_inj_1 in Heq as [Ht Hv]; [|congruence]. unfold u32_max in *.
  apply (f_equal from_le_bytes) in Hv. rewrite !from_to_le_bytes in Hv by lia.
  destruct o1, o2; simpl in *. congruence.
Qed.

(** Identifiers survive their byte form: a pegout id decodes back from its
    36-byte encoding, every 36-byte string is the encoding of the id it decodes
    to, any other length is refused, and distinct outpoints have distinct
    database keys. *)
Theorem identifier_codecs :
  (∀ p, pegout_id_ok p → from_bytes (as_bytes p) = Ok p) ∧
  (∀ bs p, Forall is_byte bs → from_bytes bs = Ok p → pegout_id_ok p ∧ as_bytes p = bs) ∧
  (∀ bs, length bs ≠ 36%nat ↔ from_bytes bs = Err tt) ∧
  (∀ o1 o2, outpoint_ok o1 → outpoint_ok o2 → to_bytes o1 = to_bytes o2 → o1 = o2).
Proof.
  split_and!; [apply from_bytes_as_bytes|apply from_bytes_ok| |apply to_bytes_inj].
  intros bs. unfold from_bytes. destruct (Nat.eqb_spec (length bs) 36); split; congruence.
Qed.
