(* ===== verification/Psbt.v ===== *)
(** * Partially signed transactions

    [bin/btc-server/src/wallet/psbt.rs] and the weight and fee calculations of
    [bin/btc-server/src/wallet/util.rs] and [wallet/mod.rs]: the proprietary
    fields the federation stores in a PSBT, and how a PSBT is built.

    The [bitcoin] and [frost] crates are parameters: [BitcoinLib] and [Frost]
    list the functions the server calls, [BitcoinLibLaws] and [FrostLaws] the
    documented behaviour its code relies on. *)

From S2P Require Import Prelude Bitcoin.

(** ** Data *)

Record ProprietaryKey := { prefix : bytes; subtype : Z; key : bytes }.
#[export] Instance ProprietaryKey_eq_dec : EqDecision ProprietaryKey.
Proof. solve_decision. Defined.
#[export] Instance ProprietaryKey_countable : Countable ProprietaryKey.
Proof.
  refine (inj_countable' (λ k, (prefix k, subtype k, key k))
            (λ p, {| prefix := p.1.1; subtype := p.1.2; key := p.2 |}) _).
  by intros [].
Defined.

Record PsbtInput := {
  witness_utxo : option TxOut;
  in_proprietary : gmap ProprietaryKey bytes;
  sighash_type : option Z;
  tap_key_sig : option bytes;
  final_script_witness : option (list bytes);
}.
Record PsbtOutput := { out_proprietary : gmap ProprietaryKey bytes }.
Record Psbt := {
  unsigned_tx : Transaction;
  inputs : list PsbtInput;
  outputs : list PsbtOutput;
}.

Definition default_input : PsbtInput :=
  {| witness_utxo := None; in_proprietary := ∅; sighash_type := None;
     tap_key_sig := None; final_script_witness := None |}.
Definition default_output : PsbtOutput := {| out_proprietary := ∅ |}.

(** ** The libraries *)

Inductive PsbtError := NegativeFee | FeeOverflow | MissingUtxo | OtherPsbtError.
Inductive ExtractTxError := AbsurdFeeRate | MissingInputValue | SendingTooMuch.

Class BitcoinLib := {
  #[global] lib_hashes :: BitcoinHashes;
  from_unsigned_tx : Transaction → option Psbt;
  extract_tx : Psbt → result ExtractTxError Transaction;
  psbt_fee : Psbt → result PsbtError Z;
  combine : Psbt → Psbt → result PsbtError Psbt;
  tx_weight : Transaction → Z;
  minimal_non_dust : Script → Z;
  fee_wu : Z → Z → option Z;
}.

(** [Psbt::from_unsigned_tx]: one default input and output map per transaction
    input and output, provided no input is signed.  [extract_tx] of a PSBT gives
    its transaction with the final scripts filled in. *)
Definition tx_unsigned (tx : Transaction) : Prop :=
  Forall (λ i, script_sig i = [] ∧ txin_witness i = []) (input tx).

Class BitcoinLibLaws `{BitcoinLib} : Prop := {
  from_unsigned_tx_ok tx :
    tx_unsigned tx →
    from_unsigned_tx tx =
      Some {| unsigned_tx := tx;
              inputs := replicate (length (input tx)) default_input;
              outputs := replicate (length (output tx)) default_output |};
  extract_tx_ok psbt tx :
    extract_tx psbt = Ok tx →
    output tx = output (unsigned_tx psbt) ∧
    previous_output <$> input tx = previous_output <$> input (unsigned_tx psbt);
  psbt_fee_ok psbt fee :
    psbt_fee psbt = Ok fee →
    ∃ vs, Forall2 (λ i v, value <$> witness_utxo i = Some v) (inputs psbt) vs ∧
          fee = zsum vs - zsum (value <$> output (unsigned_tx psbt)) ∧ 0 ≤ fee;
  minimal_non_dust_nonneg s : 0 ≤ minimal_non_dust s;
  fee_wu_nonneg r w f : fee_wu r w = Some f → 0 ≤ f ≤ u64_max;
}.

(** FROST values travel as bytes. *)
Class Frost := {
  Identifier : Type;
  #[global] Identifier_eq_dec :: EqDecision Identifier;
  #[global] Identifier_countable :: Countable Identifier;
  SigningCommitments : Type;
  #[global] SigningCommitments_eq_dec :: EqDecision SigningCommitments;
  SignatureShare : Type;
  id_serialize : Identifier → bytes;
  id_deserialize : bytes → option Identifier;
  sc_serialize : SigningCommitments → option bytes;
  sc_deserialize : bytes → option SigningCommitments;
  ss_serialize : SignatureShare → bytes;
  ss_deserialize : bytes → option SignatureShare;
}.
(** Encodings are read back, and identifiers have one encoding. *)
Class FrostLaws `{Frost} : Prop := {
  id_roundtrip i : id_deserialize (id_serialize i) = Some i;
  id_canonical b i : id_deserialize b = Some i → b = id_serialize i;
  sc_roundtrip s b : sc_serialize s = Some b → sc_deserialize b = Some s;
  ss_roundtrip s : ss_deserialize (ss_serialize s) = Some s;
}.

(** A small instance of each library, for the concrete examples: transactions
    are hashed to a plain listing of what they spend and pay, FROST identifiers
    are numbers, in the first of 32 bytes. *)
Module Sample.

Definition sum_option (l : list (option Z)) : option Z :=
  foldr (λ o acc, x ← o; y ← acc; Some (x + y)) (Some 0) l.

Definition txid_of (tx : Transaction) : Txid :=
  concat ((λ i, vout (previous_output i) :: op_txid (previous_output i)) <$> input tx) ++
  concat ((λ o, value o :: script_pubkey o) <$> output tx).

#[export] Instance hashes : BitcoinHashes := {|
  compute_txid := txid_of;
  block_hash b := block_timestamp b :: prev_blockhash b;
|}.

Definition set_witness (i : TxIn) (p : PsbtInput) : TxIn :=
  {| previous_output := previous_output i; script_sig := script_sig i; sequence := sequence i;
     txin_witness := default [] (final_script_witness p) |}.

Definition merge_input (a b : PsbtInput) : PsbtInput :=
  {| witness_utxo := witness_utxo a; in_proprietary := in_proprietary a ∪ in_proprietary b;
     sighash_type := sighash_type a; tap_key_sig := tap_key_sig a;
     final_script_witness := final_script_witness a |}.

#[export] Instance lib : BitcoinLib := {|
  lib_hashes := hashes;
  from_unsigned_tx tx :=
    Some {| unsigned_tx := tx;
            inputs := replicate (length (input tx)) default_input;
            outputs := replicate (length (output tx)) default_output |};
  extract_tx p :=
    if (length (input (unsigned_tx p)) =? length (inputs p))%nat then
      Ok {| tx_version := tx_version (unsigned_tx p); lock_time := lock_time (unsigned_tx p);
            input := zip_with set_witness (input (unsigned_tx p)) (inputs p);
            output := output (unsigned_tx p) |}
    else Err MissingInputValue;
  psbt_fee p :=
    match sum_option ((λ i, value <$> witness_utxo i) <$> inputs p) with
    | Some v =>
        let paid := zsum (value <$> output (unsigned_tx p)) in
        if paid <=? v then Ok (v - paid) else Err NegativeFee
    | None => Err MissingUtxo
    end;
  combine a b :=
    if bool_decide (unsigned_tx a = unsigned_tx b) then
      Ok {| unsigned_tx := unsigned_tx a; inputs := zip_with merge_input (inputs a) (inputs b);
            outputs := outputs a |}
    else Err OtherPsbtError;
  tx_weight tx := 42 + 164 * Z.of_nat (length (input tx)) + 172 * Z.of_nat (length (output tx));
  minimal_non_dust _ := 330;
  fee_wu r w := if bool_decide (0 ≤ r * w / 1000 ≤ u64_max) then Some (r * w / 1000) else None;
|}.

Lemma sum_option_some l s :
  sum_option l = Some s → ∃ vs, l = Some <$> vs ∧ s = zsum vs.
Proof.
  revert s. induction l as [|o l IH]; intros s Hs; simpl in Hs.
  - injection Hs as <-. by exists [].
  - destruct o as [x|]; [|done]. simpl in Hs.
    destruct (sum_option l) as [y|]; [|done]. injection Hs as <-.
    destruct (IH y) as (vs & -> & ->); [done|]. by exists (x :: vs).
Qed.

#[export] Instance lib_laws : BitcoinLibLaws.
Proof.
  split.
  - done.
  - intros p tx. simpl. destruct (Nat.eqb_spec (length (input (unsigned_tx p))) (length (inputs p)))
      as [Hl|]; [|done]. intros [= <-]. simpl. split; [done|].
    generalize dependent (inputs p). induction (input (unsigned_tx p)) as [|i l IH];
      intros [|k ks] Hk; simplify_eq/=; [done|]. f_equal. by apply IH.
  - intros p fee. simpl. destruct (sum_option _) as [v|] eqn:Hv; [|done].
    case_match eqn:Hle; [|done]. intros [= <-]. bool_to_prop.
    apply sum_option_some in Hv as (vs & Hvs & ->). exists vs. split_and!; [|done|lia].
    apply Forall2_same_length_lookup_2.
    + apply (f_equal length) in Hvs. by rewrite !length_fmap in Hvs.
    + intros n i v Hi Hv. apply (f_equal (.!! n)) in Hvs.
      rewrite !list_lookup_fmap, Hi, Hv in Hvs. by injection Hvs.
  - done.
  - intros r w f. simpl. case_bool_decide; naive_solver.
Qed.

#[export] Instance frost : Frost := {|
  Identifier := Z;
  SigningCommitments := list Z;
  SignatureShare := list Z;
  id_serialize i := i :: replicate 31 0;
  id_deserialize b :=
    match b with
    | i :: l => if bool_decide (l = replicate 31 0) then Some i else None
    | [] => None
    end;
  sc_serialize c := Some c;
  sc_deserialize b := Some b;
  ss_serialize s := s;
  ss_deserialize b := Some b;
|}.
#[export] Instance frost_laws : FrostLaws.
Proof.
  split; try (simpl; naive_solver).
  intros [|j l] i; simpl; [done|]. case_bool_decide; [|done]. intros [= ->]. by subst.
Qed.

End Sample.

(** ** UTXO versions *)

Inductive UtxoVersion := V1.
Definition utxo_version_as_u32 (v : UtxoVersion) : Z := match v with V1 => 0 end.
(** [TryFrom<u32>]: the error carries the number. *)
Definition utxo_version_try_from (v : Z) : result Z UtxoVersion :=
  if v =? 0 then Ok V1 else Err v.

(** ** Proprietary fields *)

Definition ETH_ADDRESS_KEY_TYPE : Z := 1.
Definition SIGNING_COMMITMENTS_KEY_TYPE : Z := 2.
Definition PARTIAL_SIGNATURE_KEY_TYPE : Z := 3.
Definition UTXO_VERSION_TYPE : Z := 4.
Definition PEGOUT_ID_KEY_TYPE : Z := 4.

(** [b"btx"] *)
Definition PROP_KEY_PREFIX : bytes := [98; 116; 120].
Definition prop_key (st : Z) (k : bytes) : ProprietaryKey :=
  {| prefix := PROP_KEY_PREFIX; subtype := st; key := k |}.
Definition ETH_ADDRESS_KEY := prop_key ETH_ADDRESS_KEY_TYPE [].
Definition PEGOUT_ID_KEY := prop_key PEGOUT_ID_KEY_TYPE [].
Definition UTXO_VERSION_TYPE_KEY := prop_key UTXO_VERSION_TYPE [].

Definition cast (k : ProprietaryKey) (st : Z) : option bytes :=
  if bool_decide (prefix k = PROP_KEY_PREFIX) && (subtype k =? st) then Some (key k) else None.

Definition set_prop (k : ProprietaryKey) (v : bytes) (i : PsbtInput) : PsbtInput :=
  {| witness_utxo := witness_utxo i; in_proprietary := <[k := v]> (in_proprietary i);
     sighash_type := sighash_type i; tap_key_sig := tap_key_sig i;
     final_script_witness := final_script_witness i |}.

Definition set_eth_address (a : bytes) (i : PsbtInput) : PsbtInput :=
  set_prop ETH_ADDRESS_KEY a i.
Definition eth_address (i : PsbtInput) : option bytes :=
  b ← in_proprietary i !! ETH_ADDRESS_KEY;
  if (length b =? 20)%nat then Some b else None.

Definition add_version_to_psbt (v : Z) (i : PsbtInput) : PsbtInput :=
  set_prop UTXO_VERSION_TYPE_KEY (to_le_bytes 4 v) i.
Definition get_version_from_psbt_input (i : PsbtInput) : option UtxoVersion :=
  b ← in_proprietary i !! UTXO_VERSION_TYPE_KEY;
  if (length b =? 4)%nat then
    match utxo_version_try_from (from_le_bytes b) with Ok v => Some v | _ => None end
  else None.

(** [BTreeMap] iteration: keys in order (prefix, subtype, key). *)
Definition prop_leb (a b : ProprietaryKey) : bool :=
  if bool_decide (prefix a = prefix b) then
    if subtype a =? subtype b then bytes_leb (key a) (key b) else subtype a <? subtype b
  else bytes_leb (prefix a) (prefix b).
Definition prop_iter (m : gmap ProprietaryKey bytes) : list (ProprietaryKey * bytes) :=
  sort_by (λ a b, prop_leb a.1 b.1) (map_to_list m).

Section frost_fields.
Context `{Frost}.

(** [commit.serialize().expect(..)] *)
Definition set_signing_commitment (id : Identifier) (c : SigningCommitments) (i : PsbtInput)
    : result () PsbtInput :=
  let? payload := expect (sc_serialize c) in
  Ok (set_prop (prop_key SIGNING_COMMITMENTS_KEY_TYPE (id_serialize id)) payload i).

Definition signing_commitments (id : Identifier) (i : PsbtInput) : option SigningCommitments :=
  b ← in_proprietary i !! prop_key SIGNING_COMMITMENTS_KEY_TYPE (id_serialize id);
  sc_deserialize b.

(** The loop of [all_signing_commitments] and [all_partial_signatures]: entries
    that do not cast or do not decode are skipped. *)
Definition collect_fields {V} (st : Z) (decode : bytes → option V)
    (l : list (ProprietaryKey * bytes)) : gmap Identifier V :=
  foldl (λ (ret : gmap Identifier V) kv,
    match cast kv.1 st with
    | Some k =>
        match id_deserialize k with
        | Some id => match decode kv.2 with
                     | Some v => <[id := v]> ret
                     | None => ret
                     end
        | None => ret
        end
    | None => ret
    end) ∅ l.

Definition all_signing_commitments (i : PsbtInput) : gmap Identifier SigningCommitments :=
  collect_fields SIGNING_COMMITMENTS_KEY_TYPE sc_deserialize (prop_iter (in_proprietary i)).

Definition set_partial_signature (id : Identifier) (s : SignatureShare) (i : PsbtInput)
    : PsbtInput :=
  set_prop (prop_key PARTIAL_SIGNATURE_KEY_TYPE (id_serialize id)) (ss_serialize s) i.

Definition partial_signature (id : Identifier) (i : PsbtInput) : option SignatureShare :=
  b ← in_proprietary i !! prop_key PARTIAL_SIGNATURE_KEY_TYPE (id_serialize id);
  ss_deserialize b.

Definition all_partial_signatures (i : PsbtInput) : gmap Identifier SignatureShare :=
  collect_fields PARTIAL_SIGNATURE_KEY_TYPE ss_deserialize (prop_iter (in_proprietary i)).

End frost_fields.

Definition set_pegout_id (p : bytes) (o : PsbtOutput) : PsbtOutput :=
  {| out_proprietary := <[PEGOUT_ID_KEY := p]> (out_proprietary o) |}.
Definition pegout_id (o : PsbtOutput) : option bytes :=
  b ← out_proprietary o !! PEGOUT_ID_KEY;
  if (length b =? 36)%nat then Some b else None.

(** [PsbtExt::pegout_ids] *)
Definition pegout_ids (p : Psbt) : list bytes := omap pegout_id (outputs p).

(** ** Building a PSBT *)

Record InputDTO := {
  dto_outpoint : OutPoint;
  dto_output : TxOut;
  dto_eth_address : option bytes;
  dto_version : UtxoVersion;
}.

(** [Sequence::ENABLE_RBF_NO_LOCKTIME] *)
Definition ENABLE_RBF_NO_LOCKTIME : Z := 4294967293.

Definition make_txin (u : InputDTO) : TxIn :=
  {| previous_output := dto_outpoint u; script_sig := [];
     sequence := ENABLE_RBF_NO_LOCKTIME; txin_witness := [] |}.

Definition pegout_tx (ins : list InputDTO) (outs : list (TxOut * bytes))
    (change : option TxOut) : Transaction :=
  {| tx_version := 2; lock_time := 0; input := make_txin <$> ins;
     output := (outs.*1) ++ match change with Some c => [c] | None => [] end |}.

(** Metadata of one input. *)
Definition fill_input (i : PsbtInput) (u : InputDTO) : PsbtInput :=
  let i1 := {| witness_utxo := Some (dto_output u); in_proprietary := in_proprietary i;
               sighash_type := sighash_type i; tap_key_sig := tap_key_sig i;
               final_script_witness := final_script_witness i |} in
  let i2 := match dto_eth_address u with Some a => set_eth_address a i1 | None => i1 end in
  add_version_to_psbt (utxo_version_as_u32 (dto_version u)) i2.

(** [for (x, y) in xs.iter_mut().zip(ys.iter())]: elements past the shorter
    list are left as they are. *)
Fixpoint zip_update {A B} (f : A → B → A) (l : list A) (k : list B) : list A :=
  match l, k with
  | a :: l', b :: k' => f a b :: zip_update f l' k'
  | _, _ => l
  end.

Section create.
Context `{BitcoinLib}.

Definition create_psbt (ins : list InputDTO) (outs : list (TxOut * bytes))
    (change : option TxOut) : result () Psbt :=
  let? psbt := expect (from_unsigned_tx (pegout_tx ins outs change)) in
  Ok {| unsigned_tx := unsigned_tx psbt;
        inputs := zip_update fill_input (inputs psbt) ins;
        outputs := zip_update (λ o p, set_pegout_id p.2 o) (outputs psbt) outs |}.

(** ** Weights *)

Definition TAPROOT_KEYSPEND_SIGHASH_DEFAULT_WEIGHT : Z := 65.
Definition SEGWIT_FLAG_WEIGHT : Z := 1.
Definition SEGWIT_MARKER_WEIGHT : Z := 1.
Definition MAX_BITCOIN_TX_WEIGHT : Z := 400000.
Definition MAX_BASE_TX_WEIGHT : Z := 4 * 4 + 1 + 1 + 3 * 4 + 3 * 4 + 4 * 4.
Definition PER_P2TR_KEYSPEND_WEIGHT : Z :=
  32 * 4 + 4 * 4 + 1 * 4 + 4 * 4 + 1 + TAPROOT_KEYSPEND_SIGHASH_DEFAULT_WEIGHT.
Definition PER_OUTPUT_MAX_WEIGHT : Z := 8 * 4 + 1 * 4 + 34 * 4.
Definition MAX_PEGOUT_TX_WEIGHT : Z := 50000.

Inductive WalletCalculationError := WeightOverflow | InvalidParameters.

Definition calculate_signed_tx_weight (p : Psbt) : result WalletCalculationError Z :=
  let unsigned_tx_weight := tx_weight (unsigned_tx p) in
  let num_inputs := Z.of_nat (length (inputs p)) in
  let? total_signature_weight :=
    ok_or (checked_mul (TAPROOT_KEYSPEND_SIGHASH_DEFAULT_WEIGHT + 1) num_inputs)
      WeightOverflow in
  ok_or (w1 ← checked_add unsigned_tx_weight total_signature_weight;
         w2 ← checked_add w1 SEGWIT_FLAG_WEIGHT;
         checked_add w2 SEGWIT_MARKER_WEIGHT) WeightOverflow.

(** [psbt.fee_amount().unwrap()]; the product wraps in a release build. *)
Definition calculate_signed_tx_fee_rate (p : Psbt) : result WalletCalculationError Z :=
  let? w := calculate_signed_tx_weight p in
  if w =? 0 then Err InvalidParameters
  else match psbt_fee p with
       | Ok fee => Ok (wrap64 (fee * 1000) / w)
       | _ => Panic
       end.

(** [u64] subtraction wraps in a release build; division by a constant. *)
Definition max_number_of_psbt_inputs (num_outputs : Z) : Z :=
  let psbt_without_inputs_weight :=
    wrap64 (MAX_BASE_TX_WEIGHT + num_outputs * PER_OUTPUT_MAX_WEIGHT) in
  wrap64 (MAX_BITCOIN_TX_WEIGHT - psbt_without_inputs_weight) / PER_P2TR_KEYSPEND_WEIGHT.

(** [PsbtExt::fee_per_output] *)
Inductive PsbtFeePerOutputError := FeeError (e : PsbtError) | DivideByZero.
Definition fee_per_output (p : Psbt) (num_outputs : Z) : result PsbtFeePerOutputError Z :=
  let? fee := map_err FeeError (psbt_fee p) in
  ok_or (checked_div fee num_outputs) DivideByZero.

End create.

(** ** Theorems *)

Lemma zip_update_replicate {A B} (f : A → B → A) (a : A) n (k : list B) :
  (length k ≤ n)%nat →
  zip_update f (replicate n a) k = (f a <$> k) ++ replicate (n - length k) a.
Proof.
  revert n. induction k as [|b k IH]; intros n Hn; simpl in *.
  - rewrite Nat.sub_0_r. by destruct n.
  - destruct n as [|n]; [lia|]. simpl. rewrite IH by lia. done.
Qed.

Section created.
Context `{BitcoinLib, !BitcoinLibLaws}.

(** The PSBT that [create_psbt] builds. *)
Definition created_psbt (ins : list InputDTO) (outs : list (TxOut * bytes))
    (change : option TxOut) : Psbt :=
  {| unsigned_tx := pegout_tx ins outs change;
     inputs := fill_input default_input <$> ins;
     outputs := ((λ p, set_pegout_id p default_output) <$> outs.*2) ++
                match change with Some _ => [default_output] | None => [] end |}.

Lemma create_psbt_eq ins outs change :
  create_psbt ins outs change = Ok (created_psbt ins outs change).
Proof.
  unfold create_psbt. rewrite from_unsigned_tx_ok; simpl.
  - f_equal. unfold created_psbt. f_equal.
    + rewrite zip_update_replicate; rewrite length_fmap; [|done].
      by rewrite Nat.sub_diag, app_nil_r.
    + rewrite length_app, length_fmap. rewrite zip_update_replicate by lia.
      rewrite <-list_fmap_compose. f_equal.
      destruct change; simpl; by rewrite Nat.add_sub_swap, Nat.sub_diag by lia.
  - unfold tx_unsigned. simpl. apply Forall_fmap, Forall_true. done.
Qed.

Lemma pegout_id_set p o : length p = 36%nat → pegout_id (set_pegout_id p o) = Some p.
Proof.
  intros Hp. unfold pegout_id, set_pegout_id. cbn [out_proprietary].
  rewrite lookup_insert_eq. simpl. by rewrite Hp.
Qed.

Lemma list_omap_cons {A B} (f : A → option B) x l :
  omap f (x :: l) = match f x with Some y => y :: omap f l | None => omap f l end.
Proof. done. Qed.

Lemma created_pegout_ids ins outs change :
  Forall (λ p : TxOut * bytes, length p.2 = 36%nat) outs →
  pegout_ids (created_psbt ins outs change) = outs.*2.
Proof.
  intros Hl. unfold pegout_ids, created_psbt. simpl. rewrite omap_app.
  assert (omap pegout_id ((λ p, set_pegout_id p default_output) <$> outs.*2) = outs.*2) as ->.
  { clear change. induction Hl as [|[o p] outs Hp Hl IH]; [done|].
    rewrite !fmap_cons, list_omap_cons, IH, pegout_id_set by done. done. }
  destruct change; simpl; by rewrite app_nil_r.
Qed.

Lemma fill_input_fields u :
  witness_utxo (fill_input default_input u) = Some (dto_output u) ∧
  get_version_from_psbt_input (fill_input default_input u) = Some (dto_version u) ∧
  (∀ a, dto_eth_address u = Some a → length a = 20%nat →
        eth_address (fill_input default_input u) = Some a) ∧
  (dto_eth_address u = None → eth_address (fill_input default_input u) = None).
Proof.
  unfold fill_input, eth_address, get_version_from_psbt_input. simpl.
  assert (ETH_ADDRESS_KEY ≠ UTXO_VERSION_TYPE_KEY) as Hne by done.
  split_and!.
  - by destruct (dto_eth_address u).
  - rewrite lookup_insert_eq. simpl. by destruct (dto_version u).
  - intros a -> Ha. rewrite lookup_insert_ne by done. simpl. rewrite lookup_insert_eq.
    simpl. by rewrite Ha.
  - intros ->. rewrite lookup_insert_ne by done. simpl. by rewrite lookup_empty.
Qed.

(** A PSBT the coordinator builds carries everything the signers need:
    building never panics, input [i] spends the [i]-th selected UTXO and records
    its output, version and eth tweak, and the tagged outputs are the pegouts in
    order, with the change, if any, last and untagged. *)
Theorem create_psbt_complete ins outs change :
  Forall (λ p : TxOut * bytes, length p.2 = 36%nat) outs →
  ∃ p, create_psbt ins outs change = Ok p ∧
    output (unsigned_tx p) = outs.*1 ++ option_list change ∧
    pegout_ids p = outs.*2 ∧
    length (outputs p) = length (output (unsigned_tx p)) ∧
    (∀ c, change = Some c → last (outputs p) = Some default_output) ∧
    (∀ i u, ins !! i = Some u → ∃ pin,
       previous_output <$> input (unsigned_tx p) !! i = Some (dto_outpoint u) ∧
       inputs p !! i = Some pin ∧ witness_utxo pin = Some (dto_output u) ∧
       get_version_from_psbt_input pin = Some (dto_version u) ∧
       (∀ a, dto_eth_address u = Some a → length a = 20%nat → eth_address pin = Some a) ∧
       (dto_eth_address u = None → eth_address pin = None)).
Proof.
  intros Hl. exists (created_psbt ins outs change). rewrite create_psbt_eq. split_and!.
  - done.
  - by destruct change.
  - by apply created_pegout_ids.
  - simpl. rewrite !length_app, !length_fmap. by destruct change.
  - intros c ->. simpl. by rewrite last_snoc.
  - intros i u Hu. exists (fill_input default_input u).
    simpl. rewrite !list_lookup_fmap, Hu. split; [done|]. split; [done|].
    apply fill_input_fields.
Qed.

End created.

#[local] Existing Instances Sample.lib Sample.lib_laws Sample.frost Sample.frost_laws.

Definition sample_id (n : Z) : bytes := replicate 36 n.
Definition sample_dto : InputDTO :=
  {| dto_outpoint := mkOutPoint (replicate 32 7) 1;
     dto_output := {| value := 5000; script_pubkey := [81] |};
     dto_eth_address := Some (replicate 20 9); dto_version := V1 |}.

Lemma create_psbt_complete_witness :
  ∃ p, create_psbt [sample_dto] [({| value := 4000; script_pubkey := [82] |}, sample_id 3)]
         (Some {| value := 900; script_pubkey := [81] |}) = Ok p ∧
    pegout_ids p = [sample_id 3].
Proof.
  destruct (create_psbt_complete [sample_dto]
              [({| value := 4000; script_pubkey := [82] |}, sample_id 3)]
              (Some {| value := 900; script_pubkey := [81] |})) as (p & Hp & _ & Hids & _).
  - by repeat constructor.
  - exists p. by split.
Defined.

Section fields.
Context `{Frost, !FrostLaws}.

Lemma cast_some k st b : cast k st = Some b ↔ k = prop_key st b.
Proof.
  unfold cast, prop_key. destruct k as [p s b']. simpl. split.
  - case_match; [|done]. intros [= ->]. bool_to_prop. by subst.
  - intros [= -> -> ->]. by rewrite bool_decide_eq_true_2, Z.eqb_refl.
Qed.

(** Collecting over entries with distinct keys finds what a lookup finds. *)
Lemma collect_fields_lookup {V} st (decode : bytes → option V) l id :
  NoDup l.*1 →
  collect_fields st decode l !! id =
  (b ← list_to_map (M := gmap ProprietaryKey bytes) l !! prop_key st (id_serialize id);
   decode b).
Proof.
  unfold collect_fields. induction l as [|[k b] l IH] using rev_ind; intros Hnd; simpl.
  - by rewrite !lookup_empty.
  - rewrite fmap_app, NoDup_app in Hnd. destruct Hnd as (Hnd & Hdisj & _).
    rewrite foldl_app. simpl. specialize (IH Hnd).
    assert (k ∉ l.*1) as Hk. { intros Hin. apply (Hdisj k Hin). simpl. by left. }
    assert (list_to_map (M := gmap ProprietaryKey bytes) (l ++ [(k, b)]) =
            <[k := b]> (list_to_map l)) as ->.
    { rewrite list_to_map_snoc by done. done. }
    destruct (cast k st) as [kb|] eqn:Hcast.
    + apply cast_some in Hcast as ->. destruct (id_deserialize kb) as [id'|] eqn:Hid.
      * apply id_canonical in Hid as ->. destruct (decide (id' = id)) as [->|Hne].
        -- rewrite lookup_insert_eq. simpl. destruct (decode b) eqn:Hd.
           { by rewrite lookup_insert_eq. }
           rewrite IH. rewrite not_elem_of_list_to_map_1 by done. done.
        -- rewrite lookup_insert_ne.
           { destruct (decode b); [|done]. by rewrite lookup_insert_ne. }
           intros [= Heq]. apply Hne.
           apply (f_equal id_deserialize) in Heq. rewrite !id_roundtrip in Heq. congruence.
      * rewrite lookup_insert_ne; [done|]. intros [= ->]. by rewrite id_roundtrip in Hid.
    + rewrite lookup_insert_ne; [done|]. intros ->.
      assert (cast (prop_key st (id_serialize id)) st = Some (id_serialize id)) as Hc
        by (by apply cast_some). congruence.
Qed.

Lemma prop_iter_spec (m : gmap ProprietaryKey bytes) :
  NoDup (prop_iter m).*1 ∧ list_to_map (M := gmap ProprietaryKey bytes) (prop_iter m) = m.
Proof.
  assert (prop_iter m ≡ₚ map_to_list m) as Hp by apply sort_by_perm.
  assert (NoDup (prop_iter m).*1) as Hnd
    by (rewrite Hp; apply NoDup_fst_map_to_list).
  split; [done|]. rewrite (list_to_map_proper (prop_iter m) (map_to_list m)) by done.
  apply list_to_map_to_list.
Qed.

Lemma all_signing_commitments_lookup i id :
  all_signing_commitments i !! id = signing_commitments id i.
Proof.
  destruct (prop_iter_spec (in_proprietary i)) as [Hnd Hmap].
  unfold all_signing_commitments, signing_commitments. by rewrite collect_fields_lookup, Hmap.
Qed.
Lemma all_partial_signatures_lookup i id :
  all_partial_signatures i !! id = partial_signature id i.
Proof.
  destruct (prop_iter_spec (in_proprietary i)) as [Hnd Hmap].
  unfold all_partial_signatures, partial_signature. by rewrite collect_fields_lookup, Hmap.
Qed.

Lemma id_serialize_ne (a b : Identifier) st :
  a ≠ b → prop_key st (id_serialize a) ≠ prop_key st (id_serialize b).
Proof.
  intros Hab [= Heq]. apply Hab. apply (f_equal id_deserialize) in Heq.
  rewrite !id_roundtrip in Heq. congruence.
Qed.

(** Writing one field of an input: [i'] differs from [i] in nothing but its
    proprietary map, and there not in the eth tweak. *)
Definition same_spend (i i' : PsbtInput) : Prop :=
  witness_utxo i' = witness_utxo i ∧ eth_address i' = eth_address i ∧
  sighash_type i' = sighash_type i ∧ tap_key_sig i' = tap_key_sig i ∧
  final_script_witness i' = final_script_witness i.

Lemma set_signing_commitment_spec id c i i' :
  set_signing_commitment id c i = Ok i' →
  same_spend i i' ∧ signing_commitments id i' = Some c ∧
  (∀ id', id' ≠ id → signing_commitments id' i' = signing_commitments id' i) ∧
  (∀ id', partial_signature id' i' = partial_signature id' i).
Proof.
  intros Hset. unfold set_signing_commitment in Hset. rinv1 Hset.
  injection Hset as <-. apply expect_ok in E.
  unfold same_spend, eth_address, signing_commitments, partial_signature. simpl. split_and!; try done.
  - by rewrite lookup_insert_ne.
  - rewrite lookup_insert_eq. simpl. by apply sc_roundtrip.
  - intros id' Hne. rewrite lookup_insert_ne; [done|]. by apply id_serialize_ne.
  - intros id'. by rewrite lookup_insert_ne.
Qed.

Lemma set_partial_signature_spec id s i :
  same_spend i (set_partial_signature id s i) ∧
  partial_signature id (set_partial_signature id s i) = Some s ∧
  (∀ id', id' ≠ id →
     partial_signature id' (set_partial_signature id s i) = partial_signature id' i) ∧
  (∀ id', signing_commitments id' (set_partial_signature id s i) = signing_commitments id' i).
Proof.
  unfold same_spend, eth_address, signing_commitments, partial_signature. simpl. split_and!; try done.
  - by rewrite lookup_insert_ne.
  - rewrite lookup_insert_eq. simpl. apply ss_roundtrip.
  - intros id' Hne. rewrite lookup_insert_ne; [done|]. by apply id_serialize_ne.
  - intros id'. by rewrite lookup_insert_ne.
Qed.

(** The views of a PSBT input agree: collecting all commitments (or partial
    signatures) and looking one signer up give the same answer; what a signer
    sets is what is read back for it; and setting one signer's field changes no
    other signer's field and no field of the other kind. *)
Theorem frost_fields_consistent (i : PsbtInput) (id : Identifier) :
  all_signing_commitments i !! id = signing_commitments id i ∧
  all_partial_signatures i !! id = partial_signature id i ∧
  (∀ c i', set_signing_commitment id c i = Ok i' →
     signing_commitments id i' = Some c ∧
     (∀ id', id' ≠ id → signing_commitments id' i' = signing_commitments id' i) ∧
     (∀ id', partial_signature id' i' = partial_signature id' i)) ∧
  (∀ s, partial_signature id (set_partial_signature id s i) = Some s ∧
     (∀ id', id' ≠ id →
        partial_signature id' (set_partial_signature id s i) = partial_signature id' i) ∧
     (∀ id', signing_commitments id' (set_partial_signature id s i) =
             signing_commitments id' i)).
Proof.
  split_and!; [apply all_signing_commitments_lookup|apply all_partial_signatures_lookup| |].
  - intros c i' Hset. by apply set_signing_commitment_spec in Hset as [_ Hspec].
  - intros s. apply set_partial_signature_spec.
Qed.

End fields.

Lemma frost_fields_consistent_witness :
  partial_signature 5 (set_partial_signature 5 [1; 2] default_input) = Some [1; 2] ∧
  all_signing_commitments default_input !! 5 = None.
Proof.
  destruct (frost_fields_consistent (H := Sample.frost) default_input 5) as (H1 & _ & _ & H4).
  split; [exact (proj1 (H4 [1; 2]))|exact H1].
Defined.

(** The input bound is tight: for at most 2325 outputs, a transaction with
    [max_number_of_psbt_inputs] inputs at the largest per-item weights stays
    within the standardness limit and one more input would not; the cap of 100
    pegouts keeps well inside the range where the subtraction cannot wrap. *)
Theorem max_number_of_psbt_inputs_tight n :
  0 ≤ n ≤ 2325 →
  let k := max_number_of_psbt_inputs n in
  let weight k := MAX_BASE_TX_WEIGHT + n * PER_OUTPUT_MAX_WEIGHT +
                  k * PER_P2TR_KEYSPEND_WEIGHT in
  0 ≤ k ∧ weight k ≤ MAX_BITCOIN_TX_WEIGHT < weight (k + 1).
Proof.
  intros Hn. unfold max_number_of_psbt_inputs.
  replace MAX_BASE_TX_WEIGHT with 58 by done.
  replace PER_OUTPUT_MAX_WEIGHT with 172 by done.
  replace PER_P2TR_KEYSPEND_WEIGHT with 230 by done.
  unfold MAX_BITCOIN_TX_WEIGHT.
  rewrite (wrap64_small (58 + n * 172)) by (unfold u64_max; lia).
  rewrite wrap64_small by (unfold u64_max; lia). cbv zeta.
  pose proof (Z.div_mod (400000 - (58 + n * 172)) 230 ltac:(lia)).
  pose proof (Z.mod_pos_bound (400000 - (58 + n * 172)) 230 ltac:(lia)).
  split; [apply Z.div_pos; lia|]. lia.
Qed.

Lemma max_number_of_psbt_inputs_tight_witness :
  let k := max_number_of_psbt_inputs 100 in
  let weight k := MAX_BASE_TX_WEIGHT + 100 * PER_OUTPUT_MAX_WEIGHT +
                  k * PER_P2TR_KEYSPEND_WEIGHT in
  0 ≤ k ∧ weight k ≤ MAX_BITCOIN_TX_WEIGHT < weight (k + 1).
Proof. apply (max_number_of_psbt_inputs_tight 100). lia. Defined.
