(* ===== verification/Database.v ===== *)
(** * The BTC server's database

    [bin/btc-server/src/database/mod.rs], [merkle.rs] and the stored data of
    [pegout_scheduler/mod.rs].  A sled tree is a finite map from its typed keys
    (the key encodings are injective, see [Bitcoin]);
    iterating a tree goes through its entries in the byte order of the encoded
    keys.  CBOR values are stored as the data they encode.  Reads of the store
    and CBOR writes into memory do not fail here, so an operation's errors are
    the ones its own code raises. *)

From S2P Require Import Prelude Bitcoin Psbt.

(** ** Stored data *)

Record Utxo := {
  outpoint : OutPoint;
  utxo_output : TxOut;
  utxo_eth_address : option bytes;
  utxo_version : Z;
}.
#[export] Instance Utxo_eq_dec : EqDecision Utxo.
Proof. solve_decision. Defined.

(** What the tree stores for a UTXO: [#[serde(skip)]] leaves the outpoint out. *)
Record UtxoRow := { row_output : TxOut; row_eth_address : option bytes; row_version : Z }.
Definition utxo_row (u : Utxo) : UtxoRow :=
  {| row_output := utxo_output u; row_eth_address := utxo_eth_address u;
     row_version := utxo_version u |}.
(** Reading a row back: the outpoint comes from the key. *)
Definition utxo_of_row (op : OutPoint) (r : UtxoRow) : Utxo :=
  {| outpoint := op; utxo_output := row_output r; utxo_eth_address := row_eth_address r;
     utxo_version := row_version r |}.

Definition utxo_new (op : OutPoint) (o : TxOut) (e : option bytes) (v : option UtxoVersion)
    : Utxo :=
  {| outpoint := op; utxo_output := o; utxo_eth_address := e;
     utxo_version := utxo_version_as_u32 (default V1 v) |}.

Record FinalizedPegout := {
  fin_id : PegoutId;
  fin_block_number : Z;
  fin_timestamp : option Z;
}.
#[export] Instance FinalizedPegout_eq_dec : EqDecision FinalizedPegout.
Proof. solve_decision. Defined.

Record PegoutRequest := {
  req_id : PegoutId;
  req_spk : Script;
  req_value : Z;
  req_botanix_height : Z;
  req_timestamp : option Z;
}.
#[export] Instance PegoutRequest_eq_dec : EqDecision PegoutRequest.
Proof. solve_decision. Defined.
Definition txout (r : PegoutRequest) : TxOut :=
  {| value := req_value r; script_pubkey := req_spk r |}.

(** A broadcast pegout transaction with its metadata. *)
Record Tx := {
  txid : Txid;
  tx : Transaction;
  pegout_idxs : list nat;
  pegout_requests : list PegoutRequest;
  change_idxs : list nat;
  created : Z;
}.

Record ExportedKeyPackage := {
  exp_version : Z;
  iv : bytes;
  enc_key_package : bytes;
  enc_pk_package : bytes;
}.

(** FROST key packages are opaque: their serialized form. *)
Abbreviation KeyPackage := (list Z).
Abbreviation PublicKeyPackage := (list Z).

Inductive DbError :=
  | DbFrostSerialization
  | DbSerialization
  | DbPsbt (e : PsbtError)
  | DbRpcToDbMap
  | DbEmptyMerkleRoot
  | DbDataCorruption
  | InvalidUTXOVersion (v : Z)
  | TrackedTxNotFoundInPegoutScheduler
  | BadDecryptionPassphrase
  | BadExportedPackageFormatVersion.

Record Db := {
  utxos : gmap OutPoint UtxoRow;
  round1_dkg_packages : gmap bytes bytes;
  round2_dkg_packages : gmap bytes bytes;
  psbts : gmap bytes Psbt;
  tracked_txs : gmap Txid Tx;
  finalized_pegout_ids : gmap PegoutId FinalizedPegout;
  pending_pegouts : gmap PegoutId PegoutRequest;
  key_packages : gmap Z KeyPackage;
  pubkey_packages : gmap Z PublicKeyPackage;
  (** single keys of the default tree *)
  legacy_key_package : option KeyPackage;
  legacy_pubkey_package : option PublicKeyPackage;
  utxo_merkle_root : option bytes;
  tracked_tx_merkle_root : option bytes;
  pending_pegouts_merkle_root : option bytes;
  finalized_pegout_ids_merkle_root : option bytes;
  pegoutmgr_tip : option BlockHash;
}.

(** [Db::open] on an empty directory. *)
Definition open : Db :=
  {| utxos := ∅; round1_dkg_packages := ∅; round2_dkg_packages := ∅; psbts := ∅;
     tracked_txs := ∅; finalized_pegout_ids := ∅; pending_pegouts := ∅;
     key_packages := ∅; pubkey_packages := ∅; legacy_key_package := None;
     legacy_pubkey_package := None; utxo_merkle_root := None; tracked_tx_merkle_root := None;
     pending_pegouts_merkle_root := None; finalized_pegout_ids_merkle_root := None;
     pegoutmgr_tip := None |}.

(** Writing one tree or key. *)
Definition put_utxos x (d : Db) : Db :=
  let 'Build_Db _ a b c e f g h i j k l m n o p := d in Build_Db x a b c e f g h i j k l m n o p.
Definition put_round1 x (d : Db) : Db :=
  let 'Build_Db a _ b c e f g h i j k l m n o p := d in Build_Db a x b c e f g h i j k l m n o p.
Definition put_round2 x (d : Db) : Db :=
  let 'Build_Db a b _ c e f g h i j k l m n o p := d in Build_Db a b x c e f g h i j k l m n o p.
Definition put_psbts x (d : Db) : Db :=
  let 'Build_Db a b c _ e f g h i j k l m n o p := d in Build_Db a b c x e f g h i j k l m n o p.
Definition put_tracked x (d : Db) : Db :=
  let 'Build_Db a b c e _ f g h i j k l m n o p := d in Build_Db a b c e x f g h i j k l m n o p.
Definition put_finalized x (d : Db) : Db :=
  let 'Build_Db a b c e f _ g h i j k l m n o p := d in Build_Db a b c e f x g h i j k l m n o p.
Definition put_pending x (d : Db) : Db :=
  let 'Build_Db a b c e f g _ h i j k l m n o p := d in Build_Db a b c e f g x h i j k l m n o p.
Definition put_keys x (d : Db) : Db :=
  let 'Build_Db a b c e f g h _ i j k l m n o p := d in Build_Db a b c e f g h x i j k l m n o p.
Definition put_pubkeys x (d : Db) : Db :=
  let 'Build_Db a b c e f g h i _ j k l m n o p := d in Build_Db a b c e f g h i x j k l m n o p.
Definition put_utxo_root x (d : Db) : Db :=
  let 'Build_Db a b c e f g h i j k l _ m n o p := d in Build_Db a b c e f g h i j k l x m n o p.
Definition put_tracked_root x (d : Db) : Db :=
  let 'Build_Db a b c e f g h i j k l m _ n o p := d in Build_Db a b c e f g h i j k l m x n o p.
Definition put_pending_root x (d : Db) : Db :=
  let 'Build_Db a b c e f g h i j k l m n _ o p := d in Build_Db a b c e f g h i j k l m n x o p.
Definition put_finalized_root x (d : Db) : Db :=
  let 'Build_Db a b c e f g h i j k l m n o _ p := d in Build_Db a b c e f g h i j k l m n o x p.
Definition put_tip x (d : Db) : Db :=
  let 'Build_Db a b c e f g h i j k l m n o p _ := d in Build_Db a b c e f g h i j k l m n o p x.

Abbreviation DbM := (SM Db DbError).

(** ** Libraries: SHA-256, the Merkle root, the AEAD and the transcript *)

Class Hashing := {
  sha256 : bytes → bytes;
  (** [bitcoin::merkle_tree::calculate_root] *)
  calculate_root : list bytes → option bytes;
}.
Class HashingLaws `{Hashing} : Prop := {
  calculate_root_none l : calculate_root l = None ↔ l = [];
}.

(** [challenge salt passphrase label] is the key a fresh Merlin transcript
    yields for a label after absorbing both messages; [earlier] lists the labels
    challenged before it.  [parse_*]: CBOR decoding into the typed packages. *)
Class KeyVault := {
  challenge : bytes → bytes → list bytes → bytes → bytes;
  aead_encrypt : bytes → bytes → bytes → bytes;
  aead_decrypt : bytes → bytes → bytes → option bytes;
  parse_key_package : bytes → option KeyPackage;
  parse_pk_package : bytes → option PublicKeyPackage;
}.
(** Authenticated encryption decrypts what was encrypted under the same key and
    nonce; a serialized package parses back. *)
Class KeyVaultLaws `{KeyVault} : Prop := {
  aead_roundtrip k n m : aead_decrypt k n (aead_encrypt k n m) = Some m;
  parse_key_package_ok p q : parse_key_package p = Some q → q = p;
  parse_pk_package_ok p q : parse_pk_package p = Some q → q = p;
}.

(** ** Iteration *)

Definition tree_iter {K V} `{Countable K} (enc : K → bytes) (m : gmap K V) : list (K * V) :=
  sort_by (λ a b, bytes_leb (enc a.1) (enc b.1)) (map_to_list m).
Arguments tree_iter {K V _ _} enc m : simpl never.

(** ** PSBTs *)

Section psbt_ops.
Context `{BitcoinLib}.

(** The result is the stored PSBT's encoded length, which no caller reads. *)
Definition update_psbt (session : bytes) (p : Psbt) : DbM () :=
  let* d := sget in
  match psbts d !! session with
  | Some existing =>
      let* merged := slift (map_err DbPsbt (combine existing p)) in
      smodify (put_psbts (<[session := merged]> (psbts d)))
  | None => smodify (put_psbts (<[session := p]> (psbts d)))
  end.

Definition get_psbt (session : bytes) (d : Db) : option Psbt := psbts d !! session.

(** The loop over the keys: [results] counts the keys seen before this one. *)
Fixpoint session_ids_loop (max_results results : Z) (l : list (bytes * Psbt))
    : result DbError (list bytes) :=
  match l with
  | [] => Ok []
  | (k, _) :: l' =>
      if negb (length k =? 32)%nat then Err DbSerialization
      else if max_results =? results + 1 then Ok []
      else let? rest := session_ids_loop max_results (results + 1) l' in Ok (k :: rest)
  end.
Definition get_session_ids (max_results : Z) (d : Db) : result DbError (list bytes) :=
  session_ids_loop max_results 0 (tree_iter id (psbts d)).

Inductive SigningStatus := Running | Finalized | Failed.
(** [psbt.finalize(..)] of miniscript is the parameter. *)
Definition get_signing_status (finalize : Psbt → bool) (session : bytes) (d : Db)
    : SigningStatus :=
  match get_psbt session d with
  | Some p => if finalize p then Finalized else Running
  | None => Failed
  end.

End psbt_ops.

(** ** Key packages *)

Definition LEGACY_MULTISIG_ID : Z := 0.

Definition get_key_package_by_id (id : Z) (d : Db) : option KeyPackage := key_packages d !! id.
Definition get_public_key_package_by_id (id : Z) (d : Db) : option PublicKeyPackage :=
  pubkey_packages d !! id.
Definition set_key_package_by_id (id : Z) (k : KeyPackage) (d : Db) : Db :=
  put_keys (<[id := k]> (key_packages d)) d.
Definition set_pubkey_package_by_id (id : Z) (k : PublicKeyPackage) (d : Db) : Db :=
  put_pubkeys (<[id := k]> (pubkey_packages d)) d.

Definition get_public_key_package (d : Db) : option PublicKeyPackage :=
  get_public_key_package_by_id LEGACY_MULTISIG_ID d.
Definition get_key_package (d : Db) : option KeyPackage :=
  get_key_package_by_id LEGACY_MULTISIG_ID d.
Definition set_key_package (k : KeyPackage) (d : Db) : Db :=
  set_key_package_by_id LEGACY_MULTISIG_ID k d.
Definition set_pubkey_package (k : PublicKeyPackage) (d : Db) : Db :=
  set_pubkey_package_by_id LEGACY_MULTISIG_ID k d.

(** Keys are [u32]s in little-endian bytes, iterated in byte order, then sorted. *)
Definition list_multisig_ids (d : Db) : list Z :=
  sort_by_key id ((tree_iter (to_le_bytes 4) (key_packages d)).*1).

Definition migrate_legacy_key_package (d : Db) : bool * Db :=
  if bool_decide (is_Some (get_key_package_by_id LEGACY_MULTISIG_ID d)) &&
     bool_decide (is_Some (get_public_key_package_by_id LEGACY_MULTISIG_ID d))
  then (false, d)
  else match legacy_key_package d, legacy_pubkey_package d with
       | Some k, Some pk =>
           (true, set_pubkey_package_by_id LEGACY_MULTISIG_ID pk
                    (set_key_package_by_id LEGACY_MULTISIG_ID k d))
       | _, _ => (false, d)
       end.

Definition EXPORTED_PACKAGE_VERSION : Z := 0.
(** [b"secret_key_package"] and [b"public_key_package"]: transcript labels. *)
Definition LABEL_SECRET : bytes :=
  [115;101;99;114;101;116;95;107;101;121;95;112;97;99;107;97;103;101].
Definition LABEL_PUBLIC : bytes :=
  [112;117;98;108;105;99;95;107;101;121;95;112;97;99;107;97;103;101].

Section export.
Context `{KeyVault}.

(** [nonce] is the 12 random bytes of [rand::random()]. *)
Definition export_key_package_by_id (id : Z) (passphrase nonce : bytes) (d : Db)
    : option ExportedKeyPackage :=
  k ← get_key_package_by_id id d;
  pk ← get_public_key_package_by_id id d;
  let master1 := challenge nonce passphrase [] LABEL_SECRET in
  let master2 := challenge nonce passphrase [LABEL_SECRET] LABEL_PUBLIC in
  Some {| exp_version := EXPORTED_PACKAGE_VERSION; iv := nonce;
          enc_key_package := aead_encrypt master1 nonce k;
          enc_pk_package := aead_encrypt master2 nonce pk |}.

Definition import_key_package_by_id (id : Z) (passphrase : bytes) (e : ExportedKeyPackage)
    : DbM () :=
  if negb (exp_version e =? EXPORTED_PACKAGE_VERSION)
  then slift (Err BadExportedPackageFormatVersion)
  else
    let master1 := challenge (iv e) passphrase [] LABEL_SECRET in
    let* b1 := slift (ok_or (aead_decrypt master1 (iv e) (enc_key_package e))
                        BadDecryptionPassphrase) in
    let* k := slift (ok_or (parse_key_package b1) DbDataCorruption) in
    let master2 := challenge (iv e) passphrase [LABEL_SECRET] LABEL_PUBLIC in
    let* b2 := slift (ok_or (aead_decrypt master2 (iv e) (enc_pk_package e))
                        BadDecryptionPassphrase) in
    let* pk := slift (ok_or (parse_pk_package b2) DbDataCorruption) in
    smodify (set_key_package_by_id id k) ;;*
    smodify (set_pubkey_package_by_id id pk).

Definition export_key_package := export_key_package_by_id LEGACY_MULTISIG_ID.
Definition import_key_package := import_key_package_by_id LEGACY_MULTISIG_ID.

End export.

(** ** DKG packages *)

Section dkg_ops.
Context `{Frost}.

(** The result is the number of bytes written: 0 when the peer has a package. *)
Definition add_round1_dkg (peer : Identifier) (pkg : bytes) : DbM Z :=
  let* d := sget in
  match round1_dkg_packages d !! id_serialize peer with
  | Some _ => sret 0
  | None => smodify (put_round1 (<[id_serialize peer := pkg]> (round1_dkg_packages d))) ;;*
            sret (Z.of_nat (length pkg))
  end.
Definition add_round2_dkg (peer : Identifier) (pkg : bytes) : DbM Z :=
  let* d := sget in
  match round2_dkg_packages d !! id_serialize peer with
  | Some _ => sret 0
  | None => smodify (put_round2 (<[id_serialize peer := pkg]> (round2_dkg_packages d))) ;;*
            sret (Z.of_nat (length pkg))
  end.

(** Both getters: the keys must be 32-byte identifiers; [parse] decodes a
    package. *)
Fixpoint read_dkg_packages {P} (parse : bytes → option P) (ret : gmap Identifier P)
    (l : list (bytes * bytes)) : result DbError (gmap Identifier P) :=
  match l with
  | [] => Ok ret
  | (k, v) :: l' =>
      if negb (length k =? 32)%nat then Err DbSerialization
      else let? peer := ok_or (id_deserialize k) DbFrostSerialization in
           let? pkg := ok_or (parse v) DbDataCorruption in
           read_dkg_packages parse (<[peer := pkg]> ret) l'
  end.
Definition get_round1_dkg_packages {P} (parse : bytes → option P) (d : Db) :=
  read_dkg_packages parse ∅ (tree_iter id (round1_dkg_packages d)).
Definition get_round2_dkg_packages {P} (parse : bytes → option P) (d : Db) :=
  read_dkg_packages parse ∅ (tree_iter id (round2_dkg_packages d)).

End dkg_ops.

(** ** UTXOs *)

Definition get_utxo (op : OutPoint) (d : Db) : option Utxo := utxo_of_row op <$> utxos d !! op.
Definition remove_utxo (op : OutPoint) (d : Db) : Db := put_utxos (delete op (utxos d)) d.
(** [iter_utxos] and [get_all_utxos]. *)
Definition get_all_utxos (d : Db) : list Utxo :=
  (λ kv, utxo_of_row kv.1 kv.2) <$> tree_iter to_bytes (utxos d).

(** [if get(k).is_none() { insert(k, v) }] *)
Definition insert_absent {K V} `{Countable K} (k : K) (v : V) (m : gmap K V) : gmap K V :=
  match m !! k with None => <[k := v]> m | Some _ => m end.
Definition insert_all_absent {A K V} `{Countable K} (key : A → K) (val : A → V)
    (l : list A) (m : gmap K V) : gmap K V :=
  foldl (λ m a, insert_absent (key a) (val a) m) m l.

Definition store_utxo (u : Utxo) (d : Db) : bool * Db :=
  match utxos d !! outpoint u with
  | None => (true, put_utxos (<[outpoint u := utxo_row u]> (utxos d)) d)
  | Some _ => (false, d)
  end.
Definition store_utxos_atomically (us : list Utxo) (d : Db) : bool * Db :=
  (true, put_utxos (insert_all_absent outpoint utxo_row us (utxos d)) d).
Definition store_utxos (us : list Utxo) (d : Db) : bool * Db :=
  match us with
  | [] => (false, d)
  | [u] => store_utxo u d
  | _ => store_utxos_atomically us d
  end.
Definition clear_utxos (d : Db) : Db := put_utxos ∅ d.
Definition reset_utxos (us : list Utxo) (d : Db) : Db := (store_utxos us (clear_utxos d)).2.

(** ** Merkle roots *)

Section roots.
Context `{Hashing}.

(** Hash every element, sort the hashes, take the Merkle root; an empty set
    leaves the stored root alone. *)
Definition merkle_of (leaves : list bytes) (put : option bytes → Db → Db) : DbM () :=
  let sorted := sort_by bytes_leb (sha256 <$> leaves) in
  match sorted with
  | [] => sret tt
  | _ => let* root := slift (ok_or (calculate_root sorted) DbEmptyMerkleRoot) in
         smodify (put (Some root))
  end.

(** Consensus encoding of an outpoint: txid, then the index in little-endian. *)
Definition update_utxo_merkle_root : DbM () :=
  let* d := sget in
  merkle_of (to_bytes ∘ outpoint <$> get_all_utxos d) put_utxo_root.

Definition get_tracked_txs (d : Db) : list Tx := (tree_iter id (tracked_txs d)).*2.
Definition update_tracked_tx_merkle_root : DbM () :=
  let* d := sget in
  merkle_of (txid <$> get_tracked_txs d) put_tracked_root.

Definition get_pending_pegouts (d : Db) : list PegoutRequest :=
  (tree_iter as_bytes (pending_pegouts d)).*2.
Definition update_pending_pegouts_merkle_root : DbM () :=
  let* d := sget in
  merkle_of (as_bytes ∘ req_id <$> get_pending_pegouts d) put_pending_root.

Definition get_finalized_pegout_ids (d : Db) : list FinalizedPegout :=
  (tree_iter as_bytes (finalized_pegout_ids d)).*2.
(** Index, txid and block number, the integers in little-endian. *)
Definition finalized_leaf (f : FinalizedPegout) : bytes :=
  to_le_bytes 4 (idx (fin_id f)) ++ pid_txid (fin_id f) ++ to_le_bytes 8 (fin_block_number f).
Definition update_finalized_pegout_ids_merkle_root : DbM () :=
  let* d := sget in
  merkle_of (finalized_leaf <$> get_finalized_pegout_ids d) put_finalized_root.

(** [merkle.rs]: a missing root is 32 zero bytes. *)
Definition root_or_zero (r : option bytes) : bytes := default (replicate 32 0) r.
Record WalletState := {
  ws_utxo_root : bytes;
  ws_tracked_tx_root : bytes;
  ws_pending_pegouts_root : bytes;
  wallet_state_commitment : bytes;
}.
Definition get_wallet_state_commitment (d : Db) : WalletState :=
  let a := root_or_zero (utxo_merkle_root d) in
  let b := root_or_zero (tracked_tx_merkle_root d) in
  let c := root_or_zero (pending_pegouts_merkle_root d) in
  {| ws_utxo_root := a; ws_tracked_tx_root := b; ws_pending_pegouts_root := c;
     wallet_state_commitment := sha256 (a ++ b ++ c) |}.

(** ** Tracked transactions *)

Definition store_tracked_tx (t : Tx) : DbM () :=
  smodify (λ d, put_tracked (<[txid t := t]> (tracked_txs d)) d) ;;*
  update_tracked_tx_merkle_root.
Definition store_tracked_txs_atomically (ts : list Tx) (d : Db) : Db :=
  put_tracked (insert_all_absent txid (λ t, t) ts (tracked_txs d)) d.
Definition store_tracked_txs (ts : list Tx) : DbM () :=
  match ts with
  | [] => sret tt
  | [t] => store_tracked_tx t
  | _ => smodify (store_tracked_txs_atomically ts)
  end.
Definition remove_tracked_tx (id : Txid) (d : Db) : Db :=
  put_tracked (delete id (tracked_txs d)) d.
Definition clear_tracked_txs (d : Db) : Db := put_tracked ∅ d.
Definition reset_tracked_txs (ts : list Tx) : DbM () :=
  smodify clear_tracked_txs ;;* store_tracked_txs ts.

Definition store_pegout_mgr_finalized_block (h : BlockHash) (d : Db) : Db := put_tip (Some h) d.
Definition get_pegout_mgr_finalized_block (d : Db) : option BlockHash := pegoutmgr_tip d.

(** ** Pending pegouts *)

Definition store_pending_pegout (r : PegoutRequest) : DbM () :=
  smodify (λ d, put_pending (<[req_id r := r]> (pending_pegouts d)) d) ;;*
  update_pending_pegouts_merkle_root.
Definition store_pending_pegouts_atomically (rs : list PegoutRequest) : DbM () :=
  smodify (λ d, put_pending (insert_all_absent req_id (λ r, r) rs (pending_pegouts d)) d) ;;*
  update_pending_pegouts_merkle_root.
Definition store_pending_pegouts (rs : list PegoutRequest) : DbM () :=
  match rs with
  | [] => sret tt
  | [r] => store_pending_pegout r
  | _ => store_pending_pegouts_atomically rs
  end.
Definition get_pending_pegout (id : PegoutId) (d : Db) : option PegoutRequest :=
  pending_pegouts d !! id.
(** Oldest first, at most [max]. *)
Definition coord_pending_pegouts (max : nat) (d : Db) : list PegoutRequest :=
  let pegouts := sort_by_key req_botanix_height (get_pending_pegouts d) in
  if (length pegouts <? max)%nat then pegouts else take max pegouts.
Definition remove_pending_pegout (ids : list PegoutId) (d : Db) : Db :=
  foldl (λ d id, put_pending (delete id (pending_pegouts d)) d) d ids.
Definition clear_pending_pegouts (d : Db) : Db := put_pending ∅ d.
Definition reset_pending_pegouts (rs : list PegoutRequest) : DbM () :=
  smodify clear_pending_pegouts ;;* store_pending_pegouts rs.

End roots.

(** ** Finalized pegouts *)

Definition store_finalized_pegout_id (f : FinalizedPegout) (d : Db) : Db :=
  put_finalized (<[fin_id f := f]> (finalized_pegout_ids d)) d.
Definition store_finalized_pegout_ids_atomically (fs : list FinalizedPegout) (d : Db) : Db :=
  put_finalized (insert_all_absent fin_id (λ f, f) fs (finalized_pegout_ids d)) d.
Definition store_finalized_pegout_ids (fs : list FinalizedPegout) (d : Db) : Db :=
  match fs with
  | [] => d
  | [f] => store_finalized_pegout_id f d
  | _ => store_finalized_pegout_ids_atomically fs d
  end.
Definition remove_finalized_pegout_ids (fs : list FinalizedPegout) (d : Db) : Db :=
  foldl (λ d f, put_finalized (delete (fin_id f) (finalized_pegout_ids d)) d) d fs.
Definition clear_finalized_pegout_ids (d : Db) : Db := put_finalized ∅ d.
Definition reset_finalized_pegout_ids (fs : list FinalizedPegout) (d : Db) : Db :=
  store_finalized_pegout_ids fs (clear_finalized_pegout_ids d).

(** 90 days, in seconds. *)
Definition RETENTION_WINDOW_SECONDS : Z := 90 * 24 * 60 * 60.

(** The transaction of [prune_finalized_pegout_ids] at clock [now], over the
    entries read before it. *)
Definition prune_step (now cutoff : Z) (m : gmap PegoutId FinalizedPegout)
    (f : FinalizedPegout) : gmap PegoutId FinalizedPegout :=
  match fin_timestamp f with
  | Some t => if t <? cutoff then delete (fin_id f) m else m
  | None => <[fin_id f := {| fin_id := fin_id f; fin_block_number := fin_block_number f;
                             fin_timestamp := Some now |}]> m
  end.
Definition prune_finalized_pegout_ids (now : Z) (d : Db) : Db :=
  let cutoff := saturating_sub now RETENTION_WINDOW_SECONDS in
  put_finalized (foldl (prune_step now cutoff) (finalized_pegout_ids d)
                   (get_finalized_pegout_ids d)) d.

Definition peek_finalized_pegout_ids (d : Db) : Z :=
  Z.of_nat (length (tree_iter as_bytes (finalized_pegout_ids d))).

(** [slice::chunks]: a zero chunk size panics. *)
Fixpoint chunks_fuel {A} (fuel size : nat) (l : list A) : list (list A) :=
  match fuel, l with
  | O, _ | _, [] => []
  | S fuel', _ => take size l :: chunks_fuel fuel' size (drop size l)
  end.
Definition chunks {A} (size : nat) (l : list A) : list (list A) := chunks_fuel (length l) size l.

(** The items a consumer of the stream sees, when the tree does not change
    while it is read: chunk, chunk index and number of chunks. *)
Definition get_finalized_pegout_ids_stream (chunk_size : nat) (d : Db)
    : result DbError (list (list FinalizedPegout * Z * Z)) :=
  let? num_chunks := div_ceil (peek_finalized_pegout_ids d) (Z.of_nat chunk_size) in
  let keys := (tree_iter as_bytes (finalized_pegout_ids d)).*1 in
  let items : list (list FinalizedPegout) :=
    (λ ks : list PegoutId, omap (λ k, finalized_pegout_ids d !! k) ks) <$>
      chunks chunk_size keys in
  let nonempty := filter (λ c, c ≠ []) items in
  Ok (imap (λ i c, (c, Z.of_nat i, num_chunks)) nonempty).
