(* ===== verification/DatabaseTheory.v ===== *)
(** * Theorems about the database

    Every reachable database keeps its entries under their own ids; the Merkle
    roots depend only on the stored sets; pending pegouts are served oldest
    first; finalized ids are pruned exactly after the retention window; exports
    read back; the finalized-id stream splits the whole set. *)

From S2P Require Import Prelude Bitcoin Psbt Database.

(** ** Trees *)

Lemma tree_iter_perm {K V} `{Countable K} (enc : K → bytes) (m : gmap K V) :
  tree_iter enc m ≡ₚ map_to_list m.
Proof. apply sort_by_perm. Qed.

Lemma elem_of_tree_iter {K V} `{Countable K} (enc : K → bytes) (m : gmap K V) k v :
  (k, v) ∈ tree_iter enc m ↔ m !! k = Some v.
Proof. rewrite tree_iter_perm. apply elem_of_map_to_list. Qed.

Lemma tree_iter_keys {K V} `{Countable K} (enc : K → bytes) (m : gmap K V) :
  (tree_iter enc m).*1 ≡ₚ elements (dom m).
Proof.
  rewrite tree_iter_perm. apply NoDup_Permutation.
  - apply NoDup_fst_map_to_list.
  - apply NoDup_elements.
  - intros k. rewrite elem_of_elements, elem_of_dom, list_elem_of_fmap. split.
    + intros ([k' v] & -> & Hin). apply elem_of_map_to_list in Hin. by exists v.
    + intros [v Hv]. exists (k, v). split; [done|]. by apply elem_of_map_to_list.
Qed.

(** Entries stored under their own key: the values' keys are the tree's keys. *)
Definition own_key {K V} `{Countable K} (key : V → K) (m : gmap K V) : Prop :=
  map_Forall (λ k v, key v = k) m.

Lemma tree_iter_own_key {K V} `{Countable K} (enc : K → bytes) (key : V → K) (m : gmap K V) :
  own_key key m → key <$> (tree_iter enc m).*2 = (tree_iter enc m).*1.
Proof.
  intros Hm. rewrite <-list_fmap_compose. apply list_fmap_ext. intros i [k v] Hi.
  apply list_elem_of_lookup_2, elem_of_tree_iter in Hi. simpl. by apply Hm.
Qed.

Lemma insert_own_key {K V} `{Countable K} (key : V → K) (m : gmap K V) v :
  own_key key m → own_key key (<[key v := v]> m).
Proof. intros Hm. by apply map_Forall_insert_2. Qed.
Lemma delete_own_key {K V} `{Countable K} (key : V → K) (m : gmap K V) k :
  own_key key m → own_key key (delete k m).
Proof. intros Hm. by apply map_Forall_delete. Qed.
Lemma empty_own_key {K V} `{Countable K} (key : V → K) : own_key key (∅ : gmap K V).
Proof. apply map_Forall_empty. Qed.
Lemma insert_all_absent_own_key {K V} `{Countable K} (key : V → K) l (m : gmap K V) :
  own_key key m → own_key key (insert_all_absent key (λ v, v) l m).
Proof.
  unfold insert_all_absent. revert m. induction l as [|v l IH]; intros m Hm; [done|].
  simpl. apply IH. unfold insert_absent. case_match; [done|]. by apply insert_own_key.
Qed.
#[export] Hint Resolve insert_own_key delete_own_key empty_own_key insert_all_absent_own_key
  : macbeth.

(** Atomic stores: existing entries stay, the first of several new ones wins. *)
Lemma insert_all_absent_lookup {A K V} `{Countable K} (key : A → K) (val : A → V) l m k :
  insert_all_absent key val l m !! k =
  match m !! k with
  | Some v => Some v
  | None => val <$> head (filter (λ a, key a = k) l)
  end.
Proof.
  unfold insert_all_absent. revert m. induction l as [|a l IH]; intros m; simpl.
  - by destruct (m !! k).
  - rewrite IH. unfold insert_absent. rewrite filter_cons.
    destruct (decide (key a = k)) as [<-|Hne].
    + destruct (m !! key a) eqn:Hk; [by rewrite Hk|]. by rewrite lookup_insert_eq.
    + destruct (m !! key a) eqn:Hk; [done|]. by rewrite lookup_insert_ne.
Qed.
Lemma insert_all_absent_dom {A K V} `{Countable K} (key : A → K) (val : A → V) l
    (m : gmap K V) :
  dom (insert_all_absent key val l m) = dom m ∪ list_to_set (key <$> l).
Proof.
  unfold insert_all_absent. revert m. induction l as [|a l IH]; intros m; simpl.
  - set_solver.
  - rewrite IH. unfold insert_absent. case_match eqn:Hk; [|set_solver].
    apply elem_of_dom_2 in Hk. set_solver.
Qed.

(** ** Reachable databases *)

Section db.
Context `{BitcoinLib, Hashing, KeyVault, Frost}.

(** Every state-changing operation of the database. *)
Inductive db_step : Db → Db → Prop :=
  | step_update_psbt s p d : db_step d (update_psbt s p d).2
  | step_set_key i k d : db_step d (set_key_package_by_id i k d)
  | step_set_pubkey i k d : db_step d (set_pubkey_package_by_id i k d)
  | step_migrate d : db_step d (migrate_legacy_key_package d).2
  | step_import i p e d : db_step d (import_key_package_by_id i p e d).2
  | step_round1 i p d : db_step d (add_round1_dkg i p d).2
  | step_round2 i p d : db_step d (add_round2_dkg i p d).2
  | step_remove_utxo o d : db_step d (remove_utxo o d)
  | step_store_utxos us d : db_step d (store_utxos us d).2
  | step_reset_utxos us d : db_step d (reset_utxos us d)
  | step_utxo_root d : db_step d (update_utxo_merkle_root d).2
  | step_store_tracked t d : db_step d (store_tracked_tx t d).2
  | step_store_tracked_txs ts d : db_step d (store_tracked_txs ts d).2
  | step_remove_tracked i d : db_step d (remove_tracked_tx i d)
  | step_reset_tracked ts d : db_step d (reset_tracked_txs ts d).2
  | step_tracked_root d : db_step d (update_tracked_tx_merkle_root d).2
  | step_tip h d : db_step d (store_pegout_mgr_finalized_block h d)
  | step_store_pending rs d : db_step d (store_pending_pegouts rs d).2
  | step_remove_pending ids d : db_step d (remove_pending_pegout ids d)
  | step_reset_pending rs d : db_step d (reset_pending_pegouts rs d).2
  | step_pending_root d : db_step d (update_pending_pegouts_merkle_root d).2
  | step_store_finalized fs d : db_step d (store_finalized_pegout_ids fs d)
  | step_store_finalized_at fs d : db_step d (store_finalized_pegout_ids_atomically fs d)
  | step_remove_finalized fs d : db_step d (remove_finalized_pegout_ids fs d)
  | step_reset_finalized fs d : db_step d (reset_finalized_pegout_ids fs d)
  | step_prune now d : db_step d (prune_finalized_pegout_ids now d)
  | step_finalized_root d : db_step d (update_finalized_pegout_ids_merkle_root d).2.

Definition db_reachable : Db → Prop := rtc db_step open.

Definition db_wf (d : Db) : Prop :=
  own_key txid (tracked_txs d) ∧ own_key req_id (pending_pegouts d) ∧
  own_key fin_id (finalized_pegout_ids d).

(** Operations that leave those three trees alone. *)
Definition same_trees (d d' : Db) : Prop :=
  tracked_txs d' = tracked_txs d ∧ pending_pegouts d' = pending_pegouts d ∧
  finalized_pegout_ids d' = finalized_pegout_ids d.
Lemma same_trees_wf d d' : same_trees d d' → db_wf d → db_wf d'.
Proof. unfold db_wf. by intros (-> & -> & ->). Qed.
Lemma same_trees_refl d : same_trees d d.
Proof. done. Qed.

Lemma merkle_of_same_trees l put d :
  (∀ x d, same_trees d (put x d)) → same_trees d (merkle_of l put d).2.
Proof.
  intros Hput. unfold merkle_of, sbind, slift. case_match; [done|].
  by destruct (calculate_root _); simpl.
Qed.

Lemma prune_own_key now cutoff l m :
  own_key fin_id m → own_key fin_id (foldl (prune_step now cutoff) m l).
Proof.
  revert m. induction l as [|f l IH]; intros m Hm; [done|]. simpl. apply IH.
  unfold prune_step. repeat case_match; auto with macbeth.
  by apply map_Forall_insert_2.
Qed.

Lemma foldl_remove_pending ids d :
  remove_pending_pegout ids d =
  put_pending (foldl (λ m i, delete i m) (pending_pegouts d) ids) d.
Proof.
  unfold remove_pending_pegout. revert d. induction ids as [|i ids IH]; intros d; simpl.
  - by destruct d.
  - rewrite IH. by destruct d.
Qed.
Lemma foldl_remove_finalized fs d :
  remove_finalized_pegout_ids fs d =
  put_finalized (foldl (λ m f, delete (fin_id f) m) (finalized_pegout_ids d) fs) d.
Proof.
  unfold remove_finalized_pegout_ids. revert d. induction fs as [|f fs IH]; intros d; simpl.
  - by destruct d.
  - rewrite IH. by destruct d.
Qed.
Lemma foldl_delete_own_key {A K V} `{Countable K} (key : V → K) (f : A → K) l (m : gmap K V) :
  own_key key m → own_key key (foldl (λ m a, delete (f a) m) m l).
Proof. revert m. induction l; intros m Hm; simpl; auto with macbeth. Qed.

Lemma same_trees_trans d1 d2 d3 : same_trees d1 d2 → same_trees d2 d3 → same_trees d1 d3.
Proof. unfold same_trees. intuition congruence. Qed.

Lemma root_updates_same_trees d :
  same_trees d (update_utxo_merkle_root d).2 ∧
  same_trees d (update_tracked_tx_merkle_root d).2 ∧
  same_trees d (update_pending_pegouts_merkle_root d).2 ∧
  same_trees d (update_finalized_pegout_ids_merkle_root d).2.
Proof. split_and!; apply merkle_of_same_trees; by intros x []. Qed.

Lemma db_wf_utxo_root d : db_wf d → db_wf (update_utxo_merkle_root d).2.
Proof. apply same_trees_wf, root_updates_same_trees. Qed.
Lemma db_wf_tracked_root d : db_wf d → db_wf (update_tracked_tx_merkle_root d).2.
Proof. apply same_trees_wf, root_updates_same_trees. Qed.
Lemma db_wf_pending_root d : db_wf d → db_wf (update_pending_pegouts_merkle_root d).2.
Proof. apply same_trees_wf, root_updates_same_trees. Qed.
Lemma db_wf_finalized_root d : db_wf d → db_wf (update_finalized_pegout_ids_merkle_root d).2.
Proof. apply same_trees_wf, root_updates_same_trees. Qed.

Lemma db_wf_put_tracked m d : own_key txid m → db_wf d → db_wf (put_tracked m d).
Proof. destruct d. unfold db_wf. simpl. naive_solver. Qed.
Lemma db_wf_put_pending m d : own_key req_id m → db_wf d → db_wf (put_pending m d).
Proof. destruct d. unfold db_wf. simpl. naive_solver. Qed.
Lemma db_wf_put_finalized m d : own_key fin_id m → db_wf d → db_wf (put_finalized m d).
Proof. destruct d. unfold db_wf. simpl. naive_solver. Qed.

Lemma db_wf_store_tracked_txs ts d : db_wf d → db_wf (store_tracked_txs ts d).2.
Proof.
  intros Hd. pose proof Hd as (? & _ & _). destruct ts as [|t [|t' ts]]; [done| |].
  - apply db_wf_tracked_root, db_wf_put_tracked; auto with macbeth.
  - apply db_wf_put_tracked; auto with macbeth.
Qed.
Lemma db_wf_store_pending_pegouts rs d : db_wf d → db_wf (store_pending_pegouts rs d).2.
Proof.
  intros Hd. pose proof Hd as (_ & ? & _).
  destruct rs as [|r [|r' rs]]; [done|apply db_wf_pending_root, db_wf_put_pending..];
    auto with macbeth.
Qed.
Lemma db_wf_store_finalized fs d : db_wf d → db_wf (store_finalized_pegout_ids fs d).
Proof.
  intros Hd. pose proof Hd as (_ & _ & ?).
  destruct fs as [|f [|f' fs]]; [done|apply db_wf_put_finalized..]; auto with macbeth.
Qed.

Lemma db_step_same_or_wf d d' : db_step d d' → db_wf d → db_wf d'.
Proof.
  intros Hstep Hd. pose proof Hd as (Htr & Hpe & Hfi).
  destruct Hstep.
  - unfold update_psbt, sbind, sget, slift, smodify. simpl. repeat case_match; simplify_eq/=;
      by destruct d.
  - by destruct d.
  - by destruct d.
  - unfold migrate_legacy_key_package. repeat case_match; by destruct d.
  - unfold import_key_package_by_id, sbind, slift, smodify. simpl.
    repeat (case_match; simplify_eq/=); try done; by destruct d.
  - unfold add_round1_dkg, sbind, sget, smodify. simpl. case_match; by destruct d.
  - unfold add_round2_dkg, sbind, sget, smodify. simpl. case_match; by destruct d.
  - by destruct d.
  - unfold store_utxos, store_utxo. repeat case_match; simplify_eq/=; by destruct d.
  - unfold reset_utxos, store_utxos, store_utxo, clear_utxos.
    repeat case_match; simplify_eq/=; by destruct d.
  - by apply db_wf_utxo_root.
  - by apply (db_wf_store_tracked_txs [t]).
  - by apply db_wf_store_tracked_txs.
  - apply db_wf_put_tracked; auto with macbeth.
  - apply db_wf_store_tracked_txs, db_wf_put_tracked; auto with macbeth.
  - by apply db_wf_tracked_root.
  - by destruct d.
  - by apply db_wf_store_pending_pegouts.
  - rewrite foldl_remove_pending. apply db_wf_put_pending; [|done].
    by apply foldl_delete_own_key.
  - apply db_wf_store_pending_pegouts, db_wf_put_pending; auto with macbeth.
  - by apply db_wf_pending_root.
  - by apply db_wf_store_finalized.
  - apply db_wf_put_finalized; auto with macbeth.
  - rewrite foldl_remove_finalized. apply db_wf_put_finalized; [|done].
    by apply foldl_delete_own_key.
  - apply db_wf_store_finalized, db_wf_put_finalized; auto with macbeth.
  - apply db_wf_put_finalized; [|done]. by apply prune_own_key.
  - by apply db_wf_finalized_root.
Qed.

Lemma db_reachable_wf d : db_reachable d → db_wf d.
Proof.
  intros Hr. unfold db_reachable in Hr. remember open as d0 eqn:Hd0.
  assert (db_wf d0) as Hwf0 by (subst; split_and!; apply empty_own_key).
  clear Hd0. induction Hr as [|? ? ? Hs Hr IH]; [done|]. apply IH.
  by eapply db_step_same_or_wf.
Qed.

(** Listing a tree of own-keyed entries. *)
Lemma list_own_key {K V} `{Countable K} (enc : K → bytes) (key : V → K) (m : gmap K V) :
  own_key key m →
  NoDup (key <$> (tree_iter enc m).*2) ∧
  ∀ v, v ∈ (tree_iter enc m).*2 ↔ m !! key v = Some v.
Proof.
  intros Hm. split.
  - rewrite tree_iter_own_key, tree_iter_keys by done. apply NoDup_elements.
  - intros v. rewrite list_elem_of_fmap. split.
    + intros ([k w] & -> & Hin). apply elem_of_tree_iter in Hin as Hk. simpl.
      by rewrite (Hm k w).
    + intros Hv. exists (key v, v). split; [done|]. by apply elem_of_tree_iter.
Qed.

Lemma get_all_utxos_outpoints d : outpoint <$> get_all_utxos d = (tree_iter to_bytes (utxos d)).*1.
Proof. unfold get_all_utxos. rewrite <-list_fmap_compose. done. Qed.

Lemma elem_of_get_all_utxos u d : u ∈ get_all_utxos d ↔ get_utxo (outpoint u) d = Some u.
Proof.
  unfold get_all_utxos, get_utxo. rewrite list_elem_of_fmap. split.
  - intros ([k r] & -> & Hin). apply elem_of_tree_iter in Hin. simpl. by rewrite Hin.
  - intros Hu. apply fmap_Some in Hu as (r & Hr & Hu). exists (outpoint u, r).
    split; [done|]. by apply elem_of_tree_iter.
Qed.

(** In every database the server can reach, listing and looking up agree:
    a tracked transaction, pending pegout, finalized pegout or UTXO is listed
    exactly when it is stored under its own id, and no id is listed twice. *)
Theorem reachable_listing_agrees d :
  db_reachable d →
  (NoDup (txid <$> get_tracked_txs d) ∧
   ∀ t, t ∈ get_tracked_txs d ↔ tracked_txs d !! txid t = Some t) ∧
  (NoDup (req_id <$> get_pending_pegouts d) ∧
   ∀ r, r ∈ get_pending_pegouts d ↔ get_pending_pegout (req_id r) d = Some r) ∧
  (NoDup (fin_id <$> get_finalized_pegout_ids d) ∧
   ∀ f, f ∈ get_finalized_pegout_ids d ↔ finalized_pegout_ids d !! fin_id f = Some f) ∧
  (NoDup (outpoint <$> get_all_utxos d) ∧
   ∀ u, u ∈ get_all_utxos d ↔ get_utxo (outpoint u) d = Some u).
Proof.
  intros (Htr & Hpe & Hfi)%db_reachable_wf. split_and!; try by apply list_own_key.
  - rewrite get_all_utxos_outpoints, tree_iter_keys. apply NoDup_elements.
  - intros u. apply elem_of_get_all_utxos.
Qed.

(** ** Merkle roots *)

Lemma sort_bytes_perm l1 l2 : l1 ≡ₚ l2 → sort_by bytes_leb l1 = sort_by bytes_leb l2.
Proof.
  intros Hp. assert (AntiSymm (=) (λ a b, bytes_leb a b = true)).
  { intros a b. apply bytes_leb_antisym. }
  apply (StronglySorted_unique (λ a b, bytes_leb a b = true)).
  - apply sort_by_sorted; [apply bytes_leb_total|apply bytes_leb_trans].
  - apply sort_by_sorted; [apply bytes_leb_total|apply bytes_leb_trans].
  - by rewrite !sort_by_perm.
Qed.

Context `{!HashingLaws}.

(** The root of a non-empty set of leaves. *)
Definition root_of (leaves : list bytes) : option bytes :=
  calculate_root (sort_by bytes_leb (sha256 <$> leaves)).

Lemma merkle_of_eq leaves put d :
  merkle_of leaves put d = (Ok tt, if bool_decide (leaves = []) then d else put (root_of leaves) d).
Proof.
  unfold merkle_of, root_of. destruct leaves as [|x leaves]; [done|].
  rewrite bool_decide_eq_false_2 by done.
  assert (sort_by bytes_leb (sha256 <$> x :: leaves) ≠ []) as Hne.
  { intros Hn. apply (f_equal length) in Hn. by rewrite sort_by_perm in Hn. }
  destruct (sort_by bytes_leb _) as [|y ys]; [done|].
  unfold sbind, slift, smodify, ok_or.
  destruct (calculate_root (y :: ys)) eqn:Hroot; [done|].
  by apply calculate_root_none in Hroot.
Qed.

Lemma root_of_perm l1 l2 : l1 ≡ₚ l2 → root_of l1 = root_of l2.
Proof. intros Hp. unfold root_of. f_equal. apply sort_bytes_perm. by rewrite Hp. Qed.

(** The root of the set of keys of a tree; an empty tree leaves the root alone. *)
Definition set_root (put : option bytes → Db → Db) (leaves : list bytes) (d : Db) : Db :=
  if bool_decide (leaves = []) then d else put (root_of leaves) d.

Lemma merkle_of_keys {K V} `{Countable K} (leaf : K → bytes) (m : gmap K V) keys put d :
  keys ≡ₚ elements (dom m) →
  merkle_of (leaf <$> keys) put d = (Ok tt, set_root put (leaf <$> elements (dom m)) d).
Proof.
  intros Hk. rewrite merkle_of_eq. unfold set_root. f_equal.
  assert (leaf <$> keys ≡ₚ leaf <$> elements (dom m)) as Hp by (by rewrite Hk).
  rewrite (root_of_perm _ _ Hp).
  destruct (decide (leaf <$> keys = [])) as [Hn|Hn].
  - rewrite Hn in Hp. apply Permutation_nil_l in Hp. by rewrite !bool_decide_eq_true_2.
  - rewrite !bool_decide_eq_false_2; [done| |done].
    intros Hn'. rewrite Hn' in Hp. by apply Permutation_nil_r in Hp.
Qed.

Lemma update_utxo_merkle_root_eq d :
  update_utxo_merkle_root d =
  (Ok tt, set_root put_utxo_root (to_bytes <$> elements (dom (utxos d))) d).
Proof.
  unfold update_utxo_merkle_root, sbind, sget.
  rewrite list_fmap_compose, get_all_utxos_outpoints. apply merkle_of_keys, tree_iter_keys.
Qed.
Lemma update_tracked_tx_merkle_root_eq d :
  db_wf d →
  update_tracked_tx_merkle_root d =
  (Ok tt, set_root put_tracked_root (elements (dom (tracked_txs d))) d).
Proof.
  intros (Htr & _ & _). unfold update_tracked_tx_merkle_root, sbind, sget.
  rewrite <-(list_fmap_id (txid <$> _)), <-(list_fmap_id (elements _)).
  apply (merkle_of_keys (λ x, x)). unfold get_tracked_txs.
  rewrite tree_iter_own_key by done. apply tree_iter_keys.
Qed.
Lemma update_pending_pegouts_merkle_root_eq d :
  db_wf d →
  update_pending_pegouts_merkle_root d =
  (Ok tt, set_root put_pending_root (as_bytes <$> elements (dom (pending_pegouts d))) d).
Proof.
  intros (_ & Hpe & _). unfold update_pending_pegouts_merkle_root, sbind, sget.
  rewrite list_fmap_compose. apply merkle_of_keys. unfold get_pending_pegouts.
  rewrite tree_iter_own_key by done. apply tree_iter_keys.
Qed.

(** Refreshing the three roots of the wallet commitment. *)
Definition refresh_roots : DbM () :=
  update_utxo_merkle_root ;;* update_tracked_tx_merkle_root ;;*
  update_pending_pegouts_merkle_root.

Lemma refresh_roots_eq d :
  db_wf d →
  refresh_roots d =
  (Ok tt, set_root put_pending_root (as_bytes <$> elements (dom (pending_pegouts d)))
            (set_root put_tracked_root (elements (dom (tracked_txs d)))
               (set_root put_utxo_root (to_bytes <$> elements (dom (utxos d))) d))).
Proof.
  intros Hd. unfold refresh_roots, sbind at 1. rewrite update_utxo_merkle_root_eq.
  set (d1 := set_root put_utxo_root _ d).
  assert (same_trees d d1) as Hs1 by (subst d1; unfold set_root; case_match; [done|by destruct d]).
  unfold sbind. rewrite update_tracked_tx_merkle_root_eq by (by eapply same_trees_wf).
  destruct Hs1 as (Ht & Hp & Hf). rewrite Ht. set (d2 := set_root put_tracked_root _ d1).
  assert (same_trees d d2) as Hs2.
  { subst d2. unfold set_root. case_match; [done|]. by destruct d1. }
  rewrite update_pending_pegouts_merkle_root_eq by (by eapply same_trees_wf).
  by destruct Hs2 as (_ & -> & _).
Qed.

(** Nodes agree on the wallet commitment: two reachable databases that hold
    the same (non-empty) sets of UTXO outpoints, tracked txids and pending
    pegout ids compute the same roots and the same commitment, whatever the
    order the entries were stored in and whatever else they store; refreshing
    the roots never fails. *)
Theorem wallet_commitment_agrees d1 d2 :
  db_reachable d1 → db_reachable d2 →
  dom (utxos d1) = dom (utxos d2) → dom (tracked_txs d1) = dom (tracked_txs d2) →
  dom (pending_pegouts d1) = dom (pending_pegouts d2) →
  dom (utxos d1) ≠ ∅ → dom (tracked_txs d1) ≠ ∅ → dom (pending_pegouts d1) ≠ ∅ →
  is_ok (refresh_roots d1).1 = true ∧ is_ok (refresh_roots d2).1 = true ∧
  get_wallet_state_commitment (refresh_roots d1).2 =
  get_wallet_state_commitment (refresh_roots d2).2.
Proof.
  intros Hr1%db_reachable_wf Hr2%db_reachable_wf Hu Ht Hp Hun Htn Hpn.
  rewrite !refresh_roots_eq by done. split; [done|]. split; [done|]. simpl.
  rewrite <-Hu, <-Ht, <-Hp. unfold set_root.
  rewrite !bool_decide_eq_false_2; [by destruct d1, d2|..]; intros He;
    lazymatch type of He with _ <$> _ = _ => apply fmap_nil_inv in He | _ => idtac end;
    by apply elements_empty_inv, leibniz_equiv in He.
Qed.

(** Once the UTXO set is emptied, refreshing leaves the old root in place. *)
Theorem emptied_utxo_root_is_stale d :
  update_utxo_merkle_root (clear_utxos d) = (Ok tt, clear_utxos d) ∧
  utxo_merkle_root (clear_utxos d) = utxo_merkle_root d.
Proof.
  rewrite update_utxo_merkle_root_eq. destruct d. done.
Qed.

(** ** Pending pegouts *)

(** Storing pending pegouts, in full. *)
Lemma store_pending_pegouts_eq rs d :
  db_wf d → rs ≠ [] →
  ∃ m, own_key req_id m ∧ dom m = dom (pending_pegouts d) ∪ list_to_set (req_id <$> rs) ∧
    (∀ i, i ∉ req_id <$> rs → m !! i = pending_pegouts d !! i) ∧
    (∀ i, i ∈ req_id <$> rs → ∃ r, m !! i = Some r ∧
       (r ∈ rs ∨ pending_pegouts d !! i = Some r)) ∧
    store_pending_pegouts rs d =
      (Ok tt, set_root put_pending_root (as_bytes <$> elements (dom m)) (put_pending m d)).
Proof.
  intros Hd Hne. pose proof Hd as (_ & Hpe & _).
  assert (∀ m, own_key req_id m → pending_pegouts (put_pending m d) = m ∧
                                  db_wf (put_pending m d)) as Hput.
  { intros m Hm. split; [by destruct d|by apply db_wf_put_pending]. }
  destruct rs as [|r [|r' rs]]; [done| |].
  - exists (<[req_id r := r]> (pending_pegouts d)).
    destruct (Hput (<[req_id r := r]> (pending_pegouts d))) as [Heq Hwf]; [auto with macbeth|].
    split_and!; [auto with macbeth|set_solver| | |].
    + intros i Hi. simpl in Hi. rewrite lookup_insert_ne; set_solver.
    + intros i Hi. simpl in Hi. apply list_elem_of_singleton in Hi as ->. exists r.
      rewrite lookup_insert_eq. split; [done|]. left. by left.
    + simpl. unfold store_pending_pegout, sbind, smodify.
      rewrite update_pending_pegouts_merkle_root_eq by done. by rewrite Heq.
  - set (l := r :: r' :: rs). exists (insert_all_absent req_id (λ r, r) l (pending_pegouts d)).
    destruct (Hput (insert_all_absent req_id (λ r, r) l (pending_pegouts d)))
      as [Heq Hwf]; [auto with macbeth|].
    split_and!; [auto with macbeth|apply insert_all_absent_dom| | |].
    + intros i Hi. rewrite insert_all_absent_lookup. destruct (_ !! i); [done|].
      destruct (head _) as [a|] eqn:Ha; [|done]. exfalso. apply Hi.
      apply list_elem_of_fmap. exists a. apply head_Some_elem_of, list_elem_of_filter in Ha.
      naive_solver.
    + intros i Hi. rewrite insert_all_absent_lookup. destruct (_ !! i) as [v|]; [by exists v; auto|].
      destruct (head _) as [a|] eqn:Ha.
      * exists a. apply head_Some_elem_of, list_elem_of_filter in Ha. naive_solver.
      * exfalso. apply head_None in Ha. apply list_elem_of_fmap in Hi as (a & -> & Hal).
        assert (a ∈ filter (λ b, req_id b = req_id a) l) as Hf
          by (apply list_elem_of_filter; done).
        rewrite Ha in Hf. by apply elem_of_nil in Hf.
    + unfold store_pending_pegouts, store_pending_pegouts_atomically, sbind, smodify.
      subst l. cbv beta iota. rewrite update_pending_pegouts_merkle_root_eq by done.
      by rewrite Heq.
Qed.

(** The coordinator serves pending pegouts oldest first: it gets at most
    [max] of them, in ascending L2 height, every pending pegout is either served
    or left for later, and nothing served is newer than anything left. *)
Theorem coord_pending_pegouts_oldest max d :
  let served := coord_pending_pegouts max d in
  length served = Nat.min max (length (get_pending_pegouts d)) ∧
  StronglySorted (λ a b, req_botanix_height a ≤ req_botanix_height b) served ∧
  ∃ left, served ++ left ≡ₚ get_pending_pegouts d ∧
    ∀ a b, a ∈ served → b ∈ left → req_botanix_height a ≤ req_botanix_height b.
Proof using.
  unfold coord_pending_pegouts.
  set (l := sort_by_key req_botanix_height (get_pending_pegouts d)).
  assert (l ≡ₚ get_pending_pegouts d) as Hp by apply sort_by_perm.
  assert (StronglySorted (λ a b, req_botanix_height a ≤ req_botanix_height b) l) as Hs
    by apply sort_by_key_sorted.
  rewrite <-Hp. cbv zeta. destruct (Nat.ltb_spec (length l) max) as [Hlt|Hge].
  - split; [lia|]. split; [done|]. exists []. rewrite app_nil_r. split; [done|]. by intros a b _ ?%elem_of_nil.
  - rewrite <-(take_drop max l) in Hs. apply StronglySorted_app in Hs as (Hle & Hs1 & Hs2).
    split; [rewrite length_take; lia|]. split; [done|]. exists (drop max l).
    split; [by rewrite take_drop|]. intros a b Ha Hb. by apply Hle.
Qed.

(** ** Finalized pegouts *)

(** What pruning makes of one entry. *)
Definition prune_entry (now : Z) (f : FinalizedPegout) : option FinalizedPegout :=
  match fin_timestamp f with
  | Some t => if t <? Z.max (now - RETENTION_WINDOW_SECONDS) 0 then None else Some f
  | None => Some {| fin_id := fin_id f; fin_block_number := fin_block_number f;
                    fin_timestamp := Some now |}
  end.

Lemma prune_step_ne now cutoff m f i :
  fin_id f ≠ i → prune_step now cutoff m f !! i = m !! i.
Proof.
  intros Hne. unfold prune_step. repeat case_match; try done;
    [by rewrite lookup_delete_ne|by rewrite lookup_insert_ne].
Qed.
Lemma prune_fold_ne now cutoff l m i :
  i ∉ fin_id <$> l → foldl (prune_step now cutoff) m l !! i = m !! i.
Proof.
  revert m. induction l as [|f l IH]; intros m Hi; [done|]. simpl in *.
  rewrite not_elem_of_cons in Hi. destruct Hi as [Hne Hi].
  rewrite IH by done. by apply prune_step_ne.
Qed.
Lemma prune_fold_eq now cutoff l m f :
  NoDup (fin_id <$> l) → f ∈ l → m !! fin_id f = Some f →
  foldl (prune_step now cutoff) m l !! fin_id f = prune_step now cutoff m f !! fin_id f.
Proof.
  revert m. induction l as [|g l IH]; intros m Hnd Hf Hm; [by apply elem_of_nil in Hf|].
  simpl in *. apply NoDup_cons in Hnd as [Hg Hnd].
  apply elem_of_cons in Hf as [->|Hf]; [by apply prune_fold_ne|].
  assert (fin_id g ≠ fin_id f) as Hne.
  { intros Heq. apply Hg. rewrite Heq. apply list_elem_of_fmap. by exists f. }
  assert (prune_step now cutoff m g !! fin_id f = m !! fin_id f) as Hsame
    by (by apply prune_step_ne).
  rewrite IH; [|done|done|by rewrite Hsame]. unfold prune_step at 1 3.
  repeat case_match; by rewrite ?lookup_delete_eq, ?lookup_insert_eq.
Qed.

Lemma prune_lookup now d i :
  db_wf d →
  finalized_pegout_ids (prune_finalized_pegout_ids now d) !! i =
  (finalized_pegout_ids d !! i) ≫= prune_entry now.
Proof.
  intros (_ & _ & Hfi). destruct (list_own_key as_bytes fin_id _ Hfi) as [Hnd Hel].
  assert (finalized_pegout_ids (prune_finalized_pegout_ids now d) =
          foldl (prune_step now (saturating_sub now RETENTION_WINDOW_SECONDS))
            (finalized_pegout_ids d) (get_finalized_pegout_ids d)) as -> by (by destruct d).
  destruct (finalized_pegout_ids d !! i) as [f|] eqn:Hi; simpl.
  - assert (fin_id f = i) as <- by (by apply (Hfi i f)).
    rewrite prune_fold_eq; [|done|by apply Hel|done].
    unfold prune_step, prune_entry, saturating_sub.
    repeat case_match; by rewrite ?lookup_delete_eq, ?lookup_insert_eq.
  - rewrite prune_fold_ne; [done|]. intros Hin. apply list_elem_of_fmap in Hin as (f & -> & Hf).
    apply Hel in Hf. congruence.
Qed.

(** Pruning finalized pegouts removes exactly the entries whose timestamp
    is older than the 90-day window; an entry without a timestamp is kept and
    stamped with the current time, so it survives for the whole window from
    then on; every other entry is kept as it is. *)
Theorem prune_is_exact now later d i :
  db_reachable d →
  finalized_pegout_ids (prune_finalized_pegout_ids now d) !! i =
    match finalized_pegout_ids d !! i with
    | None => None
    | Some f =>
        match fin_timestamp f with
        | Some t => if t <? Z.max (now - RETENTION_WINDOW_SECONDS) 0 then None else Some f
        | None => Some {| fin_id := i; fin_block_number := fin_block_number f;
                          fin_timestamp := Some now |}
        end
    end ∧
  (∀ f, finalized_pegout_ids d !! i = Some f → fin_timestamp f = None →
        0 ≤ now → later ≤ now + RETENTION_WINDOW_SECONDS →
        is_Some (finalized_pegout_ids
          (prune_finalized_pegout_ids later (prune_finalized_pegout_ids now d)) !! i)).
Proof.
  intros Hr. assert (db_wf d) as Hd by (by apply db_reachable_wf).
  assert (db_wf (prune_finalized_pegout_ids now d)) as Hd'.
  { eapply db_step_same_or_wf; [apply step_prune|done]. }
  pose proof Hd as (_ & _ & Hfi). split.
  - rewrite prune_lookup by done. destruct (finalized_pegout_ids d !! i) as [f|] eqn:Hi; [|done].
    simpl. unfold prune_entry. destruct (fin_timestamp f); [done|]. by rewrite (Hfi i f).
  - intros f Hf Hts Hnow Hlater. rewrite !prune_lookup, Hf by done. simpl.
    unfold prune_entry at 2. rewrite Hts. simpl. unfold prune_entry. simpl.
    rewrite (proj2 (Z.ltb_ge _ _)) by lia. by eexists.
Qed.

(** ** The stream of finalized ids *)

Lemma chunks_fuel_spec {A} fuel size (l : list A) :
  (0 < size)%nat → (length l ≤ fuel)%nat →
  concat (chunks_fuel fuel size l) = l ∧
  Forall (λ c, c ≠ [] ∧ (length c ≤ size)%nat) (chunks_fuel fuel size l) ∧
  Z.of_nat (length (chunks_fuel fuel size l)) =
    (Z.of_nat (length l) + Z.of_nat size - 1) / Z.of_nat size.
Proof.
  intros Hs. revert l. induction fuel as [|fuel IH]; intros l Hl.
  - destruct l; [|simpl in Hl; lia]. simpl. split_and!; [done|constructor|].
    rewrite Z.div_small; lia.
  - destruct l as [|x l]; [simpl; split_and!; [done|constructor|rewrite Z.div_small; lia]|].
    cbn [chunks_fuel]. set (k := x :: l) in *.
    assert (length k = S (length l)) as Hk by done.
    destruct (IH (drop size k)) as (Hc & Hf & Hn); [rewrite length_drop; lia|]. split_and!.
    + cbn [concat]. by rewrite Hc, take_drop.
    + constructor; [|done]. split; [|rewrite length_take; lia].
      subst k. by destruct size; [lia|].
    + cbn [length]. rewrite Nat2Z.inj_succ, Hn, length_drop.
      destruct (decide (length k ≤ size)%nat) as [Hle|Hgt].
      * replace (length k - size)%nat with 0%nat by lia.
        rewrite Z.div_small by lia.
        apply Z.div_unique with (r := Z.of_nat (length k) - 1); lia.
      * rewrite Nat2Z.inj_sub by lia.
        replace (Z.of_nat (length k) + Z.of_nat size - 1)
          with (Z.of_nat (length k) - Z.of_nat size + Z.of_nat size - 1 + 1 * Z.of_nat size)
          by lia.
        rewrite Z.div_add by lia. lia.
Qed.

Lemma omap_lookup_keys {K V} `{Countable K} (m : gmap K V) (l : list (K * V)) :
  (∀ k v, (k, v) ∈ l → m !! k = Some v) → omap (λ k, m !! k) l.*1 = l.*2.
Proof.
  induction l as [|[k v] l IH]; intros Hl; [done|].
  rewrite fmap_cons, list_omap_cons. simpl. rewrite (Hl k v) by left.
  f_equal. apply IH. intros k' v' Hin. apply Hl. by right.
Qed.

Lemma omap_chunks {A B} (g : A → option B) size (ks : list (list A)) :
  Forall (λ c, c ≠ [] ∧ (length c ≤ size)%nat) ks →
  (∀ k, k ∈ concat ks → is_Some (g k)) →
  let items : list (list B) := (λ c : list A, omap g c) <$> ks in
  concat items = omap g (concat ks) ∧ filter (λ c, c ≠ []) items = items ∧
  Forall (λ c, (length c ≤ size)%nat) items.
Proof.
  induction 1 as [|c ks [Hne Hlen] Hks IH]; intros Hg; simpl; [split_and!; [done..|constructor]|].
  destruct IH as (IH1 & IH2 & IH3); [intros k Hk; apply Hg; set_solver|].
  assert (length (omap g c) = length c) as Hl.
  { assert (∀ k, k ∈ c → is_Some (g k)) as Hgc by set_solver. clear -Hgc.
    induction c as [|a c IH]; [done|]. rewrite list_omap_cons.
    destruct (Hgc a ltac:(left)) as [b ->]. simpl. rewrite IH; [done|]. set_solver. }
  split_and!.
  - rewrite omap_app. by f_equal.
  - rewrite filter_cons_True; [by f_equal|]. intros Hn. rewrite Hn in Hl. by destruct c.
  - constructor; [lia|done].
Qed.

(** Streaming the finalized pegouts loses nothing: with a positive chunk
    size the chunks, put together in order, are the whole listing; they are
    numbered from 0, none is larger than the chunk size, and there are exactly
    as many as every chunk announces.  A zero chunk size panics. *)
Theorem finalized_stream_complete chunk_size d :
  ((0 < chunk_size)%nat → ∃ items,
    get_finalized_pegout_ids_stream chunk_size d = Ok items ∧
    concat (fst ∘ fst <$> items) = get_finalized_pegout_ids d ∧
    Forall (λ it, (length it.1.1 ≤ chunk_size)%nat) items ∧
    (∀ i it, items !! i = Some it →
       it.1.2 = Z.of_nat i ∧ it.2 = Z.of_nat (length items))) ∧
  (chunk_size = 0%nat → get_finalized_pegout_ids_stream chunk_size d = Panic).
Proof.
  split; [|intros ->; reflexivity].
  intros Hs. unfold get_finalized_pegout_ids_stream.
  set (l := tree_iter as_bytes (finalized_pegout_ids d)).
  assert (peek_finalized_pegout_ids d = Z.of_nat (length l)) as -> by done.
  rewrite div_ceil_ok by lia. cbn [rbind].
  destruct (chunks_fuel_spec (length l.*1) chunk_size l.*1) as (Hc & Hf & Hn); [done..|].
  fold (chunks chunk_size l.*1) in Hc, Hf, Hn. rewrite length_fmap in Hn.
  assert (∀ k v, (k, v) ∈ l → finalized_pegout_ids d !! k = Some v) as Hl
    by (intros k v; apply elem_of_tree_iter).
  destruct (omap_chunks (λ k, finalized_pegout_ids d !! k) chunk_size (chunks chunk_size l.*1))
    as (Hcat & Hfil & Hlen); [done| |].
  { rewrite Hc. intros k Hk. apply list_elem_of_fmap in Hk as ([k' v] & -> & Hin).
    exists v. by apply Hl. }
  cbv zeta in *. rewrite Hc, (omap_lookup_keys _ l Hl) in Hcat.
  rewrite Hfil. set (items := _ <$> chunks chunk_size l.*1) in *.
  assert (length items = length (chunks chunk_size l.*1)) as Hil
    by (subst items; apply length_fmap).
  eexists. split; [reflexivity|]. split_and!.
  - rewrite fmap_imap. change (get_finalized_pegout_ids d) with l.*2. rewrite <-Hcat. f_equal. apply list_eq. intros i.
    rewrite list_lookup_imap. simpl. by destruct (items !! i).
  - apply Forall_lookup. intros i it Hi. rewrite list_lookup_imap in Hi.
    apply fmap_Some in Hi as (c & Hi & ->). simpl.
    rewrite Forall_lookup in Hlen. by eapply Hlen.
  - intros i it Hi. rewrite list_lookup_imap in Hi. apply fmap_Some in Hi as (c & Hi & ->).
    simpl. rewrite length_imap, Hil, Hn. split; [done|]. done.
Qed.

(** ** Key packages *)

Context `{!KeyVaultLaws}.

(** A key export reads back: importing an export under the same passphrase,
    in any database and under any multisig id, stores exactly the exported secret
    and public packages there and touches no other id.  An import that fails (wrong
    version, failed decryption, bad encoding) changes nothing. *)
Theorem export_import_roundtrip i j pass nonce d d' e k pk :
  export_key_package_by_id i pass nonce d = Some e →
  get_key_package_by_id i d = Some k → get_public_key_package_by_id i d = Some pk →
  is_Some (parse_key_package k) → is_Some (parse_pk_package pk) →
  (∃ d'', import_key_package_by_id j pass e d' = (Ok tt, d'') ∧
     key_packages d'' = <[j := k]> (key_packages d') ∧
     pubkey_packages d'' = <[j := pk]> (pubkey_packages d') ∧
     same_trees d' d'' ∧ utxos d'' = utxos d') ∧
  (∀ pass' e' d0 r d1, import_key_package_by_id j pass' e' d0 = (r, d1) →
     is_ok r = false → d1 = d0).
Proof.
  intros He Hk Hpk [k' Hpk1] [pk' Hpk2]. split.
  - unfold export_key_package_by_id in He. rewrite Hk, Hpk in He. simpl in He.
    injection He as <-. unfold import_key_package_by_id, sbind, slift, smodify. simpl.
    rewrite !aead_roundtrip. simpl. rewrite Hpk1. simpl. rewrite Hpk2.
    apply parse_key_package_ok in Hpk1 as ->. apply parse_pk_package_ok in Hpk2 as ->.
    simpl. eexists. split; [reflexivity|]. by destruct d'.
  - intros pass' e' d0 r d1. unfold import_key_package_by_id, sbind, slift, smodify.
    repeat case_match; intros ? ?; simplify_eq/=; done.
Qed.

(** ** Signing sessions *)

Lemma session_ids_loop_spec max n l :
  0 ≤ n < max → Forall (λ kv : bytes * Psbt, length kv.1 = 32%nat) l →
  session_ids_loop max n l = Ok (take (Z.to_nat (max - n - 1)) l.*1).
Proof.
  intros Hn Hl. revert n Hn. induction Hl as [|[k p] l Hk Hl IH]; intros n Hn; simpl.
  - by rewrite take_nil.
  - simpl in Hk. rewrite Hk. simpl. destruct (Z.eqb_spec max (n + 1)) as [->|Hne].
    + by replace (Z.to_nat (n + 1 - n - 1)) with 0%nat by lia.
    + rewrite IH by lia. simpl.
      replace (Z.to_nat (max - n - 1)) with (S (Z.to_nat (max - (n + 1) - 1))) by lia. done.
Qed.

(** Asking for at most [max] session ids gives at most [max - 1]: the counter
    is tested before the id that reached it is pushed. *)
Theorem session_ids_one_short max d :
  1 ≤ max → map_Forall (λ k _, length k = 32%nat) (psbts d) →
  get_session_ids max d = Ok (take (Z.to_nat (max - 1)) (tree_iter id (psbts d)).*1).
Proof.
  intros Hmax Hd. unfold get_session_ids. rewrite session_ids_loop_spec; [|lia|].
  - by replace (max - 0 - 1) with (max - 1) by lia.
  - apply Forall_forall. intros [k p] Hin. apply elem_of_tree_iter in Hin. by apply (Hd k p).
Qed.

End db.

(** ** Concrete databases *)

Module SampleDb.
#[export] Instance hashing : Hashing := {|
  sha256 b := b;
  calculate_root l := match l with [] => None | _ => Some (concat l) end;
|}.
#[export] Instance hashing_laws : HashingLaws.
Proof. split. by intros []. Qed.
#[export] Instance vault : KeyVault := {|
  challenge salt pass earlier label := salt ++ pass ++ concat earlier ++ label;
  aead_encrypt k _ m := k ++ m;
  aead_decrypt k _ c := if bool_decide (take (length k) c = k) then Some (drop (length k) c)
                        else None;
  parse_key_package b := Some b;
  parse_pk_package b := Some b;
|}.
#[export] Instance vault_laws : KeyVaultLaws.
Proof.
  split; [|simpl; congruence..]. intros k n m. simpl.
  by rewrite take_app_length, bool_decide_eq_true_2, drop_app_length.
Qed.

Definition pid (n : Z) : PegoutId := mkPegoutId (replicate 32 n) n.
Definition request (n h : Z) : PegoutRequest :=
  {| req_id := pid n; req_spk := [n]; req_value := 1000 * n; req_botanix_height := h;
     req_timestamp := Some (100 + n) |}.
Definition utxo (n v : Z) : Utxo :=
  {| outpoint := mkOutPoint (replicate 32 n) 0;
     utxo_output := {| value := v; script_pubkey := [81] |};
     utxo_eth_address := None; utxo_version := 0 |}.
Definition tracked (n : Z) : Tx :=
  {| txid := replicate 32 n; tx := {| tx_version := 2; lock_time := 0; input := []; output := [] |};
     pegout_idxs := []; pegout_requests := []; change_idxs := []; created := 0 |}.
End SampleDb.
Import SampleDb.
#[local] Existing Instances Sample.lib Sample.lib_laws Sample.frost Sample.frost_laws.

Definition sample_db (us : list Utxo) (ts : list Tx) (rs : list PegoutRequest)
    (fs : list FinalizedPegout) : Db :=
  store_finalized_pegout_ids fs
    (store_pending_pegouts rs (store_tracked_txs ts (store_utxos us open).2).2).2.
Lemma sample_db_reachable us ts rs fs : db_reachable (sample_db us ts rs fs).
Proof.
  eapply rtc_l; [apply step_store_utxos|]. eapply rtc_l; [apply step_store_tracked_txs|].
  eapply rtc_l; [apply step_store_pending|]. apply rtc_once, step_store_finalized.
Qed.

Lemma reachable_listing_agrees_witness :
  let d := sample_db [utxo 1 10; utxo 2 20] [tracked 3] [request 4 7; request 5 6] [] in
  NoDup (req_id <$> get_pending_pegouts d) ∧ get_pending_pegout (pid 4) d = Some (request 4 7).
Proof.
  intros d. destruct (reachable_listing_agrees d (sample_db_reachable _ _ _ _))
    as (_ & (Hnd & Hp) & _).
  split; [exact Hnd|]. apply (Hp (request 4 7)). vm_compute. left.
Defined.

Lemma wallet_commitment_agrees_witness :
  let d1 := sample_db [utxo 1 10; utxo 2 20] [tracked 3] [request 4 7; request 5 6] [] in
  let d2 := sample_db [utxo 2 21; utxo 1 10] [tracked 3] [request 5 6; request 4 8] [] in
  get_wallet_state_commitment (refresh_roots d1).2 =
  get_wallet_state_commitment (refresh_roots d2).2.
Proof.
  intros d1 d2.
  destruct (wallet_commitment_agrees d1 d2) as (_ & _ & Heq);
    [apply sample_db_reachable|apply sample_db_reachable| | | | | | |exact Heq].
  all: decide_vm.
Defined.

Lemma prune_is_exact_witness :
  let d := sample_db [] [] []
             [{| fin_id := pid 1; fin_block_number := 5; fin_timestamp := Some 100 |};
              {| fin_id := pid 2; fin_block_number := 6; fin_timestamp := None |}] in
  finalized_pegout_ids (prune_finalized_pegout_ids 9000000 d) !! pid 1 = None ∧
  is_Some (finalized_pegout_ids
    (prune_finalized_pegout_ids 9000001 (prune_finalized_pegout_ids 9000000 d)) !! pid 2).
Proof.
  intros d. split.
  - rewrite (proj1 (prune_is_exact 9000000 0 d (pid 1) (sample_db_reachable _ _ _ _))).
    vm_compute. reflexivity.
  - apply (proj2 (prune_is_exact 9000000 9000001 d (pid 2) (sample_db_reachable _ _ _ _))
      {| fin_id := pid 2; fin_block_number := 6; fin_timestamp := None |});
      [vm_compute; reflexivity|reflexivity|lia|unfold RETENTION_WINDOW_SECONDS; lia].
Defined.

Lemma finalized_stream_complete_witness :
  let d := sample_db [] [] []
             [{| fin_id := pid 1; fin_block_number := 5; fin_timestamp := Some 100 |};
              {| fin_id := pid 2; fin_block_number := 6; fin_timestamp := None |}] in
  ∃ items, get_finalized_pegout_ids_stream 1 d = Ok items ∧ length items = 2%nat.
Proof.
  intros d. destruct (proj1 (finalized_stream_complete 1 d)) as (items & Hi & _); [lia|].
  exists items. split; [exact Hi|]. vm_compute in Hi. injection Hi as <-. reflexivity.
Defined.

Lemma export_import_roundtrip_witness :
  let d := set_pubkey_package_by_id 3 [7; 8] (set_key_package_by_id 3 [5; 6] open) in
  ∃ e d'', export_key_package_by_id 3 [1] [2] d = Some e ∧
    import_key_package_by_id 9 [1] e open = (Ok tt, d'') ∧
    get_key_package_by_id 9 d'' = Some [5; 6].
Proof.
  intros d.
  destruct (export_key_package_by_id 3 [1] [2] d) as [e|] eqn:He; [|discriminate He].
  destruct (proj1 (export_import_roundtrip 3 9 [1] [2] d open e [5; 6] [7; 8] He
              eq_refl eq_refl ltac:(by eexists) ltac:(by eexists))) as (d'' & Hi & Hk & _).
  exists e, d''. split; [reflexivity|]. split; [exact Hi|].
  unfold get_key_package_by_id. rewrite Hk. reflexivity.
Defined.
