(* ===== verification/PegoutScheduler.v ===== *)
(** * The pegout scheduler

    [bin/btc-server/src/pegout_scheduler/mod.rs]: tracking broadcast pegout
    transactions until they are deeply confirmed, and putting their pegouts back
    to pending when they are reorged out or dropped.

    The scheduler's state is a record whose fields are those of
    [PegoutScheduler], its database included.  bitcoind is a parameter: every
    call is answered by a function of the number of calls made so far, so that
    the node's view may change between any two calls. *)

From S2P Require Import Prelude Bitcoin Psbt Database.

Record BlockInfo := {
  hash : BlockHash;
  relevant_txs : list Txid;
  relevant_inputs : list OutPoint;
}.

Record PegoutScheduler := {
  conf_window : Z;
  txs : gmap Txid Tx;
  txs_by_input : gmap OutPoint (list Txid);
  txs_by_pegout : gmap TxOut (list Txid);
  confirmed_txs : gset Txid;
  last_blocks : list BlockInfo;
  last_finalized : BlockHash;
  db : Db;
}.

Definition with_txs x (s : PegoutScheduler) : PegoutScheduler :=
  let 'Build_PegoutScheduler a _ b c d e f g := s in Build_PegoutScheduler a x b c d e f g.
Definition with_by_input x (s : PegoutScheduler) : PegoutScheduler :=
  let 'Build_PegoutScheduler a b _ c d e f g := s in Build_PegoutScheduler a b x c d e f g.
Definition with_by_pegout x (s : PegoutScheduler) : PegoutScheduler :=
  let 'Build_PegoutScheduler a b c _ d e f g := s in Build_PegoutScheduler a b c x d e f g.
Definition with_confirmed x (s : PegoutScheduler) : PegoutScheduler :=
  let 'Build_PegoutScheduler a b c d _ e f g := s in Build_PegoutScheduler a b c d x e f g.
Definition with_blocks x (s : PegoutScheduler) : PegoutScheduler :=
  let 'Build_PegoutScheduler a b c d e _ f g := s in Build_PegoutScheduler a b c d e x f g.
Definition with_last_finalized x (s : PegoutScheduler) : PegoutScheduler :=
  let 'Build_PegoutScheduler a b c d e f _ g := s in Build_PegoutScheduler a b c d e f x g.
Definition with_db x (s : PegoutScheduler) : PegoutScheduler :=
  let 'Build_PegoutScheduler a b c d e f g _ := s in Build_PegoutScheduler a b c d e f g x.

(** ** Tracked transactions *)

Definition inputs_of (t : Tx) : list OutPoint := previous_output <$> input (tx t).

(** [self.tx.output[i]]: an index out of range panics. *)
Definition output_at {E} (t : Tx) (i : nat) : result E TxOut := expect (output (tx t) !! i).
Fixpoint outputs_at {E} (t : Tx) (l : list nat) : result E (list (OutPoint * TxOut)) :=
  match l with
  | [] => Ok []
  | i :: l' =>
      let? o := output_at t i in
      let? rest := outputs_at t l' in
      Ok ((mkOutPoint (txid t) (Z.of_nat i mod (u32_max + 1)), o) :: rest)
  end.
Definition pegouts {E} (t : Tx) : result E (list (OutPoint * TxOut)) := outputs_at t (pegout_idxs t).
Definition change {E} (t : Tx) : result E (list (OutPoint * TxOut)) := outputs_at t (change_idxs t).

(** [map.entry(k).or_default().push(v)] *)
Definition push_entry {K V} `{Countable K} (k : K) (v : V) (m : gmap K (list V))
    : gmap K (list V) :=
  <[k := default [] (m !! k) ++ [v]]> m.

Inductive ChangeOutputError := KeyConversion.

Section scheduler.
Context `{BitcoinHashes, Hashing}.
(** [generate_taproot_change_scriptpubkey] of the package's verifying key, when
    the key converts. *)
Context (change_spk_of : PublicKeyPackage → option Script).
(** The system clock, in seconds. *)
Context (now : Z).

Abbreviation SchedM := (SM PegoutScheduler DbError).
Definition on_db {A} (m : DbM A) : SchedM A := zoom db with_db m.
Definition modify_db (f : Db → Db) : SchedM () := smodify (λ s, with_db (f (db s)) s).

(** A missing public key package panics. *)
Definition get_change_spk (s : PegoutScheduler) : result ChangeOutputError Script :=
  let? pk := expect (get_public_key_package (db s)) in
  ok_or (change_spk_of pk) KeyConversion.

Definition track_tx (t : Tx) : SchedM () :=
  sfor (inputs_of t) (λ i, smodify (λ s, with_by_input (push_entry i (txid t) (txs_by_input s)) s)) ;;*
  sfor (pegout_idxs t) (λ i,
    let* o := slift (output_at t i) in
    smodify (λ s, with_by_pegout (push_entry o (txid t) (txs_by_pegout s)) s)) ;;*
  smodify (λ s, with_txs (<[txid t := t]> (txs s)) s).

Definition new (window : Z) (tracked : list Tx) (last : BlockHash) (d : Db)
    : result DbError () * PegoutScheduler :=
  sfor tracked track_tx
    {| conf_window := window; txs := ∅; txs_by_input := ∅; txs_by_pegout := ∅;
       confirmed_txs := ∅;
       last_blocks := [{| hash := last; relevant_txs := []; relevant_inputs := [] |}];
       last_finalized := last; db := d |}.

(** [iter().position(..)] *)
Definition position {A} (f : A → bool) (l : list A) : option nat :=
  fst <$> list_find (λ a, f a = true) l.

Fixpoint find_pegout_idxs (t : Transaction) (rs : list PegoutRequest) : result DbError (list nat) :=
  match rs with
  | [] => Ok []
  | r :: rs' =>
      let? i := expect (position (λ o, bool_decide (script_pubkey o = script_pubkey (txout r)))
                          (output t)) in
      let? rest := find_pegout_idxs t rs' in
      Ok (i :: rest)
  end.

(** Outputs that are no pegout and pay the change script; the script is looked
    up, and must exist, only when such an output is met. *)
Fixpoint find_change_idxs (s : PegoutScheduler) (idxs : list nat) (i : nat) (outs : list TxOut)
    : result DbError (list nat) :=
  match outs with
  | [] => Ok []
  | o :: outs' =>
      if bool_decide (i ∈ idxs) then find_change_idxs s idxs (S i) outs'
      else match get_change_spk s with
           | Ok spk =>
               let? rest := find_change_idxs s idxs (S i) outs' in
               Ok (if bool_decide (script_pubkey o = spk) then i :: rest else rest)
           | _ => Panic
           end
  end.

Definition add_tx (t : Transaction) (rs : list PegoutRequest) (timestamp : Z) : SchedM Tx :=
  let* s := sget in
  let* pidxs := slift (find_pegout_idxs t rs) in
  let* cidxs := slift (find_change_idxs s pidxs 0 (output t)) in
  let id := compute_txid t in
  track_tx {| txid := id; tx := t; pegout_idxs := pidxs; pegout_requests := rs;
              change_idxs := cidxs; created := timestamp |} ;;*
  let* s' := sget in
  slift (expect (txs s' !! id)).

(** [HashMap] iteration. *)
Definition tracked_pegout_request_ids (s : PegoutScheduler) : list PegoutId :=
  req_id <$> ((map_to_list (txs s)).*2 ≫= pegout_requests).
Definition tracked_inputs (s : PegoutScheduler) : gset OutPoint :=
  list_to_set ((map_to_list (txs s)).*2 ≫= inputs_of).
Definition pending_confirmed_utxos (s : PegoutScheduler) : gset OutPoint :=
  list_to_set ((map_to_list (txs s)).*2 ≫= λ t,
    if bool_decide (txid t ∈ confirmed_txs s)
    then imap (λ i _, mkOutPoint (txid t) (Z.of_nat i mod (u32_max + 1))) (output (tx t))
    else []).

Definition un_track_tx (id : Txid) : SchedM () :=
  let* s := sget in
  let* t := slift (expect (txs s !! id)) in
  sfor (inputs_of t) (λ i, smodify (λ s, with_by_input (delete i (txs_by_input s)) s)) ;;*
  sfor (pegout_idxs t) (λ i,
    let* o := slift (output_at t i) in
    smodify (λ s, with_by_pegout (delete o (txs_by_pegout s)) s)) ;;*
  smodify (λ s, with_txs (delete id (txs s)) s) ;;*
  modify_db (remove_tracked_tx id).

Definition add_tx_back_to_pending (t : Tx) : SchedM () :=
  on_db (store_pending_pegouts (pegout_requests t)).

(** One transaction of a rolled-back block. *)
Definition rollback_tx (id : Txid) : SchedM () :=
  let* s := sget in
  let* t := slift (expect (txs s !! id)) in
  smodify (λ s, with_confirmed (confirmed_txs s ∖ {[id]}) s) ;;*
  sexpect (un_track_tx id) ;;*
  sexpect (add_tx_back_to_pending t).

Definition rollback_tip : SchedM () :=
  let* s := sget in
  match reverse (last_blocks s) with
  | [] => slift Panic
  | dropped :: rest =>
      smodify (with_blocks (reverse rest)) ;;*
      sfor (relevant_txs dropped) rollback_tx
  end.

(** ** Finalizing a block *)

(** The change UTXOs of a confirmed transaction: outputs at the change indices
    that pay the change script [spk]. *)
Definition change_utxos (d : Db) (spk : Script) (outs : list (OutPoint * TxOut)) : list Utxo :=
  omap (λ po : OutPoint * TxOut,
    if bool_decide (script_pubkey po.2 = spk) then
      Some {| outpoint := po.1; utxo_output := po.2; utxo_eth_address := None;
              utxo_version := from_option utxo_version 0 (get_utxo po.1 d) |}
    else None) outs.

(** First loop: store the change of every relevant transaction and collect the
    spent inputs. *)
Fixpoint store_change (spk : result ChangeOutputError Script) (ids : list Txid)
    (all_inputs : gset OutPoint) : SchedM (gset OutPoint) :=
  match ids with
  | [] => sret all_inputs
  | id :: ids' =>
      let* s := sget in
      let* t := slift (ok_or (txs s !! id) TrackedTxNotFoundInPegoutScheduler) in
      let* us := match spk with
                 | Ok spk => let* outs := slift (change t) in
                             sret (change_utxos (db s) spk outs)
                 | _ => sret []
                 end in
      modify_db (λ d, (store_utxos us d).2) ;;*
      store_change spk ids' (all_inputs ∪ list_to_set (inputs_of t))
  end.

(** Second loop: a spent input. *)
Definition spend_input (i : OutPoint) : SchedM () :=
  let* s := sget in
  match txs s !! op_txid i with
  | Some _ => smodify (λ s, with_txs (delete (op_txid i) (txs s)) s) ;;*
              modify_db (remove_tracked_tx (op_txid i))
  | None => sret tt
  end ;;*
  modify_db (remove_utxo i).

Definition finalized_of (r : PegoutRequest) : FinalizedPegout :=
  {| fin_id := req_id r; fin_block_number := req_botanix_height r;
     fin_timestamp := req_timestamp r |}.

(** Third loop: a transaction confirmed in the block. *)
Definition finalize_tx (id : Txid) : SchedM () :=
  let* s := sget in
  match txs s !! id with
  | Some t =>
      match finalized_of <$> pegout_requests t with
      | [] => sret tt
      | fs => modify_db (store_finalized_pegout_ids_atomically fs) ;;*
              modify_db (prune_finalized_pegout_ids now)
      end ;;*
      smodify (λ s, with_txs (delete id (txs s)) s) ;;*
      modify_db (remove_tracked_tx id)
  | None => modify_db (remove_tracked_tx id)
  end.

(** A missing key package panics in [get_change_spk]; a key that does not
    convert only leaves the change out. *)
Definition finalize_block (b : BlockInfo) : SchedM () :=
  let* s := sget in
  let* spk := match get_change_spk s with
              | Ok spk => sret (Ok spk)
              | Err e => sret (Err e)
              | Panic => slift Panic
              end in
  let* all_inputs := store_change spk (relevant_txs b) (list_to_set (relevant_inputs b)) in
  sfor (elements all_inputs) spend_input ;;*
  sfor (relevant_txs b) finalize_tx ;;*
  let* s' := sget in
  let* _ := slift (amount_sum ((λ u, value (utxo_output u)) <$> get_all_utxos (db s'))) in
  smodify (with_last_finalized (hash b)).

(** ** Adding a block *)

(** The transactions of a block: tracked ones are relevant, others contribute
    the inputs they take from tracked ones. *)
Fixpoint scan_block (s : PegoutScheduler) (l : list Transaction) : list Txid * list OutPoint :=
  match l with
  | [] => ([], [])
  | t :: l' =>
      let '(ids, ins) := scan_block s l' in
      let id := compute_txid t in
      match txs s !! id with
      | Some _ => (id :: ids, ins)
      | None => (ids, filter (λ i, is_Some (txs_by_input s !! i))
                        (previous_output <$> input t) ++ ins)
      end
  end.

Definition add_block (b : Block) : SchedM () :=
  let* s := sget in
  let* last := slift (expect (last (last_blocks s))) in
  slift (rassert (bool_decide (prev_blockhash b = hash last))) ;;*
  let '(ids, ins) := scan_block s (txdata b) in
  smodify (λ s, with_confirmed (confirmed_txs s ∪ list_to_set ids) s) ;;*
  smodify (λ s, with_blocks (last_blocks s ++
    [{| hash := block_hash b; relevant_txs := ids; relevant_inputs := ins |}]) s).

End scheduler.

(** ** bitcoind *)

Record BlockHeader := {
  h_hash : BlockHash;
  h_height : Z;
  h_confirmations : Z;
  h_previous_block_hash : option BlockHash;
  h_time : Z;
}.

(** The RPC calls the scheduler makes; the first argument is the number of calls
    made before.  [not_in_mempool e]: the error's text, in lower case, contains
    "transaction not in mempool". *)
Class Bitcoind := {
  RpcError : Type;
  not_in_mempool : RpcError → bool;
  initialblockdownload : nat → result RpcError bool;
  get_best_block_hash : nat → result RpcError BlockHash;
  get_block_header_info : nat → BlockHash → result RpcError BlockHeader;
  get_block : nat → BlockHash → result RpcError Block;
  (** [get_raw_transaction_info]: the containing block, if any *)
  get_raw_transaction_info : nat → Txid → result RpcError (option BlockHash);
  (** [get_block_info]: the height *)
  get_block_info : nat → BlockHash → result RpcError Z;
  get_mempool_entry : nat → Txid → result RpcError ();
}.

Inductive SyncError `{Bitcoind} :=
  | CheckPointNotReached
  | NodeNotSynced
  | Rpc (e : RpcError)
  | DeepReorg
  | SyncDb (e : DbError)
  (** not an error of the code: the model's loops ran out of fuel *)
  | OutOfFuel.

(** [block_time]: header timestamps must fit in 32 bits. *)
Definition block_time {E} (h : BlockHeader) : result E Z :=
  if h_time h <=? u32_max then Ok (h_time h) else Panic.

Section sync.
Context `{BitcoinHashes, Hashing, Bitcoind}.
Context (change_spk_of : PublicKeyPackage → option Script).
Context (now : Z).

(** The scheduler and the number of RPC calls made. *)
Abbreviation SyncM := (SM (PegoutScheduler * nat) SyncError).

Definition on_scheduler {A} (m : SM PegoutScheduler DbError A) : SyncM A :=
  zoom fst (λ s p, (s, p.2)) (smap_err SyncDb m).
Definition call {A} (f : nat → result RpcError A) : SyncM (result RpcError A) :=
  λ '(s, n), (Ok (f n), (s, S n)).
(** A call whose error ends the sync. *)
Definition rpc {A} (f : nat → result RpcError A) : SyncM A :=
  let* r := call f in slift (map_err Rpc r).

Definition is_syncing : SyncM bool :=
  let* ibd := rpc initialblockdownload in
  if ibd then sret true
  else
    let* best := rpc get_best_block_hash in
    let* tip := rpc (λ n, get_block_header_info n best) in
    let* t := slift (block_time tip) in
    sret (bool_decide (60 * 60 < Z.max (now - t) 0)).

(** One possibly dropped transaction. *)
Definition check_dropped (checkpoint : BlockHeader) (id : Txid) : SyncM () :=
  let* onchain := call (λ n, get_raw_transaction_info n id) in
  match onchain with
  | Ok None => sret tt
  | Ok (Some b) =>
      (** deep or not, nothing is changed here *)
      let* _ := rpc (λ n, get_block_info n b) in
      sret tt
  | _ =>
      let* s := sget in
      let* t := slift (expect (txs s.1 !! id)) in
      let* entry := call (λ n, get_mempool_entry n id) in
      match entry with
      | Ok _ => sret tt
      | Err e =>
          if not_in_mempool e then
            on_scheduler (un_track_tx id) ;;* on_scheduler (add_tx_back_to_pending t)
          else sret tt
      | Panic => slift Panic
      end
  end.

(** Transactions created before the checkpoint block. *)
Definition track_mempool (checkpoint : BlockHeader) : SyncM () :=
  let* cp_time := slift (block_time checkpoint) in
  let* s := sget in
  let maybe_dropped_txs :=
    txid <$> filter (λ t, created t < cp_time) (map_to_list (txs s.1)).*2 in
  sfor maybe_dropped_txs (check_dropped checkpoint).

(** The inner loop of the tip search: roll back until a known block is in the
    chain.  Each round drops a block, so [length last_blocks] rounds suffice. *)
Fixpoint rollback_loop (fuel : nat) : SyncM BlockHeader :=
  match fuel with
  | O => slift (Err OutOfFuel)
  | S fuel' =>
      let* s := sget in
      let* last := slift (expect (last (last_blocks s.1))) in
      let* in_chain := rpc (λ n, get_block_header_info n (hash last)) in
      if 0 <? h_confirmations in_chain then sret in_chain
      else if (length (last_blocks s.1) =? 1)%nat then slift (Err DeepReorg)
      else on_scheduler rollback_tip ;;* rollback_loop fuel'
  end.

(** The outer loop: retry when the tip moved meanwhile. *)
Fixpoint find_tip (fuel : nat) : SyncM (BlockHeader * BlockHeader) :=
  match fuel with
  | O => slift (Err OutOfFuel)
  | S fuel' =>
      let* best := rpc get_best_block_hash in
      let* tip := rpc (λ n, get_block_header_info n best) in
      let* s := sget in
      let* last := rollback_loop (length (last_blocks s.1)) in
      let* best' := rpc get_best_block_hash in
      let* new_tip := rpc (λ n, get_block_header_info n best') in
      if bool_decide (h_hash tip = h_hash new_tip) then sret (last, tip)
      else find_tip fuel'
  end.

(** Walk from the tip down to the last known block; [acc] holds the hashes found
    so far, oldest first. *)
Fixpoint collect_to_sync (fuel : nat) (last cursor : BlockHeader) (acc : list BlockHash)
    : SyncM (list BlockHash) :=
  match fuel with
  | O => slift (Err OutOfFuel)
  | S fuel' =>
      let* prevhash := slift (expect (h_previous_block_hash cursor)) in
      let* cursor' := rpc (λ n, get_block_header_info n prevhash) in
      if h_height cursor' =? h_height last then
        slift (rassert (bool_decide (h_hash cursor' = h_hash last))) ;;* sret acc
      else collect_to_sync fuel' last cursor' (h_hash cursor' :: acc)
  end.

(** One block of the sync loop. *)
Definition sync_block (h : BlockHash) : SyncM () :=
  let* _ := rpc (λ n, get_block_header_info n h) in
  let* b := rpc (λ n, get_block n h) in
  on_scheduler (add_block b) ;;*
  let* s := sget in
  match last_blocks s.1 with
  | deep :: rest =>
      if conf_window s.1 <? Z.of_nat (length (last_blocks s.1)) then
        on_scheduler (smodify (with_blocks rest)) ;;*
        on_scheduler (finalize_block change_spk_of now deep)
      else sret tt
  | [] => sret tt
  end.

(** The blocks in order, stopping once the checkpoint is finalized. *)
Fixpoint sync_blocks (checkpoint : BlockHash) (l : list BlockHash) : SyncM () :=
  match l with
  | [] => sret tt
  | h :: l' =>
      let* s := sget in
      if bool_decide (last_finalized s.1 = checkpoint) then sret tt
      else sync_block h ;;* sync_blocks checkpoint l'
  end.

Definition sync_until (fuel : nat) (checkpoint : BlockHash) : SyncM () :=
  let* cp := rpc (λ n, get_block_header_info n checkpoint) in
  let* syncing := is_syncing in
  if syncing then slift (Err NodeNotSynced)
  else
    let* '(last, tip) := find_tip fuel in
    if h_height last =? h_height tip then
      slift (rassert (bool_decide (h_hash tip = h_hash last)))
    else
      let* to_sync := collect_to_sync fuel last tip [h_hash tip] in
      sync_blocks checkpoint to_sync ;;*
      track_mempool cp ;;*
      let* s := sget in
      if bool_decide (last_finalized s.1 = checkpoint) then sret tt
      else slift (Err CheckPointNotReached).

End sync.
