(* ===== verification/SchedulerTheory.v ===== *)
(** * Theorems about the pegout scheduler

    What a sync may lose, whatever bitcoind answers; a finalized block moves its
    transactions' pegouts and change where they belong; the block window stays
    bounded; rolling back and walking the chain terminate. *)

From S2P Require Import Prelude Bitcoin Psbt Database DatabaseTheory PegoutScheduler.

(** ** Where a pegout is *)

Definition tracked_request (s : PegoutScheduler) (r : PegoutRequest) : Prop :=
  ∃ k t, txs s !! k = Some t ∧ r ∈ pegout_requests t.

(** A pegout is accounted for when it is tracked, pending or finalized. *)
Definition accounted (s : PegoutScheduler) (i : PegoutId) : Prop :=
  (∃ r, tracked_request s r ∧ req_id r = i) ∨
  i ∈ dom (pending_pegouts (db s)) ∨ i ∈ dom (finalized_pegout_ids (db s)).

Section theory.
Context {HB : BitcoinHashes} {HH : Hashing} {HHL : HashingLaws}.
Context (now : Z).

Definition cutoff : Z := Z.max (now - RETENTION_WINDOW_SECONDS) 0.
Definition is_old (ts : option Z) : Prop := ∃ t, ts = Some t ∧ t < cutoff.

(** A pegout whose request or finalized record is older than the retention
    window. *)
Definition expired (s : PegoutScheduler) (i : PegoutId) : Prop :=
  (∃ r, tracked_request s r ∧ req_id r = i ∧ is_old (req_timestamp r)) ∨
  (∃ f, finalized_pegout_ids (db s) !! i = Some f ∧ is_old (fin_timestamp f)).

(** Indices of outputs that exist. *)
Definition tx_ok (t : Tx) : Prop :=
  Forall (λ i, (i < length (output (tx t)))%nat) (pegout_idxs t ++ change_idxs t).

(** ** What a step may lose *)

(** The inputs the scheduler knows of: those of tracked transactions, those it
    indexes, and those it saw spent in the blocks of its window. *)
Definition known_input (s : PegoutScheduler) (i : OutPoint) : Prop :=
  (∃ k t, txs s !! k = Some t ∧ i ∈ inputs_of t) ∨ is_Some (txs_by_input s !! i) ∨
  ∃ b, b ∈ last_blocks s ∧ i ∈ relevant_inputs b.

(** A pegout requested by a tracked transaction of which a known input spends an
    output: when that input is finalized, [finalize_block] drops the transaction
    it comes from, and the requests with it. *)
Definition chained (s : PegoutScheduler) (i : PegoutId) : Prop :=
  ∃ k t r o, txs s !! k = Some t ∧ r ∈ pegout_requests t ∧ req_id r = i ∧
    known_input s o ∧ op_txid o = k.

(** No pegout is lost but expired and chained ones, and no coin but known
    inputs; and nothing becomes expired or known that was not. *)
Record conserves (s s' : PegoutScheduler) : Prop := {
  cv_txs : txs s' ⊆ txs s;
  cv_known i : known_input s' i → known_input s i;
  cv_expired i : expired s' i → expired s i;
  cv_pegouts i : accounted s i → accounted s' i ∨ expired s i ∨ chained s i;
  cv_utxos o row : utxos (db s) !! o = Some row →
    utxos (db s') !! o = Some row ∨ known_input s o;
}.
Lemma chained_mono s s' i :
  txs s' ⊆ txs s → (∀ o, known_input s' o → known_input s o) → chained s' i → chained s i.
Proof.
  intros Hsub Hk (k & t & r & o & Ht & Hr & Hi & Ho & Hp). exists k, t, r, o.
  split_and!; [by eapply lookup_weaken|auto..].
Qed.
#[export] Instance conserves_preorder : PreOrder conserves.
Proof.
  split.
  - intros s. split; auto.
  - intros s1 s2 s3 [Ht1 Hk1 He1 Ha1 Hu1] [Ht2 Hk2 He2 Ha2 Hu2]. split; [by etrans|auto|auto| |].
    + intros i [Hi|Hi]%Ha1; [|auto]. destruct (Ha2 i Hi) as [?|[?|?]]; [auto|auto|].
      right. right. by eapply chained_mono.
    + intros o row [Ho|Ho]%Hu1; [|auto]. destruct (Hu2 o row Ho); auto.
Qed.

(** The relation every step of a sync keeps: records stay under their own keys. *)
Definition safe_step (s s' : PegoutScheduler) : Prop :=
  db_wf (db s) → db_wf (db s') ∧ conserves s s'.
#[export] Instance safe_step_preorder : PreOrder safe_step.
Proof.
  split.
  - intros s Hs. split; [done|reflexivity].
  - intros s1 s2 s3 H12 H23 Hs1. destruct (H12 Hs1) as [Hs2 Hc].
    destruct (H23 Hs2) as [Hs3 Hc']. split; [done|]. by etrans.
Qed.

Lemma known_mono s s' :
  txs s' ⊆ txs s → (∀ i, is_Some (txs_by_input s' !! i) → is_Some (txs_by_input s !! i)) →
  (∀ b i, b ∈ last_blocks s' → i ∈ relevant_inputs b → known_input s i) →
  ∀ i, known_input s' i → known_input s i.
Proof.
  intros Hsub Hin Hbl i [(k & t & Hk & Hi)|[Hi|(b & Hb & Hi)]].
  - left. exists k, t. split; [by eapply lookup_weaken|done].
  - right. left. auto.
  - by eapply Hbl.
Qed.
Lemma known_blocks s b i : b ∈ last_blocks s → i ∈ relevant_inputs b → known_input s i.
Proof. intros Hb Hi. right. right. by exists b. Qed.

(** The same transactions, no fewer pending pegouts, the same finalized ones, no
    fewer coins. *)
Lemma conserves_same s s' :
  txs s' = txs s → (∀ i, known_input s' i → known_input s i) →
  dom (pending_pegouts (db s)) ⊆ dom (pending_pegouts (db s')) →
  finalized_pegout_ids (db s') = finalized_pegout_ids (db s) →
  utxos (db s) ⊆ utxos (db s') → conserves s s'.
Proof.
  intros Ht Hk Hp Hf Hu. split; [by rewrite Ht|done| | |].
  - intros i. unfold expired, tracked_request. by rewrite Ht, Hf.
  - intros i. unfold accounted, tracked_request. rewrite Ht, Hf. intros [?|[?|?]]; auto.
  - intros o row Ho. left. by eapply lookup_weaken.
Qed.
Lemma safe_same s s' :
  txs s' = txs s → (∀ i, known_input s' i → known_input s i) → db s' = db s → safe_step s s'.
Proof. intros Ht Hk Hdb Hd. rewrite Hdb. split; [done|]. apply conserves_same; by rewrite ?Hdb. Qed.

(** ** Untracking a transaction and re-queueing its pegouts *)

Lemma foldl_by_input {A} (g : A → gmap OutPoint (list Txid) → gmap OutPoint (list Txid)) l s :
  foldl (λ s i, with_by_input (g i (txs_by_input s)) s) s l =
  with_by_input (foldl (λ m i, g i m) (txs_by_input s) l) s.
Proof. revert s. induction l as [|a l IH]; intros s; simpl; [by destruct s|]. rewrite IH. by destruct s. Qed.
Lemma foldl_delete_is_Some {K V} `{Countable K} (l : list K) (m : gmap K V) k :
  is_Some (foldl (λ m i, delete i m) m l !! k) → is_Some (m !! k).
Proof.
  revert m. induction l as [|i l IH]; intros m Hm; [done|]. simpl in Hm.
  apply IH in Hm. destruct (decide (i = k)) as [->|Hne].
  - rewrite lookup_delete_eq in Hm. by destruct Hm.
  - by rewrite lookup_delete_ne in Hm.
Qed.

Lemma foldl_delete_None {K V} `{Countable K} (l : list K) (m : gmap K V) k :
  k ∈ l → foldl (λ m i, delete i m) m l !! k = None.
Proof.
  intros Hk. destruct (foldl _ m l !! k) eqn:Hl; [|done]. exfalso. revert m Hl.
  induction l as [|i l IH]; intros m Hl; [by apply elem_of_nil in Hk|]. simpl in Hl.
  apply elem_of_cons in Hk as [->|Hk]; [|by eapply IH].
  destruct (foldl_delete_is_Some l (delete i m) i) as [? Hd]; [by rewrite Hl|].
  by rewrite lookup_delete_eq in Hd.
Qed.
Lemma foldl_delete_ne {K V} `{Countable K} (l : list K) (m : gmap K V) k :
  k ∉ l → foldl (λ m i, delete i m) m l !! k = m !! k.
Proof.
  revert m. induction l as [|i l IH]; intros m Hk; [done|]. simpl.
  rewrite not_elem_of_cons in Hk. destruct Hk as [Hne Hk]. rewrite IH by done.
  by rewrite lookup_delete_ne.
Qed.

(** Only the indices changed, and no input was added to them. *)
Definition only_indices (s s' : PegoutScheduler) : Prop :=
  ∃ bi bp, s' = with_by_pegout bp (with_by_input bi s) ∧
    ∀ i, is_Some (bi !! i) → is_Some (txs_by_input s !! i).
Lemma only_indices_safe s s' : only_indices s s' → safe_step s s'.
Proof.
  intros (bi & bp & -> & Hbi). apply safe_same; [by destruct s| |by destruct s].
  apply known_mono; [by destruct s|by destruct s|]. intros b i Hb. apply known_blocks. by destruct s.
Qed.

(** Dropping the outputs of a transaction from the index: an index out of range
    panics. *)
Lemma drop_pegouts_loop t l s :
  let drop i := let* o := slift (output_at t i) in
                smodify (λ s, with_by_pegout (delete o (txs_by_pegout s)) s) in
  ∃ r bp, sfor l drop s = (r, with_by_pegout bp s) ∧
    (r = Ok tt ∨ r = @Panic DbError () ∧ ¬ Forall (λ i, (i < length (output (tx t)))%nat) l).
Proof.
  intros drop. assert (∀ i s, drop i s = match output (tx t) !! i with
    | Some o => (Ok tt, with_by_pegout (delete o (txs_by_pegout s)) s)
    | None => (Panic, s) end) as Hdrop.
  { intros i s0. unfold drop, sbind, slift, output_at, smodify. by destruct (output (tx t) !! i). }
  clearbody drop. revert s. induction l as [|i l IH]; intros s.
  - exists (Ok tt), (txs_by_pegout s). split; [by destruct s|by left].
  - cbn [sfor]. unfold sbind. rewrite Hdrop.
    destruct (output (tx t) !! i) as [o|] eqn:Ho.
    + destruct (IH (with_by_pegout (delete o (txs_by_pegout s)) s)) as (r & bp & Heq & Hr).
      exists r, bp. split; [rewrite Heq; by destruct s|]. destruct Hr as [?|[? Hn]]; [by left|right].
      split; [done|]. by intros [_ ?]%Forall_cons.
    + exists Panic, (txs_by_pegout s). split; [by destruct s|]. right. split; [done|].
      intros [Hi _]%Forall_cons. apply lookup_ge_None in Ho. lia.
Qed.

(** What untracking a transaction does: it leaves the tracked set, or the call
    panics before. *)
Lemma un_track_tx_cases id t s :
  txs s !! id = Some t →
  ∃ s1, only_indices s s1 ∧
    (un_track_tx id s =
       (Ok tt, with_db (remove_tracked_tx id (db s)) (with_txs (delete id (txs s)) s1)) ∨
     un_track_tx id s = (Panic, s1) ∧ ¬ tx_ok t).
Proof.
  intros Hid. set (bi := foldl (λ m i, delete i m) (txs_by_input s) (inputs_of t)).
  destruct (drop_pegouts_loop t (pegout_idxs t) (with_by_input bi s)) as (r & bp & Heq & Hr).
  set (s1 := with_by_pegout bp (with_by_input bi s)) in *.
  assert (un_track_tx id s = match r with
    | Ok _ => (Ok tt, with_db (remove_tracked_tx id (db s)) (with_txs (delete id (txs s)) s1))
    | Err e => (Err e, s1) | Panic => (Panic, s1) end) as ->.
  { unfold un_track_tx, sbind at 1, sget. unfold sbind at 1, slift at 1. rewrite Hid.
    cbn [expect]. unfold sbind at 1.
    rewrite (sfor_total _ _ (λ i s, with_by_input (delete i (txs_by_input s)) s)) by done.
    rewrite (foldl_by_input (λ i m, delete i m)). fold bi. unfold sbind at 1. rewrite Heq.
    unfold sbind, smodify, modify_db. by destruct r, s. }
  exists s1. split.
  { exists bi, bp. split; [done|]. intros i. apply foldl_delete_is_Some. }
  destruct Hr as [->|[-> Hn]]; [by left|right]. split; [done|]. unfold tx_ok.
  by intros [? _]%Forall_app.
Qed.

(** What re-queueing a tracked transaction does to a scheduler. *)
Record requeued (id : Txid) (t : Tx) (s s' : PegoutScheduler) : Prop := {
  rq_txs : txs s' = delete id (txs s);
  rq_by_input i : is_Some (txs_by_input s' !! i) → is_Some (txs_by_input s !! i);
  rq_blocks : last_blocks s' = last_blocks s;
  rq_window : conf_window s' = conf_window s;
  rq_last_finalized : last_finalized s' = last_finalized s;
  rq_pending : dom (pending_pegouts (db s')) =
               dom (pending_pegouts (db s)) ∪ list_to_set (req_id <$> pegout_requests t);
  rq_finalized : finalized_pegout_ids (db s') = finalized_pegout_ids (db s);
  rq_utxos : utxos (db s') = utxos (db s);
  rq_db : db_wf (db s');
}.

Lemma store_pending_summary rs d :
  db_wf d → ∃ d', store_pending_pegouts rs d = (Ok tt, d') ∧ db_wf d' ∧
    dom (pending_pegouts d') = dom (pending_pegouts d) ∪ list_to_set (req_id <$> rs) ∧
    finalized_pegout_ids d' = finalized_pegout_ids d ∧ utxos d' = utxos d ∧
    tracked_txs d' = tracked_txs d.
Proof.
  intros Hd. destruct (decide (rs = [])) as [->|Hne].
  - exists d. split_and!; try done. set_solver.
  - destruct (store_pending_pegouts_eq rs d Hd Hne) as (m & Hm & Hdom & _ & _ & Heq).
    exists (set_root put_pending_root (as_bytes <$> elements (dom m)) (put_pending m d)).
    split; [done|]. assert (db_wf (put_pending m d)) as Hwf by (by apply db_wf_put_pending).
    unfold set_root. case_match; destruct d; simpl in *; (split; [exact Hwf|]);
      split_and!; done.
Qed.

Lemma requeue_cases id t s :
  db_wf (db s) → txs s !! id = Some t →
  ∃ s', (un_track_tx id ;;* add_tx_back_to_pending t) s = (Ok tt, s') ∧ requeued id t s s' ∨
        (un_track_tx id ;;* add_tx_back_to_pending t) s = (Panic, s') ∧ only_indices s s' ∧
        ¬ tx_ok t.
Proof.
  intros Hd Hid. destruct (un_track_tx_cases id t s Hid) as (s1 & Hi & [Heq|[Heq Hn]]);
    unfold sbind; rewrite Heq; [|exists s1; by right].
  set (s2 := with_db _ _).
  assert (db s2 = remove_tracked_tx id (db s)) as Hdb2 by (subst s2; by destruct s1).
  assert (db_wf (db s2)) as Hd2.
  { rewrite Hdb2. apply db_wf_put_tracked; [|apply Hd]. apply delete_own_key. apply Hd. }
  destruct (store_pending_summary (pegout_requests t) (db s2) Hd2)
    as (d' & Hst & Hwf & Hp & Hf & Hu & _).
  exists (with_db d' s2). left. unfold add_tx_back_to_pending, on_db, zoom. rewrite Hst.
  split; [done|]. rewrite Hdb2 in *. subst s2. destruct Hi as (bi & bp & -> & Hbi).
  destruct s as [a b c d e f g h]. destruct h. simpl in *. by split.
Qed.
Lemma requeue_eq id t s :
  db_wf (db s) → tx_ok t → txs s !! id = Some t →
  ∃ s', (un_track_tx id ;;* add_tx_back_to_pending t) s = (Ok tt, s') ∧ requeued id t s s'.
Proof.
  intros Hd Ht Hid. destruct (requeue_cases id t s Hd Hid) as (s' & [?|(_ & _ & ?)]); [|done].
  by exists s'.
Qed.

Lemma requeued_safe id t s s' :
  txs s !! id = Some t → requeued id t s s' → db_wf (db s') ∧ conserves s s'.
Proof.
  intros Hid Hrq. split; [apply Hrq|].
  assert (txs s' ⊆ txs s) as Hsub by (rewrite (rq_txs _ _ _ _ Hrq); apply delete_subseteq).
  split; [done| | | |].
  - apply known_mono; [done|apply Hrq|]. rewrite (rq_blocks _ _ _ _ Hrq). apply known_blocks.
  - intros i. unfold expired. rewrite (rq_finalized _ _ _ _ Hrq).
    intros [(r & (k & t' & Hk & Hr) & Hold)|?]; [left|by right]. exists r. split; [|done].
    exists k, t'. split; [by eapply lookup_weaken|done].
  - intros i Hi. left. unfold accounted in *.
    rewrite (rq_finalized _ _ _ _ Hrq), (rq_pending _ _ _ _ Hrq).
    destruct Hi as [(r & (k & t' & Hk & Hr) & <-)|[Hi|Hi]]; [|set_solver..].
    destruct (decide (k = id)) as [->|Hne].
    + right. left. assert (t' = t) as -> by congruence.
      apply elem_of_union_r, elem_of_list_to_set, list_elem_of_fmap. eauto.
    + left. exists r. split; [|done]. exists k, t'.
      rewrite (rq_txs _ _ _ _ Hrq), lookup_delete_ne by done. done.
  - intros o row Ho. left. by rewrite (rq_utxos _ _ _ _ Hrq).
Qed.
Lemma requeue_safe id t s :
  txs s !! id = Some t → safe_step s ((un_track_tx id ;;* add_tx_back_to_pending t) s).2.
Proof.
  intros Hid Hd. destruct (requeue_cases id t s Hd Hid) as (s' & [[-> Hrq]|(-> & Hi & _)]).
  - by eapply requeued_safe.
  - by apply only_indices_safe.
Qed.

Lemma sexpect_seq {S E F A} (m : SM S E ()) (k : SM S E A) s a s' :
  (m ;;* k) s = (Ok a, s') → (sexpect (F := F) m ;;* sexpect k) s = (Ok a, s').
Proof.
  unfold sbind, sexpect. destruct (m s) as [[[]|e|] s1]; [|done..].
  by destruct (k s1) as [[a'|e|] s2]; intros [= -> ->].
Qed.
Lemma sexpect_seq_state {S E F A} (m : SM S E ()) (k : SM S E A) s :
  ((sexpect (F := F) m ;;* sexpect k) s).2 = ((m ;;* k) s).2.
Proof.
  unfold sbind, sexpect. destruct (m s) as [[[]|e|] s1]; [|done..].
  by destruct (k s1) as [[a'|e|] s2].
Qed.

Lemma with_confirmed_safe c s : safe_step s (with_confirmed c s).
Proof. by destruct s; apply safe_same. Qed.
Lemma with_last_finalized_safe h s : safe_step s (with_last_finalized h s).
Proof. by destruct s; apply safe_same. Qed.

Lemma rollback_tx_eq id t s :
  db_wf (db s) → tx_ok t → txs s !! id = Some t →
  ∃ s', rollback_tx id s = (Ok tt, s') ∧
        requeued id t (with_confirmed (confirmed_txs s ∖ {[id]}) s) s'.
Proof.
  intros Hs Ht Hid. unfold rollback_tx, sbind at 1, sget. unfold sbind at 1, slift. rewrite Hid.
  cbn [expect]. unfold sbind at 1, smodify at 1. set (s1 := with_confirmed _ s).
  destruct (requeue_eq id t s1) as (s2 & Heq & Hrq); [by destruct s|done|by destruct s|].
  exists s2. split; [|done]. by apply sexpect_seq.
Qed.

Lemma rollback_tx_safe id : guarantees safe_step (rollback_tx id).
Proof.
  intros s. unfold rollback_tx, sbind at 1, sget. unfold sbind at 1, slift.
  destruct (txs s !! id) as [t|] eqn:Hid; cbn [expect]; [|simpl; reflexivity].
  unfold sbind at 1, smodify at 1. rewrite sexpect_seq_state.
  transitivity (with_confirmed (confirmed_txs s ∖ {[id]}) s); [apply with_confirmed_safe|].
  apply requeue_safe. by destruct s.
Qed.

Lemma with_blocks_safe l s :
  (∀ b, b ∈ l → b ∈ last_blocks s) → safe_step s (with_blocks l s).
Proof.
  intros Hl. apply safe_same; [by destruct s| |by destruct s].
  apply known_mono; [by destruct s|by destruct s|]. intros b i Hb. apply known_blocks, Hl.
  by destruct s.
Qed.

Lemma rollback_tip_safe : guarantees safe_step rollback_tip.
Proof.
  intros s. unfold rollback_tip, sbind at 1, sget.
  destruct (reverse (last_blocks s)) as [|d rest] eqn:Hrev; [simpl; reflexivity|].
  unfold sbind, smodify. transitivity (with_blocks (reverse rest) s).
  - apply with_blocks_safe. intros b Hb. rewrite elem_of_reverse in Hb.
    rewrite <-elem_of_reverse, Hrev. by right.
  - apply guarantees_sfor; [apply _|]. intros id _. apply rollback_tx_safe.
Qed.

(** ** Adding a block *)

Lemma scan_block_inputs s l i :
  i ∈ (scan_block s l).2 → is_Some (txs_by_input s !! i).
Proof.
  induction l as [|t l IH]; simpl; [by intros ?%elem_of_nil|].
  destruct (scan_block s l) as [ids ins]. simpl in *. case_match; [done|]. simpl.
  rewrite elem_of_app, list_elem_of_filter. intros [[? _]|?]; auto.
Qed.

Lemma add_block_safe b : guarantees safe_step (add_block b).
Proof.
  intros s. unfold add_block, sbind at 1, sget. unfold sbind at 1, slift.
  destruct (last (last_blocks s)) as [lb|]; cbn [expect]; [|simpl; reflexivity].
  unfold sbind at 1. destruct (bool_decide _); cbn [rassert]; [|simpl; reflexivity].
  destruct (scan_block s (txdata b)) as [ids ins] eqn:Hscan.
  unfold sbind, smodify. cbn [snd].
  pose proof (scan_block_inputs s (txdata b)) as Hsi. rewrite Hscan in Hsi.
  apply safe_same; [by destruct s| |by destruct s].
  apply known_mono; [by destruct s|by destruct s|]. intros b' i Hb Hi.
  assert (b' ∈ last_blocks s ++ [{| hash := block_hash b; relevant_txs := ids;
    relevant_inputs := ins |}]) as [Hb'|Hb']%elem_of_app by (by destruct s);
    [by eapply known_blocks|]. clear Hb. rename Hb' into Hb.
  apply list_elem_of_singleton in Hb as ->. right. left. by apply Hsi.
Qed.

(** ** Finalizing a block *)

Lemma store_utxos_eq us d :
  (store_utxos us d).2 = put_utxos (insert_all_absent outpoint utxo_row us (utxos d)) d.
Proof.
  destruct us as [|u [|u' us]]; [by destruct d| |done].
  simpl. unfold store_utxo, insert_all_absent, insert_absent. simpl.
  destruct (utxos d !! outpoint u); [by destruct d|done].
Qed.

(** Only the UTXO tree differs. *)
Definition only_utxos (m : gmap OutPoint UtxoRow) (s s' : PegoutScheduler) : Prop :=
  s' = with_db (put_utxos m (db s)) s.

Lemma only_utxos_safe m s s' :
  only_utxos m s s' → utxos (db s) ⊆ m → safe_step s s'.
Proof.
  intros -> Hm Hd. split; [destruct s as [? ? ? ? ? ? ? d]; by destruct d|].
  apply conserves_same; destruct s as [? ? ? ? ? ? ? d]; by destruct d.
Qed.

(** The rows the change of a transaction contributes. *)
Definition change_row (o : TxOut) : UtxoRow :=
  {| row_output := o; row_eth_address := None; row_version := 0 |}.

(** First loop: on success every relevant transaction is tracked, the inputs
    collected are exactly theirs, the rows that were there stay, and the change
    outputs are there. *)
Record change_stored (ids : list Txid) (acc : gset OutPoint) (s : PegoutScheduler)
    (spk : result ChangeOutputError Script) (ins : gset OutPoint)
    (m : gmap OutPoint UtxoRow) : Prop := {
  cs_tracked : Forall (λ id, is_Some (txs s !! id)) ids;
  cs_inputs i : i ∈ ins ↔ i ∈ acc ∨ ∃ id t, id ∈ ids ∧ txs s !! id = Some t ∧ i ∈ inputs_of t;
  cs_keep o r : utxos (db s) !! o = Some r → m !! o = Some r;
  cs_new o r : m !! o = Some r → utxos (db s) !! o = Some r ∨
    ∃ id t outs po spk', id ∈ ids ∧ txs s !! id = Some t ∧ @change DbError t = Ok outs ∧
      po ∈ outs ∧ spk = Ok spk' ∧ script_pubkey po.2 = spk' ∧ o = po.1 ∧ r = change_row po.2;
  cs_all id t outs po spk' : id ∈ ids → txs s !! id = Some t → @change DbError t = Ok outs →
    po ∈ outs → spk = Ok spk' → script_pubkey po.2 = spk' → is_Some (m !! po.1);
}.

Lemma elem_of_change_utxos d spk outs u :
  u ∈ change_utxos d spk outs ↔
  ∃ po, po ∈ outs ∧ script_pubkey po.2 = spk ∧ outpoint u = po.1 ∧ utxo_output u = po.2 ∧
        utxo_eth_address u = None ∧ utxo_version u = from_option utxo_version 0 (get_utxo po.1 d).
Proof.
  unfold change_utxos. rewrite list_elem_of_omap. split.
  - intros (po & Hpo & Hu). case_bool_decide; [|done]. injection Hu as <-. by exists po.
  - intros (po & Hpo & Hspk & H1' & H2' & H3' & H4'). exists po. split; [done|].
    rewrite bool_decide_eq_true_2 by done. destruct u; simpl in *. by subst.
Qed.

(** Storing the change of one transaction. *)
Lemma store_change_rows d spk outs o :
  let m := insert_all_absent outpoint utxo_row (change_utxos d spk outs) (utxos d) in
  (∀ r, utxos d !! o = Some r → m !! o = Some r) ∧
  (∀ r, m !! o = Some r → utxos d !! o = Some r ∨
     ∃ po, po ∈ outs ∧ script_pubkey po.2 = spk ∧ o = po.1 ∧ r = change_row po.2) ∧
  (∀ po, po ∈ outs → script_pubkey po.2 = spk → o = po.1 → is_Some (m !! o)).
Proof.
  cbv zeta. rewrite insert_all_absent_lookup. split_and!.
  - by intros r ->.
  - intros r. destruct (utxos d !! o) eqn:Ho; [intros [= ->]; by left|].
    intros Hr. right. apply fmap_Some in Hr as (u & Hu & ->).
    apply head_Some_elem_of, list_elem_of_filter in Hu as [<- Hu].
    apply elem_of_change_utxos in Hu as (po & Hpo & Hspk & Hop & Hout & Heth & Hv).
    exists po. split_and!; try done. unfold utxo_row, change_row, get_utxo in *.
    rewrite Hop in Ho. rewrite Ho in Hv. simpl in Hv. by rewrite Hout, Heth, Hv.
  - intros po Hpo Hspk ->. destruct (utxos d !! po.1) eqn:Ho; [by eexists|].
    destruct (head _) as [u|] eqn:Hu; [by eexists|]. exfalso. apply head_None in Hu.
    assert ({| outpoint := po.1; utxo_output := po.2; utxo_eth_address := None;
               utxo_version := from_option utxo_version 0 (get_utxo po.1 d) |} ∈
            filter (λ u, outpoint u = po.1) (change_utxos d spk outs)) as Hin.
    { apply list_elem_of_filter. split; [done|]. apply elem_of_change_utxos. by exists po. }
    rewrite Hu in Hin. by apply elem_of_nil in Hin.
Qed.

Lemma only_utxos_refl s : only_utxos (utxos (db s)) s s.
Proof. unfold only_utxos. by destruct s as [? ? ? ? ? ? ? d]; destruct d. Qed.
Lemma only_utxos_trans m1 m2 s1 s2 s3 :
  only_utxos m1 s1 s2 → only_utxos m2 s2 s3 → only_utxos m2 s1 s3.
Proof. unfold only_utxos. intros -> ->. by destruct s1 as [? ? ? ? ? ? ? d]; destruct d. Qed.
Lemma only_utxos_fields m s s' :
  only_utxos m s s' →
  txs s' = txs s ∧ utxos (db s') = m ∧ txs_by_input s' = txs_by_input s ∧
  last_blocks s' = last_blocks s ∧ conf_window s' = conf_window s ∧
  last_finalized s' = last_finalized s ∧ same_trees (db s) (db s').
Proof. unfold only_utxos. intros ->. by destruct s as [? ? ? ? ? ? ? d]; destruct d. Qed.

(** One more transaction at the front of the list. *)
Lemma change_stored_cons id t outs ids acc s s1 spk ins m :
  txs s !! id = Some t →
  (∀ spk', spk = Ok spk' → @change DbError t = Ok outs) →
  only_utxos (match spk with
              | Ok spk' => insert_all_absent outpoint utxo_row
                             (change_utxos (db s) spk' outs) (utxos (db s))
              | _ => utxos (db s) end) s s1 →
  change_stored ids (acc ∪ list_to_set (inputs_of t)) s1 spk ins m →
  change_stored (id :: ids) acc s spk ins m.
Proof.
  intros Hid Hch Hs1 [Htr Hin Hkeep Hnew Hall].
  destruct (only_utxos_fields _ _ _ Hs1) as (Htx & Hu & _). rewrite Htx, Hu in *.
  assert (∀ o r, utxos (db s) !! o = Some r →
            match spk with
            | Ok spk' => insert_all_absent outpoint utxo_row (change_utxos (db s) spk' outs)
                           (utxos (db s))
            | _ => utxos (db s) end !! o = Some r) as Hk1.
  { intros o r Hr. destruct spk; [|done..]. by apply store_change_rows. }
  split.
  - constructor; [by eexists|done].
  - intros i. rewrite Hin, elem_of_union, elem_of_list_to_set. split.
    + intros [[?|?]|(id' & t' & ? & ? & ?)]; [by left|right|right].
      * exists id, t. split_and!; [left|done|done].
      * exists id', t'. split_and!; [by right|done|done].
    + intros [?|(id' & t' & Hi & Ht' & ?)]; [by do 2 left|].
      apply elem_of_cons in Hi as [->|Hi]; [left; right; congruence|right; eauto].
  - intros o r Hr. by apply Hkeep, Hk1.
  - intros o r Hr. apply Hnew in Hr as [Hr|(id' & t' & outs' & po & spk' & Hi & Hrest)].
    + destruct spk as [spk'|e|]; [|by left..].
      apply (store_change_rows (db s) spk' outs o) in Hr as [Hr|(po & Hpo & Hspk & -> & ->)];
        [by left|]. right. exists id, t, outs, po, spk'. split_and!; try done; [left|].
      by apply (Hch spk').
    + right. exists id', t', outs', po, spk'. split; [by right|done].
  - intros id' t' outs' po spk' Hi Ht' Hch' Hpo -> Hspk.
    apply elem_of_cons in Hi as [->|Hi]; [|by eapply Hall].
    assert (outs' = outs) as -> by (specialize (Hch spk' eq_refl); congruence).
    destruct (store_change_rows (db s) spk' outs po.1) as (_ & _ & Hex).
    destruct (Hex po Hpo Hspk eq_refl) as [r Hr]. exists r. by apply Hkeep.
Qed.

Lemma store_change_spec spk ids acc s r s' :
  store_change spk ids acc s = (r, s') →
  ∃ m, only_utxos m s s' ∧ utxos (db s) ⊆ m ∧
    ∀ ins, r = Ok ins → change_stored ids acc s spk ins m.
Proof.
  assert (∀ ids acc s spk (e : result DbError (gset OutPoint)), is_ok e = false →
    ∃ m, only_utxos m s s ∧ utxos (db s) ⊆ m ∧
      ∀ ins, e = Ok ins → change_stored ids acc s spk ins m) as Hstop.
  { intros ? ? s0 ? e He. exists (utxos (db s0)).
    split_and!; [apply only_utxos_refl|done|by intros ? ->]. }
  revert acc s. induction ids as [|id ids IH]; intros acc s Heq; cbn [store_change] in Heq.
  - injection Heq as <- <-. exists (utxos (db s)). split_and!; [apply only_utxos_refl|done|].
    intros ins [= <-]. split; [constructor| |auto|auto|].
    + intros i. split; [auto|]. intros [?|(? & ? & ?%elem_of_nil & _)]; done.
    + by intros ? ? ? ? ? ?%elem_of_nil.
  - unfold sbind at 1, sget in Heq. unfold sbind at 1, slift in Heq.
    destruct (txs s !! id) as [t|] eqn:Hid; cbn [ok_or] in Heq.
    2: { injection Heq as <- <-. by apply Hstop. }
    unfold sbind at 1 in Heq. destruct spk as [spk'|e|].
    + unfold sbind at 1 in Heq. destruct (change t) as [outs|e|] eqn:Hch.
      2,3: injection Heq as <- <-; by apply Hstop.
      unfold sret, sbind, modify_db, smodify in Heq. rewrite store_utxos_eq in Heq.
      apply IH in Heq as (m & Hm & Hsub & Hins). exists m. split_and!.
      * eapply only_utxos_trans; [|exact Hm]. done.
      * etrans; [|exact Hsub]. apply map_subseteq_spec. intros o row Ho.
        apply (store_change_rows (db s) spk' outs) in Ho.
        by destruct s as [? ? ? ? ? ? ? d]; destruct d.
      * intros ins Hr. eapply (change_stored_cons id t outs); [done|by intros ? _|done|auto].
    + unfold sret, sbind, modify_db, smodify in Heq. rewrite store_utxos_eq in Heq.
      apply IH in Heq as (m & Hm & Hsub & Hins). exists m. split_and!.
      * eapply only_utxos_trans; [|exact Hm]. done.
      * etrans; [|exact Hsub]. by destruct s as [? ? ? ? ? ? ? d]; destruct d.
      * intros ins Hr. eapply (change_stored_cons id t []); [done|done| |auto]. done.
    + unfold sret, sbind, modify_db, smodify in Heq. rewrite store_utxos_eq in Heq.
      apply IH in Heq as (m & Hm & Hsub & Hins). exists m. split_and!.
      * eapply only_utxos_trans; [|exact Hm]. done.
      * etrans; [|exact Hsub]. by destruct s as [? ? ? ? ? ? ? d]; destruct d.
      * intros ins Hr. eapply (change_stored_cons id t []); [done|done| |auto]. done.
Qed.

(** The second loop: the spent coins go, and so do the tracked transactions that
    created them. *)
Record inputs_spent (l : list OutPoint) (s s' : PegoutScheduler) : Prop := {
  is_txs k : txs s' !! k = if decide (k ∈ op_txid <$> l) then None else txs s !! k;
  is_utxos : utxos (db s') = foldl (λ m i, delete i m) (utxos (db s)) l;
  is_pending : pending_pegouts (db s') = pending_pegouts (db s);
  is_finalized : finalized_pegout_ids (db s') = finalized_pegout_ids (db s);
  is_by_input : txs_by_input s' = txs_by_input s;
  is_blocks : last_blocks s' = last_blocks s;
  is_db : db_wf (db s) → db_wf (db s');
}.
Lemma spend_input_eq i s :
  ∃ s', spend_input i s = (Ok tt, s') ∧ inputs_spent [i] s s'.
Proof.
  unfold spend_input, sbind, sget, modify_db, smodify, sret.
  destruct (txs s !! op_txid i) as [t|] eqn:Ht; eexists; (split; [reflexivity|]).
  - destruct s as [? ? ? ? ? ? ? d]. split; cbn -[decide];
      [|by destruct d|by destruct d|by destruct d|done|done|].
    + intros k. destruct (decide (k ∈ [op_txid i])) as [Hk|Hk].
      * apply list_elem_of_singleton in Hk as ->. apply lookup_delete_eq.
      * apply lookup_delete_ne. intros <-. apply Hk. left.
    + intros Hd. apply (same_trees_wf (remove_tracked_tx (op_txid i) d)); [by destruct d|].
      apply db_wf_put_tracked; [|done]. apply delete_own_key, Hd.
  - destruct s as [? ? ? ? ? ? ? d]. split; cbn -[decide];
      [|by destruct d|by destruct d|by destruct d|done|done|by destruct d].
    intros k. destruct (decide (k ∈ [op_txid i])) as [Hk|Hk]; [|done].
    by apply list_elem_of_singleton in Hk as ->.
Qed.
Lemma spend_inputs_eq l s : ∃ s', sfor l spend_input s = (Ok tt, s') ∧ inputs_spent l s s'.
Proof.
  revert s. induction l as [|i l IH]; intros s.
  - exists s. split; [done|]. by split.
  - cbn [sfor]. unfold sbind. destruct (spend_input_eq i s) as (s1 & -> & H1).
    destruct (IH s1) as (s2 & Heq & H2). exists s2. split; [done|].
    destruct H1 as [Ht1 Hu1 Hp1 Hf1 Hi1 Hb1 Hd1], H2 as [Ht2 Hu2 Hp2 Hf2 Hi2 Hb2 Hd2].
    split; try congruence; [|by rewrite Hu2, Hu1|auto]. intros k. rewrite Ht2, Ht1. csimpl.
    repeat case_decide; try done; set_solver.
Qed.

(** Seen from an earlier state, in which the inputs were known. *)
Lemma inputs_spent_conserves s0 l s s' :
  conserves s0 s → (∀ i, i ∈ l → known_input s0 i) → inputs_spent l s s' → conserves s0 s'.
Proof.
  intros [Ht Hk He Hp Hu] Hl [Ht' Hu' Hp' Hf' Hi' Hb' _].
  assert (txs s' ⊆ txs s) as Hsub.
  { apply map_subseteq_spec. intros k t. rewrite Ht'. by case_decide. }
  split; [by etrans| | | |].
  - intros i Hi. apply Hk. revert i Hi. apply known_mono; [done|by rewrite Hi'|].
    rewrite Hb'. apply known_blocks.
  - intros i Hi. apply He. revert Hi. unfold expired. rewrite Hf'.
    intros [(r & (k & t & Hk' & Hr) & Hold)|?]; [left|by right]. exists r. split; [|done].
    exists k, t. split; [by eapply lookup_weaken|done].
  - intros i [Hi|Hi]%Hp; [|by right]. unfold accounted in *. rewrite Hp', Hf'.
    destruct Hi as [(r & (k & t & Hk' & Hr) & <-)|Hi]; [|by left; right].
    destruct (decide (k ∈ op_txid <$> l)) as [Hin|Hin].
    + right. right. apply list_elem_of_fmap in Hin as (o & -> & Ho).
      exists (op_txid o), t, r, o. split_and!; [by eapply lookup_weaken|done|done|auto|done].
    + left. left. exists r. split; [|done]. exists k, t. by rewrite Ht', decide_False.
  - intros o row [Ho|Ho]%Hu; [|by right]. rewrite Hu'.
    destruct (decide (o ∈ l)) as [Hin|Hin]; [right; auto|left]. by rewrite foldl_delete_ne.
Qed.

(** The database after a confirmed transaction's pegouts are recorded. *)
Definition record_finalized (t : Tx) (d : Db) : Db :=
  match finalized_of <$> pegout_requests t with
  | [] => d
  | fs => prune_finalized_pegout_ids now (store_finalized_pegout_ids_atomically fs d)
  end.

Lemma finalize_tx_eq id s :
  finalize_tx now id s =
  (Ok tt, match txs s !! id with
          | Some t => with_db (remove_tracked_tx id (record_finalized t (db s)))
                        (with_txs (delete id (txs s)) s)
          | None => with_db (remove_tracked_tx id (db s)) s
          end).
Proof.
  unfold finalize_tx, sbind, sget, modify_db, smodify, sret, record_finalized.
  destruct (txs s !! id) as [t|]; [|done]. destruct (finalized_of <$> pegout_requests t);
    by destruct s.
Qed.

(** The finalized entry of an id after recording a transaction. *)
Lemma record_finalized_lookup t d i :
  db_wf d → pegout_requests t ≠ [] →
  finalized_pegout_ids (record_finalized t d) !! i =
  match finalized_pegout_ids d !! i with
  | Some f => Some f
  | None => head (filter (λ f, fin_id f = i) (finalized_of <$> pegout_requests t))
  end ≫= prune_entry now.
Proof.
  intros Hd Hne. unfold record_finalized.
  destruct (finalized_of <$> pegout_requests t) as [|f fs] eqn:Hfs.
  { by apply fmap_nil_inv in Hfs. }
  rewrite prune_lookup.
  - assert (finalized_pegout_ids (store_finalized_pegout_ids_atomically (f :: fs) d) =
            insert_all_absent fin_id (λ f, f) (f :: fs) (finalized_pegout_ids d)) as ->
      by (by destruct d).
    rewrite insert_all_absent_lookup. destruct (finalized_pegout_ids d !! i); [done|].
    by destruct (head _).
  - apply db_wf_put_finalized; [|done]. apply insert_all_absent_own_key. apply Hd.
Qed.
Lemma record_finalized_other t d :
  pending_pegouts (record_finalized t d) = pending_pegouts d ∧
  tracked_txs (record_finalized t d) = tracked_txs d ∧
  utxos (record_finalized t d) = utxos d ∧ (db_wf d → db_wf (record_finalized t d)).
Proof.
  unfold record_finalized. destruct (finalized_of <$> _) as [|f fs]; [done|].
  split_and!; [by destruct d..|]. intros Hd.
  apply db_wf_put_finalized; [apply prune_own_key|]; [|apply db_wf_put_finalized; [|done]].
  - pose proof (insert_all_absent_own_key fin_id (f :: fs) _ (proj2 (proj2 Hd))). by destruct d.
  - apply insert_all_absent_own_key. apply Hd.
Qed.

Lemma prune_entry_some f f' : 0 ≤ now → prune_entry now f = Some f' → ¬ is_old (fin_timestamp f').
Proof.
  intros Hnow. unfold prune_entry, is_old, cutoff, RETENTION_WINDOW_SECONDS.
  destruct (fin_timestamp f) as [ts|] eqn:Hts.
  - case_match; [done|]. intros [= <-] (t & Ht & Hlt). bool_to_prop.
    assert (t = ts) as -> by congruence.
    unfold RETENTION_WINDOW_SECONDS in *. lia.
  - intros [= <-] (t & Ht & Hlt). simpl in Ht. injection Ht as <-. lia.
Qed.
Lemma prune_entry_none f : prune_entry now f = None → is_old (fin_timestamp f).
Proof.
  unfold prune_entry, is_old, cutoff. destruct (fin_timestamp f) as [ts|]; [|done].
  case_match; [|done]. intros _. exists ts. bool_to_prop. auto.
Qed.

Context (now_nonneg : 0 ≤ now).

Lemma head_finalized t i f :
  head (filter (λ f, fin_id f = i) (finalized_of <$> pegout_requests t)) = Some f →
  ∃ r, r ∈ pegout_requests t ∧ req_id r = i ∧ f = finalized_of r.
Proof.
  intros Hf. apply head_Some_elem_of, list_elem_of_filter in Hf as [Hi Hf].
  apply list_elem_of_fmap in Hf as (r & -> & Hr). by exists r.
Qed.
Lemma head_finalized_none t r :
  r ∈ pegout_requests t →
  head (filter (λ f, fin_id f = req_id r) (finalized_of <$> pegout_requests t)) ≠ None.
Proof.
  intros Hr Hn. apply head_None in Hn.
  assert (finalized_of r ∈ filter (λ f, fin_id f = req_id r)
            (finalized_of <$> pegout_requests t)) as Hin.
  { apply list_elem_of_filter. split; [done|]. apply list_elem_of_fmap. by exists r. }
  rewrite Hn in Hin. by apply elem_of_nil in Hin.
Qed.

(** Recording a tracked transaction: an id that was finalized or belongs to the
    transaction is finalized afterwards, unless expired. *)
Lemma record_finalized_keeps id t s i :
  db_wf (db s) → txs s !! id = Some t →
  i ∈ dom (finalized_pegout_ids (db s)) ∨ (∃ r, r ∈ pegout_requests t ∧ req_id r = i) →
  i ∈ dom (finalized_pegout_ids (record_finalized t (db s))) ∨ expired s i.
Proof.
  intros Hd Hid Hi. destruct (decide (pegout_requests t = [])) as [Hn|Hn].
  { unfold record_finalized. rewrite Hn. simpl. destruct Hi as [?|(r & Hr & _)]; [by left|].
    rewrite Hn in Hr. by apply elem_of_nil in Hr. }
  rewrite elem_of_dom, record_finalized_lookup by done.
  destruct (finalized_pegout_ids (db s) !! i) as [f|] eqn:Hf.
  - simpl. destruct (prune_entry now f) eqn:Hp; [left; by eexists|right]. right. exists f.
    split; [done|]. by apply prune_entry_none.
  - destruct Hi as [Hi|(r & Hr & <-)]; [apply elem_of_dom in Hi as [? ?]; congruence|].
    destruct (head _) as [f|] eqn:Hh; [|by apply head_finalized_none in Hh].
    simpl. apply head_finalized in Hh as (r' & Hr' & Hid' & ->).
    destruct (prune_entry now (finalized_of r')) eqn:Hp; [left; by eexists|right]. left.
    exists r'. split; [by exists id, t|]. split; [done|]. by apply prune_entry_none in Hp.
Qed.

Lemma finalize_tx_safe id : guarantees safe_step (finalize_tx now id).
Proof.
  intros s Hs. rewrite finalize_tx_eq. simpl. destruct (txs s !! id) as [t|] eqn:Hid.
  2: { split.
       - destruct s as [? ? ? ? ? ? ? d]. apply db_wf_put_tracked; [|apply Hs].
         apply delete_own_key. apply Hs.
       - destruct s as [? ? ? ? ? ? ? d]. destruct d. by apply conserves_same. }
  destruct (record_finalized_other t (db s)) as (Hpe & Htr & Hut & Hwf).
  pose proof (Hwf Hs) as Hwf'.
  set (s' := with_db _ _).
  assert (txs s' = delete id (txs s)) as Htx by (by destruct s).
  assert (finalized_pegout_ids (db s') = finalized_pegout_ids (record_finalized t (db s))) as Hfi
    by (subst s'; destruct s; simpl; by destruct (record_finalized t _)).
  assert (pending_pegouts (db s') = pending_pegouts (db s)) as Hpe'
    by (rewrite <-Hpe; subst s'; destruct s; simpl; by destruct (record_finalized t _)).
  assert (∀ r, tracked_request s' r → tracked_request s r) as Htrk.
  { intros r (k & t' & Hk & Hr). rewrite Htx in Hk. apply lookup_delete_Some in Hk as [_ Hk].
    by exists k, t'. }
  assert (txs s' ⊆ txs s) as Hsub by (rewrite Htx; apply delete_subseteq).
  split.
  - subst s'. destruct s. simpl. apply db_wf_put_tracked; [|done].
    apply delete_own_key. apply Hwf'.
  - split; [done| | | |].
    + apply known_mono; [done|by destruct s|]. intros b i Hb. apply known_blocks. by destruct s.
    + intros i [(r & Hr & Hold)|(f & Hf & Hold)]; [left; eauto|].
      rewrite Hfi in Hf. destruct (decide (pegout_requests t = [])) as [Hn|Hn].
      * right. exists f. split; [|done]. unfold record_finalized in Hf. by rewrite Hn in Hf.
      * rewrite record_finalized_lookup in Hf by (done || apply Hs).
        apply bind_Some in Hf as (f0 & _ & Hp). by apply prune_entry_some in Hp.
    + intros i Hi. unfold accounted at 1. rewrite Hfi, Hpe'.
      assert (i ∈ dom (finalized_pegout_ids (db s)) ∨
              (∃ r, r ∈ pegout_requests t ∧ req_id r = i) →
              i ∈ dom (finalized_pegout_ids (record_finalized t (db s))) ∨ expired s i) as Hk
        by (apply (record_finalized_keeps id); [apply Hs|done]).
      destruct Hi as [(r & (k & t' & Hk' & Hr) & <-)|[Hi|Hi]]; [|by auto|].
      * destruct (decide (k = id)) as [->|Hne].
        -- assert (t' = t) as -> by congruence. destruct Hk as [?|?]; eauto.
        -- left. left. exists r. split; [|done]. exists k, t'. rewrite Htx, lookup_delete_ne; done.
      * destruct Hk as [?|?]; eauto.
    + intros o row Ho. left. rewrite <-Hut in Ho. subst s'. destruct s. simpl in *.
      by destruct (record_finalized t _).
Qed.

Context (change_spk_of : PublicKeyPackage → option Script).

(** The steps of a successful finalization. *)
Definition finalize_run (b : BlockInfo) (s s' : PegoutScheduler) : Prop :=
  ∃ ins m s1 s2 s3,
    change_stored (relevant_txs b) (list_to_set (relevant_inputs b)) s
      (get_change_spk change_spk_of s) ins m ∧
    only_utxos m s s1 ∧ inputs_spent (elements ins) s1 s2 ∧
    sfor (relevant_txs b) (finalize_tx now) s2 = (Ok tt, s3) ∧
    s' = with_last_finalized (hash b) s3.

Lemma finalize_loop_ok l s : ∃ s', sfor l (finalize_tx now) s = (Ok tt, s').
Proof.
  eexists. apply (sfor_total _ _ (λ id s, (finalize_tx now id s).2)).
  intros id s1 _. by rewrite finalize_tx_eq.
Qed.

(** When finalizing a block succeeds it went through all its steps; and it is safe,
    seen from an earlier state that knows the block's inputs. *)
Lemma finalize_block_cases b s r s' :
  db_wf (db s) → finalize_block change_spk_of now b s = (r, s') →
  (r = Ok tt → finalize_run b s s') ∧ db_wf (db s') ∧
  ∀ s0, conserves s0 s → (∀ i, i ∈ relevant_inputs b → known_input s0 i) → conserves s0 s'.
Proof.
  intros Hs Heq. unfold finalize_block in Heq. unfold sbind at 1, sget at 1 in Heq.
  set (spk := get_change_spk change_spk_of s) in *.
  assert ((let* all_inputs := store_change spk (relevant_txs b) (list_to_set (relevant_inputs b))
           in sfor (elements all_inputs) spend_input ;;*
              sfor (relevant_txs b) (finalize_tx now) ;;*
              let* s' := sget in
              let* _ := slift (amount_sum ((λ u, value (utxo_output u)) <$>
                          get_all_utxos (db s'))) in
              smodify (with_last_finalized (hash b))) s = (r, s') ∨
          (Panic, s) = (r, s')) as [Heq'|[= <- <-]]; [| |done].
  { unfold sbind at 1 in Heq. destruct spk; [left; exact Heq|left; exact Heq|right; exact Heq]. }
  clear Heq. unfold sbind at 1 in Heq'.
  destruct (store_change spk (relevant_txs b) (list_to_set (relevant_inputs b)) s)
    as [rc s1] eqn:Hsc.
  apply store_change_spec in Hsc as (m & Hm & Hsub & Hins).
  destruct (only_utxos_safe _ _ _ Hm Hsub Hs) as [Hs1 Hc1].
  destruct rc as [ins|e|]; [|injection Heq' as <- <-; split_and!; [done|done|];
    intros s0 Hc _; by etrans..].
  specialize (Hins ins eq_refl). unfold sbind at 1 in Heq'.
  destruct (spend_inputs_eq (elements ins) s1) as (s2 & Hsp & Hs2). rewrite Hsp in Heq'.
  assert (∀ s0, conserves s0 s → (∀ i, i ∈ relevant_inputs b → known_input s0 i) →
    conserves s0 s2) as Hc2.
  { intros s0 Hc Hb. eapply inputs_spent_conserves; [by etrans| |done]. intros i Hi%elem_of_elements.
    apply (cs_inputs _ _ _ _ _ _ Hins) in Hi as [Hi%elem_of_list_to_set|(k & t & _ & Ht & Hi)];
      [by apply Hb|]. apply (cv_known _ _ Hc). left. by exists k, t. }
  unfold sbind at 1 in Heq'. destruct (finalize_loop_ok (relevant_txs b) s2) as [s3 Hf].
  pose proof (guarantees_sfor safe_step (relevant_txs b) (finalize_tx now)
                (λ id _, finalize_tx_safe id) s2) as Hsafe.
  rewrite Hf in Heq', Hsafe. destruct (Hsafe (is_db _ _ _ Hs2 Hs1)) as [Hs3 Hc3].
  unfold sbind, sget, slift in Heq'. destruct (amount_sum _) as [a|e|];
    [|injection Heq' as <- <-; split_and!; [done|done|]; intros s0 Hc Hb;
      etrans; [by apply Hc2|done]..].
  injection Heq' as <- <-. destruct (with_last_finalized_safe (hash b) s3 Hs3) as [Hs4 Hc4].
  split_and!; [|done|].
  - intros _. by exists ins, m, s1, s2, s3.
  - intros s0 Hc Hb. etrans; [by apply Hc2|]. by etrans.
Qed.

(** One finalized transaction. *)
Lemma finalize_tx_effect id s :
  db_wf (db s) →
  let s1 := (finalize_tx now id s).2 in
  (∀ k, txs s1 !! k = if decide (k = id) then None else txs s !! k) ∧
  utxos (db s1) = utxos (db s) ∧ pending_pegouts (db s1) = pending_pegouts (db s) ∧
  (∀ i, i ∈ dom (finalized_pegout_ids (db s)) ∨
        (∃ t r, txs s !! id = Some t ∧ r ∈ pegout_requests t ∧ req_id r = i) →
        i ∈ dom (finalized_pegout_ids (db s1)) ∨ expired s i).
Proof.
  intros Hs s1. subst s1. rewrite finalize_tx_eq. cbn [snd].
  destruct (txs s !! id) as [t|] eqn:Hid.
  - destruct (record_finalized_other t (db s)) as (Hpe & _ & Hut & _). split_and!.
    + intros k. destruct s. simpl in *. case_decide as Hk; [subst; by rewrite lookup_delete_eq|].
      by rewrite lookup_delete_ne.
    + destruct s. simpl in *. rewrite <-Hut. by destruct (record_finalized t _).
    + destruct s. simpl in *. rewrite <-Hpe. by destruct (record_finalized t _).
    + intros i Hi. destruct (record_finalized_keeps id t s i) as [Hk|Hk];
        [done|done| | |by right].
      * destruct Hi as [?|(t' & r & [= <-] & Hr)]; eauto.
      * left. destruct s. simpl in *. by destruct (record_finalized t _).
  - destruct s as [? ? ? ? ? ? ? d]. destruct d. simpl in *. split_and!; try done.
    + intros k. case_decide as Hk; [by subst|done].
    + intros i [Hi|(? & ? & ? & _)]; [by left|done].
Qed.

Lemma finalize_loop_spec l s s' :
  db_wf (db s) → sfor l (finalize_tx now) s = (Ok tt, s') →
  (∀ k, txs s' !! k = if decide (k ∈ l) then None else txs s !! k) ∧
  utxos (db s') = utxos (db s) ∧ pending_pegouts (db s') = pending_pegouts (db s) ∧
  (∀ i, i ∈ dom (finalized_pegout_ids (db s)) →
        i ∈ dom (finalized_pegout_ids (db s')) ∨ expired s i) ∧
  (∀ id t r, id ∈ l → txs s !! id = Some t → r ∈ pegout_requests t →
        req_id r ∈ dom (finalized_pegout_ids (db s')) ∨ expired s (req_id r)).
Proof.
  revert s. induction l as [|id l IH]; intros s Hs Heq.
  - injection Heq as <-. split_and!; try done; [auto|]. by intros ? ? ? ?%elem_of_nil.
  - simpl in Heq. unfold sbind in Heq.
    destruct (finalize_tx_safe id s Hs) as [Hs1 [_ _ Hexp _ _]].
    destruct (finalize_tx_effect id s Hs) as (Htx1 & Hu1 & Hp1 & Hf1).
    rewrite finalize_tx_eq in Heq, Hs1, Hexp, Htx1, Hu1, Hp1, Hf1.
    cbn [snd] in Hs1, Hexp, Htx1, Hu1, Hp1, Hf1.
    set (s1 := match txs s !! id with Some t => _ | None => _ end) in *.
    destruct (IH s1 Hs1 Heq) as (Htx & Hu & Hp & Hfin & Hreq). split_and!.
    + intros k. rewrite Htx, Htx1. repeat case_decide; try done; set_solver.
    + congruence.
    + congruence.
    + intros i Hi. destruct (Hf1 i (or_introl Hi)) as [Hi1|?]; [|by right].
      destruct (Hfin i Hi1); auto.
    + intros id' t r Hin Ht Hr. destruct (decide (id' = id)) as [->|Hne].
      * destruct (Hf1 (req_id r)) as [Hi1|?]; [right; by exists t, r| |by right].
        destruct (Hfin _ Hi1); auto.
      * apply elem_of_cons in Hin as [?|Hin]; [done|].
        assert (txs s1 !! id' = Some t) as Ht1 by (rewrite Htx1; by case_decide).
        destruct (Hreq id' t r Hin Ht1 Hr); auto.
Qed.

Lemma outputs_at_txid {E} t l outs po :
  @outputs_at E t l = Ok outs → po ∈ outs → op_txid po.1 = txid t.
Proof.
  revert outs. induction l as [|i l IH]; intros outs Heq Hpo; simpl in Heq.
  - injection Heq as <-. by apply elem_of_nil in Hpo.
  - rinv Heq. injection Heq as <-. apply elem_of_cons in Hpo as [->|Hpo]; [done|eauto].
Qed.

(** The UTXOs after the change was stored and the inputs were spent. *)
Lemma settled_utxos ids acc s spk ins m :
  change_stored ids acc s spk ins m →
  let m' := foldl (λ m i, delete i m) m (elements ins) in
  (∀ o row, m' !! o = Some row → utxos (db s) !! o = Some row ∨
     ∃ id t outs po, id ∈ ids ∧ txs s !! id = Some t ∧
       @change DbError t = Ok outs ∧ po ∈ outs ∧ o = po.1 ∧ row = change_row po.2) ∧
  (∀ o row, utxos (db s) !! o = Some row → m' !! o = Some row ∨
     o ∈ acc ∨ ∃ id t, id ∈ ids ∧ txs s !! id = Some t ∧ o ∈ inputs_of t).
Proof.
  intros Hcs m'. subst m'. split.
  - intros o row Hrow. assert (m !! o = Some row) as Hm.
    { destruct (decide (o ∈ elements ins)) as [Hi|Hi].
      - by rewrite foldl_delete_None in Hrow.
      - by rewrite foldl_delete_ne in Hrow. }
    apply (cs_new _ _ _ _ _ _ Hcs) in Hm
      as [?|(id & t & outs & po & spk' & Hid & Ht & Hch & Hpo & _ & _ & -> & ->)]; [by left|].
    right. by exists id, t, outs, po.
  - intros o row Hrow. destruct (decide (o ∈ elements ins)) as [Hi|Hi].
    + right. apply elem_of_elements in Hi. by apply (cs_inputs _ _ _ _ _ _ Hcs) in Hi.
    + left. rewrite foldl_delete_ne by done. by apply (cs_keep _ _ _ _ _ _ Hcs).
Qed.

(** The inputs a block finalizes: those it spends of tracked transactions, and
    those of its own tracked transactions. *)
Definition finalized_inputs (b : BlockInfo) (s : PegoutScheduler) : list OutPoint :=
  relevant_inputs b ++ (relevant_txs b ≫= λ id, from_option inputs_of [] (txs s !! id)).
Lemma elem_of_finalized_inputs b s i :
  i ∈ finalized_inputs b s ↔
  i ∈ relevant_inputs b ∨ ∃ id t, id ∈ relevant_txs b ∧ txs s !! id = Some t ∧ i ∈ inputs_of t.
Proof.
  unfold finalized_inputs. rewrite elem_of_app, list_elem_of_bind. split.
  - intros [?|(id & Hi & Hid)]; [by left|right]. destruct (txs s !! id) as [t|] eqn:Ht.
    + by exists id, t.
    + by apply elem_of_nil in Hi.
  - intros [?|(id & t & Hid & Ht & Hi)]; [by left|right]. exists id. by rewrite Ht.
Qed.

(** What a finalized block leaves of the tracked transactions and the coins. *)
Lemma finalize_run_spec b s s' :
  db_wf (db s) → finalize_run b s s' →
  (∀ k, txs s' !! k = if decide (k ∈ relevant_txs b ++ (op_txid <$> finalized_inputs b s))
                      then None else txs s !! k) ∧
  ∃ m ins, change_stored (relevant_txs b) (list_to_set (relevant_inputs b)) s
      (get_change_spk change_spk_of s) ins m ∧ (∀ i, i ∈ ins ↔ i ∈ finalized_inputs b s) ∧
    utxos (db s') = foldl (λ m i, delete i m) m (elements ins) ∧
    pending_pegouts (db s') = pending_pegouts (db s) ∧
    ∀ id t r, id ∈ relevant_txs b → id ∉ op_txid <$> finalized_inputs b s →
      txs s !! id = Some t → r ∈ pegout_requests t →
      req_id r ∈ dom (finalized_pegout_ids (db s')) ∨ expired s (req_id r).
Proof.
  intros Hs (ins & m & s1 & s2 & s3 & Hcs & Hm & [Ht2 Hu2 Hp2 Hf2 _ _ Hd2] & Hf & ->).
  destruct (only_utxos_fields _ _ _ Hm) as (Ht1 & Hu1 & _ & _ & _ & _ & Htrees).
  pose proof (same_trees_wf _ _ Htrees Hs) as Hs1. destruct Htrees as (_ & Hdp & Hdf).
  destruct (finalize_loop_spec _ _ _ (Hd2 Hs1) Hf) as (Ht3 & Hu3 & Hp3 & _ & Hreq).
  assert (∀ i, i ∈ ins ↔ i ∈ finalized_inputs b s) as Hins.
  { intros i. rewrite (cs_inputs _ _ _ _ _ _ Hcs), elem_of_finalized_inputs.
    by rewrite elem_of_list_to_set. }
  assert (∀ k, k ∈ op_txid <$> elements ins ↔ k ∈ op_txid <$> finalized_inputs b s) as Hpar.
  { intros k. rewrite !list_elem_of_fmap. by setoid_rewrite elem_of_elements; setoid_rewrite Hins. }
  assert (∀ k, txs (with_last_finalized (hash b) s3) !! k = txs s3 !! k) as Hlf by (by destruct s3).
  assert (db (with_last_finalized (hash b) s3) = db s3) as Hdb by (by destruct s3).
  split.
  { intros k. rewrite Hlf, Ht3, Ht2, Ht1. specialize (Hpar k).
    repeat case_decide; try done; set_solver. }
  exists m, ins. rewrite Hdb, Hu3, Hu2, Hu1, Hp3, Hp2. split_and!; [done|done|done|done|].
  intros id t r Hid Hnp Ht Hr. destruct (Hreq id t r) as [?|Hexp]; [done| |done|by left|].
  - rewrite Ht2, decide_False, Ht1 by (by rewrite Hpar). done.
  - right. revert Hexp. unfold expired. rewrite Hf2, Hdf.
    intros [(r' & (k & t' & Hk & Hr') & Hold)|?]; [left|by right]. exists r'. split; [|done].
    exists k, t'. split; [|done]. rewrite Ht2, Ht1 in Hk. by case_decide.
Qed.

(** C24. What finalizing a block settles, on success, for any state whose records
    are stored under their own keys.  Every transaction of the block was tracked, and
    no longer is; its inputs leave the UTXO set; its pegouts are recorded as finalized,
    or are past the retention window, unless the block also spends an output of the
    transaction; each of its outputs that pays the change script is a UTXO unless the
    block spends it too.  A tracked transaction that is not in the block stays tracked
    as it was if it shares no input with the block and created none of the block's
    inputs, and no transaction becomes tracked (which of the conflicting transactions
    leave: [double_spent_tx_stays_tracked]).  Pending pegouts are untouched; the UTXO
    set gains nothing but change and loses nothing but finalized inputs; and the block
    is the last finalized one. *)
Theorem finalize_block_settles b s s' :
  db_wf (db s) → finalize_block change_spk_of now b s = (Ok tt, s') →
  last_finalized s' = hash b ∧
  pending_pegouts (db s') = pending_pegouts (db s) ∧
  (∀ k t, txs s' !! k = Some t → txs s !! k = Some t) ∧
  (∀ k t, txs s !! k = Some t → k ∉ relevant_txs b → k ∉ op_txid <$> finalized_inputs b s →
     (∀ i, i ∈ inputs_of t → i ∉ finalized_inputs b s) → txs s' !! k = Some t) ∧
  (∀ id, id ∈ relevant_txs b → txs s' !! id = None ∧ ∃ t, txs s !! id = Some t ∧
     (∀ i, i ∈ inputs_of t → utxos (db s') !! i = None) ∧
     (∀ r, id ∉ op_txid <$> finalized_inputs b s → r ∈ pegout_requests t →
        req_id r ∈ dom (finalized_pegout_ids (db s')) ∨ expired s (req_id r)) ∧
     (∀ outs po spk, @change DbError t = Ok outs → po ∈ outs →
        get_change_spk change_spk_of s = Ok spk → script_pubkey po.2 = spk →
        po.1 ∉ finalized_inputs b s → is_Some (utxos (db s') !! po.1))) ∧
  (∀ o row, utxos (db s') !! o = Some row → utxos (db s) !! o = Some row ∨
     ∃ id t outs po, id ∈ relevant_txs b ∧ txs s !! id = Some t ∧
       @change DbError t = Ok outs ∧ po ∈ outs ∧ o = po.1 ∧ row = change_row po.2) ∧
  (∀ o row, utxos (db s) !! o = Some row →
     utxos (db s') !! o = Some row ∨ o ∈ finalized_inputs b s).
Proof.
  intros Hs Heq.
  destruct (finalize_block_cases b s _ s' Hs Heq) as (Hrun & _). specialize (Hrun eq_refl).
  assert (last_finalized s' = hash b) as Hlf.
  { destruct Hrun as (? & ? & ? & ? & s3 & _ & _ & _ & _ & ->). by destruct s3. }
  destruct (finalize_run_spec b s s' Hs Hrun) as (Htx & m & ins & Hcs & Hins & Hu & Hp & Hreq).
  destruct (settled_utxos _ _ _ _ _ _ Hcs) as [Hgain Hlose]. rewrite Hu, Hp.
  split_and!; [done..| | | |exact Hgain|].
  - intros k t. rewrite Htx. by case_decide.
  - intros k t Hk Hno Hpar _. rewrite Htx, decide_False; [done|]. by rewrite elem_of_app; intros [?|?].
  - intros id Hid. split; [rewrite Htx, decide_True; [done|by apply elem_of_app; left]|].
    pose proof (cs_tracked _ _ _ _ _ _ Hcs) as Htr.
    rewrite Forall_forall in Htr. destruct (Htr id Hid) as [t Ht]. exists t.
    split_and!; [done| |by eauto|].
    + intros i Hi. apply foldl_delete_None, elem_of_elements, Hins, elem_of_finalized_inputs.
      right. by exists id, t.
    + intros outs po spk Hch Hpo Hspk Hscr Hno.
      rewrite foldl_delete_ne; [by eapply (cs_all _ _ _ _ _ _ Hcs)|]. by rewrite elem_of_elements, Hins.
  - intros o row Hrow. rewrite elem_of_finalized_inputs.
    destruct (Hlose o row Hrow) as [?|[Hi%elem_of_list_to_set|?]]; auto.
Qed.

(** ** Syncing *)

Context {HN : Bitcoind}.

(** Lifting a relation on schedulers to the sync state. *)
Definition lifted (T : PegoutScheduler → PegoutScheduler → Prop) (x y : PegoutScheduler * nat)
    : Prop := T x.1 y.1.
#[export] Instance lifted_preorder T : PreOrder T → PreOrder (lifted T).
Proof.
  intros [Hr Ht]. split.
  - intros x. apply Hr.
  - intros x y z. apply Ht.
Qed.

Lemma guarantees_on_scheduler T {A} (m : SM PegoutScheduler DbError A) :
  guarantees T m → guarantees (lifted T) (on_scheduler m).
Proof.
  intros Hm. unfold on_scheduler. apply guarantees_zoom. intros [s n] x <-. unfold lifted. simpl.
  unfold smap_err. specialize (Hm s). by destruct (m s).
Qed.
Lemma guarantees_call T `{!PreOrder T} {A} (f : nat → result RpcError A) :
  guarantees (lifted T) (call f).
Proof. intros [s n]. unfold lifted. simpl. reflexivity. Qed.
Lemma guarantees_rpc T `{!PreOrder T} {A} (f : nat → result RpcError A) :
  guarantees (lifted T) (rpc f).
Proof.
  unfold rpc. apply guarantees_bind; [apply _|by apply guarantees_call|].
  intros r. apply guarantees_lift, _.
Qed.
#[local] Hint Resolve guarantees_on_scheduler guarantees_call guarantees_rpc : macbeth.
#[local] Hint Resolve rollback_tip_safe add_block_safe : macbeth.

(** The one step that changes the scheduler when looking for dropped
    transactions. *)
Lemma check_dropped_cases cp id s n r s' n' :
  check_dropped cp id (s, n) = (r, (s', n')) →
  s' = s ∨ ∃ t, txs s !! id = Some t ∧
    s' = ((un_track_tx id ;;* add_tx_back_to_pending t) s).2.
Proof.
  unfold check_dropped, sbind at 1, call.
  destruct (get_raw_transaction_info n id) as [[b|]|e|].
  - unfold rpc, sbind, call, slift, sret. destruct (get_block_info (S n) b); simpl;
      intros [= <- <- <-]; by left.
  - intros [= <- <- <-]. by left.
  - unfold sbind at 1, sget. unfold sbind at 1, slift. cbn [fst].
    destruct (txs s !! id) as [t|] eqn:Hid; cbn [expect]; [|intros [= <- <- <-]; by left].
    unfold sbind at 1. destruct (get_mempool_entry (S n) id) as [[]|e'|];
      [intros [= <- <- <-]; by left| |intros [= <- <- <-]; by left].
    destruct (not_in_mempool e'); [|intros [= <- <- <-]; by left].
    intros Heq. right. exists t. split; [done|]. revert Heq.
    unfold sbind, on_scheduler, zoom, smap_err. cbn [fst snd].
    destruct (un_track_tx id s) as [[u|e1|] s1]; cbn; [|by intros [= <- <- <-]..].
    destruct (add_tx_back_to_pending t s1) as [[u'|e1|] s2]; cbn; by intros [= <- <- <-].
  - unfold sbind at 1, sget. unfold sbind at 1, slift. cbn [fst].
    destruct (txs s !! id) as [t|] eqn:Hid; cbn [expect]; [|intros [= <- <- <-]; by left].
    unfold sbind at 1. destruct (get_mempool_entry (S n) id) as [[]|e'|];
      [intros [= <- <- <-]; by left| |intros [= <- <- <-]; by left].
    destruct (not_in_mempool e'); [|intros [= <- <- <-]; by left].
    intros Heq. right. exists t. split; [done|]. revert Heq.
    unfold sbind, on_scheduler, zoom, smap_err. cbn [fst snd].
    destruct (un_track_tx id s) as [[u|e1|] s1]; cbn; [|by intros [= <- <- <-]..].
    destruct (add_tx_back_to_pending t s1) as [[u'|e1|] s2]; cbn; by intros [= <- <- <-].
Qed.

Lemma check_dropped_safe cp id : guarantees (lifted safe_step) (check_dropped cp id).
Proof.
  intros [s n]. destruct (check_dropped cp id (s, n)) as [r [s' n']] eqn:Heq.
  unfold lifted. cbn [fst snd]. apply check_dropped_cases in Heq as [->|(t & Hid & ->)];
    [reflexivity|].
  by apply requeue_safe.
Qed.

#[local] Hint Resolve check_dropped_safe : macbeth.

Lemma track_mempool_safe cp : guarantees (lifted safe_step) (track_mempool cp).
Proof.
  unfold track_mempool. guarantees_tac.
Qed.

(** Popping the deepest block and finalizing it. *)
Lemma finalize_deepest_safe deep rest s :
  last_blocks s = deep :: rest →
  safe_step s ((smodify (with_blocks rest) ;;* finalize_block change_spk_of now deep) s).2.
Proof.
  intros Hl Hs. unfold sbind, smodify.
  destruct (with_blocks_safe rest s) as [Hs1 Hc1]; [by rewrite Hl; right|done|].
  destruct (finalize_block change_spk_of now deep (with_blocks rest s)) as [r s'] eqn:Heq.
  apply finalize_block_cases in Heq as (_ & Hs' & Hc'); [|done]. split; [done|].
  apply Hc'; [done|]. intros i. apply known_blocks. rewrite Hl. left.
Qed.

Lemma on_scheduler_seq {A} (m : SM PegoutScheduler DbError ()) (k : SM PegoutScheduler DbError A) x :
  (on_scheduler m ;;* on_scheduler k) x = on_scheduler (m ;;* k) x.
Proof.
  unfold sbind, on_scheduler, zoom, smap_err. destruct x as [s n]. simpl.
  destruct (m s) as [[[]|e|] s1]; simpl; [|done..]. by destruct (k s1).
Qed.

Lemma sync_block_safe h : guarantees (lifted safe_step) (sync_block change_spk_of now h).
Proof.
  unfold sync_block.
  do 3 (apply guarantees_bind; [apply _|guarantees_tac|intros ?]).
  intros x. unfold sbind at 1, sget.
  destruct (last_blocks x.1) as [|deep rest] eqn:Hl; [unfold lifted; simpl; reflexivity|].
  destruct (conf_window x.1 <? _); [|unfold lifted; simpl; reflexivity].
  rewrite on_scheduler_seq. pose proof (finalize_deepest_safe deep rest x.1 Hl) as Hsafe.
  unfold on_scheduler, zoom, smap_err, lifted.
  by destruct ((smodify (with_blocks rest);;* finalize_block change_spk_of now deep) x.1).
Qed.
#[local] Hint Resolve track_mempool_safe sync_block_safe : macbeth.

Lemma rollback_loop_safe fuel : guarantees (lifted safe_step) (rollback_loop fuel).
Proof. induction fuel as [|fuel IH]; simpl; guarantees_tac. Qed.
#[local] Hint Resolve rollback_loop_safe : macbeth.

Lemma find_tip_safe fuel : guarantees (lifted safe_step) (find_tip fuel).
Proof. induction fuel as [|fuel IH]; simpl; guarantees_tac. Qed.

Lemma collect_to_sync_safe fuel last cursor acc :
  guarantees (lifted safe_step) (collect_to_sync fuel last cursor acc).
Proof. revert cursor acc. induction fuel as [|fuel IH]; simpl; guarantees_tac. Qed.

Lemma sync_blocks_safe cp l : guarantees (lifted safe_step) (sync_blocks change_spk_of now cp l).
Proof. induction l as [|h l IH]; simpl; guarantees_tac. Qed.
#[local] Hint Resolve find_tip_safe collect_to_sync_safe sync_blocks_safe : macbeth.

Lemma sync_until_safe fuel checkpoint :
  guarantees (lifted safe_step) (sync_until change_spk_of now fuel checkpoint).
Proof. unfold sync_until, is_syncing. guarantees_tac. Qed.

(** C3. What a sync may lose.  Whatever bitcoind answers to each call (errors,
    moving tips, reorgs, dropped transactions), however the sync ends (success,
    error or panic) and however often its loops retry, from any scheduler whose
    records are stored under their own keys: every pegout that was tracked, pending
    or finalized before is tracked, pending or finalized after, unless its record is
    older than the retention window, or it is requested by a tracked transaction one
    of whose outputs an input the scheduler knows of spends (finalizing that input
    drops the transaction together with its requests); and every UTXO stays as it
    is, unless it is an input of a tracked transaction, indexed, or seen spent in
    the block window.  Records stay under their own keys. *)
Theorem sync_loses_no_pegout fuel checkpoint s n :
  db_wf (db s) →
  let s' := (sync_until change_spk_of now fuel checkpoint (s, n)).2.1 in
  db_wf (db s') ∧
  (∀ i, accounted s i → accounted s' i ∨ expired s i ∨ chained s i) ∧
  (∀ o row, utxos (db s) !! o = Some row → utxos (db s') !! o = Some row ∨ known_input s o).
Proof.
  intros Hs. destruct (sync_until_safe fuel checkpoint (s, n) Hs) as [Hs' [_ _ _ Hp Hu]].
  split_and!; [exact Hs'|exact Hp|exact Hu].
Qed.

(** ** The block window *)

Definition same_blocks (s s' : PegoutScheduler) : Prop :=
  conf_window s' = conf_window s ∧ last_blocks s' = last_blocks s.
#[export] Instance same_blocks_preorder : PreOrder same_blocks.
Proof. split; [done|]. intros s1 s2 s3. unfold same_blocks. intuition congruence. Qed.

(** Between 1 and [conf_window] blocks, unless it started with more. *)
Definition window_step (s s' : PegoutScheduler) : Prop :=
  conf_window s' = conf_window s ∧
  (1 ≤ conf_window s → last_blocks s ≠ [] →
   last_blocks s' ≠ [] ∧
   Z.of_nat (length (last_blocks s')) ≤ Z.max (Z.of_nat (length (last_blocks s))) (conf_window s)).
#[export] Instance window_step_preorder : PreOrder window_step.
Proof.
  split; [split; [done|]; intros; split; [done|lia]|].
  intros s1 s2 s3 [Hw1 H12] [Hw2 H23]. split; [congruence|]. intros Hw Hn.
  destruct (H12 Hw Hn) as [Hn2 Hl2]. rewrite Hw1 in H23. destruct (H23 Hw Hn2) as [Hn3 Hl3].
  split; [done|lia].
Qed.
Lemma same_blocks_window s s' : same_blocks s s' → window_step s s'.
Proof. unfold window_step. intros [-> ->]. split; [done|]. intros. split; [done|lia]. Qed.

Ltac same_blocks_tac :=
  guarantees_tac; try (apply guarantees_modify; by intros []); try (by intros []).

Lemma un_track_same_blocks id : guarantees same_blocks (un_track_tx id).
Proof. unfold un_track_tx, modify_db. same_blocks_tac. Qed.
Lemma add_back_same_blocks t : guarantees same_blocks (add_tx_back_to_pending t).
Proof.
  unfold add_tx_back_to_pending, on_db. apply guarantees_zoom. intros s d _. by destruct s.
Qed.
#[local] Hint Resolve un_track_same_blocks add_back_same_blocks : macbeth.
Lemma rollback_tx_same_blocks id : guarantees same_blocks (rollback_tx id).
Proof. unfold rollback_tx. same_blocks_tac. Qed.
Lemma store_change_same_blocks spk ids acc : guarantees same_blocks (store_change spk ids acc).
Proof.
  revert acc. induction ids as [|id ids IH]; intros acc; cbn [store_change]; unfold modify_db;
    same_blocks_tac.
Qed.
Lemma spend_input_same_blocks i : guarantees same_blocks (spend_input i).
Proof. unfold spend_input, modify_db. same_blocks_tac. Qed.
Lemma finalize_tx_same_blocks id : guarantees same_blocks (finalize_tx now id).
Proof. unfold finalize_tx, modify_db. same_blocks_tac. Qed.
#[local] Hint Resolve rollback_tx_same_blocks store_change_same_blocks spend_input_same_blocks
  finalize_tx_same_blocks : macbeth.
Lemma finalize_block_same_blocks b : guarantees same_blocks (finalize_block change_spk_of now b).
Proof. unfold finalize_block. same_blocks_tac. Qed.

Lemma rollback_tip_eq s :
  rollback_tip s =
  match reverse (last_blocks s) with
  | [] => (Panic, s)
  | dropped :: rest =>
      sfor (relevant_txs dropped) rollback_tx (with_blocks (reverse rest) s)
  end.
Proof. unfold rollback_tip, sbind, sget, slift, smodify. by destruct (reverse _). Qed.

Lemma rollback_tip_blocks s :
  conf_window (rollback_tip s).2 = conf_window s ∧
  last_blocks (rollback_tip s).2 = take (length (last_blocks s) - 1) (last_blocks s).
Proof.
  rewrite rollback_tip_eq. destruct (reverse (last_blocks s)) as [|b rest] eqn:Hrev;
    apply (f_equal reverse) in Hrev; rewrite reverse_involutive in Hrev.
  - simpl. by rewrite Hrev.
  - rewrite reverse_cons in Hrev.
    assert (guarantees same_blocks (sfor (relevant_txs b) rollback_tx)) as Hg
      by (apply guarantees_sfor; [apply _|auto with macbeth]).
    destruct (Hg (with_blocks (reverse rest) s)) as [-> ->]. rewrite Hrev, length_app. simpl.
    rewrite Nat.add_sub, take_app_length. by destruct s.
Qed.

Lemma rpc_eq {A} (f : nat → result RpcError A) s n :
  rpc f (s, n) = (map_err Rpc (f n), (s, S n)).
Proof. done. Qed.

Lemma rollback_loop_window fuel : guarantees (lifted window_step) (rollback_loop fuel).
Proof.
  induction fuel as [|fuel IH]; [apply guarantees_lift, _|]. intros [s n]. cbn [rollback_loop].
  unfold sbind at 1, sget. unfold sbind at 1, slift. cbn [fst].
  destruct (last (last_blocks s)) as [lb|]; cbn [expect]; [|unfold lifted; simpl; reflexivity].
  unfold sbind at 1. rewrite rpc_eq.
  destruct (map_err _ _) as [hd|e|]; [|unfold lifted; simpl; reflexivity..].
  destruct (0 <? h_confirmations hd); [unfold lifted; simpl; reflexivity|].
  destruct (Nat.eqb_spec (length (last_blocks s)) 1) as [Hl|Hl];
    [unfold lifted; simpl; reflexivity|].
  unfold sbind. unfold on_scheduler, zoom, smap_err. cbn [fst snd].
  destruct (rollback_tip_blocks s) as [Hw Hb].
  destruct (rollback_tip s) as [r s1]. simpl in Hw, Hb.
  assert (window_step s s1) as Hs1.
  { split; [done|]. rewrite Hb. intros _ Hne. rewrite length_take. split; [|lia].
    destruct (last_blocks s) as [|b1 [|b2 l]]; [done|done|]. simpl. by destruct l. }
  destruct r as [[]|e|]; cbn [map_err]; [|exact Hs1..].
  transitivity (s1, S n); [exact Hs1|apply IH].
Qed.

Lemma add_block_blocks b s r s' :
  add_block b s = (r, s') →
  conf_window s' = conf_window s ∧
  (last_blocks s' = last_blocks s ∧ r ≠ Ok tt ∨
   ∃ bi, last_blocks s' = last_blocks s ++ [bi] ∧ r = Ok tt).
Proof.
  unfold add_block, sbind at 1, sget. unfold sbind at 1, slift.
  destruct (last (last_blocks s)) as [lb|]; cbn [expect]; [|intros [= <- <-]; auto].
  unfold sbind at 1. destruct (bool_decide _); cbn [rassert]; [|intros [= <- <-]; auto].
  destruct (scan_block s (txdata b)) as [ids ins]. unfold sbind, smodify. intros [= <- <-].
  destruct s. simpl. split; [done|]. right. by eexists.
Qed.

Lemma sync_block_window h : guarantees (lifted window_step) (sync_block change_spk_of now h).
Proof.
  intros [s n]. unfold sync_block, sbind at 1. rewrite rpc_eq.
  destruct (map_err _ _) as [hd|e|]; [|unfold lifted; simpl; reflexivity..].
  unfold sbind at 1. rewrite rpc_eq.
  destruct (map_err _ _) as [b|e|]; [|unfold lifted; simpl; reflexivity..].
  unfold sbind at 1. unfold on_scheduler at 1, zoom, smap_err. cbn [fst snd].
  destruct (add_block b s) as [r s1] eqn:Hadd. apply add_block_blocks in Hadd as [Hw Hcase].
  destruct Hcase as [[Hl Hr]|(bi & Hl & ->)].
  { assert (lifted window_step (s, n) (s1, S (S n))) as Hstep
      by (by apply same_blocks_window).
    destruct r as [[]|e|]; [done|exact Hstep..]. }
  cbn [map_err]. unfold sbind at 1, sget. cbn [fst]. rewrite Hl.
  destruct (last_blocks s ++ [bi]) as [|deep rest] eqn:Hlr.
  { by apply app_nil in Hlr as [_ ?]. }
  assert (S (length (last_blocks s)) = length (deep :: rest)) as Hlen.
  { rewrite <-Hlr, length_app. simpl. lia. }
  destruct (Z.ltb_spec (conf_window s1) (Z.of_nat (length (deep :: rest)))) as [Hlt|Hge].
  - rewrite on_scheduler_seq. unfold on_scheduler, zoom, smap_err, sbind, smodify. cbn [fst snd].
    pose proof (finalize_block_same_blocks deep (with_blocks rest s1)) as [Hw2 Hl2].
    destruct (finalize_block change_spk_of now deep (with_blocks rest s1)) as [r2 s2].
    cbn [snd] in Hw2, Hl2. unfold lifted. cbn [fst snd]. split; [destruct s1; simpl in *; congruence|].
    assert (last_blocks s2 = rest) as -> by (rewrite Hl2; by destruct s1).
    intros Hpos Hne. simpl in Hlen. split; [|lia]. intros ->. simpl in Hlen.
    destruct (last_blocks s); [done|simpl in *; lia].
  - unfold lifted. simpl. split; [done|]. rewrite Hl, <-Hw. intros _ _. split; [done|]. lia.
Qed.

Lemma guarantees_weaken {S E A} (T1 T2 : S → S → Prop) (m : SM S E A) :
  (∀ s s', T1 s s' → T2 s s') → guarantees T1 m → guarantees T2 m.
Proof. intros HT Hm s. by apply HT. Qed.
Lemma check_dropped_same_blocks cp id : guarantees (lifted same_blocks) (check_dropped cp id).
Proof. unfold check_dropped. guarantees_tac. Qed.
#[local] Hint Resolve check_dropped_same_blocks : macbeth.
Lemma track_mempool_window cp : guarantees (lifted window_step) (track_mempool cp).
Proof.
  apply (guarantees_weaken (lifted same_blocks)).
  - intros x y. apply same_blocks_window.
  - unfold track_mempool. guarantees_tac.
Qed.
#[local] Hint Resolve rollback_loop_window sync_block_window track_mempool_window : macbeth.

Lemma find_tip_window fuel : guarantees (lifted window_step) (find_tip fuel).
Proof. induction fuel as [|fuel IH]; simpl; guarantees_tac. Qed.
Lemma collect_to_sync_window fuel last cursor acc :
  guarantees (lifted window_step) (collect_to_sync fuel last cursor acc).
Proof. revert cursor acc. induction fuel as [|fuel IH]; simpl; guarantees_tac. Qed.
Lemma sync_blocks_window cp l :
  guarantees (lifted window_step) (sync_blocks change_spk_of now cp l).
Proof. induction l as [|h l IH]; simpl; guarantees_tac. Qed.
#[local] Hint Resolve find_tip_window collect_to_sync_window sync_blocks_window : macbeth.

(** The block window is never empty and never outgrows the confirmation
    window: with a window of at least one block, no sync, however it ends and
    whatever bitcoind answers, empties the list of known blocks (whose last
    element the code takes for granted) or makes it longer than the larger of
    the confirmation window and what it was. *)
Theorem sync_window_bounded fuel checkpoint s n :
  1 ≤ conf_window s → last_blocks s ≠ [] →
  let s' := (sync_until change_spk_of now fuel checkpoint (s, n)).2.1 in
  conf_window s' = conf_window s ∧ last_blocks s' ≠ [] ∧
  Z.of_nat (length (last_blocks s')) ≤ Z.max (Z.of_nat (length (last_blocks s))) (conf_window s).
Proof.
  intros Hw Hne.
  assert (guarantees (lifted window_step) (sync_until change_spk_of now fuel checkpoint)) as Hg
    by (unfold sync_until, is_syncing; guarantees_tac).
  destruct (Hg (s, n)) as [Hw' Hb]. split; [exact Hw'|]. by apply Hb.
Qed.

(** ** Rolling back a reorg *)

(** Rolling back transactions that are all tracked succeeds and re-queues them. *)
Lemma delete_decide_cons {K V} `{Countable K} (m : gmap K V) id l k :
  (if decide (k ∈ l) then None else delete id m !! k) =
  if decide (k ∈ id :: l) then None else m !! k.
Proof.
  destruct (decide (k = id)) as [->|Hne].
  - rewrite lookup_delete_eq, (decide_True (P := id ∈ id :: l)) by left. by case_decide.
  - rewrite lookup_delete_ne by done. destruct (decide (k ∈ l)) as [Hk|Hk].
    + by rewrite decide_True by (by right).
    + rewrite decide_False; [done|]. by intros [?|?]%elem_of_cons.
Qed.

Lemma rollback_txs_ok l s :
  db_wf (db s) → map_Forall (λ _, tx_ok) (txs s) → NoDup l →
  Forall (λ id, is_Some (txs s !! id)) l →
  ∃ s', sfor l rollback_tx s = (Ok tt, s') ∧ db_wf (db s') ∧
    (∀ k, txs s' !! k = if decide (k ∈ l) then None else txs s !! k) ∧
    last_blocks s' = last_blocks s ∧
    dom (pending_pegouts (db s)) ⊆ dom (pending_pegouts (db s')) ∧
    (∀ id t r, id ∈ l → txs s !! id = Some t → r ∈ pegout_requests t →
       req_id r ∈ dom (pending_pegouts (db s'))).
Proof using HHL.
  clear now_nonneg now change_spk_of HN.
  revert s. induction l as [|id l IH]; intros s Hs Hok Hnd Hl.
  - exists s. split_and!; try done. by intros ? ? ? ?%elem_of_nil.
  - apply NoDup_cons in Hnd as [Hid Hnd]. apply Forall_cons in Hl as [[t Ht] Hl].
    destruct (rollback_tx_eq id t s Hs (Hok _ _ Ht) Ht) as (s1 & Heq & Hrq).
    pose proof (rq_db _ _ _ _ Hrq) as Hs1.
    assert (txs s1 = delete id (txs s)) as Htx1
      by (rewrite (rq_txs _ _ _ _ Hrq); by destruct s).
    assert (dom (pending_pegouts (db s1)) = dom (pending_pegouts (db s)) ∪
            list_to_set (req_id <$> pegout_requests t)) as Hp1
      by (rewrite (rq_pending _ _ _ _ Hrq); by destruct s).
    assert (last_blocks s1 = last_blocks s) as Hb1
      by (rewrite (rq_blocks _ _ _ _ Hrq); by destruct s).
    destruct (IH s1 Hs1) as (s' & Heq' & Hs' & Htx & Hb & Hp & Hreq); [|done| |].
    { rewrite Htx1. by apply map_Forall_delete. }
    { eapply Forall_impl; [apply Forall_and; split; [exact Hl|apply Forall_forall; exact (λ x Hx, Hx)]|].
      simpl. intros k [Hk Hkl]. rewrite Htx1, lookup_delete_ne; [done|]. by intros ->. }
    exists s'. split_and!; [|done| |congruence|set_solver|].
    + simpl. unfold sbind. by rewrite Heq.
    + intros k. rewrite Htx, Htx1. apply delete_decide_cons.
    + intros id' t' r Hin Ht' Hr. apply elem_of_cons in Hin as [->|Hin].
      * assert (t' = t) as -> by congruence. apply Hp. rewrite Hp1.
        apply elem_of_union_r, elem_of_list_to_set, list_elem_of_fmap. by exists r.
      * apply (Hreq id' t' r Hin); [|done]. rewrite Htx1, lookup_delete_ne; [done|].
        by intros ->.
Qed.

Lemma rollback_tip_ok l b s :
  db_wf (db s) → map_Forall (λ _, tx_ok) (txs s) → last_blocks s = l ++ [b] →
  NoDup (relevant_txs b) →
  Forall (λ id, is_Some (txs s !! id)) (relevant_txs b) →
  ∃ s', rollback_tip s = (Ok tt, s') ∧ db_wf (db s') ∧ last_blocks s' = l ∧
    (∀ k, txs s' !! k = if decide (k ∈ relevant_txs b) then None else txs s !! k) ∧
    dom (pending_pegouts (db s)) ⊆ dom (pending_pegouts (db s')) ∧
    (∀ id t r, id ∈ relevant_txs b → txs s !! id = Some t → r ∈ pegout_requests t →
       req_id r ∈ dom (pending_pegouts (db s'))).
Proof using HHL.
  intros Hs Hok Hl Hnd Htr. rewrite rollback_tip_eq, Hl, reverse_snoc, reverse_involutive.
  destruct (rollback_txs_ok (relevant_txs b) (with_blocks l s))
    as (s' & Heq & Hs' & Htx & Hb & Hp & Hreq); [by destruct s|by destruct s|done|by destruct s|].
  exists s'. split; [done|]. split; [done|]. destruct s. simpl in *. by split_and!.
Qed.

(** One round of the search: stop at a confirmed block, or drop the last one. *)
Lemma rollback_loop_step hdr l b s n fuel :
  last_blocks s = l ++ [b] → (∀ n h, get_block_header_info n h = Ok (hdr h)) →
  rollback_loop (S fuel) (s, n) =
  if 0 <? h_confirmations (hdr (hash b)) then (Ok (hdr (hash b)), (s, S n))
  else if (length l =? 0)%nat then (Err DeepReorg, (s, S n))
  else match rollback_tip s with
       | (Ok _, s1) => rollback_loop fuel (s1, S n)
       | (Err e, s1) => (Err (SyncDb e), (s1, S n))
       | (Panic, s1) => (Panic, (s1, S n))
       end.
Proof.
  intros Hl Hhdr. cbn [rollback_loop]. unfold sbind at 1, sget. unfold sbind at 1, slift.
  cbn [fst]. rewrite Hl, last_snoc. cbn [expect]. unfold sbind at 1. rewrite rpc_eq, Hhdr.
  cbn [map_err]. destruct (0 <? _); [done|]. rewrite length_app. cbn [length].
  rewrite (Nat.add_1_r (length l)). cbn [Nat.eqb]. destruct (length l =? 0)%nat; [done|].
  unfold sbind, on_scheduler, zoom, smap_err. cbn [fst snd].
  by destruct (rollback_tip s) as [[[]|e|] s1].
Qed.

(** A reorg is undone exactly.  When the node reports the blocks [bad] at
    the end of the window as no longer in its chain and the block before them as
    confirmed, and their transactions are tracked, the search (with as much fuel
    as there are known blocks) stops at that block: the known blocks are those up
    to it, every pegout transaction of the dropped blocks is untracked, its
    pegouts are pending again, what was pending stays pending, and nothing else
    is untracked. *)
Theorem rollback_undoes_reorg hdr l good bad s n :
  db_wf (db s) → map_Forall (λ _, tx_ok) (txs s) → last_blocks s = l ++ [good] ++ bad →
  (∀ n h, get_block_header_info n h = Ok (hdr h)) →
  0 < h_confirmations (hdr (hash good)) →
  Forall (λ b, h_confirmations (hdr (hash b)) ≤ 0) bad →
  NoDup (bad ≫= relevant_txs) → Forall (λ id, is_Some (txs s !! id)) (bad ≫= relevant_txs) →
  ∃ s' n', rollback_loop (length (last_blocks s)) (s, n) = (Ok (hdr (hash good)), (s', n')) ∧
    db_wf (db s') ∧ last_blocks s' = l ++ [good] ∧
    (∀ k, txs s' !! k = if decide (k ∈ bad ≫= relevant_txs) then None else txs s !! k) ∧
    dom (pending_pegouts (db s)) ⊆ dom (pending_pegouts (db s')) ∧
    (∀ id t r, id ∈ bad ≫= relevant_txs → txs s !! id = Some t → r ∈ pegout_requests t →
       req_id r ∈ dom (pending_pegouts (db s'))).
Proof using HHL HN.
  clear now_nonneg now change_spk_of.
  intros Hs Hok Hl Hhdr Hgood. rewrite Hl.
  assert (∃ k, length (l ++ [good] ++ bad) = (length bad + S k)%nat) as [fuel ->].
  { exists (length l). rewrite !length_app. simpl. lia. }
  revert s n Hs Hok Hl. induction bad as [|b bad IH] using rev_ind; intros s n Hs Hok Hl Hbad Hnd Htr.
  - exists s, (S n). cbn [length Nat.add]. rewrite app_nil_r in Hl.
    rewrite (rollback_loop_step hdr l good) by done. rewrite (proj2 (Z.ltb_lt _ _)) by done.
    split_and!; try done. by intros ? ? ? ?%elem_of_nil.
  - rewrite bind_app in Hnd, Htr |- *. simpl in Hnd, Htr |- *. rewrite app_nil_r in Hnd, Htr |- *.
    apply NoDup_app in Hnd as (Hnd1 & Hdisj & Hnd2). apply Forall_app in Htr as [Htr1 Htr2].
    apply Forall_app in Hbad as [Hbad Hb]. apply Forall_cons in Hb as [Hb _].
    assert (last_blocks s = (l ++ [good] ++ bad) ++ [b]) as Hl' by (by rewrite Hl, <-!app_assoc).
    destruct (rollback_tip_ok _ b s Hs Hok Hl' Hnd2 Htr2) as (s1 & Heq1 & Hs1 & Hb1 & Htx1 & Hp1 & Hr1).
    assert (∀ k, k ∈ bad ≫= relevant_txs → txs s1 !! k = txs s !! k) as Hsame.
    { intros k Hk. rewrite Htx1, decide_False; [done|]. by apply Hdisj. }
    destruct (IH s1 (S n) Hs1) as (s' & n' & Heq & Hs' & Hbl & Htx & Hp & Hreq); [|done..| |].
    { intros k t Hk. rewrite Htx1 in Hk. case_decide; [done|]. by apply (Hok k). }
    { apply Forall_forall. intros k Hk. rewrite Hsame by done.
      rewrite Forall_forall in Htr1. by apply Htr1. }
    exists s', n'. split_and!; [|done|done| |by etrans|].
    + rewrite length_app, Nat.add_1_r. cbn [Nat.add].
      rewrite (rollback_loop_step hdr _ b) by done. rewrite (proj2 (Z.ltb_ge _ _)) by lia.
      rewrite (proj2 (Nat.eqb_neq _ _)) by (rewrite !length_app; simpl; lia). by rewrite Heq1.
    + intros k. rewrite Htx. destruct (decide (k ∈ bad ≫= relevant_txs)) as [Hk|Hk].
      * rewrite decide_True; [done|]. apply elem_of_app. by left.
      * rewrite Htx1. destruct (decide (k ∈ relevant_txs b)) as [Hk'|Hk'].
        -- rewrite decide_True; [done|]. apply elem_of_app. by right.
        -- rewrite decide_False; [done|]. by intros [?|?]%elem_of_app.
    + intros id t r [Hid|Hid]%elem_of_app Ht Hr; [|by apply Hp; eauto].
      apply (Hreq id t r); [done| |done]. by rewrite Hsame.
Qed.

(** ** Walking down the chain *)

(** [linked h hs]: the headers [hs] follow [h] in the node's chain, each one's
    parent being known to the node. *)
Fixpoint linked (h : BlockHeader) (hs : list BlockHeader) : Prop :=
  match hs with
  | [] => True
  | h' :: hs' =>
      (∀ n, get_block_header_info n (h_hash h) = Ok h) ∧
      h_previous_block_hash h' = Some (h_hash h) ∧ h_height h' = h_height h + 1 ∧ linked h' hs'
  end.

Lemma linked_app h hs1 h' hs2 :
  linked h (hs1 ++ h' :: hs2) →
  let p := default h (last hs1) in
  (∀ n, get_block_header_info n (h_hash p) = Ok p) ∧ h_previous_block_hash h' = Some (h_hash p) ∧
  h_height p = h_height h + Z.of_nat (length hs1).
Proof using HN.
  revert h. induction hs1 as [|h1 hs1 IH]; intros h Hl; simpl in Hl.
  - destruct Hl as (Hn & Hp & Hh & _). simpl. split_and!; [done|done|lia].
  - destruct Hl as (_ & _ & Hh & Hl). apply IH in Hl as (Hn & Hp & Hht).
    assert (default h (last (h1 :: hs1)) = default h1 (last hs1)) as ->.
    { destruct hs1 using rev_ind; [done|]. change (h1 :: hs1 ++ [x]) with ((h1 :: hs1) ++ [x]).
      by rewrite !last_snoc. }
    simpl. split_and!; [done|done|]. cbn [length]. lia.
Qed.

Lemma collect_to_sync_eq fuel lst hs1 cursor hs2 s n :
  linked lst (hs1 ++ cursor :: hs2) → (length hs1 < fuel)%nat →
  ∃ n', collect_to_sync fuel lst cursor (h_hash <$> cursor :: hs2) (s, n) =
        (Ok (h_hash <$> hs1 ++ cursor :: hs2), (s, n')).
Proof using HN.
  revert fuel cursor hs2 n. induction hs1 as [|h' hs1 IH] using rev_ind;
    intros fuel cursor hs2 n Hl Hf; destruct fuel as [|fuel]; try lia.
  - destruct (linked_app _ _ _ _ Hl) as (Hn & Hp & Hh). simpl in Hn, Hp, Hh.
    exists (S n). cbn [collect_to_sync]. unfold sbind at 1, slift. rewrite Hp. cbn [expect].
    unfold sbind at 1. rewrite rpc_eq, Hn. cbn [map_err]. rewrite Z.eqb_refl.
    unfold sbind. by rewrite bool_decide_eq_true_2.
  - destruct (linked_app _ _ _ _ Hl) as (Hn & Hp & Hh). rewrite last_snoc in Hn, Hp, Hh.
    simpl in Hn, Hp, Hh. rewrite <-app_assoc in Hl. rewrite length_app in Hh, Hf. simpl in Hh, Hf.
    destruct (IH fuel h' (cursor :: hs2) (S n) Hl ltac:(lia)) as (n' & Heq).
    exists n'. cbn [collect_to_sync]. unfold sbind at 1, slift. rewrite Hp. cbn [expect].
    unfold sbind at 1. rewrite rpc_eq, Hn. cbn [map_err].
    rewrite (proj2 (Z.eqb_neq _ _)) by lia. rewrite <-app_assoc. exact Heq.
Qed.

(** The walk from the tip terminates and finds exactly the missing blocks:
    when the node's chain leads from the last known block through [hs] up to the
    tip, the walk, with as much fuel as there are missing blocks, returns their
    hashes, oldest first, and changes nothing. *)
Theorem collect_to_sync_finds_chain fuel lst hs tip s n :
  linked lst (hs ++ [tip]) → (length hs < fuel)%nat →
  ∃ n', collect_to_sync fuel lst tip [h_hash tip] (s, n) =
        (Ok (h_hash <$> hs ++ [tip]), (s, n')).
Proof using HN. apply (collect_to_sync_eq fuel lst hs tip []). Qed.

(** What a successful sync means: either the checkpoint is the last
    finalized block, or the node's tip already was the last known block (after
    undoing reorgs), in which case the sync returns without looking at the
    checkpoint. *)
Theorem sync_success_means fuel checkpoint s n s' n' :
  sync_until change_spk_of now fuel checkpoint (s, n) = (Ok tt, (s', n')) →
  last_finalized s' = checkpoint ∨
  ∃ lst tip n1, find_tip fuel (s, n1) = (Ok (lst, tip), (s', n')) ∧
    h_height lst = h_height tip ∧ h_hash lst = h_hash tip.
Proof.
  unfold sync_until. rewrite !sbind_ok. intros (cp & [s1 n1] & Hcp & Heq).
  rewrite rpc_eq in Hcp. injection Hcp as Hcp <- <-.
  apply sbind_ok in Heq as (syncing & [s2 n2] & Hsy & Heq).
  assert (s2 = s) as ->.
  { assert (guarantees (lifted eq) (is_syncing now)) as Hg by (unfold is_syncing; guarantees_tac).
    specialize (Hg (s, S n)). by rewrite Hsy in Hg. }
  destruct syncing; [done|]. apply sbind_ok in Heq as ([lst tip] & [s3 n3] & Htip & Heq).
  destruct (Z.eqb_spec (h_height lst) (h_height tip)) as [Hh|Hh].
  - right. unfold slift, rassert in Heq. destruct (bool_decide _) eqn:Hb; [|done].
    injection Heq as -> ->. bool_to_prop. exists lst, tip, n2. by split_and!.
  - left. apply sbind_ok in Heq as (l & [s4 n4] & _ & Heq).
    apply sbind_ok in Heq as ([] & [s5 n5] & _ & Heq).
    apply sbind_ok in Heq as ([] & [s6 n6] & _ & Heq).
    apply sbind_ok in Heq as (x & [s7 n7] & Hx & Heq). injection Hx as <- <- <-.
    cbn [fst] in Heq. destruct (bool_decide _) eqn:Hb; [|done]. injection Heq as -> ->.
    by bool_to_prop.
Qed.

(** A tracked transaction whose input another finalized transaction spent is
    still tracked after the block is finalized, unless it is itself in the
    block or created an input the block finalizes. *)
Theorem double_spent_tx_stays_tracked b s s' k t i :
  db_wf (db s) → txs s !! k = Some t → i ∈ inputs_of t → i ∈ relevant_inputs b →
  k ∉ relevant_txs b → k ∉ op_txid <$> finalized_inputs b s →
  finalize_block change_spk_of now b s = (Ok tt, s') →
  txs s' !! k = Some t.
Proof.
  intros Hs Hk Hi Hib Hnot Hnot' Heq.
  destruct (finalize_block_cases b s _ s' Hs Heq) as (Hrun & _).
  destruct (finalize_run_spec b s s' Hs (Hrun eq_refl)) as (Htx & _).
  by rewrite Htx, decide_False by (by rewrite elem_of_app; intros [?|?]).
Qed.

End theory.

(** ** A concrete scheduler and node *)

Module SampleSched.
Import SampleDb.
#[export] Existing Instances Sample.hashes hashing hashing_laws.

(** A pegout transaction: one input, the pegout and the change. *)
Definition pegout_transaction : Transaction :=
  {| tx_version := 2; lock_time := 0;
     input := [{| previous_output := mkOutPoint [7] 0; script_sig := []; sequence := 0;
                  txin_witness := [] |}];
     output := [{| value := 4000; script_pubkey := [82] |};
                {| value := 900; script_pubkey := [81] |}] |}.
Definition pegout_req : PegoutRequest :=
  {| req_id := pid 4; req_spk := [82]; req_value := 4100; req_botanix_height := 9;
     req_timestamp := Some 1000 |}.
Definition change_script (pk : PublicKeyPackage) : option Script := Some pk.

Definition empty_db : Db :=
  (store_utxos [{| outpoint := mkOutPoint [7] 0;
                   utxo_output := {| value := 5000; script_pubkey := [81] |};
                   utxo_eth_address := None; utxo_version := 0 |}]
     (set_pubkey_package [81] open)).2.

(** A scheduler with a window of one block that tracks the transaction. *)
Definition sched : PegoutScheduler :=
  (add_tx change_script pegout_transaction [pegout_req] 50 (new 1 [] [0] empty_db).2).2.

Lemma sched_wf : db_wf (db sched).
Proof. split_and!; decide_vm. Qed.

(** The node's chain: [0], then a block with the transaction, then another. *)
Definition block1 : Block :=
  {| prev_blockhash := [0]; block_timestamp := 1; txdata := [pegout_transaction] |}.
Definition block2 : Block :=
  {| prev_blockhash := [1; 0]; block_timestamp := 2; txdata := [] |}.
Definition header (h : BlockHash) (height : Z) (prev : option BlockHash) : BlockHeader :=
  {| h_hash := h; h_height := height; h_confirmations := 3 - height;
     h_previous_block_hash := prev; h_time := 100 |}.
Definition header_of (h : BlockHash) : BlockHeader :=
  if bool_decide (h = [2; 1; 0]) then header h 2 (Some [1; 0])
  else if bool_decide (h = [1; 0]) then header h 1 (Some [0])
  else if bool_decide (h = [0]) then header h 0 None
  else {| h_hash := h; h_height := 1; h_confirmations := -1; h_previous_block_hash := Some [0];
          h_time := 100 |}.
#[export] Instance node : Bitcoind := {|
  RpcError := ();
  not_in_mempool _ := true;
  initialblockdownload _ := Ok false;
  get_best_block_hash _ := Ok [2; 1; 0];
  get_block_header_info _ h := Ok (header_of h);
  get_block _ h := if bool_decide (h = [1; 0]) then Ok block1 else Ok block2;
  get_raw_transaction_info _ _ := Ok (Some [1; 0]);
  get_block_info _ _ := Ok 1;
  get_mempool_entry _ _ := Err tt;
|}.
End SampleSched.
Import SampleSched.

Lemma finalize_block_settles_witness :
  let b := {| hash := [1; 0]; relevant_txs := [compute_txid pegout_transaction];
              relevant_inputs := [] |} in
  ∃ s', finalize_block change_script 1000 b sched = (Ok tt, s') ∧
    last_finalized s' = [1; 0] ∧ txs s' !! compute_txid pegout_transaction = None.
Proof.
  intros b. destruct (finalize_block change_script 1000 b sched) as [r s'] eqn:Heq.
  pose proof (f_equal fst Heq) as Hr. vm_compute in Hr. subst r.
  exists s'. destruct (finalize_block_settles 1000 ltac:(lia) change_script b sched s')
    as (Hl & _ & _ & _ & Htx & _); [exact sched_wf|exact Heq|].
  split; [reflexivity|]. split; [exact Hl|]. apply (Htx (compute_txid pegout_transaction)). left.
Defined.

Lemma sync_loses_no_pegout_witness :
  let s' := (sync_until change_script 1000 5 [1; 0] (sched, 0%nat)).2.1 in
  db_wf (db s') ∧ (accounted s' (SampleDb.pid 4) ∨ expired 1000 sched (SampleDb.pid 4) ∨
                   chained sched (SampleDb.pid 4)).
Proof.
  intros s'.
  destruct (sync_loses_no_pegout 1000 ltac:(lia) change_script 5 [1; 0] sched 0%nat)
    as (Hok & Hacc & _); [exact sched_wf|].
  split; [exact Hok|]. apply Hacc. left. exists pegout_req. split; [|reflexivity].
  eexists (compute_txid pegout_transaction), _. split; [vm_compute; reflexivity|]. left.
Defined.

Lemma sync_window_bounded_witness :
  let s' := (sync_until change_script 1000 5 [1; 0] (sched, 0%nat)).2.1 in
  last_blocks s' ≠ [].
Proof.
  intros s'. apply (sync_window_bounded 1000 change_script 5 [1; 0] sched 0%nat).
  - vm_compute. discriminate.
  - discriminate.
Defined.

(** The scheduler after it has seen a block with the transaction that the node
    has since dropped. *)
Definition reorged : PegoutScheduler :=
  (add_block {| prev_blockhash := [0]; block_timestamp := 9; txdata := [pegout_transaction] |}
     sched).2.
Lemma rollback_undoes_reorg_witness :
  ∃ s' n', rollback_loop 2 (reorged, 0%nat) = (Ok (header_of [0]), (s', n')) ∧
    SampleDb.pid 4 ∈ dom (pending_pegouts (db s')).
Proof.
  destruct (rollback_undoes_reorg header_of []
              {| hash := [0]; relevant_txs := []; relevant_inputs := [] |}
              [{| hash := [9; 0]; relevant_txs := [compute_txid pegout_transaction];
                  relevant_inputs := [] |}] reorged 0%nat)
    as (s' & n' & Heq & _ & _ & _ & _ & Hp).
  - split_and!; decide_vm.
  - decide_vm.
  - reflexivity.
  - reflexivity.
  - reflexivity.
  - repeat constructor. vm_compute. discriminate.
  - decide_vm.
  - decide_vm.
  - exists s', n'. split; [exact Heq|].
    eapply (Hp (compute_txid pegout_transaction) _ pegout_req);
      [by left|vm_compute; reflexivity|by left].
Defined.

Lemma collect_to_sync_finds_chain_witness :
  ∃ n', collect_to_sync 5 (header_of [0]) (header_of [2; 1; 0]) [[2; 1; 0]] (sched, 0%nat) =
        (Ok [[1; 0]; [2; 1; 0]], (sched, n')).
Proof.
  apply (collect_to_sync_finds_chain 5 (header_of [0]) [header_of [1; 0]]
           (header_of [2; 1; 0]) sched 0%nat).
  - simpl. repeat split.
  - simpl. lia.
Defined.

Lemma sync_success_means_witness :
  ∃ s' n', sync_until change_script 1000 5 [1; 0] (sched, 0%nat) = (Ok tt, (s', n')) ∧
    (last_finalized s' = [1; 0] ∨ ∃ lst tip n1, find_tip 5 (sched, n1) = (Ok (lst, tip), (s', n')) ∧
       h_height lst = h_height tip ∧ h_hash lst = h_hash tip).
Proof.
  destruct (sync_until change_script 1000 5 [1; 0] (sched, 0%nat)) as [r [s' n']] eqn:Heq.
  pose proof (f_equal fst Heq) as Hr. vm_compute in Hr. subst r.
  exists s', n'. split; [reflexivity|].
  exact (sync_success_means 1000 change_script 5 [1; 0] sched 0%nat s' n' Heq).
Defined.

(** A sync whose checkpoint is never finalized, yet succeeds: the tip is already
    the last known block. *)
Definition at_tip : PegoutScheduler :=
  with_blocks [{| hash := [2; 1; 0]; relevant_txs := []; relevant_inputs := [] |}] sched.
Theorem sync_ok_without_checkpoint :
  ∃ s' n', sync_until change_script 1000 5 [1; 0] (at_tip, 0%nat) = (Ok tt, (s', n')) ∧
    last_finalized s' ≠ [1; 0].
Proof.
  destruct (sync_until change_script 1000 5 [1; 0] (at_tip, 0%nat)) as [r [s' n']] eqn:Heq.
  pose proof (f_equal fst Heq) as Hr. vm_compute in Hr. subst r.
  exists s', n'. split; [done|].
  pose proof (f_equal (λ x, last_finalized x.2.1) Heq) as Hl. cbn [snd fst] in Hl.
  rewrite <-Hl. vm_compute. discriminate.
Qed.

(** A tracked transaction that spends the change of another tracked one: when its
    block is finalized, the other one is dropped, its block never having been
    seen, and its pegout is neither tracked nor pending nor finalized. *)
Definition child_transaction : Transaction :=
  {| tx_version := 2; lock_time := 0;
     input := [{| previous_output := mkOutPoint (compute_txid pegout_transaction) 1;
                  script_sig := []; sequence := 0; txin_witness := [] |}];
     output := [{| value := 800; script_pubkey := [83] |}] |}.
Definition child_req : PegoutRequest :=
  {| req_id := SampleDb.pid 5; req_spk := [83]; req_value := 850; req_botanix_height := 9;
     req_timestamp := Some 1000 |}.
Definition chained_sched : PegoutScheduler :=
  (add_tx change_script child_transaction [child_req] 60 sched).2.
Example chained_pegout_dropped :
  let b := {| hash := [1; 0]; relevant_txs := [compute_txid child_transaction];
              relevant_inputs := [] |} in
  let x := finalize_block change_script 1000 b chained_sched in
  (is_ok x.1, bool_decide (SampleDb.pid 4 ∈ tracked_pegout_request_ids chained_sched),
   bool_decide (SampleDb.pid 4 ∈ tracked_pegout_request_ids x.2),
   bool_decide (SampleDb.pid 4 ∈ dom (pending_pegouts (db x.2))),
   bool_decide (SampleDb.pid 4 ∈ dom (finalized_pegout_ids (db x.2))),
   bool_decide (SampleDb.pid 5 ∈ dom (finalized_pegout_ids (db x.2))))
  = (true, true, false, false, false, true).
Proof. vm_compute. reflexivity. Qed.
