(* ===== verification/CoinSelection.v ===== *)
(** * Coin selection

    [bin/btc-server/src/wallet/coin_selection.rs]: choosing the inputs of a
    pegout transaction, charging its fee to the pegouts and building the PSBT.
    BDK's selection algorithm is a parameter. *)

From S2P Require Import Prelude Bitcoin Psbt Database.

Inductive SanityCheckError :=
  | BadRefundBalance (change_output_value total_input_value target_amount : Z)
  | RecalculationFilteredMoreOutputs.

(** [CoinSelectionPsbt] is the code's [PsbtError]; like [CoinSelectionExtractTx]
    and [PegoutFeeOverflow] it is never produced. *)
Inductive CoinSelectionError :=
  | CoinSelectionBdk (needed available : Z)
  | CoinSelectionPsbt (e : PsbtError)
  | CoinSelectionExtractTx (e : ExtractTxError)
  | OutputsCannotBeEmpty
  | PegoutFeeOverflow
  | FeeRateOverflow
  | TotalUtxosValueOverflow
  | SanityCheck (e : SanityCheckError)
  | NoViableOutputs
  | WalletCalculation (e : WalletCalculationError).

Inductive FilterResult :=
  | AllRemaining (l : list (TxOut * bytes))
  | SomeFiltered (filtered_pegout_ids : list bytes).

Definition TARGET_CHANGE_PERCENT : Z := 50.
Definition MAX_CHANGE_PERCENT : Z := 5.
Definition MIN_CHANGE_SATS : Z := 10000.

(** [CoinSelectionAlgorithm::coin_select]: required and optional UTXOs, fee rate,
    target and drain script; the outpoints selected, or the funds needed and
    available.  Its randomness makes it one of several functions. *)
Class Bdk := {
  coin_select : list Utxo → list Utxo → Z → Z → Script → result (Z * Z) (list OutPoint);
}.
(** "required_utxos: the utxos that must be spent regardless of target_amount
    with their weight cost"; nothing else than the given UTXOs is selected, and
    none twice. *)
Class BdkLaws `{Bdk} : Prop := {
  coin_select_ok req opt rate target drain sel :
    NoDup (outpoint <$> req ++ opt) →
    coin_select req opt rate target drain = Ok sel →
    NoDup sel ∧ (∀ u, u ∈ req → outpoint u ∈ sel) ∧
    (∀ o, o ∈ sel → o ∈ outpoint <$> req ++ opt);
  coin_select_total req opt rate target drain :
    coin_select req opt rate target drain ≠ Panic;
}.

Abbreviation pegout_list := (list (TxOut * (list Z))).

Definition values (l : list (TxOut * bytes)) : list Z := (λ p, value p.1) <$> l.
Definition input_values (l : list InputDTO) : list Z := (λ i, value (dto_output i)) <$> l.

Definition calculate_target_change (total_pegout_value remaining_utxos_value : Z)
    : result CoinSelectionError Z :=
  let? t := ok_or (checked_mul total_pegout_value TARGET_CHANGE_PERCENT) FeeRateOverflow in
  let? target_change := ok_or (checked_div t 100) FeeRateOverflow in
  let? m := ok_or (checked_mul remaining_utxos_value MAX_CHANGE_PERCENT) FeeRateOverflow in
  let? max_change_value := ok_or (checked_div m 100) FeeRateOverflow in
  Ok (Z.min (Z.max (Z.min target_change max_change_value) MIN_CHANGE_SATS)
        remaining_utxos_value).

(** One sat more for each of the first [k] sorted indices. *)
Fixpoint distribute (fees : list Z) (idxs : list nat) (k : nat) : result CoinSelectionError (list Z) :=
  match k, idxs with
  | O, _ => Ok fees
  | S _, [] => Panic
  | S k', i :: idxs' =>
      let? f := expect (fees !! i) in
      let? f' := ok_or (checked_add f 1) FeeRateOverflow in
      distribute (<[i := f']> fees) idxs' k'
  end.

Definition value_at (l : list (TxOut * bytes)) (i : nat) : Z :=
  match l !! i with Some p => value p.1 | None => 0 end.

(** Indices by descending value; ties in index order ([sort_by_key] with
    [Reverse] is stable). *)
Definition sorted_indices (pegouts : list (TxOut * bytes)) : list nat :=
  sort_by_key (λ i, - value_at pegouts i) (seq 0 (length pegouts)).

Definition calculate_fee_distribution (pegouts : list (TxOut * bytes)) (absolute_fee : Z)
    : result CoinSelectionError (list Z) :=
  let num_outputs := length pegouts in
  if (num_outputs =? 0)%nat then Err OutputsCannotBeEmpty
  else
    let? base := ok_or (checked_div absolute_fee (Z.of_nat num_outputs)) FeeRateOverflow in
    let remainder := absolute_fee mod Z.of_nat num_outputs in
    distribute (replicate num_outputs base) (sorted_indices pegouts) (Z.to_nat remainder).

(** Always an output, whatever its value. *)
Definition create_change (selected_inputs : list InputDTO) (pegouts : list (TxOut * bytes))
    (change_script : Script) : result CoinSelectionError (option TxOut) :=
  let? total_selected_inputs := amount_sum (input_values selected_inputs) in
  let? total_pegout_target := amount_sum (values pegouts) in
  let? final_change_amount :=
    ok_or (checked_sub total_selected_inputs total_pegout_target)
      (CoinSelectionBdk total_selected_inputs total_pegout_target) in
  Ok (Some {| value := final_change_amount; script_pubkey := change_script |}).

Section selection.
Context `{BitcoinLib}.

(** [create_psbt] panics on a signed transaction. *)
Definition build (ins : list InputDTO) (outs : list (TxOut * bytes)) (change : option TxOut)
    : result CoinSelectionError Psbt :=
  match create_psbt ins outs change with Ok p => Ok p | _ => Panic end.

Definition calculate_required_fee (ins : list InputDTO) (outs : list (TxOut * bytes))
    (change : option TxOut) (fee_rate : Z) : result CoinSelectionError Z :=
  let? psbt := build ins outs change in
  let? total_weight := map_err WalletCalculation (calculate_signed_tx_weight psbt) in
  ok_or (fee_wu fee_rate total_weight) FeeRateOverflow.

Definition after_fee (p : TxOut * bytes) (fee : Z) : TxOut * bytes :=
  ({| value := default 0 (checked_sub (value p.1) fee); script_pubkey := script_pubkey p.1 |}, p.2).

(** The loop: outputs kept, and ids of those that became dust. *)
Fixpoint filter_dust (pegouts : list (TxOut * bytes)) (fees : list Z)
    : result CoinSelectionError (list (TxOut * bytes) * list bytes) :=
  match pegouts, fees with
  | [], _ => Ok ([], [])
  | _ :: _, [] => Panic
  | p :: pegouts', f :: fees' =>
      let? '(kept, dropped) := filter_dust pegouts' fees' in
      let updated := after_fee p f in
      if minimal_non_dust (script_pubkey updated.1) <=? value updated.1
      then Ok (updated :: kept, dropped)
      else Ok (kept, p.2 :: dropped)
  end.

Definition try_apply_fees_and_filter_dust (pegouts : list (TxOut * bytes)) (absolute_fee : Z)
    : result CoinSelectionError FilterResult :=
  match pegouts with
  | [] => Err NoViableOutputs
  | _ =>
      let? fees := calculate_fee_distribution pegouts absolute_fee in
      let? '(kept, dropped) := filter_dust pegouts fees in
      if (length kept =? length pegouts)%nat then Ok (AllRemaining kept)
      else match kept with
           | [] => Err NoViableOutputs
           | _ => Ok (SomeFiltered dropped)
           end
  end.

Definition without (filtered : list bytes) (pegouts : list (TxOut * bytes))
    : list (TxOut * bytes) :=
  filter (λ p, p.2 ∉ filtered) pegouts.

Definition apply_fees_and_create_psbt (ins : list InputDTO) (pegouts : list (TxOut * bytes))
    (change_script : Script) (fee_rate : Z) : result CoinSelectionError (Psbt * list bytes) :=
  let? change := create_change ins pegouts change_script in
  let? absolute_fee := calculate_required_fee ins pegouts change fee_rate in
  let? first_attempt := try_apply_fees_and_filter_dust pegouts absolute_fee in
  match first_attempt with
  | AllRemaining final_pegouts =>
      let? psbt := build ins final_pegouts change in Ok (psbt, [])
  | SomeFiltered filtered =>
      let remaining := without filtered pegouts in
      let? change' := create_change ins remaining change_script in
      let? fee' := calculate_required_fee ins remaining change' fee_rate in
      let? second_attempt := try_apply_fees_and_filter_dust remaining fee' in
      match second_attempt with
      | AllRemaining final_outputs =>
          let? psbt := build ins final_outputs change' in Ok (psbt, filtered)
      | SomeFiltered _ => Err (SanityCheck RecalculationFilteredMoreOutputs)
      end
  end.

(** [extract_tx().unwrap()] and [find(..).unwrap()] panic. *)
Definition sanity_check_psbt (psbt : Psbt) (ins : list InputDTO) (change_script : Script)
    (total_pegout_target : Z) : result CoinSelectionError () :=
  match extract_tx psbt with
  | Ok tx =>
      let? total_input_value := amount_sum (input_values ins) in
      let? o := expect (list_find (λ o, script_pubkey o = change_script) (output tx)) in
      let change_output_value := value o.2 in
      let? expected := ok_or (checked_sub total_input_value total_pegout_target)
                         FeeRateOverflow in
      if change_output_value =? expected then Ok tt
      else Err (SanityCheck (BadRefundBalance change_output_value total_input_value
                              total_pegout_target))
  | _ => Panic
  end.

Context `{Bdk}.

Definition to_dto (u : Utxo) : InputDTO :=
  {| dto_outpoint := outpoint u; dto_output := utxo_output u;
     dto_eth_address := utxo_eth_address u;
     dto_version := match utxo_version_try_from (utxo_version u) with
                    | Ok v => v | _ => V1 end |}.

Definition perform_coin_selection (optional_utxos required_utxos : gmap OutPoint Utxo)
    (fee_rate target : Z) (change_script : Script) : result CoinSelectionError (list InputDTO) :=
  let? selection := map_err (λ e, CoinSelectionBdk e.1 e.2)
    (coin_select (map_to_list required_utxos).*2 (map_to_list optional_utxos).*2
       fee_rate target change_script) in
  let selected := omap (λ o, match optional_utxos !! o with
                             | Some u => Some u
                             | None => required_utxos !! o
                             end) selection in
  Ok (to_dto <$> selected).

Definition coin_selection (optional_utxos required_utxos : gmap OutPoint Utxo)
    (outs : list (TxOut * PegoutId)) (fee_rate : Z) (change_script : Script)
    : result CoinSelectionError Psbt :=
  match outs with
  | [] => Err OutputsCannotBeEmpty
  | _ =>
      let pegouts := (λ p, (p.1, as_bytes p.2)) <$> outs in
      let utxo_values m := (λ u, value (utxo_output u)) <$> (map_to_list m).*2 in
      let? required_value := ok_or (checked_sum (utxo_values required_utxos))
                               TotalUtxosValueOverflow in
      let? optional_value := ok_or (checked_sum (utxo_values optional_utxos))
                               TotalUtxosValueOverflow in
      let? total_utxos_value := ok_or (checked_add required_value optional_value)
                                  TotalUtxosValueOverflow in
      let? total_pegout_target := ok_or (checked_sum (values pegouts))
                                    TotalUtxosValueOverflow in
      let? remaining := ok_or (checked_sub total_utxos_value total_pegout_target)
                          (CoinSelectionBdk total_pegout_target total_utxos_value) in
      let? target_change := calculate_target_change total_pegout_target remaining in
      let? target := ok_or (checked_add total_pegout_target target_change) FeeRateOverflow in
      let? ins := perform_coin_selection optional_utxos required_utxos fee_rate target
                    change_script in
      let? '(psbt, filtered) := apply_fees_and_create_psbt ins pegouts change_script fee_rate in
      let? updated_target := amount_sum (values (without filtered pegouts)) in
      let? _ := sanity_check_psbt psbt ins change_script updated_target in
      Ok psbt
  end.

End selection.
