(* ===== verification/CoinSelectionTheory.v ===== *)
(** * Theorems about coin selection

    The fee is split exactly and fairly; the target change is bounded; a
    successful selection conserves value, spends every required UTXO and leaves
    no dust pegout. *)

From S2P Require Import Prelude Bitcoin Psbt Database DatabaseTheory CoinSelection.

(** ** Splitting the fee *)

Lemma distribute_spec base idxs k fees :
  NoDup idxs → (k ≤ length idxs)%nat → (k = 0%nat ∨ base + 1 ≤ u64_max) →
  Forall (λ i, fees !! i = Some base) idxs →
  ∃ fees', distribute fees idxs k = Ok fees' ∧ length fees' = length fees ∧
    zsum fees' = zsum fees + Z.of_nat k ∧
    ∀ i, fees' !! i = if decide (i ∈ take k idxs) then Some (base + 1) else fees !! i.
Proof.
  revert fees k. induction idxs as [|i idxs IH]; intros fees k Hnd Hk Hov Hf.
  - destruct k; [|simpl in Hk; lia]. exists fees. split_and!; [done..|lia|done].
  - destruct k as [|k]; [exists fees; split_and!; [done..|lia|done]|].
    apply NoDup_cons in Hnd as [Hi Hnd]. apply Forall_cons in Hf as [Hfi Hf].
    simpl in Hk. destruct Hov as [?|Hov]; [lia|]. simpl. rewrite Hfi. simpl.
    unfold checked_add. rewrite (proj2 (Z.leb_le _ _)) by done. simpl.
    destruct (IH (<[i := base + 1]> fees) k Hnd ltac:(lia) ltac:(by right))
      as (fees' & Heq & Hlen & Hsum & Hl).
    { apply Forall_forall. intros j Hj. rewrite list_lookup_insert_ne by (by intros ->).
      rewrite Forall_forall in Hf. by apply Hf. }
    exists fees'. split; [done|]. rewrite length_insert in Hlen. split; [done|].
    rewrite (zsum_insert _ _ _ base) in Hsum by done. split; [lia|].
    intros j. rewrite Hl. destruct (decide (j = i)) as [->|Hne].
    + rewrite (decide_True (P := i ∈ i :: take k idxs)) by left.
      rewrite decide_False by (intros Hin; apply Hi; rewrite <-(take_drop k idxs);
        apply elem_of_app; by left).
      apply list_lookup_insert_eq. by apply lookup_lt_Some in Hfi.
    + rewrite list_lookup_insert_ne by done.
      destruct (decide (j ∈ take k idxs)) as [Hj|Hj].
      * by rewrite decide_True by (by right).
      * rewrite decide_False; [done|]. by intros [?|?]%elem_of_cons.
Qed.

Lemma sorted_indices_perm l : sorted_indices l ≡ₚ seq 0 (length l).
Proof. apply sort_by_perm. Qed.

Lemma sorted_indices_order l k i j :
  i ∈ take k (sorted_indices l) → j ∈ seq 0 (length l) → j ∉ take k (sorted_indices l) →
  value_at l j ≤ value_at l i.
Proof.
  intros Hi Hj Hj'.
  pose proof (sort_by_key_sorted (λ i, - value_at l i) (seq 0 (length l))) as Hs.
  fold (sorted_indices l) in Hs. rewrite <-(take_drop k (sorted_indices l)) in Hs.
  apply StronglySorted_app in Hs as (Hle & _ & _).
  assert (j ∈ drop k (sorted_indices l)) as Hd.
  { rewrite <-sorted_indices_perm, <-(take_drop k (sorted_indices l)) in Hj.
    apply elem_of_app in Hj as [?|?]; done. }
  specialize (Hle i j Hi Hd). simpl in Hle. lia.
Qed.

Lemma fee_distribution_spec l fee :
  l ≠ [] → 0 ≤ fee ≤ u64_max →
  let n := Z.of_nat (length l) in
  ∃ fees, calculate_fee_distribution l fee = Ok fees ∧ length fees = length l ∧
    zsum fees = fee ∧
    ∀ i, (i < length l)%nat →
      fees !! i = Some (if decide (i ∈ take (Z.to_nat (fee mod n)) (sorted_indices l))
                        then fee / n + 1 else fee / n).
Proof.
  intros Hl Hfee. cbv zeta. set (n := Z.of_nat (length l)).
  assert (1 ≤ n) as Hn by (destruct l; [done|subst n; simpl; lia]).
  unfold calculate_fee_distribution. destruct (Nat.eqb_spec (length l) 0); [lia|].
  unfold checked_div. fold n. rewrite (proj2 (Z.eqb_neq _ _)) by lia. cbn [ok_or rbind].
  pose proof (Z.mod_pos_bound fee n ltac:(lia)) as Hm.
  pose proof (Z.div_mod fee n ltac:(lia)) as Hdm.
  assert (NoDup (sorted_indices l)) as Hnd
    by (rewrite sorted_indices_perm; apply NoDup_seq).
  assert (length (sorted_indices l) = length l) as Hlen
    by (rewrite sorted_indices_perm; apply length_seq).
  destruct (distribute_spec (fee / n) (sorted_indices l) (Z.to_nat (fee mod n))
              (replicate (length l) (fee / n))) as (fees & Heq & Hlf & Hsum & Hl'); [done|lia| | |].
  - destruct (decide (fee mod n = 0)) as [->|Hne]; [by left|right].
    assert (fee / n * 1 ≤ fee / n * n) by (apply Z.mul_le_mono_nonneg_l; [apply Z.div_pos|]; lia).
    lia.
  - apply Forall_forall. intros i Hi. rewrite sorted_indices_perm in Hi.
    apply elem_of_seq in Hi. apply lookup_replicate_2. lia.
  - exists fees. rewrite length_replicate in Hlf. split_and!; [done|done| |].
    + rewrite zsum_replicate, Z2Nat.id in Hsum by lia. fold n in Hsum. lia.
    + intros i Hi. rewrite Hl'. case_decide; [done|]. by apply lookup_replicate_2.
Qed.

(** The transaction fee is split exactly and fairly among the pegouts: the
    shares add up to the fee, every share is the integer average or one sat
    more, and the extra sats are paid by the outputs of highest value. *)
Theorem fee_distribution_exact l fee :
  l ≠ [] → 0 ≤ fee ≤ u64_max →
  let n := Z.of_nat (length l) in
  ∃ fees, calculate_fee_distribution l fee = Ok fees ∧ length fees = length l ∧
    zsum fees = fee ∧ Forall (λ f, f = fee / n ∨ f = fee / n + 1) fees ∧
    (∀ i j, fees !! i = Some (fee / n + 1) → fees !! j = Some (fee / n) →
       value_at l j ≤ value_at l i).
Proof.
  intros Hl Hfee n. destruct (fee_distribution_spec l fee Hl Hfee) as (fees & Heq & Hlen & Hsum & Hlk).
  exists fees. split_and!; try done.
  - apply Forall_lookup. intros i f Hi. pose proof (lookup_lt_Some _ _ _ Hi) as Hlt.
    rewrite Hlk in Hi by lia. case_decide; injection Hi as <-; auto.
  - intros i j Hi Hj. pose proof (lookup_lt_Some _ _ _ Hi). pose proof (lookup_lt_Some _ _ _ Hj).
    rewrite Hlk in Hi, Hj by lia.
    destruct (decide (i ∈ _)) as [Hii|] in Hi; [|injection Hi as Hi; subst n; lia].
    destruct (decide (j ∈ _)) as [|Hjj] in Hj; [injection Hj as Hj; subst n; lia|].
    apply (sorted_indices_order l (Z.to_nat (fee mod n))); [done| |done].
    apply elem_of_seq. lia.
Qed.

Definition out (v : Z) : TxOut * bytes := ({| value := v; script_pubkey := [81] |}, [v]).
Lemma fee_distribution_exact_witness :
  ∃ fees, calculate_fee_distribution [out 500; out 900; out 700] 11 = Ok fees ∧
    fees = [3; 4; 4] ∧ zsum fees = 11.
Proof.
  destruct (fee_distribution_exact [out 500; out 900; out 700] 11) as (fees & Heq & _ & Hs & _).
  - discriminate.
  - unfold u64_max. lia.
  - exists fees. split; [exact Heq|]. split; [|exact Hs]. vm_compute in Heq. by injection Heq.
Defined.

(** The target change is never more than what the wallet has left, is at
    least 10,000 sats whenever that much is left, and beyond that floor never
    more than half the pegout value nor 5% of what is left; the calculation
    fails only when a product overflows 64 bits. *)
Theorem target_change_bounds p r :
  0 ≤ p → 0 ≤ r →
  (50 * p ≤ u64_max ∧ 5 * r ≤ u64_max → ∃ c, calculate_target_change p r = Ok c) ∧
  (∀ c, calculate_target_change p r = Ok c →
     0 ≤ c ≤ r ∧ (10000 ≤ r → 10000 ≤ c) ∧
     (10000 < c → 2 * c ≤ p ∧ 20 * c ≤ r)).
Proof.
  intros Hp Hr. unfold calculate_target_change, TARGET_CHANGE_PERCENT, MAX_CHANGE_PERCENT,
    MIN_CHANGE_SATS. split.
  - intros [H1 H2]. unfold checked_mul, checked_div.
    rewrite !(proj2 (Z.leb_le _ _)) by lia. by eexists.
  - intros c Hc. rinv Hc. injection Hc as <-.
    repeat match goal with H : ok_or _ _ = Ok _ |- _ => apply ok_or_ok in H end.
    repeat match goal with H : checked_mul _ _ = Some _ |- _ =>
      apply checked_mul_some in H as [-> _] end.
    repeat match goal with H : checked_div _ _ = Some _ |- _ =>
      apply checked_div_some in H as [-> _] end.
    pose proof (Z.div_pos (p * 50) 100 ltac:(lia) ltac:(lia)).
    pose proof (Z.div_pos (r * 5) 100 ltac:(lia) ltac:(lia)).
    pose proof (Z.mul_div_le (p * 50) 100 ltac:(lia)).
    pose proof (Z.mul_div_le (r * 5) 100 ltac:(lia)). lia.
Qed.

Lemma target_change_bounds_witness :
  ∃ c, calculate_target_change 1000000 50000000 = Ok c ∧ c = 500000 ∧ c ≤ 50000000.
Proof.
  destruct (target_change_bounds 1000000 50000000 ltac:(lia) ltac:(lia)) as [Hex Hb].
  destruct Hex as [c Hc]; [unfold u64_max; lia|]. exists c. split; [exact Hc|].
  split; [vm_compute in Hc; by injection Hc|]. apply (Hb c Hc).
Defined.

(** ** A successful selection *)

Definition nonneg_values (l : list (TxOut * bytes)) : Prop := Forall (λ x, 0 ≤ x) (values l).

Section success.
Context `{BitcoinLib, !BitcoinLibLaws}.

Definition not_dust (p : TxOut * bytes) : Prop := minimal_non_dust (script_pubkey p.1) ≤ value p.1.

(** Keeping every output means charging every output and finding no dust. *)
Lemma filter_dust_spec l fees kept dropped :
  length fees = length l → filter_dust l fees = Ok (kept, dropped) →
  (length kept ≤ length l)%nat ∧
  (length kept = length l → kept = zip_with after_fee l fees ∧ Forall not_dust kept).
Proof.
  revert fees kept dropped. induction l as [|p l IH]; intros [|f fees] kept dropped Hlen Heq;
    try done; simpl in Heq.
  - injection Heq as <- <-. split; [done|]. intros _. split; [done|constructor].
  - simpl in Hlen. rinv1 Heq. destruct a as [kept' dropped'].
    destruct (IH fees kept' dropped' ltac:(lia) E) as [Hle Hall].
    destruct (Z.leb_spec (minimal_non_dust (script_pubkey p.1))
                (default 0 (checked_sub (value p.1) f))) as [Hd|Hd].
    + injection Heq as <- <-. simpl. split; [lia|]. intros Hl.
      destruct Hall as [-> Hf]; [lia|]. split; [done|]. by constructor.
    + injection Heq as <- <-. simpl. split; [lia|]. intros Hl. lia.
Qed.

Lemma try_apply_all l fee kept :
  try_apply_fees_and_filter_dust l fee = Ok (AllRemaining kept) → 0 ≤ fee ≤ u64_max →
  ∃ fees, calculate_fee_distribution l fee = Ok fees ∧ length fees = length l ∧
    zsum fees = fee ∧ kept = zip_with after_fee l fees ∧ Forall not_dust kept.
Proof.
  unfold try_apply_fees_and_filter_dust. intros Heq Hfee.
  destruct l as [|p l]; [done|]. set (l' := p :: l) in *.
  destruct (fee_distribution_spec l' fee ltac:(done) Hfee) as (fees & Hd & Hlen & Hsum & _).
  rewrite Hd in Heq. cbn [rbind] in Heq. rinv1 Heq. destruct a as [k dropped].
  destruct (filter_dust_spec l' fees k dropped Hlen E) as [_ Hall].
  destruct (Nat.eqb_spec (length k) (length l')) as [Hk|]; [|by destruct k].
  injection Heq as <-. destruct (Hall Hk) as [-> Hnd]. by exists fees.
Qed.

Lemma build_ok ins outs c p : build ins outs c = Ok p → p = created_psbt ins outs c.
Proof. unfold build. rewrite create_psbt_eq. by intros [= <-]. Qed.

Lemma required_fee_bounds ins outs c rate fee :
  calculate_required_fee ins outs c rate = Ok fee → 0 ≤ fee ≤ u64_max.
Proof.
  unfold calculate_required_fee. intros Hf. rinv Hf. apply ok_or_ok in Hf.
  by apply fee_wu_nonneg in Hf.
Qed.

Lemma without_nil l : without [] l = l.
Proof.
  unfold without. induction l as [|p l IH]; [done|]. rewrite filter_cons_True, IH; [done|].
  apply not_elem_of_nil.
Qed.

(** What a successful fee application built. *)
Lemma apply_fees_spec ins l script rate psbt filtered :
  apply_fees_and_create_psbt ins l script rate = Ok (psbt, filtered) →
  let kept := without filtered l in
  ∃ change fee fees,
    create_change ins kept script = Ok (Some change) ∧
    calculate_required_fee ins kept (Some change) rate = Ok fee ∧
    length fees = length kept ∧ zsum fees = fee ∧ calculate_fee_distribution kept fee = Ok fees ∧
    Forall not_dust (zip_with after_fee kept fees) ∧
    psbt = created_psbt ins (zip_with after_fee kept fees) (Some change).
Proof.
  unfold apply_fees_and_create_psbt. intros Heq. rinv Heq.
  assert (∀ l c, create_change ins l script = Ok c → ∃ c', c = Some c') as Hch.
  { intros l' c Hc. unfold create_change in Hc. rinv Hc. injection Hc as <-. by eexists. }
  destruct (Hch _ _ E) as [c1 ->]. destruct a1 as [kept|dropped].
  - rinv1 Heq. injection Heq as <- <-. cbv zeta. rewrite without_nil.
    apply try_apply_all in E1 as (fees & Hd & Hlen & Hsum & -> & Hnd);
      [|by eapply required_fee_bounds]. apply build_ok in E2 as ->.
    exists c1, a0, fees. by split_and!.
  - rinv Heq. destruct (Hch _ _ E2) as [c2 ->]. destruct a2 as [kept|dropped']; [|done].
    rinv1 Heq. injection Heq as <- <-. cbv zeta.
    apply try_apply_all in E4 as (fees & Hd & Hlen & Hsum & -> & Hnd);
      [|by eapply required_fee_bounds]. apply build_ok in E5 as ->.
    exists c2, a1, fees. by split_and!.
Qed.

(** Charging a fee to outputs that do not become dust takes exactly the fee. *)
Lemma after_fee_values l fees :
  length fees = length l → Forall (λ p, 0 < minimal_non_dust (script_pubkey p.1)) l →
  Forall not_dust (zip_with after_fee l fees) →
  zsum (values (zip_with after_fee l fees)) = zsum (values l) - zsum fees ∧
  Forall2 (λ p f, f ≤ value p.1) l fees.
Proof.
  intros Hlen Hdust. revert fees Hlen. induction Hdust as [|p l Hp Hl IH]; intros [|f fees] Hlen Hnd;
    try done; simpl in *.
  - apply Forall_cons in Hnd as [Hn Hnd]. unfold not_dust in Hn. simpl in Hn.
    destruct (IH fees ltac:(lia) Hnd) as [Hs Hf].
    unfold checked_sub in *. destruct (Z.leb_spec f (value p.1)); simpl in Hn; [|lia].
    split; [|by constructor]. unfold values in *. simpl. rewrite !zsum_cons. simpl. lia.
Qed.

Context `{Bdk, !BdkLaws}.

Lemma own_key_values {K V} `{Countable K} (key : V → K) (m : gmap K V) :
  own_key key m → NoDup (key <$> (map_to_list m).*2) ∧
  (∀ v, v ∈ (map_to_list m).*2 ↔ m !! key v = Some v).
Proof.
  intros Hm. assert (key <$> (map_to_list m).*2 = (map_to_list m).*1) as Heq.
  { rewrite <-list_fmap_compose. apply list_fmap_ext. intros i [k v] Hi.
    apply list_elem_of_lookup_2, elem_of_map_to_list in Hi. by apply Hm. }
  split; [rewrite Heq; apply NoDup_fst_map_to_list|]. intros v. rewrite list_elem_of_fmap. split.
  - intros ([k w] & -> & Hin). apply elem_of_map_to_list in Hin. simpl. by rewrite (Hm k w).
  - intros Hv. exists (key v, v). split; [done|]. by apply elem_of_map_to_list.
Qed.

(** The inputs selected: distinct, all the required ones, all from the two sets. *)
Lemma perform_coin_selection_spec opt req rate target script ins :
  own_key outpoint opt → own_key outpoint req → opt ##ₘ req →
  perform_coin_selection opt req rate target script = Ok ins →
  NoDup (dto_outpoint <$> ins) ∧
  (∀ u, u ∈ (map_to_list req).*2 → to_dto u ∈ ins) ∧
  (∀ i, i ∈ ins → ∃ u, i = to_dto u ∧ (opt !! outpoint u = Some u ∨ req !! outpoint u = Some u)).
Proof.
  intros Hopt Hreq Hdisj Heq. unfold perform_coin_selection in Heq. rinv1 Heq.
  injection Heq as <-. apply map_err_ok in E.
  destruct (own_key_values _ _ Hopt) as [Hndo Helo]. destruct (own_key_values _ _ Hreq) as [Hndr Helr].
  set (pick := λ o, match opt !! o with Some u => Some u | None => req !! o end).
  assert (∀ o u, pick o = Some u → outpoint u = o ∧ (opt !! o = Some u ∨ req !! o = Some u)) as Hpick.
  { intros o u. unfold pick. destruct (opt !! o) eqn:Ho; intros Hu.
    - injection Hu as ->. split; [by apply (Hopt o u)|by left].
    - split; [by apply (Hreq o u)|by right]. }
  assert (∀ o u1 u2, opt !! o = Some u1 → req !! o = Some u2 → False) as Hex
    by (apply map_disjoint_spec; exact Hdisj).
  assert (NoDup (outpoint <$> (map_to_list req).*2 ++ (map_to_list opt).*2)) as Hnda.
  { rewrite fmap_app. apply NoDup_app. split_and!; [done| |done].
    intros o Ho1 Ho2. apply list_elem_of_fmap in Ho1 as (u1 & -> & Hu1).
    apply list_elem_of_fmap in Ho2 as (u2 & Heq & Hu2). apply Helr in Hu1. apply Helo in Hu2.
    rewrite <-Heq in Hu2. by eapply Hex. }
  destruct (coin_select_ok _ _ _ _ _ _ Hnda E) as (Hnd & Hall & Hsub).
  split_and!.
  - rewrite <-list_fmap_compose. fold pick. clear E Hall Hsub.
    induction Hnd as [|o sel Ho Hnd IH]; [constructor|]. rewrite list_omap_cons.
    destruct (pick o) as [u|] eqn:Hu; [|done]. apply Hpick in Hu as [Hu _]. simpl.
    constructor; [|done]. rewrite Hu. intros Hin. apply Ho.
    apply list_elem_of_fmap in Hin as (u' & -> & Hin). apply list_elem_of_omap in Hin as (o' & Ho' & Hp).
    apply Hpick in Hp as [Hp _]. simpl. by rewrite Hp.
  - intros u Hu. apply list_elem_of_fmap. exists u. split; [done|].
    apply list_elem_of_omap. exists (outpoint u). split; [by apply Hall|].
    apply Helr in Hu. unfold pick. destruct (opt !! outpoint u) eqn:Ho; [|done].
    exfalso. by eapply Hex.
  - intros i Hi. apply list_elem_of_fmap in Hi as (u & -> & Hi).
    apply list_elem_of_omap in Hi as (o & _ & Hp). apply Hpick in Hp as [<- Hp]. by exists u.
Qed.

(** What a successful selection built, amounts aside. *)
Lemma coin_selection_inputs opt req outs rate script p :
  own_key outpoint opt → own_key outpoint req → opt ##ₘ req →
  coin_selection opt req outs rate script = Ok p →
  ∃ ins paid change, p = created_psbt ins paid (Some change) ∧
    NoDup (dto_outpoint <$> ins) ∧
    (∀ u, u ∈ (map_to_list req).*2 → to_dto u ∈ ins) ∧
    (∀ i, i ∈ ins → ∃ u, i = to_dto u ∧
       (opt !! outpoint u = Some u ∨ req !! outpoint u = Some u)).
Proof.
  intros Hopt Hreq Hdisj Heq. unfold coin_selection in Heq.
  destruct outs as [|o outs]; [done|].
  rinv Heq. destruct a7 as [psbt filtered]. rinv Heq. injection Heq as <-.
  destruct (perform_coin_selection_spec _ _ _ _ _ _ Hopt Hreq Hdisj E6) as (Hnd & Hall & Hfrom).
  apply apply_fees_spec in E7 as (change & fee & fees & _ & _ & _ & _ & _ & _ & ->).
  by eexists a6, _, change.
Qed.

Definition utxo_ok (u : Utxo) : Prop := 0 ≤ value (utxo_output u).

(** What a successful selection built. *)
Lemma coin_selection_spec opt req outs rate script p :
  own_key outpoint opt → own_key outpoint req → opt ##ₘ req →
  map_Forall (λ _, utxo_ok) opt → map_Forall (λ _, utxo_ok) req →
  Forall (λ o, 0 ≤ value o.1 ∧ 0 < minimal_non_dust (script_pubkey o.1)) outs →
  coin_selection opt req outs rate script = Ok p →
  ∃ ins kept fees change,
    p = created_psbt ins (zip_with after_fee kept fees) (Some change) ∧
    NoDup (dto_outpoint <$> ins) ∧
    (∀ u, u ∈ (map_to_list req).*2 → to_dto u ∈ ins) ∧
    (∀ i, i ∈ ins → ∃ u, i = to_dto u ∧
       (opt !! outpoint u = Some u ∨ req !! outpoint u = Some u)) ∧
    kept `sublist_of` ((λ o, (o.1, as_bytes o.2)) <$> outs) ∧
    Forall not_dust (zip_with after_fee kept fees) ∧
    Forall2 (λ o f, f ≤ value o.1) kept fees ∧
    script_pubkey change = script ∧
    value change = zsum (input_values ins) - zsum (values kept) ∧
    calculate_required_fee ins kept (Some change) rate = Ok (zsum fees) ∧
    calculate_fee_distribution kept (zsum fees) = Ok fees ∧ 0 ≤ zsum fees ≤ u64_max ∧
    zsum (input_values ins) =
      zsum (values (zip_with after_fee kept fees)) + value change + zsum fees.
Proof.
  intros Hopt Hreq Hdisj Hvo Hvr Houts Heq. unfold coin_selection in Heq.
  destruct outs as [|o outs]; [done|]. set (l := _ <$> o :: outs) in *.
  rinv Heq. destruct a7 as [psbt filtered]. rinv Heq. injection Heq as <-.
  destruct (perform_coin_selection_spec _ _ _ _ _ _ Hopt Hreq Hdisj E6) as (Hnd & Hall & Hfrom).
  apply apply_fees_spec in E7 as (change & fee & fees & Hch & Hfee & Hlen & Hsum & Hdist & Hdust & ->).
  set (kept := without filtered l) in *.
  assert (kept `sublist_of` l) as Hsub by apply sublist_filter.
  assert (Forall (λ o, 0 ≤ value o.1 ∧ 0 < minimal_non_dust (script_pubkey o.1)) kept) as Hk.
  { apply Forall_forall. intros x [_ Hx]%list_elem_of_filter.
    apply list_elem_of_fmap in Hx as (y & -> & Hy).
    rewrite Forall_forall in Houts. by apply (Houts y). }
  destruct (after_fee_values kept fees Hlen) as [Hv Hf];
    [eapply Forall_impl; [exact Hk|naive_solver]|done|].
  assert (Forall (λ x, 0 ≤ x) (values kept)) as Hvk.
  { unfold values. rewrite Forall_fmap. eapply Forall_impl; [exact Hk|naive_solver]. }
  assert (Forall (λ x, 0 ≤ x) (input_values a6)) as Hvi.
  { unfold input_values. rewrite Forall_fmap, Forall_forall. intros i Hi.
    destruct (Hfrom i Hi) as (u & -> & [Hu|Hu]); simpl; [by apply (Hvo _ u Hu)|by apply (Hvr _ u Hu)]. }
  assert (script_pubkey change = script ∧
          value change = zsum (input_values a6) - zsum (values kept)) as [Hs Hc].
  { unfold create_change in Hch. rinv Hch. injection Hch as <-.
    repeat match goal with Hs : amount_sum _ = Ok _ |- _ =>
      apply amount_sum_ok in Hs as [-> _]; [|done] end.
    match goal with Hs : ok_or (checked_sub _ _) (CoinSelectionBdk (zsum _) _) = Ok _ |- _ =>
      apply ok_or_ok, checked_sub_some in Hs as [-> _] end. done. }
  pose proof (required_fee_bounds _ _ _ _ _ Hfee) as Hb.
  exists a6, kept, fees, change. subst fee. split_and!; try done; lia.
Qed.

(** C12. A successful coin selection conserves value and protects retries.  The
    PSBT spends every required UTXO and no UTXO twice, all its inputs come from
    the given sets; it pays a sub-list of the requested pegouts, each reduced by
    its share of the fee and none below its dust limit, and one change output,
    last, worth exactly the inputs minus the full value of the pegouts paid: the
    pegouts bear the whole fee, which is the fee of the transaction's weight at
    the given rate; inputs = outputs + fee. *)
Theorem coin_selection_conserves opt req outs rate script p :
  own_key outpoint opt → own_key outpoint req → opt ##ₘ req →
  map_Forall (λ _, utxo_ok) opt → map_Forall (λ _, utxo_ok) req →
  Forall (λ o, 0 ≤ value o.1 ∧ 0 < minimal_non_dust (script_pubkey o.1)) outs →
  coin_selection opt req outs rate script = Ok p →
  ∃ ins kept fees change,
    p = created_psbt ins (zip_with after_fee kept fees) (Some change) ∧
    NoDup (dto_outpoint <$> ins) ∧
    (∀ u, u ∈ (map_to_list req).*2 → to_dto u ∈ ins) ∧
    (∀ i, i ∈ ins → ∃ u, i = to_dto u ∧
       (opt !! outpoint u = Some u ∨ req !! outpoint u = Some u)) ∧
    kept `sublist_of` ((λ o, (o.1, as_bytes o.2)) <$> outs) ∧
    Forall not_dust (zip_with after_fee kept fees) ∧
    Forall2 (λ o f, f ≤ value o.1) kept fees ∧
    script_pubkey change = script ∧
    value change = zsum (input_values ins) - zsum (values kept) ∧
    calculate_required_fee ins kept (Some change) rate = Ok (zsum fees) ∧
    zsum (input_values ins) =
      zsum (values (zip_with after_fee kept fees)) + value change + zsum fees.
Proof.
  intros Hopt Hreq Hdisj Hvo Hvr Houts Heq.
  destruct (coin_selection_spec _ _ _ _ _ _ Hopt Hreq Hdisj Hvo Hvr Houts Heq)
    as (ins & kept & fees & change & ? & ? & ? & ? & ? & ? & ? & ? & ? & ? & _ & _ & ?).
  exists ins, kept, fees, change. by split_and!.
Qed.

End success.

(** When the inputs do not cover the pegouts, the error reports the inputs as
    the amount needed and the pegouts as the amount available. *)
Theorem create_change_reports_swapped ins l script :
  Forall (λ x, 0 ≤ x) (input_values ins) → Forall (λ x, 0 ≤ x) (values l) →
  zsum (input_values ins) < zsum (values l) ≤ u64_max →
  create_change ins l script =
    Err (CoinSelectionBdk (zsum (input_values ins)) (zsum (values l))).
Proof.
  intros Hi Hl Hlt. unfold create_change.
  rewrite (proj2 (amount_sum_ok _ (zsum (input_values ins)) Hi)) by (split; [done|lia]).
  cbn [rbind]. rewrite (proj2 (amount_sum_ok _ (zsum (values l)) Hl)) by (split; [done|lia]).
  cbn [rbind]. unfold checked_sub. by rewrite (proj2 (Z.leb_gt _ _)) by lia.
Qed.

(** ** Concrete selections *)

Module SampleSelection.
Definition select (req opt : list Utxo) (rate target : Z) (drain : Script)
    : result (Z * Z) (list OutPoint) :=
  let available := zsum ((λ u, value (utxo_output u)) <$> req ++ opt) in
  if target <=? available then Ok (outpoint <$> req ++ opt) else Err (target, available).
#[export] Instance bdk : Bdk := {| coin_select := select |}.
#[export] Instance bdk_laws : BdkLaws.
Proof.
  split; simpl; unfold select.
  - intros req opt rate target drain sel Hnd. case_match; [|done]. intros [= <-].
    split_and!; [done| |done]. intros u Hu. apply list_elem_of_fmap. exists u. split; [done|].
    apply elem_of_app. by left.
  - intros. by case_match.
Qed.
Definition wallet (l : list Utxo) : gmap OutPoint Utxo := list_to_map ((λ u, (outpoint u, u)) <$> l).
Definition pegout (n v : Z) : TxOut * PegoutId :=
  ({| value := v; script_pubkey := [82] |}, SampleDb.pid n).
End SampleSelection.
Import SampleSelection.
#[local] Existing Instances Sample.lib Sample.lib_laws.

Lemma coin_selection_conserves_witness :
  ∃ p ins kept fees change,
    coin_selection (wallet [SampleDb.utxo 1 100000]) (wallet [SampleDb.utxo 2 5000])
      [pegout 3 40000] 1000 [81] = Ok p ∧
    p = created_psbt ins (zip_with after_fee kept fees) (Some change) ∧
    to_dto (SampleDb.utxo 2 5000) ∈ ins.
Proof.
  destruct (coin_selection (wallet [SampleDb.utxo 1 100000]) (wallet [SampleDb.utxo 2 5000])
              [pegout 3 40000] 1000 [81]) as [p|e|] eqn:Heq.
  2,3: apply (f_equal is_ok) in Heq; vm_compute in Heq; discriminate Heq.
  destruct (coin_selection_conserves (wallet [SampleDb.utxo 1 100000])
    (wallet [SampleDb.utxo 2 5000]) [pegout 3 40000] 1000 [81] p)
    as (ins & kept & fees & change & Hp & _ & Hreq & _).
  - unfold own_key. decide_vm.
  - unfold own_key. decide_vm.
  - decide_vm.
  - unfold utxo_ok. decide_vm.
  - unfold utxo_ok. decide_vm.
  - decide_vm.
  - exact Heq.
  - exists p, ins, kept, fees, change. split; [reflexivity|]. split; [exact Hp|].
    apply Hreq. decide_vm.
Defined.

(** The second pass can filter again: dropping the smallest pegout leaves fewer
    outputs to share the inputs' weight, which turns another one into dust. *)
Theorem recalculation_can_filter_more :
  coin_selection (wallet [SampleDb.utxo 1 100000]) ∅
    [pegout 3 3000; pegout 4 3600; pegout 5 50000] 10000 [81] =
  Err (SanityCheck RecalculationFilteredMoreOutputs).
Proof. vm_compute. reflexivity. Qed.

(** A selection that exactly covers the pegouts still adds a change output,
    worth nothing. *)
Theorem exact_selection_has_zero_change :
  ∃ p, coin_selection (wallet [SampleDb.utxo 1 50000]) ∅ [pegout 3 50000] 1000 [81] = Ok p ∧
    value <$> last (output (unsigned_tx p)) = Some 0.
Proof. eexists. split; vm_compute; reflexivity. Qed.

(** A pegout to the change script itself is taken for the change by the sanity
    check, which looks for the first output with that script: the selection
    fails, whatever else it was to pay. *)
Theorem pegout_to_change_script_fails :
  coin_selection (wallet [SampleDb.utxo 1 100000]) ∅
    [pegout 3 20000; ({| value := 30000; script_pubkey := [81] |}, SampleDb.pid 4)] 1000 [81] =
  Err (SanityCheck (BadRefundBalance 29605 100000 50000)).
Proof. vm_compute. reflexivity. Qed.
