(* ===== verification/ValidatePsbt.v ===== *)
(** * Validating a PSBT

    The checks of [bin/btc-server/src/util.rs] that the coordinator and every
    signer run on a PSBT before and during signing. *)

From S2P Require Import Prelude Bitcoin Psbt Database.

(** ** Flags *)

Definition NO_FLAGS : Z := 0.
Definition ROUND1 : Z := 1.
Definition ROUND1_TRANSITION : Z := Z.lor (Z.shiftl 1 1) ROUND1.
Definition ROUND2 : Z := Z.lor (Z.shiftl 1 2) ROUND1_TRANSITION.
Definition ROUND2_TRANSITION : Z := Z.lor (Z.shiftl 1 3) ROUND1_TRANSITION.

Definition UPPER_PEGOUT_BOUND : nat := 100.

(** [flags & mask == mask] *)
Definition has_flag (flags mask : Z) : bool := Z.land flags mask =? mask.

Inductive ValidateOutputsError :=
  | VoDbError (e : DbError)
  | MissingKeyPackage
  | InvalidPegoutId
  | AlreadyFinalizedPegouts (ids : list PegoutId)
  | ExpectingOnlyOneChangeOutput
  | InvalidChangeOutput
  | DuplicateOutputs
  | OutputCountMismatch (outputs tx_outputs : nat).

Inductive ConflictingInputError := FailedToDeserializePegoutId | NoConflictingInput.

Inductive ValidatePSBTError :=
  | VpDbError (e : DbError)
  | NoInputs
  | NoOutputs
  | VpPsbtError (e : PsbtError)
  | FeeSanityCheck (fee total : Z)
  | MissingWitnessUtxo
  | InvalidNumberOfSigningCommitments
  | InvalidNumberOfPartialSignatures
  | FrostIdMismatch
  | EthTweakMismatch
  | TxOutMismatch
  | VpExtractTxError (e : ExtractTxError)
  | InvalidOutputs (e : ValidateOutputsError)
  | VpConflictingInput (e : ConflictingInputError)
  | VpNegativeFee
  | VpFeeOverflow.

(** ** Outputs *)

(** The loop over the PSBT's outputs: pegout ids in order, and the index of the
    only untagged output. *)
Fixpoint scan_outputs (idx : nat) (outs : list PsbtOutput) (change : option nat)
    : result ValidateOutputsError (list PegoutId * option nat) :=
  match outs with
  | [] => Ok ([], change)
  | o :: outs' =>
      match pegout_id o with
      | Some b =>
          let? id := map_err (λ _, InvalidPegoutId) (from_bytes b) in
          let? '(ids, change') := scan_outputs (S idx) outs' change in
          Ok (id :: ids, change')
      | None =>
          match change with
          | Some _ => Err ExpectingOnlyOneChangeOutput
          | None => scan_outputs (S idx) outs' (Some idx)
          end
      end
  end.

(** The first id that is already finalized is removed from the pending set. *)
Fixpoint check_finalized (finalized ids : list PegoutId) : SM Db ValidateOutputsError () :=
  match ids with
  | [] => sret tt
  | id :: ids' =>
      if bool_decide (id ∈ finalized) then
        smodify (remove_pending_pegout [id]) ;;* slift (Err (AlreadyFinalizedPegouts [id]))
      else check_finalized finalized ids'
  end.

Section validate.
Context `{BitcoinLib, Frost}.
(** The change script of the federation's public key package; [None]: the key
    does not convert. *)
Context (change_spk_of : PublicKeyPackage → option Script).

Definition validate_outputs (p : Psbt) : SM Db ValidateOutputsError () :=
  if negb (length (outputs p) =? length (output (unsigned_tx p)))%nat then
    slift (Err (OutputCountMismatch (length (outputs p)) (length (output (unsigned_tx p)))))
  else
    let* d := sget in
    let* pk := slift (ok_or (get_public_key_package d) MissingKeyPackage) in
    let* '(ids, change_output) := slift (scan_outputs 0 (outputs p) None) in
    check_finalized (fin_id <$> get_finalized_pegout_ids d) ids ;;*
    if negb (size (list_to_set ids : gset PegoutId) =? length ids)%nat then
      slift (Err DuplicateOutputs)
    else
      match change_output with
      | Some idx =>
          let* expected := slift (expect (change_spk_of pk)) in
          let* o := slift (ok_or (output (unsigned_tx p) !! idx) InvalidChangeOutput) in
          if bool_decide (script_pubkey o = expected) then sret tt
          else slift (Err InvalidChangeOutput)
      | None => sret tt
      end.

(** ** Conflicting inputs *)

Fixpoint parse_pegout_ids (l : list bytes) : result ConflictingInputError (gset PegoutId) :=
  match l with
  | [] => Ok ∅
  | b :: l' =>
      let? id := map_err (λ _, FailedToDeserializePegoutId) (from_bytes b) in
      let? rest := parse_pegout_ids l' in
      Ok ({[id]} ∪ rest)
  end.

(** [Tx::inputs] *)
Definition tracked_inputs_of (t : Tx) : list OutPoint := previous_output <$> input (tx t).

Fixpoint check_conflicts (pegout_ids : gset PegoutId) (psbt_inputs : gset OutPoint) (l : list Tx)
    : result ConflictingInputError () :=
  match l with
  | [] => Ok tt
  | t :: l' =>
      if existsb (λ r, bool_decide (req_id r ∈ pegout_ids)) (pegout_requests t) then
        if existsb (λ i, bool_decide (i ∈ psbt_inputs)) (tracked_inputs_of t)
        then check_conflicts pegout_ids psbt_inputs l'
        else Err NoConflictingInput
      else check_conflicts pegout_ids psbt_inputs l'
  end.

Definition has_conflicting_input (d : Db) (p : Psbt) : result ConflictingInputError () :=
  let psbt_inputs := list_to_set (previous_output <$> input (unsigned_tx p)) in
  let? ids := parse_pegout_ids (pegout_ids p) in
  check_conflicts ids psbt_inputs (get_tracked_txs d).

(** [get_available_utxos] *)
Definition get_available_utxos (d : Db) : gmap OutPoint Utxo * gset OutPoint :=
  let utxos := list_to_map ((λ u, (outpoint u, u)) <$> get_all_utxos d) : gmap OutPoint Utxo in
  let tracked := list_to_set (get_tracked_txs d ≫= tracked_inputs_of) : gset OutPoint in
  (filter (λ kv, kv.1 ∉ tracked) utxos, tracked).

(** ** The whole PSBT *)

(** [checked_add(..).unwrap_or_default()]: an overflow starts over from zero. *)
Definition total_outputs (p : Psbt) : Z :=
  foldl (λ total o, default 0 (checked_add total (value o))) 0 (output (unsigned_tx p)).

(** The loop over the inputs under [ROUND1]; an input whose UTXO is unknown ends
    it with success. *)
Fixpoint check_inputs (d : Db) (ins : list TxIn) (l : list PsbtInput)
    : result ValidatePSBTError () :=
  match l with
  | [] => Ok tt
  | i :: l' =>
      match ins with
      | [] => Panic
      | txin :: ins' =>
          match get_utxo (previous_output txin) d with
          | None => Ok tt
          | Some u =>
              let? _ := match utxo_eth_address u with
                        | Some e => if bool_decide (eth_address i = Some e) then Ok tt
                                    else Err EthTweakMismatch
                        | None => Ok tt
                        end in
              let? o := ok_or (witness_utxo i) MissingWitnessUtxo in
              if bool_decide (utxo_output u = o) then check_inputs d ins' l'
              else Err TxOutMismatch
          end
      end
  end.

(** [sc.keys().ne(sig.keys())] on sorted maps compares the key sets. *)
Definition keys_differ {A B} (p : gmap Identifier A * gmap Identifier B) : bool :=
  bool_decide (dom p.1 ≠ dom p.2).

Definition validate_psbt (p : Psbt) (flags min_signers : Z) : SM Db ValidatePSBTError () :=
  match inputs p with
  | [] => slift (Err NoInputs)
  | _ =>
    let* d0 := sget in
    slift (map_err VpConflictingInput (has_conflicting_input d0 p)) ;;*
    match outputs p with
    | [] => slift (Err NoOutputs)
    | _ =>
      smap_err InvalidOutputs (validate_outputs p) ;;*
      let* fee := slift (map_err (λ e, match e with
                                       | NegativeFee => VpNegativeFee
                                       | FeeOverflow => VpFeeOverflow
                                       | e => VpPsbtError e
                                       end) (psbt_fee p)) in
      if total_outputs p <? fee then slift (Err (FeeSanityCheck fee (total_outputs p)))
      else if flags =? NO_FLAGS then sret tt
      else
        let scs := all_signing_commitments <$> inputs p in
        let sigs := all_partial_signatures <$> inputs p in
        if has_flag flags ROUND1_TRANSITION &&
           existsb (λ m, Z.of_nat (size m) <? min_signers) scs
        then slift (Err InvalidNumberOfSigningCommitments)
        else if has_flag flags ROUND2 && existsb (λ m, min_signers <? Z.of_nat (size m)) sigs
        then slift (Err InvalidNumberOfPartialSignatures)
        else if has_flag flags ROUND2_TRANSITION &&
                existsb (λ m, negb (Z.of_nat (size m) =? min_signers)) sigs
        then slift (Err InvalidNumberOfPartialSignatures)
        else if has_flag flags ROUND2_TRANSITION && existsb keys_differ (zip scs sigs)
        then slift (Err FrostIdMismatch)
        else
          let* t := slift (map_err VpExtractTxError (extract_tx p)) in
          let* d := sget in
          if has_flag flags ROUND1 then slift (check_inputs d (input t) (inputs p))
          else sret tt
    end
  end.

End validate.
