(* ===== verification/ValidateTheory.v ===== *)
(** * Theorems about PSBT validation

    What a PSBT that passes validation guarantees, on every round, and what a
    failing validation does to the database. *)

From S2P Require Import Prelude Bitcoin Psbt Database DatabaseTheory ValidatePsbt.

(** ** Outputs *)

Lemma scan_outputs_spec idx outs c ids c' :
  scan_outputs idx outs c = Ok (ids, c') →
  Forall2 (λ b id, from_bytes b = Ok id) (omap pegout_id outs) ids ∧
  (∀ i o, outs !! i = Some o → pegout_id o = None → c' = Some (idx + i)%nat) ∧
  (c ≠ None → c' = c).
Proof.
  revert idx c ids c'. induction outs as [|o outs IH]; intros idx c ids c' Heq; simpl in Heq.
  - injection Heq as <- <-. split_and!; [constructor|done|done].
  - rewrite list_omap_cons. destruct (pegout_id o) as [b|] eqn:Ho.
    + rinv Heq. destruct a0 as [ids' c'']. injection Heq as <- <-. apply map_err_ok in E.
      apply IH in E0 as (Hf & Hc & Hn). split_and!; [by constructor| |done].
      intros [|i] o' Hi Ho'; simplify_eq/=. rewrite (Hc i o') by done. f_equal. lia.
    + destruct c as [c|]; [done|]. apply IH in Heq as (Hf & Hc & Hn).
      split_and!; [done| |done]. intros [|i] o' Hi Ho'; simplify_eq/=.
      * rewrite Nat.add_0_r. by apply Hn.
      * rewrite (Hc i o') by done. f_equal. lia.
Qed.

Lemma check_finalized_ok fin ids d r d' :
  check_finalized fin ids d = (r, d') →
  (r = Ok tt ∧ d' = d ∧ Forall (λ id, id ∉ fin) ids) ∨
  ∃ id, id ∈ ids ∧ id ∈ fin ∧ r = Err (AlreadyFinalizedPegouts [id]) ∧
        d' = remove_pending_pegout [id] d.
Proof.
  induction ids as [|id ids IH]; simpl.
  - intros [= <- <-]. left. by split_and!.
  - case_bool_decide as Hin.
    + unfold sbind, smodify, slift. intros [= <- <-]. right. exists id. split_and!; try done. left.
    + intros Heq. apply IH in Heq as [(-> & -> & Hf)|(id' & ? & ? & ? & ?)].
      * left. split_and!; [done|done|by constructor].
      * right. exists id'. split_and!; try done. by right.
Qed.

Section theory.
Context `{BitcoinLib, Frost}.
Context (change_spk_of : PublicKeyPackage → option Script).

(** Every output is a declared pegout or the one change output. *)
Record outputs_valid (p : Psbt) (d : Db) : Prop := {
  ov_count : length (outputs p) = length (output (unsigned_tx p));
  ov_ids : ∃ ids, Forall2 (λ b id, from_bytes b = Ok id) (pegout_ids p) ids ∧ NoDup ids ∧
                  Forall (λ id, id ∉ fin_id <$> get_finalized_pegout_ids d) ids;
  ov_change : ∀ i o, outputs p !! i = Some o → pegout_id o = None →
    (∃ pk spk, get_public_key_package d = Some pk ∧ change_spk_of pk = Some spk ∧
               script_pubkey <$> output (unsigned_tx p) !! i = Some spk) ∧
    ∀ j o', outputs p !! j = Some o' → pegout_id o' = None → j = i;
}.

Lemma size_list_to_set_NoDup (ids : list PegoutId) :
  size (list_to_set ids : gset PegoutId) = length ids → NoDup ids.
Proof.
  induction ids as [|id ids IH]; intros Hs; [constructor|]. simpl in Hs.
  assert (size (list_to_set ids : gset PegoutId) ≤ length ids)%nat as Hle.
  { clear. induction ids as [|id ids IH]; [done|]. simpl.
    rewrite size_union_alt, size_singleton.
    pose proof (subseteq_size (list_to_set ids ∖ {[id]} : gset PegoutId) (list_to_set ids)
      ltac:(set_solver)). lia. }
  destruct (decide (id ∈ ids)) as [Hin|Hin].
  - rewrite subseteq_union_1_L in Hs; [lia|]. intros x ->%elem_of_singleton.
    by apply elem_of_list_to_set.
  - constructor; [done|]. apply IH. rewrite size_union, size_singleton in Hs; [lia|].
    intros x ->%elem_of_singleton. by rewrite elem_of_list_to_set.
Qed.

(** The outcomes of output validation. *)
Lemma validate_outputs_cases p d r d' :
  validate_outputs change_spk_of p d = (r, d') →
  (r = Ok tt → d' = d ∧ outputs_valid p d) ∧
  (d' = d ∨ ∃ id, r = Err (AlreadyFinalizedPegouts [id]) ∧
     id ∈ fin_id <$> get_finalized_pegout_ids d ∧ d' = remove_pending_pegout [id] d).
Proof.
  unfold validate_outputs. destruct (Nat.eqb_spec (length (outputs p))
    (length (output (unsigned_tx p)))) as [Hcount|]; cbn [negb].
  2: { unfold slift. intros [= <- <-]. split; [done|by left]. }
  unfold sbind at 1, sget. unfold sbind at 1, slift.
  destruct (get_public_key_package d) as [pk|] eqn:Hpk; cbn [ok_or].
  2: { intros [= <- <-]. split; [done|by left]. }
  unfold sbind at 1. destruct (scan_outputs 0 (outputs p) None) as [[ids c]|e|] eqn:Hscan;
    [|intros [= <- <-]; (split; [done|by left])..].
  apply scan_outputs_spec in Hscan as (Hids & Hc & _).
  unfold sbind at 1. destruct (check_finalized _ ids d) as [rf df] eqn:Hfin.
  apply check_finalized_ok in Hfin as [(-> & -> & Hnf)|(id & Hid & Hif & -> & ->)].
  2: { intros [= <- <-]. split; [done|]. right. by exists id. }
  destruct (Nat.eqb_spec (size (list_to_set ids : gset PegoutId)) (length ids)) as [Hsz|];
    cbn [negb]; [|unfold slift; intros [= <- <-]; (split; [done|by left])].
  apply size_list_to_set_NoDup in Hsz. destruct c as [idx|].
  - unfold sbind at 1, slift. destruct (change_spk_of pk) as [spk|] eqn:Hspk; cbn [expect].
    2: { intros [= <- <-]. split; [done|by left]. }
    unfold sbind. destruct (output (unsigned_tx p) !! idx) as [o|] eqn:Ho; cbn [ok_or].
    2: { intros [= <- <-]. split; [done|by left]. }
    case_bool_decide as Hs; unfold sret; intros [= <- <-]; [|split; [done|by left]].
    split; [|by left]. intros _. split; [done|]. split; [done|by exists ids|].
    assert (∀ i o', outputs p !! i = Some o' → pegout_id o' = None → i = idx) as Hi.
    { intros i o' Hi Hn. specialize (Hc i o' Hi Hn). by injection Hc. }
    intros i o' Hio Hn. assert (i = idx) as -> by eauto. split; [|naive_solver].
    exists pk, spk. split_and!; [done|done|]. rewrite Ho. simpl. by f_equal.
  - unfold sret. intros [= <- <-]. split; [|by left]. intros _. split; [done|].
    split; [done|by exists ids|]. intros i o Hi Hn. by specialize (Hc i o Hi Hn).
Qed.

(** ** Conflicting inputs *)

Lemma parse_pegout_ids_spec l ids :
  parse_pegout_ids l = Ok ids → ∀ b id, b ∈ l → from_bytes b = Ok id → id ∈ ids.
Proof.
  revert ids. induction l as [|b l IH]; intros ids Heq b' id Hb Hid; simpl in Heq.
  - by apply elem_of_nil in Hb.
  - rinv Heq. injection Heq as <-. apply map_err_ok in E.
    apply elem_of_cons in Hb as [->|Hb]; [|set_solver].
    assert (a = id) as -> by congruence. set_solver.
Qed.

(** A tracked transaction paying one of the ids shares an input with the PSBT. *)
Definition conflicts (p : Psbt) (t : Tx) : Prop :=
  (∃ r b, r ∈ pegout_requests t ∧ b ∈ pegout_ids p ∧ from_bytes b = Ok (req_id r)) →
  ∃ i, i ∈ tracked_inputs_of t ∧ i ∈ previous_output <$> input (unsigned_tx p).

Lemma check_conflicts_spec ids ins l :
  check_conflicts ids ins l = Ok tt →
  ∀ t, t ∈ l → (∃ r, r ∈ pegout_requests t ∧ req_id r ∈ ids) →
  ∃ i, i ∈ tracked_inputs_of t ∧ i ∈ ins.
Proof.
  induction l as [|t l IH]; intros Heq t' Ht Hr; [by apply elem_of_nil in Ht|].
  simpl in Heq. apply elem_of_cons in Ht as [->|Ht].
  - destruct (existsb (λ r, bool_decide (req_id r ∈ ids)) (pegout_requests t)) eqn:Hex.
    + destruct (existsb (λ i, bool_decide (i ∈ ins)) (tracked_inputs_of t)) eqn:Hin; [|done].
      apply existsb_exists in Hin as (i & Hi & Hb). apply list_elem_of_In in Hi.
      exists i. by apply bool_decide_eq_true in Hb.
    + exfalso. destruct Hr as (r & Hr & Hid). assert (true = false) as Hbad; [|done].
      rewrite <-Hex. symmetry. apply existsb_exists. exists r.
      split; [by apply list_elem_of_In|]. by apply bool_decide_eq_true.
  - repeat case_match; try done; by apply IH.
Qed.

Lemma has_conflicting_input_spec d p :
  has_conflicting_input d p = Ok tt → ∀ t, t ∈ get_tracked_txs d → conflicts p t.
Proof.
  unfold has_conflicting_input. intros Heq t Ht (r & b & Hr & Hb & Hid). rinv1 Heq.
  destruct (check_conflicts_spec _ _ _ Heq t Ht) as (i & Hi & Hin).
  - exists r. split; [done|]. by eapply parse_pegout_ids_spec.
  - exists i. split; [done|]. by apply elem_of_list_to_set in Hin.
Qed.

(** ** The whole validation *)

(** The checks beyond the sanity checks. *)
Record rounds_valid (p : Psbt) (flags min : Z) (d : Db) : Prop := {
  rv_round1_transition : has_flag flags ROUND1_TRANSITION = true →
    Forall (λ i, min ≤ Z.of_nat (size (all_signing_commitments i))) (inputs p);
  rv_round2 : has_flag flags ROUND2 = true →
    Forall (λ i, Z.of_nat (size (all_partial_signatures i)) ≤ min) (inputs p);
  rv_round2_transition : has_flag flags ROUND2_TRANSITION = true →
    Forall (λ i, Z.of_nat (size (all_partial_signatures i)) = min ∧
                 dom (all_signing_commitments i) = dom (all_partial_signatures i)) (inputs p);
  rv_round1 : has_flag flags ROUND1 = true →
    ∃ t, extract_tx p = Ok t ∧ check_inputs d (input t) (inputs p) = Ok tt;
}.

Lemma existsb_false {A} (f : A → bool) l : existsb f l = false → Forall (λ a, f a = false) l.
Proof.
  induction l as [|a l IH]; simpl; [constructor|]. intros [Ha Hl]%orb_false_iff.
  constructor; auto.
Qed.
Lemma flag_check {A} (flag : bool) (f : A → bool) (l : list A) :
  flag && existsb f l = false → flag = true → Forall (λ a, f a = false) l.
Proof. intros Hf ->. by apply existsb_false. Qed.

(** What passing the checks of the rounds means. *)
Lemma rounds_valid_intro p flags min d t :
  has_flag flags ROUND1_TRANSITION &&
    existsb (λ m, Z.of_nat (size m) <? min) (all_signing_commitments <$> inputs p) = false →
  has_flag flags ROUND2 &&
    existsb (λ m, min <? Z.of_nat (size m)) (all_partial_signatures <$> inputs p) = false →
  has_flag flags ROUND2_TRANSITION &&
    existsb (λ m, negb (Z.of_nat (size m) =? min)) (all_partial_signatures <$> inputs p) = false →
  has_flag flags ROUND2_TRANSITION && existsb keys_differ
    (zip (all_signing_commitments <$> inputs p) (all_partial_signatures <$> inputs p)) = false →
  extract_tx p = Ok t →
  (has_flag flags ROUND1 = true → check_inputs d (input t) (inputs p) = Ok tt) →
  rounds_valid p flags min d.
Proof.
  intros H1t H2 H2t H2k Hext Hci. split.
  - intros Hf. pose proof (flag_check _ _ _ H1t Hf) as Hall. rewrite Forall_fmap in Hall.
    eapply Forall_impl; [exact Hall|]. simpl. intros i Hi. bool_to_prop. done.
  - intros Hf. pose proof (flag_check _ _ _ H2 Hf) as Hall. rewrite Forall_fmap in Hall.
    eapply Forall_impl; [exact Hall|]. simpl. intros i Hi. bool_to_prop. done.
  - intros Hf. pose proof (flag_check _ _ _ H2t Hf) as Hall. rewrite Forall_fmap in Hall.
    pose proof (flag_check _ _ _ H2k Hf) as Hk. apply Forall_lookup. intros k i Hi.
    rewrite Forall_lookup in Hall. rewrite Forall_lookup in Hk.
    specialize (Hall k i Hi). simpl in Hall.
    specialize (Hk k (all_signing_commitments i, all_partial_signatures i)).
    rewrite lookup_zip_with, !list_lookup_fmap, Hi in Hk. specialize (Hk eq_refl).
    unfold keys_differ in Hk. simpl in Hk. bool_to_prop. split; [done|].
    by apply dec_stable.
  - intros Hf. exists t. split; [done|]. by apply Hci.
Qed.

(** The outcomes of a validation. *)
Lemma validate_psbt_cases p flags min d r d' :
  validate_psbt change_spk_of p flags min d = (r, d') →
  (r = Ok tt → d' = d ∧ inputs p ≠ [] ∧ outputs p ≠ [] ∧ has_conflicting_input d p = Ok tt ∧
     outputs_valid p d ∧ (∃ fee, psbt_fee p = Ok fee ∧ fee ≤ total_outputs p) ∧
     (flags ≠ NO_FLAGS → rounds_valid p flags min d)) ∧
  (d' = d ∨ ∃ id, r = Err (InvalidOutputs (AlreadyFinalizedPegouts [id])) ∧
     id ∈ fin_id <$> get_finalized_pegout_ids d ∧ d' = remove_pending_pegout [id] d).
Proof.
  unfold validate_psbt. destruct (inputs p) as [|i0 is0] eqn:Hins;
    [unfold slift; intros [= <- <-]; split; [done|by left]|]. rewrite <-Hins.
  assert (inputs p ≠ []) as Hine by (by rewrite Hins). clear Hins.
  unfold sbind at 1, sget. unfold sbind at 1, slift.
  destruct (has_conflicting_input d p) as [[]|e|] eqn:Hconf; cbn [map_err];
    [|intros [= <- <-]; (split; [done|by left])..].
  destruct (outputs p) as [|o0 os0] eqn:Houts;
    [unfold slift; intros [= <- <-]; split; [done|by left]|].
  rewrite <-Houts. assert (outputs p ≠ []) as Hone by (by rewrite Houts). clear Houts.
  unfold sbind at 1, smap_err. destruct (validate_outputs change_spk_of p d) as [ro d1] eqn:Hvo.
  apply validate_outputs_cases in Hvo as [Hok Hbad].
  destruct ro as [[]|e|]; cbn [map_err].
  2,3: intros [= <- <-]; split; [done|];
    destruct Hbad as [->|(id & Hr & ?)]; [by left|right; exists id; naive_solver].
  destruct (Hok eq_refl) as [-> Hov]. clear Hok Hbad.
  unfold sbind at 1. destruct (psbt_fee p) as [fee|e|] eqn:Hfee; cbn [map_err];
    [|intros [= <- <-]; (split; [done|by left])..].
  destruct (Z.ltb_spec (total_outputs p) fee) as [|Hle];
    [unfold slift; intros [= <- <-]; split; [done|by left]|].
  destruct (Z.eqb_spec flags NO_FLAGS) as [->|Hfl].
  { unfold sret. intros [= <- <-]. split; [|by left]. intros _. split_and!; try done. by exists fee. }
  intros Heq.
  assert (d' = d ∧ (r = Ok tt → rounds_valid p flags min d)) as [-> Hrv].
  2: { split; [|by left]. intros ->. split_and!; try done; [by exists fee|auto]. }
  revert Heq. unfold slift.
  destruct (has_flag flags ROUND1_TRANSITION && _) eqn:H1t; [cbv beta; by intros [= <- <-]|].
  destruct (has_flag flags ROUND2 && _) eqn:H2; [cbv beta; by intros [= <- <-]|].
  destruct (has_flag flags ROUND2_TRANSITION && existsb (λ m, _) _) eqn:H2t;
    [cbv beta; by intros [= <- <-]|].
  destruct (has_flag flags ROUND2_TRANSITION && existsb keys_differ _) eqn:H2k; [cbv beta; by intros [= <- <-]|].
  unfold sbind, sget. destruct (extract_tx p) as [t|e|] eqn:Hext; cbn [map_err];
    [|by intros [= <- <-]..].
  intros Heq. assert (d' = d ∧ (r = Ok tt → has_flag flags ROUND1 = true →
    check_inputs d (input t) (inputs p) = Ok tt)) as [-> Hci].
  { destruct (has_flag flags ROUND1); unfold sret in Heq; injection Heq as <- <-; by split. }
  split; [done|]. intros Hr. eapply rounds_valid_intro; eauto.
Qed.

Context `{!BitcoinLibLaws}.

(** C13. A PSBT that passes validation is safe to sign, in every round:
    validation changed nothing; every tracked transaction that pays one of its
    pegouts shares an input with it, so the two can never both confirm; every
    output is a declared pegout, distinct and not yet finalized, except at most
    one, which pays the federation's change script; and its fee, inputs minus
    outputs, is not negative. *)
Theorem validated_psbt_is_safe p flags min d d' :
  validate_psbt change_spk_of p flags min d = (Ok tt, d') →
  d' = d ∧ (∀ t, t ∈ get_tracked_txs d → conflicts p t) ∧ outputs_valid p d ∧
  ∃ vs fee, Forall2 (λ i v, value <$> witness_utxo i = Some v) (inputs p) vs ∧
    fee = zsum vs - zsum (value <$> output (unsigned_tx p)) ∧ 0 ≤ fee ≤ total_outputs p.
Proof.
  intros Heq. apply validate_psbt_cases in Heq as [Hok _].
  destruct (Hok eq_refl) as (-> & _ & _ & Hc & Hov & (fee & Hfee & Hle) & _).
  split; [done|]. split; [by apply has_conflicting_input_spec|]. split; [done|].
  apply psbt_fee_ok in Hfee as (vs & Hvs & -> & Hpos). by eexists vs, _.
Qed.

(** Inputs before the first unknown UTXO. *)
Lemma check_inputs_spec d ins l :
  check_inputs d ins l = Ok tt →
  ∀ k i txin u, l !! k = Some i → ins !! k = Some txin →
    (∀ j txin', (j ≤ k)%nat → ins !! j = Some txin' →
       is_Some (get_utxo (previous_output txin') d)) →
    get_utxo (previous_output txin) d = Some u →
    witness_utxo i = Some (utxo_output u) ∧
    (∀ e, utxo_eth_address u = Some e → eth_address i = Some e).
Proof.
  revert ins. induction l as [|i l IH]; intros ins Heq k i' txin u Hk Hi Hall Hu; [done|].
  destruct ins as [|txin0 ins]; [done|]. cbn [check_inputs] in Heq.
  destruct (Hall 0%nat txin0 ltac:(lia) eq_refl) as [u0 Hu0]. rewrite Hu0 in Heq.
  rinv Heq. apply ok_or_ok in E0. case_bool_decide as Ho; [|done].
  destruct k as [|k]; simplify_eq/=.
  - split; [by rewrite E0|]. intros e He. rewrite He in E. by case_bool_decide.
  - eapply (IH ins Heq k); [done..| |done]. intros j txin' Hj. apply (Hall (S j)). lia.
Qed.

(** Each round's quorum holds on every input: a PSBT accepted for the
    transition to round 2 has at least [min] signers' commitments on every input;
    one accepted in round 2 has at most [min] partial signatures; and when the
    database knows the UTXOs of all inputs up to some input, that input records
    the stored output and, if the UTXO has one, its eth tweak. *)
Theorem validated_psbt_rounds p flags min d d' :
  flags ≠ NO_FLAGS → validate_psbt change_spk_of p flags min d = (Ok tt, d') →
  (has_flag flags ROUND1_TRANSITION = true →
     Forall (λ i, min ≤ Z.of_nat (size (all_signing_commitments i))) (inputs p)) ∧
  (has_flag flags ROUND2 = true →
     Forall (λ i, Z.of_nat (size (all_partial_signatures i)) ≤ min) (inputs p)) ∧
  (has_flag flags ROUND1 = true →
     ∀ k i txin u, inputs p !! k = Some i → input (unsigned_tx p) !! k = Some txin →
       (∀ j txin', (j ≤ k)%nat → input (unsigned_tx p) !! j = Some txin' →
          is_Some (get_utxo (previous_output txin') d)) →
       get_utxo (previous_output txin) d = Some u →
       witness_utxo i = Some (utxo_output u) ∧
       (∀ e, utxo_eth_address u = Some e → eth_address i = Some e)).
Proof.
  intros Hfl Heq. apply validate_psbt_cases in Heq as [Hok _].
  destruct (Hok eq_refl) as (-> & _ & _ & _ & _ & _ & Hrv). destruct (Hrv Hfl) as [H1t H2 _ H1'].
  split_and!; [done|done|]. intros Hf k i txin u Hk Hi Hall Hu.
  destruct (H1' Hf) as (t & Hext & Hci). apply extract_tx_ok in Hext as [_ Hprev].
  assert (∀ j, previous_output <$> input t !! j = previous_output <$> input (unsigned_tx p) !! j)
    as Hlk by (intros j; by rewrite <-!list_lookup_fmap, Hprev).
  pose proof (Hlk k) as Hlkk. rewrite Hi in Hlkk. apply fmap_Some in Hlkk as (ti & Hti & Hpo).
  apply (check_inputs_spec d (input t) (inputs p) Hci k i ti u Hk Hti).
  - intros j tj Hj Htj. specialize (Hlk j). rewrite Htj in Hlk. symmetry in Hlk.
    apply fmap_Some in Hlk as (txj & Htxj & ->). by apply (Hall j txj).
  - by rewrite <-Hpo.
Qed.

(** Validation never changes the database except to forget a pegout that
    is already finalized: whatever the outcome, the database is the same, or the
    PSBT was refused for paying a finalized pegout and exactly that one left the
    pending set. *)
Theorem validation_database_effect p flags min d r d' :
  validate_psbt change_spk_of p flags min d = (r, d') →
  d' = d ∨
  ∃ id, r = Err (InvalidOutputs (AlreadyFinalizedPegouts [id])) ∧
    id ∈ fin_id <$> get_finalized_pegout_ids d ∧
    d' = put_pending (delete id (pending_pegouts d)) d.
Proof.
  intros Heq. apply validate_psbt_cases in Heq as [_ [->|(id & -> & Hid & ->)]]; [by left|].
  right. by exists id.
Qed.

(** An input whose UTXO is unknown ends the input checks with success: whatever
    follows, however wrong, is not looked at. *)
Theorem unknown_utxo_skips_checks d txin ins i l :
  get_utxo (previous_output txin) d = None → check_inputs d (txin :: ins) (i :: l) = Ok tt.
Proof. intros Hn. cbn [check_inputs]. by rewrite Hn. Qed.

End theory.

(** ** Concrete validations *)

#[local] Existing Instances Sample.lib Sample.lib_laws Sample.frost Sample.frost_laws.
Module SampleValidate.
Definition dto : InputDTO :=
  {| dto_outpoint := mkOutPoint (replicate 32 1) 0;
     dto_output := {| value := 5000; script_pubkey := [81] |};
     dto_eth_address := None; dto_version := V1 |}.
Definition psbt : Psbt :=
  created_psbt [dto] [({| value := 4000; script_pubkey := [82] |}, as_bytes (SampleDb.pid 3))]
    (Some {| value := 900; script_pubkey := [81] |}).
Definition change_script (pk : PublicKeyPackage) : option Script := Some pk.
Definition database : Db :=
  (store_utxos [SampleDb.utxo 1 5000] (set_pubkey_package [81] open)).2.
End SampleValidate.
Import SampleValidate.

Lemma validated_psbt_is_safe_witness :
  validate_psbt change_script psbt NO_FLAGS 2 database = (Ok tt, database) ∧
  outputs_valid change_script psbt database.
Proof.
  assert (validate_psbt change_script psbt NO_FLAGS 2 database = (Ok tt, database)) as Heq
    by (vm_compute; reflexivity).
  split; [exact Heq|].
  exact (proj1 (proj2 (proj2 (validated_psbt_is_safe change_script psbt NO_FLAGS 2 database
    database Heq)))).
Defined.

Lemma validated_psbt_rounds_witness :
  validate_psbt change_script psbt ROUND1 2 database = (Ok tt, database) ∧
  ∃ i, inputs psbt !! 0%nat = Some i ∧
    witness_utxo i = Some {| value := 5000; script_pubkey := [81] |}.
Proof.
  assert (validate_psbt change_script psbt ROUND1 2 database = (Ok tt, database)) as Heq
    by (vm_compute; reflexivity).
  split; [exact Heq|].
  destruct (validated_psbt_rounds change_script psbt ROUND1 2 database database
              ltac:(discriminate) Heq) as (_ & _ & Hin).
  eexists. split; [reflexivity|].
  refine (proj1 (Hin eq_refl 0%nat _ (make_txin dto) (SampleDb.utxo 1 5000) eq_refl eq_refl _ _)).
  - intros j txin Hj Htxin. destruct j; [|lia]. injection Htxin as <-.
    exists (SampleDb.utxo 1 5000). vm_compute. reflexivity.
  - vm_compute. reflexivity.
Defined.

Lemma validation_database_effect_witness :
  let d := store_finalized_pegout_id
             {| fin_id := SampleDb.pid 3; fin_block_number := 1; fin_timestamp := None |}
             (put_pending {[SampleDb.pid 3 := SampleDb.request 3 1]} database) in
  ∃ r d', validate_psbt change_script psbt NO_FLAGS 2 d = (r, d') ∧
    (d' = d ∨ ∃ id, r = Err (InvalidOutputs (AlreadyFinalizedPegouts [id])) ∧
       id ∈ fin_id <$> get_finalized_pegout_ids d ∧
       d' = put_pending (delete id (pending_pegouts d)) d).
Proof.
  intros d. destruct (validate_psbt change_script psbt NO_FLAGS 2 d) as [r d'] eqn:Heq.
  exists r, d'. split; [reflexivity|].
  exact (validation_database_effect change_script psbt NO_FLAGS 2 d r d' Heq).
Defined.
