(* ===== verification/Signing.v ===== *)
(** * Coordinating and signing pegout transactions

    [bin/btc-server/src/coordinator/mod.rs] and [signer/mod.rs], with the signing
    packages of [wallet/psbt.rs].  The FROST operations, the Taproot signature
    hash and miniscript's finalizer are parameters. *)

From S2P Require Import Prelude Bitcoin Psbt Database CoinSelection ValidatePsbt.

Record SigningPackage `{Frost} := {
  sp_commitments : gmap Identifier SigningCommitments;
  sp_message : bytes;
}.

(** [tweak]: the eth address a pegin key is tweaked with.  [commit key n]: the
    pair of the [n]-th random draw. *)
Class FrostSign `{Frost} := {
  SigningNonces : Type;
  commit : KeyPackage → nat → SigningNonces * SigningCommitments;
  sign_with_tweak : SigningPackage → SigningNonces → KeyPackage → option bytes →
                    option SignatureShare;
  aggregate_with_tweak : SigningPackage → gmap Identifier SignatureShare → PublicKeyPackage →
                         option bytes → option bytes;
  (** verification under the tweaked key *)
  verify : PublicKeyPackage → option bytes → bytes → bytes → bool;
  (** [schnorr::Signature::from_slice] of the serialized signature *)
  to_secp_sig : bytes → option bytes;
  taproot_sighash : Transaction → nat → list TxOut → option bytes;
  (** miniscript's [finalize_mut] *)
  finalize_mut : Psbt → option Psbt;
}.

(** ** Signing packages *)

Inductive SighashError := TaprootError | SighashMissingWitnessUtxo.
Inductive PackageError := PackageSighash (e : SighashError) | MissingSigningCommitments.

Section packages.
Context `{FrostSign}.

Fixpoint prevouts (l : list PsbtInput) : result SighashError (list TxOut) :=
  match l with
  | [] => Ok []
  | i :: l' =>
      let? o := ok_or (witness_utxo i) SighashMissingWitnessUtxo in
      let? rest := prevouts l' in
      Ok (o :: rest)
  end.

Definition calculate_sighash (p : Psbt) (index : nat) : result SighashError bytes :=
  let? outs := prevouts (inputs p) in
  ok_or (taproot_sighash (unsigned_tx p) index outs) TaprootError.

Fixpoint packages_from (p : Psbt) (index : nat) (l : list PsbtInput)
    : result PackageError (list SigningPackage) :=
  match l with
  | [] => Ok []
  | i :: l' =>
      let? sighash := map_err PackageSighash (calculate_sighash p index) in
      let sc := all_signing_commitments i in
      if bool_decide (sc = ∅) then Err MissingSigningCommitments
      else
        let? rest := packages_from p (S index) l' in
        Ok ({| sp_commitments := sc; sp_message := sighash |} :: rest)
  end.
Definition signing_packages (p : Psbt) : result PackageError (list SigningPackage) :=
  packages_from p 0 (inputs p).

End packages.

Definition with_inputs (l : list PsbtInput) (p : Psbt) : Psbt :=
  {| unsigned_tx := unsigned_tx p; inputs := l; outputs := outputs p |}.

(** ** The signer *)

Module Signer.

(** The errors the two rounds produce.  [R2NonceCount] and [R2InvalidNonce] are
    [InvalidSigningPackage] with its two messages. *)
Inductive SigningRound1Error := R1Validate (e : ValidatePSBTError) | R1MissingKeyPackage.
Inductive SigningRound2Error :=
  | R2Validate (e : ValidatePSBTError)
  | R2Extract (e : ExtractTxError)
  | R2Package (e : PackageError)
  | R2NonceCount
  | R2SignerNotFound (index : nat)
  | R2InvalidNonce
  | R2MissingKeyPackage
  | R2Frost.

Section signer.
Context `{BitcoinLib, FrostSign}.
Context (change_spk_of : PublicKeyPackage → option Script).

(** The database and the PSBT the caller passed by mutable reference. *)
Abbreviation SignM E := (SM (Db * Psbt) E).
Definition validate {E} (f : ValidatePSBTError → E) (flags min : Z) : SignM E () := λ x,
  let '(r, d) := validate_psbt change_spk_of x.2 flags min x.1 in (map_err f r, (d, x.2)).

(** One nonce pair per input; [n] is the number of random draws made before. *)
Fixpoint commit_inputs (id : Identifier) (k : KeyPackage) (n : nat) (l : list PsbtInput)
    : result SigningRound1Error (list PsbtInput * list (SigningNonces * SigningCommitments)) :=
  match l with
  | [] => Ok ([], [])
  | i :: l' =>
      let pair := commit k n in
      match set_signing_commitment id pair.2 i with
      | Ok i' =>
          let? '(rest, pairs) := commit_inputs id k (S n) l' in
          Ok (i' :: rest, pair :: pairs)
      | _ => Panic
      end
  end.

Definition get_round1_signing_package (min_signers : Z) (my_identifier : Identifier) (n : nat)
    : SignM SigningRound1Error (list (SigningNonces * SigningCommitments)) :=
  validate R1Validate ROUND1 min_signers ;;*
  let* x := sget in
  let* k := slift (ok_or (get_key_package x.1) R1MissingKeyPackage) in
  let* '(l, pairs) := slift (commit_inputs my_identifier k n (inputs x.2)) in
  smodify (λ x, (x.1, with_inputs l x.2)) ;;*
  sret pairs.

(** Our commitment must be in every package and be the one of our nonce. *)
Fixpoint check_packages (id : Identifier) (index : nat) (pkgs : list SigningPackage)
    (nonces : list (SigningNonces * SigningCommitments)) : result SigningRound2Error () :=
  match pkgs with
  | [] => Ok tt
  | pkg :: pkgs' =>
      match sp_commitments pkg !! id with
      | None => Err (R2SignerNotFound index)
      | Some sc =>
          match nonces with
          | [] => Panic
          | nonce :: nonces' =>
              if bool_decide (sc = nonce.2) then check_packages id (S index) pkgs' nonces'
              else Err R2InvalidNonce
          end
      end
  end.

(** The signatures, input by input; those made before a failure stay in the
    PSBT.  [zip]: inputs without a package are left alone. *)
Fixpoint sign_inputs (id : Identifier) (k : KeyPackage) (pkgs : list SigningPackage)
    (nonces : list (SigningNonces * SigningCommitments)) (l : list PsbtInput)
    : result SigningRound2Error () * list PsbtInput :=
  match pkgs, l with
  | pkg :: pkgs', i :: l' =>
      match nonces with
      | [] => (Panic, l)
      | nonce :: nonces' =>
          match sign_with_tweak pkg nonce.1 k (eth_address i) with
          | None => (Err R2Frost, l)
          | Some sig =>
              let '(r, rest) := sign_inputs id k pkgs' nonces' l' in
              (r, set_partial_signature id sig i :: rest)
          end
      end
  | _, _ => (Ok tt, l)
  end.

Definition get_round2_signing_package (min_signers : Z) (id : Identifier)
    (nonces : list (SigningNonces * SigningCommitments)) : SignM SigningRound2Error () :=
  validate R2Validate ROUND2 min_signers ;;*
  let* x := sget in
  let* t := slift (map_err R2Extract (extract_tx x.2)) in
  let* pkgs := slift (map_err R2Package (signing_packages x.2)) in
  if negb (length nonces =? length (input t))%nat then slift (Err R2NonceCount)
  else
    slift (check_packages id 0 pkgs nonces) ;;*
    let* k := slift (ok_or (get_key_package x.1) R2MissingKeyPackage) in
    let '(r, l) := sign_inputs id k pkgs nonces (inputs x.2) in
    smodify (λ x, (x.1, with_inputs l x.2)) ;;*
    slift r ;;*
    let* x' := sget in
    let* _ := slift (map_err R2Extract (extract_tx x'.2)) in
    sret tt.

End signer.
End Signer.

(** ** The coordinator *)

Module Coordinator.

(** The errors these functions produce.  [CDb], [CPackage], [CMissingKeyPackage]
    and [CWalletCalculation] are [Db], [PsbtToSigningPackageConversionError],
    [MissingKeyPackage] and [WalletCalculationError]; a frost, secp256k1 or
    finalization error's payload is left out. *)
Inductive CoordinatorError :=
  | CMissingKeyPackage
  | NotEnoughSigners
  | CDb (e : DbError)
  | CPackage (e : PackageError)
  | CouldNotFindPsbt
  | CouldNotFindParticipantInformation
  | FailedToValidatePsbt (e : ValidatePSBTError)
  | FrostError
  | Secp256k1Error
  | PbstFinalizationFailed
  | MissingFinalScript
  | MissingSigningPackageAtIndex (index : nat)
  | CoinSelectionErr (e : CoinSelectionError)
  | NoConflictingInputs
  | MissingUtxoForConflictingInput
  | CWalletCalculation (e : WalletCalculationError)
  | TransactionTooLarge
  (** not an error of the code: the model's loop ran out of fuel *)
  | COutOfFuel.

Abbreviation CoordM := (SM Db CoordinatorError).

Definition is_excluded (excluded : list bytes) (u : Utxo) : bool :=
  match utxo_eth_address u with
  | Some addr => bool_decide (addr ∈ excluded)
  | None => false
  end.
Definition filter_excluded_utxos (utxos : gmap OutPoint Utxo) (excluded : list bytes)
    : gmap OutPoint Utxo :=
  match excluded with
  | [] => utxos
  | _ => filter (λ kv, is_excluded excluded kv.2 = false) utxos
  end.

Section coordinator.
Context `{BitcoinLib, FrostSign, Bdk}.
Context (change_spk_of : PublicKeyPackage → option Script).

Definition cvalidate (p : Psbt) (flags min : Z) : CoordM () :=
  smap_err FailedToValidatePsbt (validate_psbt change_spk_of p flags min).

Definition add_round1_signing (session : bytes) (id : Identifier) (p : Psbt) (min_signers : Z)
    : CoordM () :=
  cvalidate p ROUND1 min_signers ;;*
  if existsb (λ i, bool_decide (signing_commitments id i = None)) (inputs p) then
    slift (Err CouldNotFindParticipantInformation)
  else smap_err CDb (update_psbt session p).

Definition add_round2_signing (session : bytes) (id : Identifier) (p : Psbt) (min_signers : Z)
    : CoordM () :=
  cvalidate p ROUND2 min_signers ;;*
  smap_err CDb (update_psbt session p).

(** ** Building a transaction *)

(** All database UTXOs by outpoint. *)
Definition utxo_map (d : Db) : gmap OutPoint Utxo :=
  list_to_map ((λ u, (outpoint u, u)) <$> get_all_utxos d).

(** A tracked transaction pays one of the ids. *)
Definition pays_any (ids : list PegoutId) (t : Tx) : bool :=
  existsb (λ r, bool_decide (req_id r ∈ ids)) (pegout_requests t).

(** The first input of every matching transaction. *)
Fixpoint first_inputs (l : list Tx) : result CoordinatorError (list OutPoint) :=
  match l with
  | [] => Ok []
  | t :: l' =>
      let? i := ok_or (head (tracked_inputs_of t)) NoConflictingInputs in
      let? rest := first_inputs l' in
      Ok (i :: rest)
  end.

Fixpoint conflicting_utxos (utxos : gmap OutPoint Utxo) (l : list OutPoint)
    : result CoordinatorError (gmap OutPoint Utxo) :=
  match l with
  | [] => Ok ∅
  | o :: l' =>
      let? u := ok_or (utxos !! o) MissingUtxoForConflictingInput in
      let? rest := conflicting_utxos utxos l' in
      Ok (<[o := u]> rest)
  end.

Definition attempt_make_tx (outs : list (TxOut * PegoutId)) (fee_rate : Z) (change_script : Script)
    (min_signers : Z) (tracked : list Tx) (excluded : list bytes) : CoordM Psbt :=
  let* d := sget in
  let utxos := utxo_map d in
  let filtered := filter_excluded_utxos utxos excluded in
  let tracked_inputs := list_to_set (tracked ≫= tracked_inputs_of) : gset OutPoint in
  let optional := filter (λ kv, kv.1 ∉ tracked_inputs) filtered in
  let tracked_ids := req_id <$> (tracked ≫= pegout_requests) in
  let matching := filter (λ id, id ∈ tracked_ids) outs.*2 in
  let* matching_inputs := slift (first_inputs (filter (λ t, pays_any matching t = true) tracked)) in
  let* conflicting := slift (conflicting_utxos utxos matching_inputs) in
  let* p := slift (map_err CoinSelectionErr
                     (coin_selection optional conflicting outs fee_rate change_script)) in
  cvalidate p NO_FLAGS min_signers ;;*
  sret p.

(** [make_tx]: retry with fewer outputs while the transaction is too heavy. *)
Fixpoint make_tx (fuel : nat) (outs : list (TxOut * PegoutId)) (fee_rate : Z)
    (change_script : Script) (min_signers : Z) (tracked : list Tx) (excluded : list bytes)
    : CoordM Psbt :=
  match fuel with
  | O => slift (Err COutOfFuel)
  | S fuel' =>
      let* p := attempt_make_tx outs fee_rate change_script min_signers tracked excluded in
      let* w := slift (map_err CWalletCalculation (calculate_signed_tx_weight p)) in
      if w <=? MAX_PEGOUT_TX_WEIGHT then sret p
      else if (length outs <=? 1)%nat then slift (Err TransactionTooLarge)
      else make_tx fuel' (take (length outs - length outs / 10) outs) fee_rate change_script
             min_signers tracked excluded
  end.

(** ** Collecting signatures *)

Definition get_to_sign (session : bytes) (min_signers : Z) : CoordM Psbt :=
  let* d := sget in
  match get_psbt session d with
  | Some p =>
      if existsb (λ i, Z.of_nat (size (all_signing_commitments i)) <? min_signers) (inputs p)
      then slift (Err NotEnoughSigners)
      else cvalidate p ROUND1_TRANSITION min_signers ;;* sret p
  | None => slift (Err CouldNotFindPsbt)
  end.

Definition TAP_SIGHASH_DEFAULT : Z := 0.
Definition set_tap_key_sig (sig : bytes) (i : PsbtInput) : PsbtInput :=
  {| witness_utxo := witness_utxo i; in_proprietary := in_proprietary i;
     sighash_type := Some TAP_SIGHASH_DEFAULT; tap_key_sig := Some sig;
     final_script_witness := final_script_witness i |}.
Definition set_final_witness (w : list bytes) (i : PsbtInput) : PsbtInput :=
  {| witness_utxo := witness_utxo i; in_proprietary := in_proprietary i;
     sighash_type := sighash_type i; tap_key_sig := tap_key_sig i;
     final_script_witness := Some w |}.

(** Aggregate, verify and record the signature of every input. *)
Fixpoint aggregate_inputs (pk : PublicKeyPackage) (index : nat) (pkgs : list SigningPackage)
    (l : list PsbtInput) {struct l} : result CoordinatorError (list PsbtInput) :=
  match l with
  | [] => Ok []
  | i :: l' =>
      match pkgs with
      | [] => Err (MissingSigningPackageAtIndex index)
      | pkg :: pkgs' =>
          let tweak := eth_address i in
          let? sig := ok_or (aggregate_with_tweak pkg (all_partial_signatures i) pk tweak)
                        FrostError in
          if verify pk tweak (sp_message pkg) sig then
            let? secp_sig := ok_or (to_secp_sig sig) Secp256k1Error in
            let? rest := aggregate_inputs pk (S index) pkgs' l' in
            Ok (set_tap_key_sig secp_sig i :: rest)
          else Err FrostError
      end
  end.

(** Copy the final witnesses into the PSBT that still has the signers' fields;
    [psbt.inputs[index]] panics out of range. *)
Fixpoint copy_witnesses (final original : list PsbtInput) {struct original}
    : result CoordinatorError (list PsbtInput) :=
  match original with
  | [] => Ok []
  | o :: original' =>
      match final with
      | [] => Panic
      | f :: final' =>
          let? w := ok_or (final_script_witness f) MissingFinalScript in
          let? rest := copy_witnesses final' original' in
          Ok (set_final_witness w o :: rest)
      end
  end.

Definition finalize_signing (session : bytes) (d : Db) : result CoordinatorError Psbt :=
  let? p := ok_or (get_psbt session d) CouldNotFindPsbt in
  let? pk := ok_or (get_public_key_package d) CMissingKeyPackage in
  let? pkgs := map_err CPackage (signing_packages p) in
  let? l := aggregate_inputs pk 0 pkgs (inputs p) in
  let original := with_inputs l p in
  let? final := ok_or (finalize_mut original) PbstFinalizationFailed in
  let? l' := copy_witnesses (inputs final) (inputs original) in
  Ok (with_inputs l' original).

End coordinator.
End Coordinator.
