(* ===== verification/SigningTheory.v ===== *)
(** * Theorems about signing

    The signer commits to one fresh nonce per input and signs only under its own
    commitments; the coordinator's transactions respect pending retries and the
    weight limit; a finalized PSBT carries verified signatures. *)

From S2P Require Import Prelude Bitcoin Psbt Database DatabaseTheory CoinSelection.
From S2P Require Import CoinSelectionTheory ValidatePsbt ValidateTheory Signing.

(** ** Signing packages *)

Section packages.
Context `{FrostSign}.

Lemma packages_from_spec p idx l pkgs :
  packages_from p idx l = Ok pkgs →
  Forall2 (λ i pkg, sp_commitments pkg = all_signing_commitments i) l pkgs ∧
  ∀ k pkg, pkgs !! k = Some pkg → calculate_sighash p (idx + k) = Ok (sp_message pkg).
Proof.
  revert idx pkgs. induction l as [|i l IH]; intros idx pkgs Heq; simpl in Heq.
  - injection Heq as <-. by split; [constructor|].
  - rinv1 Heq. apply map_err_ok in E. case_bool_decide; [done|]. rinv1 Heq. injection Heq as <-.
    destruct (IH _ _ E0) as [Hf Hm]. split; [by constructor|].
    intros [|k] pkg Hk; simplify_eq/=; [by rewrite Nat.add_0_r|].
    rewrite Nat.add_succ_r. by apply (Hm k).
Qed.

(** Package [k] holds the commitments and the signature hash of input [k]. *)
Lemma signing_packages_spec p pkgs :
  signing_packages p = Ok pkgs → length pkgs = length (inputs p) ∧
  ∀ k i, inputs p !! k = Some i → ∃ h, calculate_sighash p k = Ok h ∧
    pkgs !! k = Some {| sp_commitments := all_signing_commitments i; sp_message := h |}.
Proof.
  intros Heq. apply packages_from_spec in Heq as [Hf Hm].
  split; [symmetry; by eapply Forall2_length|]. intros k i Hi.
  destruct (Forall2_lookup_l _ _ _ _ _ Hf Hi) as (pkg & Hpkg & Hsc).
  exists (sp_message pkg). split; [by apply (Hm k pkg)|]. rewrite Hpkg. f_equal.
  destruct pkg. simpl in *. by subst.
Qed.

End packages.

(** ** The signer *)

Section signer.
Context `{BitcoinLib, FrostSign, !FrostLaws}.
Context (change_spk_of : PublicKeyPackage → option Script).
Abbreviation validate_psbt := (validate_psbt change_spk_of).
Abbreviation get_round1_signing_package := (Signer.get_round1_signing_package change_spk_of).
Abbreviation get_round2_signing_package := (Signer.get_round2_signing_package change_spk_of).

Lemma commit_inputs_spec id k n l l' pairs :
  Signer.commit_inputs id k n l = Ok (l', pairs) →
  length l' = length l ∧ pairs = (λ j, commit k (n + j)%nat) <$> seq 0 (length l) ∧
  ∀ j i, l !! j = Some i → ∃ i', l' !! j = Some i' ∧
    set_signing_commitment id (commit k (n + j)%nat).2 i = Ok i'.
Proof.
  revert n l' pairs. induction l as [|i l IH]; intros n l' pairs Heq; cbn [Signer.commit_inputs] in Heq.
  - injection Heq as <- <-. done.
  - destruct (set_signing_commitment id (commit k n).2 i) as [i'| |] eqn:Hset; [|done..].
    rinv1 Heq. destruct a as [rest ps]. injection Heq as <- <-.
    destruct (IH _ _ _ E) as (Hlen & -> & Hl). split; [by simpl; f_equal|]. split.
    + simpl. rewrite Nat.add_0_r. f_equal. rewrite <-fmap_S_seq, <-list_fmap_compose.
      apply list_fmap_ext. intros _ x _. simpl. f_equal. lia.
    + intros [|j] i0 Hj; simplify_eq/=.
      * exists i'. by rewrite Nat.add_0_r.
      * destruct (Hl j i0 Hj) as (i1 & ? & Hs). exists i1. split; [done|].
        rewrite <-Hs. by rewrite Nat.add_succ_r.
Qed.

(** Our commitments are in the packages: the check succeeds. *)
Lemma check_packages_ok id idx pkgs (nonces : list (SigningNonces * SigningCommitments)) :
  Signer.check_packages id idx pkgs nonces = Ok tt ↔
  ∃ ns rest, nonces = ns ++ rest ∧
    Forall2 (λ pkg nonce, sp_commitments pkg !! id = Some nonce.2) pkgs ns.
Proof.
  revert idx nonces. induction pkgs as [|pkg pkgs IH]; intros idx nonces; cbn [Signer.check_packages].
  - split; [intros _; exists [], nonces; split; [done|constructor]|done].
  - destruct (sp_commitments pkg !! id) as [sc|] eqn:Hsc.
    + destruct nonces as [|nonce nonces].
      * split; [done|]. intros (ns & rest & Heq & Hf). destruct ns; [|done].
        by apply Forall2_cons_nil_inv in Hf.
      * case_bool_decide as Hd.
        -- rewrite IH. split.
           ++ intros (ns & rest & -> & Hf). exists (nonce :: ns), rest. split; [done|].
              constructor; [|done]. congruence.
           ++ intros (ns & rest & Heq & Hf). apply Forall2_cons_inv_l in Hf as (n' & ns' & ? & Hf & ->).
              injection Heq as -> ->. by exists ns', rest.
        -- split; [done|]. intros (ns & rest & Heq & Hf).
           apply Forall2_cons_inv_l in Hf as (n' & ns' & ? & Hf & ->).
           injection Heq as -> ->. congruence.
    + split; [done|]. intros (ns & rest & Heq & Hf).
      apply Forall2_cons_inv_l in Hf as (n' & ns' & ? & Hf & ->). congruence.
Qed.

(** Round 1, on success: the database and the transaction are untouched and
    every input got the commitment of its own draw. *)
Lemma round1_ok min id n d p pairs x' :
  get_round1_signing_package min id n (d, p) = (Ok pairs, x') →
  ∃ k l, validate_psbt p ROUND1 min d = (Ok tt, x'.1) ∧ get_key_package x'.1 = Some k ∧
    Signer.commit_inputs id k n (inputs p) = Ok (l, pairs) ∧ x'.2 = with_inputs l p.
Proof.
  unfold Signer.get_round1_signing_package. intros Heq.
  apply sbind_ok in Heq as ([] & [d1 p1] & Hv & Heq). unfold Signer.validate in Hv. simpl in Hv.
  destruct (validate_psbt p ROUND1 min d) as [rv dv] eqn:Hval.
  injection Hv as Hv <- <-. apply map_err_ok in Hv as ->.
  apply sbind_ok in Heq as (x & x1 & Hg & Heq). unfold sget in Hg. injection Hg as <- <-.
  apply sbind_ok in Heq as (k & x1 & Hk & Heq). unfold slift in Hk. injection Hk as Hk <-.
  apply ok_or_ok in Hk. apply sbind_ok in Heq as ([l ps] & x1 & Hc & Heq).
  unfold slift in Hc. injection Hc as Hc <-. unfold sbind, smodify, sret in Heq.
  injection Heq as <- <-. by exists k, l.
Qed.

(** Round 1 of the signer.  On success it returns one nonce pair per input,
    in input order and each from its own draw of the generator, and records
    exactly their public halves as its commitments; it changes neither the
    database, the transaction, what the inputs spend and are tweaked with, nor
    any other signer's data; and the PSBT it returns passes the check round 2
    makes on its own commitments. *)
Theorem round1_commits_once_per_input min id n d p pairs d' p' :
  get_round1_signing_package min id n (d, p) = (Ok pairs, (d', p')) →
  d' = d ∧ unsigned_tx p' = unsigned_tx p ∧ outputs p' = outputs p ∧
  length (inputs p') = length (inputs p) ∧ length pairs = length (inputs p) ∧
  (∃ k, get_key_package d = Some k ∧
     ∀ j pair, pairs !! j = Some pair → pair = commit k (n + j)%nat) ∧
  (∀ j i, inputs p !! j = Some i → ∃ i' pair,
     inputs p' !! j = Some i' ∧ pairs !! j = Some pair ∧ same_spend i i' ∧
     signing_commitments id i' = Some pair.2 ∧
     (∀ id', id' ≠ id → signing_commitments id' i' = signing_commitments id' i) ∧
     (∀ id', partial_signature id' i' = partial_signature id' i)) ∧
  (∀ pkgs, signing_packages p' = Ok pkgs → Signer.check_packages id 0 pkgs pairs = Ok tt).
Proof.
  intros Heq. apply round1_ok in Heq as (k & l & Hv & Hk & Hc & Hx). simpl in *. subst p'.
  apply validate_psbt_cases in Hv as [Hok _]. destruct (Hok eq_refl) as (-> & _).
  apply commit_inputs_spec in Hc as (Hlen & Hpairs & Hl).
  assert (∀ j i, inputs p !! j = Some i → pairs !! j = Some (commit k (n + j)%nat)) as Hp.
  { intros j i Hi. apply lookup_lt_Some in Hi. rewrite Hpairs, list_lookup_fmap, lookup_seq_lt by done.
    done. }
  assert (∀ j i, inputs p !! j = Some i → ∃ i' pair,
     l !! j = Some i' ∧ pairs !! j = Some pair ∧ same_spend i i' ∧
     signing_commitments id i' = Some pair.2 ∧
     (∀ id', id' ≠ id → signing_commitments id' i' = signing_commitments id' i) ∧
     (∀ id', partial_signature id' i' = partial_signature id' i)) as Hall.
  { intros j i Hi. destruct (Hl j i Hi) as (i' & Hi' & Hset). exists i', (commit k (n + j)%nat).
    split; [done|]. split; [by eapply Hp|]. by apply set_signing_commitment_spec. }
  assert (length pairs = length (inputs p)) as Hlp by (by rewrite Hpairs, length_fmap, length_seq).
  split_and!; try done.
  - exists k. split; [done|]. intros j pair Hj. pose proof (lookup_lt_Some _ _ _ Hj) as Hlt.
    rewrite Hlp in Hlt. apply lookup_lt_is_Some in Hlt as [i Hi]. specialize (Hp j i Hi). congruence.
  - intros pkgs Hpk. apply signing_packages_spec in Hpk as [Hlk Hpk]. simpl in *.
    apply check_packages_ok. exists pairs, []. split; [by rewrite app_nil_r|].
    apply Forall2_same_length_lookup_2; [congruence|]. intros j pkg pair Hj Hpr.
    pose proof (lookup_lt_Some _ _ _ Hpr) as Hlt. rewrite Hlp in Hlt.
    apply lookup_lt_is_Some in Hlt as [i Hi]. destruct (Hall j i Hi) as (i' & pr & Hi' & Hpr' & _ & Hsc & _).
    destruct (Hpk j i' Hi') as (h & _ & Hpkg). simplify_eq. simpl.
    by rewrite all_signing_commitments_lookup.
Qed.

(** Every input with a package is signed, when all signatures can be made. *)
Lemma sign_inputs_ok id k pkgs nonces l l' :
  length pkgs = length l →
  Signer.sign_inputs id k pkgs nonces l = (Ok tt, l') →
  length l' = length l ∧
  ∀ j i pkg, l !! j = Some i → pkgs !! j = Some pkg → ∃ nonce sig,
    nonces !! j = Some nonce ∧ sign_with_tweak pkg nonce.1 k (eth_address i) = Some sig ∧
    l' !! j = Some (set_partial_signature id sig i).
Proof.
  revert nonces l l'. induction pkgs as [|pkg pkgs IH]; intros nonces l l' Hlen Heq.
  - destruct l; [|done]. injection Heq as <-. done.
  - destruct l as [|i l]; [done|]. cbn [Signer.sign_inputs] in Heq.
    destruct nonces as [|nonce nonces]; [done|].
    destruct (sign_with_tweak pkg nonce.1 k (eth_address i)) as [sig|] eqn:Hs; [|done].
    destruct (Signer.sign_inputs id k pkgs nonces l) as [r rest] eqn:Hrest.
    injection Heq as -> <-. injection Hlen as Hlen. destruct (IH _ _ _ Hlen Hrest) as [Hl Hall].
    split; [by simpl; f_equal|]. intros [|j] i' pkg' Hi Hp; simplify_eq/=.
    + by exists nonce, sig.
    + by apply Hall.
Qed.

(** The steps of a successful round 2. *)
Lemma round2_ok min id nonces d p x' :
  get_round2_signing_package min id nonces (d, p) = (Ok tt, x') →
  ∃ pkgs k l, validate_psbt p ROUND2 min d = (Ok tt, x'.1) ∧
    signing_packages p = Ok pkgs ∧ Signer.check_packages id 0 pkgs nonces = Ok tt ∧
    get_key_package x'.1 = Some k ∧
    Signer.sign_inputs id k pkgs nonces (inputs p) = (Ok tt, l) ∧ x'.2 = with_inputs l p ∧
    ∃ t, extract_tx p = Ok t ∧ length nonces = length (input t).
Proof.
  unfold Signer.get_round2_signing_package. intros Heq.
  apply sbind_ok in Heq as ([] & [d1 p1] & Hv & Heq). unfold Signer.validate in Hv. simpl in Hv.
  destruct (validate_psbt p ROUND2 min d) as [rv dv] eqn:Hval.
  injection Hv as Hv <- <-. apply map_err_ok in Hv as ->.
  apply sbind_ok in Heq as (x & x1 & Hg & Heq). unfold sget in Hg. injection Hg as <- <-.
  apply sbind_ok in Heq as (t & x1 & Ht & Heq). unfold slift in Ht. injection Ht as Ht <-.
  apply map_err_ok in Ht. apply sbind_ok in Heq as (pkgs & x1 & Hp & Heq).
  unfold slift in Hp. injection Hp as Hp <-. apply map_err_ok in Hp.
  destruct (Nat.eqb_spec (length nonces) (length (input t))) as [Hn|]; [|done]. cbn [negb] in Heq.
  apply sbind_ok in Heq as ([] & x1 & Hc & Heq). unfold slift in Hc. injection Hc as Hc <-.
  apply sbind_ok in Heq as (k & x1 & Hk & Heq). unfold slift in Hk. injection Hk as Hk <-.
  apply ok_or_ok in Hk. simpl in *.
  destruct (Signer.sign_inputs id k pkgs nonces (inputs p)) as [r l] eqn:Hs.
  apply sbind_ok in Heq as ([] & x1 & Hm & Heq). unfold smodify in Hm. injection Hm as <-.
  apply sbind_ok in Heq as ([] & x1 & Hr & Heq). unfold slift in Hr. injection Hr as -> <-.
  apply sbind_ok in Heq as (x & x1 & Hg & Heq). unfold sget in Hg. injection Hg as <- <-.
  apply sbind_ok in Heq as (t' & x1 & Ht' & Heq). unfold slift in Ht'. injection Ht' as _ <-.
  unfold sret in Heq. injection Heq as <-. exists pkgs, k, l. split_and!; try done. by exists t.
Qed.

(** Round 2 of the signer.  A signature is only ever made under the
    signer's own commitment: on success, for every input the PSBT records, as
    this signer's commitment, the public half of the nonce used, and the partial
    signature added is the one of that nonce over the input's signature hash, all
    recorded commitments and the input's eth tweak.  Nothing else changes: the
    database, the transaction, all commitments and the other signers'
    signatures. *)
Theorem round2_signs_own_nonces min id nonces d p d' p' :
  get_round2_signing_package min id nonces (d, p) = (Ok tt, (d', p')) →
  d' = d ∧ unsigned_tx p' = unsigned_tx p ∧ outputs p' = outputs p ∧
  length (inputs p') = length (inputs p) ∧
  Forall (λ i, Z.of_nat (size (all_partial_signatures i)) ≤ min) (inputs p) ∧
  ∃ k, get_key_package d = Some k ∧
  ∀ j i, inputs p !! j = Some i → ∃ i' nonce h sig,
    inputs p' !! j = Some i' ∧ nonces !! j = Some nonce ∧
    signing_commitments id i = Some nonce.2 ∧ calculate_sighash p j = Ok h ∧
    sign_with_tweak {| sp_commitments := all_signing_commitments i; sp_message := h |}
      nonce.1 k (eth_address i) = Some sig ∧
    partial_signature id i' = Some sig ∧ same_spend i i' ∧
    (∀ id', id' ≠ id → partial_signature id' i' = partial_signature id' i) ∧
    (∀ id', signing_commitments id' i' = signing_commitments id' i).
Proof.
  intros Heq. apply round2_ok in Heq as (pkgs & k & l & Hv & Hp & Hc & Hk & Hs & Hx & _).
  simpl in *. subst p'. apply validate_psbt_cases in Hv as [Hok _].
  destruct (Hok eq_refl) as (-> & _ & _ & _ & _ & _ & Hrv).
  destruct (Hrv ltac:(done)) as [_ Hr2 _ _].
  apply signing_packages_spec in Hp as [Hlp Hpk].
  apply sign_inputs_ok in Hs as [Hll Hs]; [|done].
  split_and!; try done; [by apply Hr2|]. exists k. split; [done|].
  intros j i Hi. destruct (Hpk j i Hi) as (h & Hh & Hpkg).
  destruct (Hs j i _ Hi Hpkg) as (nonce & sig & Hn & Hsig & Hl').
  exists (set_partial_signature id sig i), nonce, h, sig.
  destruct (set_partial_signature_spec id sig i) as (Hss & Hps & Ho & Hsc).
  split_and!; try done. apply check_packages_ok in Hc as (ns & rest & -> & Hf).
  destruct (Forall2_lookup_l _ _ _ _ _ Hf Hpkg) as (nonce' & Hn' & Hown). simpl in Hown.
  rewrite all_signing_commitments_lookup in Hown. apply (lookup_app_l_Some _ rest) in Hn'.
  congruence.
Qed.

End signer.

(** ** Building transactions *)

Section build.
Context `{BitcoinLib, FrostSign, Bdk, !BdkLaws, !BitcoinLibLaws}.
Context (change_spk_of : PublicKeyPackage → option Script).
Abbreviation attempt_make_tx := (Coordinator.attempt_make_tx change_spk_of).
Abbreviation make_tx := (Coordinator.make_tx change_spk_of).

Lemma utxo_map_lookup d o : Coordinator.utxo_map d !! o = get_utxo o d.
Proof using.
  unfold Coordinator.utxo_map.
  assert (NoDup ((λ u, (outpoint u, u)) <$> get_all_utxos d).*1) as Hnd.
  { rewrite <-list_fmap_compose. change (NoDup (outpoint <$> get_all_utxos d)).
    rewrite get_all_utxos_outpoints, tree_iter_keys. apply NoDup_elements. }
  apply option_eq. intros u. rewrite <-elem_of_list_to_map by done. rewrite list_elem_of_fmap. split.
  - intros (u' & [= -> ->] & Hu). by apply elem_of_get_all_utxos.
  - intros Hu. assert (outpoint u = o) as Ho.
    { unfold get_utxo in Hu. apply fmap_Some in Hu as (r & _ & ->). done. }
    exists u. split; [by rewrite Ho|]. apply elem_of_get_all_utxos. by rewrite Ho.
Qed.

Lemma get_utxo_outpoint o d u : get_utxo o d = Some u → outpoint u = o.
Proof using. unfold get_utxo. intros Hu. by apply fmap_Some in Hu as (r & _ & ->). Qed.

Lemma filter_excluded_lookup m excluded o u :
  Coordinator.filter_excluded_utxos m excluded !! o = Some u ↔
  m !! o = Some u ∧ Coordinator.is_excluded excluded u = false.
Proof using.
  unfold Coordinator.filter_excluded_utxos. destruct excluded as [|e excluded].
  - unfold Coordinator.is_excluded. split; [|by intros [? _]]. intros Hu. split; [done|].
    destruct (utxo_eth_address u); [|done]. apply bool_decide_eq_false. apply not_elem_of_nil.
  - by rewrite map_lookup_filter_Some.
Qed.

Lemma first_inputs_spec l ops :
  Coordinator.first_inputs l = Ok ops → Forall2 (λ t o, head (tracked_inputs_of t) = Some o) l ops.
Proof using.
  revert ops. induction l as [|t l IH]; intros ops Heq; simpl in Heq.
  - injection Heq as <-. constructor.
  - rinv Heq. injection Heq as <-. apply ok_or_ok in E. constructor; auto.
Qed.

Lemma conflicting_utxos_spec m l c :
  Coordinator.conflicting_utxos m l = Ok c →
  ∀ o u, c !! o = Some u ↔ o ∈ l ∧ m !! o = Some u.
Proof using.
  revert c. induction l as [|o l IH]; intros c Heq o' u; simpl in Heq.
  - injection Heq as <-. rewrite lookup_empty, elem_of_nil. naive_solver.
  - rinv Heq. injection Heq as <-. apply ok_or_ok in E. rewrite elem_of_cons.
    destruct (decide (o' = o)) as [->|Hne].
    + rewrite lookup_insert_eq. split; [intros [= ->]; auto|intros [_ Hu]; congruence].
    + rewrite lookup_insert_ne by done. rewrite (IH _ eq_refl). naive_solver.
Qed.

(** A tracked transaction that pays one of the outputs asked for. *)
Definition retried (outs : list (TxOut * PegoutId)) (t : Tx) : Prop :=
  ∃ r, r ∈ pegout_requests t ∧ req_id r ∈ outs.*2.

Lemma pays_any_spec outs tracked t :
  t ∈ tracked →
  Coordinator.pays_any (filter (λ id, id ∈ req_id <$> (tracked ≫= pegout_requests)) outs.*2) t = true ↔
  retried outs t.
Proof using.
  intros Ht. unfold Coordinator.pays_any, retried. rewrite existsb_exists. split.
  - intros (r & Hr & Hb). apply list_elem_of_In in Hr. apply bool_decide_eq_true in Hb.
    apply list_elem_of_filter in Hb as [_ Hb]. by exists r.
  - intros (r & Hr & Hid). exists r. split; [by apply list_elem_of_In|].
    apply bool_decide_eq_true, list_elem_of_filter. split; [|done].
    apply list_elem_of_fmap. exists r. split; [done|]. apply list_elem_of_bind. by exists t.
Qed.

(** The choices of a successful attempt. *)
Record attempt_choices (outs : list (TxOut * PegoutId)) (tracked : list Tx) (excluded : list bytes)
    (d : Db) (opt req : gmap OutPoint Utxo) : Prop := {
  ac_optional : ∀ o u, opt !! o = Some u ↔
    get_utxo o d = Some u ∧ Coordinator.is_excluded excluded u = false ∧
    o ∉ (tracked ≫= tracked_inputs_of);
  ac_required : ∀ o u, req !! o = Some u ↔ get_utxo o d = Some u ∧
    ∃ t, t ∈ tracked ∧ retried outs t ∧ head (tracked_inputs_of t) = Some o;
  ac_retries : ∀ t, t ∈ tracked → retried outs t →
    ∃ o u, head (tracked_inputs_of t) = Some o ∧ req !! o = Some u;
}.

Lemma attempt_make_tx_ok outs rate script min tracked excluded d p d' :
  attempt_make_tx outs rate script min tracked excluded d = (Ok p, d') →
  validate_psbt change_spk_of p NO_FLAGS min d = (Ok tt, d') ∧
  ∃ opt req, attempt_choices outs tracked excluded d opt req ∧
    coin_selection opt req outs rate script = Ok p.
Proof using.
  unfold Coordinator.attempt_make_tx. intros Heq.
  apply sbind_ok in Heq as (x & x1 & Hg & Heq). unfold sget in Hg. injection Hg as <- <-.
  apply sbind_ok in Heq as (ops & x1 & Ho & Heq). unfold slift in Ho. injection Ho as Ho <-.
  apply sbind_ok in Heq as (req & x1 & Hr & Heq). unfold slift in Hr. injection Hr as Hr <-.
  apply sbind_ok in Heq as (p' & x1 & Hp & Heq). unfold slift in Hp. injection Hp as Hp <-.
  apply map_err_ok in Hp. apply sbind_ok in Heq as ([] & x1 & Hv & Heq).
  unfold sret in Heq. injection Heq as <- <-. split.
  { unfold Coordinator.cvalidate, smap_err in Hv.
    destruct (validate_psbt change_spk_of p' NO_FLAGS min d) as [r dv]. injection Hv as Hv <-.
    by apply map_err_ok in Hv as ->. }
  apply first_inputs_spec in Ho. pose proof (conflicting_utxos_spec _ _ _ Hr) as Hc.
  eexists _, req. split; [|exact Hp].
  assert (∀ t, t ∈ tracked → retried outs t → ∃ o, o ∈ ops ∧ head (tracked_inputs_of t) = Some o) as Hret.
  { intros t Ht Hret. rewrite Forall2_lookup in Ho.
    assert (t ∈ filter (λ t, Coordinator.pays_any (filter (λ id, id ∈ req_id <$> (tracked ≫= pegout_requests)) outs.*2) t = true) tracked) as Hin.
    { apply list_elem_of_filter. split; [|done]. by apply pays_any_spec. }
    apply list_elem_of_lookup in Hin as [i Hi]. specialize (Ho i). rewrite Hi in Ho.
    inversion Ho as [? o Hh Heq1 Heq2|]. exists o. split; [|done].
    by eapply list_elem_of_lookup_2. }
  split.
  - intros o u. rewrite map_lookup_filter_Some, filter_excluded_lookup, utxo_map_lookup.
    rewrite elem_of_list_to_set. simpl. naive_solver.
  - intros o u. rewrite Hc, utxo_map_lookup. split.
    + intros [Hin Hu]. split; [done|]. apply list_elem_of_lookup in Hin as [i Hi].
      rewrite Forall2_lookup in Ho. specialize (Ho i). rewrite Hi in Ho.
      inversion Ho as [t ? Hh Heq1 Heq2|]. exists t.
      symmetry in Heq1. apply list_elem_of_lookup_2, list_elem_of_filter in Heq1 as [Hp1 Ht].
      split_and!; [done|by apply pays_any_spec in Hp1|done].
    + intros (Hu & t & Ht & Hrt & Hh). destruct (Hret t Ht Hrt) as (o' & Ho' & Hh').
      split; [|done]. congruence.
  - intros t Ht Hrt. destruct (Hret t Ht Hrt) as (o & Hin & Hh).
    assert (is_Some (Coordinator.utxo_map d !! o)) as [u Hu].
    { clear -Hr Hin. revert req Hr. induction ops as [|o' ops IH]; intros req Hr; [by apply elem_of_nil in Hin|].
      simpl in Hr. rinv Hr. apply ok_or_ok in E. apply elem_of_cons in Hin as [->|Hin]; [by eexists|].
      by eapply IH. }
    exists o, u. split; [done|]. apply Hc. done.
Qed.

Lemma attempt_own_key outs tracked excluded d opt req :
  attempt_choices outs tracked excluded d opt req →
  own_key outpoint opt ∧ own_key outpoint req ∧ opt ##ₘ req.
Proof using.
  intros [Hopt Hreq _]. split_and!.
  - intros o u Hu. by apply Hopt in Hu as [Hu%get_utxo_outpoint _].
  - intros o u Hu. by apply Hreq in Hu as [Hu%get_utxo_outpoint _].
  - apply map_disjoint_spec. intros o u1 u2 Hu1 Hu2. apply Hopt in Hu1 as (_ & _ & Hn).
    apply Hreq in Hu2 as (_ & t & Ht & _ & Hh). apply Hn, list_elem_of_bind.
    exists t. split; [|done]. by apply head_Some_elem_of.
Qed.

Lemma attempt_unchanged outs rate script min tracked excluded d p d' :
  attempt_make_tx outs rate script min tracked excluded d = (Ok p, d') → d' = d.
Proof using.
  intros Heq. apply attempt_make_tx_ok in Heq as [Hv _].
  apply validate_psbt_cases in Hv as [Hok _]. by destruct (Hok eq_refl).
Qed.

(** C11. A transaction the coordinator builds can be signed without paying a
    pegout twice: it changes nothing in the database; it spends no UTXO twice and
    only UTXOs of the wallet; for every tracked transaction that already pays one
    of the requested pegouts it spends that transaction's first input, so the two
    exclude each other; every other input is neither spent by a tracked
    transaction nor owned by an excluded address; and the PSBT has passed
    validation against the tracked transactions of the database. *)
Theorem attempt_make_tx_retry_safe outs rate script min tracked excluded d p d' :
  attempt_make_tx outs rate script min tracked excluded d = (Ok p, d') →
  let spent := previous_output <$> input (unsigned_tx p) in
  d' = d ∧ NoDup spent ∧
  (∀ t, t ∈ tracked → retried outs t →
     ∃ o, head (tracked_inputs_of t) = Some o ∧ o ∈ spent) ∧
  (∀ o, o ∈ spent → ∃ u, get_utxo o d = Some u ∧
     (((o ∉ tracked ≫= tracked_inputs_of) ∧ Coordinator.is_excluded excluded u = false) ∨
      ∃ t, t ∈ tracked ∧ retried outs t ∧ head (tracked_inputs_of t) = Some o)) ∧
  (∀ t, t ∈ get_tracked_txs d → conflicts p t) ∧ outputs_valid change_spk_of p d.
Proof.
  intros Heq spent. pose proof (attempt_unchanged _ _ _ _ _ _ _ _ _ Heq) as ->.
  apply attempt_make_tx_ok in Heq as (Hv & opt & req & Hch & Hsel).
  destruct (attempt_own_key _ _ _ _ _ _ Hch) as (Hko & Hkr & Hdisj).
  apply coin_selection_inputs in Hsel as (ins & paid & change & Hp & Hnd & Hreq & Hfrom); [|done..].
  destruct Hch as [Hopt Hrq Hret].
  assert (spent = dto_outpoint <$> ins) as Hsp.
  { subst spent p. simpl. by rewrite <-list_fmap_compose. }
  rewrite Hsp. apply validate_psbt_cases in Hv as [Hok _].
  destruct (Hok eq_refl) as (_ & _ & _ & Hc & Hov & _). split_and!; try done.
  - intros t Ht Hrt. destruct (Hret t Ht Hrt) as (o & u & Hh & Hu). exists o. split; [done|].
    apply list_elem_of_fmap. exists (to_dto u). split; [symmetry; by apply (Hkr o u)|].
    apply Hreq, list_elem_of_fmap. exists (o, u). split; [done|]. by apply elem_of_map_to_list.
  - intros o Ho. apply list_elem_of_fmap in Ho as (i & -> & Hi).
    destruct (Hfrom i Hi) as (u & -> & [Hu|Hu]); exists u; simpl.
    + apply Hopt in Hu as (Hu & Hx & Hn). auto.
    + apply Hrq in Hu as (Hu & Ht). auto.
  - by apply has_conflicting_input_spec.
Qed.

Lemma attempt_not_out_of_fuel outs rate script min tracked excluded d :
  (attempt_make_tx outs rate script min tracked excluded d).1 ≠ Err Coordinator.COutOfFuel.
Proof using.
  assert (∀ l, Coordinator.first_inputs l ≠ Err Coordinator.COutOfFuel) as Hf.
  { induction l as [|t l IH]; [done|]. simpl. destruct (head _); simpl; [|done].
    by destruct (Coordinator.first_inputs l). }
  assert (∀ m l, Coordinator.conflicting_utxos m l ≠ Err Coordinator.COutOfFuel) as Hc.
  { intros m. induction l as [|o l IH]; [done|]. simpl. destruct (m !! o); simpl; [|done].
    by destruct (Coordinator.conflicting_utxos m l). }
  unfold Coordinator.attempt_make_tx, sbind, sget, slift, sret, Coordinator.cvalidate, smap_err.
  destruct (Coordinator.first_inputs _) eqn:Hfi; simpl; [|intros [= ->]; by eapply Hf|done].
  destruct (Coordinator.conflicting_utxos _ _) eqn:Hci; simpl; [|intros [= ->]; by eapply Hc|done].
  destruct (coin_selection _ _ _ _ _); simpl; [|done..].
  by destruct (validate_psbt _ _ _ _ _) as [[] ?].
Qed.

(** What one round of the loop does. *)
Lemma make_tx_step fuel outs rate script min tracked excluded d :
  make_tx (S fuel) outs rate script min tracked excluded d =
  match attempt_make_tx outs rate script min tracked excluded d with
  | (Ok p, _) =>
      match calculate_signed_tx_weight p with
      | Ok w => if w <=? MAX_PEGOUT_TX_WEIGHT then (Ok p, d)
                else if (length outs <=? 1)%nat then (Err Coordinator.TransactionTooLarge, d)
                else make_tx fuel (take (length outs - length outs / 10) outs) rate script min
                       tracked excluded d
      | Err e => (Err (Coordinator.CWalletCalculation e), d)
      | Panic => (Panic, d)
      end
  | (Err e, d') => (Err e, d')
  | (Panic, d') => (Panic, d')
  end.
Proof using.
  cbn [Coordinator.make_tx]. unfold sbind at 1.
  destruct (attempt_make_tx outs rate script min tracked excluded d) as [[p|e|] d'] eqn:Ha; try done.
  apply attempt_unchanged in Ha as ->. unfold sbind, slift.
  destruct (calculate_signed_tx_weight p) as [w|e|]; simpl; try done.
  destruct (w <=? MAX_PEGOUT_TX_WEIGHT); [done|]. by destruct (length outs <=? 1)%nat.
Qed.

(** Nothing is removed from two to nine outputs: a transaction that is too heavy
    is built again, forever. *)
Theorem make_tx_never_shrinks outs rate script min tracked excluded d p w :
  (2 ≤ length outs ≤ 9)%nat →
  attempt_make_tx outs rate script min tracked excluded d = (Ok p, d) →
  calculate_signed_tx_weight p = Ok w → MAX_PEGOUT_TX_WEIGHT < w →
  ∀ fuel, make_tx fuel outs rate script min tracked excluded d = (Err Coordinator.COutOfFuel, d).
Proof using.
  intros Hn Ha Hw Hmax. induction fuel as [|fuel IH]; [done|].
  rewrite make_tx_step, Ha, Hw, (proj2 (Z.leb_gt _ _)) by done.
  rewrite (proj2 (Nat.leb_gt _ _)) by lia. rewrite Nat.div_small, Nat.sub_0_r, take_ge by lia.
  done.
Qed.

(** The retry loop of [make_tx].  What it returns is an attempt on a prefix
    of the requested pegouts whose signed weight is within the limit, with the
    database unchanged.  With more rounds than outputs it fails to return in one
    case only: some prefix of two to nine outputs is too heavy, and then it
    returns with no number of rounds. *)
Theorem make_tx_outcome fuel outs rate script min tracked excluded d :
  (length outs < fuel)%nat →
  (∀ p d', make_tx fuel outs rate script min tracked excluded d = (Ok p, d') →
     d' = d ∧ ∃ n w, attempt_make_tx (take n outs) rate script min tracked excluded d = (Ok p, d) ∧
       calculate_signed_tx_weight p = Ok w ∧ w ≤ MAX_PEGOUT_TX_WEIGHT) ∧
  ((make_tx fuel outs rate script min tracked excluded d).1 = Err Coordinator.COutOfFuel →
     (∃ n p w, (2 ≤ n ≤ 9)%nat ∧
        attempt_make_tx (take n outs) rate script min tracked excluded d = (Ok p, d) ∧
        calculate_signed_tx_weight p = Ok w ∧ MAX_PEGOUT_TX_WEIGHT < w) ∧
     ∀ fuel', (make_tx fuel' outs rate script min tracked excluded d).1 =
              Err Coordinator.COutOfFuel).
Proof using.
  revert outs. induction fuel as [|fuel IH]; intros outs Hfuel; [lia|]. rewrite make_tx_step.
  pose proof (attempt_not_out_of_fuel outs rate script min tracked excluded d) as Hno.
  destruct (attempt_make_tx outs rate script min tracked excluded d) as [[p|e|] d1] eqn:Ha;
    [|by split|by split].
  pose proof (attempt_unchanged _ _ _ _ _ _ _ _ _ Ha) as ->.
  destruct (calculate_signed_tx_weight p) as [w|e|] eqn:Hw; [|by split..].
  destruct (Z.leb_spec w MAX_PEGOUT_TX_WEIGHT) as [Hle|Hgt].
  { split; [|done]. intros p' d' [= <- <-]. split; [done|]. exists (length outs), w.
    rewrite firstn_all. done. }
  destruct (Nat.leb_spec (length outs) 1) as [|Hlen]; [by split|].
  destruct (decide (length outs ≤ 9)%nat) as [H9|H9].
  - pose proof (make_tx_never_shrinks outs rate script min tracked excluded d p w
      ltac:(lia) Ha Hw Hgt) as Hloop.
    rewrite Nat.div_small, Nat.sub_0_r, take_ge by lia. rewrite Hloop. split; [done|].
    intros _. split; [|intros fuel'; by rewrite Hloop].
    exists (length outs), p, w. rewrite firstn_all. split_and!; (done || lia).
  - set (m := (length outs - length outs / 10)%nat).
    pose proof (Nat.div_le_lower_bound (length outs) 10 1 ltac:(lia) ltac:(lia)) as Hd.
    pose proof (Nat.Div0.mul_div_le (length outs) 10) as Hm.
    destruct (IH (take m outs)) as [Hok Hout]; [rewrite length_take; lia|]. split.
    + intros p' d' Hmk. destruct (Hok p' d' Hmk) as (-> & n & w' & Hat & Hrest). split; [done|].
      rewrite take_take in Hat. by eexists _, w'.
    + intros Hof. destruct (Hout Hof) as [(n & p' & w' & Hn & Hat & Hw' & Hgt') Hall]. split.
      * rewrite take_take in Hat. exists (n `min` m)%nat, p', w'. split_and!; try done; lia.
      * intros [|fuel']; [done|]. rewrite make_tx_step, Ha, Hw, (proj2 (Z.leb_gt _ _)) by done.
        rewrite (proj2 (Nat.leb_gt _ _)) by lia. apply Hall.
Qed.

End build.

(** ** Sessions *)

Section sessions.
Context `{BitcoinLib, FrostSign}.
Context (change_spk_of : PublicKeyPackage → option Script).

Lemma cvalidate_ok p flags min d d' :
  Coordinator.cvalidate change_spk_of p flags min d = (Ok tt, d') →
  validate_psbt change_spk_of p flags min d = (Ok tt, d) ∧ d' = d.
Proof.
  unfold Coordinator.cvalidate, smap_err.
  destruct (validate_psbt change_spk_of p flags min d) as [r dv] eqn:Hv. intros [= Hr <-].
  apply map_err_ok in Hr as ->. pose proof Hv as Hv'.
  apply validate_psbt_cases in Hv' as [Hok _]. by destruct (Hok eq_refl) as [-> _].
Qed.

Lemma aggregate_inputs_spec pk idx pkgs l l' :
  Coordinator.aggregate_inputs pk idx pkgs l = Ok l' →
  length l' = length l ∧
  ∀ j i, l !! j = Some i → ∃ pkg sig secp, pkgs !! j = Some pkg ∧
    aggregate_with_tweak pkg (all_partial_signatures i) pk (eth_address i) = Some sig ∧
    verify pk (eth_address i) (sp_message pkg) sig = true ∧ to_secp_sig sig = Some secp ∧
    l' !! j = Some (Coordinator.set_tap_key_sig secp i).
Proof.
  revert idx pkgs l'. induction l as [|i l IH]; intros idx pkgs l' Heq;
    cbn [Coordinator.aggregate_inputs] in Heq; [by injection Heq as <-|].
  destruct pkgs as [|pkg pkgs]; [done|]. rinv1 Heq. apply ok_or_ok in E.
  destruct (verify pk (eth_address i) (sp_message pkg) a) eqn:Hv; [|done].
  rinv Heq. injection Heq as <-. apply ok_or_ok in E0. destruct (IH _ _ _ E1) as [Hlen Hall].
  split; [by simpl; f_equal|]. intros [|j] i' Hj; simplify_eq/=; [by exists pkg, a, a0|].
  by apply Hall.
Qed.

Lemma copy_witnesses_spec final orig l :
  Coordinator.copy_witnesses final orig = Ok l →
  length l = length orig ∧ ∀ j o, orig !! j = Some o → ∃ f w, final !! j = Some f ∧
    final_script_witness f = Some w ∧ l !! j = Some (Coordinator.set_final_witness w o).
Proof.
  revert final l. induction orig as [|o orig IH]; intros final l Heq;
    cbn [Coordinator.copy_witnesses] in Heq; [by injection Heq as <-|].
  destruct final as [|f final]; [done|]. rinv Heq. injection Heq as <-. apply ok_or_ok in E.
  destruct (IH _ _ E0) as [Hlen Hall]. split; [by simpl; f_equal|].
  intros [|j] o' Hj; simplify_eq/=; [by exists f, a|]. by apply Hall.
Qed.

(** A finalized PSBT is the session's PSBT with verified signatures: the same
    transaction, outputs, spent outputs and signers' fields, and on every input
    a key signature that aggregates that input's partial signatures over its
    signature hash and has been verified under the tweaked group key, with the
    final witness the finalizer made of the PSBT so signed. *)
Theorem finalize_signing_verified session d p' :
  Coordinator.finalize_signing session d = Ok p' →
  ∃ p pk signed final, get_psbt session d = Some p ∧ get_public_key_package d = Some pk ∧
  finalize_mut signed = Some final ∧
  unsigned_tx signed = unsigned_tx p ∧ unsigned_tx p' = unsigned_tx p ∧ outputs p' = outputs p ∧
  length (inputs p') = length (inputs p) ∧
  ∀ j i, inputs p !! j = Some i → ∃ i' f h sig secp,
    inputs p' !! j = Some i' ∧ inputs final !! j = Some f ∧
    inputs signed !! j = Some (Coordinator.set_tap_key_sig secp i) ∧
    in_proprietary i' = in_proprietary i ∧ witness_utxo i' = witness_utxo i ∧
    calculate_sighash p j = Ok h ∧
    aggregate_with_tweak {| sp_commitments := all_signing_commitments i; sp_message := h |}
      (all_partial_signatures i) pk (eth_address i) = Some sig ∧
    verify pk (eth_address i) h sig = true ∧ to_secp_sig sig = Some secp ∧
    tap_key_sig i' = Some secp ∧ sighash_type i' = Some Coordinator.TAP_SIGHASH_DEFAULT ∧
    is_Some (final_script_witness i') ∧ final_script_witness i' = final_script_witness f.
Proof.
  unfold Coordinator.finalize_signing. intros Heq. rinv Heq. injection Heq as <-.
  apply ok_or_ok in E, E0, E3. apply map_err_ok in E1.
  apply signing_packages_spec in E1 as [_ Hpk]. apply aggregate_inputs_spec in E2 as [Hlen Hag].
  apply copy_witnesses_spec in E4 as [Hlen' Hcw].
  eexists a, a0, _, _. split_and!; [done..|simpl in *; congruence|]. intros j i Hi.
  destruct (Hpk j i Hi) as (h & Hh & Hp).
  destruct (Hag j i Hi) as (pkg & sig & secp & Hp' & Hsig & Hv & Hs & Hl). simplify_eq. simpl in *.
  destruct (Hcw j _ Hl) as (f & w & Hf & Hw & Hl'). eexists _, f, h, sig, secp.
  split_and!; simpl; try done.
Qed.

(** Collecting round 1 and releasing it.  A submission is accepted only with
    the submitter's commitment on every input, and then changes nothing but the
    session's PSBT, which becomes the submission itself or its combination with
    what was stored; a PSBT is released for signing only when every input of the
    stored PSBT has the commitments of at least [min] signers. *)
Theorem round1_collected_and_released session id p min d d' :
  (Coordinator.add_round1_signing change_spk_of session id p min d = (Ok tt, d') →
     Forall (λ i, is_Some (signing_commitments id i)) (inputs p) ∧
     outputs_valid change_spk_of p d ∧
     ∃ merged, d' = put_psbts (<[session := merged]> (psbts d)) d ∧
       match get_psbt session d with
       | Some stored => combine stored p = Ok merged
       | None => merged = p
       end) ∧
  (Coordinator.get_to_sign change_spk_of session min d = (Ok p, d') →
     d' = d ∧ get_psbt session d = Some p ∧ outputs_valid change_spk_of p d ∧
     Forall (λ i, min ≤ Z.of_nat (size (all_signing_commitments i))) (inputs p)).
Proof.
  split; intros Heq.
  - unfold Coordinator.add_round1_signing in Heq. apply sbind_ok in Heq as ([] & d1 & Hv & Heq).
    apply cvalidate_ok in Hv as [Hv ->]. apply validate_psbt_cases in Hv as [Hok _].
    destruct (Hok eq_refl) as (_ & _ & _ & _ & Hov & _).
    destruct (existsb _ (inputs p)) eqn:Hex; [done|]. split.
    { apply existsb_false in Hex. eapply Forall_impl; [exact Hex|]. simpl. intros i Hi.
      bool_to_prop. by apply not_eq_None_Some in Hi. }
    split; [done|]. unfold smap_err, update_psbt, sbind, sget, get_psbt, slift, smodify in *.
    destruct (psbts d !! session) as [stored|].
    + destruct (combine stored p) as [m|e|]; simpl in Heq; [|done..]. injection Heq as <-. by exists m.
    + simpl in Heq. injection Heq as <-. by exists p.
  - unfold Coordinator.get_to_sign, sbind at 1, sget in Heq.
    destruct (get_psbt session d) as [q|] eqn:Hq; [|done].
    destruct (existsb _ (inputs q)) eqn:Hex; [done|].
    apply sbind_ok in Heq as ([] & d1 & Hv & Heq). unfold sret in Heq. injection Heq as <- <-.
    apply cvalidate_ok in Hv as [Hv ->]. apply validate_psbt_cases in Hv as [Hok _].
    destruct (Hok eq_refl) as (_ & _ & _ & _ & Hov & _). split_and!; try done.
    apply existsb_false in Hex. eapply Forall_impl; [exact Hex|]. simpl. intros i Hi.
    bool_to_prop. done.
Qed.

End sessions.

(** ** Concrete sessions *)

#[local] Existing Instances Sample.lib Sample.lib_laws Sample.frost Sample.frost_laws
  SampleSelection.bdk SampleSelection.bdk_laws.
Module SampleSigning.
Import SampleValidate.
Definition finalize_input (i : PsbtInput) : PsbtInput :=
  {| witness_utxo := witness_utxo i; in_proprietary := ∅; sighash_type := None;
     tap_key_sig := None; final_script_witness := (λ s, [s]) <$> tap_key_sig i |}.
#[export] Instance sign : FrostSign := {|
  SigningNonces := Z;
  commit k n := (Z.of_nat n, [Z.of_nat n; 7]);
  sign_with_tweak pkg nonce k tweak := Some (nonce :: sp_message pkg);
  aggregate_with_tweak pkg shares pk tweak :=
    if bool_decide (dom shares = dom (sp_commitments pkg)) then Some (sp_message pkg) else None;
  verify pk tweak m sig := bool_decide (sig = m);
  to_secp_sig sig := Some sig;
  taproot_sighash tx n outs := Some [Z.of_nat n; 40];
  finalize_mut p := Some (with_inputs (finalize_input <$> inputs p) p);
|}.
(** The wallet of the validation example, with this signer's key. *)
Definition db : Db := set_key_package [5] database.
(** The PSBT after round 1 of signer 9, and after its round 2. *)
Definition committed : Psbt :=
  (Signer.get_round1_signing_package change_script 1 9 3 (db, psbt)).2.2.
Definition signed : Psbt :=
  (Signer.get_round2_signing_package change_script 1 9 [(3, [3; 7])] (db, committed)).2.2.
Definition session_db (p : Psbt) : Db := put_psbts {[ [1] := p ]} db.
End SampleSigning.
Import SampleSigning.

Lemma round1_commits_once_per_input_witness :
  ∃ p', Signer.get_round1_signing_package SampleValidate.change_script 1 9 3
          (db, SampleValidate.psbt) = (Ok [(3, [3; 7])], (db, p')) ∧
    ∃ i', inputs p' !! 0%nat = Some i' ∧ signing_commitments 9 i' = Some [3; 7].
Proof.
  assert (Signer.get_round1_signing_package SampleValidate.change_script 1 9 3
            (db, SampleValidate.psbt) = (Ok [(3, [3; 7])], (db, committed))) as Heq
    by (vm_compute; reflexivity).
  exists committed. split; [exact Heq|].
  destruct (round1_commits_once_per_input (H0 := Sample.frost) (H1 := sign) SampleValidate.change_script 1 9 3 db SampleValidate.psbt
              [(3, [3; 7])] db committed Heq) as (_ & _ & _ & _ & _ & _ & Hall & _).
  destruct (Hall 0%nat (fill_input default_input SampleValidate.dto) eq_refl)
    as (i' & pair & Hi' & Hp & _ & Hsc & _).
  injection Hp as <-. exists i'. split; [exact Hi'|exact Hsc].
Defined.

Lemma round2_signs_own_nonces_witness :
  ∃ i', Signer.get_round2_signing_package SampleValidate.change_script 1 9 [(3, [3; 7])]
          (db, committed) = (Ok tt, (db, signed)) ∧
    inputs signed !! 0%nat = Some i' ∧ is_Some (partial_signature 9 i').
Proof.
  assert (Signer.get_round2_signing_package SampleValidate.change_script 1 9 [(3, [3; 7])]
            (db, committed) = (Ok tt, (db, signed))) as Heq by (vm_compute; reflexivity).
  destruct (round2_signs_own_nonces (H0 := Sample.frost) (H1 := sign) SampleValidate.change_script 1 9 [(3, [3; 7])] db committed
              db signed Heq) as (_ & _ & _ & _ & _ & k & _ & Hall).
  destruct (inputs committed !! 0%nat) as [i|] eqn:Hi;
    [|apply (f_equal (from_option (λ _, true) false)) in Hi; vm_compute in Hi; discriminate Hi].
  destruct (Hall 0%nat i Hi) as (i' & nonce & h & sig & Hi' & _ & _ & _ & _ & Hps & _).
  exists i'. split; [exact Heq|]. split; [exact Hi'|]. exists sig. exact Hps.
Defined.

Lemma finalize_signing_verified_witness :
  ∃ p p', get_psbt [1] (session_db signed) = Some p ∧
    Coordinator.finalize_signing [1] (session_db signed) = Ok p' ∧ unsigned_tx p' = unsigned_tx p.
Proof.
  destruct (Coordinator.finalize_signing [1] (session_db signed)) as [p'|e|] eqn:Heq.
  2,3: apply (f_equal is_ok) in Heq; vm_compute in Heq; discriminate Heq.
  destruct (finalize_signing_verified [1] (session_db signed) p' Heq)
    as (p & pk & sg & fin & Hp & _ & _ & _ & Htx & _).
  exists p, p'. split; [exact Hp|]. split; [reflexivity|exact Htx].
Defined.

Lemma round1_collected_and_released_witness :
  Coordinator.get_to_sign SampleValidate.change_script [1] 1 (session_db committed) =
    (Ok committed, session_db committed) ∧
  Forall (λ i, 1 ≤ Z.of_nat (size (all_signing_commitments i))) (inputs committed).
Proof.
  assert (Coordinator.get_to_sign SampleValidate.change_script [1] 1 (session_db committed) =
    (Ok committed, session_db committed)) as Heq by (vm_compute; reflexivity).
  split; [exact Heq|].
  apply (proj2 (round1_collected_and_released (H0 := Sample.frost) SampleValidate.change_script [1] 9 committed 1
    (session_db committed) (session_db committed))). exact Heq.
Defined.

Module SampleBuild.
(** A wallet of [n] UTXOs of 1,000 sats, and one of 100,000. *)
Definition coin (n v : Z) : Utxo :=
  {| outpoint := mkOutPoint [n] 0; utxo_output := {| value := v; script_pubkey := [81] |};
     utxo_eth_address := None; utxo_version := 0 |}.
Definition coins (n : nat) : list Utxo := (λ i, coin (1 + Z.of_nat i) 1000) <$> seq 0 n.
Definition wallet_db (n : nat) : Db :=
  (store_utxos (coins n ++ [coin 0 100000]) (set_pubkey_package [81] open)).2.
(** A broadcast transaction spending UTXO 1 for pegout 3. *)
Definition pending_tx : Tx :=
  {| txid := replicate 32 200;
     tx := {| tx_version := 2; lock_time := 0;
              input := [{| previous_output := mkOutPoint [1] 0; script_sig := [];
                           sequence := 0; txin_witness := [] |}];
              output := [] |};
     pegout_idxs := [0%nat]; pegout_requests := [SampleDb.request 3 1]; change_idxs := [];
     created := 0 |}.
End SampleBuild.
Import SampleBuild.

Lemma attempt_make_tx_retry_safe_witness :
  ∃ p, Coordinator.attempt_make_tx SampleValidate.change_script [SampleSelection.pegout 3 40000]
         1000 [81] 1 [pending_tx] [] (wallet_db 2) = (Ok p, wallet_db 2) ∧
    mkOutPoint [1] 0 ∈ previous_output <$> input (unsigned_tx p).
Proof.
  destruct (Coordinator.attempt_make_tx SampleValidate.change_script
    [SampleSelection.pegout 3 40000] 1000 [81] 1 [pending_tx] [] (wallet_db 2)) as [[p|e|] d'] eqn:Heq.
  2,3: apply (f_equal (is_ok ∘ fst)) in Heq; vm_compute in Heq; discriminate Heq.
  destruct (attempt_make_tx_retry_safe (H0 := Sample.frost) SampleValidate.change_script
    [SampleSelection.pegout 3 40000] 1000 [81] 1 [pending_tx] [] (wallet_db 2) p d' Heq)
    as (Hd & _ & Hret & _).
  exists p. split; [rewrite Hd; reflexivity|].
  destruct (Hret pending_tx) as (o & Ho & Hin); [left| |].
  - exists (SampleDb.request 3 1). split; left.
  - injection Ho as <-. exact Hin.
Defined.

(** 220 inputs are too many for two pegouts of 100,000 sats: [make_tx] never
    returns. *)
Definition heavy : list (TxOut * PegoutId) :=
  [SampleSelection.pegout 3 100000; SampleSelection.pegout 4 100000].
Lemma make_tx_outcome_witness :
  (Coordinator.make_tx SampleValidate.change_script 3 heavy 1000 [81] 1 [] []
     (wallet_db 220)).1 = Err Coordinator.COutOfFuel ∧
  ∀ fuel, (Coordinator.make_tx SampleValidate.change_script fuel heavy 1000 [81] 1 [] []
             (wallet_db 220)).1 = Err Coordinator.COutOfFuel.
Proof.
  assert ((Coordinator.make_tx SampleValidate.change_script 3 heavy 1000 [81] 1 [] []
     (wallet_db 220)).1 = Err Coordinator.COutOfFuel) as Heq by (vm_compute; reflexivity).
  split; [exact Heq|].
  refine (proj2 (proj2 (make_tx_outcome (H0 := Sample.frost) SampleValidate.change_script 3 heavy
    1000 [81] 1 [] [] (wallet_db 220) _) Heq)). simpl. lia.
Defined.
