(* ===== verification/DkgEncryption.v ===== *)
(** * Authentication and encryption of key generation

    [bin/btc-server/src/dkg/encryption.rs]: the three managers that authenticate
    the rounds of distributed key generation.  The curve, the transcript, the
    cipher and FROST's key-generation parts are parameters. *)

From stdpp Require Export strings.
From S2P Require Import Prelude Bitcoin Psbt Database.

(** ** The libraries *)

(** [secp256k1], [merlin], [chacha20poly1305] and [frost::keys::dkg].  Random
    draws are numbered. *)
Class DkgLib `{Frost} := {
  (** [Ord for Identifier]: the strict order *)
  id_lt : Identifier → Identifier → bool;
  SecretKey : Type;
  PublicKey : Type;
  EcdsaSignature : Type;
  new_secret_key : nat → SecretKey;
  public_key : SecretKey → PublicKey;
  pubkey_serialize : PublicKey → bytes;
  signature_serialize : EcdsaSignature → bytes;
  sign_ecdsa : bytes → SecretKey → EcdsaSignature;
  verify_ecdsa : PublicKey → bytes → EcdsaSignature → bool;
  shared_secret : PublicKey → SecretKey → bytes;
  Transcript : Type;
  transcript_new : string → Transcript;
  append_message : string → bytes → Transcript → Transcript;
  append_u64 : string → Z → Transcript → Transcript;
  challenge_bytes : string → Transcript → bytes * Transcript;
  aead_encrypt : bytes → bytes → bytes → option bytes;
  aead_decrypt : bytes → bytes → bytes → option bytes;
  Round1Secret : Type;
  Round1Package : Type;
  Round2Secret : Type;
  Round2Package : Type;
  r1_serialize : Round1Package → option bytes;
  r2_serialize : Round2Package → option bytes;
  r2_deserialize : bytes → option Round2Package;
  pkp_serialize : PublicKeyPackage → option bytes;
  part1 : Identifier → Z → Z → nat → option (Round1Secret * Round1Package);
  part2 : Round1Secret → gmap Identifier Round1Package →
          option (Round2Secret * gmap Identifier Round2Package);
  part3 : Round2Secret → gmap Identifier Round1Package → gmap Identifier Round2Package →
          option (KeyPackage * PublicKeyPackage);
}.

(** Identifiers are totally ordered; Diffie-Hellman commutes; a cipher text is
    read back under its key and nonce; encodings are read back; the shares of
    part 2 are for the participants whose packages it was given, and part 3 wants
    the round-1 and round-2 packages of the same participants. *)
Class DkgLibLaws `{DkgLib} : Prop := {
  id_lt_total a b : a ≠ b → id_lt a b = negb (id_lt b a);
  ecdh_comm a b : shared_secret (public_key a) b = shared_secret (public_key b) a;
  aead_roundtrip k n m c : aead_encrypt k n m = Some c → aead_decrypt k n c = Some m;
  r2_roundtrip p b : r2_serialize p = Some b → r2_deserialize b = Some p;
  part2_targets s ps s' shares : part2 s ps = Some (s', shares) → dom shares = dom ps;
  part3_packages s in1 in2 r : part3 s in1 in2 = Some r → dom in1 = dom in2;
}.

(** [BTreeMap] iteration: ascending identifiers. *)
Section btree.
Context `{DkgLib}.
Definition id_leb (a b : Identifier) : bool := negb (id_lt b a).
Definition btree_iter {V} (m : gmap Identifier V) : list (Identifier * V) :=
  sort_by (λ a b, id_leb a.1 b.1) (map_to_list m).
Definition btree_keys {V} (m : gmap Identifier V) : list Identifier := (btree_iter m).*1.
(** Keys [(Initiator, recipient)] compare lexicographically. *)
Definition pair_leb (a b : Identifier * Identifier) : bool :=
  if bool_decide (a.1 = b.1) then id_leb a.2 b.2 else id_lt a.1 b.1.
Definition btree_iter2 {V} (m : gmap (Identifier * Identifier) V)
    : list (Identifier * Identifier * V) :=
  sort_by (λ a b, pair_leb a.1 b.1) (map_to_list m).
End btree.

Inductive EncryptionError :=
  | SelfNotInFederation
  | InsufficientSamples
  | NotAFedMember
  | SignatureVerificationFailed
  | DecryptionFailed
  | DeserializationFailed
  | AwaitingChallengeGeneration
  | InternalFrostError
  | InternalAeadError.

Section managers.
Context `{DkgLib}.

(** ** Round one: the handshake *)

Record DkgHandshakeManager := {
  hs_transcript : Transcript;
  hs_my_frost_id : Identifier;
  hs_my_static_sec : SecretKey;
  hs_my_eph_sec : SecretKey;
  hs_my_eph_pub : PublicKey;
  hs_fed_members : gmap Identifier PublicKey;
  hs_eph_keys : gmap Identifier PublicKey;
  hs_round1_commits : gmap Identifier bytes;
}.

(** The transcript every participant of a session starts from. *)
Definition session_transcript (context : bytes) (nonce : Z) : Transcript :=
  append_u64 "nonce" nonce
    (append_message "context" context (transcript_new "Botanix_Macbeth_DKG_Setup_v1")).

(** [draw] is the number of the random draw the ephemeral key comes from. *)
Definition handshake_new (context : bytes) (nonce : Z) (my_frost_id : Identifier)
    (my_static_sec : SecretKey) (fed_members : gmap Identifier PublicKey) (draw : nat)
    : result EncryptionError DkgHandshakeManager :=
  if bool_decide (is_Some (fed_members !! my_frost_id)) then
    let my_eph_sec := new_secret_key draw in
    let my_eph_pub := public_key my_eph_sec in
    Ok {| hs_transcript := session_transcript context nonce;
          hs_my_frost_id := my_frost_id; hs_my_static_sec := my_static_sec;
          hs_my_eph_sec := my_eph_sec; hs_my_eph_pub := my_eph_pub;
          hs_fed_members := fed_members; hs_eph_keys := {[my_frost_id := my_eph_pub]};
          hs_round1_commits := ∅ |}
  else Err SelfNotInFederation.

(** The bytes a round-1 package is signed under. *)
Definition round1_commit (t : Transcript) (id : Identifier) (eph_pub : PublicKey) (ser : bytes)
    : bytes :=
  (challenge_bytes "round1_commit"
     (append_message "round1_package" ser
        (append_message "eph_pub" (pubkey_serialize eph_pub)
           (append_message "frost_id" (id_serialize id) t)))).1.

Definition put_commit (id : Identifier) (c : bytes) (m : DkgHandshakeManager)
    : DkgHandshakeManager :=
  {| hs_transcript := hs_transcript m; hs_my_frost_id := hs_my_frost_id m;
     hs_my_static_sec := hs_my_static_sec m; hs_my_eph_sec := hs_my_eph_sec m;
     hs_my_eph_pub := hs_my_eph_pub m; hs_fed_members := hs_fed_members m;
     hs_eph_keys := hs_eph_keys m; hs_round1_commits := <[id := c]> (hs_round1_commits m) |}.
Definition put_eph (id : Identifier) (k : PublicKey) (m : DkgHandshakeManager)
    : DkgHandshakeManager :=
  {| hs_transcript := hs_transcript m; hs_my_frost_id := hs_my_frost_id m;
     hs_my_static_sec := hs_my_static_sec m; hs_my_eph_sec := hs_my_eph_sec m;
     hs_my_eph_pub := hs_my_eph_pub m; hs_fed_members := hs_fed_members m;
     hs_eph_keys := <[id := k]> (hs_eph_keys m); hs_round1_commits := hs_round1_commits m |}.

Definition commit_round1 (package : Round1Package)
    : SM DkgHandshakeManager EncryptionError (PublicKey * EcdsaSignature) :=
  let* m := sget in
  let* ser := slift (ok_or (r1_serialize package) InternalFrostError) in
  let commit := round1_commit (hs_transcript m) (hs_my_frost_id m) (hs_my_eph_pub m) ser in
  let signature := sign_ecdsa commit (hs_my_static_sec m) in
  smodify (put_commit (hs_my_frost_id m) commit) ;;*
  sret (hs_my_eph_pub m, signature).

Definition validate_round1 (initiator : Identifier) (eph_pub : PublicKey)
    (signature : EcdsaSignature) (package : Round1Package)
    : SM DkgHandshakeManager EncryptionError () :=
  let* m := sget in
  let* fed_static := slift (ok_or (hs_fed_members m !! initiator) NotAFedMember) in
  let* ser := slift (ok_or (r1_serialize package) InternalFrostError) in
  let commit := round1_commit (hs_transcript m) initiator eph_pub ser in
  if verify_ecdsa fed_static commit signature then
    smodify (put_eph initiator eph_pub) ;;* smodify (put_commit initiator commit)
  else slift (Err SignatureVerificationFailed).

(** ** Round two: the secure channels *)

Record SymmetricKeyEntry := { sending : bytes; receiving : bytes; nonce : Z }.

Record SecureChannelManager := {
  sc_transcript : Transcript;
  sc_my_frost_id : Identifier;
  sc_my_static_sec : SecretKey;
  sc_fed_members : gmap Identifier PublicKey;
  sc_symmetric_keys : gmap Identifier SymmetricKeyEntry;
  sc_round2_checks : gset Identifier;
}.

(** The two keys shared with a member, the lower identifier's sending key first. *)
Definition channel_keys (t : Transcript) (ss1 ss2 : bytes) : bytes * bytes :=
  let t := append_message "ss2" ss2 (append_message "ss1" ss1 t) in
  let '(key1, t) := challenge_bytes "sym_key1" t in
  let '(key2, _) := challenge_bytes "sym_key2" t in
  (key1, key2).
Definition channel_entry (t : Transcript) (my_id : Identifier) (my_static my_eph : SecretKey)
    (fed_id : Identifier) (fed_static fed_eph : PublicKey) : SymmetricKeyEntry :=
  let '(ss1, ss2) :=
    if id_lt my_id fed_id
    then (shared_secret fed_eph my_static, shared_secret fed_static my_eph)
    else (shared_secret fed_static my_eph, shared_secret fed_eph my_static) in
  let '(key1, key2) := channel_keys t ss1 ss2 in
  let '(s, r) := if id_lt my_id fed_id then (key1, key2) else (key2, key1) in
  {| sending := s; receiving := r; nonce := 0 |}.

(** The loop over the federation; a missing ephemeral key panics. *)
Fixpoint symmetric_keys (m : DkgHandshakeManager) (t : Transcript)
    (l : list (Identifier * PublicKey))
    : result EncryptionError (gmap Identifier SymmetricKeyEntry) :=
  match l with
  | [] => Ok ∅
  | (fed_id, fed_static) :: l' =>
      if bool_decide (fed_id = hs_my_frost_id m) then symmetric_keys m t l'
      else
        let? fed_eph := expect (hs_eph_keys m !! fed_id) in
        let? rest := symmetric_keys m t l' in
        Ok (<[fed_id := channel_entry t (hs_my_frost_id m) (hs_my_static_sec m)
                          (hs_my_eph_sec m) fed_id fed_static fed_eph]> rest)
  end.

(** All commitments, in ascending order of identifiers. *)
Definition append_commits (commits : gmap Identifier bytes) (t : Transcript) : Transcript :=
  foldl (λ t kv, append_message "round1_commit" kv.2 t) t (btree_iter commits).

(** [std::mem::take] empties the manager's commitments and, at the end, its
    members. *)
Definition handshake_finalize : SM DkgHandshakeManager EncryptionError SecureChannelManager :=
  let* m := sget in
  if negb (size (hs_round1_commits m) =? size (hs_fed_members m))%nat
  then slift (Err InsufficientSamples)
  else
    let t := append_commits (hs_round1_commits m) (hs_transcript m) in
    let drained members :=
      {| hs_transcript := t; hs_my_frost_id := hs_my_frost_id m;
         hs_my_static_sec := hs_my_static_sec m; hs_my_eph_sec := hs_my_eph_sec m;
         hs_my_eph_pub := hs_my_eph_pub m; hs_fed_members := members;
         hs_eph_keys := hs_eph_keys m; hs_round1_commits := ∅ |} in
    smodify (λ _, drained (hs_fed_members m)) ;;*
    let* keys := slift (symmetric_keys m t (btree_iter (hs_fed_members m))) in
    smodify (λ _, drained ∅) ;;*
    sret {| sc_transcript := t; sc_my_frost_id := hs_my_frost_id m;
            sc_my_static_sec := hs_my_static_sec m; sc_fed_members := hs_fed_members m;
            sc_symmetric_keys := keys; sc_round2_checks := ∅ |}.

(** Eight little-endian bytes and four zeros. *)
Definition integer_to_serialized_nonce (n : Z) : bytes := to_le_bytes 8 n ++ replicate 4 0.

Definition put_key (id : Identifier) (e : SymmetricKeyEntry) (m : SecureChannelManager)
    : SecureChannelManager :=
  {| sc_transcript := sc_transcript m; sc_my_frost_id := sc_my_frost_id m;
     sc_my_static_sec := sc_my_static_sec m; sc_fed_members := sc_fed_members m;
     sc_symmetric_keys := <[id := e]> (sc_symmetric_keys m);
     sc_round2_checks := sc_round2_checks m |}.
Definition mark_check (id : Identifier) (m : SecureChannelManager) : SecureChannelManager :=
  {| sc_transcript := sc_transcript m; sc_my_frost_id := sc_my_frost_id m;
     sc_my_static_sec := sc_my_static_sec m; sc_fed_members := sc_fed_members m;
     sc_symmetric_keys := sc_symmetric_keys m;
     sc_round2_checks := {[id]} ∪ sc_round2_checks m |}.

Definition commit_round2 (target : Identifier) (package : Round2Package)
    : SM SecureChannelManager EncryptionError (bytes * Z) :=
  let* m := sget in
  let* entry := slift (ok_or (sc_symmetric_keys m !! target) NotAFedMember) in
  let sending_nonce := nonce entry in
  smodify (put_key target {| sending := sending entry; receiving := receiving entry;
                             nonce := wrap64 (sending_nonce + 1) |}) ;;*
  let* plaintext := slift (ok_or (r2_serialize package) InternalFrostError) in
  let* enc_package := slift (ok_or (aead_encrypt (sending entry)
                         (integer_to_serialized_nonce sending_nonce) plaintext)
                         InternalAeadError) in
  smodify (mark_check (sc_my_frost_id m)) ;;*
  sret (enc_package, sending_nonce).

Definition validate_round2 (initiator : Identifier) (n : Z) (package : bytes)
    : SM SecureChannelManager EncryptionError Round2Package :=
  let* m := sget in
  let* entry := slift (ok_or (sc_symmetric_keys m !! initiator) NotAFedMember) in
  let* plaintext := slift (ok_or (aead_decrypt (receiving entry)
                       (integer_to_serialized_nonce n) package) DecryptionFailed) in
  let* pkg := slift (ok_or (r2_deserialize plaintext) DeserializationFailed) in
  smodify (mark_check initiator) ;;*
  sret pkg.

(** ** Round three: key verification *)

Record KeyVerificationManager := {
  kv_transcript : Transcript;
  kv_my_frost_id : Identifier;
  kv_my_static_sec : SecretKey;
  kv_fed_members : gmap Identifier PublicKey;
  kv_challenge : option bytes;
  kv_round3_commits : gmap Identifier EcdsaSignature;
}.

Definition channel_finalize : SM SecureChannelManager EncryptionError KeyVerificationManager :=
  let* m := sget in
  if negb (size (sc_round2_checks m) =? size (sc_fed_members m))%nat
  then slift (Err InsufficientSamples)
  else
    let t := append_message "round2_commit" [] (sc_transcript m) in
    smodify (λ m, {| sc_transcript := t; sc_my_frost_id := sc_my_frost_id m;
                     sc_my_static_sec := sc_my_static_sec m; sc_fed_members := ∅;
                     sc_symmetric_keys := sc_symmetric_keys m;
                     sc_round2_checks := sc_round2_checks m |}) ;;*
    sret {| kv_transcript := t; kv_my_frost_id := sc_my_frost_id m;
            kv_my_static_sec := sc_my_static_sec m; kv_fed_members := sc_fed_members m;
            kv_challenge := None; kv_round3_commits := ∅ |}.

Definition put_transcript (t : Transcript) (m : KeyVerificationManager) : KeyVerificationManager :=
  {| kv_transcript := t; kv_my_frost_id := kv_my_frost_id m;
     kv_my_static_sec := kv_my_static_sec m; kv_fed_members := kv_fed_members m;
     kv_challenge := kv_challenge m; kv_round3_commits := kv_round3_commits m |}.
Definition put_challenge (c : bytes) (m : KeyVerificationManager) : KeyVerificationManager :=
  {| kv_transcript := kv_transcript m; kv_my_frost_id := kv_my_frost_id m;
     kv_my_static_sec := kv_my_static_sec m; kv_fed_members := kv_fed_members m;
     kv_challenge := Some c; kv_round3_commits := kv_round3_commits m |}.
Definition put_signature (id : Identifier) (s : EcdsaSignature) (m : KeyVerificationManager)
    : KeyVerificationManager :=
  {| kv_transcript := kv_transcript m; kv_my_frost_id := kv_my_frost_id m;
     kv_my_static_sec := kv_my_static_sec m; kv_fed_members := kv_fed_members m;
     kv_challenge := kv_challenge m; kv_round3_commits := <[id := s]> (kv_round3_commits m) |}.

Definition commit_round3 (package : PublicKeyPackage)
    : SM KeyVerificationManager EncryptionError EcdsaSignature :=
  let* m := sget in
  let* ser := slift (ok_or (pkp_serialize package) InternalFrostError) in
  let '(commit, t) :=
    challenge_bytes "round3_commit" (append_message "round3_package" ser (kv_transcript m)) in
  let signature := sign_ecdsa commit (kv_my_static_sec m) in
  smodify (put_transcript t) ;;*
  smodify (put_challenge commit) ;;*
  smodify (put_signature (kv_my_frost_id m) signature) ;;*
  sret signature.

Definition validate_round3 (initiator : Identifier) (signature : EcdsaSignature)
    : SM KeyVerificationManager EncryptionError () :=
  let* m := sget in
  let* challenge := slift (ok_or (kv_challenge m) AwaitingChallengeGeneration) in
  let* fed_static := slift (ok_or (kv_fed_members m !! initiator) NotAFedMember) in
  if verify_ecdsa fed_static challenge signature then smodify (put_signature initiator signature)
  else slift (Err SignatureVerificationFailed).

Definition verification_finalize : SM KeyVerificationManager EncryptionError bytes :=
  let* m := sget in
  if negb (size (kv_round3_commits m) =? size (kv_fed_members m))%nat
  then slift (Err InsufficientSamples)
  else
    let t := foldl (λ t kv, append_message "round3_commit" (signature_serialize kv.2) t)
               (kv_transcript m) (btree_iter (kv_round3_commits m)) in
    let '(final_commit, t) := challenge_bytes "final_commit" t in
    smodify (λ m, {| kv_transcript := t; kv_my_frost_id := kv_my_frost_id m;
                     kv_my_static_sec := kv_my_static_sec m; kv_fed_members := kv_fed_members m;
                     kv_challenge := kv_challenge m; kv_round3_commits := ∅ |}) ;;*
    sret final_commit.

End managers.
