(* ===== verification/Dkg.v ===== *)
(** * Distributed key generation

    [bin/btc-server/src/dkg/mod.rs]: the state machine every federation member
    runs to generate the shared key.  A coordinator relays all messages.  Each
    method of [DkgStateMachine] is a definition on the record of its fields; the
    network delivers any payloads in any order by calling [recv].

    Times are nanoseconds; [Instant + Duration] does not overflow.  Newtypes
    [Initiator], [Target] and the sealed packages are the values they wrap. *)

From S2P Require Import Prelude Bitcoin Psbt Database DkgEncryption.
Local Open Scope Z_scope.

Definition bytes_of_string (s : string) : bytes :=
  (λ a, Z.of_nat (Ascii.nat_of_ascii a)) <$> String.list_ascii_of_string s.
Definition SESSION_CONTEXT : bytes := bytes_of_string "static-dkg-session-context".

Section data.
Context `{DkgLib}.

Inductive DkgMessage :=
  | Round1 (initiator : Identifier) (context : bytes) (nonce : Z) (ephemeral_pub : PublicKey)
           (signature : EcdsaSignature) (package : Round1Package)
  | AckRound1 (initiator : Identifier)
  | Round2 (initiator target : Identifier) (nonce : Z) (package : bytes)
  | AckRound2 (initiator target : Identifier)
  | Round3 (initiator : Identifier) (signature : EcdsaSignature)
  | AckRound3 (initiator : Identifier).

Record DkgPayload := { sender : Identifier; recipient : Identifier; msg : DkgMessage }.

Record Config := {
  max_signers : Z;
  min_signers : Z;
  round1_package_timeout : Z;
  round2_package_timeout : Z;
  round3_package_timeout : Z;
  pending_session_timeout : option Z;
}.

Inductive Stage := AwaitingInitS | RoundOneS | RoundTwoS | RoundThreeS | AbortedS | FinalizedS.

Record OutEntryRoundOne := {
  o1_package : Round1Package; o1_ephemeral_pub : PublicKey; o1_signature : EcdsaSignature;
  o1_timer : option Z; o1_attempts : Z }.
Record OutEntryRoundTwo := {
  o2_ciphernonce : Z; o2_ciphertext : bytes; o2_timer : option Z; o2_attempts : Z }.
Record OutEntryRoundThree := {
  o3_signature : EcdsaSignature; o3_timer : option Z; o3_attempts : Z }.

(** Outgoing packages by initiator and recipient; [None] is a package still to
    be forwarded. *)
Abbreviation out_map V := (gmap (Identifier * Identifier) (option V)).

Record R1 := {
  r1_context : bytes;
  r1_nonce : Z;
  r1_auth : DkgHandshakeManager;
  r1_secret : Round1Secret;
  r1_in : gmap Identifier Round1Package;
  r1_out : out_map OutEntryRoundOne;
}.
Record R2 := {
  r2_pending : bool;
  r2_auth : SecureChannelManager;
  r2_secret : Round2Secret;
  r2_in1 : gmap Identifier Round1Package;
  r2_in2 : gmap Identifier Round2Package;
  r2_out : out_map OutEntryRoundTwo;
}.
Record R3 := {
  r3_pending : bool;
  r3_auth : KeyVerificationManager;
  r3_secret : KeyPackage;
  r3_public : PublicKeyPackage;
  r3_in1 : gmap Identifier Round1Package;
  r3_in2 : gmap Identifier Round2Package;
  r3_in3 : gmap Identifier EcdsaSignature;
  r3_out : out_map OutEntryRoundThree;
}.
Inductive StageState :=
  | AwatingInit
  | RoundOne (r : R1)
  | RoundTwo (r : R2)
  | RoundThree (r : R3)
  | Aborted
  | Finalized (secret_package : KeyPackage) (public_key_package : PublicKeyPackage).

Definition did_round_one_finalize (s : StageState) : bool :=
  match s with RoundTwo _ | RoundThree _ | Finalized _ _ => true | _ => false end.
Definition did_round_two_finalize (s : StageState) : bool :=
  match s with RoundThree _ | Finalized _ _ => true | _ => false end.
Definition did_round_three_finalize (s : StageState) : bool :=
  match s with Finalized _ _ => true | _ => false end.

Inductive DkgError := BadConfig (why : string) | FrostErr | Encryption (e : EncryptionError).

(** [draws] is not a field of the code: the random draws made so far. *)
Record DkgStateMachine := {
  config : Config;
  my_frost_id : Identifier;
  my_static_sec : SecretKey;
  coordinator : Identifier;
  members : gmap Identifier PublicKey;
  queue : list DkgPayload;
  state : StageState;
  session_nonce : option Z;
  session_activated : option Z;
  draws : nat;
}.

Definition is_coordinator (s : DkgStateMachine) : bool :=
  bool_decide (my_frost_id s = coordinator s).
Definition stage (s : DkgStateMachine) : Stage :=
  match state s with
  | AwatingInit => AwaitingInitS
  | RoundOne _ => RoundOneS
  | RoundTwo _ => RoundTwoS
  | RoundThree _ => RoundThreeS
  | Finalized _ _ => FinalizedS
  | Aborted => AbortedS
  end.
Definition aggregate_key_packages (s : DkgStateMachine) : option (KeyPackage * PublicKeyPackage) :=
  match state s with Finalized k p => Some (k, p) | _ => None end.

(** Field updates. *)
Definition put_state (x : StageState) (s : DkgStateMachine) : DkgStateMachine :=
  {| config := config s; my_frost_id := my_frost_id s; my_static_sec := my_static_sec s;
     coordinator := coordinator s; members := members s; queue := queue s; state := x;
     session_nonce := session_nonce s; session_activated := session_activated s;
     draws := draws s |}.
Definition put_queue (q : list DkgPayload) (s : DkgStateMachine) : DkgStateMachine :=
  {| config := config s; my_frost_id := my_frost_id s; my_static_sec := my_static_sec s;
     coordinator := coordinator s; members := members s; queue := q; state := state s;
     session_nonce := session_nonce s; session_activated := session_activated s;
     draws := draws s |}.
Definition put_session (n act : option Z) (s : DkgStateMachine) : DkgStateMachine :=
  {| config := config s; my_frost_id := my_frost_id s; my_static_sec := my_static_sec s;
     coordinator := coordinator s; members := members s; queue := queue s; state := state s;
     session_nonce := n; session_activated := act; draws := draws s |}.
Definition put_draws (n : nat) (s : DkgStateMachine) : DkgStateMachine :=
  {| config := config s; my_frost_id := my_frost_id s; my_static_sec := my_static_sec s;
     coordinator := coordinator s; members := members s; queue := queue s; state := state s;
     session_nonce := session_nonce s; session_activated := session_activated s; draws := n |}.

Abbreviation DkgM := (SM DkgStateMachine DkgError).

Definition push (l : list DkgPayload) : DkgM () := smodify (λ s, put_queue (queue s ++ l) s).
(** A message from us. *)
Definition payload (s : DkgStateMachine) (to : Identifier) (m : DkgMessage) : DkgPayload :=
  {| sender := my_frost_id s; recipient := to; msg := m |}.

(** [send_round1_ack] and its siblings *)
Definition send_ack (to : Identifier) (m : DkgMessage) : DkgM () :=
  let* s := sget in push [payload s to m].

(** One random draw. *)
Definition draw : DkgM nat :=
  let* s := sget in smodify (put_draws (S (draws s))) ;;* sret (draws s).

(** ** Starting a session *)

(** What the coordinator has to have acknowledged: every package to every other
    member but the package's initiator. *)
Definition distribution (me : Identifier) (ids : list Identifier) : list (Identifier * Identifier) :=
  ids ≫= λ i, (λ r, (i, r)) <$> filter (λ r, r ≠ me ∧ i ≠ r) ids.

Definition out_table {V} (me : Identifier) (ids : list Identifier) (own : V) : out_map V :=
  list_to_map ((λ ir, (ir, if bool_decide (ir.1 = me) then Some own else None))
               <$> distribution me ids).
(** The recipients of our own packages, in order. *)
Definition own_recipients (me : Identifier) (ids : list Identifier) : list Identifier :=
  (filter (λ ir, ir.1 = me) (distribution me ids)).*2.

(** Seal our round-1 package. *)
Definition new_round1 (auth : DkgHandshakeManager) (pkg : Round1Package)
    : DkgM (DkgHandshakeManager * OutEntryRoundOne) :=
  match commit_round1 pkg auth with
  | (Ok (eph, sig), auth') =>
      sret (auth', {| o1_package := pkg; o1_ephemeral_pub := eph; o1_signature := sig;
                      o1_timer := None; o1_attempts := 0 |})
  | (Err e, _) => slift (Err (Encryption e))
  | (Panic, _) => slift Panic
  end.

Definition round1_msg (i : Identifier) (ctx : bytes) (n : Z) (e : OutEntryRoundOne) : DkgMessage :=
  Round1 i ctx n (o1_ephemeral_pub e) (o1_signature e) (o1_package e).

Definition init_new_session (n : Z) : DkgM () :=
  let context := SESSION_CONTEXT in
  smodify (λ s, put_queue [] (put_session (Some n) None s)) ;;*
  let* s := sget in
  let* r := draw in
  let* '(secret, pkg) :=
    slift (ok_or (part1 (my_frost_id s) (max_signers (config s)) (min_signers (config s)) r)
             FrostErr) in
  let* r' := draw in
  let* auth := slift (map_err Encryption
    (handshake_new context n (my_frost_id s) (my_static_sec s) (members s) r')) in
  let* '(auth', entry) := new_round1 auth pkg in
  let ids := btree_keys (members s) in
  push ((λ to, payload s to (round1_msg (my_frost_id s) context n entry))
        <$> own_recipients (my_frost_id s) ids) ;;*
  smodify (put_state (RoundOne {| r1_context := context; r1_nonce := n; r1_auth := auth';
    r1_secret := secret; r1_in := ∅; r1_out := out_table (my_frost_id s) ids entry |})).

Definition new (my_id : Identifier) (sec : SecretKey) (coord : Identifier)
    (mem : gmap Identifier PublicKey) (cfg : Config) (n : option Z) (first_draw : nat)
    : result DkgError DkgStateMachine :=
  if negb (bool_decide (is_Some (mem !! my_id))) then Err (BadConfig "my_frost_id not in members")
  else if negb (bool_decide (is_Some (mem !! coord))) then
    Err (BadConfig "coordinator not in members")
  else if max_signers cfg <? min_signers cfg then
    Err (BadConfig "min_signers cannot be greater than max_signers")
  else if negb (Z.of_nat (size mem) mod 65536 =? max_signers cfg) then
    Err (BadConfig "max_signers does not match member size")
  else if bool_decide (my_id = coord) && bool_decide (n = None) then
    Err (BadConfig "coordinator must provide a session nonce")
  else
    let this := {| config := cfg; my_frost_id := my_id; my_static_sec := sec;
                   coordinator := coord; members := mem; queue := []; state := AwatingInit;
                   session_nonce := None; session_activated := None; draws := first_draw |} in
    if bool_decide (my_id = coord) then
      let? n := expect n in
      match init_new_session n this with
      | (Ok _, this') => Ok this'
      | (Err e, _) => Err e
      | (Panic, _) => Panic
      end
    else Ok this.

(** ** Transitions between rounds *)

Definition set_r1 (r : R1) : DkgM () := smodify (put_state (RoundOne r)).
Definition set_r2 (r : R2) : DkgM () := smodify (put_state (RoundTwo r)).
Definition set_r3 (r : R3) : DkgM () := smodify (put_state (RoundThree r)).

Definition r1_with_auth (a : DkgHandshakeManager) (r : R1) : R1 :=
  {| r1_context := r1_context r; r1_nonce := r1_nonce r; r1_auth := a; r1_secret := r1_secret r;
     r1_in := r1_in r; r1_out := r1_out r |}.
Definition r1_with_in (i : gmap Identifier Round1Package) (r : R1) : R1 :=
  {| r1_context := r1_context r; r1_nonce := r1_nonce r; r1_auth := r1_auth r;
     r1_secret := r1_secret r; r1_in := i; r1_out := r1_out r |}.
Definition r1_with_out (o : out_map OutEntryRoundOne) (r : R1) : R1 :=
  {| r1_context := r1_context r; r1_nonce := r1_nonce r; r1_auth := r1_auth r;
     r1_secret := r1_secret r; r1_in := r1_in r; r1_out := o |}.
Definition r2_with_auth (a : SecureChannelManager) (r : R2) : R2 :=
  {| r2_pending := r2_pending r; r2_auth := a; r2_secret := r2_secret r; r2_in1 := r2_in1 r;
     r2_in2 := r2_in2 r; r2_out := r2_out r |}.
Definition r2_with_ins (i1 : gmap Identifier Round1Package) (i2 : gmap Identifier Round2Package)
    (r : R2) : R2 :=
  {| r2_pending := r2_pending r; r2_auth := r2_auth r; r2_secret := r2_secret r; r2_in1 := i1;
     r2_in2 := i2; r2_out := r2_out r |}.
Definition r2_with_out (o : out_map OutEntryRoundTwo) (r : R2) : R2 :=
  {| r2_pending := r2_pending r; r2_auth := r2_auth r; r2_secret := r2_secret r;
     r2_in1 := r2_in1 r; r2_in2 := r2_in2 r; r2_out := o |}.
Definition r2_with_pending (b : bool) (r : R2) : R2 :=
  {| r2_pending := b; r2_auth := r2_auth r; r2_secret := r2_secret r;
     r2_in1 := r2_in1 r; r2_in2 := r2_in2 r; r2_out := r2_out r |}.
Definition r3_with_auth (a : KeyVerificationManager) (r : R3) : R3 :=
  {| r3_pending := r3_pending r; r3_auth := a; r3_secret := r3_secret r; r3_public := r3_public r;
     r3_in1 := r3_in1 r; r3_in2 := r3_in2 r; r3_in3 := r3_in3 r; r3_out := r3_out r |}.
Definition r3_with_in (i : gmap Identifier EcdsaSignature) (r : R3) : R3 :=
  {| r3_pending := r3_pending r; r3_auth := r3_auth r; r3_secret := r3_secret r;
     r3_public := r3_public r; r3_in1 := r3_in1 r; r3_in2 := r3_in2 r; r3_in3 := i;
     r3_out := r3_out r |}.
Definition r3_with_out (o : out_map OutEntryRoundThree) (r : R3) : R3 :=
  {| r3_pending := r3_pending r; r3_auth := r3_auth r; r3_secret := r3_secret r;
     r3_public := r3_public r; r3_in1 := r3_in1 r; r3_in2 := r3_in2 r; r3_in3 := r3_in3 r;
     r3_out := o |}.
Definition r3_with_pending (b : bool) (r : R3) : R3 :=
  {| r3_pending := b; r3_auth := r3_auth r; r3_secret := r3_secret r;
     r3_public := r3_public r; r3_in1 := r3_in1 r; r3_in2 := r3_in2 r; r3_in3 := r3_in3 r;
     r3_out := r3_out r |}.

(** [members.len() - 1]; there is at least one member. *)
Definition others (s : DkgStateMachine) : nat := size (members s) - 1.

(** Encrypt each share for its target; the coordinator sends it at once.  The
    table is a local variable: a failure drops it. *)
Fixpoint commit_shares (auth : SecureChannelManager) (out : out_map OutEntryRoundTwo)
    (l : list (Identifier * Round2Package))
    : DkgM (SecureChannelManager * out_map OutEntryRoundTwo) :=
  match l with
  | [] => sret (auth, out)
  | (target, pkg) :: l' =>
      let* s := sget in
      match commit_round2 target pkg auth with
      | (Ok (ciphertext, ciphernonce), auth') =>
          let entry := {| o2_ciphernonce := ciphernonce; o2_ciphertext := ciphertext;
                          o2_timer := None; o2_attempts := 0 |} in
          (if is_coordinator s then
             push [payload s target (Round2 (my_frost_id s) target ciphernonce ciphertext)]
           else sret tt) ;;*
          commit_shares auth' (<[(my_frost_id s, target) := Some entry]> out) l'
      | (Err e, _) => slift (Err (Encryption e))
      | (Panic, _) => slift Panic
      end
  end.

(** The coordinator's entries for the packages of the others. *)
Definition forwarded (me : Identifier) (ids : list Identifier) : list (Identifier * Identifier) :=
  filter (λ ir, ir.1 ≠ me) (distribution me ids).

Definition transition_stage2_checked : DkgM () :=
  let* s := sget in
  match state s with
  | RoundOne r =>
      if negb (size (r1_in r) =? others s)%nat || negb (bool_decide (r1_out r = ∅)) then sret tt
      else
        let in1 := r1_in r in
        set_r1 (r1_with_in ∅ r) ;;*
        match part2 (r1_secret r) in1 with
        | None => smodify (put_state Aborted)
        | Some (secret, shares) =>
            let '(res, auth') := handshake_finalize (r1_auth r) in
            set_r1 (r1_with_auth auth' (r1_with_in ∅ r)) ;;*
            let* auth2 := slift (map_err Encryption res) in
            let* '(auth2', out) := commit_shares auth2 ∅ (btree_iter shares) in
            let out' := if is_coordinator s
              then foldl (λ o ir, <[ir := None]> o) out
                     (forwarded (my_frost_id s) (btree_keys (members s)))
              else out in
            set_r2 {| r2_pending := negb (is_coordinator s); r2_auth := auth2';
                      r2_secret := secret; r2_in1 := in1; r2_in2 := ∅; r2_out := out' |}
        end
  | _ => sret tt
  end.

Definition transition_stage3_checked : DkgM () :=
  let* s := sget in
  match state s with
  | RoundTwo r =>
      if negb (size (r2_in2 r) =? others s)%nat || negb (bool_decide (r2_out r = ∅)) then sret tt
      else
        let in1 := r2_in1 r in
        let in2 := r2_in2 r in
        set_r2 (r2_with_ins ∅ ∅ r) ;;*
        match part3 (r2_secret r) in1 in2 with
        | None => sret tt
        | Some (secret, public) =>
            let '(res, auth') := channel_finalize (r2_auth r) in
            set_r2 (r2_with_auth auth' (r2_with_ins ∅ ∅ r)) ;;*
            let* auth3 := slift (map_err Encryption res) in
            match commit_round3 public auth3 with
            | (Ok sig, auth3') =>
                let entry := {| o3_signature := sig; o3_timer := None; o3_attempts := 0 |} in
                let me := my_frost_id s in
                let ids := btree_keys (members s) in
                let table := if is_coordinator s then out_table me ids entry
                             else {[(me, coordinator s) := Some entry]} in
                (if is_coordinator s
                 then push ((λ to, payload s to (Round3 me sig)) <$> own_recipients me ids)
                 else sret tt) ;;*
                set_r3 {| r3_pending := negb (is_coordinator s); r3_auth := auth3';
                          r3_secret := secret; r3_public := public; r3_in1 := in1;
                          r3_in2 := in2; r3_in3 := ∅; r3_out := table |}
            | (Err e, _) => slift (Err (Encryption e))
            | (Panic, _) => slift Panic
            end
        end
  | _ => sret tt
  end.

Definition transition_final_checked : DkgM () :=
  let* s := sget in
  match state s with
  | RoundThree r =>
      if negb (size (r3_in3 r) =? others s)%nat || negb (bool_decide (r3_out r = ∅)) then sret tt
      else
        let '(res, auth') := verification_finalize (r3_auth r) in
        set_r3 (r3_with_auth auth' r) ;;*
        let* _ := slift (map_err Encryption res) in
        smodify (λ s, put_session None None
                        (put_state (Finalized (r3_secret r) (r3_public r)) s))
  | _ => sret tt
  end.

(** ** Incoming messages *)

Definition is_member (s : DkgStateMachine) (i : Identifier) : bool :=
  bool_decide (is_Some (members s !! i)).

Definition on_dkg_msg_ack_round1 (initiator from : Identifier) : DkgM () :=
  let* s := sget in
  if negb (is_member s initiator) then sret tt
  else match state s with
       | RoundOne r => set_r1 (r1_with_out (delete (initiator, from) (r1_out r)) r)
       | _ => sret tt
       end.
Definition on_dkg_msg_ack_round2 (initiator target : Identifier) : DkgM () :=
  let* s := sget in
  if negb (is_member s initiator) then sret tt
  else match state s with
       | RoundTwo r => set_r2 (r2_with_out (delete (initiator, target) (r2_out r)) r)
       | _ => sret tt
       end.
Definition on_dkg_msg_ack_round3 (initiator from : Identifier) : DkgM () :=
  let* s := sget in
  if negb (is_member s initiator) then sret tt
  else match state s with
       | RoundThree r => set_r3 (r3_with_out (delete (initiator, from) (r3_out r)) r)
       | _ => sret tt
       end.

(** The guards of [validate_new_session_init]. *)
Definition refuses_session (s : DkgStateMachine) (initiator : Identifier) (ctx : bytes) (n : Z)
    : bool :=
  is_coordinator s || negb (bool_decide (initiator = coordinator s)) ||
  negb (bool_decide (ctx = SESSION_CONTEXT)) ||
  match session_nonce s with Some last => n <=? last | None => false end ||
  match state s with Finalized _ _ => true | _ => false end.

Definition validate_new_session_init (initiator : Identifier) (ctx : bytes) (n : Z)
    (eph : PublicKey) (sig : EcdsaSignature) (pkg : Round1Package) : DkgM bool :=
  let* s := sget in
  if refuses_session s initiator ctx n then sret false
  else
    let* r := draw in
    let* auth := slift (map_err Encryption
      (handshake_new ctx n (my_frost_id s) (my_static_sec s) (members s) r)) in
    let '(res, auth') := validate_round1 initiator eph sig pkg auth in
    let* _ := slift (map_err Encryption res) in
    smodify (λ s, put_queue [] (put_session (Some n) None s)) ;;*
    send_ack (coordinator s) (AckRound1 initiator) ;;*
    let* r' := draw in
    let* '(secret, own) :=
      slift (ok_or (part1 (my_frost_id s) (max_signers (config s)) (min_signers (config s)) r')
               FrostErr) in
    let* '(auth'', entry) := new_round1 auth' own in
    push [payload s (coordinator s) (round1_msg (my_frost_id s) ctx n entry)] ;;*
    set_r1 {| r1_context := ctx; r1_nonce := n; r1_auth := auth''; r1_secret := secret;
              r1_in := {[initiator := pkg]};
              r1_out := {[(my_frost_id s, coordinator s) := Some entry]} |} ;;*
    sret true.

(** The coordinator forwards to every other member but the sender, where the
    package is still to be acknowledged. *)
Definition forward_targets {V} (s : DkgStateMachine) (initiator from : Identifier)
    (out : out_map V) : list Identifier :=
  filter (λ to, to ≠ my_frost_id s ∧ to ≠ from ∧ is_Some (out !! (initiator, to)))
    (btree_keys (members s)).
Definition forward_entries {V} (initiator : Identifier) (e : V) (l : list Identifier)
    (out : out_map V) : out_map V :=
  foldl (λ o to, <[(initiator, to) := Some e]> o) out l.

(** A round-1 package of the active session. *)
Definition accept_round1 (initiator : Identifier) (eph : PublicKey) (sig : EcdsaSignature)
    (pkg : Round1Package) (from : Identifier) : DkgM () :=
  let* s := sget in
  match state s with
  | RoundOne r =>
      if bool_decide (is_Some (r1_in r !! initiator)) then send_ack from (AckRound1 initiator)
      else
        let '(res, auth') := validate_round1 initiator eph sig pkg (r1_auth r) in
        set_r1 (r1_with_auth auth' r) ;;*
        let* _ := slift (map_err Encryption res) in
        let r' := r1_with_in (<[initiator := pkg]> (r1_in r)) (r1_with_auth auth' r) in
        set_r1 r' ;;*
        send_ack from (AckRound1 initiator) ;;*
        if is_coordinator s then
          let targets := forward_targets s initiator from (r1_out r) in
          let entry := {| o1_package := pkg; o1_ephemeral_pub := eph; o1_signature := sig;
                          o1_timer := None; o1_attempts := 0 |} in
          set_r1 (r1_with_out (forward_entries initiator entry targets (r1_out r)) r') ;;*
          push ((λ to, payload s to (round1_msg initiator (r1_context r) (r1_nonce r) entry))
                <$> targets)
        else sret tt
  | st => if did_round_one_finalize st then send_ack from (AckRound1 initiator) else sret tt
  end.

Definition on_dkg_msg_round1 (initiator : Identifier) (ctx : bytes) (n : Z) (eph : PublicKey)
    (sig : EcdsaSignature) (pkg : Round1Package) (from : Identifier) : DkgM () :=
  let* s := sget in
  if negb (is_member s initiator) || bool_decide (initiator = my_frost_id s) ||
     negb (bool_decide (ctx = SESSION_CONTEXT)) then sret tt
  else
    let check := match session_nonce s with
                 | Some last => if last <? n then Some true
                                else if n =? last then Some false else None
                 | None => Some true
                 end in
    match check with
    | None => sret tt
    | Some false => accept_round1 initiator eph sig pkg from
    | Some true =>
        let* accepted := validate_new_session_init initiator ctx n eph sig pkg in
        if accepted then sret tt else accept_round1 initiator eph sig pkg from
    end.

(** Our stored round-2 packages, as messages to the coordinator. *)
Definition pending_round2 (s : DkgStateMachine) (out : out_map OutEntryRoundTwo) : list DkgPayload :=
  omap (λ kv : Identifier * Identifier * option OutEntryRoundTwo,
    (λ e, payload s (coordinator s)
            (Round2 kv.1.1 kv.1.2 (o2_ciphernonce e) (o2_ciphertext e))) <$> kv.2)
    (btree_iter2 out).

Definition on_dkg_msg_round2 (initiator target : Identifier) (n : Z) (cipher : bytes)
    (from : Identifier) : DkgM () :=
  let* s := sget in
  if negb (is_member s initiator) || bool_decide (initiator = my_frost_id s) then sret tt
  else
    match state s with
    | RoundTwo r =>
        if bool_decide (target = my_frost_id s) then
          if bool_decide (is_Some (r2_in2 r !! initiator)) then
            send_ack from (AckRound2 initiator target)
          else
            let '(res, auth') := validate_round2 initiator n cipher (r2_auth r) in
            set_r2 (r2_with_auth auth' r) ;;*
            let* pkg := slift (map_err Encryption res) in
            let r' := r2_with_ins (r2_in1 r) (<[initiator := pkg]> (r2_in2 r))
                        (r2_with_auth auth' r) in
            set_r2 r' ;;*
            send_ack from (AckRound2 initiator target) ;;*
            if r2_pending r then
              push (pending_round2 s (r2_out r)) ;;* set_r2 (r2_with_pending false r')
            else sret tt
        else if negb (is_coordinator s) then sret tt
        else
          match r2_out r !! (initiator, target) with
          | None => sret tt
          | Some _ =>
              let entry := {| o2_ciphernonce := n; o2_ciphertext := cipher; o2_timer := None;
                              o2_attempts := 0 |} in
              set_r2 (r2_with_out (<[(initiator, target) := Some entry]> (r2_out r)) r) ;;*
              send_ack from (AckRound2 initiator target) ;;*
              push [payload s target (Round2 initiator target n cipher)]
          end
    | st =>
        if did_round_two_finalize st then send_ack from (AckRound2 initiator target) else sret tt
    end.

Definition pending_round3 (s : DkgStateMachine) (out : out_map OutEntryRoundThree)
    : list DkgPayload :=
  omap (λ kv : Identifier * Identifier * option OutEntryRoundThree,
    (λ e, payload s kv.1.2 (Round3 kv.1.1 (o3_signature e))) <$> kv.2) (btree_iter2 out).

Definition on_dkg_msg_round3 (initiator : Identifier) (sig : EcdsaSignature) (from : Identifier)
    : DkgM () :=
  let* s := sget in
  if negb (is_member s initiator) || bool_decide (initiator = my_frost_id s) then sret tt
  else
    match state s with
    | RoundThree r =>
        if bool_decide (is_Some (r3_in3 r !! initiator)) then send_ack from (AckRound3 initiator)
        else
          let '(res, auth') := validate_round3 initiator sig (r3_auth r) in
          set_r3 (r3_with_auth auth' r) ;;*
          let* _ := slift (map_err Encryption res) in
          let r' := r3_with_in (<[initiator := sig]> (r3_in3 r)) (r3_with_auth auth' r) in
          set_r3 r' ;;*
          send_ack from (AckRound3 initiator) ;;*
          (if r3_pending r then
             push (pending_round3 s (r3_out r)) ;;* set_r3 (r3_with_pending false r')
           else sret tt) ;;*
          if is_coordinator s then
            let targets := forward_targets s initiator from (r3_out r) in
            let entry := {| o3_signature := sig; o3_timer := None; o3_attempts := 0 |} in
            set_r3 (r3_with_out (forward_entries initiator entry targets (r3_out r))
                      (r3_with_pending false r')) ;;*
            push ((λ to, payload s to (Round3 initiator sig)) <$> targets)
          else sret tt
    | st => if did_round_three_finalize st then send_ack from (AckRound3 initiator) else sret tt
    end.

Definition recv (p : DkgPayload) : DkgM () :=
  let* s := sget in
  if negb (bool_decide (recipient p = my_frost_id s)) then sret tt
  else
    match msg p with
    | Round1 i ctx n eph sig pkg =>
        on_dkg_msg_round1 i ctx n eph sig pkg (sender p) ;;* transition_stage2_checked
    | AckRound1 i => on_dkg_msg_ack_round1 i (sender p) ;;* transition_stage2_checked
    | Round2 i t n c => on_dkg_msg_round2 i t n c (sender p) ;;* transition_stage3_checked
    | AckRound2 i t => on_dkg_msg_ack_round2 i t ;;* transition_stage3_checked
    | Round3 i sig => on_dkg_msg_round3 i sig (sender p) ;;* transition_final_checked
    | AckRound3 i => on_dkg_msg_ack_round3 i (sender p) ;;* transition_final_checked
    end.

(** ** Outgoing messages and timers *)

Definition stamp1 (t : Z) (e : OutEntryRoundOne) : OutEntryRoundOne :=
  {| o1_package := o1_package e; o1_ephemeral_pub := o1_ephemeral_pub e;
     o1_signature := o1_signature e; o1_timer := Some t;
     o1_attempts := wrap64 (o1_attempts e + 1) |}.
Definition stamp2 (t : Z) (e : OutEntryRoundTwo) : OutEntryRoundTwo :=
  {| o2_ciphernonce := o2_ciphernonce e; o2_ciphertext := o2_ciphertext e; o2_timer := Some t;
     o2_attempts := wrap64 (o2_attempts e + 1) |}.
Definition stamp3 (t : Z) (e : OutEntryRoundThree) : OutEntryRoundThree :=
  {| o3_signature := o3_signature e; o3_timer := Some t;
     o3_attempts := wrap64 (o3_attempts e + 1) |}.

(** Before a payload leaves: [None] when its entry is gone and it is dropped,
    otherwise the state with the entry's timer started. *)
Definition mark_sent (now : Z) (p : DkgPayload) (s : DkgStateMachine) : option DkgStateMachine :=
  match msg p with
  | Round1 i _ _ _ _ _ =>
      match state s with
      | RoundOne r =>
          match r1_out r !! (i, recipient p) with
          | Some (Some e) =>
              let s' := match session_activated s with
                        | None => put_session (session_nonce s) (Some now) s
                        | Some _ => s
                        end in
              Some (put_state (RoundOne (r1_with_out
                (<[(i, recipient p) := Some (stamp1 (now + round1_package_timeout (config s)) e)]>
                   (r1_out r)) r)) s')
          | _ => None
          end
      | _ => None
      end
  | Round2 i t _ _ =>
      match state s with
      | RoundTwo r =>
          match r2_out r !! (i, t) with
          | Some (Some e) =>
              Some (put_state (RoundTwo (r2_with_out
                (<[(i, t) := Some (stamp2 (now + round2_package_timeout (config s)) e)]>
                   (r2_out r)) r)) s)
          | _ => None
          end
      | _ => None
      end
  | Round3 i _ =>
      match state s with
      | RoundThree r =>
          match r3_out r !! (i, recipient p) with
          | Some (Some e) =>
              Some (put_state (RoundThree (r3_with_out
                (<[(i, recipient p) := Some (stamp3 (now + round3_package_timeout (config s)) e)]>
                   (r3_out r)) r)) s)
          | _ => None
          end
      | _ => None
      end
  | _ => Some s
  end.

(** The loop of [send] over the queue. *)
Fixpoint send_loop (now : Z) (q : list DkgPayload) (s : DkgStateMachine)
    : option DkgPayload * DkgStateMachine :=
  match q with
  | [] => (None, put_queue [] s)
  | p :: q' =>
      match mark_sent now p s with
      | Some s' => (Some p, put_queue q' s')
      | None => send_loop now q' s
      end
  end.
Definition send (now : Z) (s : DkgStateMachine) : option DkgPayload * DkgStateMachine :=
  send_loop now (queue s) s.

Definition saturating_duration_since (t now : Z) : Z := Z.max 0 (t - now).
Definition min_list (l : list Z) : option Z :=
  foldr (λ x acc, match acc with Some y => Some (Z.min x y) | None => Some x end) None l.

(** Timers of the outgoing packages of the current round. *)
Definition timers (s : DkgStateMachine) : list Z :=
  match state s with
  | RoundOne r => omap (λ kv, e ← kv.2; o1_timer e) (map_to_list (r1_out r))
  | RoundTwo r => omap (λ kv, e ← kv.2; o2_timer e) (map_to_list (r2_out r))
  | RoundThree r => omap (λ kv, e ← kv.2; o3_timer e) (map_to_list (r3_out r))
  | _ => []
  end.
Definition session_deadline (s : DkgStateMachine) : option Z :=
  if is_coordinator s && negb (match state s with Finalized _ _ => true | _ => false end) then
    max ← pending_session_timeout (config s);
    t ← session_activated s;
    Some (t + max)
  else None.
Definition timeout (now : Z) (s : DkgStateMachine) : option Z :=
  let session_timeout := (λ t, saturating_duration_since t now) <$> session_deadline s in
  match min_list ((λ t, saturating_duration_since t now) <$> timers s), session_timeout with
  | Some t, Some x => Some (Z.min t x)
  | Some t, None => Some t
  | None, x => x
  end.

(** One millisecond of tolerance. *)
Definition TOLERANCE : Z := 1000000.
Definition expired (now : Z) (timer : option Z) : bool :=
  match timer with Some t => t <=? now + TOLERANCE | None => false end.

(** The payloads of the expired entries of the current round. *)
Definition resends (now : Z) (s : DkgStateMachine) : list DkgPayload :=
  match state s with
  | RoundOne r =>
      omap (λ kv : Identifier * Identifier * option OutEntryRoundOne,
        e ← kv.2; if expired now (o1_timer e)
                  then Some (payload s kv.1.2 (round1_msg kv.1.1 (r1_context r) (r1_nonce r) e))
                  else None) (btree_iter2 (r1_out r))
  | RoundTwo r =>
      omap (λ kv : Identifier * Identifier * option OutEntryRoundTwo,
        e ← kv.2; if expired now (o2_timer e)
                  then Some (payload s (if is_coordinator s then kv.1.2 else coordinator s)
                               (Round2 kv.1.1 kv.1.2 (o2_ciphernonce e) (o2_ciphertext e)))
                  else None) (btree_iter2 (r2_out r))
  | RoundThree r =>
      omap (λ kv : Identifier * Identifier * option OutEntryRoundThree,
        e ← kv.2; if expired now (o3_timer e)
                  then Some (payload s kv.1.2 (Round3 kv.1.1 (o3_signature e)))
                  else None) (btree_iter2 (r3_out r))
  | _ => []
  end.

Definition on_timeout (now : Z) : DkgM () :=
  let* s := sget in
  (match session_deadline s with
   | Some deadline =>
       if deadline <=? now then
         let* n := slift (expect (session_nonce s)) in
         sexpect (init_new_session (wrap64 (n + 1)))
       else sret tt
   | None => sret tt
   end) ;;*
  let* s' := sget in
  push (resends now s').

End data.
