(* ===== verification/DkgTheory.v ===== *)
(** * Theorems about distributed key generation

    A member that finishes holds keys everyone has signed for; sessions only move
    forward; the channels of two members match; part 3 failing leaves a session
    that cannot finish. *)

From S2P Require Import Prelude Bitcoin Psbt Database DkgEncryption Dkg.
Local Open Scope Z_scope.

(** ** The managers *)

Section managers.
Context `{DkgLib}.

Lemma commit_round1_cases p m r m' :
  commit_round1 p m = (r, m') →
  (∃ e, r = Err e ∧ m' = m) ∨
  ∃ ser, r1_serialize p = Some ser ∧
    let c := round1_commit (hs_transcript m) (hs_my_frost_id m) (hs_my_eph_pub m) ser in
    r = Ok (hs_my_eph_pub m, sign_ecdsa c (hs_my_static_sec m)) ∧
    m' = put_commit (hs_my_frost_id m) c m.
Proof.
  unfold commit_round1, sbind, sget, slift, smodify, sret.
  destruct (r1_serialize p) as [ser|]; simpl; intros [= <- <-]; [right; by exists ser|left; eauto].
Qed.

Lemma validate_round1_cases i eph sig p m r m' :
  validate_round1 i eph sig p m = (r, m') →
  (∃ e, r = Err e ∧ m' = m) ∨
  r = Ok tt ∧ ∃ pub ser, hs_fed_members m !! i = Some pub ∧ r1_serialize p = Some ser ∧
    let c := round1_commit (hs_transcript m) i eph ser in
    verify_ecdsa pub c sig = true ∧ m' = put_commit i c (put_eph i eph m).
Proof.
  unfold validate_round1, sbind, sget, slift, smodify, sret.
  destruct (hs_fed_members m !! i) as [pub|]; simpl; [|intros [= <- <-]; left; eauto].
  destruct (r1_serialize p) as [ser|]; simpl; [|intros [= <- <-]; left; eauto].
  destruct (verify_ecdsa pub _ sig) eqn:Hv; intros [= <- <-]; [|left; eauto].
  right. split; [done|]. by exists pub, ser.
Qed.

(** The channels prepared: one for each other member. *)
Lemma symmetric_keys_ok m t l :
  (∀ i p, (i, p) ∈ l → i ≠ hs_my_frost_id m → is_Some (hs_eph_keys m !! i)) →
  ∃ keys, symmetric_keys m t l = Ok keys ∧
    dom keys = list_to_set l.*1 ∖ {[hs_my_frost_id m]}.
Proof.
  induction l as [|[i p] l IH]; intros Hall; simpl.
  - exists ∅. split; [done|]. set_solver.
  - destruct IH as (keys & Heq & Hd); [intros; eapply Hall; [right|]; done|].
    case_bool_decide as Hi.
    + exists keys. split; [done|]. rewrite Hd. set_solver.
    + destruct (Hall i p ltac:(left) Hi) as [e He]. rewrite He. simpl. rewrite Heq. simpl.
      eexists. split; [done|]. rewrite dom_insert_L, Hd. set_solver.
Qed.

Lemma btree_iter_perm {V} (m : gmap Identifier V) : btree_iter m ≡ₚ map_to_list m.
Proof. apply sort_by_perm. Qed.
Lemma elem_of_btree_iter {V} (m : gmap Identifier V) i v :
  (i, v) ∈ btree_iter m ↔ m !! i = Some v.
Proof. rewrite btree_iter_perm. apply elem_of_map_to_list. Qed.
Lemma btree_keys_dom {V} (m : gmap Identifier V) : list_to_set (btree_iter m).*1 = dom m.
Proof.
  apply set_eq. intros i. rewrite elem_of_list_to_set, list_elem_of_fmap, elem_of_dom. split.
  - intros ([j v] & -> & Hin). exists v. by apply elem_of_btree_iter.
  - intros [v Hv]. exists (i, v). split; [done|]. by apply elem_of_btree_iter.
Qed.

Lemma handshake_finalize_ok m :
  size (hs_round1_commits m) = size (hs_fed_members m) →
  dom (hs_eph_keys m) = dom (hs_fed_members m) →
  ∃ c m', handshake_finalize m = (Ok c, m') ∧
    hs_fed_members m' = ∅ ∧ hs_round1_commits m' = ∅ ∧
    hs_my_frost_id m' = hs_my_frost_id m ∧
    sc_transcript c = append_commits (hs_round1_commits m) (hs_transcript m) ∧
    sc_my_frost_id c = hs_my_frost_id m ∧ sc_fed_members c = hs_fed_members m ∧
    dom (sc_symmetric_keys c) = dom (hs_fed_members m) ∖ {[hs_my_frost_id m]} ∧
    sc_round2_checks c = ∅.
Proof.
  intros Hs He. unfold handshake_finalize, sbind, sget, slift, smodify, sret.
  rewrite Hs, Nat.eqb_refl. simpl.
  destruct (symmetric_keys_ok m (append_commits (hs_round1_commits m) (hs_transcript m))
              (btree_iter (hs_fed_members m))) as (keys & Heq & Hd).
  { intros i p Hin _. apply elem_of_dom. rewrite He. apply elem_of_dom.
    exists p. by apply elem_of_btree_iter. }
  rewrite Heq. simpl. rewrite btree_keys_dom in Hd. by eexists _, _.
Qed.

Lemma commit_round2_cases t p m r m' :
  commit_round2 t p m = (r, m') →
  sc_transcript m' = sc_transcript m ∧ sc_my_frost_id m' = sc_my_frost_id m ∧
  sc_fed_members m' = sc_fed_members m ∧ dom (sc_symmetric_keys m') = dom (sc_symmetric_keys m) ∧
  ((∃ e, r = Err e) ∨
   (∃ x, r = Ok x) ∧ sc_round2_checks m' = {[sc_my_frost_id m]} ∪ sc_round2_checks m).
Proof.
  unfold commit_round2, sbind, sget, slift, smodify, sret.
  destruct (sc_symmetric_keys m !! t) as [e|] eqn:He; simpl; [|intros [= <- <-]; eauto 10].
  assert (dom (<[t := {| sending := sending e; receiving := receiving e;
    nonce := wrap64 (nonce e + 1) |}]> (sc_symmetric_keys m)) = dom (sc_symmetric_keys m)) as Hd.
  { rewrite dom_insert_L. apply elem_of_dom_2 in He. set_solver. }
  destruct (r2_serialize p) as [ser|]; simpl; [|intros [= <- <-]; simpl; eauto 10].
  destruct (aead_encrypt _ _ _); simpl; intros [= <- <-]; simpl; eauto 10.
Qed.

Lemma validate_round2_cases i n c m r m' :
  validate_round2 i n c m = (r, m') →
  (∃ e, r = Err e ∧ m' = m) ∨
  (∃ p, r = Ok p) ∧ is_Some (sc_symmetric_keys m !! i) ∧ m' = mark_check i m.
Proof.
  unfold validate_round2, sbind, sget, slift, smodify, sret.
  destruct (sc_symmetric_keys m !! i) as [e|] eqn:He; simpl; [|intros [= <- <-]; left; eauto].
  destruct (aead_decrypt _ _ _) as [b|]; simpl; [|intros [= <- <-]; left; eauto].
  destruct (r2_deserialize b) as [p|]; simpl; intros [= <- <-]; [right; eauto|left; eauto].
Qed.

Lemma channel_finalize_cases m r m' :
  channel_finalize m = (r, m') →
  (r = Err InsufficientSamples ∧ m' = m ∧ size (sc_round2_checks m) ≠ size (sc_fed_members m)) ∨
  r = Ok {| kv_transcript := append_message "round2_commit" [] (sc_transcript m);
            kv_my_frost_id := sc_my_frost_id m; kv_my_static_sec := sc_my_static_sec m;
            kv_fed_members := sc_fed_members m; kv_challenge := None; kv_round3_commits := ∅ |} ∧
  size (sc_round2_checks m) = size (sc_fed_members m) ∧
  sc_fed_members m' = ∅ ∧ sc_my_frost_id m' = sc_my_frost_id m ∧
  sc_symmetric_keys m' = sc_symmetric_keys m ∧ sc_round2_checks m' = sc_round2_checks m.
Proof.
  unfold channel_finalize, sbind, sget, slift, smodify, sret.
  destruct (Nat.eqb_spec (size (sc_round2_checks m)) (size (sc_fed_members m))) as [Hs|];
    simpl; intros [= <- <-]; [right; by split_and!|by left].
Qed.

Lemma validate_round3_cases i sig m r m' :
  validate_round3 i sig m = (r, m') →
  (∃ e, r = Err e ∧ m' = m) ∨
  r = Ok tt ∧ ∃ c pub, kv_challenge m = Some c ∧ kv_fed_members m !! i = Some pub ∧
    verify_ecdsa pub c sig = true ∧ m' = put_signature i sig m.
Proof.
  unfold validate_round3, sbind, sget, slift, smodify, sret.
  destruct (kv_challenge m) as [c|]; simpl; [|intros [= <- <-]; left; eauto].
  destruct (kv_fed_members m !! i) as [pub|]; simpl; [|intros [= <- <-]; left; eauto].
  destruct (verify_ecdsa pub c sig) eqn:Hv; intros [= <- <-]; [|left; eauto].
  right. split; [done|]. by exists c, pub.
Qed.

End managers.

(** ** Secure channels *)

Section channels.
Context `{DkgLib, !DkgLibLaws}.

Lemma symmetric_keys_lookup m t l keys i pub :
  NoDup l.*1 → symmetric_keys m t l = Ok keys → (i, pub) ∈ l → i ≠ hs_my_frost_id m →
  ∃ eph, hs_eph_keys m !! i = Some eph ∧
    keys !! i = Some (channel_entry t (hs_my_frost_id m) (hs_my_static_sec m) (hs_my_eph_sec m)
                        i pub eph).
Proof.
  revert keys. induction l as [|[j q] l IH]; intros keys Hnd Heq Hin Hi; [by apply elem_of_nil in Hin|].
  simpl in Heq, Hnd. apply NoDup_cons in Hnd as [Hj Hnd].
  case_bool_decide as Hme.
  - apply elem_of_cons in Hin as [[= -> ->]|Hin]; [done|]. by apply IH.
  - rinv Heq. injection Heq as <-. apply expect_ok in E.
    apply elem_of_cons in Hin as [[= -> ->]|Hin].
    + exists a. by rewrite lookup_insert_eq.
    + destruct (IH a0 Hnd eq_refl Hin Hi) as (eph & He & Hk).
      exists eph. rewrite lookup_insert_ne; [done|]. intros ->. apply Hj.
      apply list_elem_of_fmap. by exists (i, pub).
Qed.

(** The two ends of a channel have each other's keys. *)
Lemma channel_entry_matches t (a b : Identifier) sa ea sb eb :
  a ≠ b →
  let x := channel_entry t a sa ea b (public_key sb) (public_key eb) in
  let y := channel_entry t b sb eb a (public_key sa) (public_key ea) in
  sending x = receiving y ∧ receiving x = sending y.
Proof.
  intros Hab. cbv zeta. unfold channel_entry. rewrite (id_lt_total a b Hab).
  destruct (id_lt b a); simpl.
  - rewrite (ecdh_comm sb ea), (ecdh_comm eb sa).
    by destruct (channel_keys t _ _) as [k1 k2].
  - rewrite (ecdh_comm eb sa), (ecdh_comm sb ea).
    by destruct (channel_keys t _ _) as [k1 k2].
Qed.

Lemma handshake_finalize_key m c m' i pub :
  handshake_finalize m = (Ok c, m') → hs_fed_members m !! i = Some pub → i ≠ hs_my_frost_id m →
  ∃ eph, hs_eph_keys m !! i = Some eph ∧
    sc_symmetric_keys c !! i = Some (channel_entry
      (append_commits (hs_round1_commits m) (hs_transcript m)) (hs_my_frost_id m)
      (hs_my_static_sec m) (hs_my_eph_sec m) i pub eph).
Proof.
  unfold handshake_finalize, sbind, sget, slift, smodify, sret. intros Heq Hi Hne.
  destruct (negb _); [done|].
  destruct (symmetric_keys m _ _) as [keys| |] eqn:Hk; [|done..]. injection Heq as <- <-.
  simpl. eapply symmetric_keys_lookup; [|done| |done].
  - rewrite btree_iter_perm. apply NoDup_fst_map_to_list.
  - by apply elem_of_btree_iter.
Qed.

(** The secure channels work: when two members finish round 1 with the same
    transcript, each knowing the other's static and ephemeral keys, a round-2
    package one encrypts for the other is decrypted by the other to the same
    package, and the sender's nonce counter for that member has moved past the
    nonce used. *)
Theorem secure_channel_roundtrip ma mb ca cb ma' mb' pkg cipher n ca' :
  let a := hs_my_frost_id ma in
  let b := hs_my_frost_id mb in
  a ≠ b →
  append_commits (hs_round1_commits ma) (hs_transcript ma) =
    append_commits (hs_round1_commits mb) (hs_transcript mb) →
  hs_fed_members ma !! b = Some (public_key (hs_my_static_sec mb)) →
  hs_fed_members mb !! a = Some (public_key (hs_my_static_sec ma)) →
  hs_eph_keys ma !! b = Some (public_key (hs_my_eph_sec mb)) →
  hs_eph_keys mb !! a = Some (public_key (hs_my_eph_sec ma)) →
  handshake_finalize ma = (Ok ca, ma') → handshake_finalize mb = (Ok cb, mb') →
  commit_round2 b pkg ca = (Ok (cipher, n), ca') →
  validate_round2 a n cipher cb = (Ok pkg, mark_check a cb) ∧
  n = 0 ∧ ∃ e, sc_symmetric_keys ca' !! b = Some e ∧ nonce e = 1.
Proof.
  cbv zeta. intros Hab Ht Hfa Hfb Hea Heb Hca Hcb Hcommit.
  destruct (handshake_finalize_key _ _ _ _ _ Hca Hfa ltac:(done)) as (epb & Hepb & Hka).
  destruct (handshake_finalize_key _ _ _ _ _ Hcb Hfb ltac:(done)) as (epa & Hepa & Hkb).
  rewrite Hea in Hepb. injection Hepb as <-. rewrite Heb in Hepa. injection Hepa as <-.
  rewrite <-Ht in Hkb.
  destruct (channel_entry_matches (append_commits (hs_round1_commits ma) (hs_transcript ma))
    (hs_my_frost_id ma) (hs_my_frost_id mb) (hs_my_static_sec ma) (hs_my_eph_sec ma)
    (hs_my_static_sec mb) (hs_my_eph_sec mb) Hab) as [Hsr _].
  set (x := channel_entry _ (hs_my_frost_id ma) _ _ _ _ _) in *.
  set (y := channel_entry _ (hs_my_frost_id mb) _ _ _ _ _) in *.
  assert (nonce x = 0) as Hn.
  { subst x. unfold channel_entry. by destruct (id_lt _ _); destruct (channel_keys _ _ _). }
  unfold commit_round2, sbind, sget, slift, smodify, sret in Hcommit. rewrite Hka in Hcommit.
  simpl in Hcommit. destruct (r2_serialize pkg) as [ser|] eqn:Hser; [|done]. simpl in Hcommit.
  destruct (aead_encrypt _ _ _) as [c|] eqn:Hc; [|done]. simpl in Hcommit.
  injection Hcommit as <- <- <-. split_and!; [|done|].
  - unfold validate_round2, sbind, sget, slift, smodify, sret. rewrite Hkb. simpl.
    rewrite <-Hsr, (aead_roundtrip _ _ _ _ Hc). simpl. by rewrite (r2_roundtrip _ _ Hser).
  - eexists. simpl. rewrite lookup_insert_eq. split; [done|]. simpl. by rewrite Hn.
Qed.

End channels.

(** ** The invariant *)

Section invariant.
Context `{DkgLib, !DkgLibLaws}.

(** A round-1 package the initiator's static key vouches for, in the session of
    transcript [t]; [c] is what it signed. *)
Definition vouched (mem : gmap Identifier PublicKey) (t : Transcript) (i : Identifier)
    (p : Round1Package) (c : bytes) : Prop :=
  ∃ pub eph ser sig, mem !! i = Some pub ∧ r1_serialize p = Some ser ∧
    c = round1_commit t i eph ser ∧ verify_ecdsa pub c sig = true.
(** All packages of a round-1 table are vouched for by the commitments. *)
Definition all_vouched (mem : gmap Identifier PublicKey) (t : Transcript)
    (in1 : gmap Identifier Round1Package) (commits : gmap Identifier bytes) : Prop :=
  ∀ i p, in1 !! i = Some p → ∃ c, commits !! i = Some c ∧ vouched mem t i p c.

(** What the members sign in round 3: the session, all round-1 commitments and
    the resulting public key package. *)
Definition key_challenge (t : Transcript) (commits : gmap Identifier bytes) (ser : bytes) : bytes :=
  (challenge_bytes "round3_commit" (append_message "round3_package" ser
     (append_message "round2_commit" [] (append_commits commits t)))).1.

(** Everyone else than [me]. *)
Definition rest (mem : gmap Identifier PublicKey) (me : Identifier) : gset Identifier :=
  dom mem ∖ {[me]}.

(** Keys made from authenticated packages and signed for by every other member. *)
Definition authenticated_keys (mem : gmap Identifier PublicKey) (me : Identifier)
    (k : KeyPackage) (pk : PublicKeyPackage) : Prop :=
  ∃ n in1 in2 secret commits ser (sigs : gmap Identifier EcdsaSignature),
    let t := session_transcript SESSION_CONTEXT n in
    part3 secret in1 in2 = Some (k, pk) ∧
    dom in1 = rest mem me ∧ dom in2 = rest mem me ∧ dom commits = dom mem ∧
    all_vouched mem t in1 commits ∧
    pkp_serialize pk = Some ser ∧ dom sigs = rest mem me ∧
    ∀ i sig, sigs !! i = Some sig → ∃ pub, mem !! i = Some pub ∧
      verify_ecdsa pub (key_challenge t commits ser) sig = true.

Record r1_ok (mem : gmap Identifier PublicKey) (me : Identifier) (r : R1) : Prop := {
  k1_me : hs_my_frost_id (r1_auth r) = me;
  k1_transcript : hs_transcript (r1_auth r) = session_transcript SESSION_CONTEXT (r1_nonce r);
  k1_members : hs_fed_members (r1_auth r) = mem;
  k1_in : dom (r1_in r) ⊆ rest mem me;
  k1_commits : dom (hs_round1_commits (r1_auth r)) = {[me]} ∪ dom (r1_in r);
  k1_eph : dom (hs_eph_keys (r1_auth r)) = {[me]} ∪ dom (r1_in r);
  k1_vouched : all_vouched mem (hs_transcript (r1_auth r)) (r1_in r)
                 (hs_round1_commits (r1_auth r));
}.
(** After a library failure on the way to round 2: no further package is
    accepted. *)
Record r1_drained (me : Identifier) (r : R1) : Prop := {
  d1_me : hs_my_frost_id (r1_auth r) = me;
  d1_members : hs_fed_members (r1_auth r) = ∅;
  d1_in : r1_in r = ∅;
}.

(** [commits] of the handshake live on in the transcript only. *)
Record r2_ok (mem : gmap Identifier PublicKey) (me : Identifier) (r : R2) : Prop := {
  k2_me : sc_my_frost_id (r2_auth r) = me;
  k2_keys : dom (sc_symmetric_keys (r2_auth r)) = rest mem me;
  k2_in2 : dom (r2_in2 r) ⊆ rest mem me;
  k2_checks : {[me]} ∪ dom (r2_in2 r) ⊆ sc_round2_checks (r2_auth r) ∧
              sc_round2_checks (r2_auth r) ⊆ dom mem;
  k2_view : r2_in1 r = ∅ ∨
    (sc_fed_members (r2_auth r) = mem ∧ dom (r2_in1 r) = rest mem me ∧
     ∃ n commits, let t := session_transcript SESSION_CONTEXT n in
       sc_transcript (r2_auth r) = append_commits commits t ∧ dom commits = dom mem ∧
       all_vouched mem t (r2_in1 r) commits);
}.

Record r3_ok (mem : gmap Identifier PublicKey) (me : Identifier) (r : R3) : Prop := {
  k3_me : kv_my_frost_id (r3_auth r) = me;
  k3_members : kv_fed_members (r3_auth r) = mem;
  k3_in : dom (r3_in3 r) ⊆ rest mem me;
  k3_view : ∃ n secret commits ser, let t := session_transcript SESSION_CONTEXT n in
    part3 secret (r3_in1 r) (r3_in2 r) = Some (r3_secret r, r3_public r) ∧
    dom (r3_in1 r) = rest mem me ∧ dom (r3_in2 r) = rest mem me ∧ dom commits = dom mem ∧
    all_vouched mem t (r3_in1 r) commits ∧ pkp_serialize (r3_public r) = Some ser ∧
    kv_challenge (r3_auth r) = Some (key_challenge t commits ser) ∧
    ∀ i sig, r3_in3 r !! i = Some sig → ∃ pub, mem !! i = Some pub ∧
      verify_ecdsa pub (key_challenge t commits ser) sig = true;
}.

Definition state_ok (mem : gmap Identifier PublicKey) (me : Identifier) (st : StageState) : Prop :=
  match st with
  | AwatingInit | Aborted => True
  | RoundOne r => r1_ok mem me r ∨ r1_drained me r
  | RoundTwo r => r2_ok mem me r
  | RoundThree r => r3_ok mem me r
  | Finalized k pk => authenticated_keys mem me k pk
  end.
Record machine_ok (s : DkgStateMachine) : Prop := {
  mo_me : my_frost_id s ∈ dom (members s);
  mo_size : (2 ≤ size (members s))%nat;
  mo_state : state_ok (members s) (my_frost_id s) (state s);
}.

(** A step that only changes the queue, the session parameters or the draws, or
    moves to a good state. *)
Definition keeps (s s' : DkgStateMachine) : Prop :=
  members s' = members s ∧ my_frost_id s' = my_frost_id s ∧ coordinator s' = coordinator s ∧
  config s' = config s ∧ my_static_sec s' = my_static_sec s.
Definition good_step (s s' : DkgStateMachine) : Prop :=
  keeps s s' ∧ (machine_ok s → machine_ok s').
#[local] Instance keeps_preorder : PreOrder keeps.
Proof. split; unfold keeps; [done|]. intros a b c (?&?&?&?&?) (?&?&?&?&?). split_and!; congruence. Qed.
#[export] Instance good_step_preorder : PreOrder good_step.
Proof.
  split; unfold good_step; [intros s; split; [reflexivity|done]|].
  intros a b c [??] [??]. split; [by etrans|auto].
Qed.

Lemma same_state_good s s' : keeps s s' → state s' = state s → good_step s s'.
Proof.
  intros Hk Hst. split; [done|]. intros [Hme Hsz Hok]. destruct Hk as (Hm & Hi & _).
  split; rewrite ?Hm, ?Hi, ?Hst; done.
Qed.
Lemma put_state_good s st :
  (machine_ok s → state_ok (members s) (my_frost_id s) st) → good_step s (put_state st s).
Proof. intros Hst. split; [done|]. intros Hok. destruct (Hok). split; [done..|]. by apply Hst. Qed.

Lemma push_good l : guarantees good_step (push l).
Proof. intros s. by apply same_state_good. Qed.
Lemma send_ack_good to m : guarantees good_step (send_ack to m).
Proof. intros s. by apply same_state_good. Qed.
Lemma draw_good : guarantees good_step draw.
Proof. intros s. by apply same_state_good. Qed.

(** The other members are as many as there are packages to wait for. *)
Lemma size_rest mem (me : Identifier) :
  me ∈ dom mem → size (rest mem me) = (size mem - 1)%nat.
Proof.
  intros Hme. unfold rest. rewrite size_difference by set_solver.
  by rewrite size_singleton, size_dom.
Qed.
Lemma full_table {V} mem (me : Identifier) (m : gmap Identifier V) :
  me ∈ dom mem → dom m ⊆ rest mem me → size m = (size mem - 1)%nat → dom m = rest mem me.
Proof.
  intros Hme Hsub Hs. apply leibniz_equiv, set_subseteq_size_equiv; [done|].
  rewrite size_rest, size_dom by done. lia.
Qed.

(** ** Every operation keeps the invariant *)

Lemma ack_round1_good i from : guarantees good_step (on_dkg_msg_ack_round1 i from).
Proof.
  intros s. unfold on_dkg_msg_ack_round1, sbind, sget.
  destruct (negb _); [reflexivity|]. destruct (state s) as [|r| | | |] eqn:Hst; try reflexivity.
  apply put_state_good. intros [_ _ Hok]. rewrite Hst in Hok. simpl in *.
  destruct Hok as [[]|[]]; [left|right]; by constructor.
Qed.
Lemma ack_round2_good i t : guarantees good_step (on_dkg_msg_ack_round2 i t).
Proof.
  intros s. unfold on_dkg_msg_ack_round2, sbind, sget.
  destruct (negb _); [reflexivity|]. destruct (state s) as [| |r| | |] eqn:Hst; try reflexivity.
  apply put_state_good. intros [_ _ Hok]. rewrite Hst in Hok. destruct Hok. by constructor.
Qed.
Lemma ack_round3_good i from : guarantees good_step (on_dkg_msg_ack_round3 i from).
Proof.
  intros s. unfold on_dkg_msg_ack_round3, sbind, sget.
  destruct (negb _); [reflexivity|]. destruct (state s) as [| | |r| |] eqn:Hst; try reflexivity.
  apply put_state_good. intros [_ _ Hok]. rewrite Hst in Hok. destruct Hok. by constructor.
Qed.

Lemma handshake_new_ok ctx n me sec mem r auth :
  handshake_new ctx n me sec mem r = Ok auth →
  hs_transcript auth = session_transcript ctx n ∧ hs_my_frost_id auth = me ∧
  hs_fed_members auth = mem ∧ dom (hs_eph_keys auth) = {[me]} ∧ hs_round1_commits auth = ∅ ∧
  me ∈ dom mem.
Proof.
  unfold handshake_new. case_bool_decide as Hin; [|done]. intros [= <-]. simpl.
  split_and!; try done; [|by apply elem_of_dom]. by rewrite dom_singleton_L.
Qed.

(** A new session with no package yet. *)
Lemma fresh_r1_ok n me sec mem r auth pkg x auth' secret out :
  handshake_new SESSION_CONTEXT n me sec mem r = Ok auth →
  commit_round1 pkg auth = (Ok x, auth') →
  r1_ok mem me {| r1_context := SESSION_CONTEXT; r1_nonce := n; r1_auth := auth';
                  r1_secret := secret; r1_in := ∅; r1_out := out |}.
Proof.
  intros (Ht & Hi & Hm & He & Hc & Hin)%handshake_new_ok Hcm.
  apply commit_round1_cases in Hcm as [(e & ? & _)|(ser & _ & _ & ->)]; [done|].
  split; simpl; try done.
  - by rewrite dom_insert_L, Hc, !dom_empty_L, Hi.
  - by rewrite He, dom_empty_L, union_empty_r_L.
Qed.

Lemma new_round1_cases auth pkg s :
  (∃ x auth', commit_round1 pkg auth = (Ok x, auth') ∧
     new_round1 auth pkg s = (Ok (auth', {| o1_package := pkg; o1_ephemeral_pub := x.1;
       o1_signature := x.2; o1_timer := None; o1_attempts := 0 |}), s)) ∨
  ∃ e, new_round1 auth pkg s = (Err e, s).
Proof.
  unfold new_round1, sret, slift. destruct (commit_round1 pkg auth) as [res auth'] eqn:Hc.
  pose proof (commit_round1_cases _ _ _ _ Hc) as [(e & -> & _)|(ser & _ & -> & _)];
    [right; by eexists|left; by eexists _, auth'].
Qed.

Lemma init_new_session_good n : guarantees good_step (init_new_session n).
Proof.
  intros s. unfold init_new_session, sbind, smodify, sget, draw, slift, sret. simpl.
  destruct (part1 _ _ _ _) as [[secret pkg]|]; simpl; [|by apply same_state_good].
  destruct (handshake_new _ _ _ _ _ _) as [auth|e|] eqn:Hnew; simpl; try by apply same_state_good.
  match goal with |- context [new_round1 auth pkg ?s0] =>
    destruct (new_round1_cases auth pkg s0) as [(x & auth' & Hc & Heq)|(e & Heq)] end;
    rewrite Heq; simpl; [|by apply same_state_good].
  split; [done|]. intros [Hme Hsz Hok]. split; [done..|]. simpl. left. by eapply fresh_r1_ok.
Qed.

Lemma r1_accept_ok mem me r i eph sig pkg auth' out :
  r1_ok mem me r → i ≠ me → validate_round1 i eph sig pkg (r1_auth r) = (Ok tt, auth') →
  r1_ok mem me (r1_with_out out (r1_with_in (<[i := pkg]> (r1_in r)) (r1_with_auth auth' r))).
Proof.
  intros [Hme Ht Hm Hin Hc He Hv] Hi Hval.
  apply validate_round1_cases in Hval as [(e & ? & _)|(_ & pub & ser & Hpub & Hser & Hver & ->)];
    [done|].
  split; simpl; try done.
  - rewrite dom_insert_L. apply union_subseteq. split; [|done].
    apply singleton_subseteq_l. unfold rest. apply elem_of_difference.
    rewrite <-Hm. split; [by apply elem_of_dom_2 in Hpub|]. by rewrite elem_of_singleton.
  - rewrite !dom_insert_L, Hc. set_solver.
  - rewrite !dom_insert_L, He. set_solver.
  - intros j p Hj. destruct (decide (j = i)) as [->|Hne].
    + rewrite lookup_insert_eq in Hj. injection Hj as <-. eexists. rewrite lookup_insert_eq.
      split; [done|]. exists pub, eph, ser, sig. by rewrite <-Hm.
    + rewrite lookup_insert_ne in Hj by done. rewrite lookup_insert_ne by done. by apply Hv.
Qed.
Lemma r1_accept_drained me r i eph sig pkg res auth' :
  r1_drained me r → validate_round1 i eph sig pkg (r1_auth r) = (res, auth') →
  (∃ e, res = Err e) ∧ auth' = r1_auth r.
Proof.
  intros [_ Hm _] Hval.
  apply validate_round1_cases in Hval as [(e & -> & ->)|(_ & pub & ser & Hpub & _)]; [eauto|].
  by rewrite Hm, lookup_empty in Hpub.
Qed.

Lemma r1_with_same_auth (r : R1) : r1_with_auth (r1_auth r) r = r.
Proof. by destruct r. Qed.
Lemma r1_with_same_out (r : R1) : r1_with_out (r1_out r) r = r.
Proof. by destruct r. Qed.

Lemma accept_round1_good i eph sig pkg from s :
  i ≠ my_frost_id s → good_step s (accept_round1 i eph sig pkg from s).2.
Proof.
  intros Hi. unfold accept_round1, sbind at 1, sget.
  destruct (state s) as [|r|r|r| |k pk] eqn:Hst; simpl; try apply send_ack_good; try reflexivity.
  case_bool_decide; [apply send_ack_good|].
  destruct (validate_round1 i eph sig pkg (r1_auth r)) as [res auth'] eqn:Hval.
  pose proof (validate_round1_cases _ _ _ _ _ _ _ Hval) as [(e & -> & ->)|(-> & Hpub)].
  { unfold sbind, set_r1, smodify, slift. simpl. rewrite r1_with_same_auth.
    apply same_state_good; [done|]. by rewrite Hst. }
  assert (∀ out, machine_ok s → state_ok (members s) (my_frost_id s)
    (RoundOne (r1_with_out out (r1_with_in (<[i := pkg]> (r1_in r)) (r1_with_auth auth' r))))) as Hout.
  { intros out [_ _ Hok]. rewrite Hst in Hok. destruct Hok as [Hok|Hd].
    - left. by eapply r1_accept_ok.
    - destruct (r1_accept_drained _ _ _ _ _ _ _ _ Hd Hval) as [[e ?] _]. done. }
  unfold sbind, set_r1, smodify, slift, send_ack, push, sget. simpl.
  destruct (is_coordinator s); simpl; (split; [done|]); intros Hok;
    (split; [apply Hok..|]); simpl.
  - by apply Hout.
  - specialize (Hout (r1_out r) Hok). done.
Qed.

Lemma refuses_session_false s i ctx n :
  refuses_session s i ctx n = false →
  i ≠ my_frost_id s ∧ ctx = SESSION_CONTEXT ∧ i = coordinator s ∧
  (∀ last, session_nonce s = Some last → last < n) ∧
  (∀ k pk, state s ≠ Finalized k pk).
Proof.
  unfold refuses_session, is_coordinator. rewrite !orb_false_iff, !negb_false_iff.
  intros ((((Hc & Hi) & Hctx) & Hn) & Hst).
  apply bool_decide_eq_false in Hc. apply bool_decide_eq_true in Hi, Hctx. subst i.
  split_and!; [congruence|done|done| |].
  - intros last Hl. rewrite Hl in Hn. by apply Z.leb_gt in Hn.
  - intros k pk Hk. by rewrite Hk in Hst.
Qed.

(** A session joined with the coordinator's package. *)
Lemma joined_r1_ok n me sec mem r auth i eph sig pkg auth' own x auth'' secret out :
  i ≠ me → handshake_new SESSION_CONTEXT n me sec mem r = Ok auth →
  validate_round1 i eph sig pkg auth = (Ok tt, auth') →
  commit_round1 own auth' = (Ok x, auth'') →
  r1_ok mem me {| r1_context := SESSION_CONTEXT; r1_nonce := n; r1_auth := auth'';
                  r1_secret := secret; r1_in := {[i := pkg]}; r1_out := out |}.
Proof.
  intros Hi (Ht & Hme & Hm & He & Hc & Hin)%handshake_new_ok Hval Hcm.
  apply validate_round1_cases in Hval as [(e & ? & _)|(_ & pub & ser & Hpub & Hser & Hver & ->)];
    [done|].
  apply commit_round1_cases in Hcm as [(e & ? & _)|(ser' & _ & _ & ->)]; [done|].
  simpl in *. rewrite Hm in Hpub. split; simpl; try done.
  - rewrite dom_singleton_L. apply singleton_subseteq_l. unfold rest.
    apply elem_of_difference. split; [by apply elem_of_dom_2 in Hpub|]. by rewrite elem_of_singleton.
  - rewrite !dom_insert_L, Hc, dom_empty_L, dom_singleton_L, Hme. set_solver.
  - rewrite dom_insert_L, He, dom_singleton_L. set_solver.
  - intros j p Hj. apply lookup_singleton_Some in Hj as [<- <-]. eexists.
    rewrite lookup_insert_ne by congruence. rewrite lookup_insert_eq. split; [done|].
    by exists pub, eph, ser, sig.
Qed.

Lemma validate_new_session_init_false i ctx n eph sig pkg s s1 :
  validate_new_session_init i ctx n eph sig pkg s = (Ok false, s1) → s1 = s.
Proof.
  unfold validate_new_session_init, sbind at 1, sget.
  destruct (refuses_session s i ctx n); [by intros [= <-]|].
  unfold sbind, draw, sget, smodify, slift, sret, send_ack, push, set_r1. simpl.
  intros Heq. exfalso. destruct (handshake_new _ _ _ _ _ _); [|done..]. simpl in Heq.
  destruct (validate_round1 _ _ _ _ _) as [[] ?]; [|done..]. simpl in Heq.
  destruct (part1 _ _ _ _) as [[]|]; [|done]. simpl in Heq.
  destruct (new_round1 _ _ _) as [[[]| |] ?]; done.
Qed.

Lemma validate_new_session_init_good i ctx n eph sig pkg :
  guarantees good_step (validate_new_session_init i ctx n eph sig pkg).
Proof.
  intros s. unfold validate_new_session_init, sbind at 1, sget.
  destruct (refuses_session s i ctx n) eqn:Href; [reflexivity|].
  unfold sbind, draw, sget, smodify, slift, sret, send_ack, push, set_r1. simpl.
  destruct (handshake_new _ _ _ _ _ _) as [auth|e|] eqn:Hnew; simpl; try by apply same_state_good.
  destruct (validate_round1 i eph sig pkg auth) as [res auth'] eqn:Hval. simpl.
  pose proof (validate_round1_cases _ _ _ _ _ _ _ Hval) as [(e & -> & ->)|(-> & Hpub)];
    simpl; [by apply same_state_good|].
  destruct (part1 _ _ _ _) as [[secret own]|]; simpl; [|by apply same_state_good].
  match goal with |- context [new_round1 auth' own ?s0] =>
    destruct (new_round1_cases auth' own s0) as [(x & auth'' & Hc & Heq)|(e & Heq)] end;
    rewrite Heq; simpl; [|by apply same_state_good].
  split; [done|]. intros [Hme Hsz Hok]. split; [done..|]. simpl. left.
  apply refuses_session_false in Href as (Hi & -> & _). by eapply joined_r1_ok.
Qed.

Lemma on_dkg_msg_round1_good i ctx n eph sig pkg from :
  guarantees good_step (on_dkg_msg_round1 i ctx n eph sig pkg from).
Proof.
  intros s. unfold on_dkg_msg_round1, sbind at 1, sget.
  destruct (negb (is_member s i) || bool_decide (i = my_frost_id s) || _) eqn:Hg; [reflexivity|].
  assert (i ≠ my_frost_id s) as Hi.
  { intros ->. rewrite bool_decide_eq_true_2, orb_true_r in Hg by done. done. }
  destruct (match session_nonce s with Some last => _ | None => Some true end) as [[]|];
    [|by apply accept_round1_good|reflexivity].
  unfold sbind. pose proof (validate_new_session_init_good i ctx n eph sig pkg s) as Hv.
  pose proof (validate_new_session_init_false i ctx n eph sig pkg s) as Hf.
  destruct (validate_new_session_init i ctx n eph sig pkg s) as [[[]| |] s1]; simpl in *; try done.
  rewrite (Hf s1 eq_refl) in *. by apply accept_round1_good.
Qed.

Lemma commit_shares_spec l auth out s res s' :
  commit_shares auth out l s = (res, s') →
  keeps s s' ∧ state s' = state s ∧ session_nonce s' = session_nonce s ∧
  ((∃ e, res = Err e) ∨
   ∃ auth' out', res = Ok (auth', out') ∧
     sc_transcript auth' = sc_transcript auth ∧ sc_my_frost_id auth' = sc_my_frost_id auth ∧
     sc_fed_members auth' = sc_fed_members auth ∧
     dom (sc_symmetric_keys auth') = dom (sc_symmetric_keys auth) ∧
     sc_round2_checks auth' =
       (if decide (l = []) then ∅ else {[sc_my_frost_id auth]}) ∪ sc_round2_checks auth).
Proof.
  revert auth out s. induction l as [|[t p] l IH]; intros auth out s Heq; simpl in Heq.
  - unfold sret in Heq. injection Heq as <- <-. split_and!; [done..|]. right.
    exists auth, out. split_and!; try done. by rewrite decide_True, union_empty_l_L.
  - unfold sbind at 1, sget in Heq. destruct (commit_round2 t p auth) as [r1 auth1] eqn:Hc.
    apply commit_round2_cases in Hc as (Ht & Hi & Hf & Hk & Hr).
    destruct Hr as [[e ->]|[[[c n] ->] Hch]].
    + unfold slift in Heq. injection Heq as <- <-. split_and!; [done..|]. left. eauto.
    + assert (∃ s1, keeps s s1 ∧ state s1 = state s ∧ session_nonce s1 = session_nonce s ∧
        commit_shares auth1 (<[(my_frost_id s, t) := Some {| o2_ciphernonce := n;
          o2_ciphertext := c; o2_timer := None; o2_attempts := 0 |}]> out) l s1 = (res, s'))
        as (s1 & Hs1 & Hst1 & Hsn1 & Heq').
      { unfold sbind, push, smodify, sret in Heq. destruct (is_coordinator s);
          (eexists; split_and!; [| | |exact Heq]; done). }
      destruct (IH _ _ _ Heq') as (Hks & Hst & Hsn & Hres).
      split; [by etrans|]. split; [congruence|]. split; [congruence|].
      destruct Hres as [?|(auth' & out' & -> & Ht' & Hi' & Hf' & Hk' & Hch')]; [by left|right].
      exists auth', out'. split_and!; try congruence. rewrite Hch', Hch, Hi.
      rewrite (decide_False (P := (t, p) :: l = [])) by done. clear.
      case_decide; [by rewrite union_empty_l_L|]. rewrite union_assoc_L. f_equal.
      by rewrite union_idemp_L.
Qed.

(** A complete round 1 leads to a good round 2. *)
Lemma r1_to_r2_ok mem me r c m' secret shares auth2 pend out :
  me ∈ dom mem → (2 ≤ size mem)%nat → r1_ok mem me r → dom (r1_in r) = rest mem me →
  part2 (r1_secret r) (r1_in r) = Some (secret, shares) →
  handshake_finalize (r1_auth r) = (Ok c, m') →
  sc_transcript auth2 = sc_transcript c → sc_my_frost_id auth2 = sc_my_frost_id c →
  sc_fed_members auth2 = sc_fed_members c →
  dom (sc_symmetric_keys auth2) = dom (sc_symmetric_keys c) →
  sc_round2_checks auth2 = (if decide (btree_iter shares = []) then ∅
                            else {[sc_my_frost_id c]}) ∪ sc_round2_checks c →
  r2_ok mem me {| r2_pending := pend; r2_auth := auth2; r2_secret := secret;
                  r2_in1 := r1_in r; r2_in2 := ∅; r2_out := out |}.
Proof.
  intros Hme Hsz [Hi Ht Hm Hin Hc He Hv] Hfull Hp2 Hfin Ht2 Hi2 Hf2 Hk2 Hch.
  assert ({[me]} ∪ rest mem me = dom mem) as Hall.
  { unfold rest. rewrite <-union_difference_singleton_L by done. done. }
  destruct (handshake_finalize_ok (r1_auth r)) as (c0 & m0 & Hfin' & _ & _ & _ & Htr & Hid & Hfm & Hks & Hck).
  { rewrite <-!(size_dom (D := gset Identifier)), Hc, Hfull, Hm, Hall. done. }
  { by rewrite He, Hfull, Hm. }
  rewrite Hfin in Hfin'. injection Hfin' as <- <-.
  assert (btree_iter shares ≠ []) as Hne.
  { intros Hnil. pose proof (btree_keys_dom shares) as Hd. rewrite Hnil in Hd. simpl in Hd.
    rewrite (part2_targets _ _ _ _ Hp2), Hfull in Hd.
    pose proof (size_rest mem me Hme) as Hs. rewrite <-Hd, size_empty in Hs. lia. }
  rewrite decide_False in Hch by done.
  split; simpl.
  - congruence.
  - unfold rest in *. congruence.
  - rewrite dom_empty_L. apply empty_subseteq.
  - rewrite Hch, Hck, Hid, Hi, dom_empty_L, !union_empty_r_L. split; [done|].
    by apply singleton_subseteq_l.
  - right. split_and!; [congruence|done|].
    exists (r1_nonce r), (hs_round1_commits (r1_auth r)). rewrite Ht2, Htr, Ht.
    split_and!; [done|by rewrite Hc, Hfull|]. by rewrite <-Ht.
Qed.

Lemma keeps_ok s s' :
  keeps s s' → machine_ok s → state_ok (members s) (my_frost_id s) (state s') → machine_ok s'.
Proof. intros (Hm & Hi & _) [Hme Hsz _] Hst. split; by rewrite ?Hm, ?Hi. Qed.

(** What finishing the handshake leaves behind. *)
Lemma handshake_finalize_drained mem me r :
  me ∈ dom mem → r1_ok mem me r → dom (r1_in r) = rest mem me →
  ∃ c m', handshake_finalize (r1_auth r) = (Ok c, m') ∧
    r1_drained me (r1_with_auth m' (r1_with_in ∅ r)).
Proof.
  intros Hme [Hi Ht Hm Hin Hc He Hv] Hfull.
  assert ({[me]} ∪ rest mem me = dom mem) as Hall
    by (unfold rest; by rewrite <-union_difference_singleton_L).
  destruct (handshake_finalize_ok (r1_auth r)) as (c & m' & Hfin & Hm0 & _ & Hi0 & _).
  { rewrite <-!(size_dom (D := gset Identifier)), Hc, Hfull, Hm, Hall. done. }
  { by rewrite He, Hfull, Hm. }
  exists c, m'. split; [done|]. split; simpl; congruence.
Qed.

Lemma transition_stage2_good : guarantees good_step transition_stage2_checked.
Proof.
  intros s. unfold transition_stage2_checked, sbind at 1, sget.
  destruct (state s) as [|r| | | |] eqn:Hst; try reflexivity.
  destruct (negb (size (r1_in r) =? others s)%nat || negb (bool_decide (r1_out r = ∅))) eqn:Hg;
    [reflexivity|]. apply orb_false_iff in Hg as [Hsize _].
  apply negb_false_iff, Nat.eqb_eq in Hsize.
  assert (machine_ok s → r1_ok (members s) (my_frost_id s) r ∧
          dom (r1_in r) = rest (members s) (my_frost_id s)) as Hr1.
  { intros [Hme Hsz Hok]. rewrite Hst in Hok. unfold others in Hsize. destruct Hok as [Hok|[_ _ Hin]].
    - split; [done|]. apply full_table; [done|apply Hok|done].
    - rewrite Hin, map_size_empty in Hsize. lia. }
  unfold sbind at 1, set_r1, smodify.
  destruct (part2 (r1_secret r) (r1_in r)) as [[secret shares]|] eqn:Hp2.
  2: { split; [done|]. intros [Hme Hsz _]. by split. }
  destruct (handshake_finalize (r1_auth r)) as [res m'] eqn:Hfin.
  assert (machine_ok s → ∃ c, res = Ok c ∧
    r1_drained (my_frost_id s) (r1_with_auth m' (r1_with_in ∅ r))) as Hdr.
  { intros Hok. destruct (Hr1 Hok) as [Hr Hfull].
    destruct (handshake_finalize_drained _ _ _ (mo_me _ Hok) Hr Hfull) as (c & m0 & Heq & Hd).
    rewrite Hfin in Heq. injection Heq as -> ->. eauto. }
  unfold sbind at 1, slift. destruct res as [c|e|]; cbn [map_err].
  2,3: split; [done|]; intros Hok; by destruct (Hdr Hok) as (c & ? & _).
  unfold sbind. match goal with |- context [commit_shares c ∅ ?l ?s0] =>
    destruct (commit_shares c ∅ l s0) as [rc s1] eqn:Hcs end.
  apply commit_shares_spec in Hcs as (Hk & Hst1 & _ & Hres). simpl in Hst1.
  destruct Hres as [[e ->]|(auth2 & out & -> & Ht2 & Hi2 & Hf2 & Hk2 & Hch)].
  - split; [exact Hk|]. intros Hok. apply (keeps_ok s); [exact Hk|done|].
    simpl. rewrite Hst1. destruct (Hdr Hok) as (? & _ & Hd). by right.
  - split; [exact Hk|]. intros Hok. apply (keeps_ok s); [exact Hk|done|].
    destruct (Hr1 Hok) as [Hr Hfull]. destruct Hok as [Hme Hsz _]. simpl. by eapply r1_to_r2_ok.
Qed.

Lemma r2_accept_ok mem me r i pkg out pend :
  r2_ok mem me r → i ≠ me → is_Some (sc_symmetric_keys (r2_auth r) !! i) →
  r2_ok mem me {| r2_pending := pend; r2_auth := mark_check i (r2_auth r);
                  r2_secret := r2_secret r; r2_in1 := r2_in1 r;
                  r2_in2 := <[i := pkg]> (r2_in2 r); r2_out := out |}.
Proof.
  intros [Hme Hk Hin [Hc1 Hc2] Hv] Hi Hki. apply elem_of_dom in Hki. rewrite Hk in Hki.
  split; simpl; try done.
  - rewrite dom_insert_L. apply union_subseteq. split; [by apply singleton_subseteq_l|done].
  - rewrite dom_insert_L. unfold rest in Hki. set_solver.
Qed.

Lemma on_dkg_msg_round2_good i t n c from : guarantees good_step (on_dkg_msg_round2 i t n c from).
Proof.
  intros s. unfold on_dkg_msg_round2, sbind at 1, sget.
  destruct (negb (is_member s i) || bool_decide (i = my_frost_id s)) eqn:Hg; [reflexivity|].
  apply orb_false_iff in Hg as [_ Hi]. apply bool_decide_eq_false in Hi.
  destruct (state s) as [|r|r|r| |k pk] eqn:Hst; simpl; try apply send_ack_good; try reflexivity.
  case_bool_decide as Ht.
  - case_bool_decide; [apply send_ack_good|].
    destruct (validate_round2 i n c (r2_auth r)) as [res auth'] eqn:Hval.
    apply validate_round2_cases in Hval as [(e & -> & ->)|([p ->] & Hki & ->)].
    { unfold sbind, set_r2, smodify, slift. simpl.
      replace (r2_with_auth (r2_auth r) r) with r by (by destruct r).
      apply same_state_good; [done|]. by rewrite Hst. }
    assert (∀ pend, machine_ok s → r2_ok (members s) (my_frost_id s)
      (r2_with_pending pend (r2_with_ins (r2_in1 r) (<[i := p]> (r2_in2 r))
         (r2_with_auth (mark_check i (r2_auth r)) r)))) as Hr.
    { intros pend [_ _ Hok]. rewrite Hst in Hok.
      exact (r2_accept_ok _ _ r i p (r2_out r) pend Hok Hi Hki). }
    unfold sbind, set_r2, smodify, slift, send_ack, push, sget, sret. simpl.
    destruct (r2_pending r) eqn:Hp; simpl; (split; [done|]); intros Hok;
      (split; [apply Hok..|]); simpl; [by apply Hr|].
    specialize (Hr (r2_pending r) Hok). done.
  - destruct (negb (is_coordinator s)); [reflexivity|].
    destruct (r2_out r !! (i, t)); [|reflexivity].
    unfold sbind, set_r2, smodify, slift, send_ack, push, sget, sret. simpl.
    split; [done|]. intros [Hme Hsz Hok]. split; [done..|]. simpl. rewrite Hst in Hok.
    destruct Hok. by constructor.
Qed.

(** The state part 3 is tried from, and what a failure leaves. *)
Lemma r2_emptied_ok mem me r : r2_ok mem me r → r2_ok mem me (r2_with_ins ∅ ∅ r).
Proof.
  intros [Hme Hk Hin [Hc1 Hc2] Hv]. split; simpl; try done; [|by left].
  rewrite dom_empty_L, union_empty_r_L. set_solver.
Qed.

Lemma r2_to_r3_ok mem me r k pk m' auth3 sig auth3' pend out :
  me ∈ dom mem → (2 ≤ size mem)%nat → r2_ok mem me r → dom (r2_in2 r) = rest mem me →
  part3 (r2_secret r) (r2_in1 r) (r2_in2 r) = Some (k, pk) →
  channel_finalize (r2_auth r) = (Ok auth3, m') → commit_round3 pk auth3 = (Ok sig, auth3') →
  r3_ok mem me {| r3_pending := pend; r3_auth := auth3'; r3_secret := k; r3_public := pk;
                  r3_in1 := r2_in1 r; r3_in2 := r2_in2 r; r3_in3 := ∅; r3_out := out |}.
Proof.
  intros Hme Hsz [Hi Hk Hin Hc Hv] Hfull Hp3 Hfin Hcm.
  pose proof (part3_packages _ _ _ _ Hp3) as Hdom. rewrite Hfull in Hdom.
  destruct Hv as [Hnil|(Hm & Hin1 & n & commits & Ht & Hdc & Hav)].
  { exfalso. rewrite Hnil, dom_empty_L in Hdom. pose proof (size_rest mem me Hme) as Hs.
    rewrite <-Hdom, size_empty in Hs. lia. }
  apply channel_finalize_cases in Hfin as [(? & _)|([= ->] & _)]; [done|].
  unfold commit_round3, sbind, sget, slift, smodify, sret in Hcm. simpl in Hcm.
  destruct (pkp_serialize pk) as [ser|] eqn:Hser; [|done]. simpl in Hcm.
  destruct (challenge_bytes _ _) as [ch tr] eqn:Hch. simpl in Hcm. injection Hcm as <- <-.
  split; simpl; try done.
  exists n, (r2_secret r), commits, ser. split_and!; try done.
  unfold key_challenge. by rewrite <-Ht, Hch.
Qed.

Lemma transition_stage3_good : guarantees good_step transition_stage3_checked.
Proof.
  intros s. unfold transition_stage3_checked, sbind at 1, sget.
  destruct (state s) as [| |r| | |] eqn:Hst; try reflexivity.
  destruct (negb (size (r2_in2 r) =? others s)%nat || negb (bool_decide (r2_out r = ∅))) eqn:Hg;
    [reflexivity|]. apply orb_false_iff in Hg as [Hsize _].
  apply negb_false_iff, Nat.eqb_eq in Hsize.
  assert (machine_ok s → r2_ok (members s) (my_frost_id s) r ∧
          dom (r2_in2 r) = rest (members s) (my_frost_id s)) as Hr2.
  { intros [Hme Hsz Hok]. rewrite Hst in Hok. split; [done|].
    apply full_table; [done|apply Hok|done]. }
  unfold sbind at 1, set_r2, smodify.
  destruct (part3 (r2_secret r) (r2_in1 r) (r2_in2 r)) as [[k pk]|] eqn:Hp3.
  2: { split; [done|]. intros Hok. destruct (Hr2 Hok). destruct Hok as [Hme Hsz _]. split; [done..|].
       by apply r2_emptied_ok. }
  destruct (channel_finalize (r2_auth r)) as [res m'] eqn:Hfin.
  assert (machine_ok s → r2_ok (members s) (my_frost_id s) (r2_with_auth m' (r2_with_ins ∅ ∅ r)))
    as Hem.
  { intros Hok. destruct (Hr2 Hok) as [Hr _]. apply r2_emptied_ok in Hr as [Hi Hk Hin Hc Hv].
    pose proof (channel_finalize_cases _ _ _ Hfin) as [(_ & -> & _)|(_ & _ & _ & Hi' & Hk' & Hc')].
    - by split.
    - split; simpl in *; rewrite ?Hi', ?Hk', ?Hc'; try done. by left. }
  unfold sbind at 1, slift. destruct res as [auth3|e|]; cbn [map_err].
  2,3: split; [done|]; intros Hok; destruct (Hok); split; [done..|]; by apply Hem.
  unfold sbind. destruct (commit_round3 pk auth3) as [[sig|e|] auth3'] eqn:Hc3.
  2,3: split; [done|]; intros Hok; destruct (Hok); split; [done..|]; by apply Hem.
  assert (∀ pend out, machine_ok s → r3_ok (members s) (my_frost_id s) {| r3_pending := pend;
    r3_auth := auth3'; r3_secret := k; r3_public := pk; r3_in1 := r2_in1 r; r3_in2 := r2_in2 r;
    r3_in3 := ∅; r3_out := out |}) as Hr3.
  { intros pend out Hok. destruct (Hr2 Hok) as [Hr Hfull]. destruct Hok. by eapply r2_to_r3_ok. }
  unfold set_r3, smodify, push, sret. destruct (is_coordinator s); simpl; (split; [done|]); intros Hok;
    pose proof (Hok) as [Hme Hsz _]; (split; [done..|]); simpl; by apply Hr3.
Qed.

Lemma r3_accept_ok mem me r i sig pend out :
  r3_ok mem me r → i ≠ me → validate_round3 i sig (r3_auth r) = (Ok tt, put_signature i sig (r3_auth r)) →
  r3_ok mem me {| r3_pending := pend; r3_auth := put_signature i sig (r3_auth r);
                  r3_secret := r3_secret r; r3_public := r3_public r; r3_in1 := r3_in1 r;
                  r3_in2 := r3_in2 r; r3_in3 := <[i := sig]> (r3_in3 r); r3_out := out |}.
Proof.
  intros [Hme Hm Hin (n & secret & commits & ser & Hp3 & Hd1 & Hd2 & Hdc & Hav & Hser & Hch & Hsig)]
    Hi Hval.
  apply validate_round3_cases in Hval as [(e & ? & _)|(_ & c & pub & Hc & Hpub & Hver & _)]; [done|].
  rewrite Hm in Hpub. rewrite Hch in Hc. injection Hc as <-.
  split; simpl; try done.
  - rewrite dom_insert_L. apply union_subseteq. split; [|done]. apply singleton_subseteq_l.
    unfold rest. apply elem_of_difference. split; [by apply elem_of_dom_2 in Hpub|].
    by rewrite elem_of_singleton.
  - exists n, secret, commits, ser. split_and!; try done. intros j sg Hj.
    destruct (decide (j = i)) as [->|Hne].
    + rewrite lookup_insert_eq in Hj. injection Hj as <-. eauto.
    + rewrite lookup_insert_ne in Hj by done. by apply Hsig.
Qed.

Lemma on_dkg_msg_round3_good i sig from : guarantees good_step (on_dkg_msg_round3 i sig from).
Proof.
  intros s. unfold on_dkg_msg_round3, sbind at 1, sget.
  destruct (negb (is_member s i) || bool_decide (i = my_frost_id s)) eqn:Hg; [reflexivity|].
  apply orb_false_iff in Hg as [_ Hi]. apply bool_decide_eq_false in Hi.
  destruct (state s) as [|r|r|r| |k pk] eqn:Hst; simpl; try apply send_ack_good; try reflexivity.
  case_bool_decide; [apply send_ack_good|].
  destruct (validate_round3 i sig (r3_auth r)) as [res auth'] eqn:Hval.
  pose proof (validate_round3_cases _ _ _ _ _ Hval) as [(e & -> & ->)|(-> & c & pub & _ & _ & _ & ->)].
  { unfold sbind, set_r3, smodify, slift. simpl.
    replace (r3_with_auth (r3_auth r) r) with r by (by destruct r).
    apply same_state_good; [done|]. by rewrite Hst. }
  assert (∀ pend out, machine_ok s → r3_ok (members s) (my_frost_id s)
    (r3_with_out out (r3_with_pending pend (r3_with_in (<[i := sig]> (r3_in3 r))
       (r3_with_auth (put_signature i sig (r3_auth r)) r))))) as Hr.
  { intros pend out [_ _ Hok]. rewrite Hst in Hok.
    exact (r3_accept_ok _ _ r i sig pend out Hok Hi Hval). }
  unfold sbind, set_r3, smodify, slift, send_ack, push, sget, sret. simpl.
  destruct (r3_pending r) eqn:Hp; simpl; destruct (is_coordinator s); simpl; (split; [done|]);
    intros Hok; (split; [apply Hok..|]); simpl; by apply Hr.
Qed.

Lemma transition_final_good : guarantees good_step transition_final_checked.
Proof.
  intros s. unfold transition_final_checked, sbind at 1, sget.
  destruct (state s) as [| | |r| |] eqn:Hst; try reflexivity.
  destruct (negb (size (r3_in3 r) =? others s)%nat || negb (bool_decide (r3_out r = ∅))) eqn:Hg;
    [reflexivity|]. apply orb_false_iff in Hg as [Hsize _].
  apply negb_false_iff, Nat.eqb_eq in Hsize.
  destruct (verification_finalize (r3_auth r)) as [res auth'] eqn:Hfin.
  assert (kv_my_frost_id auth' = kv_my_frost_id (r3_auth r) ∧
          kv_fed_members auth' = kv_fed_members (r3_auth r) ∧
          kv_challenge auth' = kv_challenge (r3_auth r)) as (Ha & Hb & Hc).
  { unfold verification_finalize, sbind, sget, slift, smodify, sret in Hfin.
    destruct (negb _); [by injection Hfin as <- <-|].
    destruct (challenge_bytes _ _). by injection Hfin as <- <-. }
  unfold sbind, set_r3, smodify, slift. destruct res as [fc|e|]; simpl; (split; [done|]);
    intros [Hme Hsz Hok]; (split; [done..|]); rewrite Hst in Hok; simpl in *.
  - destruct Hok as [Hi Hm Hin (n & secret & commits & ser & Hp3 & Hd1 & Hd2 & Hdc & Hav & Hser & Hch & Hsig)].
    exists n, (r3_in1 r), (r3_in2 r), secret, commits, ser, (r3_in3 r).
    split_and!; try done. by apply full_table.
  - destruct Hok as [Hi Hm Hin Hv]. split; simpl; rewrite ?Ha, ?Hb, ?Hc; done.
  - destruct Hok as [Hi Hm Hin Hv]. split; simpl; rewrite ?Ha, ?Hb, ?Hc; done.
Qed.

Lemma recv_good p : guarantees good_step (recv p).
Proof.
  unfold recv. apply guarantees_bind; [typeclasses eauto|apply guarantees_get; typeclasses eauto|].
  intros s. destruct (negb _); [apply guarantees_ret; typeclasses eauto|].
  destruct (msg p); apply guarantees_bind; try typeclasses eauto; intros;
    eauto using on_dkg_msg_round1_good, on_dkg_msg_round2_good, on_dkg_msg_round3_good,
      ack_round1_good, ack_round2_good, ack_round3_good, transition_stage2_good,
      transition_stage3_good, transition_final_good.
Qed.

Lemma mark_sent_good now p s s' : mark_sent now p s = Some s' → good_step s s'.
Proof.
  unfold mark_sent. intros Hm.
  destruct (msg p); try (injection Hm as <-; reflexivity);
    destruct (state s) as [|r|r|r| |] eqn:Hst; try done.
  - destruct (r1_out r !! _) as [[e|]|]; [|done..]. injection Hm as <-.
    assert (∀ x, keeps s x →
      good_step s (put_state (RoundOne (r1_with_out (<[(initiator, recipient p) :=
        Some (stamp1 (now + round1_package_timeout (config s)) e)]> (r1_out r)) r)) x)) as Hx.
    { intros x Hk. split; [done|]. intros Hok. apply (keeps_ok s); [done..|].
      destruct Hok as [_ _ Hok]. rewrite Hst in Hok. simpl in *.
      destruct Hok as [[]|[]]; [left|right]; by constructor. }
    by destruct (session_activated s); apply Hx.
  - destruct (r2_out r !! _) as [[e|]|]; [|done..]. injection Hm as <-.
    apply put_state_good. intros [_ _ Hok]. rewrite Hst in Hok. destruct Hok. by constructor.
  - destruct (r3_out r !! _) as [[e|]|]; [|done..]. injection Hm as <-.
    apply put_state_good. intros [_ _ Hok]. rewrite Hst in Hok. destruct Hok. by constructor.
Qed.

Lemma send_good now s : good_step s (send now s).2.
Proof.
  unfold send. generalize (queue s) as q. induction q as [|p q IH]; simpl.
  - by apply same_state_good.
  - destruct (mark_sent now p s) as [s'|] eqn:Hm; [|done]. apply mark_sent_good in Hm.
    etrans; [done|]. by apply same_state_good.
Qed.

Lemma on_timeout_good now : guarantees good_step (on_timeout now).
Proof.
  unfold on_timeout. apply guarantees_bind; [typeclasses eauto|apply guarantees_get; typeclasses eauto|].
  intros s. apply guarantees_bind; [typeclasses eauto| |].
  - destruct (session_deadline s) as [d|]; [|apply guarantees_ret; typeclasses eauto].
    destruct (d <=? now); [|apply guarantees_ret; typeclasses eauto].
    apply guarantees_bind; [typeclasses eauto|apply guarantees_lift; typeclasses eauto|].
    intros n. apply guarantees_expect, init_new_session_good.
  - intros _. apply guarantees_bind; [typeclasses eauto|apply guarantees_get; typeclasses eauto|].
    intros s'. apply push_good.
Qed.

(** ** Runs *)

(** Whatever the network delivers, whenever the host sends or a timer fires. *)
Inductive dkg_step : DkgStateMachine → DkgStateMachine → Prop :=
  | step_recv p s : dkg_step s (recv p s).2
  | step_send now s : dkg_step s (send now s).2
  | step_timeout now s : dkg_step s (on_timeout now s).2.

Lemma dkg_steps_good s s' : rtc dkg_step s s' → good_step s s'.
Proof.
  induction 1 as [|s s1 s2 Hs _ IH]; [reflexivity|]. etrans; [|exact IH].
  destruct Hs; [apply recv_good|apply send_good|apply on_timeout_good].
Qed.

Lemma new_ok me sec coord mem cfg n r s :
  new me sec coord mem cfg n r = Ok s → (2 ≤ size mem)%nat →
  machine_ok s ∧ members s = mem ∧ my_frost_id s = me.
Proof.
  unfold new. intros Heq Hsz. case_bool_decide as Hme; [|done]. cbn [negb] in Heq.
  apply elem_of_dom in Hme.
  destruct (negb _); [done|]. destruct (_ <? _); [done|]. destruct (negb _); [done|].
  destruct (_ && _); [done|].
  assert (∀ x, members x = mem → my_frost_id x = me → state x = AwatingInit → machine_ok x) as Hinit.
  { intros x Hm Hi Hst. split; rewrite ?Hm, ?Hi, ?Hst; done. }
  case_bool_decide; [|injection Heq as <-; split_and!; [by apply Hinit|done|done]].
  destruct n as [n|]; [|done]. simpl in Heq.
  match type of Heq with context [init_new_session n ?x] =>
    pose proof (init_new_session_good n x) as [Hk Hok];
    destruct (init_new_session n x) as [[| |] s'] eqn:Hi end; [|done..].
  injection Heq as <-. simpl in *. destruct Hk as (Hm & Hid & _).
  split_and!; [by apply Hok, Hinit|done|done].
Qed.

(** C23. Whoever finishes key generation holds authenticated keys.  In every run of
    a member, with any messages from the network in any order, forged ones
    included, and any timeouts: if it ends with keys, they are what part 3 made
    of one round-1 and one round-2 package of every other member, every round-1
    package was signed with its initiator's static key for this session, and
    every other member's static key has signed the challenge that binds the
    session, all round-1 commitments and the very public key package held. *)
Theorem finished_keys_are_authenticated me sec coord mem cfg n r s0 s k pk :
  new me sec coord mem cfg n r = Ok s0 → (2 ≤ size mem)%nat → rtc dkg_step s0 s →
  aggregate_key_packages s = Some (k, pk) → authenticated_keys mem me k pk.
Proof.
  intros Hnew Hsz Hrun Hagg. destruct (new_ok _ _ _ _ _ _ _ _ Hnew Hsz) as (Hok & Hm & Hi).
  apply dkg_steps_good in Hrun as [(Hm' & Hi' & _) Hgood]. apply Hgood in Hok as [_ _ Hst].
  unfold aggregate_key_packages in Hagg. destruct (state s); try done.
  injection Hagg as <- <-. simpl in Hst. congruence.
Qed.

(** ** Sessions only move forward *)

Definition finished (s : DkgStateMachine) : bool := did_round_three_finalize (state s).
(** Keys stay; a member's session number grows until it has its keys. *)
Definition forward (s s' : DkgStateMachine) : Prop :=
  keeps s s' ∧
  (finished s = true → state s' = state s ∧ session_nonce s' = session_nonce s) ∧
  (is_coordinator s = false → ∀ a, session_nonce s = Some a →
     (∃ b, session_nonce s' = Some b ∧ a ≤ b) ∨ session_nonce s' = None ∧ finished s' = true).
#[export] Instance forward_preorder : PreOrder forward.
Proof.
  split.
  - intros s. split_and!; [reflexivity|done|]. intros _ a Ha. left. by exists a.
  - intros s1 s2 s3 (Hk1 & Hf1 & Hn1) (Hk2 & Hf2 & Hn2). split_and!; [by etrans| |].
    + intros Hf. destruct (Hf1 Hf) as [Hst Hn]. destruct Hf2 as [Hst2 Hn2'];
        [unfold finished in *; congruence|]. split; congruence.
    + intros Hc a Ha. assert (is_coordinator s2 = false) as Hc2.
      { destruct Hk1 as (_ & Hi & Hco & _). unfold is_coordinator in *. by rewrite Hi, Hco. }
      destruct (Hn1 Hc a Ha) as [(b & Hb & Hab)|[Hb Hfin]].
      * destruct (Hn2 Hc2 b Hb) as [(c & Hc' & Hbc)|?]; [|by right].
        left. exists c. split; [done|lia].
      * right. destruct (Hf2 Hfin) as [Hst Hn]. split; [congruence|].
        unfold finished in *. congruence.
Qed.

Lemma same_session_forward s s' :
  keeps s s' → session_nonce s' = session_nonce s → (finished s = true → state s' = state s) →
  forward s s'.
Proof.
  intros Hk Hn Hf. split_and!; [done|auto|]. intros _ a Ha. left. exists a. by rewrite Hn.
Qed.
Lemma push_forward l : guarantees forward (push l).
Proof. intros s. by apply same_session_forward. Qed.
Lemma send_ack_forward to m : guarantees forward (send_ack to m).
Proof. intros s. by apply same_session_forward. Qed.

(** Handlers that change an unfinished round only. *)
Ltac forward_by_cases :=
  unfold set_r1, set_r2, set_r3, send_ack, push, sbind, smodify, slift, sret, sget;
  repeat (simpl; case_match); simplify_eq; simpl;
  try reflexivity; apply same_session_forward; simpl; try done;
  unfold finished; intros Hfin;
  match goal with Hst : state _ = _ |- _ => rewrite Hst in Hfin; done end.

Lemma ack_forward i j :
  guarantees forward (on_dkg_msg_ack_round1 i j) ∧ guarantees forward (on_dkg_msg_ack_round2 i j) ∧
  guarantees forward (on_dkg_msg_ack_round3 i j).
Proof.
  unfold on_dkg_msg_ack_round1, on_dkg_msg_ack_round2, on_dkg_msg_ack_round3.
  split_and!; intros s; forward_by_cases.
Qed.

Lemma accept_round1_forward i eph sig pkg from : guarantees forward (accept_round1 i eph sig pkg from).
Proof. intros s. unfold accept_round1. forward_by_cases. Qed.
Lemma on_dkg_msg_round2_forward i t n c from : guarantees forward (on_dkg_msg_round2 i t n c from).
Proof. intros s. unfold on_dkg_msg_round2. forward_by_cases. Qed.
Lemma on_dkg_msg_round3_forward i sig from : guarantees forward (on_dkg_msg_round3 i sig from).
Proof. intros s. unfold on_dkg_msg_round3. forward_by_cases. Qed.
Lemma transition_stage3_forward : guarantees forward transition_stage3_checked.
Proof. intros s. unfold transition_stage3_checked. forward_by_cases. Qed.

Lemma transition_stage2_forward : guarantees forward transition_stage2_checked.
Proof.
  intros s. unfold transition_stage2_checked, sbind at 1, sget.
  destruct (state s) as [|r| | | |] eqn:Hst; try reflexivity.
  assert (finished s = false) as Hfin by (unfold finished; by rewrite Hst).
  destruct (negb _ || _); [reflexivity|]. unfold sbind at 1, set_r1, smodify.
  destruct (part2 _ _) as [[secret shares]|]; [|apply same_session_forward; [done|done|congruence]].
  destruct (handshake_finalize _) as [res m']. unfold sbind, slift.
  destruct res as [c|e|]; cbn [map_err]; [|apply same_session_forward; [done|done|congruence]..].
  match goal with |- context [commit_shares c ∅ ?l ?s0] =>
    destruct (commit_shares c ∅ l s0) as [rc s1] eqn:Hcs end.
  apply commit_shares_spec in Hcs as (Hk & _ & Hsn & Hres).
  destruct Hres as [[e ->]|(auth2 & out & -> & _)];
    (apply same_session_forward; [exact Hk|exact Hsn|congruence]).
Qed.

Lemma transition_final_forward : guarantees forward transition_final_checked.
Proof.
  intros s. unfold transition_final_checked, sbind at 1, sget.
  destruct (state s) as [| | |r| |] eqn:Hst; try reflexivity.
  assert (finished s = false) as Hfin by (unfold finished; by rewrite Hst).
  destruct (negb _ || _); [reflexivity|]. destruct (verification_finalize _) as [res m'].
  unfold sbind, set_r3, smodify, slift.
  destruct res as [fc|e|]; cbn [map_err]; [|apply same_session_forward; [done|done|congruence]..].
  split_and!; [done|congruence|]. intros _ a _. by right.
Qed.

Lemma new_session_forward s s' n :
  keeps s s' → finished s = false → (∀ last, session_nonce s = Some last → last < n) →
  session_nonce s' = Some n → forward s s'.
Proof.
  intros Hk Hf Hlast Hn. split_and!; [done|congruence|]. intros _ a Ha. left. exists n.
  split; [done|]. apply Hlast in Ha. lia.
Qed.

Lemma validate_new_session_init_forward i ctx n eph sig pkg :
  guarantees forward (validate_new_session_init i ctx n eph sig pkg).
Proof.
  intros s. unfold validate_new_session_init, sbind at 1, sget.
  destruct (refuses_session s i ctx n) eqn:Href; [reflexivity|].
  apply refuses_session_false in Href as (_ & _ & _ & Hlast & Hst).
  assert (finished s = false) as Hf.
  { unfold finished. destruct (state s); try done. by destruct (Hst _ _ eq_refl). }
  unfold sbind, draw, sget, smodify, slift, sret, send_ack, push, set_r1. simpl.
  destruct (handshake_new _ _ _ _ _ _); simpl; try by apply same_session_forward.
  destruct (validate_round1 _ _ _ _ _) as [[] ?]; simpl; try by apply same_session_forward.
  destruct (part1 _ _ _ _) as [[]|]; simpl; [|by apply (new_session_forward _ _ n)].
  match goal with |- context [new_round1 ?a ?b ?c] =>
    destruct (new_round1_cases a b c) as [(? & ? & _ & ->)|[? ->]] end;
    simpl; by apply (new_session_forward _ _ n).
Qed.

Lemma on_dkg_msg_round1_forward i ctx n eph sig pkg from :
  guarantees forward (on_dkg_msg_round1 i ctx n eph sig pkg from).
Proof.
  unfold on_dkg_msg_round1.
  apply guarantees_bind; [typeclasses eauto|apply guarantees_get; typeclasses eauto|]. intros s.
  destruct (_ || _); [apply guarantees_ret; typeclasses eauto|].
  destruct (match session_nonce s with Some _ => _ | None => _ end) as [[]|];
    [|apply accept_round1_forward|apply guarantees_ret; typeclasses eauto].
  apply guarantees_bind; [typeclasses eauto|apply validate_new_session_init_forward|].
  intros []; [apply guarantees_ret; typeclasses eauto|apply accept_round1_forward].
Qed.

Lemma recv_forward p : guarantees forward (recv p).
Proof.
  unfold recv. apply guarantees_bind; [typeclasses eauto|apply guarantees_get; typeclasses eauto|].
  intros s. destruct (negb _); [apply guarantees_ret; typeclasses eauto|].
  destruct (msg p); apply guarantees_bind; try typeclasses eauto; intros;
    first [apply ack_forward | apply on_dkg_msg_round1_forward | apply on_dkg_msg_round2_forward
          | apply on_dkg_msg_round3_forward | apply transition_stage2_forward
          | apply transition_stage3_forward | apply transition_final_forward].
Qed.

Lemma mark_sent_forward now p s s' : mark_sent now p s = Some s' → forward s s'.
Proof.
  unfold mark_sent. intros Hm. repeat case_match; simplify_eq; try reflexivity;
    apply same_session_forward; try done; unfold finished; intros Hfin;
    match goal with Hst : state s = _ |- _ => rewrite Hst in Hfin; done end.
Qed.
Lemma send_forward now s : forward s (send now s).2.
Proof.
  unfold send. generalize (queue s) as q. induction q as [|p q IH]; simpl.
  - by apply same_session_forward.
  - destruct (mark_sent now p s) as [s'|] eqn:Hm; [|done]. apply mark_sent_forward in Hm.
    etrans; [done|]. by apply same_session_forward.
Qed.

Lemma on_timeout_forward now : guarantees forward (on_timeout now).
Proof.
  intros s. unfold on_timeout, sbind at 1, sget.
  assert (∀ x, forward s x → forward s (put_queue (queue x ++ resends now x) x)) as Hend
    by (intros x Hx; etrans; [exact Hx|]; by apply same_session_forward).
  unfold sbind, push, smodify, sget, sret, slift.
  destruct (session_deadline s) as [d|] eqn:Hd; [|by apply Hend].
  destruct (d <=? now); [|by apply Hend].
  destruct (session_nonce s) as [n|]; simpl; [|reflexivity].
  unfold session_deadline in Hd. destruct (is_coordinator s) eqn:Hc; [|done]. simpl in Hd.
  assert (finished s = false) as Hf by (unfold finished; by destruct (state s)).
  pose proof (init_new_session_good (wrap64 (n + 1)) s) as [Hk _]. unfold sexpect.
  assert (forward s (init_new_session (wrap64 (n + 1)) s).2) as Hfw
    by (split_and!; [done|congruence|congruence]).
  destruct (init_new_session _ s) as [[] s1]; simpl in *; [by apply Hend|done|done].
Qed.

(** Sessions only move forward.  In every run, whatever the network delivers:
    once a member has its keys they never change; and until then a member that
    is not the coordinator only ever moves to sessions with a larger number. *)
Theorem sessions_move_forward s s' :
  rtc dkg_step s s' →
  (∀ k pk, aggregate_key_packages s = Some (k, pk) → aggregate_key_packages s' = Some (k, pk)) ∧
  (is_coordinator s = false → ∀ a b, session_nonce s = Some a → session_nonce s' = Some b → a ≤ b).
Proof.
  intros Hrun. assert (forward s s') as (_ & Hf & Hn).
  { induction Hrun as [|s s1 s2 Hs _ IH]; [reflexivity|]. etrans; [|exact IH].
    destruct Hs; [apply recv_forward|apply send_forward|apply on_timeout_forward]. }
  split.
  - intros k pk Hagg. unfold aggregate_key_packages, finished in *.
    destruct (state s); try done. destruct Hf as [-> _]; done.
  - intros Hc a b Ha Hb. destruct (Hn Hc a Ha) as [(b' & Hb' & Hle)|[Hnone _]]; congruence.
Qed.

(** When part 3 fails the session is not aborted: it stays in round 2, without
    the packages it had received. *)
Theorem failed_part3_not_aborted s r :
  state s = RoundTwo r → size (r2_in2 r) = others s → r2_out r = ∅ →
  part3 (r2_secret r) (r2_in1 r) (r2_in2 r) = None →
  transition_stage3_checked s = (Ok tt, put_state (RoundTwo (r2_with_ins ∅ ∅ r)) s).
Proof.
  intros Hst Hsz Hout Hp3. unfold transition_stage3_checked, sbind at 1, sget. rewrite Hst, Hsz, Hout.
  rewrite Nat.eqb_refl, bool_decide_eq_true_2 by done. simpl. unfold sbind, set_r2, smodify.
  by rewrite Hp3.
Qed.

End invariant.
#[export] Hint Resolve push_good send_ack_good draw_good ack_round1_good ack_round2_good
  ack_round3_good init_new_session_good : macbeth.

(** ** A federation of three *)

Section network.
Context `{DkgLib}.

(** The first payload any machine wants to send, with the machines after it. *)
Fixpoint next_payload (now : Z) (l : list DkgStateMachine)
    : option DkgPayload * list DkgStateMachine :=
  match l with
  | [] => (None, [])
  | s :: l' =>
      match send now s with
      | (Some p, s') => (Some p, s' :: l')
      | (None, s') => let '(p, l'') := next_payload now l' in (p, s' :: l'')
      end
  end.
(** Deliver payloads, one at a time, to everyone, until nobody sends. *)
Fixpoint run_network (fuel : nat) (l : list DkgStateMachine) : list DkgStateMachine :=
  match fuel with
  | O => l
  | S fuel' =>
      match next_payload 0 l with
      | (Some p, l') => run_network fuel' ((λ s, (recv p s).2) <$> l')
      | (None, l') => l'
      end
  end.

Lemma next_payload_steps now l :
  Forall2 (rtc dkg_step) l (next_payload now l).2.
Proof.
  assert (∀ l : list DkgStateMachine, Forall2 (rtc dkg_step) l l) as Hrefl
    by (intros l'; induction l'; constructor; [reflexivity|done]).
  induction l as [|s l IH]; simpl; [constructor|].
  pose proof (step_send now s) as Hs. destruct (send now s) as [[p|] s']; simpl in *.
  - constructor; [by apply rtc_once|done].
  - destruct (next_payload now l) as [p l'']. constructor; [by apply rtc_once|done].
Qed.
Lemma run_network_steps fuel l : Forall2 (rtc dkg_step) l (run_network fuel l).
Proof.
  revert l. induction fuel as [|fuel IH]; intros l; simpl.
  - induction l; constructor; [reflexivity|done].
  - pose proof (next_payload_steps 0 l) as Hl. destruct (next_payload 0 l) as [[p|] l']; [|done].
    specialize (IH ((λ s, (recv p s).2) <$> l')). simpl in Hl. revert IH.
    generalize (run_network fuel ((λ s, (recv p s).2) <$> l')) as l''. clear -Hl.
    induction Hl as [|s s' l l' Hs Hl IH]; intros l'' Hf; simpl in Hf.
    + by apply Forall2_nil_inv_l in Hf as ->.
    + apply Forall2_cons_inv_l in Hf as (s'' & l3 & Hs'' & Hf & ->). constructor; [|by apply IH].
      etrans; [done|]. eapply rtc_l; [apply step_recv|done].
Qed.
End network.

Module SampleDkg.
Definition flat (t : list (string * bytes)) : bytes :=
  concat ((λ e, Z.of_nat (String.length e.1) :: Z.of_nat (length e.2) :: e.2) <$> t).
Definition strip (p b : bytes) : option bytes :=
  if bool_decide (take (length p) b = p) then Some (drop (length p) b) else None.
#[export] Instance lib : @DkgLib Sample.frost := {|
  id_lt := Z.ltb : @Identifier Sample.frost → @Identifier Sample.frost → bool;
  SecretKey := Z; PublicKey := Z; EcdsaSignature := list Z;
  new_secret_key n := 1000 + Z.of_nat n;
  public_key k := k;
  pubkey_serialize k := [k];
  signature_serialize s := s;
  sign_ecdsa m k := k :: m;
  verify_ecdsa k m s := bool_decide (s = k :: m);
  shared_secret p s := [p * s];
  Transcript := list (string * bytes);
  transcript_new l := [(l, [])];
  append_message l m t := t ++ [(l, m)];
  append_u64 l n t := t ++ [(l, [n])];
  challenge_bytes l t := (flat t, t ++ [(l, [])]);
  aead_encrypt k n m := Some ((k ++ n) ++ m);
  aead_decrypt k n c := strip (k ++ n) c;
  Round1Secret := list Z; Round1Package := list Z; Round2Secret := list Z; Round2Package := list Z;
  r1_serialize p := Some p; r2_serialize p := Some p; r2_deserialize b := Some b;
  pkp_serialize p := Some p;
  part1 i mx mn n := Some ([i; Z.of_nat n], [i; Z.of_nat n]);
  part2 s ps := Some (s, (λ p, s ++ p) <$> ps);
  part3 s in1 in2 := if bool_decide (dom in1 = dom in2)
                     then Some (s, concat (sort_by bytes_leb (s :: (map_to_list in1).*2)))
                     else None;
|}.
#[export] Instance lib_laws : @DkgLibLaws Sample.frost lib.
Proof.
  split; simpl.
  - intros a b Hab. destruct (Z.ltb_spec a b), (Z.ltb_spec b a); simpl; (done || lia).
  - intros a b. f_equal. lia.
  - intros k n m c [= <-]. unfold strip.
    by rewrite take_app_length, bool_decide_eq_true_2, drop_app_length.
  - by intros p b [= <-].
  - intros s ps s' shares [= <- <-]. by rewrite dom_fmap_L.
  - intros s in1 in2 r. by case_bool_decide.
Qed.
#[export] Existing Instance Sample.frost.

Definition cfg : Config := {| max_signers := 3; min_signers := 2; round1_package_timeout := 10;
  round2_package_timeout := 10; round3_package_timeout := 10; pending_session_timeout := None |}.
Definition mem : gmap Identifier PublicKey := {[1 := 11; 2 := 12; 3 := 13]}.
(** Member [i]; 1 is the coordinator. *)
Definition machine (i : Z) : result DkgError DkgStateMachine :=
  new i (10 + i) 1 mem cfg (if i =? 1 then Some 5 else None) (Z.to_nat (10 * i)).
Definition start : list DkgStateMachine :=
  omap (λ i, match machine i with Ok s => Some s | _ => None end) [1; 2; 3].
Definition finish : list DkgStateMachine := run_network 60 start.
(** Member [i] of a federation of two, after both have exchanged round 1. *)
Definition pair : gmap Identifier PublicKey := {[1 := 1001; 2 := 1002]}.
Definition fresh (i : Z) : DkgHandshakeManager :=
  {| hs_transcript := session_transcript [7] 5; hs_my_frost_id := i;
     hs_my_static_sec := 1000 + i; hs_my_eph_sec := new_secret_key (Z.to_nat i);
     hs_my_eph_pub := public_key (new_secret_key (Z.to_nat i)); hs_fed_members := pair;
     hs_eph_keys := {[i := public_key (new_secret_key (Z.to_nat i))]};
     hs_round1_commits := ∅ |}.
Definition joined (i j : Z) : DkgHandshakeManager :=
  match commit_round1 [j] (fresh j) with
  | (Ok (eph, sig), _) => (validate_round1 j eph sig [j] (commit_round1 [i] (fresh i)).2).2
  | _ => fresh i
  end.
End SampleDkg.

#[local] Existing Instances Sample.frost SampleDkg.lib SampleDkg.lib_laws.

Lemma ok_ex {E A} (r : result E A) :
  match r with Ok _ => true | _ => false end = true → ∃ x, r = Ok x.
Proof. destruct r; try done. eauto. Qed.
Lemma fmap_some_inj {A B} (f : A → B) o a b : o = Some a → f <$> o = Some b → f a = b.
Proof. intros ->. by intros [= <-]. Qed.
Lemma omap_head {A B} (f : A → option B) a b l : f a = Some b → omap f (a :: l) !! 0%nat = Some b.
Proof. intros Hf. cbn. by rewrite Hf. Qed.

(** The coordinator of the sample federation, from its construction to the end
    of the run. *)
Lemma sample_run :
  ∃ s0 s, SampleDkg.machine 1 = Ok s0 ∧ SampleDkg.finish !! 0%nat = Some s ∧ rtc dkg_step s0 s.
Proof.
  destruct (ok_ex (SampleDkg.machine 1)) as [s0 Hnew]; [vm_compute; reflexivity|].
  assert (SampleDkg.start !! 0%nat = Some s0) as H0.
  { unfold SampleDkg.start. apply omap_head. by rewrite Hnew. }
  destruct (Forall2_lookup_l _ _ _ _ _ (run_network_steps 60 SampleDkg.start) H0) as (s & Hs & Hrun).
  exists s0, s. exact (conj Hnew (conj Hs Hrun)).
Qed.
Lemma sample_aggregate :
  aggregate_key_packages <$> SampleDkg.finish !! 0%nat = Some (Some ([1; 10], [1; 10; 2; 21; 3; 31])).
Proof. vm_compute. reflexivity. Qed.

Lemma finished_keys_are_authenticated_witness :
  ∃ k pk, aggregate_key_packages <$> SampleDkg.finish !! 0%nat = Some (Some (k, pk)) ∧
    authenticated_keys SampleDkg.mem 1 k pk.
Proof.
  destruct sample_run as (s0 & s & Hnew & Hs & Hrun). pose proof sample_aggregate as Hagg.
  exists [1; 10], [1; 10; 2; 21; 3; 31]. split; [exact Hagg|].
  refine (finished_keys_are_authenticated 1 11 1 SampleDkg.mem SampleDkg.cfg (Some 5) 10 s0 s
    [1; 10] [1; 10; 2; 21; 3; 31] Hnew _ Hrun (fmap_some_inj _ _ _ _ Hs Hagg)).
  vm_compute. lia.
Defined.

(** [fresh] is what the constructor returns. *)
Lemma sample_fresh :
  handshake_new [7] 5 1 1001 SampleDkg.pair 1 = Ok (SampleDkg.fresh 1) ∧
  handshake_new [7] 5 2 1002 SampleDkg.pair 2 = Ok (SampleDkg.fresh 2).
Proof. split; reflexivity. Qed.

Lemma ok_pair_ex {E A S} (r : result E A * S) :
  match r.1 with Ok _ => true | _ => false end = true → ∃ a s, r = (Ok a, s).
Proof. destruct r as [[] ?]; try done. eauto. Qed.

Lemma secure_channel_roundtrip_witness :
  ∃ ca cb cipher ca', commit_round2 2 [9; 9] ca = (Ok (cipher, 0), ca') ∧
    validate_round2 1 0 cipher cb = (Ok [9; 9], mark_check 1 cb).
Proof.
  assert (match (handshake_finalize (SampleDkg.joined 1 2)).1 with
          | Ok ca => match (commit_round2 2 [9; 9] ca).1 with Ok _ => true | _ => false end
          | _ => false end = true) as Hc by (vm_compute; reflexivity).
  destruct (ok_pair_ex (handshake_finalize (SampleDkg.joined 1 2))) as (ca & ma' & Hca);
    [vm_compute; reflexivity|].
  destruct (ok_pair_ex (handshake_finalize (SampleDkg.joined 2 1))) as (cb & mb' & Hcb);
    [vm_compute; reflexivity|].
  rewrite Hca in Hc. cbn beta iota delta [fst] in Hc.
  destruct (ok_pair_ex _ Hc) as ([cipher n] & ca' & Hcommit).
  destruct (secure_channel_roundtrip (SampleDkg.joined 1 2) (SampleDkg.joined 2 1)
    ca cb ma' mb' [9; 9] cipher n ca') as (Hv & -> & _);
    [vm_compute; congruence | vm_compute; reflexivity .. | exact Hca | exact Hcb | exact Hcommit |].
  exists ca, cb, cipher, ca'. exact (conj Hcommit Hv).
Defined.

Lemma sessions_move_forward_witness :
  ∃ s, SampleDkg.finish !! 0%nat = Some s ∧
    aggregate_key_packages (on_timeout 1000 s).2 = Some ([1; 10], [1; 10; 2; 21; 3; 31]).
Proof.
  destruct sample_run as (s0 & s & _ & Hs & _). exists s. split; [exact Hs|].
  apply (proj1 (sessions_move_forward s _ (rtc_once _ _ (step_timeout 1000 s)))).
  exact (fmap_some_inj _ _ _ _ Hs sample_aggregate).
Defined.
