(* ===== verification/Checkpoints.v ===== *)
(** * Bitcoin checkpoints

    [crates/botanix-bitcoin-checkpoint]: the window of Bitcoin blocks every
    validator keeps ([chain.rs], module [Chain]) and the task that follows bitcoind
    ([syncer.rs], module [Syncer]).  The strong checkpoint of the window is the
    Bitcoin block a proposed Botanix block commits to.

    bitcoind is a class of operations indexed by the number of calls made before,
    so that its answers may change between any two calls. *)

From S2P Require Import Prelude Bitcoin.

(** The calls of [RpcApiExt] the synchronizer makes. *)
Class CheckpointRpc := {
  JsonRPCError : Type;
  get_block_count : nat → result JsonRPCError Z;
  get_block_hash : nat → Z → result JsonRPCError BlockHash;
  get_block_header : nat → BlockHash → result JsonRPCError Header;
}.

Section checkpoints.
Context `{!HeaderHash, !CheckpointRpc}.

(** ** Checkpoints and errors *)

Record BitcoinCheckpoint := mkCheckpoint {
  cp_header : Header;
  cp_height : Z;
  cp_hash : BlockHash;
}.

Definition checkpoint_new (header : Header) (height : Z) : BitcoinCheckpoint :=
  mkCheckpoint header height (header_hash header).

Inductive RpcProcedure := ProcBlockCount | ProcBlockHash | ProcBlockHeader.

Inductive BitcoinCheckpointError :=
  | StaleBlockAdded (expected received : BlockHash)
  | SyncRpcError (error : JsonRPCError) (procedure_name : RpcProcedure)
  | ZeroStrongConfirmationDepth
  | WeakCheckpointsCountTooBig (weak strong : Z)
  | ChainParamsTooLarge (strong historical weak : Z).

(** ** The window of checkpoints *)

(** The queue is a list, oldest first. *)
Record BitcoinCheckpointsChain := mkChain {
  strong_confirmation_depth : Z;
  checkpoints : list BitcoinCheckpoint;
  window_start : Z;
  window_end : Z;
  confirmation_window_size : Z;
}.

Definition try_new (strong historical weak : Z) :
    result BitcoinCheckpointError BitcoinCheckpointsChain :=
  if strong =? 0 then Err ZeroStrongConfirmationDepth
  else if strong <=? weak then Err (WeakCheckpointsCountTooBig weak strong)
  else
    let confirmations_from := strong - weak in
    let? confirmations_to :=
      ok_or (checked_add strong historical) (ChainParamsTooLarge strong historical weak) in
    let? size :=
      ok_or (v ← checked_sub confirmations_to confirmations_from; checked_add v 1)
            (ChainParamsTooLarge strong historical weak) in
    Ok (mkChain strong [] confirmations_from confirmations_to size).

Definition set_checkpoints (l : list BitcoinCheckpoint) (c : BitcoinCheckpointsChain) :
    BitcoinCheckpointsChain :=
  mkChain (strong_confirmation_depth c) l (window_start c) (window_end c)
          (confirmation_window_size c).

Definition len (c : BitcoinCheckpointsChain) : Z := Z.of_nat (length (checkpoints c)).
Definition is_empty (c : BitcoinCheckpointsChain) : bool :=
  bool_decide (checkpoints c = []).
Definition size_limit (c : BitcoinCheckpointsChain) : Z := confirmation_window_size c.
Definition clear (c : BitcoinCheckpointsChain) : BitcoinCheckpointsChain :=
  set_checkpoints [] c.
Definition recent_height (c : BitcoinCheckpointsChain) : option Z :=
  cp_height <$> last (checkpoints c).
Definition lowest_confirmation_depth (c : BitcoinCheckpointsChain) : Z := window_start c.

Definition push (cp : BitcoinCheckpoint) :
    SM BitcoinCheckpointsChain BitcoinCheckpointError () :=
  let* c := sget in
  (match last (checkpoints c) with
   | Some recent =>
       if bool_decide (hd_prev_blockhash (cp_header cp) ≠ cp_hash recent)
       then slift (Err (StaleBlockAdded (cp_hash recent) (hd_prev_blockhash (cp_header cp))))
       else sret tt
   | None => sret tt
   end) ;;*
  let kept := if len c =? confirmation_window_size c then tail (checkpoints c)
              else checkpoints c in
  smodify (set_checkpoints (kept ++ [cp])).

Definition contains_by_hash (h : BlockHash) (c : BitcoinCheckpointsChain) : bool :=
  existsb (λ cp, bool_decide (cp_hash cp = h)) (checkpoints c).

Definition get_by_confirmation_depth (depth : Z) (c : BitcoinCheckpointsChain) :
    option BitcoinCheckpoint :=
  if negb ((window_start c <=? depth) && (depth <=? window_end c)) then None
  else if is_empty c then None
  else
    let index_from_back := depth - window_start c in
    if len c <=? index_from_back then None
    else
      let index := len c - 1 - index_from_back in
      checkpoints c !! Z.to_nat index.

Definition strong (c : BitcoinCheckpointsChain) : option BitcoinCheckpoint :=
  get_by_confirmation_depth (strong_confirmation_depth c) c.

(** ** The synchronizer *)

Record SyncedCheckpointInfo := { sci_height : Z; sci_hash : BlockHash }.
Definition synced_info (cp : BitcoinCheckpoint) : SyncedCheckpointInfo :=
  {| sci_height := cp_height cp; sci_hash := cp_hash cp |}.

Inductive SyncLoopControl := WaitForNewBlock | Sync.

(** The struct's fields, and the number of calls made on [rpc] so far. *)
Record Synchronizer := mkSyncer {
  checkpoints_chain : BitcoinCheckpointsChain;
  last_synced_height : option Z;
  rpc_calls : nat;
}.

Definition synchronizer_new (c : BitcoinCheckpointsChain) (calls : nat) : Synchronizer :=
  mkSyncer c ((λ height, wrap64 (height + lowest_confirmation_depth c)) <$> recent_height c)
           calls.

Definition set_chain (c : BitcoinCheckpointsChain) (s : Synchronizer) : Synchronizer :=
  mkSyncer c (last_synced_height s) (rpc_calls s).
Definition set_last_synced (h : option Z) (s : Synchronizer) : Synchronizer :=
  mkSyncer (checkpoints_chain s) h (rpc_calls s).

(** The macro [map_rpc_error!]: one call, its error tagged with the procedure. *)
Definition rpc_call {A} (p : RpcProcedure) (call : nat → result JsonRPCError A) :
    SM Synchronizer BitcoinCheckpointError A := λ s,
  (map_err (λ e, SyncRpcError e p) (call (rpc_calls s)),
   mkSyncer (checkpoints_chain s) (last_synced_height s) (S (rpc_calls s))).

Definition push_checkpoint (cp : BitcoinCheckpoint) :
    SM Synchronizer BitcoinCheckpointError () :=
  zoom checkpoints_chain set_chain (push cp).

(** The loop over [from_height..=to_height]. *)
Fixpoint sync_heights (heights : list Z) :
    SM Synchronizer BitcoinCheckpointError (list SyncedCheckpointInfo) :=
  match heights with
  | [] => sret []
  | height :: rest =>
      let* confirmed_hash := rpc_call ProcBlockHash (λ n, get_block_hash n height) in
      let* header := rpc_call ProcBlockHeader (λ n, get_block_header n confirmed_hash) in
      let cp := checkpoint_new header (wrap32 height) in
      push_checkpoint cp ;;*
      let* synced := sync_heights rest in
      sret (synced_info cp :: synced)
  end.

Definition range_inclusive (from to : Z) : list Z := seqZ from (to - from + 1).

Definition sync_new_blocks : SM Synchronizer BitcoinCheckpointError (list SyncedCheckpointInfo) :=
  let* tip_height := rpc_call ProcBlockCount get_block_count in
  let* s := sget in
  let last_synced := default 0 (last_synced_height s) in
  if tip_height <=? last_synced then sret []
  else
    let lowest := lowest_confirmation_depth (checkpoints_chain s) in
    if tip_height <? lowest
    then smodify (set_last_synced (Some tip_height)) ;;* sret []
    else
      let confirmed_available := wrap64 (tip_height + 1 - lowest) in
      let confirmed_already := saturating_sub (saturating_add last_synced 1) lowest in
      let need_to_sync := saturating_sub confirmed_available confirmed_already in
      if need_to_sync =? 0
      then smodify (set_last_synced (Some tip_height)) ;;* sret []
      else
        let blocks_to_sync := Z.min need_to_sync (size_limit (checkpoints_chain s)) in
        let top_confirmed_height := saturating_sub tip_height (lowest - 1) in
        let from_height := saturating_sub top_confirmed_height (blocks_to_sync - 1) in
        let* synced := sync_heights (range_inclusive from_height top_confirmed_height) in
        smodify (set_last_synced (Some tip_height)) ;;*
        sret synced.

(** [handle_new_blocks_sync_result]: a stale block means the window is on another
    chain, so it is dropped and rebuilt.  A panic of the sync task is re-raised by
    the [expect] on its join handle. *)
Definition handle_new_blocks_sync_result
    (r : result BitcoinCheckpointError (list SyncedCheckpointInfo)) :
    SM Synchronizer () SyncLoopControl :=
  match r with
  | Ok _ => sret WaitForNewBlock
  | Err (StaleBlockAdded _ _) =>
      smodify (λ s, mkSyncer (clear (checkpoints_chain s)) None (rpc_calls s)) ;;*
      sret Sync
  | Err _ => sret Sync
  | Panic => slift Panic
  end.

(** One turn of the loop of [sync]: the task's outcome, then its handling. *)
Definition sync_turn : SM Synchronizer () SyncLoopControl := λ s,
  let '(r, s') := sync_new_blocks s in handle_new_blocks_sync_result r s'.

(** ** The loop and its trigger channel

    The channel holds at most one message: [queued]. *)
Record SyncLoop := mkLoop { syncer : Synchronizer; queued : bool }.

(** [trigger_checkpoints_sync]: [try_send], skipped when the channel is full. *)
Definition trigger_checkpoints_sync (l : SyncLoop) : SyncLoop := mkLoop (syncer l) true.

Inductive StreamMessage :=
  | HashBlock (h : BlockHash)
  | OtherMessage
  | StreamEvent
  | StreamError.

(** One item of [handle_hash_block_stream_messages]. *)
Definition handle_stream_message (m : StreamMessage) (l : SyncLoop) : SyncLoop :=
  match m with
  | HashBlock _ => trigger_checkpoints_sync l
  | OtherMessage | StreamEvent | StreamError => l
  end.

(** The body of [while rx.recv().await.is_some()]. *)
Definition loop_turn (l : SyncLoop) : result () SyncLoop :=
  if queued l then
    match sync_turn (syncer l) with
    | (Ok WaitForNewBlock, s) => Ok (mkLoop s false)
    | (Ok Sync, s) => Ok (trigger_checkpoints_sync (mkLoop s false))
    | (_, _) => Panic
    end
  else Ok l.

(** Messages may arrive at any time, also while a turn runs: the channel then
    already has room, so the message is seen by the next turn. *)
Inductive loop_step : SyncLoop → SyncLoop → Prop :=
  | step_message m l : loop_step l (handle_stream_message m l)
  | step_turn l l' : queued l = true → loop_turn l = Ok l' → loop_step l l'.

(** [sync]: the loop starts with a trigger of its own. *)
Definition sync_start (s : Synchronizer) : SyncLoop :=
  trigger_checkpoints_sync (mkLoop s false).

End checkpoints.

Arguments BitcoinCheckpointError {_}.
