(* ===== verification/CheckpointsTheory.v ===== *)
(** * Theorems about the Bitcoin checkpoints

    Whatever bitcoind answers, the window stays a linked run of at most
    [size_limit] blocks.  Once bitcoind's chain is stable, the loop needs at most
    two turns for the window to hold, at every depth, exactly the block bitcoind
    has there. *)

From S2P Require Import Prelude Bitcoin Checkpoints.

(** Documented behaviour of bitcoind and of the hash: block counts are [u64], a
    header is returned under its own hash, the height of a block is a function of
    its hash, and headers do not collide. *)
Class CheckpointRpcLaws `{!HeaderHash, !CheckpointRpc} := {
  btc_height : BlockHash → Z;
  block_count_range n h : get_block_count n = Ok h → 0 ≤ h ≤ u64_max;
  header_of_hash n b hd : get_block_header n b = Ok hd → header_hash hd = b;
  height_of_hash n h b : get_block_hash n h = Ok b → btc_height b = h;
  header_hash_inj :: Inj (=) (=) header_hash;
}.

Section theory.
Context `{CheckpointRpcLaws}.
Implicit Types (c : BitcoinCheckpointsChain) (s : Synchronizer) (l : SyncLoop).

(** ** The window invariant *)

Definition linked (cps : list BitcoinCheckpoint) : Prop :=
  ∀ i a b, cps !! i = Some a → cps !! S i = Some b →
    hd_prev_blockhash (cp_header b) = cp_hash a.

(** The checkpoint of a header: its hash and its height. *)
Definition checkpoint_of (hd : Header) : BitcoinCheckpoint :=
  checkpoint_new hd (wrap32 (btc_height (header_hash hd))).

Record window_ok (c : BitcoinCheckpointsChain) : Prop := {
  wo_strong : 0 < window_start c ≤ strong_confirmation_depth c;
  wo_end : strong_confirmation_depth c ≤ window_end c ≤ u64_max;
  wo_size : size_limit c = window_end c - window_start c + 1;
  wo_len : len c ≤ size_limit c;
  wo_linked : linked (checkpoints c);
  wo_cps : Forall (λ cp, cp = checkpoint_of (cp_header cp)) (checkpoints c);
}.

(** The height of the newest block with the lowest depth, when the tip is at
    [tip]; zero when there is none. *)
Definition top_confirmed (lowest tip : Z) : Z := Z.max (tip + 1 - lowest) 0.

(** The synchronizer holds all the blocks its [last_synced_height] stands for, up
    to the size of the window. *)
Record syncer_ok (s : Synchronizer) : Prop := {
  so_window : window_ok (checkpoints_chain s);
  so_last : 0 ≤ default 0 (last_synced_height s) ≤ u64_max;
  so_filled : Z.min (top_confirmed (window_start (checkpoints_chain s))
                                   (default 0 (last_synced_height s)))
                    (size_limit (checkpoints_chain s)) ≤ len (checkpoints_chain s);
}.

(** Two windows with the same configuration. *)
Definition same_config (c c' : BitcoinCheckpointsChain) : Prop :=
  c' = set_checkpoints (checkpoints c') c.

Lemma same_config_refl c : same_config c c.
Proof. by destruct c. Qed.
Lemma same_config_trans c1 c2 c3 :
  same_config c1 c2 → same_config c2 c3 → same_config c1 c3.
Proof. unfold same_config. intros -> ->. done. Qed.

Lemma try_new_ok st hi we c :
  0 ≤ st → 0 ≤ hi → 0 ≤ we → try_new st hi we = Ok c →
  window_ok c ∧ checkpoints c = [] ∧ strong_confirmation_depth c = st ∧
  window_start c = st - we ∧ window_end c = st + hi.
Proof.
  intros Hst Hhi Hwe. unfold try_new. repeat (case_match; [done|]). bool_to_prop.
  intros Hc. rinv Hc. apply ok_or_ok, checked_add_some in E as [-> ?].
  apply ok_or_ok, bind_Some in E0 as (v & [-> ?]%checked_sub_some & [-> ?]%checked_add_some).
  injection Hc as <-. split; [|done].
  split; unfold size_limit, len, linked; simpl; try lia; [|constructor].
  intros ???. by rewrite lookup_nil.
Qed.

Lemma window_ok_clear c : window_ok c → window_ok (clear c).
Proof.
  intros []. split; unfold clear, size_limit, len in *; simpl in *; try lia; [|constructor].
  intros ???. by rewrite lookup_nil.
Qed.

Lemma linked_tail cps : linked cps → linked (tail cps).
Proof.
  intros Hl i a b. rewrite !lookup_tail. apply Hl.
Qed.
Lemma linked_snoc cps cp :
  linked cps → (∀ r, last cps = Some r → hd_prev_blockhash (cp_header cp) = cp_hash r) →
  linked (cps ++ [cp]).
Proof.
  intros Hl Hr i a b Ha Hb. destruct (decide (S i < length cps)%nat).
  - rewrite lookup_app_l in Ha, Hb by lia. eauto.
  - assert (S i = length cps) as Hi.
    { apply lookup_lt_Some in Hb. rewrite length_app in Hb. simpl in Hb. lia. }
    rewrite lookup_app_l in Ha by lia. rewrite lookup_app_r in Hb by lia.
    rewrite Hi, Nat.sub_diag in Hb. injection Hb as <-. apply Hr.
    rewrite last_lookup, <-Hi. done.
Qed.

(** The header continues the window. *)
Definition fits (hd : Header) (c : BitcoinCheckpointsChain) : Prop :=
  ∀ r, last (checkpoints c) = Some r → hd_prev_blockhash hd = cp_hash r.
Instance fits_dec hd c : Decision (fits hd c).
Proof.
  unfold fits. destruct (last (checkpoints c)) as [r|]; [|by left].
  destruct (decide (hd_prev_blockhash hd = cp_hash r)) as [He|He]; [left; congruence|right; auto].
Defined.

(** The window a push leaves: the oldest block makes room. *)
Definition kept c : list BitcoinCheckpoint :=
  if len c =? confirmation_window_size c then tail (checkpoints c) else checkpoints c.

Lemma kept_length c :
  window_ok c → Z.of_nat (length (kept c)) + 1 = Z.min (len c + 1) (size_limit c).
Proof.
  intros []. unfold kept, len, size_limit in *. case_match; bool_to_prop; [|lia].
  destruct (checkpoints c); simpl in *; lia.
Qed.

Lemma kept_linked cp c :
  linked (checkpoints c) → fits (cp_header cp) c → linked (kept c ++ [cp]).
Proof.
  intros Hl Hf. unfold kept, fits in *. case_match; [|by apply linked_snoc].
  destruct (checkpoints c) as [|x [|y cps]].
  - by apply (linked_snoc []).
  - intros [] a b; discriminate.
  - apply (linked_tail (x :: (y :: cps) ++ [cp])). rewrite app_comm_cons. by apply linked_snoc.
Qed.

(** A push extends a linked window, or refuses a block of another chain. *)
Lemma push_fits cp c :
  window_ok c → cp = checkpoint_of (cp_header cp) → fits (cp_header cp) c →
  ∃ c', push cp c = (Ok tt, c') ∧ window_ok c' ∧ same_config c c' ∧
    last (checkpoints c') = Some cp ∧ len c' = Z.min (len c + 1) (size_limit c).
Proof.
  intros Hc Hcp Hf. pose proof (kept_length c Hc) as Hk.
  exists (set_checkpoints (kept c ++ [cp]) c). split.
  { unfold push, sbind, sget, kept. unfold fits in Hf. destruct (last (checkpoints c)); [|done].
    rewrite bool_decide_false by (intros Hn; apply Hn; auto). done. }
  split_and!; [|done|apply last_snoc|unfold len in *; simpl; rewrite length_app; simpl; lia].
  destruct Hc. split; unfold size_limit, len in *; simpl in *; [lia..| | |].
  - rewrite length_app. simpl. lia.
  - by apply kept_linked.
  - apply Forall_app. split; [|by repeat constructor].
    unfold kept. case_match; [|done]. destruct wo_cps0; [constructor|done].
Qed.
Lemma push_stale cp c :
  ¬ fits (cp_header cp) c →
  ∃ r, push cp c = (Err (StaleBlockAdded (cp_hash r) (hd_prev_blockhash (cp_header cp))), c).
Proof.
  unfold fits, push, sbind, sget. intros Hf.
  destruct (last (checkpoints c)) as [r|] eqn:Hlast; [|by destruct Hf].
  exists r. rewrite bool_decide_true; [done|]. intros He. apply Hf. by intros r' [= <-].
Qed.

(** ** The synchronizer keeps the invariant, whatever bitcoind answers *)

(** One height: two calls and a push. *)
Definition sync_height (h : Z) : SM Synchronizer BitcoinCheckpointError SyncedCheckpointInfo :=
  let* b := rpc_call ProcBlockHash (λ n, get_block_hash n h) in
  let* hd := rpc_call ProcBlockHeader (λ n, get_block_header n b) in
  let cp := checkpoint_new hd (wrap32 h) in
  push_checkpoint cp ;;* sret (synced_info cp).

Lemma sync_heights_cons h hs s :
  sync_heights (h :: hs) s =
    (let* i := sync_height h in let* js := sync_heights hs in sret (i :: js)) s.
Proof.
  simpl. unfold sync_height, sbind.
  repeat (case_match; simplify_eq; try done).
Qed.

(** The state after [k] more calls with the same bookkeeping. *)
Definition evolves s s' : Prop :=
  same_config (checkpoints_chain s) (checkpoints_chain s') ∧
  last_synced_height s' = last_synced_height s ∧ (rpc_calls s ≤ rpc_calls s')%nat.

Lemma evolves_calls s n :
  (rpc_calls s ≤ n)%nat →
  evolves s (mkSyncer (checkpoints_chain s) (last_synced_height s) n).
Proof. intros. repeat split; [apply same_config_refl|done]. Qed.
Lemma evolves_refl s : evolves s s.
Proof. destruct s. by apply evolves_calls. Qed.
Lemma evolves_trans s1 s2 s3 : evolves s1 s2 → evolves s2 s3 → evolves s1 s3.
Proof.
  intros (? & ? & ?) (? & ? & ?). split_and!; [by eapply same_config_trans|congruence|lia].
Qed.

Lemma sync_height_spec h s r s' :
  window_ok (checkpoints_chain s) → sync_height h s = (r, s') →
  window_ok (checkpoints_chain s') ∧ evolves s s' ∧
  len (checkpoints_chain s') =
    (if is_ok r then Z.min (len (checkpoints_chain s) + 1) (size_limit (checkpoints_chain s))
     else len (checkpoints_chain s)).
Proof.
  intros Hs. unfold sync_height, sbind, rpc_call, push_checkpoint, zoom, sret.
  assert (∀ n, window_ok (checkpoints_chain s) ∧
    evolves s (mkSyncer (checkpoints_chain s) (last_synced_height s) (n + rpc_calls s)) ∧
    len (checkpoints_chain s) = len (checkpoints_chain s)) as Hn.
  { intros n. split_and!; [done|apply evolves_calls; lia|done]. }
  destruct (get_block_hash _ h) as [b| |] eqn:Hb; simpl;
    [|intros [= <- <-]; apply (Hn 1%nat)..].
  destruct (get_block_header _ b) as [hd| |] eqn:Hhd; simpl;
    [|intros [= <- <-]; apply (Hn 2%nat)..].
  pose proof (header_of_hash _ _ _ Hhd) as Hhash. pose proof (height_of_hash _ _ _ Hb) as Hheight.
  set (cp := checkpoint_new hd (wrap32 h)).
  assert (cp = checkpoint_of (cp_header cp)) as Hcp by (unfold cp, checkpoint_of; simpl; congruence).
  destruct (decide (fits (cp_header cp) (checkpoints_chain s))) as [Hf|Hf].
  - destruct (push_fits cp _ Hs Hcp Hf) as (c' & -> & Hw & Hc & _ & Hlen). simpl.
    intros [= <- <-]. split_and!; [done|split_and!|done]; [done..|simpl; lia].
  - destruct (push_stale cp _ Hf) as (r0 & ->). simpl. intros [= <- <-]. apply (Hn 2%nat).
Qed.

Lemma same_config_fields c c' :
  same_config c c' → size_limit c' = size_limit c ∧ window_start c' = window_start c.
Proof. unfold same_config. by intros ->. Qed.

Lemma sync_heights_spec hs s r s' :
  window_ok (checkpoints_chain s) → sync_heights hs s = (r, s') →
  window_ok (checkpoints_chain s') ∧ evolves s s' ∧
  len (checkpoints_chain s) ≤ len (checkpoints_chain s') ∧
  (is_ok r = true → len (checkpoints_chain s') =
     Z.min (len (checkpoints_chain s) + Z.of_nat (length hs)) (size_limit (checkpoints_chain s))).
Proof.
  revert s r s'. induction hs as [|h hs IH]; intros s r s' Hs.
  { intros [= <- <-]. pose proof (wo_len _ Hs). split_and!; [done|apply evolves_refl|lia|simpl; lia]. }
  rewrite sync_heights_cons. unfold sbind at 1.
  destruct (sync_height h s) as [r1 s1] eqn:Hr1.
  pose proof (wo_len _ Hs) as Hle. apply sync_height_spec in Hr1 as (Hw & Hev & Hlen); [|done].
  destruct r1 as [i|e|]; simpl in Hlen; [|intros [= <- <-]; split_and!; [done..|lia|done]..].
  unfold sbind. destruct (sync_heights hs s1) as [r2 s2] eqn:Hr2.
  apply IH in Hr2 as (Hw2 & Hev2 & Hle2 & Hlen2); [|done].
  destruct (same_config_fields _ _ (proj1 Hev)) as [Hsz _].
  assert (evolves s s2) by (by eapply evolves_trans).
  destruct r2; intros [= <- <-]; (split_and!; [done|done|lia|]); [|done..].
  intros _. rewrite Hlen2 by done. simpl length. lia.
Qed.

Lemma syncer_ok_calls s n :
  syncer_ok s → syncer_ok (mkSyncer (checkpoints_chain s) (last_synced_height s) n).
Proof. by intros []. Qed.

(** The numbers of a sync that has blocks to fetch. *)
Lemma sync_new_blocks_fetch s tip :
  syncer_ok s → get_block_count (rpc_calls s) = Ok tip → default 0 (last_synced_height s) < tip →
  window_start (checkpoints_chain s) ≤ tip →
  let c := checkpoints_chain s in
  let top := top_confirmed (window_start c) tip in
  let need := top - top_confirmed (window_start c) (default 0 (last_synced_height s)) in
  let from := top - Z.min need (size_limit c) + 1 in
  0 < need ∧ 0 < from ≤ top ∧
  sync_new_blocks s =
    (let* synced := sync_heights (range_inclusive from top) in
     smodify (set_last_synced (Some tip)) ;;* sret synced)
    (mkSyncer c (last_synced_height s) (S (rpc_calls s))).
Proof.
  intros [Hw Hl Hf] Hcount Hnew Hlow c. subst c. intros top need from.
  pose proof (block_count_range _ _ Hcount). destruct Hw.
  assert (0 < need) by (unfold need, top, top_confirmed; lia).
  assert (0 < size_limit (checkpoints_chain s)) by lia.
  assert (0 < from ≤ top) by (unfold from, need, top, top_confirmed in *; lia).
  split_and!; [lia..|]. unfold sync_new_blocks, sbind at 1, rpc_call. rewrite Hcount.
  cbn [map_err]. unfold sbind at 1, sget. cbn [checkpoints_chain last_synced_height].
  unfold lowest_confirmation_depth. rewrite (proj2 (Z.leb_gt _ _)) by lia.
  rewrite (proj2 (Z.ltb_ge _ _)) by lia. rewrite wrap64_small by lia.
  assert (saturating_sub (tip + 1 - window_start (checkpoints_chain s))
    (saturating_sub (saturating_add (default 0 (last_synced_height s)) 1) (window_start (checkpoints_chain s))) = need)
    as ->.
  { unfold need, top, top_confirmed, saturating_sub, saturating_add. lia. }
  rewrite (proj2 (Z.eqb_neq _ _)) by lia.
  replace (saturating_sub tip (window_start (checkpoints_chain s) - 1)) with top
    by (unfold top, top_confirmed, saturating_sub; lia).
  replace (saturating_sub top (Z.min need (size_limit (checkpoints_chain s)) - 1)) with from; [done|].
  unfold from, saturating_sub. lia.
Qed.

(** The other outcomes of a sync: a failed call, nothing new, a chain too young. *)
Lemma sync_new_blocks_idle s r s' :
  syncer_ok s → sync_new_blocks s = (r, s') →
  match get_block_count (rpc_calls s) with
  | Ok tip =>
      (tip ≤ default 0 (last_synced_height s) →
         r = Ok [] ∧ s' = mkSyncer (checkpoints_chain s) (last_synced_height s) (S (rpc_calls s))) ∧
      (default 0 (last_synced_height s) < tip < window_start (checkpoints_chain s) →
         r = Ok [] ∧ s' = mkSyncer (checkpoints_chain s) (Some tip) (S (rpc_calls s)))
  | Err e => r = Err (SyncRpcError e ProcBlockCount) ∧
             s' = mkSyncer (checkpoints_chain s) (last_synced_height s) (S (rpc_calls s))
  | Panic => r = Panic ∧
             s' = mkSyncer (checkpoints_chain s) (last_synced_height s) (S (rpc_calls s))
  end.
Proof.
  intros Hs. unfold sync_new_blocks, sbind at 1, rpc_call, sget.
  destruct (get_block_count _) as [tip| |]; cbn [map_err]; [|by intros [= <- <-]..].
  unfold sbind at 1. cbn [checkpoints_chain last_synced_height].
  intros Hr. split; intros Htip.
  - rewrite (proj2 (Z.leb_le _ _)) in Hr by lia. by injection Hr as <- <-.
  - unfold lowest_confirmation_depth in Hr. rewrite (proj2 (Z.leb_gt _ _)) in Hr by lia.
    rewrite (proj2 (Z.ltb_lt _ _)) in Hr by lia. by injection Hr as <- <-.
Qed.

Lemma syncer_ok_evolves s s' :
  syncer_ok s → evolves s s' → window_ok (checkpoints_chain s') →
  len (checkpoints_chain s) ≤ len (checkpoints_chain s') → syncer_ok s'.
Proof.
  intros [_ Hl Hf] (Hc & Hlast & _) Hw Hlen. split; [done|by rewrite Hlast|].
  destruct (same_config_fields _ _ Hc) as [-> ->]. rewrite Hlast. lia.
Qed.

Lemma length_range_inclusive a b : a ≤ b + 1 → Z.of_nat (length (range_inclusive a b)) = b - a + 1.
Proof. intros. unfold range_inclusive. rewrite length_seqZ. lia. Qed.

(** A sync keeps the invariant whatever its outcome. *)
Lemma sync_new_blocks_ok s r s' :
  syncer_ok s → sync_new_blocks s = (r, s') → syncer_ok s'.
Proof.
  intros Hs Hrun. pose proof (sync_new_blocks_idle _ _ _ Hs Hrun) as Hidle.
  destruct (get_block_count (rpc_calls s)) as [tip| |] eqn:Hcount;
    [|destruct Hidle as [_ ->]; by apply syncer_ok_calls..].
  pose proof (block_count_range _ _ Hcount) as Hrange. destruct Hidle as [Hold Hyoung].
  destruct (decide (tip ≤ default 0 (last_synced_height s))).
  { destruct Hold as [_ ->]; [done|]. by apply syncer_ok_calls. }
  destruct (decide (tip < window_start (checkpoints_chain s))).
  { destruct Hyoung as [_ ->]; [lia|]. destruct Hs. split; simpl; [done|lia|].
    unfold top_confirmed, len in *. destruct so_window0. lia. }
  pose proof (sync_new_blocks_fetch s tip Hs Hcount ltac:(lia) ltac:(lia)) as Hfetch.
  cbv zeta in Hfetch. destruct Hfetch as (Hneed & Hfrom & Heq).
  rewrite Heq in Hrun. unfold sbind at 1 in Hrun. clear Heq.
  set (hs := range_inclusive _ _) in Hrun.
  set (s0 := mkSyncer _ _ (S _)) in Hrun.
  assert (syncer_ok s0) as Hs0 by (by apply syncer_ok_calls).
  destruct (sync_heights hs s0) as [r1 s1] eqn:Hhs.
  apply sync_heights_spec in Hhs as (Hw & Hev & Hle & Hlen); [|apply Hs0].
  assert (syncer_ok s1) as Hs1 by (by eapply syncer_ok_evolves).
  destruct r1 as [infos| |]; [|by injection Hrun as <- <-..].
  injection Hrun as <- <-. specialize (Hlen eq_refl).
  unfold hs in Hlen. rewrite length_range_inclusive in Hlen by lia.
  destruct (same_config_fields _ _ (proj1 Hev)) as [Hsz Hst]. simpl in Hsz, Hst.
  split; simpl; [apply Hs1|lia|]. rewrite Hst, Hsz, Hlen. destruct Hs.
  assert (0 ≤ len (checkpoints_chain s)) by (unfold len; lia). simpl. lia.
Qed.

Lemma syncer_ok_reset s n :
  syncer_ok s → syncer_ok (mkSyncer (clear (checkpoints_chain s)) None n).
Proof.
  intros [Hw _ _]. split; simpl; [by apply window_ok_clear|unfold u64_max; lia|].
  destruct Hw. unfold top_confirmed, len, clear, size_limit in *. simpl. lia.
Qed.

(** A turn keeps the invariant: a stale block empties the window. *)
Lemma sync_turn_ok s r s' : syncer_ok s → sync_turn s = (r, s') → syncer_ok s'.
Proof.
  intros Hs. unfold sync_turn. destruct (sync_new_blocks s) as [r1 s1] eqn:Hrun.
  apply sync_new_blocks_ok in Hrun; [|done].
  destruct r1 as [|[]|]; simpl; intros [= <- <-]; try done. by apply syncer_ok_reset.
Qed.

Lemma loop_step_ok l l' : syncer_ok (syncer l) → loop_step l l' → syncer_ok (syncer l').
Proof.
  intros Hl. destruct 1 as [m l|l l' Hq Hturn]; [by destruct m|].
  unfold loop_turn in Hturn. rewrite Hq in Hturn.
  destruct (sync_turn (syncer l)) as [r s] eqn:Hrun. apply sync_turn_ok in Hrun; [|done].
  destruct r as [[]| |]; simplify_eq; done.
Qed.

(** The states the loop can reach from a configured, empty window. *)
Definition started (st hi we : Z) (calls : nat) (l : SyncLoop) : Prop :=
  0 ≤ st ∧ 0 ≤ hi ∧ 0 ≤ we ∧
  ∃ c, try_new st hi we = Ok c ∧ l = sync_start (synchronizer_new c calls).
Definition reachable st hi we calls l : Prop :=
  ∃ l0, started st hi we calls l0 ∧ rtc loop_step l0 l.

Lemma synchronizer_new_ok c calls :
  window_ok c → checkpoints c = [] → syncer_ok (synchronizer_new c calls).
Proof.
  intros Hw Hc. unfold synchronizer_new, recent_height. rewrite Hc. simpl.
  destruct Hw. split; simpl; [done|unfold u64_max; lia|].
  unfold top_confirmed, len in *. rewrite Hc. simpl. unfold lowest_confirmation_depth. lia.
Qed.

Lemma reachable_ok st hi we calls l : reachable st hi we calls l → syncer_ok (syncer l).
Proof.
  intros (l0 & (? & ? & ? & c & Hc & ->) & Hsteps).
  assert (syncer_ok (syncer (sync_start (synchronizer_new c calls)))) as H0'.
  { apply try_new_ok in Hc as (? & ? & _); [|done..]. by apply synchronizer_new_ok. }
  revert H0'. induction Hsteps as [|l1 l2 l3 Hstep _ IH]; [done|].
  intros Hl. apply IH. by eapply loop_step_ok.
Qed.

(** ** A stable bitcoind *)

(** From call [n0] on, bitcoind answers from one chain of headers, genesis first. *)
Record stable (chain : list Header) (n0 : nat) : Prop := {
  st_count n : (n0 ≤ n)%nat → get_block_count n = Ok (Z.of_nat (length chain) - 1);
  st_hash n h hd : (n0 ≤ n)%nat → 0 ≤ h → chain !! Z.to_nat h = Some hd →
    get_block_hash n h = Ok (header_hash hd);
  st_header n hd : (n0 ≤ n)%nat → hd ∈ chain → get_block_header n (header_hash hd) = Ok hd;
  st_linked i a b : chain !! i = Some a → chain !! S i = Some b →
    hd_prev_blockhash b = header_hash a;
}.

(** The window shows, at every depth it covers, the block of the chain there. *)
Definition window_exact (chain : list Header) c : Prop :=
  ∀ d, window_start c ≤ d ≤ window_end c → d < Z.of_nat (length chain) →
  let h := Z.of_nat (length chain) - d in
  ∃ hd, chain !! Z.to_nat h = Some hd ∧
        get_by_confirmation_depth d c = Some (checkpoint_new hd (wrap32 h)).

Section stable.
Context (chain : list Header) (n0 : nat) (Hst : stable chain n0).

Lemma stable_checkpoint h hd :
  0 ≤ h → chain !! Z.to_nat h = Some hd → checkpoint_new hd (wrap32 h) = checkpoint_of hd.
Proof using Hst.
  intros Hh Hhd. unfold checkpoint_of. pose proof (st_hash _ _ Hst n0 h hd ltac:(done) Hh Hhd) as He.
  apply height_of_hash in He. congruence.
Qed.

Lemma sync_height_stable h hd s :
  (n0 ≤ rpc_calls s)%nat → window_ok (checkpoints_chain s) → 0 ≤ h →
  chain !! Z.to_nat h = Some hd →
  if decide (fits hd (checkpoints_chain s)) then
    ∃ i s', sync_height h s = (Ok i, s') ∧
      last (checkpoints (checkpoints_chain s')) = Some (checkpoint_of hd)
  else ∃ e r s', sync_height h s = (Err (StaleBlockAdded e r), s').
Proof using Hst.
  intros Hn Hw Hh Hhd. unfold sync_height, sbind, rpc_call, push_checkpoint, zoom, sret.
  rewrite (st_hash _ _ Hst _ h hd) by done.
  cbn [map_err rpc_calls checkpoints_chain last_synced_height].
  rewrite (st_header _ _ Hst (S (rpc_calls s)) hd) by (by eauto using list_elem_of_lookup_2 || lia).
  cbn [map_err rpc_calls checkpoints_chain last_synced_height].
  rewrite (stable_checkpoint h hd) by done.
  case_decide as Hf.
  - destruct (push_fits (checkpoint_of hd) _ Hw eq_refl Hf) as (c' & -> & _ & _ & Hl & _). eauto.
  - destruct (push_stale (checkpoint_of hd) _ Hf) as (r & ->). eauto.
Qed.

Lemma sync_heights_stable k h hd s :
  (n0 ≤ rpc_calls s)%nat → window_ok (checkpoints_chain s) → 0 ≤ h →
  chain !! Z.to_nat h = Some hd → h + Z.of_nat k < Z.of_nat (length chain) →
  if decide (fits hd (checkpoints_chain s)) then
    ∃ infos s' top, sync_heights (seqZ h (Z.of_nat (S k))) s = (Ok infos, s') ∧
      chain !! Z.to_nat (h + Z.of_nat k) = Some top ∧
      last (checkpoints (checkpoints_chain s')) = Some (checkpoint_of top)
  else ∃ e r s', sync_heights (seqZ h (Z.of_nat (S k))) s = (Err (StaleBlockAdded e r), s').
Proof using Hst.
  revert h hd s. induction k as [|k IH]; intros h hd s Hn Hw Hh Hhd Hk;
    rewrite seqZ_cons, sync_heights_cons by lia;
    pose proof (sync_height_stable h hd s Hn Hw Hh Hhd) as Hfirst; case_decide;
    unfold sbind at 1.
  - destruct Hfirst as (i & s1 & -> & Hl). exists [i], s1, hd.
    rewrite Z.add_0_r. done.
  - destruct Hfirst as (e & r & s1 & ->). eauto.
  - destruct Hfirst as (i & s1 & Hrun & Hl). rewrite Hrun.
    apply sync_height_spec in Hrun as (Hw1 & (_ & _ & Hcalls) & _); [|done].
    destruct (lookup_lt_is_Some_2 chain (Z.to_nat (Z.succ h))) as [hd' Hhd']; [lia|].
    assert (fits hd' (checkpoints_chain s1)) as Hf'.
    { intros r. rewrite Hl. intros [= <-]. simpl. apply (st_linked _ _ Hst (Z.to_nat h)); [done|].
      by rewrite <-Z2Nat.inj_succ. }
    pose proof (IH (Z.succ h) hd' s1 ltac:(lia) Hw1 ltac:(lia) Hhd' ltac:(lia)) as Hrest.
    rewrite decide_True in Hrest by done. destruct Hrest as (infos & s2 & top & Hrun2 & Htop & Hl2).
    exists (i :: infos), s2, top. unfold sbind. replace (Z.pred (Z.of_nat (S (S k)))) with (Z.of_nat (S k)) by lia.
    rewrite Hrun2. split_and!; [done| |done].
    by replace (h + Z.of_nat (S k)) with (Z.succ h + Z.of_nat k) by lia.
  - destruct Hfirst as (e & r & s1 & ->). eauto.
Qed.

(** A linked window whose newest block is on the chain is on the chain. *)
Lemma linked_on_chain cps j i :
  linked cps → Forall (λ cp, cp = checkpoint_of (cp_header cp)) cps →
  checkpoint_of <$> chain !! j = last cps → (i < length cps)%nat → (i ≤ j)%nat →
  cps !! (length cps - 1 - i)%nat = checkpoint_of <$> chain !! (j - i)%nat.
Proof using Hst.
  intros Hlk Hcps Hlast. induction i as [|i IH]; intros Hi Hj.
  { rewrite !Nat.sub_0_r, Hlast, last_lookup. f_equal. lia. }
  specialize (IH ltac:(lia) ltac:(lia)).
  replace (length cps - 1 - i)%nat with (S (length cps - 1 - S i)) in IH by lia.
  replace (j - i)%nat with (S (j - S i)) in IH by lia.
  destruct (lookup_lt_is_Some_2 cps (length cps - 1 - S i)) as [cp Hcp]; [lia|].
  destruct (lookup_lt_is_Some_2 cps (S (length cps - 1 - S i))) as [cp' Hcp']; [lia|].
  rewrite Hcp' in IH. destruct (chain !! S (j - S i)) as [hd'|] eqn:Hhd'; [|done].
  injection IH as ->. destruct (lookup_lt_is_Some_2 chain (j - S i)) as [hd Hhd].
  { apply lookup_lt_Some in Hhd'. lia. }
  pose proof (Hlk _ _ _ Hcp Hcp') as Hprev. simpl in Hprev.
  rewrite (st_linked _ _ Hst _ _ _ Hhd Hhd') in Hprev.
  pose proof (Forall_lookup_1 _ _ _ _ Hcps Hcp) as Hcpv. simpl in Hcpv.
  rewrite Hcpv in Hprev. simpl in Hprev. apply (inj header_hash) in Hprev.
  rewrite Hcp, Hhd. simpl. by rewrite Hcpv, Hprev.
Qed.

(** A filled window whose newest block is the newest confirmed one is exact. *)
Lemma window_exact_intro c top :
  window_ok c → let t := Z.of_nat (length chain) - window_start c in
  chain !! Z.to_nat t = Some top → last (checkpoints c) = Some (checkpoint_of top) →
  Z.min t (size_limit c) ≤ len c → window_exact chain c.
Proof using Hst.
  intros Hw t Ht Hlast Hfill d Hd Hdl h. unfold len in *. destruct Hw.
  destruct (lookup_lt_is_Some_2 chain (Z.to_nat h)) as [hd Hhd]; [unfold h; lia|].
  exists hd. split; [done|]. unfold get_by_confirmation_depth, is_empty, len.
  assert (0 < Z.of_nat (length (checkpoints c)) ∧ d - window_start c < Z.of_nat (length (checkpoints c)))
    as [Hpos Hidx] by lia.
  rewrite (proj2 (Z.leb_le _ _)), (proj2 (Z.leb_le d _)) by lia. simpl.
  rewrite bool_decide_false by (intros He; rewrite He in Hpos; done).
  rewrite (proj2 (Z.leb_gt _ _)) by lia.
  rewrite (stable_checkpoint h hd) by (done || unfold h; lia).
  replace (Z.to_nat _) with (length (checkpoints c) - 1 - Z.to_nat (d - window_start c))%nat by lia.
  rewrite (linked_on_chain _ (Z.to_nat t)) by (done || (by rewrite Ht, Hlast) || lia).
  replace (Z.to_nat t - Z.to_nat (d - window_start c))%nat with (Z.to_nat h) by lia.
  by rewrite Hhd.
Qed.
End stable.

(** ** Convergence *)

Lemma fits_empty hd c : checkpoints c = [] → fits hd c.
Proof. unfold fits. by intros ->. Qed.

(** A sync against a stable chain with news ends exact, or finds the window on
    another chain. *)
Lemma sync_new_blocks_stable chain n0 s :
  stable chain n0 → syncer_ok s → (n0 ≤ rpc_calls s)%nat →
  default 0 (last_synced_height s) < Z.of_nat (length chain) - 1 →
  (∃ infos s', sync_new_blocks s = (Ok infos, s') ∧
     last_synced_height s' = Some (Z.of_nat (length chain) - 1) ∧
     window_exact chain (checkpoints_chain s')) ∨
  (∃ e r s', sync_new_blocks s = (Err (StaleBlockAdded e r), s') ∧ (n0 ≤ rpc_calls s')%nat ∧
     checkpoints (checkpoints_chain s) ≠ []).
Proof.
  intros Hst Hs Hn Hnew. set (tip := Z.of_nat (length chain) - 1) in *.
  pose proof (st_count _ _ Hst _ Hn) as Hcount. fold tip in Hcount.
  destruct (sync_new_blocks s) as [r s'] eqn:Hrun.
  pose proof (sync_new_blocks_ok _ _ _ Hs Hrun) as Hs'.
  destruct (decide (tip < window_start (checkpoints_chain s))) as [Hyoung|Hold].
  { left. pose proof (sync_new_blocks_idle _ _ _ Hs Hrun) as Hidle. rewrite Hcount in Hidle.
    destruct Hidle as [_ [-> ->]]; [lia|]. exists [], (mkSyncer (checkpoints_chain s) (Some tip) (S (rpc_calls s))).
    split_and!; [done..|]. intros d Hd. simpl in *. lia. }
  destruct (sync_new_blocks_fetch s tip Hs Hcount Hnew ltac:(lia)) as (Hneed & Hfrom & Heq).
  cbv zeta in *. set (top := top_confirmed _ tip) in *. set (from := top - _ + 1) in *.
  assert (top = Z.of_nat (length chain) - window_start (checkpoints_chain s)) as Htop
    by (unfold top, top_confirmed; lia).
  pose proof (wo_strong _ (so_window _ Hs)) as Hws.
  destruct (lookup_lt_is_Some_2 chain (Z.to_nat from)) as [hd Hhd]; [lia|].
  rewrite Heq in Hrun. clear Heq. unfold sbind at 1, range_inclusive in Hrun.
  set (s0 := mkSyncer _ _ (S _)) in Hrun.
  pose proof (sync_heights_stable chain n0 Hst (Z.to_nat (top - from)) from hd s0 ltac:(simpl; lia)
                (so_window _ Hs) ltac:(lia) Hhd ltac:(lia)) as Hheights.
  replace (Z.of_nat (S (Z.to_nat (top - from)))) with (top - from + 1) in Hheights by lia.
  case_decide as Hf.
  - left. destruct Hheights as (infos & s1 & hd' & Hrun1 & Hhd' & Hlast). rewrite Hrun1 in Hrun.
    injection Hrun as <- <-. exists infos, (set_last_synced (Some tip) s1). split_and!; [done..|].
    apply sync_heights_spec in Hrun1 as (_ & (Hcfg & _) & _); [|apply Hs].
    destruct (same_config_fields _ _ Hcfg) as [_ Hstart]. destruct Hs' as [Hw' _ Hfill].
    simpl in *. apply (window_exact_intro chain n0 Hst _ hd'); [done| |done|].
    + rewrite Hstart, <-Htop. by replace top with (from + Z.of_nat (Z.to_nat (top - from))) by lia.
    + rewrite Hstart, <-Htop in *. fold top in Hfill. lia.
  - right. destruct Hheights as (e & r1 & s1 & Hrun1). rewrite Hrun1 in Hrun.
    injection Hrun as <- <-. apply sync_heights_spec in Hrun1 as (_ & (_ & _ & Hcalls) & _); [|apply Hs].
    exists e, r1, s1. split_and!; [done|simpl in *; lia|]. intros He. by apply Hf, fits_empty.
Qed.

(** C26. Liveness of the checkpoints: once bitcoind's chain is stable and longer than
    what the synchronizer has seen, a triggered loop stops after at most two turns,
    and its window then shows at every depth it covers exactly the block, and the
    height, that bitcoind's chain has there.  This holds from any reachable state:
    after reorganisations, failed calls and interrupted syncs alike. *)
Theorem checkpoints_converge st hi we calls l chain n0 :
  reachable st hi we calls l → stable chain n0 → (n0 ≤ rpc_calls (syncer l))%nat →
  queued l = true →
  default 0 (last_synced_height (syncer l)) < Z.of_nat (length chain) - 1 →
  ∃ l', (loop_turn l = Ok l' ∨ ∃ l1, loop_turn l = Ok l1 ∧ loop_turn l1 = Ok l') ∧
    queued l' = false ∧ last_synced_height (syncer l') = Some (Z.of_nat (length chain) - 1) ∧
    window_exact chain (checkpoints_chain (syncer l')).
Proof.
  intros Hl%reachable_ok Hst Hn Hq Hnew. unfold loop_turn at 1 2. rewrite Hq.
  unfold sync_turn. destruct (sync_new_blocks_stable _ _ _ Hst Hl Hn Hnew)
    as [(infos & s' & Hrun & Hlast & Hex)|(e & r & s' & Hrun & Hn' & _)]; rewrite Hrun; simpl.
  { exists (mkLoop s' false). eauto. }
  pose proof (syncer_ok_reset _ (rpc_calls s') (sync_new_blocks_ok _ _ _ Hl Hrun)) as Hs2.
  destruct (sync_new_blocks_stable _ _ _ Hst Hs2) as [(infos & s2 & Hrun2 & Hlast & Hex)|
    (e2 & r2 & s2 & _ & _ & Hne)]; [done| | |done].
  { simpl. pose proof (so_last _ Hl). lia. }
  exists (mkLoop s2 false). split_and!; [|done..]. right.
  exists (mkLoop (mkSyncer (clear (checkpoints_chain s')) None (rpc_calls s')) true).
  split; [done|]. unfold loop_turn, sync_turn. simpl. by rewrite Hrun2.
Qed.

(** ** The configuration never changes *)

Instance same_config_preorder : PreOrder same_config.
Proof. split; [exact same_config_refl|exact same_config_trans]. Qed.
Definition keeps_config s s' : Prop := same_config (checkpoints_chain s) (checkpoints_chain s').
Instance keeps_config_preorder : PreOrder keeps_config.
Proof. split; [intros s; apply same_config_refl|intros s1 s2 s3; apply same_config_trans]. Qed.

Lemma push_keeps cp : guarantees same_config (push cp).
Proof. unfold push. guarantees_tac. apply guarantees_modify. by intros []. Qed.
Lemma push_checkpoint_keeps cp : guarantees keeps_config (push_checkpoint cp).
Proof. apply guarantees_zoom. intros s x <-. apply push_keeps. Qed.
Lemma rpc_call_keeps {A} p (f : nat → result JsonRPCError A) : guarantees keeps_config (rpc_call p f).
Proof. intros s. apply same_config_refl. Qed.
Hint Resolve push_checkpoint_keeps rpc_call_keeps : macbeth.
Lemma sync_heights_keeps hs : guarantees keeps_config (sync_heights hs).
Proof. induction hs; simpl; guarantees_tac. Qed.
Hint Resolve sync_heights_keeps : macbeth.
Lemma set_last_synced_keeps h :
  guarantees keeps_config (smodify (E := BitcoinCheckpointError) (set_last_synced h)).
Proof. apply guarantees_modify. intros s. apply same_config_refl. Qed.
Hint Resolve set_last_synced_keeps : macbeth.
Lemma sync_new_blocks_keeps : guarantees keeps_config sync_new_blocks.
Proof. unfold sync_new_blocks. guarantees_tac. Qed.

Lemma loop_step_keeps l l' :
  loop_step l l' → same_config (checkpoints_chain (syncer l)) (checkpoints_chain (syncer l')).
Proof.
  destruct 1 as [m l|l l' Hq Hturn]; [destruct m; apply same_config_refl|].
  unfold loop_turn in Hturn. rewrite Hq in Hturn.
  pose proof (sync_new_blocks_keeps (syncer l)) as Hkeep.
  unfold keeps_config, sync_turn in *. destruct (sync_new_blocks (syncer l)) as [[|[]|] s'];
    simpl in *; simplify_eq; simpl; first [done|unfold same_config in *; by rewrite Hkeep].
Qed.

Lemma reachable_config st hi we calls l :
  reachable st hi we calls l →
  ∃ c, try_new st hi we = Ok c ∧ 0 ≤ st ∧ 0 ≤ hi ∧ 0 ≤ we ∧
       same_config c (checkpoints_chain (syncer l)).
Proof.
  intros (l0 & (? & ? & ? & c & Hc & ->) & Hsteps). exists c. split_and!; [done..|].
  change c with (checkpoints_chain (syncer (sync_start (synchronizer_new c calls)))) at 1.
  induction Hsteps as [|l1 l2 l3 Hstep _ IH]; [done|].
  etrans; [by apply loop_step_keeps|done].
Qed.

Lemma get_by_depth_lookup d c cp :
  get_by_confirmation_depth d c = Some cp →
  window_start c ≤ d ≤ window_end c ∧ d - window_start c < len c ∧
  checkpoints c !! Z.to_nat (len c - 1 - (d - window_start c)) = Some cp.
Proof.
  unfold get_by_confirmation_depth. intros Hd. repeat (case_match; try done).
  bool_to_prop. auto with lia.
Qed.

(** Safety of the checkpoints, whichever chain bitcoind reports at each call and
    whatever calls fail: in every reachable
    state the window holds at most [size_limit] blocks, each the parent of the next
    under the hash the window caches, the configured depths are unchanged, and the
    checkpoint of a greater depth is an ancestor of the one just above it. *)
Theorem checkpoints_window_safe st hi we calls l :
  reachable st hi we calls l →
  let c := checkpoints_chain (syncer l) in
  len c ≤ hi + we + 1 ∧ size_limit c = hi + we + 1 ∧ strong_confirmation_depth c = st ∧
  Forall (λ cp, cp_hash cp = header_hash (cp_header cp)) (checkpoints c) ∧
  ∀ d cp cp', get_by_confirmation_depth d c = Some cp →
    get_by_confirmation_depth (d + 1) c = Some cp' →
    hd_prev_blockhash (cp_header cp) = cp_hash cp'.
Proof.
  intros Hl c. pose proof (so_window _ (reachable_ok _ _ _ _ _ Hl)) as Hw. fold c in Hw.
  destruct (reachable_config _ _ _ _ _ Hl) as (c0 & Hc0 & ? & ? & ? & Hcfg). fold c in Hcfg.
  apply try_new_ok in Hc0 as (Hw0 & _ & Hst & Hfrom & Hto); [|done..].
  pose proof (wo_size _ Hw0) as Hsz. pose proof (wo_len _ Hw) as Hlen.
  destruct (same_config_fields _ _ Hcfg) as [Hlim Hstart].
  split_and!; [lia|lia|by rewrite Hcfg| |].
  - eapply Forall_impl; [apply (wo_cps _ Hw)|]. by intros cp ->.
  - intros d cp cp' (Hd & Hi & Hcp)%get_by_depth_lookup (_ & Hi' & Hcp')%get_by_depth_lookup.
    apply (wo_linked _ Hw (Z.to_nat (len c - 1 - (d + 1 - window_start c)))); [done|].
    rewrite <-Hcp. f_equal. lia.
Qed.

(** A synchronizer resumed on a window whose newest block has height [h] takes the tip
    to be one block further than it was: when the next block arrives it does nothing,
    although the block at height [h + 1] now has the lowest depth. *)
Lemma resumed_syncer_misses_block c h calls :
  window_ok c → recent_height c = Some h → 0 ≤ h →
  h + window_start c ≤ u64_max → get_block_count calls = Ok (h + window_start c) →
  top_confirmed (window_start c) (h + window_start c) = h + 1 ∧
  sync_new_blocks (synchronizer_new c calls) =
    (Ok [], mkSyncer c (Some (h + window_start c)) (S calls)).
Proof.
  intros Hw Hh Hpos Hmax Hcount. pose proof (wo_strong _ Hw).
  split; [unfold top_confirmed; lia|].
  unfold synchronizer_new, lowest_confirmation_depth. rewrite Hh. simpl.
  rewrite wrap64_small by lia. unfold sync_new_blocks, sbind, rpc_call, sget. simpl.
  rewrite Hcount. simpl. by rewrite Z.leb_refl.
Qed.

End theory.

(** ** A bitcoind that reorganises *)

Module CheckpointSample.

(** An injective hash: the fields, with the length of the first variable one. *)
#[local] Instance sample_hash : HeaderHash := λ hd,
  hd_version hd :: hd_time hd :: hd_bits hd :: hd_nonce hd ::
  Z.of_nat (length (hd_prev_blockhash hd)) :: hd_prev_blockhash hd ++ hd_merkle_root hd.

Lemma sample_hash_inj : Inj (=) (=) sample_hash.
Proof.
  intros [] [] [= -> -> -> -> Hlen Happ]; simpl in *.
  apply app_inj_1 in Happ as [-> ->]; [done|lia].
Qed.

(** The block of a branch at a height. *)
Definition child (branch : Z) (parent : Header) : Header :=
  {| hd_version := branch; hd_prev_blockhash := header_hash parent; hd_merkle_root := [];
     hd_time := hd_time parent + 1; hd_bits := 0; hd_nonce := 0 |}.
Definition genesis : Header :=
  {| hd_version := 0; hd_prev_blockhash := []; hd_merkle_root := []; hd_time := 0;
     hd_bits := 0; hd_nonce := 0 |}.
Definition branch (b : Z) (n : nat) : list Header :=
  (λ i, Nat.iter i (child b) genesis) <$> seq 0 n.

(** Five calls on a branch of three blocks, then a branch of four. *)
Definition chain_at (n : nat) : list Header :=
  if (n <? 5)%nat then branch 1 3 else branch 2 4.

#[local] Instance sample_rpc : CheckpointRpc := {|
  JsonRPCError := unit;
  get_block_count n := Ok (Z.of_nat (length (chain_at n)) - 1);
  get_block_hash n h :=
    if h <? 0 then Err tt
    else match chain_at n !! Z.to_nat h with Some hd => Ok (header_hash hd) | None => Err tt end;
  get_block_header n b :=
    match list_find (λ hd, header_hash hd = b) (chain_at n) with
    | Some (_, hd) => Ok hd | None => Err tt end;
|}.

Lemma branch_time b n i hd : branch b n !! i = Some hd → hd_time hd = Z.of_nat i.
Proof.
  unfold branch. rewrite list_lookup_fmap. intros (j & Hj & ->)%fmap_Some.
  apply lookup_seq in Hj as [-> _]. simpl. induction i as [|i IH]; [done|]. simpl in *. lia.
Qed.
Lemma chain_at_time n i hd : chain_at n !! i = Some hd → hd_time hd = Z.of_nat i.
Proof. unfold chain_at. case_match; apply branch_time. Qed.

#[local] Program Instance sample_laws : CheckpointRpcLaws := {|
  btc_height b := nth 1 b 0;
  header_hash_inj := sample_hash_inj;
|}.
Next Obligation.
  intros n h [= <-]. unfold chain_at. case_match; simpl; unfold u64_max; lia.
Qed.
Next Obligation.
  intros n b hd. simpl. case_match eqn:Hf; [|done]. case_match. intros [= <-].
  by apply list_find_Some in Hf as (_ & ? & _).
Qed.
Next Obligation.
  intros n h b. simpl. case_match eqn:Hh; [done|]. bool_to_prop.
  case_match eqn:Hl; [|done]. intros [= <-]. apply chain_at_time in Hl. simpl. lia.
Qed.

Lemma sample_stable : stable (branch 2 4) 5.
Proof.
  split.
  - intros n Hn. simpl. unfold chain_at. by rewrite (proj2 (Nat.ltb_ge _ _)).
  - intros n h hd Hn Hh Hhd. simpl. unfold chain_at.
    rewrite (proj2 (Z.ltb_ge _ _)), (proj2 (Nat.ltb_ge _ _)) by done. by rewrite Hhd.
  - intros n hd Hn Hhd. simpl. unfold chain_at. rewrite (proj2 (Nat.ltb_ge _ _)) by done.
    destruct (list_find_elem_of (λ x, header_hash x = header_hash hd) _ hd Hhd eq_refl)
      as [[i hd'] Hf].
    rewrite Hf. apply list_find_Some in Hf as (_ & He & _).
    apply (inj header_hash) in He. by rewrite He.
  - intros i a b Ha Hb. do 3 (destruct i as [|i]; [injection Ha as <-; injection Hb as <-; done|]).
    apply lookup_lt_Some in Hb. simpl in Hb. lia.
Qed.

(** The loop after its first turn, on the first branch, and a new block message. *)
Definition first_turn : SyncLoop :=
  match try_new 2 1 1 with
  | Ok c => match loop_turn (sync_start (synchronizer_new c 0)) with
            | Ok l => handle_stream_message (HashBlock []) l | _ => sync_start (synchronizer_new c 0)
            end
  | _ => sync_start (synchronizer_new (mkChain 0 [] 0 0 0) 0)
  end.

Lemma first_turn_reachable : reachable 2 1 1 0 first_turn.
Proof.
  eexists. split.
  { split_and!; [lia..|]. eexists. split; [vm_compute; reflexivity|reflexivity]. }
  eapply rtc_l; [apply step_turn; [reflexivity|vm_compute; reflexivity]|].
  eapply rtc_l; [apply (step_message (HashBlock []))|]. vm_compute. apply rtc_refl.
Qed.

Lemma checkpoints_converge_witness :
  ∃ l', (loop_turn first_turn = Ok l' ∨
         ∃ l1, loop_turn first_turn = Ok l1 ∧ loop_turn l1 = Ok l') ∧
    queued l' = false ∧ last_synced_height (syncer l') = Some 3 ∧
    window_exact (branch 2 4) (checkpoints_chain (syncer l')).
Proof.
  apply (checkpoints_converge 2 1 1 0 first_turn (branch 2 4) 5);
    [apply first_turn_reachable|apply sample_stable|decide_vm|reflexivity|vm_compute; reflexivity].
Defined.

Lemma checkpoints_window_safe_witness :
  len (checkpoints_chain (syncer first_turn)) ≤ 3.
Proof. apply (checkpoints_window_safe 2 1 1 0 first_turn first_turn_reachable). Defined.

(** The second turn drops the window, the third rebuilds it on the new branch. *)
Example reorg_takes_two_turns :
  match loop_turn first_turn with
  | Ok l1 => checkpoints (checkpoints_chain (syncer l1)) = [] ∧
      match loop_turn l1 with
      | Ok l2 => cp_header <$> checkpoints (checkpoints_chain (syncer l2)) = tail (branch 2 4)
      | _ => False
      end
  | _ => False
  end.
Proof. vm_compute. auto. Qed.

End CheckpointSample.
