(* ===== verification/Codec.v ===== *)
(** * Consensus encoding

    The parts of the [bitcoin] and [secp256k1] crates that the header and peg code
    serialize with, as parameters: a [codec] per type, read by a monadic reader
    over the remaining bytes.  [ConsensusEncoding] is the class of operations and
    [EncodingLaws] what the crates document: a value is read back from in front of
    any bytes, and the fixed-size types have their size.  [Sample.SampleCodec] is a
    concrete instance. *)

From S2P Require Import Prelude Bitcoin.

(** [Encodable::consensus_encode] and [Decodable::consensus_decode]. *)
Record codec (A : Type) := mkCodec {
  consensus_encode : A → bytes;
  consensus_decode : bytes → option (A * bytes);
}.
Arguments mkCodec {A}.
Arguments consensus_encode {A}.
Arguments consensus_decode {A}.

(** A value of [dom] is read back, and the bytes behind it are left. *)
Definition codec_roundtrips {A} (dom : A → Prop) (c : codec A) : Prop :=
  ∀ a rest, dom a → consensus_decode c (consensus_encode c a ++ rest) = Some (a, rest).
(** Bytes that are read are the encoding of what was read. *)
Definition codec_canonical {A} (dom : A → Prop) (c : codec A) : Prop :=
  ∀ bs a rest, Forall is_byte bs → consensus_decode c bs = Some (a, rest) →
    dom a ∧ bs = consensus_encode c a ++ rest.
(** The encodings of [dom] have [n] bytes. *)
Definition codec_sized {A} (dom : A → Prop) (n : nat) (c : codec A) : Prop :=
  ∀ a, dom a → length (consensus_encode c a) = n.

(** ** Readers *)

(** [T::consensus_decode(reader)?]; [e] is the error the caller maps to. *)
Definition decode {E A} (c : codec A) (e : E) : SM bytes E A := λ bs,
  match consensus_decode c bs with
  | Some (a, rest) => (Ok a, rest)
  | None => (Err e, bs)
  end.

(** [reader.read_exact] on an array of [n] bytes. *)
Definition read_exact {E} (n : nat) (e : E) : SM bytes E bytes := λ bs,
  if (length bs <? n)%nat then (Err e, []) else (Ok (take n bs), drop n bs).

(** ** The parameters *)

Definition u8_dom (z : Z) : Prop := 0 ≤ z < 256.
Definition u16_dom (z : Z) : Prop := 0 ≤ z ≤ u16_max.
Definition u32_dom (z : Z) : Prop := 0 ≤ z ≤ u32_max.
Definition array_dom (n : nat) (bs : bytes) : Prop := length bs = n ∧ Forall is_byte bs.

Class ConsensusEncoding := {
  c_u8 : codec Z;
  c_u16 : codec Z;
  c_u32 : codec Z;
  c_bool : codec bool;
  (** [BlockHash] and [[u8; 33]] *)
  c_hash : codec BlockHash;
  c_array33 : codec bytes;
  (** [(u16, u16)] *)
  c_u16_pair : codec (Z * Z);
}.

Class EncodingLaws `{!ConsensusEncoding} := {
  law_u8 : codec_roundtrips u8_dom c_u8;
  law_u16 : codec_roundtrips u16_dom c_u16;
  law_u32 : codec_roundtrips u32_dom c_u32;
  law_bool : codec_roundtrips (λ _, True) c_bool;
  law_hash : codec_roundtrips (array_dom 32) c_hash;
  law_array33 : codec_roundtrips (array_dom 33) c_array33;
  law_u16_pair : codec_roundtrips (λ p, u16_dom p.1 ∧ u16_dom p.2) c_u16_pair;
  size_u32 : codec_sized u32_dom 4 c_u32;
  size_hash : codec_sized (array_dom 32) 32 c_hash;
  size_array33 : codec_sized (array_dom 33) 33 c_array33;
  canonical_u32 : codec_canonical u32_dom c_u32;
  canonical_hash : codec_canonical (array_dom 32) c_hash;
  canonical_array33 : codec_canonical (array_dom 33) c_array33;
  (** nothing can be read from no bytes *)
  empty_u16_pair : consensus_decode c_u16_pair [] = None;
}.

(** [secp256k1::PublicKey]: [serialize] gives the 33-byte compressed form. *)
Class Secp256k1 := {
  PublicKey : Type;
  PublicKey_eq_dec :: EqDecision PublicKey;
  pk_serialize : PublicKey → bytes;
  pk_from_slice : bytes → option PublicKey;
  (** [nums_secp256k1_pk]: the x-only generator with even parity *)
  xonly_even_public_key : bytes → option PublicKey;
}.
Class Secp256k1Laws `{!Secp256k1} := {
  pk_serialize_array pk : array_dom 33 (pk_serialize pk);
  pk_from_serialize pk : pk_from_slice (pk_serialize pk) = Some pk;
  pk_serialize_from bs pk : array_dom 33 bs → pk_from_slice bs = Some pk → pk_serialize pk = bs;
}.

(** ** Reading what was written *)

Lemma decode_encode {E A} (c : codec A) dom (e : E) a rest :
  codec_roundtrips dom c → dom a → decode c e (consensus_encode c a ++ rest) = (Ok a, rest).
Proof. intros Hc Ha. unfold decode. by rewrite Hc. Qed.

Lemma decode_ok {E A} (c : codec A) dom (e : E) bs a rest :
  codec_canonical dom c → Forall is_byte bs → decode c e bs = (Ok a, rest) →
  dom a ∧ bs = consensus_encode c a ++ rest ∧ Forall is_byte rest.
Proof.
  intros Hc Hbs. unfold decode. destruct (consensus_decode c bs) as [[a' rest']|] eqn:Hd; [|done].
  intros [= <- <-]. destruct (Hc _ _ _ Hbs Hd) as [? ->].
  apply Forall_app in Hbs as [_ ?]. done.
Qed.

Lemma read_exact_app {E} n (e : E) bs rest :
  length bs = n → read_exact n e (bs ++ rest) = (Ok bs, rest).
Proof.
  intros <-. unfold read_exact. rewrite length_app, (proj2 (Nat.ltb_ge _ _)) by lia.
  by rewrite take_app_length, drop_app_length.
Qed.

Lemma read_exact_ok {E} n (e : E) bs a rest :
  read_exact n e bs = (Ok a, rest) → length a = n ∧ bs = a ++ rest.
Proof.
  unfold read_exact. destruct (Nat.ltb_spec (length bs) n); [done|]. intros [= <- <-].
  split; [rewrite length_take; lia|]. by rewrite take_drop.
Qed.

(** Rewrite the first reader of a chain on bytes that start with its value; the
    side conditions are the value's range. *)
Ltac reads law := rewrite (decode_encode _ _ _ _ _ law) by (done || by split).

(** ** A concrete instance *)

Module SampleCodec.

Definition le_codec (n : nat) : codec Z := mkCodec (to_le_bytes n) (λ bs,
  if (length bs <? n)%nat then None else Some (from_le_bytes (take n bs), drop n bs)).
Definition array_codec (n : nat) : codec bytes := mkCodec (λ a, a) (λ bs,
  if (length bs <? n)%nat then None else Some (take n bs, drop n bs)).
Definition bool_codec : codec bool := mkCodec (λ b : bool, [if b then 1 else 0]) (λ bs,
  match bs with b :: rest => Some (negb (b =? 0), rest) | [] => None end).
Definition pair_codec : codec (Z * Z) :=
  mkCodec (λ p, to_le_bytes 2 p.1 ++ to_le_bytes 2 p.2) (λ bs,
    '(a, bs1) ← consensus_decode (le_codec 2) bs;
    '(b, bs2) ← consensus_decode (le_codec 2) bs1;
    Some ((a, b), bs2)).

Section le.
Context (n : nat) (dom : Z → Prop) (Hdom : ∀ z, dom z ↔ 0 ≤ z < 256 ^ Z.of_nat n).

Lemma le_codec_roundtrips : codec_roundtrips dom (le_codec n).
Proof using Hdom.
  intros z rest Hz%Hdom. simpl. rewrite length_app, length_to_le_bytes.
  rewrite (proj2 (Nat.ltb_ge _ _)) by lia.
  rewrite take_app_length', drop_app_length' by (by rewrite length_to_le_bytes).
  by rewrite from_to_le_bytes.
Qed.
Lemma le_codec_sized : codec_sized dom n (le_codec n).
Proof using. intros z _. apply length_to_le_bytes. Qed.
Lemma le_codec_canonical : codec_canonical dom (le_codec n).
Proof using Hdom.
  intros bs z rest Hbs. simpl. destruct (Nat.ltb_spec (length bs) n) as [|Hl]; [done|].
  intros [= <- <-]. assert (length (take n bs) = n) as Hn by (rewrite length_take; lia).
  assert (Forall is_byte (take n bs)) as Ht by (by apply Forall_take).
  pose proof (to_from_le_bytes _ Ht) as He. rewrite Hn in He. simpl.
  split; [|by rewrite He, take_drop]. apply Hdom. pose proof (from_le_bytes_bound _ Ht) as Hb.
  by rewrite Hn in Hb.
Qed.
End le.

Lemma array_codec_roundtrips n : codec_roundtrips (array_dom n) (array_codec n).
Proof.
  intros a rest [<- _]. simpl. rewrite length_app, (proj2 (Nat.ltb_ge _ _)) by lia.
  by rewrite take_app_length, drop_app_length.
Qed.
Lemma array_codec_canonical n : codec_canonical (array_dom n) (array_codec n).
Proof.
  intros bs a rest Hbs. simpl. destruct (Nat.ltb_spec (length bs) n); [done|].
  intros [= <- <-]. split; [|by rewrite take_drop].
  split; [rewrite length_take; lia|by apply Forall_take].
Qed.
Lemma array_codec_sized n : codec_sized (array_dom n) n (array_codec n).
Proof. by intros a [? _]. Qed.

Lemma u8_dom_pow z : u8_dom z ↔ 0 ≤ z < 256 ^ Z.of_nat 1.
Proof. unfold u8_dom. lia. Qed.
Lemma u16_dom_pow z : u16_dom z ↔ 0 ≤ z < 256 ^ Z.of_nat 2.
Proof. unfold u16_dom, u16_max. lia. Qed.
Lemma u32_dom_pow z : u32_dom z ↔ 0 ≤ z < 256 ^ Z.of_nat 4.
Proof. unfold u32_dom, u32_max. lia. Qed.

Lemma pair_codec_roundtrips :
  codec_roundtrips (λ p, u16_dom p.1 ∧ u16_dom p.2) pair_codec.
Proof.
  intros [a b] rest [Ha Hb]. simpl fst in *. simpl snd in *.
  pose proof (le_codec_roundtrips 2 u16_dom u16_dom_pow) as Hr.
  unfold consensus_decode at 1, consensus_encode, pair_codec. rewrite <-app_assoc.
  pose proof (Hr a (to_le_bytes 2 b ++ rest) Ha) as Hra. pose proof (Hr b rest Hb) as Hrb.
  cbn [consensus_encode le_codec] in Hra, Hrb. cbn [fst snd]. rewrite Hra.
  cbn [mbind option_bind]. by rewrite Hrb.
Qed.

Definition sample_encoding : ConsensusEncoding := {|
  c_u8 := le_codec 1; c_u16 := le_codec 2; c_u32 := le_codec 4; c_bool := bool_codec;
  c_hash := array_codec 32; c_array33 := array_codec 33; c_u16_pair := pair_codec;
|}.
#[local] Existing Instance sample_encoding.
Definition sample_encoding_laws : EncodingLaws.
Proof.
  split; simpl; eauto using le_codec_roundtrips, le_codec_canonical, le_codec_sized,
    array_codec_roundtrips, array_codec_canonical, array_codec_sized, pair_codec_roundtrips,
    u8_dom_pow, u16_dom_pow, u32_dom_pow.
  intros [] rest _; reflexivity.
Qed.

(** Keys are their 33 bytes, of which the first is two. *)
Definition sample_key_ok (bs : bytes) : bool :=
  (length bs =? 32)%nat && forallb (λ b, (0 <=? b) && (b <? 256)) bs.
Definition sample_secp : Secp256k1 := {|
  PublicKey := { bs : bytes | Is_true (sample_key_ok bs) };
  pk_serialize pk := 2 :: `pk;
  pk_from_slice bs :=
    match bs with
    | 2 :: bs' => match decide (Is_true (sample_key_ok bs')) with
                  | left H => Some (exist _ bs' H) | right _ => None end
    | _ => None
    end;
  xonly_even_public_key bs :=
    match decide (Is_true (sample_key_ok bs)) with
    | left H => Some (exist _ bs H) | right _ => None end;
|}.
#[local] Existing Instance sample_secp.

Lemma sample_key_ok_spec bs :
  Is_true (sample_key_ok bs) ↔ length bs = 32%nat ∧ Forall is_byte bs.
Proof.
  unfold sample_key_ok. rewrite andb_True, Is_true_true, Nat.eqb_eq, Is_true_true, forallb_forall.
  rewrite Forall_forall. unfold is_byte. apply and_iff_compat_l.
  split; intros Hf b Hb; [apply list_elem_of_In, Hf in Hb|apply list_elem_of_In, Hf in Hb];
    bool_to_prop; [lia|]. apply andb_true_iff. rewrite Z.leb_le, Z.ltb_lt. lia.
Qed.

Definition sample_secp_laws : Secp256k1Laws.
Proof.
  split; simpl.
  - intros [bs Hbs]. simpl. apply sample_key_ok_spec in Hbs as [Hl Hb].
    split; simpl; [by rewrite Hl|]. constructor; [unfold is_byte; lia|done].
  - intros [bs Hbs]. simpl. case_decide as Hd; [|done]. f_equal. by apply (sig_eq_pi _).
  - intros bs pk _. destruct bs as [|[|p|] bs]; try done.
    repeat (destruct p as [p|p|]; try done). case_decide; [|done]. by intros [= <-].
Qed.

End SampleCodec.
