(* ===== verification/Headers.v ===== *)
(** * Block headers and the data validators agree on

    - [EthHeader]: the block header of [crates/primitives-traits/src/header/mod.rs]
      and its checks;
    - [ExtraDataHeader] ([crates/botanix-authority-edh]): what a Botanix block stores
      in the header's extra data, and [HeaderExt], how it is read back;
    - [NonDeterministicData] ([consensus/authority/src/comet_bft/non_deterministic_data.rs]):
      what the proposer of a block puts in front of its transactions. *)

From S2P Require Import Prelude Bitcoin Codec Activation.
Import Manager.

Abbreviation Address := (list Z).
Abbreviation B256 := (list Z).

(** ** Ethereum headers *)

Record EthHeader := {
  h_parent_hash : B256;
  h_ommers_hash : B256;
  h_beneficiary : Address;
  h_state_root : B256;
  h_transactions_root : B256;
  h_receipts_root : B256;
  h_withdrawals_root : option B256;
  h_logs_bloom : bytes;
  h_difficulty : Z;
  h_number : Z;
  h_gas_limit : Z;
  h_gas_used : Z;
  h_timestamp : Z;
  h_mix_hash : B256;
  h_nonce : Z;
  h_base_fee_per_gas : option Z;
  h_blob_gas_used : option Z;
  h_excess_blob_gas : option Z;
  h_parent_beacon_block_root : option B256;
  h_requests_root : option B256;
  h_extra_data : bytes;
}.
#[export] Instance EthHeader_eq_dec : EqDecision EthHeader.
Proof. solve_decision. Defined.

(** The hashes and fee formulas of [alloy] and [revm]. *)
Class EthLib := {
  (** [keccak256(alloy_rlp::encode(header))]; the encoding is in [HeaderRlp] *)
  hash_slow : EthHeader → B256;
  EMPTY_OMMER_ROOT_HASH : B256;
  EMPTY_ROOT_HASH : B256;
  BaseFeeParams : Type;
  elasticity_multiplier : BaseFeeParams → Z;
  (** on gas used, gas limit and base fee *)
  calc_next_block_base_fee : Z → Z → Z → BaseFeeParams → Z;
  (** on the parent's excess blob gas and blob gas used *)
  calc_excess_blob_gas : Z → Z → Z;
  calc_blob_gasprice : Z → Z;
}.

Definition zeros (n : nat) : bytes := replicate n 0.
Definition address_zero : Address := zeros 20.

Section eth_header.
Context `{!EthLib}.
Implicit Types h : EthHeader.

Definition eth_header_default : EthHeader := {|
  h_parent_hash := zeros 32; h_ommers_hash := EMPTY_OMMER_ROOT_HASH;
  h_beneficiary := address_zero; h_state_root := EMPTY_ROOT_HASH;
  h_transactions_root := EMPTY_ROOT_HASH; h_receipts_root := EMPTY_ROOT_HASH;
  h_withdrawals_root := None; h_logs_bloom := zeros 256; h_difficulty := 0; h_number := 0;
  h_gas_limit := 0; h_gas_used := 0; h_timestamp := 0; h_mix_hash := zeros 32; h_nonce := 0;
  h_base_fee_per_gas := None; h_blob_gas_used := None; h_excess_blob_gas := None;
  h_parent_beacon_block_root := None; h_requests_root := None; h_extra_data := [];
|}.

Inductive HeaderError := LargeDifficulty | LargeExtraData.

Definition is_zero_difficulty h : bool := h_difficulty h =? 0.
Definition ensure_extradata_valid h : result HeaderError () :=
  if 100 * 1024 <? Z.of_nat (length (h_extra_data h)) then Err LargeExtraData else Ok tt.
(** [bit_len() > 80] *)
Definition ensure_difficulty_valid h : result HeaderError () :=
  if 2 ^ 80 <=? h_difficulty h then Err LargeDifficulty else Ok tt.
Definition ensure_well_formed h : result HeaderError () :=
  let? _ := ensure_difficulty_valid h in ensure_extradata_valid h.
Definition is_timestamp_in_past h (parent_timestamp : Z) : bool :=
  h_timestamp h <=? parent_timestamp.
(** [allowed] is [ALLOWED_FUTURE_BLOCK_TIME_SECONDS] of [alloy_eips]. *)
Definition exceeds_allowed_future_timestamp (allowed : Z) h (present_timestamp : Z) : bool :=
  wrap64 (present_timestamp + allowed) <? h_timestamp h.
Definition ommers_hash_is_empty h : bool := bool_decide (h_ommers_hash h = EMPTY_OMMER_ROOT_HASH).
Definition transaction_root_is_empty h : bool :=
  bool_decide (h_transactions_root h = EMPTY_ROOT_HASH).
Definition header_is_empty h : bool :=
  transaction_root_is_empty h && ommers_hash_is_empty h &&
  from_option (λ root, bool_decide (root = EMPTY_ROOT_HASH)) true (h_withdrawals_root h).
Definition parent_num_hash h : Z * B256 := (saturating_sub (h_number h) 1, h_parent_hash h).
Definition next_block_base_fee h (p : BaseFeeParams) : option Z :=
  base ← h_base_fee_per_gas h;
  Some (wrap64 (calc_next_block_base_fee (h_gas_used h) (h_gas_limit h) base p)).
Definition next_block_excess_blob_gas h : option Z :=
  excess ← h_excess_blob_gas h; used ← h_blob_gas_used h; Some (calc_excess_blob_gas excess used).
Definition blob_fee h : option Z := calc_blob_gasprice <$> h_excess_blob_gas h.
Definition next_block_blob_fee h : option Z :=
  calc_blob_gasprice <$> next_block_excess_blob_gas h.

(** [SealedHeader]: a header and the hash it is known by. *)
Record SealedHeader := seal { sh_header : EthHeader; sh_hash : B256 }.
Definition seal_slow h : SealedHeader := seal h (hash_slow h).

(** [self.number % epoch_length == 0]; a zero divisor panics. *)
Definition is_poa_epoch h (epoch_length : Z) : result () bool :=
  if epoch_length =? 0 then Panic else Ok (h_number h mod epoch_length =? 0).
End eth_header.

(** ** The extra data header *)

Section edh.
Context `{!ConsensusEncoding, !Secp256k1}.

Definition EXTRA_HEADER_VERSION : Z := 0.
Definition CHAIN_VERSION : Z := 0.

Definition NUMS_POINT : bytes :=
  [121; 190; 102; 126; 249; 220; 187; 172; 85; 160; 98; 149; 206; 135; 11; 7; 2; 155; 252;
   219; 45; 206; 40; 217; 89; 242; 129; 91; 22; 248; 23; 152].
Definition nums_secp256k1_pk : result () PublicKey := expect (xonly_even_public_key NUMS_POINT).

Record ExtraDataHeader := mkEdh {
  edh_version : Z;
  edh_chain_version : Z;
  edh_bitcoin_block_hash : BlockHash;
  edh_aggregated_public_key : PublicKey;
  edh_block_fee_recipient_address : Address;
}.

Inductive ExtraDataHeaderDeserializeError := EdhIo | EdhDecoding | EdhInvalidVersion.

Definition edh_default : result () ExtraDataHeader :=
  let? pk := nums_secp256k1_pk in
  Ok (mkEdh EXTRA_HEADER_VERSION CHAIN_VERSION (zeros 32) pk address_zero).

(** Writing to a vector has no I/O errors. *)
Definition encode_into_without_signature (e : ExtraDataHeader) : bytes :=
  consensus_encode c_u32 (edh_version e) ++
  consensus_encode c_u32 (edh_chain_version e) ++
  consensus_encode c_hash (edh_bitcoin_block_hash e) ++
  consensus_encode c_array33 (pk_serialize (edh_aggregated_public_key e)) ++
  edh_block_fee_recipient_address e.
Definition encode_into (e : ExtraDataHeader) : bytes := encode_into_without_signature e.
Definition edh_serialize (e : ExtraDataHeader) : bytes := encode_into e.

(** [secp256k1::PublicKey::from_slice(..).map_err(..)]. *)
Definition parse_public_key {S E} (bs : bytes) (e : E) : SM S E PublicKey :=
  slift (ok_or (pk_from_slice bs) e).

Definition edh_deserialize : SM bytes ExtraDataHeaderDeserializeError ExtraDataHeader :=
  let* version := decode c_u32 EdhDecoding in
  let* chain_version := decode c_u32 EdhDecoding in
  let* bitcoin_block_hash := decode c_hash EdhDecoding in
  let* pk_bytes := decode c_array33 EdhDecoding in
  let* aggregated_public_key := parse_public_key pk_bytes EdhDecoding in
  let* address := read_exact 20 EdhIo in
  sret (mkEdh version chain_version bitcoin_block_hash aggregated_public_key address).

Definition edh_size (e : ExtraDataHeader) : Z := Z.of_nat (length (edh_serialize e)).
Definition edh_max_size : result () Z := let? e := edh_default in Ok (edh_size e).

(** [HeaderExt for Header]. *)
Definition add_extra_data_header (e : ExtraDataHeader) (h : EthHeader) : EthHeader := {|
  h_parent_hash := h_parent_hash h; h_ommers_hash := h_ommers_hash h;
  h_beneficiary := h_beneficiary h; h_state_root := h_state_root h;
  h_transactions_root := h_transactions_root h; h_receipts_root := h_receipts_root h;
  h_withdrawals_root := h_withdrawals_root h; h_logs_bloom := h_logs_bloom h;
  h_difficulty := h_difficulty h; h_number := h_number h; h_gas_limit := h_gas_limit h;
  h_gas_used := h_gas_used h; h_timestamp := h_timestamp h; h_mix_hash := h_mix_hash h;
  h_nonce := h_nonce h; h_base_fee_per_gas := h_base_fee_per_gas h;
  h_blob_gas_used := h_blob_gas_used h; h_excess_blob_gas := h_excess_blob_gas h;
  h_parent_beacon_block_root := h_parent_beacon_block_root h;
  h_requests_root := h_requests_root h; h_extra_data := edh_serialize e;
|}.
Definition deserialize_extra_data_header (h : EthHeader) :
    result ExtraDataHeaderDeserializeError ExtraDataHeader :=
  (edh_deserialize (h_extra_data h)).1.
Definition block_fee_recipient_address (h : EthHeader) :
    result ExtraDataHeaderDeserializeError Address :=
  let? e := deserialize_extra_data_header h in Ok (edh_block_fee_recipient_address e).
Definition get_aggregate_public_key (h : EthHeader) :
    result ExtraDataHeaderDeserializeError PublicKey :=
  let? e := deserialize_extra_data_header h in Ok (edh_aggregated_public_key e).

(** ** The consensus package of a header *)

Record BotanixConsensusPackage := {
  bitcoin_checkpoint : Header * Z;
  bcp_aggregate_public_key : PublicKey;
  btc_network : Network;
}.

(** A client of bitcoind, as [BitcoindFactory::build_and_connect] gives it. *)
Record BitcoindClient (BitcoindError : Type) := {
  bc_get_block_header : BlockHash → result BitcoindError Header;
  (** the height [get_block_info] reports *)
  bc_get_block_height : BlockHash → result BitcoindError Z;
}.
Arguments bc_get_block_header {_}.
Arguments bc_get_block_height {_}.

Inductive BotanixConsensusPackageError (BitcoindError : Type) :=
  | FailedToDeserializeExtraDataHeader (e : ExtraDataHeaderDeserializeError)
  | FailedToCreateBitcoindClient (e : BitcoindError)
  | FailedToRetrieveBitcoinCheckpointHeader (e : BitcoindError)
  | FailedToRetrieveBitcoinCheckpointHeight (e : BitcoindError).
Arguments FailedToDeserializeExtraDataHeader {_}.
Arguments FailedToCreateBitcoindClient {_}.
Arguments FailedToRetrieveBitcoinCheckpointHeader {_}.
Arguments FailedToRetrieveBitcoinCheckpointHeight {_}.

Definition botanix_consensus_package {BE} (network : Network)
    (build_and_connect : result BE (BitcoindClient BE)) (h : EthHeader) :
    result (BotanixConsensusPackageError BE) BotanixConsensusPackage :=
  let? edh := map_err FailedToDeserializeExtraDataHeader (deserialize_extra_data_header h) in
  let? bitcoind := map_err FailedToCreateBitcoindClient build_and_connect in
  let? header := map_err FailedToRetrieveBitcoinCheckpointHeader
                   (bc_get_block_header bitcoind (edh_bitcoin_block_hash edh)) in
  let? height := map_err FailedToRetrieveBitcoinCheckpointHeight
                   (bc_get_block_height bitcoind (edh_bitcoin_block_hash edh)) in
  Ok {| bitcoin_checkpoint := (header, wrap32 height);
        bcp_aggregate_public_key := edh_aggregated_public_key edh;
        btc_network := network |}.
End edh.

(** ** Non-deterministic data *)

Section ndd.
Context `{!ConsensusEncoding, !Secp256k1}.

Inductive NonDeterministicDataDeserializeError :=
  | NddIo | NddDecoding | NddInvalidVersion | NddInclusionIndicator
  | NddNetworkUpgradePayloadVote.

Definition RUNTIME_VERSION_GENESIS : RuntimeVersion := RV 0 1.
Definition VERSION_0 : Z := 0.
Definition VERSION_1 : Z := 1.
Definition VERSION_2 : Z := 2.

Record NonDeterministicData := mkNdd {
  ndd_version : Z;
  ndd_bitcoin_block_hash : BlockHash;
  ndd_aggregated_public_key : PublicKey;
  ndd_block_fee_recipient_address : option Address;
  ndd_runtime_version : RuntimeVersion;
  ndd_network_upgrade_payload : option NetworkUpgradePayload;
}.

Definition new_v0 (hash : BlockHash) (pk : PublicKey) : NonDeterministicData :=
  mkNdd VERSION_0 hash pk None RUNTIME_VERSION_GENESIS None.
Definition new_v1 (hash : BlockHash) (pk : PublicKey) (address : Address) : NonDeterministicData :=
  mkNdd VERSION_1 hash pk (Some address) RUNTIME_VERSION_GENESIS None.
Definition new_v2 (hash : BlockHash) (pk : PublicKey) (address : Address) (v : RuntimeVersion)
    (payload : option NetworkUpgradePayload) : NonDeterministicData :=
  mkNdd VERSION_2 hash pk (Some address) v payload.

Definition encode_version (v : RuntimeVersion) : bytes :=
  consensus_encode c_u16_pair (major v, minor v).
Definition vote_byte (v : Vote) : Z := match v with Abstain => 0 | Nay => 1 | Aye => 2 end.

Definition encode_payload (p : option NetworkUpgradePayload) : bytes :=
  match p with
  | None => consensus_encode c_u8 0
  | Some upgrade =>
      consensus_encode c_u8 1 ++
      encode_version (pl_version upgrade) ++
      consensus_encode c_u8 (vote_byte (pl_vote upgrade)) ++
      consensus_encode c_bool (pl_is_compliant upgrade)
  end.

(** A missing address and an unknown version panic. *)
Definition ndd_serialize (n : NonDeterministicData) : result () bytes :=
  let prefix :=
    consensus_encode c_hash (ndd_bitcoin_block_hash n) ++
    consensus_encode c_array33 (pk_serialize (ndd_aggregated_public_key n)) ++
    consensus_encode c_u16 (ndd_version n) in
  if ndd_version n =? VERSION_0 then Ok prefix
  else if ndd_version n =? VERSION_1 then
    let? address := expect (ndd_block_fee_recipient_address n) in
    Ok (prefix ++ address)
  else if ndd_version n =? VERSION_2 then
    let? address := expect (ndd_block_fee_recipient_address n) in
    Ok (prefix ++ address ++ encode_version (ndd_runtime_version n) ++
        encode_payload (ndd_network_upgrade_payload n))
  else Panic.

Definition decode_version : SM bytes NonDeterministicDataDeserializeError RuntimeVersion :=
  let* p := decode c_u16_pair NddDecoding in sret (RV p.1 p.2).

Definition _deserialize_version_2 :
    SM bytes NonDeterministicDataDeserializeError (RuntimeVersion * option NetworkUpgradePayload) :=
  let* runtime_version := decode_version in
  let* included := decode c_u8 NddDecoding in
  if included =? 0 then sret (runtime_version, None)
  else if included =? 1 then
    let* upgrade_version := decode_version in
    let* b := decode c_u8 NddDecoding in
    let* vote :=
      (if b =? 0 then sret Abstain else if b =? 1 then sret Nay
       else if b =? 2 then sret Aye else slift (Err NddNetworkUpgradePayloadVote)) in
    let* is_compliant := decode c_bool NddDecoding in
    sret (runtime_version,
          Some {| pl_version := upgrade_version; pl_vote := vote; pl_is_compliant := is_compliant |})
  else slift (Err NddInclusionIndicator).

Definition ndd_deserialize :
    SM bytes NonDeterministicDataDeserializeError NonDeterministicData :=
  let* hash := decode c_hash NddDecoding in
  let* pk_bytes := decode c_array33 NddDecoding in
  let* pk := parse_public_key pk_bytes NddDecoding in
  let* version := decode c_u16 NddDecoding in
  if version =? VERSION_0 then sret (mkNdd version hash pk None RUNTIME_VERSION_GENESIS None)
  else if version =? VERSION_1 then
    let* address := read_exact 20 NddDecoding in
    (** [if let Ok(..)]: what follows is optional *)
    λ bs, match _deserialize_version_2 bs with
          | (Ok (v, payload), rest) => (Ok (mkNdd version hash pk (Some address) v payload), rest)
          | (Err _, rest) =>
              (Ok (mkNdd version hash pk (Some address) RUNTIME_VERSION_GENESIS None), rest)
          | (Panic, rest) => (Panic, rest)
          end
  else if version =? VERSION_2 then
    let* address := read_exact 20 NddDecoding in
    let* vp := _deserialize_version_2 in
    sret (mkNdd version hash pk (Some address) vp.1 vp.2)
  else slift (Err NddInvalidVersion).
End ndd.
