(* ===== verification/HeadersTheory.v ===== *)
(** * Theorems about headers

    The codecs of the extra data header and of the non-deterministic data are
    inverse to each other, and an extra data header always takes 93 bytes. *)

From S2P Require Import Prelude Bitcoin Codec Activation Headers.
Import Manager.

Section theory.
Context `{EncodingLaws, Secp256k1Laws}.

(** ** The extra data header *)

Record edh_ok (e : ExtraDataHeader) : Prop := {
  eo_version : u32_dom (edh_version e);
  eo_chain_version : u32_dom (edh_chain_version e);
  eo_hash : array_dom 32 (edh_bitcoin_block_hash e);
  eo_address : array_dom 20 (edh_block_fee_recipient_address e);
}.

Lemma parse_serialized_key {S E} (s : S) (e : E) pk :
  parse_public_key (pk_serialize pk) e s = (Ok pk, s).
Proof. unfold parse_public_key, slift. by rewrite pk_from_serialize. Qed.

(** The address is copied as it is. *)
Lemma edh_read_back e rest :
  u32_dom (edh_version e) → u32_dom (edh_chain_version e) → array_dom 32 (edh_bitcoin_block_hash e) →
  length (edh_block_fee_recipient_address e) = 20%nat →
  edh_deserialize (edh_serialize e ++ rest) = (Ok e, rest).
Proof.
  intros Hv Hc Hh Ha.
  unfold edh_deserialize, edh_serialize, encode_into, encode_into_without_signature, sbind, sret.
  rewrite <-!app_assoc. reads law_u32. reads law_u32. reads law_hash.
  rewrite (decode_encode _ _ _ _ _ law_array33) by apply pk_serialize_array.
  rewrite parse_serialized_key, read_exact_app by done. by destruct e.
Qed.
Lemma edh_deserialize_serialize e rest :
  edh_ok e → edh_deserialize (edh_serialize e ++ rest) = (Ok e, rest).
Proof. intros [Hv Hc Hh [Ha _]]. by apply edh_read_back. Qed.

(** Decompose a reader that succeeded. *)
Ltac read_inv1 Hrun :=
  match type of Hrun with
  | sbind _ _ _ = (Ok _, _) =>
      let a := fresh "a" in let bs := fresh "bs" in let Hr := fresh "Hr" in
      apply sbind_ok in Hrun as (a & bs & Hr & Hrun)
  end.

Lemma edh_serialize_deserialize bs e rest :
  Forall is_byte bs → edh_deserialize bs = (Ok e, rest) →
  edh_ok e ∧ bs = edh_serialize e ++ rest.
Proof.
  intros Hbs Hrun. unfold edh_deserialize in Hrun.
  read_inv1 Hrun. apply (decode_ok _ _ _ _ _ _ canonical_u32 Hbs) in Hr as (? & -> & Hbs1).
  read_inv1 Hrun. apply (decode_ok _ _ _ _ _ _ canonical_u32 Hbs1) in Hr as (? & -> & Hbs2).
  read_inv1 Hrun. apply (decode_ok _ _ _ _ _ _ canonical_hash Hbs2) in Hr as (? & -> & Hbs3).
  read_inv1 Hrun. apply (decode_ok _ _ _ _ _ _ canonical_array33 Hbs3) in Hr as (? & -> & Hbs4).
  read_inv1 Hrun. unfold parse_public_key, slift in Hr.
  destruct (pk_from_slice _) as [pk|] eqn:Hpk; [|done]. injection Hr as <- <-.
  apply pk_serialize_from in Hpk; [|done]. subst.
  read_inv1 Hrun. apply read_exact_ok in Hr as [Hl ->]. injection Hrun as <- <-.
  apply Forall_app in Hbs4 as [? _].
  split; [by split|]. unfold edh_serialize, encode_into, encode_into_without_signature. simpl.
  by rewrite <-!app_assoc.
Qed.

Lemma edh_serialize_length e : edh_ok e → length (edh_serialize e) = 93%nat.
Proof.
  intros [Hv Hc Hh [Ha _]]. unfold edh_serialize, encode_into, encode_into_without_signature.
  rewrite !length_app, Ha, (size_u32 _ Hv), (size_u32 _ Hc), (size_hash _ Hh).
  by rewrite (size_array33 _ (pk_serialize_array _)).
Qed.

(** What non-deterministic data carries when it is read: a hash and an address of the
    right sizes. *)
Lemma ndd_deserialize_sizes bs n rest :
  Forall is_byte bs → ndd_deserialize bs = (Ok n, rest) →
  array_dom 32 (ndd_bitcoin_block_hash n) ∧
  ∀ a, ndd_block_fee_recipient_address n = Some a → length a = 20%nat.
Proof.
  intros Hbs Hrun. unfold ndd_deserialize in Hrun.
  read_inv1 Hrun. apply (decode_ok _ _ _ _ _ _ canonical_hash Hbs) in Hr as (? & _ & _).
  do 3 read_inv1 Hrun. case_match; [injection Hrun as <- _; by split|].
  case_match.
  - read_inv1 Hrun. apply read_exact_ok in Hr2 as [Hl _].
    destruct (_deserialize_version_2 _) as [[[v payload]| |] r]; [| |done];
      injection Hrun as <- _; (split; [done|]); intros ? [= <-]; done.
  - case_match; [|done]. read_inv1 Hrun. apply read_exact_ok in Hr2 as [Hl _].
    read_inv1 Hrun. injection Hrun as <- _. split; [done|]. by intros ? [= <-].
Qed.

(** The extra data header survives its byte form: it is read back from in front
    of any bytes and from a header it was added to, every byte string that is read
    starts with the encoding of what was read, and that encoding always has 93
    bytes. *)
Theorem edh_codec :
  (∀ e rest, edh_ok e → edh_deserialize (edh_serialize e ++ rest) = (Ok e, rest)) ∧
  (∀ e h, edh_ok e → deserialize_extra_data_header (add_extra_data_header e h) = Ok e) ∧
  (∀ bs e rest, Forall is_byte bs → edh_deserialize bs = (Ok e, rest) →
     edh_ok e ∧ bs = edh_serialize e ++ rest ∧ edh_size e = 93).
Proof.
  split_and!; [exact edh_deserialize_serialize| |].
  - intros e h He. unfold deserialize_extra_data_header. simpl.
    by rewrite <-(app_nil_r (edh_serialize e)), edh_deserialize_serialize.
  - intros bs e rest Hbs Hrun. destruct (edh_serialize_deserialize _ _ _ Hbs Hrun) as [He ->].
    unfold edh_size. by rewrite edh_serialize_length.
Qed.

(** ** Non-deterministic data *)

Definition payload_ok (p : NetworkUpgradePayload) : Prop := version_ok (pl_version p).
Definition address_ok (a : Address) : Prop := length a = 20%nat.

(** What the constructors build, version by version. *)
Inductive ndd_ok : NonDeterministicData → Prop :=
  | ok_v0 hash pk : array_dom 32 hash → ndd_ok (new_v0 hash pk)
  | ok_v1 hash pk a : array_dom 32 hash → address_ok a → ndd_ok (new_v1 hash pk a)
  | ok_v2 hash pk a v p :
      array_dom 32 hash → address_ok a → version_ok v → (∀ x, p = Some x → payload_ok x) →
      ndd_ok (new_v2 hash pk a v p).

Lemma decode_version_encode v rest :
  version_ok v → decode_version (encode_version v ++ rest) = (Ok v, rest).
Proof.
  intros [? ?]. unfold decode_version, encode_version, sbind, sret. reads law_u16_pair.
  by destruct v.
Qed.

Lemma deserialize_version_2_encode v p rest :
  version_ok v → (∀ x, p = Some x → payload_ok x) →
  _deserialize_version_2 (encode_version v ++ encode_payload p ++ rest) = (Ok (v, p), rest).
Proof.
  intros Hv Hp. unfold _deserialize_version_2, sbind, sret. rewrite decode_version_encode by done.
  destruct p as [[pv vote c]|]; unfold encode_payload; simpl pl_version; simpl pl_vote;
    simpl pl_is_compliant.
  - rewrite <-!app_assoc. rewrite (decode_encode _ _ _ _ _ law_u8) by (unfold u8_dom; lia).
    cbn [Z.eqb Pos.eqb]. cbn beta iota. rewrite decode_version_encode by (exact (Hp _ eq_refl)).
    rewrite (decode_encode _ _ _ _ _ law_u8) by (unfold u8_dom; destruct vote; simpl; lia).
    destruct vote; cbn [vote_byte Z.eqb Pos.eqb]; cbn beta iota; reads law_bool; done.
  - rewrite (decode_encode _ _ _ _ _ law_u8) by (unfold u8_dom; lia). done.
Qed.

Lemma deserialize_version_2_nil : (_deserialize_version_2 []).1 = Err NddDecoding.
Proof.
  unfold _deserialize_version_2, decode_version, sbind, decode. by rewrite empty_u16_pair.
Qed.

(** The common prefix of all versions. *)
Definition ndd_prefix (hash : BlockHash) (pk : PublicKey) (version : Z) : bytes :=
  consensus_encode c_hash hash ++ consensus_encode c_array33 (pk_serialize pk) ++
  consensus_encode c_u16 version.

Ltac read_prefix :=
  unfold ndd_deserialize, ndd_prefix, sbind, sret; rewrite <-!app_assoc;
  rewrite (decode_encode _ _ _ _ _ law_hash) by done;
  rewrite (decode_encode _ _ _ _ _ law_array33) by apply pk_serialize_array;
  rewrite parse_serialized_key;
  rewrite (decode_encode _ _ _ _ _ law_u16) by (unfold u16_dom, u16_max, VERSION_0, VERSION_1, VERSION_2; lia);
  unfold VERSION_0, VERSION_1, VERSION_2; cbn [Z.eqb Pos.eqb]; cbn beta iota.

Lemma ndd_deserialize_serialize n rest :
  ndd_ok n → (ndd_version n = VERSION_1 → rest = []) →
  ∃ bs, ndd_serialize n = Ok bs ∧
    ∃ left, ndd_deserialize (bs ++ rest) = (Ok n, left) ∧ (ndd_version n ≠ VERSION_1 → left = rest).
Proof.
  intros [hash pk Hh|hash pk a Hh Ha|hash pk a v p Hh Ha Hv Hp] Hrest; simpl in Hrest.
  - exists (ndd_prefix hash pk VERSION_0). split; [done|]. exists rest. split; [|done].
    read_prefix. done.
  - exists (ndd_prefix hash pk VERSION_1 ++ a). split; [done|]. rewrite (Hrest eq_refl), app_nil_r.
    exists (_deserialize_version_2 []).2. split; [|done].
    replace (ndd_prefix hash pk VERSION_1 ++ a) with (ndd_prefix hash pk VERSION_1 ++ a ++ [])
      by (by rewrite app_nil_r).
    read_prefix. rewrite read_exact_app by exact Ha.
    pose proof deserialize_version_2_nil as Hnil.
    destruct (_deserialize_version_2 []) as [r left]. simpl in Hnil. by subst r.
  - exists (ndd_prefix hash pk VERSION_2 ++ a ++ encode_version v ++ encode_payload p).
    split; [reflexivity|]. exists rest. split; [|done].
    read_prefix. rewrite read_exact_app by exact Ha.
    rewrite deserialize_version_2_encode by done. done.
Qed.

(** Non-deterministic data survive their byte form: what any constructor built is
    serialized without panicking and read back unchanged; behind the data of versions
    0 and 2 any bytes may follow, while version 1 is read to the end. *)
Theorem ndd_roundtrip n rest :
  ndd_ok n → (ndd_version n = VERSION_1 → rest = []) →
  ∃ bs, ndd_serialize n = Ok bs ∧
    ∃ left, ndd_deserialize (bs ++ rest) = (Ok n, left) ∧ (ndd_version n ≠ VERSION_1 → left = rest).
Proof. apply ndd_deserialize_serialize. Qed.
End theory.

(** ** Worked examples *)

Module HeaderSample.
Import SampleCodec.
#[local] Existing Instances sample_encoding sample_encoding_laws sample_secp sample_secp_laws.

Definition key : PublicKey := exist (λ bs, Is_true (sample_key_ok bs)) NUMS_POINT I.
Definition hash : BlockHash := replicate 32 7.
Definition address : Address := replicate 20 9.

Lemma array_dom_replicate n b : is_byte b → array_dom n (replicate n b).
Proof. intros. split; [apply length_replicate|by apply Forall_replicate]. Qed.

Definition edh : ExtraDataHeader := mkEdh 0 0 hash key address.
Lemma edh_is_ok : edh_ok edh.
Proof.
  split; simpl; [unfold u32_dom, u32_max; lia..| |]; apply array_dom_replicate; unfold is_byte; lia.
Qed.

Lemma edh_codec_witness :
  edh_deserialize (edh_serialize edh ++ [1; 2; 3]) = (Ok edh, [1; 2; 3]) ∧
  length (edh_serialize edh) = 93%nat.
Proof. split; [apply (proj1 edh_codec edh [1; 2; 3] edh_is_ok)|reflexivity]. Defined.

Definition ndd : NonDeterministicData :=
  new_v2 hash key address (RV 0 2)
    (Some {| pl_version := RV 0 3; pl_vote := Nay; pl_is_compliant := true |}).

Lemma ndd_roundtrip_witness :
  ∃ bs, ndd_serialize ndd = Ok bs ∧
    ∃ left, ndd_deserialize (bs ++ [5]) = (Ok ndd, left) ∧
      (ndd_version ndd ≠ VERSION_1 → left = [5]).
Proof.
  apply (ndd_roundtrip ndd [5]); [|discriminate].
  apply ok_v2; [apply array_dom_replicate; unfold is_byte; lia|reflexivity| |].
  - unfold version_ok, u16_max. simpl. lia.
  - intros x [= <-]. unfold payload_ok, version_ok, u16_max. simpl. lia.
Defined.

(** Version 1 reads trailing data of version 2 when it parses. *)
Example v1_reads_optional_version :
  (λ r, match r with Ok n => Some (ndd_runtime_version n) | _ => None end)
    (ndd_deserialize (ndd_prefix hash key 1 ++ address ++ encode_version (RV 4 5) ++
                      encode_payload None)).1 = Some (RV 4 5).
Proof. vm_compute. reflexivity. Qed.
End HeaderSample.
