(* ===== verification/Peg.v ===== *)
(** * Pegins and pegouts on the Botanix chain

    [crates/botanix-authority-peg]: the proofs a pegin carries and their checks
    ([peg_contract.rs]), the logs of the mint contract ([mint_validation.rs]), the
    conversion between wei and satoshis ([utils.rs]); and the gateway scripts pegins
    pay to ([bin/btc-server/src/wallet/address.rs]).

    The cryptography and the codecs of the [bitcoin], [frost] and [ethabi] crates are
    the classes [PegLib] and [Abi]. *)

From S2P Require Import Prelude Bitcoin Codec Headers.

(** ** 256-bit integers: [+] and [*] of [ethereum_types::U256] panic on overflow *)

Definition u256_max : Z := 2 ^ 256 - 1.
Definition u256_add {E} (a b : Z) : result E Z := if a + b <=? u256_max then Ok (a + b) else Panic.
Definition u256_mul {E} (a b : Z) : result E Z := if a * b <=? u256_max then Ok (a * b) else Panic.
(** [as_u32]: panics when the value does not fit. *)
Definition as_u32 {E} (a : Z) : result E Z := if a <=? u32_max then Ok a else Panic.

(** ** Amounts *)

Definition SATOSHI_IN_WEI : Z := 10000000000.
Definition MAX_SATOSHI : Z := u64_max.

Definition to_wei {E} (sat : Z) : result E Z := u256_mul sat SATOSHI_IN_WEI.
Definition from_wei_floor (wei : Z) : option Z :=
  let sat := wei / SATOSHI_IN_WEI in
  if sat <=? MAX_SATOSHI then Some sat else None.
Definition from_wei (wei : Z) : result () (option Z) :=
  match from_wei_floor wei with
  | None => Ok None
  | Some ret => let? w := to_wei ret in Ok (if w =? wei then Some ret else None)
  end.

(** ** Parameters *)

Class PegLib `{!Secp256k1} := {
  PartialMerkleTree : Type;
  (** the Merkle root, and the matched transactions *)
  extract_matches : PartialMerkleTree → option (bytes * list Txid);
  is_coinbase : Transaction → bool;
  COINBASE_MATURITY : Z;
  (** consensus encodings of the [bitcoin] crate *)
  c_varint : codec Z;
  c_outpoint : codec OutPoint;
  c_header : codec Header;
  c_merkle : codec PartialMerkleTree;
  c_tx : codec Transaction;
  c_array32 : codec bytes;
  (** FROST verifying keys *)
  VerifyingKey : Type;
  vk_deserialize : bytes → option VerifyingKey;
  vk_serialize : VerifyingKey → option bytes;
  (** [Tweak::tweak] with an empty tapscript root and an additional tweak *)
  vk_tweak : VerifyingKey → bytes → VerifyingKey;
  x_only_public_key : PublicKey → bytes;
  new_p2tr_tweaked : bytes → Script;
  (** addresses *)
  BtcAddress : Type;
  UncheckedAddress : Type;
  address_from_str : bytes → option UncheckedAddress;
  require_network : UncheckedAddress → Network → option BtcAddress;
}.

Section peg.
Context `{!HeaderHash, !BitcoinHashes, !ConsensusEncoding, !Secp256k1, !PegLib}.

(** ** Gateway scripts *)

Inductive VerifyingKeyExtError := FailedToConvertToSecpPk | VkFrostError.

Definition to_secp_pk (vk : VerifyingKey) : result VerifyingKeyExtError PublicKey :=
  let? bs := ok_or (vk_serialize vk) VkFrostError in
  ok_or (pk_from_slice bs) FailedToConvertToSecpPk.
Definition generate_tweaked_public_key (vk : VerifyingKey) (eth_address : Address) :
    result VerifyingKeyExtError PublicKey :=
  to_secp_pk (vk_tweak vk eth_address).
Definition generate_taproot_scriptpubkey (pk : PublicKey) : Script :=
  new_p2tr_tweaked (x_only_public_key pk).

(** ** Pegin proofs *)

Definition PEGIN_META_VERSION_V0 : Z := 0.
Definition PEGIN_META_VERSION_V1 : Z := 1.
Definition BITCOIN_HEADER_SIZE : Z := 80.
Definition MAX_BITCOIN_BLOCK_HEADERS : Z := 2016.

Record PeginMetaV0 := mkMetaV0 {
  pm_version : Z;
  pm_merkle_proof : PartialMerkleTree;
  pm_outpoint : OutPoint;
  pm_address : Address;
  pm_aggregate_publickey : PublicKey;
  pm_block_headers : list Header;
  pm_tx : Transaction;
}.
Record PeginMetaV1 := mkMetaV1 { pm_inner : PeginMetaV0; pm_ref_block_hash : B256 }.
Inductive PeginMeta := MetaV0 (m : PeginMetaV0) | MetaV1 (m : PeginMetaV1).

(** The messages of [PeginDataError::Invalid]. *)
Inductive InvalidPegin :=
  | InvalidMetaVersion | RecentBlockHashMismatch | MerkleInclusion | MerkleHeaderMismatch
  | TxidMismatch | OutputIndex | InvalidScriptPubkey | HeaderSequence | ImmatureCoinbase
  | UnknownMetaVersion | DuplicateOutpoints.
Inductive PeginDataError :=
  | PeginInvalidFormat
  | PeginInvalid (reason : InvalidPegin)
  | PeginInvalidPublicKey
  | PeginInvalidBitcoinBlockHeight
  | PeginInvalidTweak
  | PeginFrostError
  | PeginInvalidLength (claimed remaining_bytes : Z)
  | PeginInvalidMerkleBlock
  | PeginTooManyBlockHeaders (n : Z).

Definition meta_v0 (m : PeginMeta) : PeginMetaV0 :=
  match m with MetaV0 m => m | MetaV1 m => pm_inner m end.
Definition meta_version (m : PeginMeta) : Z := pm_version (meta_v0 m).
Definition meta_outpoint (m : PeginMeta) : OutPoint := pm_outpoint (meta_v0 m).
Definition meta_ref_block_hash (m : PeginMeta) : option B256 :=
  match m with MetaV0 _ => None | MetaV1 m => Some (pm_ref_block_hash m) end.
(** [txout]: [expect] on the output index. *)
Definition meta_txout (m : PeginMeta) : result () TxOut :=
  expect (output (pm_tx (meta_v0 m)) !! Z.to_nat (vout (meta_outpoint m))).

Definition serialize_v0 (m : PeginMetaV0) : bytes :=
  consensus_encode c_u32 (pm_version m) ++
  consensus_encode c_outpoint (pm_outpoint m) ++
  pm_address m ++
  pk_serialize (pm_aggregate_publickey m) ++
  consensus_encode c_varint (Z.of_nat (length (pm_block_headers m))) ++
  concat (consensus_encode c_header <$> pm_block_headers m) ++
  consensus_encode c_merkle (pm_merkle_proof m) ++
  consensus_encode c_tx (pm_tx m).
Definition serialize_v1 (m : PeginMetaV1) : bytes :=
  serialize_v0 (pm_inner m) ++ consensus_encode c_array32 (pm_ref_block_hash m).
Definition meta_serialize (m : PeginMeta) : bytes :=
  match m with MetaV0 m => serialize_v0 m | MetaV1 m => serialize_v1 m end.

(** [for _ in 0..len { push(decode) }] *)
Fixpoint decode_headers (n : nat) : SM bytes PeginDataError (list Header) :=
  match n with
  | O => sret []
  | S n' =>
      let* h := decode c_header PeginInvalidFormat in
      let* hs := decode_headers n' in
      sret (h :: hs)
  end.
Definition read_block_headers : SM bytes PeginDataError (list Header) :=
  let* len := decode c_varint PeginInvalidFormat in
  if MAX_BITCOIN_BLOCK_HEADERS <? len then slift (Err (PeginTooManyBlockHeaders len))
  else
    let* bs := sget in
    let remaining := Z.of_nat (length bs) in
    if remaining / BITCOIN_HEADER_SIZE <? len
    then slift (Err (PeginInvalidLength len remaining))
    else decode_headers (Z.to_nat len).

Definition read_v0 : SM bytes PeginDataError PeginMetaV0 :=
  let* version := decode c_u32 PeginInvalidFormat in
  let* outpoint := decode c_outpoint PeginInvalidFormat in
  let* address := read_exact 20 PeginInvalidFormat in
  let* pk_bytes := read_exact 33 PeginInvalidFormat in
  let* pk := parse_public_key pk_bytes PeginInvalidPublicKey in
  let* block_headers := read_block_headers in
  let* merkle_proof := decode c_merkle PeginInvalidFormat in
  let* tx := decode c_tx PeginInvalidFormat in
  sret (mkMetaV0 version merkle_proof outpoint address pk block_headers tx).

(** The value and how many bytes it took. *)
Definition sized {E A} (r : SM bytes E A) (bs : bytes) : result E (A * nat) :=
  match r bs with
  | (Ok a, rest) => Ok (a, (length bs - length rest)%nat)
  | (Err e, _) => Err e
  | (Panic, _) => Panic
  end.
Definition deserialize_v0 (bs : bytes) : result PeginDataError (PeginMetaV0 * nat) :=
  sized read_v0 bs.
Definition deserialize_v1 (bs : bytes) : result PeginDataError (PeginMetaV1 * nat) :=
  let? '(inner, inner_size) := deserialize_v0 bs in
  let? '(hash, hash_size) := sized (read_exact 32 PeginInvalidFormat) (drop inner_size bs) in
  Ok (mkMetaV1 inner hash, (inner_size + hash_size)%nat).
Definition meta_deserialize (bs : bytes) : result PeginDataError (PeginMeta * nat) :=
  let? '(version, _) := sized (decode c_u32 PeginInvalidFormat) bs in
  if version =? PEGIN_META_VERSION_V0 then
    let? '(m, size) := deserialize_v0 bs in Ok (MetaV0 m, size)
  else if version =? PEGIN_META_VERSION_V1 then
    let? '(m, size) := deserialize_v1 bs in Ok (MetaV1 m, size)
  else Err (PeginInvalid UnknownMetaVersion).

(** ** Validation *)

Record PeginData := {
  pd_account : Address;
  pd_amount : Z;
  pd_bitcoin_block_height : Z;
  pd_meta : list PeginMeta;
}.

Definition reject_if {E} (b : bool) (e : E) : result E () := if b then Err e else Ok tt.

(** The peekable walk over the headers. *)
Fixpoint check_sequence (hs : list Header) : result PeginDataError () :=
  match hs with
  | h :: ((next :: _) as rest) =>
      if bool_decide (hd_prev_blockhash next ≠ header_hash h)
      then Err (PeginInvalid HeaderSequence) else check_sequence rest
  | _ => Ok tt
  end.

(** [Iterator::skip_while]. *)
Fixpoint skip_while {A} (p : A → bool) (l : list A) : list A :=
  match l with
  | [] => []
  | x :: l' => if p x then skip_while p l' else l
  end.

Definition commitment_depth (commit_hash : BlockHash) (hs : list Header) : Z :=
  wrap64 (Z.of_nat (length (skip_while (λ h, bool_decide (header_hash h ≠ commit_hash))
                                       (reverse hs))) - 1).

(** [vec[i]]: out of range panics. *)
Definition index {E A} (l : list A) (i : Z) : result E A := expect (l !! Z.to_nat i).

(** The script a pegin for [account] pays to. *)
Definition gateway_script (aggregate_pk : PublicKey) (account : Address) :
    result PeginDataError Script :=
  let? vk := ok_or (vk_deserialize (pk_serialize aggregate_pk)) PeginFrostError in
  let? tpk := map_err (λ _, PeginInvalidTweak) (generate_tweaked_public_key vk account) in
  Ok (generate_taproot_scriptpubkey tpk).

(** One turn of the loop of [PeginData::validate]: from the value so far to the
    value with this proof. *)
Definition validate_meta (commitment : Header * Z) (aggregate_pk : PublicKey) (account : Address)
    (bitcoin_block_height : Z) (meta : PeginMeta) (aggregate_value : Z) : result PeginDataError Z :=
  let commit_hash := header_hash commitment.1 in
  let? _ := reject_if (negb ((meta_version meta =? PEGIN_META_VERSION_V0) ||
                             (meta_version meta =? PEGIN_META_VERSION_V1)))
              (PeginInvalid InvalidMetaVersion) in
  let pegin := meta_v0 meta in
  let? _ := reject_if (negb (existsb (λ h, bool_decide (header_hash h = commit_hash))
                                     (pm_block_headers pegin)))
              (PeginInvalid RecentBlockHashMismatch) in
  let? '(root, txids) := ok_or (extract_matches (pm_merkle_proof pegin)) PeginInvalidMerkleBlock in
  let? _ := reject_if (bool_decide (op_txid (pm_outpoint pegin) ∉ txids))
              (PeginInvalid MerkleInclusion) in
  let? first := index (pm_block_headers pegin) 0 in
  let? _ := reject_if (bool_decide (hd_merkle_root first ≠ root))
              (PeginInvalid MerkleHeaderMismatch) in
  let? _ := reject_if (bool_decide (compute_txid (pm_tx pegin) ≠ op_txid (pm_outpoint pegin)))
              (PeginInvalid TxidMismatch) in
  let? _ := reject_if (Z.of_nat (length (output (pm_tx pegin))) <? vout (pm_outpoint pegin))
              (PeginInvalid OutputIndex) in
  let? script := gateway_script aggregate_pk account in
  let? out := index (output (pm_tx pegin)) (vout (pm_outpoint pegin)) in
  let? _ := reject_if (bool_decide (script ≠ script_pubkey out))
              (PeginInvalid InvalidScriptPubkey) in
  let? output_value := to_wei (value out) in
  let? aggregate_value := u256_add aggregate_value output_value in
  let? _ := check_sequence (pm_block_headers pegin) in
  let diff := commitment_depth commit_hash (pm_block_headers pegin) in
  let? _ := reject_if (negb (wrap32 (commitment.2 - wrap32 diff) =? bitcoin_block_height))
              PeginInvalidBitcoinBlockHeight in
  let? _ := reject_if (is_coinbase (pm_tx pegin) && (wrap32 diff <? COINBASE_MATURITY))
              (PeginInvalid ImmatureCoinbase) in
  Ok aggregate_value.

Fixpoint validate_metas (commitment : Header * Z) (aggregate_pk : PublicKey) (account : Address)
    (bitcoin_block_height : Z) (metas : list PeginMeta) (aggregate_value : Z) :
    result PeginDataError Z :=
  match metas with
  | [] => Ok aggregate_value
  | m :: rest =>
      let? v := validate_meta commitment aggregate_pk account bitcoin_block_height m
                  aggregate_value in
      validate_metas commitment aggregate_pk account bitcoin_block_height rest v
  end.
Definition validate (commitment : Header * Z) (aggregate_pk : PublicKey) (p : PeginData) :
    result PeginDataError Z :=
  validate_metas commitment aggregate_pk (pd_account p) (pd_bitcoin_block_height p) (pd_meta p) 0.

(** ** Pegouts *)

Inductive PegoutDataErrorKind := InvalidBitcoinAddress | AddressNotValidForNetwork
  | InvalidMetadata | InvalidMetadataLength.
Inductive PegoutDataError := PegoutInvalid (kind : PegoutDataErrorKind) (amount : Z).

Record PegoutData := {
  pg_amount : Z;
  pg_destination : BtcAddress;
  pg_network : Network;
}.
Record PegoutWithId := { pw_data : PegoutData; pw_id : PegoutId }.

Definition pegout_data_new (amount eth_amount : Z) (address : bytes) (network : Network) :
    result PegoutDataError PegoutData :=
  let? unchecked := ok_or (address_from_str address)
                      (PegoutInvalid InvalidBitcoinAddress eth_amount) in
  let? destination := ok_or (require_network unchecked network)
                        (PegoutInvalid AddressNotValidForNetwork eth_amount) in
  Ok {| pg_amount := amount; pg_destination := destination; pg_network := network |}.
End peg.
