(* ===== verification/Mint.v ===== *)
(** * Logs of the mint contract

    [crates/botanix-authority-peg/src/mint_validation.rs]: a [Mint] log announces a
    pegin and carries its proofs, a [Burn] log asks for a pegout.  ABI decoding is a
    parameter ([Abi]); the proofs are read one after the other, with one unit of fuel
    per byte. *)

From S2P Require Import Prelude Bitcoin Codec Headers Peg.

(** The [ethabi] types the contract's events use. *)
Inductive ParamType := PAddress | PUint (bits : Z) | PBytes | PString.
Inductive Token :=
  | TAddress (a : Address) | TUint (z : Z) | TBytes (b : bytes) | TString (s : bytes)
  | TOther.
Class Abi := {
  abi_decode : list ParamType → bytes → option (list Token);
  (** [keccak256] of the event signatures *)
  MINT_TOPIC : B256;
  BURN_TOPIC : B256;
}.

Definition into_address (t : Token) : option Address :=
  match t with TAddress a => Some a | _ => None end.
Definition into_uint (t : Token) : option Z := match t with TUint z => Some z | _ => None end.
Definition into_bytes (t : Token) : option bytes := match t with TBytes b => Some b | _ => None end.
Definition into_string (t : Token) : option bytes := match t with TString s => Some s | _ => None end.

(** [revm_primitives::Log]. *)
Record Log := mkLog { log_address : Address; topics : list B256; log_data : bytes }.

Definition MINT_CONTRACT_ADDRESS : Address :=
  [14; 163; 32; 153; 11; 68; 35; 106; 12; 237; 14; 204; 15; 210; 178; 223; 51; 7; 30; 120].

Section mint.
Context `{!HeaderHash, !BitcoinHashes, !ConsensusEncoding, !Secp256k1, !PegLib, !Abi}.

Inductive GenesisContractEventType := MintingEvent | BurnEvent.
Definition event_try_from (value : B256) : option GenesisContractEventType :=
  if bool_decide (value = MINT_TOPIC) then Some MintingEvent
  else if bool_decide (value = BURN_TOPIC) then Some BurnEvent
  else None.

(** The messages of [InvalidLog]. *)
Inductive InvalidLogReason :=
  | WrongNumberOfTopics | InvalidDestinationEncoding | InvalidPayload | WrongNumberOfParams
  | InvalidMintAmount | InvalidBlockHeightParam | InvalidMetadataParam
  | PegoutAmountParam | InvalidAmount | PegoutDestinationParam.

Inductive ParseMintEventError :=
  | MintInvalidLog (reason : InvalidLogReason)
  | InvalidPeginData (error : PeginDataError) (revert_address : Address) (revert_amount : Z)
  (** the reading loop ran out of fuel *)
  | MintOutOfFuel.
Inductive ParseBurnEventError :=
  | BurnInvalidLog (reason : InvalidLogReason)
  | InvalidPegoutData (error : PegoutDataError).
Inductive MintContractError :=
  | McInvalidLog (event : GenesisContractEventType) (reason : InvalidLogReason)
  | McInvalidPeginData (error : PeginDataError) (revert_address : Address) (revert_amount : Z)
  | McInvalidPegoutData (error : PegoutDataError)
  | McOutOfFuel.

Definition from_mint_error (e : ParseMintEventError) : MintContractError :=
  match e with
  | MintInvalidLog r => McInvalidLog MintingEvent r
  | InvalidPeginData e a v => McInvalidPeginData e a v
  | MintOutOfFuel => McOutOfFuel
  end.
Definition from_burn_error (e : ParseBurnEventError) : MintContractError :=
  match e with
  | BurnInvalidLog r => McInvalidLog BurnEvent r
  | InvalidPegoutData e => McInvalidPegoutData e
  end.

Definition topic_to_address (t : B256) : option Address :=
  tokens ← abi_decode [PAddress] t;
  first ← head tokens;
  into_address first.

(** The loop over [meta_bytes]: [outpoints] are those seen. *)
Fixpoint read_proofs (fuel : nat) (destination : Address) (amount : Z)
    (outpoints : gset OutPoint) (bs : bytes) : result ParseMintEventError (list PeginMeta) :=
  match bs with
  | [] => Ok []
  | _ :: _ =>
      match fuel with
      | O => Err MintOutOfFuel
      | S fuel' =>
          let? '(proof, size) :=
            map_err (λ e, InvalidPeginData e destination amount) (meta_deserialize bs) in
          if bool_decide (meta_outpoint proof ∈ outpoints)
          then Err (InvalidPeginData (PeginInvalid DuplicateOutpoints) destination amount)
          else
            let? proofs := read_proofs fuel' destination amount
                             ({[ meta_outpoint proof ]} ∪ outpoints) (drop size bs) in
            Ok (proof :: proofs)
      end
  end.

Definition mint_params : list ParamType := [PUint 256; PUint 32; PBytes].
Definition burn_params : list ParamType := [PUint 256; PString; PBytes].

(** What both parsers check first: is it this event of the mint contract? *)
Definition is_event (topic : B256) (log : Log) : bool :=
  bool_decide (log_address log = MINT_CONTRACT_ADDRESS) &&
  match topics log with [] => false | t :: _ => bool_decide (t = topic) end.

Definition try_parse_mint_event (log : Log) : result ParseMintEventError (option PeginData) :=
  if negb (is_event MINT_TOPIC log) then Ok None
  else
    match topics log with
    | [_; destination_topic] =>
        let? destination := ok_or (topic_to_address destination_topic)
                              (MintInvalidLog InvalidDestinationEncoding) in
        let? params := ok_or (abi_decode mint_params (log_data log))
                         (MintInvalidLog InvalidPayload) in
        match params with
        | [p0; p1; p2] =>
            let? amount := ok_or (into_uint p0) (MintInvalidLog InvalidMintAmount) in
            let? height := ok_or (into_uint p1) (MintInvalidLog InvalidBlockHeightParam) in
            let? bitcoin_block_height := as_u32 height in
            let? meta_bytes := ok_or (into_bytes p2) (MintInvalidLog InvalidMetadataParam) in
            let? meta := read_proofs (length meta_bytes) destination amount ∅ meta_bytes in
            Ok (Some {| pd_account := destination; pd_amount := amount;
                        pd_bitcoin_block_height := bitcoin_block_height; pd_meta := meta |})
        | _ => Err (MintInvalidLog WrongNumberOfParams)
        end
    | _ => Err (MintInvalidLog WrongNumberOfTopics)
    end.

Definition try_parse_burn_event (network : Network) (log : Log) :
    result ParseBurnEventError (option PegoutData) :=
  if negb (is_event BURN_TOPIC log) then Ok None
  else
    match topics log with
    | [_; _] =>
        let? params := ok_or (abi_decode burn_params (log_data log))
                         (BurnInvalidLog InvalidPayload) in
        match params with
        | [p0; p1; p2] =>
            let? amount := ok_or (into_uint p0) (BurnInvalidLog PegoutAmountParam) in
            let? btc_amount := ok_or (from_wei_floor amount) (BurnInvalidLog InvalidAmount) in
            let? destination := ok_or (into_string p1) (BurnInvalidLog PegoutDestinationParam) in
            let? metadata := ok_or (into_bytes p2)
                               (InvalidPegoutData (PegoutInvalid InvalidMetadata amount)) in
            let? _ := reject_if (negb (length metadata =? 1)%nat)
                        (InvalidPegoutData (PegoutInvalid InvalidMetadataLength amount)) in
            let? pegout := map_err InvalidPegoutData
                             (pegout_data_new btc_amount amount destination network) in
            Ok (Some pegout)
        | _ => Err (BurnInvalidLog WrongNumberOfParams)
        end
    | _ => Err (BurnInvalidLog WrongNumberOfTopics)
    end.
End mint.
