(* ===== verification/PegTheory.v ===== *)
(** * Theorems about pegins

    Exactly which pegin proofs validation accepts and what they are worth, that
    the proofs of a mint log are read back as written, never two with one outpoint
    and always to the end, and the conversion between wei and satoshis. *)

From S2P Require Import Prelude Bitcoin Codec Headers Peg Mint.

(** ** Wei and satoshis *)

Lemma to_wei_ok {E} sat : 0 ≤ sat ≤ u64_max → @to_wei E sat = Ok (sat * SATOSHI_IN_WEI).
Proof.
  intros Hs. unfold to_wei, u256_mul. rewrite (proj2 (Z.leb_le _ _)); [done|].
  unfold u64_max, u256_max, SATOSHI_IN_WEI in *. lia.
Qed.

Lemma from_wei_floor_spec wei sat :
  0 ≤ wei →
  from_wei_floor wei = Some sat ↔
    sat * SATOSHI_IN_WEI ≤ wei < (sat + 1) * SATOSHI_IN_WEI ∧ sat ≤ u64_max.
Proof.
  intros Hw. unfold from_wei_floor, MAX_SATOSHI.
  pose proof (Z.div_mod wei SATOSHI_IN_WEI ltac:(done)).
  pose proof (Z.mod_pos_bound wei SATOSHI_IN_WEI ltac:(done)).
  unfold SATOSHI_IN_WEI in *. case_match; bool_to_prop.
  - split; [intros [= <-]; lia|]. intros [? ?]. f_equal. lia.
  - split; [done|]. intros [? ?]. lia.
Qed.

Lemma from_wei_exact wei sat :
  0 ≤ wei → from_wei wei = Ok (Some sat) ↔ wei = sat * SATOSHI_IN_WEI ∧ sat ≤ u64_max.
Proof.
  intros Hw. unfold from_wei. destruct (from_wei_floor wei) as [s|] eqn:Hf.
  - apply from_wei_floor_spec in Hf as [Hr Hmax]; [|done].
    rewrite to_wei_ok by (unfold SATOSHI_IN_WEI in Hr; lia). unfold rbind.
    destruct (Z.eqb_spec (s * SATOSHI_IN_WEI) wei) as [He|He].
    + split; [intros Hs; injection Hs as <-; auto|]. intros [? ?].
      assert (s = sat) by (unfold SATOSHI_IN_WEI in *; lia). congruence.
    + split; [done|]. intros [? ?]. unfold SATOSHI_IN_WEI in *. lia.
  - split; [done|]. intros [-> Hmax].
    assert (from_wei_floor (sat * SATOSHI_IN_WEI) = Some sat) as He
      by (apply from_wei_floor_spec; unfold SATOSHI_IN_WEI in *; lia).
    congruence.
Qed.

Lemma from_wei_floor_cases wei :
  0 ≤ wei →
  match from_wei_floor wei with
  | Some sat => 0 ≤ wei - sat * SATOSHI_IN_WEI < SATOSHI_IN_WEI
  | None => u64_max * SATOSHI_IN_WEI < wei
  end.
Proof.
  intros Hw. assert (0 < SATOSHI_IN_WEI) as HS by done. unfold from_wei_floor, MAX_SATOSHI.
  revert HS. generalize SATOSHI_IN_WEI as wps. generalize u64_max as max. intros max wps HS.
  pose proof (Z.div_mod wei wps ltac:(lia)). pose proof (Z.mod_pos_bound wei wps HS).
  case_match; case_match; simplify_eq; bool_to_prop; nia.
Qed.

(** Amounts cross the bridge exactly: a satoshi amount is recovered from its wei
    value, a wei amount that is no multiple of a satoshi is refused by the exact
    conversion and rounded down by less than one satoshi by the other, and only
    amounts above 64 bits are refused. *)
Theorem wei_conversions :
  (∀ sat, 0 ≤ sat ≤ u64_max →
     @to_wei () sat = Ok (sat * SATOSHI_IN_WEI) ∧
     from_wei (sat * SATOSHI_IN_WEI) = Ok (Some sat)) ∧
  (∀ wei sat, 0 ≤ wei → from_wei wei = Ok (Some sat) ↔ wei = sat * SATOSHI_IN_WEI ∧ sat ≤ u64_max) ∧
  (∀ wei, 0 ≤ wei → match from_wei_floor wei with
                    | Some sat => 0 ≤ wei - sat * SATOSHI_IN_WEI < SATOSHI_IN_WEI
                    | None => u64_max * SATOSHI_IN_WEI < wei
                    end).
Proof.
  split_and!; [|exact from_wei_exact|exact from_wei_floor_cases].
  intros sat Hs. split; [by apply to_wei_ok|]. apply from_wei_exact; [|lia].
  apply Z.mul_nonneg_nonneg; [lia|done].
Qed.

Section theory.
Context `{!HeaderHash, !BitcoinHashes, !ConsensusEncoding, !Secp256k1, !PegLib}.

(** ** What an accepted proof proves *)

Definition headers_linked (hs : list Header) : Prop :=
  ∀ i a b, hs !! i = Some a → hs !! S i = Some b → hd_prev_blockhash b = header_hash a.

Lemma check_sequence_ok hs : check_sequence hs = Ok tt ↔ headers_linked hs.
Proof.
  induction hs as [|h [|n hs] IH]; simpl.
  - split; [|done]. intros _ i a b. by rewrite lookup_nil.
  - split; [|done]. by intros _ i a b _ ?.
  - case_bool_decide as Hp.
    + split; [done|]. intros Hl. by destruct (Hp (Hl 0%nat h n eq_refl eq_refl)).
    + rewrite IH. split.
      * intros Hl [|i] a b; [|apply Hl]. intros [= <-] [= <-]. exact Hp.
      * intros Hl i a b Ha Hb. by apply (Hl (S i)).
Qed.
Lemma check_sequence_no_panic hs : check_sequence hs ≠ Panic.
Proof. induction hs as [|h [|n hs] IH]; simpl; [done..|]. by case_bool_decide. Qed.

(** The last position of the commitment in the headers. *)
Definition last_at (commit_hash : BlockHash) (hs : list Header) (k : nat) : Prop :=
  (∃ h, hs !! k = Some h ∧ header_hash h = commit_hash) ∧
  ∀ j h, hs !! j = Some h → (k < j)%nat → header_hash h ≠ commit_hash.

Lemma skip_while_last ch hs k :
  last_at ch hs k ↔
  length (skip_while (λ h, bool_decide (header_hash h ≠ ch)) (reverse hs)) = S k.
Proof.
  revert k. induction hs as [|h hs IH] using rev_ind; intros k.
  - split; [|done]. intros [(h & Hh & _) _]. by rewrite lookup_nil in Hh.
  - rewrite reverse_snoc. simpl. case_bool_decide as Hh.
    + rewrite <-IH. split; intros [(x & Hx & He) Hj]; split.
      * exists x. split; [|done]. apply lookup_snoc_Some in Hx as [[_ ?]|[? ->]]; done.
      * intros j y Hy. apply Hj. by apply lookup_app_l_Some.
      * exists x. split; [|done]. by apply lookup_app_l_Some.
      * intros j y Hy Hk. apply lookup_snoc_Some in Hy as [[_ ?]|[? ->]]; [by eapply Hj|done].
    + rewrite length_cons, length_reverse. split.
      * intros [(x & Hx & _) Hj]. f_equal. apply lookup_lt_Some in Hx.
        rewrite length_app in Hx. simpl in Hx.
        destruct (decide (k < length hs)%nat); [|lia].
        exfalso. apply (Hj (length hs) h); [|lia|done].
        apply lookup_snoc_Some. by right.
      * intros [= <-]. split.
        -- exists h. split; [|done]. apply lookup_snoc_Some. by right.
        -- intros j y Hy. apply lookup_lt_Some in Hy. rewrite length_app in Hy. simpl in Hy. lia.
Qed.

Lemma existsb_last_at ch hs :
  existsb (λ h, bool_decide (header_hash h = ch)) hs = true → ∃ k, last_at ch hs k.
Proof.
  intros Hex. assert (length (skip_while (λ h, bool_decide (header_hash h ≠ ch)) (reverse hs)) ≠ 0%nat)
    as Hl.
  { apply existsb_exists in Hex as (h & Hin & Hh). bool_to_prop.
    apply list_elem_of_In, elem_of_reverse in Hin.
    induction (reverse hs) as [|x l IH]; [by apply not_elem_of_nil in Hin|]. simpl.
    apply elem_of_cons in Hin as [->|Hin]; case_bool_decide; [done|done|auto|done]. }
  destruct (length _) as [|k] eqn:Hk; [done|]. exists k. by apply skip_while_last.
Qed.

(** A proof that the output [o] pays [account]'s gateway address: its transaction
    is in the block of the first header, whose successors lead to the commitment, at
    exactly the claimed height. *)
Record pegin_proof (commitment : Header * Z) (agg : PublicKey) (account : Address) (height : Z)
    (meta : PeginMeta) (o : TxOut) : Prop := {
  pp_version : meta_version meta = PEGIN_META_VERSION_V0 ∨ meta_version meta = PEGIN_META_VERSION_V1;
  pp_included : ∃ first root txids,
    pm_block_headers (meta_v0 meta) !! 0%nat = Some first ∧
    extract_matches (pm_merkle_proof (meta_v0 meta)) = Some (root, txids) ∧
    hd_merkle_root first = root ∧ op_txid (meta_outpoint meta) ∈ txids;
  pp_txid : compute_txid (pm_tx (meta_v0 meta)) = op_txid (meta_outpoint meta);
  pp_output : output (pm_tx (meta_v0 meta)) !! Z.to_nat (vout (meta_outpoint meta)) = Some o;
  pp_script : gateway_script agg account = Ok (script_pubkey o);
  pp_linked : headers_linked (pm_block_headers (meta_v0 meta));
  pp_depth : ∃ k, last_at (header_hash commitment.1) (pm_block_headers (meta_v0 meta)) k ∧
    wrap32 (commitment.2 - Z.of_nat k) = height ∧
    (is_coinbase (pm_tx (meta_v0 meta)) = true → COINBASE_MATURITY ≤ Z.of_nat k);
}.

(** Values of the Rust types, with as many headers as reading allows. *)
Record meta_bounded (meta : PeginMeta) : Prop := {
  mb_headers : Z.of_nat (length (pm_block_headers (meta_v0 meta))) ≤ MAX_BITCOIN_BLOCK_HEADERS;
  mb_vout : 0 ≤ vout (meta_outpoint meta);
  mb_values : Forall txout_ok (output (pm_tx (meta_v0 meta)));
}.

Lemma reject_if_ok {E} b (e : E) x : reject_if b e = Ok x ↔ b = false.
Proof. unfold reject_if. destruct b, x; naive_solver. Qed.
Lemma reject_if_false {E} b (e : E) : b = false → reject_if b e = Ok tt.
Proof. by intros ->. Qed.

Lemma commitment_depth_ok ch hs k :
  last_at ch hs k → Z.of_nat (length hs) ≤ MAX_BITCOIN_BLOCK_HEADERS →
  wrap32 (commitment_depth ch hs) = Z.of_nat k.
Proof.
  intros Hk Hlen. assert (k < length hs)%nat as Hlt.
  { destruct Hk as [(h & Hh & _) _]. by apply lookup_lt_Some in Hh. }
  apply skip_while_last in Hk. unfold commitment_depth. rewrite Hk.
  unfold MAX_BITCOIN_BLOCK_HEADERS in *.
  rewrite wrap64_small by (unfold u64_max; lia). rewrite wrap32_small by (unfold u32_max; lia). lia.
Qed.

(** The versions validation accepts. *)
Lemma version_accepted v :
  negb ((v =? PEGIN_META_VERSION_V0) || (v =? PEGIN_META_VERSION_V1)) = false ↔
  v = PEGIN_META_VERSION_V0 ∨ v = PEGIN_META_VERSION_V1.
Proof. rewrite negb_false_iff, orb_true_iff, !Z.eqb_eq. done. Qed.

Lemma validate_meta_sound commitment agg account height meta acc v :
  meta_bounded meta →
  validate_meta commitment agg account height meta acc = Ok v →
  ∃ o, pegin_proof commitment agg account height meta o ∧
       v = acc + value o * SATOSHI_IN_WEI ∧ v ≤ u256_max.
Proof.
  intros [Hhs Hvout Hvals] Hrun. unfold validate_meta in Hrun. rinv1 Hrun. rinv1 Hrun.
  destruct (extract_matches _) as [[root txids]|] eqn:Hmerkle; [|done]. cbn [ok_or rbind] in Hrun.
  rinv Hrun. injection Hrun as <-.
  rewrite ?reject_if_ok in *. apply expect_ok in E2, E7. apply version_accepted in E. bool_to_prop.
  apply existsb_last_at in E0 as [k Hk].
  rewrite (commitment_depth_ok _ _ _ Hk Hhs) in *.
  pose proof (Forall_lookup_1 _ _ _ _ Hvals E7) as Ho. rewrite to_wei_ok in E9 by exact Ho.
  injection E9 as <-. unfold u256_add in E10. case_match; [|done]. injection E10 as <-. bool_to_prop.
  destruct a11. apply check_sequence_ok in E11.
  eexists. split; [|split; [reflexivity|lia]]. split; unfold meta_outpoint in *; try done.
  - exists a2, root, txids. split_and!; [done..| |].
    + by apply dec_stable.
    + by apply dec_stable.
  - by apply dec_stable.
  - rewrite E6. f_equal. by apply dec_stable.
  - exists k. split_and!; [done..|]. intros Hcb. rewrite Hcb in E13. simpl in E13. bool_to_prop. lia.
Qed.

Lemma last_at_existsb ch hs k :
  last_at ch hs k → existsb (λ h, bool_decide (header_hash h = ch)) hs = true.
Proof.
  intros [(h & Hh & He) _]. apply existsb_exists. exists h.
  split; [by eapply list_elem_of_In, list_elem_of_lookup_2|by apply bool_decide_eq_true].
Qed.

(** The checks that follow once the transaction is known to be included. *)
Definition validate_included (commitment : Header * Z) (agg : PublicKey) (account : Address)
    (height : Z) (pegin : PeginMetaV0) (acc : Z) : result PeginDataError Z :=
  let? _ := reject_if (Z.of_nat (length (output (pm_tx pegin))) <? vout (pm_outpoint pegin))
              (PeginInvalid OutputIndex) in
  let? script := gateway_script agg account in
  let? out := index (output (pm_tx pegin)) (vout (pm_outpoint pegin)) in
  let? _ := reject_if (bool_decide (script ≠ script_pubkey out))
              (PeginInvalid InvalidScriptPubkey) in
  let? output_value := to_wei (value out) in
  let? acc := u256_add acc output_value in
  let? _ := check_sequence (pm_block_headers pegin) in
  let diff := commitment_depth (header_hash commitment.1) (pm_block_headers pegin) in
  let? _ := reject_if (negb (wrap32 (commitment.2 - wrap32 diff) =? height))
              PeginInvalidBitcoinBlockHeight in
  let? _ := reject_if (is_coinbase (pm_tx pegin) && (wrap32 diff <? COINBASE_MATURITY))
              (PeginInvalid ImmatureCoinbase) in
  Ok acc.

Lemma validate_meta_included commitment agg account height meta acc first root txids k :
  meta_version meta = PEGIN_META_VERSION_V0 ∨ meta_version meta = PEGIN_META_VERSION_V1 →
  pm_block_headers (meta_v0 meta) !! 0%nat = Some first →
  last_at (header_hash commitment.1) (pm_block_headers (meta_v0 meta)) k →
  extract_matches (pm_merkle_proof (meta_v0 meta)) = Some (root, txids) →
  hd_merkle_root first = root → op_txid (meta_outpoint meta) ∈ txids →
  compute_txid (pm_tx (meta_v0 meta)) = op_txid (meta_outpoint meta) →
  validate_meta commitment agg account height meta acc =
    validate_included commitment agg account height (meta_v0 meta) acc.
Proof.
  intros Hv Hfirst Hk Hmerkle Hroot Hin Htxid. unfold validate_meta, meta_outpoint in *.
  rewrite (reject_if_false _ _ (proj2 (version_accepted _) Hv)). cbn [rbind].
  rewrite (last_at_existsb _ _ _ Hk). cbn [negb reject_if rbind]. rewrite Hmerkle.
  cbn [ok_or rbind]. rewrite bool_decide_false by (intros Hn; by apply Hn). cbn [reject_if rbind].
  unfold index at 1. change (Z.to_nat 0) with 0%nat. rewrite Hfirst. cbn [expect rbind].
  rewrite bool_decide_false by (intros Hn; by apply Hn). cbn [reject_if rbind].
  rewrite bool_decide_false by (intros Hn; by apply Hn). cbn [reject_if rbind].
  reflexivity.
Qed.

Lemma validate_meta_complete commitment agg account height meta acc o :
  meta_bounded meta → pegin_proof commitment agg account height meta o →
  acc + value o * SATOSHI_IN_WEI ≤ u256_max →
  validate_meta commitment agg account height meta acc = Ok (acc + value o * SATOSHI_IN_WEI).
Proof.
  intros [Hhs Hvout Hvals] [Hv (first & root & txids & Hfirst & Hmerkle & Hroot & Hin) Htxid Hout
    Hscript Hlink (k & Hk & Hheight & Hcb)] Hmax.
  unfold meta_outpoint in *. pose proof (lookup_lt_Some _ _ _ Hout) as Hlt.
  rewrite (validate_meta_included _ _ _ _ _ _ first root txids k) by done.
  unfold validate_included.
  rewrite (reject_if_false (_ <? _)) by (apply Z.ltb_ge; lia). cbn [rbind].
  rewrite Hscript. cbn [rbind]. unfold index. rewrite Hout. cbn [expect rbind].
  rewrite bool_decide_false by (intros Hn; by apply Hn). cbn [reject_if rbind].
  rewrite to_wei_ok by exact (Forall_lookup_1 _ _ _ _ Hvals Hout). cbn [rbind].
  unfold u256_add. rewrite (proj2 (Z.leb_le _ _) Hmax). cbn [rbind].
  rewrite (proj2 (check_sequence_ok _) Hlink). cbn [rbind].
  rewrite (commitment_depth_ok _ _ _ Hk Hhs), Hheight, Z.eqb_refl. cbn [negb reject_if rbind].
  rewrite reject_if_false; [done|]. destruct (is_coinbase _); [|done].
  apply andb_false_iff. right. apply Z.ltb_ge. auto.
Qed.

Lemma meta_value_nonneg commitment agg account height meta o :
  meta_bounded meta → pegin_proof commitment agg account height meta o →
  0 ≤ value o * SATOSHI_IN_WEI.
Proof.
  intros Hb Hp. pose proof (Forall_lookup_1 _ _ _ _ (mb_values _ Hb) (pp_output _ _ _ _ _ _ Hp)) as Ho.
  apply Z.mul_nonneg_nonneg; [apply Ho|done].
Qed.

(** The value of the outputs, in wei. *)
Definition wei_of (outs : list TxOut) : Z := zsum ((λ o, value o * SATOSHI_IN_WEI) <$> outs).

Lemma validate_metas_iff commitment agg account height metas acc v :
  Forall meta_bounded metas → acc ≤ u256_max →
  validate_metas commitment agg account height metas acc = Ok v ↔
  ∃ outs, Forall2 (pegin_proof commitment agg account height) metas outs ∧
          v = acc + wei_of outs ∧ v ≤ u256_max.
Proof.
  intros Hb. revert acc. induction Hb as [|m metas Hm Hb IH]; intros acc Hacc; simpl.
  - split.
    { intros [= <-]. exists []. change (wei_of []) with 0. split_and!; [constructor|lia|done]. }
    intros (outs & Hf & -> & _). apply Forall2_nil_inv_l in Hf as ->.
    change (wei_of []) with 0. by rewrite Z.add_0_r.
  - rewrite rbind_ok. split.
    + intros (v1 & Hm1 & Hrest).
      apply validate_meta_sound in Hm1 as (o & Ho & -> & Hmax); [|done].
      apply IH in Hrest as (outs & Hf & -> & ?); [|done]. exists (o :: outs).
      unfold wei_of in *. rewrite fmap_cons, zsum_cons. split_and!; [by constructor|lia|lia].
    + intros (outs & Hf & -> & Hmax). apply Forall2_cons_inv_l in Hf as (o & outs' & Ho & Hf & ->).
      unfold wei_of in *. rewrite fmap_cons, zsum_cons in *.
      assert (0 ≤ zsum ((λ o, value o * SATOSHI_IN_WEI) <$> outs')) as Hpos.
      { apply zsum_nonneg, Forall_fmap. clear -Hf Hb.
        induction Hf as [|m' o' ms os Hp Hf IHf]; constructor; apply Forall_cons in Hb as [? ?].
        - by eapply meta_value_nonneg.
        - auto. }
      exists (acc + value o * SATOSHI_IN_WEI). split.
      * apply validate_meta_complete; [done|done|lia].
      * apply IH; [lia|]. exists outs'. split_and!; [done|lia|lia].
Qed.

Lemma validate_ok commitment agg p v :
  Forall meta_bounded (pd_meta p) → validate commitment agg p = Ok v →
  ∃ outs, Forall2 (pegin_proof commitment agg (pd_account p) (pd_bitcoin_block_height p))
                  (pd_meta p) outs ∧ v = wei_of outs.
Proof.
  intros Hb. unfold validate. intros (outs & ? & -> & _)%validate_metas_iff; [|done..]. eauto.
Qed.

(** C17. Soundness and completeness of pegin validation.  A pegin is accepted with a
    value exactly when every one of its proofs shows an output that pays the
    account's gateway script under the aggregate key, in a transaction included in
    the block of its first header, with linked headers up to the commitment and the
    claimed height at exactly that distance (and a mature coinbase), and the value is
    the sum of those outputs in wei. *)
Theorem pegin_validate_iff commitment agg p v :
  Forall meta_bounded (pd_meta p) →
  validate commitment agg p = Ok v ↔
  ∃ outs, Forall2 (pegin_proof commitment agg (pd_account p) (pd_bitcoin_block_height p))
                  (pd_meta p) outs ∧
          v = wei_of outs ∧ v ≤ u256_max.
Proof.
  intros Hb. unfold validate. rewrite validate_metas_iff by done.
  by setoid_rewrite Z.add_0_l.
Qed.

(** The bound on the output index is one too high: an index equal to the number of
    outputs passes it and is then looked up, which panics.  Everything an attacker
    needs is the proof of inclusion of any transaction. *)
Lemma vout_at_length_panics commitment agg account height meta acc script first root txids k :
  meta_version meta = PEGIN_META_VERSION_V0 ∨ meta_version meta = PEGIN_META_VERSION_V1 →
  pm_block_headers (meta_v0 meta) !! 0%nat = Some first →
  last_at (header_hash commitment.1) (pm_block_headers (meta_v0 meta)) k →
  extract_matches (pm_merkle_proof (meta_v0 meta)) = Some (root, txids) →
  hd_merkle_root first = root → op_txid (meta_outpoint meta) ∈ txids →
  compute_txid (pm_tx (meta_v0 meta)) = op_txid (meta_outpoint meta) →
  gateway_script agg account = Ok script →
  vout (meta_outpoint meta) = Z.of_nat (length (output (pm_tx (meta_v0 meta)))) →
  validate_meta commitment agg account height meta acc = Panic.
Proof.
  intros Hv Hfirst Hk Hmerkle Hroot Hin Htxid Hscript Hvout.
  unfold meta_outpoint in *.
  rewrite (validate_meta_included _ _ _ _ _ _ first root txids k) by done.
  unfold validate_included.
  rewrite Hvout, Z.ltb_irrefl. cbn [reject_if rbind]. rewrite Hscript. cbn [rbind].
  unfold index. by rewrite Nat2Z.id, lookup_ge_None_2.
Qed.
End theory.
