(* ===== verification/MintTheory.v ===== *)
(** * Theorems about mint logs

    Pegin proofs survive their byte form, alone and one after the other; reading the
    proofs of a mint log always ends, and never yields two proofs of one outpoint or
    more headers than the limit. *)

From S2P Require Import Prelude Bitcoin Codec Headers Peg Mint HeadersTheory PegTheory.

Definition codec_shrinks {A} (c : codec A) : Prop :=
  ∀ bs a rest, consensus_decode c bs = Some (a, rest) → (length rest ≤ length bs)%nat.

(** Documented behaviour of the [bitcoin] crate's encodings: values are read back,
    headers take 80 bytes, arrays are written as they are, reading moves forward. *)
Class PegLaws `{!ConsensusEncoding, !Secp256k1, !PegLib} := {
  header_dom : Header → Prop;
  merkle_dom : PartialMerkleTree → Prop;
  tx_dom : Transaction → Prop;
  law_varint : codec_roundtrips (λ z, 0 ≤ z ≤ u64_max) c_varint;
  law_outpoint : codec_roundtrips outpoint_ok c_outpoint;
  law_header : codec_roundtrips header_dom c_header;
  size_header : codec_sized header_dom 80 c_header;
  law_merkle : codec_roundtrips merkle_dom c_merkle;
  law_tx : codec_roundtrips tx_dom c_tx;
  law_array32 a : consensus_encode c_array32 a = a;
  consume_u32 bs z rest : consensus_decode c_u32 bs = Some (z, rest) → (length rest < length bs)%nat;
  shrink_varint : codec_shrinks c_varint;
  shrink_outpoint : codec_shrinks c_outpoint;
  shrink_header : codec_shrinks c_header;
  shrink_merkle : codec_shrinks c_merkle;
  shrink_tx : codec_shrinks c_tx;
  (** what is read has the range of its type *)
  range_outpoint bs o rest : consensus_decode c_outpoint bs = Some (o, rest) → 0 ≤ vout o;
  range_tx bs t rest : consensus_decode c_tx bs = Some (t, rest) → Forall txout_ok (output t);
}.

Section theory.
Context `{!HeaderHash, !BitcoinHashes, !ConsensusEncoding, !Secp256k1, !PegLib, !Abi}.
Context `{!EncodingLaws, !Secp256k1Laws, !PegLaws}.

(** ** Round trips *)

(** A proof that can be sent: fields of the Rust types, and the version of its
    variant. *)
Record meta_v0_ok (version : Z) (m : PeginMetaV0) : Prop := {
  mo_version : pm_version m = version;
  mo_outpoint : outpoint_ok (pm_outpoint m);
  mo_address : length (pm_address m) = 20%nat;
  mo_headers : Forall header_dom (pm_block_headers m);
  mo_count : Z.of_nat (length (pm_block_headers m)) ≤ MAX_BITCOIN_BLOCK_HEADERS;
  mo_merkle : merkle_dom (pm_merkle_proof m);
  mo_tx : tx_dom (pm_tx m);
}.
Definition meta_ok (m : PeginMeta) : Prop :=
  match m with
  | MetaV0 m => meta_v0_ok PEGIN_META_VERSION_V0 m
  | MetaV1 m => meta_v0_ok PEGIN_META_VERSION_V1 (pm_inner m) ∧
                length (pm_ref_block_hash m) = 32%nat
  end.

Lemma decode_headers_encode hs rest :
  Forall header_dom hs →
  decode_headers (length hs) (concat (consensus_encode c_header <$> hs) ++ rest) = (Ok hs, rest).
Proof.
  induction 1 as [|h hs Hh _ IH]; [done|].
  rewrite fmap_cons. cbn [length decode_headers concat]. unfold sbind, sret.
  rewrite <-app_assoc. reads law_header. by rewrite IH.
Qed.

Lemma length_headers hs :
  Forall header_dom hs → length (concat (consensus_encode c_header <$> hs)) = (80 * length hs)%nat.
Proof.
  induction 1 as [|h hs Hh _ IH]; [done|].
  rewrite fmap_cons. cbn [concat]. rewrite length_app, IH, (size_header _ Hh). simpl. lia.
Qed.

Lemma read_block_headers_encode hs rest :
  Forall header_dom hs → Z.of_nat (length hs) ≤ MAX_BITCOIN_BLOCK_HEADERS →
  read_block_headers (consensus_encode c_varint (Z.of_nat (length hs)) ++
                      concat (consensus_encode c_header <$> hs) ++ rest) = (Ok hs, rest).
Proof.
  intros Hhs Hn. unfold read_block_headers, sbind at 1.
  rewrite (decode_encode _ _ _ _ _ law_varint)
    by (unfold MAX_BITCOIN_BLOCK_HEADERS, u64_max in *; lia).
  rewrite (proj2 (Z.ltb_ge _ _)) by done. unfold sbind, sget. cbn beta iota zeta.
  rewrite (proj2 (Z.ltb_ge _ _)), Nat2Z.id; [by apply decode_headers_encode|].
  rewrite length_app, length_headers by done. unfold BITCOIN_HEADER_SIZE.
  apply Z.div_le_lower_bound; lia.
Qed.

Lemma read_v0_serialize version m rest :
  u32_dom version → meta_v0_ok version m → read_v0 (serialize_v0 m ++ rest) = (Ok m, rest).
Proof.
  intros Hv [Hver Hop Ha Hhs Hn Hm Ht]. unfold read_v0, serialize_v0. rewrite Hver.
  rewrite <-!app_assoc. unfold sbind, sret. reads law_u32. reads law_outpoint.
  rewrite read_exact_app by done.
  rewrite read_exact_app by (by destruct (pk_serialize_array (pm_aggregate_publickey m))).
  rewrite parse_serialized_key, read_block_headers_encode by done.
  reads law_merkle. reads law_tx. destruct m. simpl in *. by subst.
Qed.

Lemma sized_app {E A} (r : SM bytes E A) bs rest a :
  r (bs ++ rest) = (Ok a, rest) → sized r (bs ++ rest) = Ok (a, length bs).
Proof. intros Hr. unfold sized. rewrite Hr, length_app. do 2 f_equal. lia. Qed.

Lemma meta_deserialize_serialize m rest :
  meta_ok m → meta_deserialize (meta_serialize m ++ rest) = Ok (m, length (meta_serialize m)).
Proof.
  assert (u32_dom 0 ∧ u32_dom 1) as [Hd0 Hd1] by (unfold u32_dom, u32_max; lia).
  assert (∀ (v : Z) (x : PeginMetaV0) (tl : bytes), u32_dom v → meta_v0_ok v x →
    ∃ n, sized (decode c_u32 PeginInvalidFormat) (serialize_v0 x ++ tl) = Ok (v, n)) as Hver.
  { intros v x tl Hd [Hv _ _ _ _ _ _]. unfold sized, serialize_v0. rewrite Hv, <-!app_assoc.
    rewrite (decode_encode _ _ _ _ _ law_u32) by done. eauto. }
  unfold meta_deserialize. destruct m as [m|m]; simpl meta_serialize; simpl meta_ok.
  - intros Hm. destruct (Hver _ _ rest Hd0 Hm) as [n ->]. cbn [rbind].
    simpl Z.eqb. unfold deserialize_v0. cbn [PEGIN_META_VERSION_V0 Z.eqb].
    by rewrite (sized_app _ _ _ m) by exact (read_v0_serialize _ _ _ Hd0 Hm).
  - intros [Hm Hh]. unfold serialize_v1. rewrite law_array32, <-app_assoc.
    destruct (Hver _ _ (pm_ref_block_hash m ++ rest) Hd1 Hm) as [n ->]. cbn [rbind].
    unfold deserialize_v1, deserialize_v0. cbn [PEGIN_META_VERSION_V0 PEGIN_META_VERSION_V1 Z.eqb Pos.eqb].
    rewrite (sized_app _ _ _ (pm_inner m)) by exact (read_v0_serialize _ _ _ Hd1 Hm). cbn [rbind].
    rewrite drop_app_length, (sized_app _ _ _ (pm_ref_block_hash m)) by (by apply read_exact_app).
    cbn [rbind]. rewrite length_app. by destruct m.
Qed.

Lemma meta_serialize_nonempty m : meta_ok m → (0 < length (meta_serialize m))%nat.
Proof.
  intros Hm. assert (∀ v x, u32_dom v → meta_v0_ok v x → (0 < length (serialize_v0 x))%nat) as H0'.
  { intros v x Hv [Hver _ _ _ _ _ _]. unfold serialize_v0. rewrite length_app, Hver, (size_u32 _ Hv). lia. }
  destruct m as [m|m]; simpl in *.
  - eapply H0'; [|done]. unfold u32_dom, u32_max, PEGIN_META_VERSION_V0. lia.
  - unfold serialize_v1. rewrite length_app. destruct Hm as [Hm _].
    pose proof (H0' PEGIN_META_VERSION_V1 _ ltac:(unfold u32_dom, u32_max, PEGIN_META_VERSION_V1; lia) Hm). lia.
Qed.

Lemma read_proofs_serialize fuel dest amount seen metas :
  Forall meta_ok metas → NoDup (meta_outpoint <$> metas) →
  (∀ m, m ∈ metas → meta_outpoint m ∉ seen) →
  (length (concat (meta_serialize <$> metas)) ≤ fuel)%nat →
  read_proofs fuel dest amount seen (concat (meta_serialize <$> metas)) = Ok metas.
Proof.
  intros Hok. revert fuel seen. induction Hok as [|m metas Hm Hok IH]; intros fuel seen Hnd Hseen Hf.
  { by destruct fuel. }
  change (meta_outpoint <$> m :: metas) with (meta_outpoint m :: (meta_outpoint <$> metas)) in Hnd.
  apply NoDup_cons in Hnd as [Hni Hnd].
  change (concat (meta_serialize <$> m :: metas)) with
    (meta_serialize m ++ concat (meta_serialize <$> metas)) in Hf |- *.
  rewrite length_app in Hf. pose proof (meta_serialize_nonempty m Hm) as Hpos.
  destruct (meta_serialize m ++ concat (meta_serialize <$> metas)) as [|b bs] eqn:Hbs.
  { apply (f_equal length) in Hbs. rewrite length_app in Hbs. simpl in Hbs. lia. }
  destruct fuel as [|fuel]; [lia|]. cbn [read_proofs]. rewrite <-Hbs.
  rewrite meta_deserialize_serialize by done. cbn [map_err rbind].
  rewrite bool_decide_false by (apply Hseen; left). rewrite drop_app_length.
  rewrite IH; [done|done| |lia]. intros m' Hm'. apply not_elem_of_union.
  split; [|by apply Hseen; right]. apply not_elem_of_singleton. intros He.
  apply Hni, list_elem_of_fmap. eauto.
Qed.

(** C38. Pegin proofs survive their byte form: every proof is read back from in front of
    any bytes with its exact size, and the metadata of a mint log that lists proofs of
    distinct outpoints is read back as that list. *)
Theorem pegin_proofs_roundtrip :
  (∀ m rest, meta_ok m →
     meta_deserialize (meta_serialize m ++ rest) = Ok (m, length (meta_serialize m))) ∧
  (∀ metas dest amount, Forall meta_ok metas → NoDup (meta_outpoint <$> metas) →
     let bs := concat (meta_serialize <$> metas) in
     read_proofs (length bs) dest amount ∅ bs = Ok metas).
Proof.
  split; [exact meta_deserialize_serialize|]. intros metas dest amount Hok Hnd bs.
  apply read_proofs_serialize; [done..| |done]. intros m _. apply not_elem_of_empty.
Qed.

(** ** Reading ends, and what it yields *)

(** A reader only moves forward. *)
Definition forward (bs bs' : bytes) : Prop := (length bs' ≤ length bs)%nat.
Instance forward_preorder : PreOrder forward.
Proof. unfold forward. split; repeat intro; lia. Qed.

Lemma decode_forward {E A} (c : codec A) (e : E) : codec_shrinks c → guarantees forward (decode c e).
Proof.
  intros Hc bs. unfold decode, forward. destruct (consensus_decode c bs) as [[a rest]|] eqn:Hd; [|done].
  by eapply Hc.
Qed.
Lemma read_exact_forward {E} n (e : E) : guarantees forward (read_exact n e).
Proof.
  intros bs. unfold read_exact, forward. case_match; simpl; [lia|]. rewrite length_drop. lia.
Qed.
Lemma parse_public_key_forward {E} pk (e : E) : guarantees forward (parse_public_key pk e).
Proof. apply guarantees_lift, _. Qed.
Hint Resolve decode_forward read_exact_forward parse_public_key_forward shrink_varint
  shrink_outpoint shrink_header shrink_merkle shrink_tx : macbeth.

Lemma decode_headers_forward n : guarantees forward (decode_headers n).
Proof. induction n; simpl; guarantees_tac. Qed.
Hint Resolve decode_headers_forward : macbeth.
Lemma read_block_headers_forward : guarantees forward read_block_headers.
Proof. unfold read_block_headers. guarantees_tac. Qed.
Hint Resolve read_block_headers_forward : macbeth.

(** A proof takes at least one byte. *)
Lemma read_v0_consumes bs m rest : read_v0 bs = (Ok m, rest) → (length rest < length bs)%nat.
Proof.
  unfold read_v0. intros (v & bs1 & Hv & Hrun)%sbind_ok.
  unfold decode in Hv. destruct (consensus_decode c_u32 bs) as [[v' bs1']|] eqn:Hd; [|done].
  injection Hv as <- <-. apply consume_u32 in Hd.
  match type of Hrun with ?k _ = _ => assert (guarantees forward k) as Hk by guarantees_tac end.
  specialize (Hk bs1'). rewrite Hrun in Hk. unfold forward in Hk. simpl in Hk. lia.
Qed.
Lemma deserialize_v0_size bs m n : deserialize_v0 bs = Ok (m, n) → (0 < n ≤ length bs)%nat.
Proof.
  unfold deserialize_v0, sized. destruct (read_v0 bs) as [[m'| |] rest] eqn:Hr; [|done..].
  intros [= <- <-]. apply read_v0_consumes in Hr. lia.
Qed.
Lemma meta_deserialize_size bs m n : meta_deserialize bs = Ok (m, n) → (0 < n)%nat.
Proof.
  unfold meta_deserialize. destruct (sized _ bs) as [[v k]| |]; [|done..]. cbn [rbind].
  repeat case_match; intros Hr; [|unfold deserialize_v1 in Hr|done];
    destruct (deserialize_v0 bs) as [[x sz]| |] eqn:H0'; try done; cbn [rbind] in Hr;
    apply deserialize_v0_size in H0'.
  - injection Hr as <- <-. lia.
  - destruct (sized _ (drop sz bs)) as [[h hs]| |]; try done. injection Hr as <- <-. lia.
Qed.

Lemma read_proofs_fuel fuel dest amount seen bs :
  (length bs ≤ fuel)%nat → read_proofs fuel dest amount seen bs ≠ Err MintOutOfFuel.
Proof.
  revert seen bs. induction fuel as [|fuel IH]; intros seen [|b bs] Hf; try done; [simpl in Hf; lia|].
  cbn [read_proofs]. set (l := b :: bs) in *.
  destruct (meta_deserialize l) as [[m n]| |] eqn:Hm; try done. cbn [map_err rbind].
  apply meta_deserialize_size in Hm. case_match; [done|].
  specialize (IH ({[meta_outpoint m]} ∪ seen) (drop n l)). rewrite length_drop in IH.
  destruct (read_proofs fuel _ _ _ _) as [|e|]; try done. intros [= ->].
  apply IH; [unfold l in *; simpl in *; lia|done].
Qed.

(** The number of headers of a proof that was read. *)
Lemma decode_headers_count n bs hs rest :
  decode_headers n bs = (Ok hs, rest) → length hs = n.
Proof.
  revert bs hs rest. induction n as [|n IH]; intros bs hs rest; simpl; [by intros [= <- _]|].
  intros (h & bs1 & _ & (hs' & bs2 & Hr & [= <- _])%sbind_ok)%sbind_ok. simpl. f_equal.
  by eapply IH.
Qed.
Lemma read_block_headers_count bs hs rest :
  read_block_headers bs = (Ok hs, rest) → Z.of_nat (length hs) ≤ MAX_BITCOIN_BLOCK_HEADERS.
Proof.
  unfold read_block_headers. intros (n & bs1 & _ & Hr)%sbind_ok. case_match; [done|]. bool_to_prop.
  apply sbind_ok in Hr as (bs2 & bs3 & _ & Hr). case_match; [done|].
  apply decode_headers_count in Hr. unfold MAX_BITCOIN_BLOCK_HEADERS in *. lia.
Qed.
Lemma deserialize_v0_bounded bs m n :
  deserialize_v0 bs = Ok (m, n) → meta_bounded (MetaV0 m).
Proof.
  unfold deserialize_v0, sized. destruct (read_v0 bs) as [[m'| |] rest] eqn:Hr; [|done..].
  intros [= <- <-]. unfold read_v0 in Hr.
  apply sbind_ok in Hr as (? & ? & _ & Hr). apply sbind_ok in Hr as (o & ? & Ho & Hr).
  do 3 apply sbind_ok in Hr as (? & ? & _ & Hr).
  apply sbind_ok in Hr as (hs & bs1 & Hhs & Hr). apply sbind_ok in Hr as (? & ? & _ & Hr).
  apply sbind_ok in Hr as (t & ? & Ht & Hr). injection Hr as <- _.
  unfold decode in Ho, Ht. repeat case_match; simplify_eq.
  split; simpl; [by eapply read_block_headers_count|by eapply range_outpoint|by eapply range_tx].
Qed.
Lemma meta_deserialize_bounded bs m n : meta_deserialize bs = Ok (m, n) → meta_bounded m.
Proof.
  unfold meta_deserialize. destruct (sized _ bs) as [[v k]| |]; [|done..]. cbn [rbind].
  repeat case_match; intros Hr; [|unfold deserialize_v1 in Hr|done];
    destruct (deserialize_v0 bs) as [[x sz]| |] eqn:H0'; try done; cbn [rbind] in Hr;
    apply deserialize_v0_bounded in H0'.
  - by injection Hr as <- <-.
  - destruct (sized _ (drop sz bs)) as [[h hs]| |]; try done. injection Hr as <- <-.
    by destruct H0'.
Qed.

Lemma read_proofs_ok fuel dest amount seen bs metas :
  read_proofs fuel dest amount seen bs = Ok metas →
  NoDup (meta_outpoint <$> metas) ∧ Forall meta_bounded metas ∧
  ∀ m, m ∈ metas → meta_outpoint m ∉ seen.
Proof.
  revert seen bs metas. induction fuel as [|fuel IH]; intros seen [|b bs] metas; try done;
    cbn [read_proofs]; [intros [= <-]; split_and!; [constructor|constructor|]; set_solver..|].
  destruct (meta_deserialize (b :: bs)) as [[m n]| |] eqn:Hm; try done. cbn [map_err rbind].
  case_bool_decide as Hin; [done|].
  destruct (read_proofs fuel _ _ _ _) as [ms| |] eqn:Hrest; try done. intros [= <-].
  apply IH in Hrest as (Hnd & Hb & Hseen). apply meta_deserialize_bounded in Hm. split_and!.
  - rewrite fmap_cons. apply NoDup_cons. split; [|done].
    intros (m' & He & Hm')%list_elem_of_fmap. apply Hseen in Hm'. set_solver.
  - by constructor.
  - intros m' [->|Hm']%elem_of_cons; [done|]. apply Hseen in Hm'. set_solver.
Qed.

(** What a parsed mint guarantees of its proofs. *)
Lemma mint_event_pegin log p :
  try_parse_mint_event log = Ok (Some p) →
  NoDup (meta_outpoint <$> pd_meta p) ∧ Forall meta_bounded (pd_meta p) ∧
  pd_bitcoin_block_height p ≤ u32_max.
Proof.
  unfold try_parse_mint_event. destruct (is_event MINT_TOPIC log); [cbn [negb]|done].
  destruct (topics log) as [|t0 [|t1 [|]]]; try done.
  intros Hr. apply rbind_ok in Hr as (dest & _ & Hr). apply rbind_ok in Hr as (ps & _ & Hr).
  destruct ps as [|p0 [|p1 [|p2 [|]]]]; try done. unfold as_u32 in Hr. rinv Hr. simplify_eq. simpl.
  case_match; [bool_to_prop; simplify_eq|done].
  edestruct read_proofs_ok as (? & ? & _); [eassumption|]. done.
Qed.

(** C39. Mint logs.  Parsing one always ends, whatever its bytes; a log that is not a mint
    of the mint contract is no pegin; and the proofs of one that is have pairwise
    distinct outpoints, so that no deposit counts twice in one pegin, and at most 2016
    headers each. *)
Theorem mint_event_parsed log :
  try_parse_mint_event log ≠ Err MintOutOfFuel ∧
  (is_event MINT_TOPIC log = false ↔ try_parse_mint_event log = Ok None) ∧
  (∀ p, try_parse_mint_event log = Ok (Some p) →
     NoDup (meta_outpoint <$> pd_meta p) ∧ Forall meta_bounded (pd_meta p) ∧
     pd_bitcoin_block_height p ≤ u32_max).
Proof.
  apply Logic.and_assoc. split; [|intros p; apply mint_event_pegin].
  unfold try_parse_mint_event. destruct (is_event MINT_TOPIC log); simpl; [|done].
  destruct (topics log) as [|t0 [|t1 [|]]]; try done.
  destruct (topic_to_address t1) as [dest|]; [|done]. simpl.
  destruct (abi_decode _ _) as [[|p0 [|p1 [|p2 [|]]]]|]; try done.
  simpl. destruct (into_uint p0) as [amount|]; [|done]. simpl.
  destruct (into_uint p1) as [h|]; [|done]. simpl. unfold as_u32.
  destruct (Z.leb_spec h u32_max); [|done]. simpl.
  destruct (into_bytes p2) as [mb|]; [|done]. simpl.
  pose proof (read_proofs_fuel (length mb) dest amount ∅ mb (le_n _)) as Hfuel.
  destruct (read_proofs _ _ _ _ _) as [metas|e|]; simpl; [done| |done].
  split; [by intros [= ->]|done].
Qed.
End theory.

(** ** A worked example *)

Module PegSample.
Import SampleCodec.
#[local] Existing Instances sample_encoding sample_encoding_laws sample_secp sample_secp_laws.

(** The block of a height, after the one before it. *)
Definition header (n : Z) : Header :=
  {| hd_version := 0; hd_prev_blockhash := [n - 1]; hd_merkle_root := [42]; hd_time := 0;
     hd_bits := 0; hd_nonce := n |}.
#[local] Instance sample_header_hash : HeaderHash := λ h, [hd_nonce h].

Definition key : PublicKey := exist (λ bs, Is_true (sample_key_ok bs)) (replicate 32 1) I.
Definition deposit : TxOut := {| value := 7; script_pubkey := 81 :: 32 :: replicate 32 1 |}.
Definition tx : Transaction :=
  {| tx_version := 2; lock_time := 0; input := []; output := [deposit] |}.
Definition txid : Txid := replicate 32 5.
#[local] Instance sample_hashes : BitcoinHashes :=
  {| compute_txid _ := txid; block_hash _ := [] |}.

Definition header_codec : codec Header := mkCodec (λ h, hd_nonce h :: replicate 79 0) (λ bs,
  if (length bs <? 80)%nat then None
  else n ← head bs; Some (header n, drop 80 bs)).
Definition outpoint_codec : codec OutPoint := mkCodec to_bytes (λ bs,
  if (length bs <? 36)%nat then None
  else Some (mkOutPoint (take 32 bs) (Z.max 0 (from_le_bytes (take 4 (drop 32 bs)))), drop 36 bs)).
Definition constant_codec {A} (a : A) : codec A := mkCodec (λ _, []) (λ bs, Some (a, bs)).

#[local] Instance sample_peg : PegLib := {|
  PartialMerkleTree := ();
  extract_matches _ := Some ([42], [txid]);
  is_coinbase _ := false;
  COINBASE_MATURITY := 100;
  c_varint := le_codec 8; c_outpoint := outpoint_codec; c_header := header_codec;
  c_merkle := constant_codec (); c_tx := constant_codec tx; c_array32 := array_codec 32;
  VerifyingKey := bytes; vk_deserialize bs := Some bs; vk_serialize vk := Some vk;
  vk_tweak vk _ := vk; x_only_public_key pk := tail (pk_serialize pk);
  new_p2tr_tweaked x := 81 :: 32 :: x;
  BtcAddress := bytes; UncheckedAddress := bytes;
  address_from_str s := Some s; require_network a _ := Some a;
|}.

Lemma outpoint_codec_roundtrips : codec_roundtrips outpoint_ok outpoint_codec.
Proof.
  intros o rest (Hl & _ & Hv). unfold u32_max in Hv. simpl.
  assert (length (to_bytes o) = 36%nat) as Hb
    by (unfold to_bytes; rewrite length_app, length_to_le_bytes; lia).
  rewrite length_app, Hb, (proj2 (Nat.ltb_ge _ _)) by lia.
  rewrite (drop_app_length' _ _ 36) by done. unfold to_bytes. rewrite <-app_assoc.
  rewrite take_app_length', drop_app_length' by done.
  rewrite take_app_length' by (by rewrite length_to_le_bytes).
  rewrite from_to_le_bytes, Z.max_r by lia. by destruct o.
Qed.

Lemma le_codec_consumes n bs z rest :
  consensus_decode (le_codec n) bs = Some (z, rest) → length bs = (n + length rest)%nat.
Proof.
  simpl. destruct (Nat.ltb_spec (length bs) n); [done|]. intros [= _ <-]. rewrite length_drop. lia.
Qed.

#[local] Program Instance sample_peg_laws : PegLaws := {|
  header_dom h := h = header (hd_nonce h);
  merkle_dom _ := True;
  tx_dom t := t = tx;
  law_outpoint := outpoint_codec_roundtrips;
|}.
Next Obligation.
  apply le_codec_roundtrips. intros z. unfold u64_max. lia.
Qed.
Next Obligation. intros h rest Hh. simpl. rewrite <-Hh. reflexivity. Qed.
Next Obligation. intros h _. reflexivity. Qed.
Next Obligation. intros [] rest _. reflexivity. Qed.
Next Obligation. intros t rest ->. reflexivity. Qed.
Next Obligation. intros a. reflexivity. Qed.
Next Obligation. intros bs z rest Hd. apply (le_codec_consumes 4) in Hd. lia. Qed.
Next Obligation. intros bs z rest Hd. apply (le_codec_consumes 8) in Hd. lia. Qed.
Next Obligation.
  intros bs o rest. simpl. case_match; [done|]. intros [= _ <-]. rewrite length_drop. lia.
Qed.
Next Obligation.
  intros bs h rest. simpl. case_match; [done|]. destruct bs; [done|]. simpl.
  intros [= _ <-]. rewrite length_drop. lia.
Qed.
Next Obligation. intros bs [] rest [= <-]. done. Qed.
Next Obligation. intros bs t rest [= _ <-]. done. Qed.
Next Obligation.
  intros bs o rest. simpl. case_match; [done|]. intros [= <- _]. simpl. lia.
Qed.
Next Obligation.
  intros bs t rest [= <- _]. repeat constructor; simpl; unfold u64_max; lia.
Qed.

#[local] Instance sample_abi : Abi := {|
  abi_decode ps bs := match ps with
    | [PAddress] => Some [TAddress (drop 12 bs)]
    | [PUint _; PUint _; PBytes] => Some [TUint 60000000000; TUint 98; TBytes bs]
    | _ => None
    end;
  MINT_TOPIC := [1]; BURN_TOPIC := [2];
|}.

(** Heights 98 to 101: the commitment is the third block, at height 100. *)
Definition meta (vout : Z) : PeginMeta := MetaV0 (mkMetaV0 0 () (mkOutPoint txid vout)
  (replicate 20 9) key [header 98; header 99; header 100; header 101] tx).
Definition pegin (vout : Z) : PeginData :=
  {| pd_account := replicate 20 9; pd_amount := 60000000000; pd_bitcoin_block_height := 98;
     pd_meta := [meta vout] |}.

Lemma pegin_bounded : Forall meta_bounded (pd_meta (pegin 0)).
Proof.
  repeat constructor; simpl; unfold MAX_BITCOIN_BLOCK_HEADERS, txout_ok, u64_max; simpl; lia.
Qed.

Lemma pegin_validate_iff_witness :
  ∃ outs, Forall2 (pegin_proof (header 100, 100) key (replicate 20 9) 98) [meta 0] outs ∧
          70000000000 = wei_of outs ∧ 70000000000 ≤ u256_max.
Proof.
  apply (proj1 (pegin_validate_iff (header 100, 100) key (pegin 0) 70000000000 pegin_bounded)).
  vm_compute. reflexivity.
Defined.

(** The output index equal to the number of outputs takes the validator down. *)
Example vout_one_panics : validate (header 100, 100) key (pegin 1) = Panic.
Proof. vm_compute. reflexivity. Qed.

Lemma meta_is_ok : meta_ok (meta 0).
Proof.
  split; try reflexivity.
  - split_and!; [reflexivity|by repeat constructor|simpl; unfold u32_max; lia..].
  - repeat constructor.
  - unfold MAX_BITCOIN_BLOCK_HEADERS. simpl. lia.
Qed.

Lemma pegin_proofs_roundtrip_witness :
  meta_deserialize (meta_serialize (meta 0) ++ [1; 2]) =
    Ok (meta 0, length (meta_serialize (meta 0))).
Proof. apply (proj1 pegin_proofs_roundtrip (meta 0) [1; 2] meta_is_ok). Defined.

Definition mint_log : Log :=
  mkLog MINT_CONTRACT_ADDRESS [[1]; zeros 12 ++ replicate 20 9] (meta_serialize (meta 0)).
Definition is_some_ok {E A} (r : result E (option A)) : bool :=
  match r with Ok (Some _) => true | _ => false end.
Lemma is_some_ok_inv {E A} (r : result E (option A)) :
  is_some_ok r = true → ∃ a, r = Ok (Some a).
Proof. destruct r as [[a|]| |]; naive_solver. Qed.

Lemma mint_event_parsed_witness :
  ∃ p, try_parse_mint_event mint_log = Ok (Some p) ∧ NoDup (meta_outpoint <$> pd_meta p).
Proof.
  destruct (is_some_ok_inv (try_parse_mint_event mint_log)) as [p Hp]; [vm_compute; reflexivity|].
  exists p. split; [exact Hp|]. exact (proj1 (proj2 (proj2 (mint_event_parsed mint_log)) p Hp)).
Defined.

End PegSample.
