(* ===== verification/ChainRules.v ===== *)
(** * The rules of the chain

    - fork conditions and schedules ([crates/ethereum-forks]) and the chain
      specification ([crates/chainspec], [crates/botanix-chainspec]);
    - block rewards and the split of the fees ([consensus/common/src/calc.rs],
      [utils.rs], [crates/revm/src/state_change.rs]).

    The rules on headers and blocks are in [HeaderRules]. *)

From stdpp Require Import strings.
From S2P Require Import Prelude Bitcoin Codec Headers.

(** [u128] arithmetic. *)
Definition u128_max : Z := 2 ^ 128 - 1.
Definition wrap128 (x : Z) : Z := x mod 2 ^ 128.

(** ** Forks *)

Inductive ForkCondition :=
  | ForkBlock (block : Z)
  | ForkTTD (fork_block : option Z) (total_difficulty : Z)
  | ForkTimestamp (time : Z)
  | ForkNever.

Definition active_at_block (c : ForkCondition) (current : Z) : bool :=
  match c with
  | ForkBlock block | ForkTTD (Some block) _ => block <=? current
  | _ => false
  end.
Definition transitions_at_block (c : ForkCondition) (current : Z) : bool :=
  match c with ForkBlock block => current =? block | _ => false end.
Definition active_at_ttd (c : ForkCondition) (ttd difficulty : Z) : bool :=
  match c with
  | ForkTTD _ total_difficulty => total_difficulty <=? saturating_sub ttd difficulty
  | _ => false
  end.
Definition active_at_timestamp (c : ForkCondition) (timestamp : Z) : bool :=
  match c with ForkTimestamp time => time <=? timestamp | _ => false end.
Definition transitions_at_timestamp (c : ForkCondition) (timestamp parent_timestamp : Z) : bool :=
  match c with
  | ForkTimestamp time => (time <=? timestamp) && (parent_timestamp <? time)
  | _ => false
  end.

(** A fork is known by its name. *)
Record ChainHardforks := mkForks {
  forks : list (string * ForkCondition);
  fork_map : gmap string ForkCondition;
}.
Definition forks_new (l : list (string * ForkCondition)) : ChainHardforks :=
  mkForks l (foldl (λ m p, <[p.1 := p.2]> m) ∅ l).
Definition forks_get (f : string) (c : ChainHardforks) : option ForkCondition := fork_map c !! f.
Definition fork (f : string) (c : ChainHardforks) : ForkCondition :=
  default ForkNever (forks_get f c).
Definition fork_block_of (f : string) (c : ChainHardforks) : option Z :=
  match fork f c with
  | ForkBlock block => Some block
  | ForkTTD fork_block _ => fork_block
  | ForkTimestamp ts => Some ts
  | ForkNever => None
  end.
Definition is_fork_active_at_timestamp (f : string) (ts : Z) (c : ChainHardforks) : bool :=
  active_at_timestamp (fork f c) ts.
Definition is_fork_active_at_block (f : string) (n : Z) (c : ChainHardforks) : bool :=
  active_at_block (fork f c) n.

(** [iter_mut().find(..)]: the first entry with the name. *)
Fixpoint update_first (f : string) (cond : ForkCondition) (l : list (string * ForkCondition)) :
    list (string * ForkCondition) :=
  match l with
  | [] => []
  | p :: l' => if bool_decide (p.1 = f) then (p.1, cond) :: l' else p :: update_first f cond l'
  end.
Definition forks_insert (f : string) (cond : ForkCondition) (c : ChainHardforks) : ChainHardforks :=
  match fork_map c !! f with
  | Some _ => mkForks (update_first f cond (forks c)) (<[f := cond]> (fork_map c))
  | None => mkForks (forks c ++ [(f, cond)]) (<[f := cond]> (fork_map c))
  end.
Definition forks_remove (f : string) (c : ChainHardforks) : ChainHardforks :=
  mkForks (filter (λ p, p.1 ≠ f) (forks c)) (delete f (fork_map c)).

Definition London : string := "London".
Definition Paris : string := "Paris".
Definition Shanghai : string := "Shanghai".
Definition Cancun : string := "Cancun".
Definition Prague : string := "Prague".
Definition Byzantium : string := "Byzantium".
Definition Constantinople : string := "Constantinople".
Definition SpuriousDragon : string := "SpuriousDragon".
Definition Dao : string := "Dao".
Definition Berlin : string := "Berlin".

(** ** Chain specifications *)

Section spec.
Context `{!EthLib}.

Inductive BaseFeeParamsKind :=
  | ConstantParams (p : BaseFeeParams)
  | VariableParams (l : list (string * BaseFeeParams)).

Record ChainSpec := mkSpec {
  chain_id : Z;
  hardforks : ChainHardforks;
  base_fee_params : BaseFeeParamsKind;
}.

Record BotanixChainSpec := mkBotanixSpec {
  inner : ChainSpec;
  bitcoin_checkpoint_confirmation_depth : Z;
  historical_bitcoin_checkpoints_count : Z;
  weak_bitcoin_checkpoints_count : Z;
  leader_selection_window : option Z;
  botanix_fee_recipient : option string;
  lst_fee_receiver : option string;
  epoch_length : Z;
}.

(** The first entry, from the last backwards, whose fork is active; [ethereum] is
    [BaseFeeParams::ethereum()]. *)
Definition base_fee_params_at_timestamp (ethereum : BaseFeeParams) (s : ChainSpec) (ts : Z) :
    BaseFeeParams :=
  match base_fee_params s with
  | ConstantParams p => p
  | VariableParams l =>
      match find (λ p, is_fork_active_at_timestamp p.1 ts (hardforks s)) (reverse l) with
      | Some p => p.2
      | None => from_option snd ethereum (head l)
      end
  end.

Definition is_shanghai_active_at_timestamp (s : ChainSpec) (ts : Z) : bool :=
  is_fork_active_at_timestamp Shanghai ts (hardforks s).
Definition is_cancun_active_at_timestamp (s : ChainSpec) (ts : Z) : bool :=
  is_fork_active_at_timestamp Cancun ts (hardforks s).
Definition is_prague_active_at_timestamp (s : ChainSpec) (ts : Z) : bool :=
  is_fork_active_at_timestamp Prague ts (hardforks s).
Definition is_byzantium_active_at_block (s : ChainSpec) (n : Z) : bool :=
  active_at_block (fork Byzantium (hardforks s)) n.
Definition is_spurious_dragon_active_at_block (s : ChainSpec) (n : Z) : bool :=
  active_at_block (fork SpuriousDragon (hardforks s)) n.

Definition BOTANIX_TESTNET_CHAIN_ID : Z := 3636.
Definition BOTANIX_MAINNET_CHAIN_ID : Z := 3637.

(** [BotanixHardfork::botanix()]: the forks of every Botanix chain. *)
Definition botanix : list (string * ForkCondition) := [
  ("Frontier", ForkBlock 0); ("Homestead", ForkBlock 0); (Dao, ForkBlock 0);
  ("Tangerine", ForkBlock 0); (SpuriousDragon, ForkBlock 0); (Byzantium, ForkBlock 0);
  (Constantinople, ForkBlock 0); ("Petersburg", ForkBlock 0); ("Istanbul", ForkBlock 0);
  ("MuirGlacier", ForkBlock 0); (Berlin, ForkBlock 0); (London, ForkBlock 0);
  (Paris, ForkTTD (Some 0) 0); (Shanghai, ForkTimestamp 0); (Cancun, ForkTimestamp 0)].
(** The chains of [constants.rs]; [ethereum] is [BaseFeeParams::ethereum()]. *)
Definition BOTANIX_TESTNET (ethereum : BaseFeeParams) : BotanixChainSpec := {|
  inner := mkSpec BOTANIX_TESTNET_CHAIN_ID (forks_new botanix) (ConstantParams ethereum);
  bitcoin_checkpoint_confirmation_depth := 1; weak_bitcoin_checkpoints_count := 0;
  historical_bitcoin_checkpoints_count := 1; leader_selection_window := Some 20;
  botanix_fee_recipient := None; lst_fee_receiver := None; epoch_length := 10 |}.
Definition BOTANIX_MAINNET (ethereum : BaseFeeParams) : BotanixChainSpec := {|
  inner := mkSpec BOTANIX_MAINNET_CHAIN_ID (forks_new botanix) (ConstantParams ethereum);
  bitcoin_checkpoint_confirmation_depth := 18; weak_bitcoin_checkpoints_count := 1;
  historical_bitcoin_checkpoints_count := 1; leader_selection_window := Some 20;
  botanix_fee_recipient := None; lst_fee_receiver := None; epoch_length := 100 |}.

(** ** Rewards and fees *)

Definition ETH_TO_WEI : Z := 1000000000000000000.
Definition GWEI_TO_WEI : Z := 1000000000.

Definition base_block_reward_pre_merge (s : ChainSpec) (n : Z) : Z :=
  if active_at_block (fork Constantinople (hardforks s)) n then ETH_TO_WEI * 2
  else if active_at_block (fork Byzantium (hardforks s)) n then ETH_TO_WEI * 3
  else ETH_TO_WEI * 5.
Definition base_block_reward (s : ChainSpec) (n difficulty total_difficulty : Z) : option Z :=
  if active_at_ttd (fork Paris (hardforks s)) total_difficulty difficulty then None
  else Some (base_block_reward_pre_merge s n).
Definition block_reward (base : Z) (ommers : Z) : Z := wrap128 (base + Z.shiftr base 5 * ommers).
(** [8 + ommer - block] is computed in [u64]. *)
Definition ommer_reward (base block_number ommer_number : Z) : Z :=
  Z.shiftr (wrap128 (wrap64 (8 + ommer_number - block_number) * base)) 3.

Definition u128_checked_add (a b : Z) : option Z := if a + b <=? u128_max then Some (a + b) else None.
Definition u128_checked_mul (a b : Z) : option Z := if a * b <=? u128_max then Some (a * b) else None.

(** Overflow panics. *)
Definition block_fees_split {E : Type} (total : Z) : result E (Z * Z * Z) :=
  let? m50 := expect (u128_checked_mul total 50) in
  let? lst := expect (checked_div m50 100) in
  let? m40 := expect (u128_checked_mul total 40) in
  let? botanix := expect (checked_div m40 100) in
  let? rest := expect (checked_sub total lst) in
  let? recipient := expect (checked_sub rest botanix) in
  Ok (lst, botanix, recipient).

Record Withdrawal := { wd_address : Address; wd_amount : Z }.

(** [*entry(a).or_default() += v] *)
Definition add_to (a : Address) (v : Z) (m : gmap Address Z) : gmap Address Z :=
  <[a := wrap128 (default 0 (m !! a) + v)]> m.
(** [entry(a).and_modify(checked_add.expect).or_insert(v)] *)
Definition add_checked {E : Type} (a : Address) (v : Z) (m : gmap Address Z) : result E (gmap Address Z) :=
  match m !! a with
  | Some b => let? s := expect (u128_checked_add b v) in Ok (<[a := s]> m)
  | None => Ok (<[a := v]> m)
  end.

(** The parts of a block the rewards depend on: its header, the beneficiary and number
    of each ommer, and the withdrawals. *)
Definition insert_post_block_withdrawals_balance_increments (s : ChainSpec) (ts : Z)
    (withdrawals : option (list Withdrawal)) (m : gmap Address Z) : gmap Address Z :=
  if is_shanghai_active_at_timestamp s ts then
    match withdrawals with
    | Some l => foldl (λ m w, if 0 <? wd_amount w
                              then add_to (wd_address w) (wd_amount w * GWEI_TO_WEI) m else m) m l
    | None => m
    end
  else m.

(** [address_parse] is [Address::from_str]; a configured address that does not parse
    panics. *)
Definition post_block_balance_increments {E : Type} (address_parse : string → option Address)
    (s : BotanixChainSpec) (h : EthHeader) (ommers : list (Address * Z))
    (withdrawals : option (list Withdrawal)) (total_difficulty : Z) (total_block_fees : option Z)
    (fee_recipient : option Address) : result E (gmap Address Z) :=
  let m0 : gmap Address Z :=
    match base_block_reward (inner s) (h_number h) (h_difficulty h) total_difficulty with
    | Some base =>
        add_to (h_beneficiary h) (block_reward base (Z.of_nat (length ommers)))
          (foldl (λ m o, add_to o.1 (ommer_reward base (h_number h) o.2) m) ∅ ommers)
    | None => ∅
    end in
  let fees := default 0 total_block_fees in
  let recipient := default address_zero fee_recipient in
  let? m1 :=
    (match lst_fee_receiver s, botanix_fee_recipient s with
     | Some lst_str, Some botanix_str =>
         if (0 <? fees) && bool_decide (recipient ≠ address_zero) then
           let? '(lst_fees, botanix_fees, recipient_fees) := block_fees_split fees in
           let? lst := expect (address_parse lst_str) in
           let? m := add_checked lst lst_fees m0 in
           let? botanix := expect (address_parse botanix_str) in
           let? m := add_checked botanix botanix_fees m in
           add_checked recipient recipient_fees m
         else Ok m0
     | _, _ => Ok m0
     end) in
  Ok (insert_post_block_withdrawals_balance_increments (inner s) (h_timestamp h) withdrawals m1).
End spec.
