(* ===== verification/HeaderRules.v ===== *)
(** * Which headers and blocks are valid

    Transactions and blocks with the fields the rules read
    ([crates/primitives/src/transaction/mod.rs], [block.rs]), the checks of
    [consensus/common/src/validation.rs] and [ethereum/consensus/src/validation.rs],
    and [AuthorityConsensus] of [consensus/authority/src/lib.rs]. *)

From S2P Require Import Prelude Bitcoin Codec Headers Peg ChainRules.

(** ** Transactions *)

Inductive TxFees :=
  | Legacy (gas_price : Z)
  | Eip2930 (gas_price : Z)
  | Eip1559 (max_fee_per_gas max_priority_fee_per_gas : Z)
  | Eip4844 (max_fee_per_gas max_priority_fee_per_gas : Z) (blob_versioned_hashes : list B256)
  | Eip7702 (max_fee_per_gas max_priority_fee_per_gas : Z).

Record TransactionSigned := {
  ts_hash : B256;
  ts_fees : TxFees;
  ts_gas_limit : Z;
  (** everything else: nonce, recipient, value, input, signature *)
  ts_rest : bytes;
}.
#[export] Instance TxFees_eq_dec : EqDecision TxFees.
Proof. solve_decision. Defined.
#[export] Instance TransactionSigned_eq_dec : EqDecision TransactionSigned.
Proof. solve_decision. Defined.

Inductive TxType := TyLegacy | TyEip2930 | TyEip1559 | TyEip4844 | TyEip7702.
Definition tx_type (t : TxFees) : TxType :=
  match t with
  | Legacy _ => TyLegacy
  | Eip2930 _ => TyEip2930
  | Eip1559 _ _ => TyEip1559
  | Eip4844 _ _ _ => TyEip4844
  | Eip7702 _ _ => TyEip7702
  end.
Definition max_fee_per_gas (t : TxFees) : Z :=
  match t with
  | Legacy p | Eip2930 p => p
  | Eip1559 m _ | Eip4844 m _ _ | Eip7702 m _ => m
  end.
Definition max_priority_fee_per_gas (t : TxFees) : option Z :=
  match t with
  | Legacy _ | Eip2930 _ => None
  | Eip1559 _ p | Eip4844 _ p _ | Eip7702 _ p => Some p
  end.
Definition priority_fee_or_price (t : TxFees) : Z :=
  match t with
  | Legacy p | Eip2930 p => p
  | Eip1559 _ p | Eip4844 _ p _ | Eip7702 _ p => p
  end.
Definition effective_tip_per_gas (t : TxFees) (base_fee : option Z) : option Z :=
  match base_fee with
  | None => Some (priority_fee_or_price t)
  | Some base_fee =>
      if max_fee_per_gas t <? base_fee then None
      else
        let fee := max_fee_per_gas t - base_fee in
        match max_priority_fee_per_gas t with
        | Some priority => Some (Z.min fee priority)
        | None => Some fee
        end
  end.

(** Blob constants and the fee of dynamic transactions ([alloy]), and the tries'
    roots. *)
Class BlockLib := {
  DATA_GAS_PER_BLOB : Z;
  MAX_DATA_GAS_PER_BLOCK : Z;
  (** [TxEip1559::effective_gas_price] and its siblings, on maximum fee, priority fee
      and base fee *)
  dynamic_effective_gas_price : Z → Z → option Z → Z;
  Request : Type;
  calculate_ommers_root : list EthHeader → B256;
  calculate_transaction_root : list TransactionSigned → B256;
  calculate_withdrawals_root : list Withdrawal → B256;
  calculate_requests_root : list Request → B256;
}.

Section rules.
Context `{!EthLib, !BlockLib}.

Definition effective_gas_price (t : TxFees) (base_fee : option Z) : Z :=
  match t with
  | Legacy p | Eip2930 p => p
  | Eip1559 m p | Eip4844 m p _ | Eip7702 m p => dynamic_effective_gas_price m p base_fee
  end.
(** [TxEip4844::blob_gas]. *)
Definition tx_blob_gas (t : TxFees) : option Z :=
  match t with
  | Eip4844 _ _ hashes => Some (wrap64 (Z.of_nat (length hashes) * DATA_GAS_PER_BLOB))
  | _ => None
  end.

(** ** Blocks *)

Record EthBlock := {
  eb_header : EthHeader;
  eb_body : list TransactionSigned;
  eb_ommers : list EthHeader;
  eb_withdrawals : option (list Withdrawal);
  eb_requests : option (list Request);
}.
Definition block_blob_gas_used (b : EthBlock) : Z :=
  wrap64 (zsum (omap (λ t, tx_blob_gas (ts_fees t)) (eb_body b))).

Inductive PublicKeyProblem :=
  | MissingAggregatedPublicKey | NumsAggregatePublicKeyPastGenesis | WrongAggregatedPublicKey.
(** The errors the modelled checks return. *)
Inductive ConsensusError :=
  | HeaderGasUsedExceedsGasLimit (gas_used gas_limit : Z)
  | BaseFeeMissing
  | BaseFeeDiff (got expected : Z)
  | BodyOmmersHashDiff (got expected : B256)
  | BodyTransactionRootDiff (got expected : B256)
  | BodyWithdrawalsMissing
  | WithdrawalsRootMissing
  | BodyWithdrawalsRootDiff (got expected : B256)
  | BlobGasUsedMissing
  | BlobGasUsedUnexpected
  | BlobGasUsedDiff (got expected : Z)
  | BlobGasUsedExceedsMaxBlobGasPerBlock (used : Z)
  | BlobGasUsedNotMultipleOfBlobGasPerBlob (used : Z)
  | ExcessBlobGasMissing
  | ExcessBlobGasUnexpected
  | ExcessBlobGasNotMultipleOfBlobGasPerBlob (excess : Z)
  | ExcessBlobGasDiff (got expected : Z)
  | ParentBeaconBlockRootMissing
  | ParentBeaconBlockRootUnexpected
  | BodyRequestsMissing
  | RequestsRootMissing
  | RequestsRootUnexpected
  | BodyRequestsRootDiff (got expected : B256)
  | ParentBlockNumberMismatch (parent_number number : Z)
  | ParentHashMismatch (got expected : B256)
  | TimestampIsInPast (parent_timestamp timestamp : Z)
  | GasLimitInvalidIncrease (parent child : Z)
  | GasLimitInvalidDecrease (parent child : Z)
  | GasLimitInvalidMinimum (child : Z)
  | ExtraDataExceedsMax (len : Z)
  | ExtraDataInvalid
  | ExtraDataHeaderExceedsMax (len : Z)
  | InvalidChainVersion
  | InvalidAggregatedPublicKey (p : PublicKeyProblem)
  | BlockBeneficiaryIsNotBurnAddress
  | TheMergeDifficultyIsNotZero
  | TheMergeNonceIsNotZero
  | TheMergeOmmerRootIsNotEmpty
  | BlockGasUsed (got expected : Z)
  | BodyReceiptRootDiff (got expected : B256)
  | BodyBloomLogDiff (got expected : bytes).

(** ** Checks of a header alone *)

Definition MAXIMUM_EXTRA_DATA_SIZE : Z := 256.
Definition MINIMUM_GAS_LIMIT : Z := 5000.
Definition EIP1559_INITIAL_BASE_FEE : Z := 1000000000.

Definition validate_header_gas (h : EthHeader) : result ConsensusError () :=
  reject_if (h_gas_limit h <? h_gas_used h)
    (HeaderGasUsedExceedsGasLimit (h_gas_used h) (h_gas_limit h)).
Definition validate_header_base_fee (h : EthHeader) (s : ChainSpec) : result ConsensusError () :=
  reject_if (is_fork_active_at_block London (h_number h) (hardforks s) &&
             bool_decide (h_base_fee_per_gas h = None)) BaseFeeMissing.
Definition validate_header_extradata (h : EthHeader) : result ConsensusError () :=
  let len := Z.of_nat (length (h_extra_data h)) in
  reject_if (MAXIMUM_EXTRA_DATA_SIZE <? len) (ExtraDataExceedsMax len).
Definition validate_4844_header_standalone (h : EthHeader) : result ConsensusError () :=
  let? used := ok_or (h_blob_gas_used h) BlobGasUsedMissing in
  let? excess := ok_or (h_excess_blob_gas h) ExcessBlobGasMissing in
  let? _ := reject_if (bool_decide (h_parent_beacon_block_root h = None))
              ParentBeaconBlockRootMissing in
  let? _ := reject_if (MAX_DATA_GAS_PER_BLOCK <? used) (BlobGasUsedExceedsMaxBlobGasPerBlock used) in
  let? _ := reject_if (negb (used mod DATA_GAS_PER_BLOB =? 0))
              (BlobGasUsedNotMultipleOfBlobGasPerBlob used) in
  reject_if (negb (excess mod DATA_GAS_PER_BLOB =? 0))
    (ExcessBlobGasNotMultipleOfBlobGasPerBlob excess).

(** ** Checks against the parent *)

Definition validate_against_parent_hash_number (h : EthHeader) (parent : SealedHeader) :
    result ConsensusError () :=
  let? _ := reject_if (negb (wrap64 (h_number (sh_header parent) + 1) =? h_number h))
              (ParentBlockNumberMismatch (h_number (sh_header parent)) (h_number h)) in
  reject_if (bool_decide (sh_hash parent ≠ h_parent_hash h))
    (ParentHashMismatch (h_parent_hash h) (sh_hash parent)).
Definition validate_against_parent_timestamp (h parent : EthHeader) : result ConsensusError () :=
  reject_if (is_timestamp_in_past h (h_timestamp parent))
    (TimestampIsInPast (h_timestamp parent) (h_timestamp h)).

Context (ethereum_params : BaseFeeParams).

Definition validate_against_parent_eip1559_base_fee (h parent : EthHeader) (s : ChainSpec) :
    result ConsensusError () :=
  if active_at_block (fork London (hardforks s)) (h_number h) then
    let? base_fee := ok_or (h_base_fee_per_gas h) BaseFeeMissing in
    let? expected :=
      (if transitions_at_block (fork London (hardforks s)) (h_number h)
       then Ok EIP1559_INITIAL_BASE_FEE
       else ok_or (next_block_base_fee parent
                     (base_fee_params_at_timestamp ethereum_params s (h_timestamp h)))
                  BaseFeeMissing) in
    reject_if (negb (expected =? base_fee)) (BaseFeeDiff base_fee expected)
  else Ok tt.
Definition validate_against_parent_4844 (h parent : EthHeader) : result ConsensusError () :=
  let parent_used := default 0 (h_blob_gas_used parent) in
  let parent_excess := default 0 (h_excess_blob_gas parent) in
  let? _ := reject_if (bool_decide (h_blob_gas_used h = None)) BlobGasUsedMissing in
  let? excess := ok_or (h_excess_blob_gas h) ExcessBlobGasMissing in
  let expected := calc_excess_blob_gas parent_excess parent_used in
  reject_if (negb (expected =? excess)) (ExcessBlobGasDiff excess expected).

(** ** Checks of a block before execution *)

Definition validate_block_pre_execution (b : EthBlock) (s : ChainSpec) : result ConsensusError () :=
  let h := eb_header b in
  let ommers_hash := calculate_ommers_root (eb_ommers b) in
  let? _ := reject_if (bool_decide (h_ommers_hash h ≠ ommers_hash))
              (BodyOmmersHashDiff ommers_hash (h_ommers_hash h)) in
  let root := calculate_transaction_root (eb_body b) in
  let? _ := reject_if (bool_decide (h_transactions_root h ≠ root))
              (BodyTransactionRootDiff root (h_transactions_root h)) in
  let? _ :=
    (if is_shanghai_active_at_timestamp s (h_timestamp h) &&
        negb (chain_id s =? BOTANIX_TESTNET_CHAIN_ID) && negb (chain_id s =? BOTANIX_MAINNET_CHAIN_ID)
     then
       let? withdrawals := ok_or (eb_withdrawals b) BodyWithdrawalsMissing in
       let wroot := calculate_withdrawals_root withdrawals in
       let? header_root := ok_or (h_withdrawals_root h) WithdrawalsRootMissing in
       reject_if (bool_decide (wroot ≠ header_root)) (BodyWithdrawalsRootDiff wroot header_root)
     else Ok tt) in
  let? _ :=
    (if is_cancun_active_at_timestamp s (h_timestamp h) then
       let? used := ok_or (h_blob_gas_used h) BlobGasUsedMissing in
       let total := block_blob_gas_used b in
       reject_if (negb (total =? used)) (BlobGasUsedDiff used total)
     else Ok tt) in
  if is_prague_active_at_timestamp s (h_timestamp h) then
    let? requests := ok_or (eb_requests b) BodyRequestsMissing in
    let rroot := calculate_requests_root requests in
    let? header_root := ok_or (h_requests_root h) RequestsRootMissing in
    reject_if (bool_decide (rroot ≠ header_root)) (BodyRequestsRootDiff rroot header_root)
  else Ok tt.

(** ** The authority consensus *)

Section authority.
Context `{!ConsensusEncoding, !Secp256k1}.
Context (chain_spec : BotanixChainSpec).

Definition MAX_EDH_SIZE : Z := 93.

Definition validate_against_parent_gas_limit (h parent : EthHeader) : result ConsensusError () :=
  let parent_gas_limit :=
    if transitions_at_block (fork London (hardforks (inner chain_spec))) (h_number h)
    then wrap64 (h_gas_limit parent *
                 wrap64 (elasticity_multiplier
                   (base_fee_params_at_timestamp ethereum_params (inner chain_spec) (h_timestamp h))))
    else h_gas_limit parent in
  if parent_gas_limit <? h_gas_limit h then
    reject_if (parent_gas_limit / 1024 <=? h_gas_limit h - parent_gas_limit)
      (GasLimitInvalidIncrease parent_gas_limit (h_gas_limit h))
  else if parent_gas_limit / 1024 <=? parent_gas_limit - h_gas_limit h then
    Err (GasLimitInvalidDecrease parent_gas_limit (h_gas_limit h))
  else reject_if (h_gas_limit h <? MINIMUM_GAS_LIMIT) (GasLimitInvalidMinimum (h_gas_limit h)).

Definition authority_validate_block_pre_execution (b : EthBlock) : result ConsensusError () :=
  validate_block_pre_execution b (inner chain_spec).

Definition validate_header (h : EthHeader) : result ConsensusError () :=
  let s := inner chain_spec in
  let? _ := validate_header_gas h in
  let? _ := validate_header_base_fee h s in
  let? _ :=
    (if is_cancun_active_at_timestamp s (h_timestamp h) then validate_4844_header_standalone h
     else if bool_decide (h_blob_gas_used h ≠ None) then Err BlobGasUsedUnexpected
     else if bool_decide (h_excess_blob_gas h ≠ None) then Err ExcessBlobGasUnexpected
     else reject_if (bool_decide (h_parent_beacon_block_root h ≠ None))
            ParentBeaconBlockRootUnexpected) in
  if is_prague_active_at_timestamp s (h_timestamp h)
  then reject_if (bool_decide (h_requests_root h = None)) RequestsRootMissing
  else reject_if (bool_decide (h_requests_root h ≠ None)) RequestsRootUnexpected.

Definition validate_header_against_parent (h : EthHeader) (parent : SealedHeader) :
    result ConsensusError () :=
  let s := inner chain_spec in
  let? _ := validate_against_parent_hash_number h parent in
  let? _ := validate_against_parent_timestamp h (sh_header parent) in
  let? _ := validate_against_parent_gas_limit h (sh_header parent) in
  let? _ := validate_against_parent_eip1559_base_fee h (sh_header parent) s in
  if is_cancun_active_at_timestamp s (h_timestamp h)
  then validate_against_parent_4844 h (sh_header parent) else Ok tt.

Definition validate_header_with_total_difficulty (h : EthHeader) : result ConsensusError () :=
  let? _ := reject_if (negb (is_zero_difficulty h)) TheMergeDifficultyIsNotZero in
  let? _ := reject_if (negb (h_nonce h =? 0)) TheMergeNonceIsNotZero in
  let? _ := reject_if (bool_decide (h_ommers_hash h ≠ EMPTY_OMMER_ROOT_HASH))
              TheMergeOmmerRootIsNotEmpty in
  validate_header_extradata h.

Definition validate_chain_version (v : Z) : result ConsensusError () :=
  reject_if (negb (v =? CHAIN_VERSION)) InvalidChainVersion.

Definition validate_extra_data_header (h : EthHeader) (aggregate_public_key : option PublicKey) :
    result ConsensusError () :=
  if h_number h =? 0 then Ok tt
  else
    let? agg := ok_or aggregate_public_key (InvalidAggregatedPublicKey MissingAggregatedPublicKey) in
    let? _ := validate_header_extradata h in
    let? edh := map_err (λ _, ExtraDataInvalid) (deserialize_extra_data_header h) in
    let? _ := reject_if (MAX_EDH_SIZE <? edh_size edh) (ExtraDataHeaderExceedsMax (edh_size edh)) in
    let? _ := validate_chain_version (edh_chain_version edh) in
    let? nums := (match nums_secp256k1_pk with Ok pk => Ok pk | _ => Panic end) in
    let? _ := reject_if (bool_decide (edh_aggregated_public_key edh = nums))
                (InvalidAggregatedPublicKey NumsAggregatePublicKeyPastGenesis) in
    reject_if (bool_decide (edh_aggregated_public_key edh ≠ agg))
      (InvalidAggregatedPublicKey WrongAggregatedPublicKey).

Definition validate_block_beneficiary (h : EthHeader) : result ConsensusError () :=
  reject_if (bool_decide (h_beneficiary h ≠ address_zero)) BlockBeneficiaryIsNotBurnAddress.

Definition validate_header_standalone (h : EthHeader) (aggregate_public_key : option PublicKey) :
    result ConsensusError () :=
  let? _ := ok_or aggregate_public_key (InvalidAggregatedPublicKey MissingAggregatedPublicKey) in
  let? _ := validate_extra_data_header h aggregate_public_key in
  validate_block_beneficiary h.
End authority.
End rules.
