(* ===== verification/RulesTheory.v ===== *)
(** * Theorems about the rules of the chain

    Fees of a block are paid out exactly; schedules of forks keep their list and their
    index in step; which headers the authority consensus accepts. *)

From stdpp Require Import strings.
From S2P Require Import Prelude Bitcoin Codec Activation Headers HeadersTheory Peg PegTheory ChainRules HeaderRules.

(** ** Fork schedules *)

(** The index agrees with the list, which names each fork once. *)
Definition forks_wf (c : ChainHardforks) : Prop :=
  NoDup (forks c).*1 ∧ fork_map c = list_to_map (forks c).

Lemma foldl_insert_map (l : list (string * ForkCondition)) (m : gmap string ForkCondition) :
  NoDup l.*1 → (∀ k, k ∈ l.*1 → m !! k = None) →
  foldl (λ m p, <[p.1 := p.2]> m) m l = list_to_map l ∪ m.
Proof.
  revert m. induction l as [|[k c] l IH]; intros m Hnd Hm; simpl; [by rewrite (left_id_L ∅ (∪))|].
  apply NoDup_cons in Hnd as [Hk Hnd]. rewrite IH; [|done|].
  - rewrite <-insert_union_r; [|by apply not_elem_of_list_to_map_1].
    by rewrite insert_union_l.
  - intros k' Hk'. rewrite lookup_insert_ne by (by intros ->). apply Hm. simpl. set_solver.
Qed.

Lemma forks_new_wf l : NoDup l.*1 → forks_wf (forks_new l).
Proof.
  intros Hnd. split; [done|]. unfold forks_new. simpl.
  rewrite foldl_insert_map by (done || set_solver). by rewrite (right_id_L ∅ (∪)).
Qed.

Lemma update_first_names f cond l : (update_first f cond l).*1 = l.*1.
Proof. induction l as [|p l IH]; [done|]. simpl. case_bool_decide; simpl; [done|by f_equal]. Qed.
Lemma update_first_map f cond (l : list (string * ForkCondition)) :
  f ∈ l.*1 → NoDup l.*1 →
  (list_to_map (update_first f cond l) : gmap string ForkCondition) = <[f := cond]> (list_to_map l).
Proof.
  induction l as [|[k c] l IH]; simpl; [by intros ?%elem_of_nil|].
  intros Hin [Hk Hnd]%NoDup_cons. case_bool_decide as Hkf; simpl in *.
  - subst k. by rewrite insert_insert_eq.
  - rewrite IH by set_solver. by rewrite insert_insert_ne.
Qed.

Lemma forks_insert_wf f cond c : forks_wf c → forks_wf (forks_insert f cond c).
Proof.
  intros [Hnd Hmap]. unfold forks_insert. rewrite Hmap.
  destruct (list_to_map (forks c) !! f) as [x|] eqn:Hf; split; simpl.
  - by rewrite update_first_names.
  - rewrite update_first_map; [done| |done].
    apply elem_of_list_to_map_2 in Hf. apply list_elem_of_fmap. by exists (f, x).
  - apply not_elem_of_list_to_map_2 in Hf. rewrite fmap_app. apply NoDup_app. split_and!; [done| |].
    + intros k Hk ->%list_elem_of_singleton. done.
    + apply NoDup_singleton.
  - rewrite list_to_map_app. simpl. rewrite insert_empty.
    rewrite <-insert_union_singleton_r; done.
Qed.

Lemma filter_names_map f (l : list (string * ForkCondition)) :
  (list_to_map (filter (λ p, p.1 ≠ f) l) : gmap string ForkCondition) = delete f (list_to_map l).
Proof.
  induction l as [|[k x] l IH]; [symmetry; apply delete_empty|]. rewrite filter_cons. simpl.
  case_decide as Hd; simpl; rewrite IH.
  - by rewrite delete_insert_ne.
  - subst k. by rewrite delete_insert_eq.
Qed.
Lemma forks_remove_wf f c : forks_wf c → forks_wf (forks_remove f c).
Proof.
  intros [Hnd Hmap]. split; simpl.
  - eapply sublist_NoDup; [exact Hnd|]. apply fmap_sublist, sublist_filter.
  - by rewrite Hmap, filter_names_map.
Qed.

(** Fork schedules.  Built from a list that names each fork once, and through any
    insertion or removal, the index of a schedule is its list; a fork takes the
    condition last inserted for it and leaves the others alone; a fork that is active at
    a block, a time or a difficulty stays active. *)
Theorem fork_schedules_consistent :
  (∀ l, NoDup l.*1 → forks_wf (forks_new l)) ∧
  (∀ f cond c, forks_wf c → forks_wf (forks_insert f cond c) ∧ forks_wf (forks_remove f c) ∧
     fork f (forks_insert f cond c) = cond ∧ fork f (forks_remove f c) = ForkNever ∧
     ∀ g, g ≠ f → fork g (forks_insert f cond c) = fork g c ∧ fork g (forks_remove f c) = fork g c) ∧
  (∀ cond n n', n ≤ n' → (active_at_block cond n = true → active_at_block cond n' = true) ∧
     (active_at_timestamp cond n = true → active_at_timestamp cond n' = true) ∧
     (∀ d, active_at_ttd cond n d = true → active_at_ttd cond n' d = true)).
Proof.
  split_and!; [exact forks_new_wf| |].
  - intros f cond c Hwf. split_and!; [by apply forks_insert_wf|by apply forks_remove_wf| | |].
    + unfold fork, forks_get, forks_insert. case_match; simpl; by rewrite lookup_insert_eq.
    + unfold fork, forks_get, forks_remove. simpl. by rewrite lookup_delete_eq.
    + intros g Hg. unfold fork, forks_get, forks_insert, forks_remove. simpl.
      rewrite lookup_delete_ne by done. by case_match; simpl; rewrite lookup_insert_ne.
  - intros cond n n' Hle. unfold active_at_block, active_at_timestamp, active_at_ttd, saturating_sub.
    destruct cond as [b|[b|] t|t|]; split_and!; intros; bool_to_prop; try done; try (apply Z.leb_le; lia).
Qed.

(** ** Fees *)

Lemma block_fees_split_ok {E : Type} total :
  0 ≤ total → total * 50 ≤ u128_max →
  @block_fees_split E total =
    Ok (total * 50 / 100, total * 40 / 100, total - total * 50 / 100 - total * 40 / 100) ∧
  total / 10 ≤ total - total * 50 / 100 - total * 40 / 100 ∧
  0 ≤ total * 50 / 100 ∧ 0 ≤ total * 40 / 100.
Proof.
  intros Hpos Hmax.
  assert (total * 50 / 100 ≤ total) as H50 by (apply Z.div_le_upper_bound; lia).
  pose proof (Z.mul_div_le (total * 40) 100 ltac:(lia)).
  pose proof (Z.mul_div_le (total * 50) 100 ltac:(lia)). pose proof (Z.mul_div_le total 10 ltac:(lia)).
  split_and!; [|lia|apply Z.div_pos; lia..].
  unfold block_fees_split, u128_checked_mul, checked_div, checked_sub.
  rewrite (proj2 (Z.leb_le (total * 50) _)), (proj2 (Z.leb_le (total * 40) _)) by lia. cbn [expect rbind].
  change (100 =? 0) with false. cbn [expect rbind].
  rewrite (proj2 (Z.leb_le (total * 50 / 100) _)) by lia. cbn [expect rbind].
  by rewrite (proj2 (Z.leb_le (total * 40 / 100) _)) by lia.
Qed.

(** The sum of the increments of a block. *)
Definition map_total (m : gmap Address Z) : Z := map_fold (λ _ v acc, v + acc) 0 m.

Lemma map_total_insert_new a v m : m !! a = None → map_total (<[a := v]> m) = v + map_total m.
Proof. intros Ha. unfold map_total. by rewrite map_fold_insert_L by (done || intros; lia). Qed.
Lemma map_total_insert a v m :
  map_total (<[a := v]> m) = map_total m - default 0 (m !! a) + v.
Proof.
  destruct (m !! a) as [x|] eqn:Ha; simpl; [|rewrite map_total_insert_new by done; lia].
  rewrite <-(insert_delete_id m a x Ha) at 2. rewrite <-insert_delete_eq.
  rewrite !map_total_insert_new by apply lookup_delete_eq. lia.
Qed.
Lemma map_total_lookup a x m :
  map_Forall (λ _ v, 0 ≤ v) m → m !! a = Some x → x ≤ map_total m.
Proof.
  intros Hpos Ha. rewrite <-(insert_delete_id m a x Ha), map_total_insert_new by apply lookup_delete_eq.
  enough (0 ≤ map_total (delete a m)) by lia. clear Ha. unfold map_total.
  apply (map_fold_weak_ind (λ r m', map_Forall (λ _ v, 0 ≤ v) m' → 0 ≤ r)); [lia| |].
  - intros i v m' r Hi IH Hall. apply map_Forall_insert in Hall as [??]; [|done]. specialize (IH ltac:(done)). lia.
  - by apply map_Forall_delete.
Qed.

(** Adding a share keeps the balance sheet. *)
Lemma add_checked_ok {E : Type} a v m :
  map_Forall (λ _ v, 0 ≤ v) m → 0 ≤ v → map_total m + v ≤ u128_max →
  ∃ m', @add_checked E a v m = Ok m' ∧ map_total m' = map_total m + v ∧ map_Forall (λ _ v, 0 ≤ v) m' ∧
    m' = <[a := default 0 (m !! a) + v]> m.
Proof.
  intros Hm Hv Hmax. unfold add_checked, u128_checked_add. destruct (m !! a) as [x|] eqn:Ha.
  - pose proof (map_total_lookup a x m Hm Ha). pose proof (Hm a x Ha) as Hx. simpl in Hx.
    rewrite (proj2 (Z.leb_le _ _)) by lia. eexists. split; [done|].
    split_and!; [rewrite map_total_insert, Ha; simpl; lia|by apply map_Forall_insert_2; [lia|]|done].
  - eexists. split; [done|].
    split_and!; [rewrite map_total_insert, Ha; simpl; lia|by apply map_Forall_insert_2|done].
Qed.

Section fees.
Context `{!EthLib} {E : Type} (address_parse : string → option Address) (s : BotanixChainSpec).
Context (lst_str botanix_str : string) (lst botanix : Address).
Context (Hlst : lst_fee_receiver s = Some lst_str) (Hbotanix : botanix_fee_recipient s = Some botanix_str).
Context (Plst : address_parse lst_str = Some lst) (Pbotanix : address_parse botanix_str = Some botanix).

(** Fees.  After the merge and without withdrawals, the increments of a block's
    balances are exactly its fees: they add up to them, nobody but the three recipients
    is credited, and when these differ the staking contract gets half, Botanix two
    fifths, both rounded down, and the block's recipient the rest, at least a tenth. *)
Theorem fees_are_conserved h ommers total_difficulty fees recipient :
  base_block_reward (inner s) (h_number h) (h_difficulty h) total_difficulty = None →
  0 < fees → fees * 50 ≤ u128_max → recipient ≠ address_zero →
  ∃ m, @post_block_balance_increments _ E address_parse s h ommers None total_difficulty
         (Some fees) (Some recipient) = Ok m ∧
    map_total m = fees ∧
    (∀ a, a ∉ [lst; botanix; recipient] → m !! a = None) ∧
    (NoDup [lst; botanix; recipient] →
       m !! lst = Some (fees * 50 / 100) ∧ m !! botanix = Some (fees * 40 / 100) ∧
       ∃ rest, m !! recipient = Some rest ∧ fees / 10 ≤ rest).
Proof.
  intros Hreward Hpos Hmax Hrec.
  destruct (@block_fees_split_ok E fees ltac:(lia) Hmax) as (Hsplit & Hrest & H50 & H40).
  unfold post_block_balance_increments. rewrite Hreward, Hlst, Hbotanix. cbn [default id].
  rewrite (proj2 (Z.ltb_lt _ _) Hpos), bool_decide_eq_true_2 by done. cbn [andb].
  rewrite Hsplit. cbn [rbind]. rewrite Plst. cbn [expect rbind].
  assert (0 ≤ fees / 10) by (apply Z.div_pos; lia).
  destruct (@add_checked_ok E lst (fees * 50 / 100) ∅) as (m1 & -> & T1 & P1 & E1);
    [apply map_Forall_empty|done|change (map_total ∅) with 0; lia|]. change (map_total ∅) with 0 in T1.
  cbn [rbind]. rewrite Pbotanix. cbn [expect rbind].
  destruct (@add_checked_ok E botanix (fees * 40 / 100) m1) as (m2 & -> & T2 & P2 & E2); [done|done|lia|].
  cbn [rbind].
  destruct (@add_checked_ok E recipient (fees - fees * 50 / 100 - fees * 40 / 100) m2)
    as (m3 & -> & T3 & _ & E3); [done|lia..|].
  cbn [rbind]. exists m3. split_and!.
  - unfold insert_post_block_withdrawals_balance_increments. by case_match.
  - lia.
  - intros a Ha. rewrite !elem_of_cons in Ha. rewrite E3, E2, E1.
    rewrite !lookup_insert_ne by (intros ->; tauto). apply lookup_empty.
  - intros Hnd. apply NoDup_cons in Hnd as [Hl Hnd]. apply NoDup_cons in Hnd as [Hb _].
    apply not_elem_of_cons in Hl as [? Hl], Hb as [? _]. apply not_elem_of_cons in Hl as [? _].
    rewrite E3, E2, E1. rewrite !(lookup_insert_ne _ recipient), !(lookup_insert_ne _ botanix lst) by done.
    rewrite !lookup_insert_eq. rewrite (lookup_insert_ne _ lst botanix), (lookup_insert_ne _ botanix recipient),
      (lookup_insert_ne _ lst recipient) by done.
    rewrite !lookup_empty. split_and!; [done..|]. eexists. split; [done|]. simpl. lia.
Qed.
End fees.

(** ** Headers the authority accepts *)

Section headers.
Context `{!EthLib, !BlockLib, !ConsensusEncoding, !Secp256k1, !EncodingLaws, !Secp256k1Laws}.

(** What the authority checks.  After genesis, with a known aggregate key, a header is
    accepted exactly when its beneficiary is the burn address and its extra data, at
    most 256 bytes, starts with an extra data header of the current chain version that
    names that key, which is not the placeholder.  Neither the version of the extra data
    header nor the bytes after it are restricted. *)
Theorem authority_accepts_iff h agg nums :
  Forall is_byte (h_extra_data h) → h_number h ≠ 0 → nums_secp256k1_pk = Ok nums →
  validate_header_standalone h (Some agg) = Ok tt ↔
  h_beneficiary h = address_zero ∧ agg ≠ nums ∧
  Z.of_nat (length (h_extra_data h)) ≤ MAXIMUM_EXTRA_DATA_SIZE ∧
  ∃ version checkpoint recipient trailing,
    edh_ok (mkEdh version CHAIN_VERSION checkpoint agg recipient) ∧
    h_extra_data h = edh_serialize (mkEdh version CHAIN_VERSION checkpoint agg recipient) ++ trailing.
Proof.
  intros Hbytes Hnum Hnums. unfold validate_header_standalone, validate_extra_data_header.
  rewrite (proj2 (Z.eqb_neq _ _) Hnum), Hnums. cbn [ok_or rbind].
  unfold validate_header_extradata, validate_chain_version, validate_block_beneficiary.
  split.
  - intros Hr. rinv Hr. rinv E. unfold deserialize_extra_data_header in *. rewrite ?reject_if_ok in *.
    bool_to_prop. apply map_err_ok in E1.
    destruct (edh_deserialize (h_extra_data h)) as [r rest] eqn:Hd. simpl in E1. subst r.
    apply edh_serialize_deserialize in Hd as [Hok Hx]; [|done].
    destruct a1 as [v c checkpoint pk recipient]. simpl in *. apply dec_stable in Hr, E. subst.
    split_and!; [done|done|lia|]. exists v, checkpoint, recipient, rest. done.
  - intros (Hb & Hne & Hmax & v & checkpoint & recipient & rest & Hok & Hx).
    rewrite (proj2 (Z.ltb_ge _ _) Hmax). cbn [reject_if rbind].
    unfold deserialize_extra_data_header, edh_size, MAX_EDH_SIZE.
    rewrite Hx, edh_deserialize_serialize by done. cbn [fst map_err rbind].
    rewrite edh_serialize_length by done. change (93 <? Z.of_nat 93) with false.
    cbn [reject_if rbind edh_chain_version edh_aggregated_public_key]. rewrite Z.eqb_refl.
    cbn [negb reject_if rbind]. rewrite !bool_decide_eq_false_2 by naive_solver. done.
Qed.
End headers.

Module RulesSample.
Import SampleCodec HeaderSample.
#[local] Existing Instances sample_encoding sample_encoding_laws sample_secp sample_secp_laws.
#[local] Instance sample_eth : EthLib := {|
  hash_slow h := [h_number h]; EMPTY_OMMER_ROOT_HASH := []; EMPTY_ROOT_HASH := [];
  BaseFeeParams := (); elasticity_multiplier _ := 2;
  calc_next_block_base_fee _ _ base _ := base; calc_excess_blob_gas excess used := excess + used;
  calc_blob_gasprice _ := 1;
|}.
#[local] Instance sample_blocks : BlockLib := {|
  DATA_GAS_PER_BLOB := 131072; MAX_DATA_GAS_PER_BLOCK := 786432;
  dynamic_effective_gas_price m p base := m;
  Request := (); calculate_ommers_root _ := []; calculate_transaction_root _ := [];
  calculate_withdrawals_root _ := []; calculate_requests_root _ := [];
|}.

Definition spec : BotanixChainSpec := {|
  inner := mkSpec BOTANIX_MAINNET_CHAIN_ID (forks_new [(Paris, ForkTTD None 0)]) (ConstantParams tt);
  bitcoin_checkpoint_confirmation_depth := 6; historical_bitcoin_checkpoints_count := 1;
  weak_bitcoin_checkpoints_count := 1; leader_selection_window := None;
  botanix_fee_recipient := Some "b"%string; lst_fee_receiver := Some "l"%string; epoch_length := 1 |}.
Definition parse (s : string) : option Address :=
  if bool_decide (s = "b"%string) then Some [2] else if bool_decide (s = "l"%string) then Some [1] else None.
Definition other_key : PublicKey := exist (λ bs, Is_true (sample_key_ok bs)) (replicate 32 1) I.
Definition signed : ExtraDataHeader := mkEdh 5 CHAIN_VERSION hash other_key address.
Definition sample_header : EthHeader := {|
  h_parent_hash := []; h_ommers_hash := []; h_beneficiary := address_zero; h_state_root := [];
  h_transactions_root := []; h_receipts_root := []; h_withdrawals_root := None; h_logs_bloom := [];
  h_difficulty := 0; h_number := 7; h_gas_limit := 30000; h_gas_used := 0; h_timestamp := 0;
  h_mix_hash := []; h_nonce := 0; h_base_fee_per_gas := Some 7; h_blob_gas_used := None;
  h_excess_blob_gas := None; h_parent_beacon_block_root := None; h_requests_root := None;
  h_extra_data := edh_serialize signed ++ [1; 2; 3] |}.

Lemma fork_schedules_consistent_witness :
  forks_wf (forks_insert Paris ForkNever (forks_new [(Paris, ForkBlock 3); (London, ForkTimestamp 9)])).
Proof.
  destruct fork_schedules_consistent as (Hnew & Hop & _).
  apply Hop, Hnew. decide_vm.
Defined.

Lemma fees_are_conserved_witness :
  ∃ m, @post_block_balance_increments _ () parse spec sample_header [] None 0 (Some 1001) (Some [3]) = Ok m ∧
    map_total m = 1001.
Proof.
  destruct (fees_are_conserved (E := ()) parse spec "l"%string "b"%string [1] [2]
    eq_refl eq_refl eq_refl eq_refl sample_header [] 0 1001 [3]) as (m & Hm & Ht & _);
    [reflexivity|lia|unfold u128_max; lia|discriminate|].
  exists m. split; [exact Hm|exact Ht].
Defined.

(** Another version of the extra data header and trailing bytes are accepted. *)
Lemma authority_accepts_iff_witness : validate_header_standalone sample_header (Some other_key) = Ok tt.
Proof.
  assert (edh_ok signed) as Hok.
  { split; simpl; [unfold CHAIN_VERSION, u32_dom, u32_max; lia..| |];
      apply array_dom_replicate; unfold is_byte; lia. }
  apply (authority_accepts_iff sample_header other_key key).
  - apply (bool_decide_unpack _). vm_compute. exact I.
  - discriminate.
  - vm_compute. reflexivity.
  - split_and!; [reflexivity|discriminate|vm_compute; discriminate|].
    exists 5, hash, address, [1; 2; 3]. split; [exact Hok|reflexivity].
Defined.
End RulesSample.
