(* ===== verification/Execution.v ===== *)
(** * Executing a block

    [crates/ethereum/evm/src/execute.rs]: the transactions of a block run one after the
    other in the EVM; the logs of each are checked for pegins and pegouts, and a
    transaction whose mint does not check is undone except for its fee.

    The EVM and its database ([revm]) are the class [Evm]: a transaction yields a
    result and the accounts it changed, which are then committed.  The blocks of the
    node's own database are [ChainView]. *)

From stdpp Require Import strings.
From S2P Require Import Prelude Bitcoin Codec Headers Peg Mint ChainRules HeaderRules.

(** ** Accounts and results of the EVM *)

Record AccountInfo := mkInfo { ai_balance : Z; ai_nonce : Z; ai_code_hash : B256 }.
Record Account := mkAccount {
  acc_info : AccountInfo;
  acc_storage : gmap Z Z;
  acc_touched : bool;
}.
Abbreviation EvmDiff := (gmap Address Account).

Inductive ExecutionResult :=
  | Success (gas : Z) (logs : list Log)
  | Revert (gas : Z)
  | Halt (gas : Z).
Definition gas_used_of (r : ExecutionResult) : Z :=
  match r with Success g _ | Revert g | Halt g => g end.
Definition is_success (r : ExecutionResult) : bool :=
  match r with Success _ _ => true | _ => false end.
Definition result_logs (r : ExecutionResult) : list Log :=
  match r with Success _ logs => logs | _ => [] end.

(** [State<DB>] and the EVM on top of it.  Loading an account only fills a cache, so
    reads do not change the state. *)
Class Evm `{!EthLib, !BlockLib} := {
  EvmState : Type;
  DbError : Type;
  EvmError : Type;
  CallError : Type;
  db_basic : Address → EvmState → result DbError (option AccountInfo);
  db_commit : EvmDiff → EvmState → EvmState;
  (** one transaction of a sender, in the block of the header, with the total
      difficulty *)
  evm_transact : EthHeader → Z → TransactionSigned → Address → EvmState →
    result EvmError (ExecutionResult * EvmDiff);
  apply_beacon_root_contract_call : EthHeader → SM EvmState CallError ();
  apply_blockhashes_update : EthHeader → SM EvmState CallError ();
  (** the requests of the EIPs 6110, 7002 and 7251, on the logs of the receipts *)
  parse_deposits_from_receipts : list (list Log) → result CallError (list Request);
  apply_withdrawal_requests_contract_call : SM EvmState CallError (list Request);
  apply_consolidation_requests_contract_call : SM EvmState CallError (list Request);
  set_state_clear_flag : bool → EvmState → EvmState;
  drain_balances : list Address → SM EvmState DbError (list Z);
  increment_balances : gmap Address Z → SM EvmState DbError ();
  (** constants of the DAO fork *)
  DAO_HARDFORK_ACCOUNTS : list Address;
  DAO_HARDFORK_BENEFICIARY : Address;
  address_from_hex : string → option Address;
}.

(** What execution reads of the node's database and of bitcoind. *)
Record ChainView (BitcoindError ProviderError : Type) := mkView {
  find_block_by_hash : B256 → result ProviderError (option EthHeader);
  build_and_connect : result BitcoindError (BitcoindClient BitcoindError);
}.
Arguments find_block_by_hash {_ _}.
Arguments build_and_connect {_ _}.

Section execution.
Context `{!HeaderHash, !BitcoinHashes, !ConsensusEncoding, !Secp256k1, !PegLib, !Abi}.
Context `{!EthLib, !BlockLib, !Evm}.
Context {BE PE : Type} (view : ChainView BE PE).
Context (chain_spec : BotanixChainSpec) (bitcoin_network : Network).

(** ** Checks of the mint contract's logs *)

(** The reasons of [InvalidPeginData] that arise here. *)
Inductive MintCheckFailure :=
  | RefBlockHashMissing | ConsensusPackageFailed | RefBlockNotFound | RefBlockHashUnexpected
  | NoProofs | MismatchingVersions | MismatchingRefBlockHashes | HeightAboveCheckpoint
  | AmountNotBelowAggregate | ValidationFailed (e : PeginDataError).
Inductive MintCheckError :=
  | MceContract (e : MintContractError)
  | MceInvalidPegin (why : MintCheckFailure) (revert_address : Address) (revert_amount : Z).

(** The checkpoint the proofs are checked against: version 1 names a block of this
    chain and uses the checkpoint that block committed to. *)
Definition checkpoint_for (pkg : BotanixConsensusPackage) (p : PeginData) :
    result MintCheckError ((Header * Z) * (Z * option B256)) :=
  let fail why := MceInvalidPegin why (pd_account p) (pd_amount p) in
  match head (pd_meta p) with
  | None => Err (fail NoProofs)
  | Some meta =>
      let version := meta_version meta in
      let ref_hash := meta_ref_block_hash meta in
      let? checkpoint :=
        (if version =? 1 then
           match ref_hash with
           | None => Err (fail RefBlockHashMissing)
           | Some hash =>
               match find_block_by_hash view hash with
               | Ok (Some header) =>
                   let? package := map_err (λ _, fail ConsensusPackageFailed)
                     (botanix_consensus_package bitcoin_network (build_and_connect view) header) in
                   Ok (bitcoin_checkpoint package)
               | Ok None => Err (fail RefBlockNotFound)
               | Err _ | Panic => Panic
               end
           end
         else if (version =? 0) && bool_decide (ref_hash ≠ None)
         then Err (fail RefBlockHashUnexpected)
         else Ok (bitcoin_checkpoint pkg)) in
      Ok (checkpoint, (version, ref_hash))
  end.

(** All proofs of a pegin have the version and the reference block of the first. *)
Fixpoint check_uniform (version : Z) (ref_hash : option B256) (metas : list PeginMeta) :
    result MintCheckFailure () :=
  match metas with
  | [] => Ok tt
  | m :: rest =>
      if negb (meta_version m =? version) then Err MismatchingVersions
      else if bool_decide (meta_ref_block_hash m ≠ ref_hash) then Err MismatchingRefBlockHashes
      else check_uniform version ref_hash rest
  end.

Definition check_pegin (pkg : BotanixConsensusPackage) (p : PeginData) : result MintCheckError () :=
  let fail why := MceInvalidPegin why (pd_account p) (pd_amount p) in
  let? '(checkpoint, (version, ref_hash)) := checkpoint_for pkg p in
  let? _ := map_err fail (check_uniform version ref_hash (pd_meta p)) in
  let? _ := reject_if (checkpoint.2 <? pd_bitcoin_block_height p) (fail HeightAboveCheckpoint) in
  let? aggregate_value :=
    map_err (λ e, fail (ValidationFailed e)) (validate checkpoint (bcp_aggregate_public_key pkg) p) in
  reject_if (aggregate_value <=? pd_amount p) (fail AmountNotBelowAggregate).

(** The first loop: pegins. *)
Fixpoint collect_pegins (pkg : BotanixConsensusPackage) (logs : list Log) :
    result MintCheckError (list PeginData) :=
  match logs with
  | [] => Ok []
  | log :: rest =>
      let? parsed := map_err (λ e, MceContract (from_mint_error e)) (try_parse_mint_event log) in
      match parsed with
      | None => collect_pegins pkg rest
      | Some p =>
          let? _ := check_pegin pkg p in
          let? ps := collect_pegins pkg rest in
          Ok (p :: ps)
      end
  end.

(** The second loop: pegouts, identified by the transaction and the log's index. *)
Fixpoint collect_pegouts (network : Network) (tx_hash : B256) (index : Z) (logs : list Log) :
    result MintCheckError (list PegoutWithId) :=
  match logs with
  | [] => Ok []
  | log :: rest =>
      let? parsed := map_err (λ e, MceContract (from_burn_error e))
                       (try_parse_burn_event network log) in
      let? pegouts := collect_pegouts network tx_hash (index + 1) rest in
      Ok (match parsed with
          | Some d => {| pw_data := d; pw_id := mkPegoutId tx_hash (wrap32 index) |} :: pegouts
          | None => pegouts
          end)
  end.

Definition botanix_mint_contract_checks (r : ExecutionResult) (pkg : BotanixConsensusPackage)
    (tx_hash : B256) : result MintCheckError (list PeginData * list PegoutWithId) :=
  let? pegins := collect_pegins pkg (result_logs r) in
  let? pegouts := collect_pegouts (btc_network pkg) tx_hash 0 (result_logs r) in
  Ok (pegins, pegouts).

(** ** Transactions *)

(** [*] of [alloy]'s [U256] wraps. *)
Definition wrap256 (x : Z) : Z := x mod 2 ^ 256.

Inductive BlockExecutionError :=
  | TransactionGasLimitMoreThanAvailableBlockGas (gas_limit available : Z)
  | SenderDbError
  | SenderNotFound
  | EvmFailed (hash : B256) (e : EvmError)
  | SenderBalanceUnderflow
  | CallFailed (e : CallError)
  | ProviderFailed (e : PE)
  | ExtraDataSerializeError
  | BotanixConsensusPkgError (e : BotanixConsensusPackageError BE)
  | IncrementBalanceFailed
  | PostExecutionInvalid (e : ConsensusError)
  | SenderRecoveryError
  | LatestBlockError
  | StateRootError
  | FailedToFetchBlockProducerAddress.

Record Receipt := mkReceipt {
  rc_tx_type : TxType;
  rc_success : bool;
  rc_cumulative_gas_used : Z;
  rc_logs : list Log;
}.

(** What the loop carries besides the database. *)
Record TxLoop := mkTxLoop {
  tl_receipts : list Receipt;
  tl_gas : Z;
  tl_fees : Z;
  tl_pegins : list PeginData;
  tl_pegouts : list PegoutWithId;
}.

(** A mint that does not check: only the sender's fee and nonce remain of the
    transaction's changes. *)
Definition revert_mint (sender : Address) (tx : TransactionSigned) (base_fee : option Z)
    (original : AccountInfo) (gas : Z) (diff : EvmDiff) :
    result BlockExecutionError (ExecutionResult * EvmDiff) :=
  let total_gas_cost := wrap256 (gas * effective_gas_price (ts_fees tx) base_fee) in
  let? sender_after := ok_or (diff !! sender) SenderNotFound in
  let? balance := ok_or (checked_sub (ai_balance original) total_gas_cost) SenderBalanceUnderflow in
  let info := mkInfo balance (ai_nonce (acc_info sender_after)) (ai_code_hash original) in
  Ok (Revert gas, {[ sender := mkAccount info ∅ true ]}).

Definition execute_transaction (header : EthHeader) (total_difficulty : Z)
    (pkg : BotanixConsensusPackage) (sender : Address) (tx : TransactionSigned) (l : TxLoop) :
    SM EvmState BlockExecutionError TxLoop :=
  let available := wrap64 (h_gas_limit header - tl_gas l) in
  if available <? ts_gas_limit tx
  then slift (Err (TransactionGasLimitMoreThanAvailableBlockGas (ts_gas_limit tx) available))
  else
    let* s := sget in
    let* found := slift (map_err (λ _, SenderDbError) (db_basic sender s)) in
    let* original := slift (ok_or found SenderNotFound) in
    let* '(res, diff) := slift (map_err (EvmFailed (ts_hash tx))
                           (evm_transact header total_difficulty tx sender s)) in
    let base_fee := h_base_fee_per_gas header in
    let* tip := slift (expect (effective_tip_per_gas (ts_fees tx) base_fee)) in
    let fee := wrap128 (tip + default 0 base_fee) in
    let fees := wrap128 (tl_fees l + wrap128 (fee * gas_used_of res)) in
    let gas := wrap64 (tl_gas l + gas_used_of res) in
    let* '(pegins, pegouts, (res, diff)) :=
      (if is_success res then
         match botanix_mint_contract_checks res pkg (ts_hash tx) with
         | Ok (pegins, pegouts) => sret (pegins, pegouts, (res, diff))
         | Err _ =>
             let* reverted := slift (revert_mint sender tx base_fee original (gas_used_of res) diff) in
             sret ([], [], reverted)
         | Panic => slift Panic
         end
       else sret ([], [], (res, diff))) in
    smodify (db_commit diff) ;;*
    sret (mkTxLoop
      (tl_receipts l ++ [{| rc_tx_type := tx_type (ts_fees tx); rc_success := is_success res;
                            rc_cumulative_gas_used := gas; rc_logs := result_logs res |}])
      gas fees (tl_pegins l ++ pegins) (tl_pegouts l ++ pegouts)).

Fixpoint execute_transactions (header : EthHeader) (total_difficulty : Z)
    (pkg : BotanixConsensusPackage) (txs : list (Address * TransactionSigned)) (l : TxLoop) :
    SM EvmState BlockExecutionError TxLoop :=
  match txs with
  | [] => sret l
  | (sender, tx) :: rest =>
      let* l' := execute_transaction header total_difficulty pkg sender tx l in
      execute_transactions header total_difficulty pkg rest l'
  end.

Record EthExecuteOutput := mkOutput {
  eo_receipts : list Receipt;
  eo_requests : list Request;
  eo_gas_used : Z;
  eo_total_block_fees : Z;
  eo_pegins : list PeginData;
  eo_pegouts : list PegoutWithId;
}.

Record BlockWithSenders := mkBlockWithSenders { bws_block : EthBlock; senders : list Address }.

Definition call {A} (m : SM EvmState CallError A) : SM EvmState BlockExecutionError A :=
  smap_err CallFailed m.

Definition execute_state_transitions (b : BlockWithSenders) (total_difficulty : Z)
    (pkg : BotanixConsensusPackage) : SM EvmState BlockExecutionError EthExecuteOutput :=
  let header := eb_header (bws_block b) in
  call (apply_beacon_root_contract_call header) ;;*
  call (apply_blockhashes_update header) ;;*
  let* l := execute_transactions header total_difficulty pkg
              (zip (senders b) (eb_body (bws_block b))) (mkTxLoop [] 0 0 [] []) in
  let* requests :=
    (if is_prague_active_at_timestamp (inner chain_spec) (h_timestamp header) then
       let* deposits := call (slift (parse_deposits_from_receipts (rc_logs <$> tl_receipts l))) in
       let* withdrawals := call apply_withdrawal_requests_contract_call in
       let* consolidations := call apply_consolidation_requests_contract_call in
       sret (deposits ++ withdrawals ++ consolidations)
     else sret []) in
  sret (mkOutput (tl_receipts l) requests (tl_gas l) (tl_fees l) (tl_pegins l) (tl_pegouts l)).

(** ** Blocks *)

Definition on_new_block (h : EthHeader) : SM EvmState BlockExecutionError () :=
  smodify (set_state_clear_flag
             (is_spurious_dragon_active_at_block (inner chain_spec) (h_number h))).

Definition post_execution (b : EthBlock) (total_difficulty : Z) (total_block_fees : option Z)
    (fee_recipient : Address) : SM EvmState BlockExecutionError () :=
  let h := eb_header b in
  let* increments := slift (post_block_balance_increments address_from_hex chain_spec h
    ((λ o, (h_beneficiary o, h_number o)) <$> eb_ommers b) (eb_withdrawals b)
    total_difficulty total_block_fees (Some fee_recipient)) in
  let* increments :=
    (if transitions_at_block (fork Dao (hardforks (inner chain_spec))) (h_number h) then
       let* drained := smap_err (λ _, IncrementBalanceFailed) (drain_balances DAO_HARDFORK_ACCOUNTS) in
       sret (add_to DAO_HARDFORK_BENEFICIARY (wrap128 (zsum drained)) increments)
     else sret increments) in
  smap_err (λ _, IncrementBalanceFailed) (increment_balances increments).

Definition execute_without_verification (b : BlockWithSenders) (total_difficulty : Z) :
    SM EvmState BlockExecutionError EthExecuteOutput :=
  let header := eb_header (bws_block b) in
  on_new_block header ;;*
  let* edh := slift (map_err (λ _, ExtraDataSerializeError) (deserialize_extra_data_header header)) in
  let* pkg := slift (map_err BotanixConsensusPkgError
                (botanix_consensus_package bitcoin_network (build_and_connect view) header)) in
  let* output := execute_state_transitions b total_difficulty pkg in
  post_execution (bws_block b) total_difficulty (Some (eo_total_block_fees output))
    (edh_block_fee_recipient_address edh) ;;*
  sret output.
End execution.
