(* ===== verification/ExecutionTheory.v ===== *)
(** * Theorems about executing a block

    A mint whose pegin does not check costs its sender the fee and changes nothing
    else; every pegin a block reports is backed by more bitcoin than it mints; pegouts
    of a block have distinct ids; the gas of a block stays within its limit. *)

From S2P Require Import Prelude Bitcoin Codec Headers Peg Mint ChainRules HeaderRules Execution.
From S2P Require Import PegTheory MintTheory.

(** Documented behaviour of [revm] and of the fee rules of EIP-1559. *)
Class EvmLaws `{!EthLib, !BlockLib, !Evm} : Prop := {
  evm_gas h td tx sender s r d :
    evm_transact h td tx sender s = Ok (r, d) → 0 ≤ gas_used_of r ≤ ts_gas_limit tx;
  (** every log costs gas, and refunds never give all of it back *)
  evm_logs h td tx sender s r d :
    evm_transact h td tx sender s = Ok (r, d) → Z.of_nat (length (result_logs r)) ≤ gas_used_of r;
  (** an account outside the changes keeps its state *)
  commit_other d s a : d !! a = None → db_basic a (db_commit d s) = db_basic a s;
  (** a touched account with a nonce is stored *)
  commit_touched d s a acc :
    d !! a = Some acc → acc_touched acc = true → 0 < ai_nonce (acc_info acc) →
    db_basic a (db_commit d s) = Ok (Some (acc_info acc));
  (** EIP-1559: the base fee and the priority fee, capped by the maximum *)
  dynamic_price m p base : base ≤ m →
    dynamic_effective_gas_price m p (Some base) = Z.min (m - base) p + base;
}.

Section theory.
Context `{!HeaderHash, !BitcoinHashes, !ConsensusEncoding, !Secp256k1, !PegLib, !Abi}.
Context `{!EthLib, !BlockLib, !Evm}.
Context {BE PE : Type} (view : ChainView BE PE) (network : Network).

(** ** Undone mints *)

(** The price per gas is what the fees of the block count. *)
Lemma effective_price_is_fee `{!EvmLaws} t base tip :
  effective_tip_per_gas t (Some base) = Some tip → effective_gas_price t (Some base) = tip + base.
Proof.
  unfold effective_tip_per_gas, effective_gas_price. destruct t; simpl; case_match; try done;
    bool_to_prop; intros [= <-]; rewrite ?dynamic_price by lia; lia.
Qed.

Lemma revert_mint_ok sender tx base original gas diff r d :
  revert_mint (BE := BE) (PE := PE) sender tx base original gas diff = Ok (r, d) →
  let cost := wrap256 (gas * effective_gas_price (ts_fees tx) base) in
  r = Revert gas ∧ cost ≤ ai_balance original ∧
  ∃ after, diff !! sender = Some after ∧
    d = {[ sender := mkAccount (mkInfo (ai_balance original - cost) (ai_nonce (acc_info after))
                                       (ai_code_hash original)) ∅ true ]}.
Proof.
  unfold revert_mint. intros Hr. rinv Hr. injection Hr as <- <-.
  apply ok_or_ok in E. apply ok_or_ok, checked_sub_some in E0 as [-> ?]. eauto.
Qed.

(** One transaction, step by step. *)
Lemma execute_transaction_ok header td pkg sender tx l l' s s' :
  execute_transaction view network header td pkg sender tx l s = (Ok l', s') →
  ∃ original res diff tip res' diff' pegins pegouts,
    ts_gas_limit tx ≤ wrap64 (h_gas_limit header - tl_gas l) ∧
    db_basic sender s = Ok (Some original) ∧
    evm_transact header td tx sender s = Ok (res, diff) ∧
    effective_tip_per_gas (ts_fees tx) (h_base_fee_per_gas header) = Some tip ∧
    s' = db_commit diff' s ∧
    tl_receipts l' = tl_receipts l ++
      [{| rc_tx_type := tx_type (ts_fees tx); rc_success := is_success res';
          rc_cumulative_gas_used := wrap64 (tl_gas l + gas_used_of res);
          rc_logs := result_logs res' |}] ∧
    tl_gas l' = wrap64 (tl_gas l + gas_used_of res) ∧
    tl_fees l' = wrap128 (tl_fees l + wrap128 (wrap128 (tip + default 0 (h_base_fee_per_gas header)) *
                                               gas_used_of res)) ∧
    tl_pegins l' = tl_pegins l ++ pegins ∧ tl_pegouts l' = tl_pegouts l ++ pegouts ∧
    (if is_success res then
       match botanix_mint_contract_checks view network res pkg (ts_hash tx) with
       | Ok (ps, qs) => pegins = ps ∧ pegouts = qs ∧ res' = res ∧ diff' = diff
       | Err _ => pegins = [] ∧ pegouts = [] ∧
           revert_mint (BE := BE) (PE := PE) sender tx (h_base_fee_per_gas header) original (gas_used_of res) diff
             = Ok (res', diff')
       | Panic => False
       end
     else pegins = [] ∧ pegouts = [] ∧ res' = res ∧ diff' = diff).
Proof.
  unfold execute_transaction. case_match; [done|]. bool_to_prop.
  unfold sbind, sget, slift. destruct (db_basic sender s) as [[original|]| |] eqn:Hb; try done.
  cbn [map_err ok_or]. destruct (evm_transact _ _ _ _ _) as [[res diff]| |] eqn:He; try done.
  cbn [map_err]. destruct (effective_tip_per_gas _ _) as [tip|] eqn:Htip; [|done]. cbn [expect].
  destruct (is_success res) eqn:Hs; cycle 1.
  { intros [= <- <-]. exists original, res, diff, tip, res, diff, [], [].
    rewrite Hs, !app_nil_r. split_and!; done. }
  destruct (botanix_mint_contract_checks _ _ _ _ _) as [[ps qs]|e|] eqn:Hc; cycle 2; [done|..].
  - intros [= <- <-]. exists original, res, diff, tip, res, diff, ps, qs. rewrite Hs, Hc. split_and!; done.
  - destruct (revert_mint _ _ _ _ _ _) as [[res' diff']| |] eqn:Hr; try done. intros [= <- <-].
    exists original, res, diff, tip, res', diff', [], []. rewrite Hs, Hc, !app_nil_r. split_and!; done.
Qed.

(** The counter of the block's fees, 128 bits wide, takes the fee as the sender pays it,
    256 bits wide. *)
Lemma fees_count_cost fees price gas :
  wrap128 (fees + wrap128 (wrap128 price * gas)) = wrap128 (fees + wrap256 (gas * price)).
Proof.
  unfold wrap128, wrap256. rewrite <-(Zplus_mod_idemp_r (_ mod 2 ^ 256)).
  assert (∀ x, (x mod 2 ^ 256) mod 2 ^ 128 = x mod 2 ^ 128) as Hmod.
  { intros x. apply Z.mod_mod_divide. by exists (2 ^ 128). }
  rewrite Hmod, Zmult_mod_idemp_l, !Zplus_mod_idemp_r, (Z.mul_comm gas).
  done.
Qed.

(** C22. A mint that does not check costs its fee and nothing else.  When a transaction
    succeeds in the EVM but a pegin or pegout of its logs is refused, every other
    account is left as it was, the sender keeps its code, takes the nonce of the
    execution and pays exactly the gas used at the base fee and the tip; the fees that
    the block counts grow by exactly this cost (in the 128 bits of the counter); the
    receipt reports failure without logs, and no pegin or pegout is reported. *)
Theorem failed_mint_costs_only_fee `{!EvmLaws} header td pkg sender tx l l' s s' res diff e base :
  execute_transaction view network header td pkg sender tx l s = (Ok l', s') →
  evm_transact header td tx sender s = Ok (res, diff) → is_success res = true →
  botanix_mint_contract_checks view network res pkg (ts_hash tx) = Err e →
  h_base_fee_per_gas header = Some base →
  (∀ acc, diff !! sender = Some acc → 0 < ai_nonce (acc_info acc)) →
  tl_pegins l' = tl_pegins l ∧ tl_pegouts l' = tl_pegouts l ∧
  (∃ r, tl_receipts l' = tl_receipts l ++ [r] ∧ rc_success r = false ∧ rc_logs r = []) ∧
  (∀ a, a ≠ sender → db_basic a s' = db_basic a s) ∧
  ∃ original after tip,
    db_basic sender s = Ok (Some original) ∧ diff !! sender = Some after ∧
    effective_tip_per_gas (ts_fees tx) (Some base) = Some tip ∧
    let cost := wrap256 (gas_used_of res * (tip + base)) in
    cost ≤ ai_balance original ∧ tl_fees l' = wrap128 (tl_fees l + cost) ∧
    db_basic sender s' = Ok (Some (mkInfo (ai_balance original - cost) (ai_nonce (acc_info after))
                                          (ai_code_hash original))).
Proof.
  intros Hrun He Hs Hc Hbase Hnonce.
  apply execute_transaction_ok in Hrun
    as (original & res1 & diff1 & tip & res' & diff' & pegins & pegouts & _ & Hb & He1 & Htip & -> &
        Hrc & _ & Hfees & Hpi & Hpo & Hcase).
  rewrite He in He1. injection He1 as <- <-. rewrite Hs, Hc in Hcase.
  destruct Hcase as (-> & -> & Hrev). rewrite app_nil_r in Hpi, Hpo.
  apply revert_mint_ok in Hrev as (-> & Hcost & after & Hafter & ->). rewrite Hbase in *.
  rewrite (effective_price_is_fee _ _ _ Htip) in *.
  split_and!; [done|done| | |].
  - eexists. split; [exact Hrc|]. done.
  - intros a Ha. apply commit_other. by apply lookup_singleton_ne.
  - exists original, after, tip. split_and!; [done..|]. cbv zeta. split; [done|].
    split; [rewrite Hfees, <-fees_count_cost; done|].
    erewrite commit_touched; [|apply lookup_singleton_eq|done|simpl; auto]. done.
Qed.

(** ** Pegins are backed *)

(** The checkpoint a pegin was checked against: the block's own, or for proofs of
    version 1 the one that the block of this chain they name committed to. *)
Definition checkpoint_of (pkg : BotanixConsensusPackage) (p : PeginData) (c : Header * Z) : Prop :=
  c = bitcoin_checkpoint pkg ∨
  ∃ m hash h pkg', head (pd_meta p) = Some m ∧ meta_version m = 1 ∧
    meta_ref_block_hash m = Some hash ∧ find_block_by_hash view hash = Ok (Some h) ∧
    botanix_consensus_package network (build_and_connect view) h = Ok pkg' ∧
    c = bitcoin_checkpoint pkg'.

Lemma checkpoint_for_ok pkg p c v :
  checkpoint_for view network pkg p = Ok (c, v) → checkpoint_of pkg p c ∧ pd_meta p ≠ [].
Proof.
  unfold checkpoint_for. destruct (head (pd_meta p)) as [m|] eqn:Hh; [|done].
  intros Hr. split; [|intros Hn; by rewrite Hn in Hh].
  destruct (Z.eqb_spec (meta_version m) 1) as [Hv|Hv].
  - destruct (meta_ref_block_hash m) as [hash|] eqn:Hm; [|done].
    destruct (find_block_by_hash view hash) as [[h|]| |] eqn:Hf; try done.
    destruct (botanix_consensus_package _ _ h) as [pkg'| |] eqn:Hp; try done.
    cbn [map_err rbind] in Hr. injection Hr as <- _. right. exists m, hash, h, pkg'. done.
  - case_match; [done|]. cbn [rbind] in Hr. injection Hr as <- _. by left.
Qed.

(** A pegin that passed: all its proofs hold under one checkpoint at or above its height,
    and together they deposited more than it mints. *)
Definition pegin_backed (pkg : BotanixConsensusPackage) (p : PeginData) : Prop :=
  ∃ c outs, checkpoint_of pkg p c ∧ pd_meta p ≠ [] ∧ pd_bitcoin_block_height p ≤ c.2 ∧
    Forall2 (pegin_proof c (bcp_aggregate_public_key pkg) (pd_account p) (pd_bitcoin_block_height p))
            (pd_meta p) outs ∧
    NoDup (meta_outpoint <$> pd_meta p) ∧ pd_amount p < wei_of outs.

Context `{!EncodingLaws, !Secp256k1Laws, !PegLaws}.

Lemma check_pegin_ok pkg p :
  Forall meta_bounded (pd_meta p) → NoDup (meta_outpoint <$> pd_meta p) →
  check_pegin view network pkg p = Ok tt → pegin_backed pkg p.
Proof.
  intros Hb Hnd. unfold check_pegin.
  destruct (checkpoint_for view network pkg p) as [[c [version ref]]| |] eqn:Hc; try done.
  cbn [rbind]. intros Hr. rinv Hr. apply checkpoint_for_ok in Hc as [Hc Hne].
  rewrite ?reject_if_ok in *. bool_to_prop. apply map_err_ok in E1.
  apply validate_ok in E1 as (outs & Hf & ->); [|done].
  exists c, outs. split_and!; try done; lia.
Qed.

Lemma collect_pegins_backed pkg logs ps :
  collect_pegins view network pkg logs = Ok ps → Forall (pegin_backed pkg) ps.
Proof.
  revert ps. induction logs as [|log logs IH]; intros ps; simpl; [by intros [= <-]|].
  destruct (try_parse_mint_event log) as [[p|]| |] eqn:Hp; try done; cbn [map_err rbind]; [|by apply IH].
  intros Hr. rinv Hr. injection Hr as <-. destruct a.
  pose proof (mint_event_pegin log p Hp) as (Hnd & Hb & _).
  constructor; [by apply check_pegin_ok|by apply IH].
Qed.

(** An invariant of what the loop carries holds at its end. *)
Lemma execute_transactions_invariant (P : list (Address * TransactionSigned) → TxLoop → Prop)
    header td pkg txs l l' s s' :
  (∀ done l1 sender tx l2 s1 s2, P done l1 →
     execute_transaction view network header td pkg sender tx l1 s1 = (Ok l2, s2) →
     P (done ++ [(sender, tx)]) l2) →
  P [] l → execute_transactions view network header td pkg txs l s = (Ok l', s') → P txs l'.
Proof.
  intros Hstep. change txs with ([] ++ txs) at 2. generalize (@nil (Address * TransactionSigned)).
  intros done Hdone. revert done l s Hdone.
  induction txs as [|[sender tx] txs IH]; intros done l s HP; simpl.
  - intros [= <- <-]. by rewrite app_nil_r.
  - intros (l1 & s1 & H1' & Hrest)%sbind_ok. apply Hstep with (done := done) in H1'; [|done].
    apply (IH (done ++ [(sender, tx)])) in Hrest; [|done]. by rewrite <-app_assoc in Hrest.
Qed.

Lemma execute_transactions_backed header td pkg txs l' s s' :
  execute_transactions view network header td pkg txs (mkTxLoop [] 0 0 [] []) s = (Ok l', s') →
  Forall (pegin_backed pkg) (tl_pegins l').
Proof.
  apply (execute_transactions_invariant (λ _ l, Forall (pegin_backed pkg) (tl_pegins l)));
    [|constructor].
  intros dn l1 sender tx l2 s1 s2 HP Hrun.
  apply execute_transaction_ok in Hrun as (? & res & diff & tip & ? & ? & pegins & pegouts & _ & _ & _ &
    _ & _ & _ & _ & _ & -> & _ & Hcase).
  apply Forall_app. split; [done|].
  destruct (is_success res); [|destruct Hcase as (-> & _); constructor].
  destruct (botanix_mint_contract_checks _ _ _ _ _) as [[ps qs]| |] eqn:Hc; [|destruct Hcase as (-> & _); constructor|done].
  destruct Hcase as (-> & _). unfold botanix_mint_contract_checks in Hc. rinv Hc. simplify_eq.
  by eapply collect_pegins_backed.
Qed.

(** C1. Pegins are backed.  Every pegin a block's execution reports, the only ones that
    may mint, carries at least one proof; all its proofs hold, under the aggregate key
    and one checkpoint that the block or an earlier block of this chain committed to,
    at or below the checkpoint's height; their outpoints are distinct; and it mints
    strictly less than they deposited. *)
Theorem executed_pegins_are_backed header td pkg txs l' s s' :
  execute_transactions view network header td pkg txs (mkTxLoop [] 0 0 [] []) s = (Ok l', s') →
  Forall (pegin_backed pkg) (tl_pegins l').
Proof. apply execute_transactions_backed. Qed.

(** ** Pegout ids *)

Lemma collect_pegouts_ids net h i logs qs :
  0 ≤ i → i + Z.of_nat (length logs) ≤ u32_max + 1 → collect_pegouts net h i logs = Ok qs →
  NoDup (pw_id <$> qs) ∧ Forall (λ q, pid_txid (pw_id q) = h ∧ i ≤ idx (pw_id q)) qs.
Proof.
  revert i qs. induction logs as [|log logs IH]; intros i qs Hi Hlen; simpl.
  { intros [= <-]. split; constructor. }
  intros Hr. rinv Hr. injection Hr as <-. simpl in Hlen.
  apply IH in E0 as [Hnd Hall]; [|lia..].
  assert (Forall (λ q, pid_txid (pw_id q) = h ∧ i ≤ idx (pw_id q)) a0) as Hall'.
  { eapply Forall_impl; [exact Hall|]. simpl. intros q [? ?]. split; [done|lia]. }
  destruct a as [d|]; [|done]. rewrite wrap32_small by lia. split.
  - change (NoDup (mkPegoutId h i :: (pw_id <$> a0))). apply NoDup_cons. split; [|done].
    intros (q & Hq & Hin)%list_elem_of_fmap.
    pose proof (proj1 (Forall_forall _ _) Hall q Hin) as [_ Hidx]. rewrite <-Hq in Hidx. simpl in Hidx. lia.
  - constructor; [simpl; split; [done|lia]|done].
Qed.

(** ** Gas *)

Context `{!EvmLaws}.

(** The gas counted so far is the sum of what the transactions used, within the limit. *)
Lemma execute_transaction_gas header td pkg sender tx l l' s s' :
  0 ≤ tl_gas l ≤ h_gas_limit header → h_gas_limit header ≤ u64_max →
  execute_transaction view network header td pkg sender tx l s = (Ok l', s') →
  tl_gas l ≤ tl_gas l' ≤ h_gas_limit header ∧
  ∃ r, tl_receipts l' = tl_receipts l ++ [r] ∧ rc_cumulative_gas_used r = tl_gas l'.
Proof.
  intros Hl Hmax Hrun.
  apply execute_transaction_ok in Hrun as (? & res & diff & tip & ? & ? & pegins & pegouts & Havail & _ &
    Hevm & _ & _ & Hrc & Hgas & _).
  apply evm_gas in Hevm. rewrite wrap64_small in Havail by lia.
  rewrite wrap64_small in Hgas, Hrc by lia. split; [lia|]. rewrite Hgas. eauto.
Qed.

(** What the loop keeps of the gas. *)
Record gas_counted (limit : Z) (txs : list (Address * TransactionSigned)) (l : TxLoop) : Prop := {
  gc_range : 0 ≤ tl_gas l ≤ limit;
  gc_length : length (tl_receipts l) = length txs;
  gc_sorted : StronglySorted Z.le (0 :: (rc_cumulative_gas_used <$> tl_receipts l));
  gc_last : List.last (rc_cumulative_gas_used <$> tl_receipts l) 0 = tl_gas l;
  gc_below : Forall (λ g, g ≤ tl_gas l) (0 :: (rc_cumulative_gas_used <$> tl_receipts l));
}.

Lemma execute_transactions_gas header td pkg txs l' s s' :
  0 ≤ h_gas_limit header ≤ u64_max →
  execute_transactions view network header td pkg txs (mkTxLoop [] 0 0 [] []) s = (Ok l', s') →
  gas_counted (h_gas_limit header) txs l'.
Proof.
  intros Hlim. apply execute_transactions_invariant; cycle 1.
  { split; simpl; [lia|done|repeat constructor|done|repeat constructor; lia]. }
  intros dn l1 sender tx l2 s1 s2 [Hg Hlen Hs _ Hall] Hrun.
  apply execute_transaction_gas in Hrun as (Hg2 & r & Hrc & Hr); [|lia..].
  split; rewrite ?Hrc, ?length_app, ?fmap_app, ?app_comm_cons, ?Hlen; [lia|done| | |].
  - apply StronglySorted_app. split_and!; [|done|simpl; repeat constructor].
    intros x y Hx Hy. apply list_elem_of_singleton in Hy as ->.
    pose proof (proj1 (Forall_forall _ _) Hall x Hx). simpl in *. lia.
  - change (rc_cumulative_gas_used <$> [r]) with [rc_cumulative_gas_used r]. by rewrite List.last_last.
  - apply Forall_app. split; [|constructor; [simpl; lia|constructor]].
    eapply Forall_impl; [exact Hall|]. simpl. intros; lia.
Qed.

(** C40. The gas of a block.  A block that executes never exceeds the gas limit of its
    header, has one receipt per transaction, and the cumulative gas of its receipts
    never decreases and ends at the gas of the block. *)
Theorem block_gas_within_limit header td pkg txs l' s s' :
  0 ≤ h_gas_limit header ≤ u64_max →
  execute_transactions view network header td pkg txs (mkTxLoop [] 0 0 [] []) s = (Ok l', s') →
  0 ≤ tl_gas l' ≤ h_gas_limit header ∧
  length (tl_receipts l') = length txs ∧
  StronglySorted Z.le (0 :: (rc_cumulative_gas_used <$> tl_receipts l')) ∧
  List.last (rc_cumulative_gas_used <$> tl_receipts l') 0 = tl_gas l'.
Proof. intros Hlim Hrun. by destruct (execute_transactions_gas _ _ _ _ _ _ _ Hlim Hrun). Qed.

(** The pegouts one transaction adds: distinct ids that name the transaction. *)
Lemma execute_transaction_pegouts header td pkg sender tx l l' s s' :
  0 ≤ tl_gas l ≤ h_gas_limit header → h_gas_limit header ≤ u32_max →
  execute_transaction view network header td pkg sender tx l s = (Ok l', s') →
  ∃ qs, tl_pegouts l' = tl_pegouts l ++ qs ∧ NoDup (pw_id <$> qs) ∧
        Forall (λ q, pid_txid (pw_id q) = ts_hash tx) qs.
Proof.
  intros Hl Hmax Hrun.
  apply execute_transaction_ok in Hrun as (? & res & diff & tip & ? & ? & pegins & pegouts & Havail & _ &
    Hevm & _ & _ & _ & _ & _ & _ & -> & Hcase).
  exists pegouts. split; [done|].
  destruct (is_success res); cycle 1; [destruct Hcase as (_ & -> & _); split; constructor|].
  destruct (botanix_mint_contract_checks _ _ _ _ _) as [[ps qs]| |] eqn:Hc; [|..|done]; cycle 1.
  { destruct Hcase as (_ & -> & _); split; constructor. }
  destruct Hcase as (_ & -> & _). unfold botanix_mint_contract_checks in Hc. rinv Hc. simplify_eq.
  pose proof (evm_gas _ _ _ _ _ _ _ Hevm). apply evm_logs in Hevm.
  rewrite wrap64_small in Havail by (unfold u32_max, u64_max in *; lia).
  apply collect_pegouts_ids in E0 as [Hnd Hall]; [|lia|unfold u32_max in *; lia].
  split; [done|]. eapply Forall_impl; [exact Hall|]. naive_solver.
Qed.

(** What the loop keeps of the pegouts. *)
Record pegouts_identified (limit : Z) (txs : list (Address * TransactionSigned)) (l : TxLoop) : Prop := {
  pi_gas : 0 ≤ tl_gas l ≤ limit;
  pi_ids : NoDup ((λ p, ts_hash p.2) <$> txs) → NoDup (pw_id <$> tl_pegouts l);
  pi_owner : Forall (λ q, pid_txid (pw_id q) ∈ ((λ p, ts_hash p.2) <$> txs)) (tl_pegouts l);
}.

Lemma execute_transactions_pegouts header td pkg txs l' s s' :
  0 ≤ h_gas_limit header ≤ u32_max →
  execute_transactions view network header td pkg txs (mkTxLoop [] 0 0 [] []) s = (Ok l', s') →
  pegouts_identified (h_gas_limit header) txs l'.
Proof.
  intros Hlim. apply execute_transactions_invariant; cycle 1.
  { split; simpl; [lia|intros _; constructor|constructor]. }
  intros dn l1 sender tx l2 s1 s2 [Hg Hids Hall] Hrun.
  pose proof (execute_transaction_gas _ _ _ _ _ _ _ _ _ Hg ltac:(unfold u32_max, u64_max in *; lia) Hrun)
    as (Hg2 & _).
  apply execute_transaction_pegouts in Hrun as (qs & Hq & Hnd & Hqs); [|lia..].
  split; rewrite ?Hq, ?fmap_app; [lia| |].
  - intros (Hdn & Hdis & _)%NoDup_app. apply NoDup_app. split_and!; [by apply Hids| |done].
    intros i (q & -> & Hin)%list_elem_of_fmap (q' & He & Hin')%list_elem_of_fmap.
    pose proof (proj1 (Forall_forall _ _) Hall q Hin) as Hq1.
    pose proof (proj1 (Forall_forall _ _) Hqs q' Hin') as Hq2. simpl in Hq1, Hq2.
    rewrite He, Hq2 in Hq1. apply (Hdis _ Hq1). simpl. by apply list_elem_of_singleton.
  - apply Forall_app. split; (eapply Forall_impl; [eassumption|]); simpl; set_solver.
Qed.

(** Pegout ids.  Within a block of distinct transactions and at most 2^32 gas, every
    pegout has its own id, and the id names a transaction of the block. *)
Theorem block_pegout_ids_distinct header td pkg txs l' s s' :
  0 ≤ h_gas_limit header ≤ u32_max →
  NoDup ((λ p, ts_hash p.2) <$> txs) →
  execute_transactions view network header td pkg txs (mkTxLoop [] 0 0 [] []) s = (Ok l', s') →
  NoDup (pw_id <$> tl_pegouts l') ∧
  Forall (λ q, pid_txid (pw_id q) ∈ ((λ p, ts_hash p.2) <$> txs)) (tl_pegouts l').
Proof.
  intros Hlim Hnd Hrun. destruct (execute_transactions_pegouts _ _ _ _ _ _ _ Hlim Hrun). auto.
Qed.
End theory.

(** ** A worked example *)

Module ExecutionSample.
Import SampleCodec PegSample.
#[local] Existing Instances sample_encoding sample_encoding_laws sample_secp sample_secp_laws
  sample_header_hash sample_hashes sample_peg sample_peg_laws sample_abi.

#[local] Instance sample_eth : EthLib := {|
  hash_slow h := [h_number h]; EMPTY_OMMER_ROOT_HASH := []; EMPTY_ROOT_HASH := [];
  BaseFeeParams := (); elasticity_multiplier _ := 2;
  calc_next_block_base_fee _ _ base _ := base;
  calc_excess_blob_gas excess used := Z.max (excess + used - 393216) 0;
  calc_blob_gasprice _ := 1;
|}.
#[local] Instance sample_blocks : BlockLib := {|
  DATA_GAS_PER_BLOB := 131072; MAX_DATA_GAS_PER_BLOCK := 786432;
  dynamic_effective_gas_price m p base :=
    match base with Some b => Z.min (m - b) p + b | None => m end;
  Request := (); calculate_ommers_root _ := []; calculate_transaction_root _ := [];
  calculate_withdrawals_root _ := []; calculate_requests_root _ := [];
|}.

(** A log of the mint contract without proofs, and a burn. *)
Definition bad_log : Log := mkLog MINT_CONTRACT_ADDRESS [[1]; zeros 12 ++ replicate 20 9] [].
Definition log_of (tx : TransactionSigned) : Log := if ts_rest tx is [] then bad_log else mint_log.

(** Every transaction uses 100 gas, emits one log and bumps its sender's nonce. *)
#[local] Instance sample_evm : Evm := {|
  EvmState := gmap Address AccountInfo; DbError := (); EvmError := (); CallError := ();
  db_basic a s := Ok (s !! a);
  db_commit d s := (acc_info <$> d) ∪ s;
  evm_transact _ _ tx sender s :=
    if ts_gas_limit tx <? 100 then Err tt
    else Ok (Success 100 [log_of tx],
             {[ sender := mkAccount (mkInfo 2000 (1 + default 0 (ai_nonce <$> s !! sender)) []) ∅ true ]});
  apply_beacon_root_contract_call _ := sret tt; apply_blockhashes_update _ := sret tt;
  parse_deposits_from_receipts _ := Ok []; apply_withdrawal_requests_contract_call := sret [];
  apply_consolidation_requests_contract_call := sret [];
  set_state_clear_flag _ s := s; drain_balances _ := sret []; increment_balances _ := sret tt;
  DAO_HARDFORK_ACCOUNTS := []; DAO_HARDFORK_BENEFICIARY := []; address_from_hex _ := Some [];
|}.
#[local] Instance sample_evm_laws : EvmLaws.
Proof.
  split.
  - intros h td tx sender s r d. simpl. case_match; [done|]. intros [= <- <-]. bool_to_prop. simpl. lia.
  - intros h td tx sender s r d. simpl. case_match; [done|]. intros [= <- <-]. simpl. lia.
  - intros d s a Ha. simpl. f_equal. apply lookup_union_r. by rewrite lookup_fmap, Ha.
  - intros d s a acc Ha _ _. simpl. f_equal. apply lookup_union_Some_l. by rewrite lookup_fmap, Ha.
  - done.
Qed.

Definition alice : Address := replicate 20 3.
Definition start : EvmState := ({[ alice := mkInfo 5000 4 [] ]} : gmap Address AccountInfo).
Definition block_header : EthHeader := {|
  h_parent_hash := []; h_ommers_hash := []; h_beneficiary := address_zero; h_state_root := [];
  h_transactions_root := []; h_receipts_root := []; h_withdrawals_root := None; h_logs_bloom := [];
  h_difficulty := 0; h_number := 7; h_gas_limit := 30000; h_gas_used := 0; h_timestamp := 0;
  h_mix_hash := []; h_nonce := 0; h_base_fee_per_gas := Some 7; h_blob_gas_used := Some 0;
  h_excess_blob_gas := Some 0; h_parent_beacon_block_root := Some (zeros 32); h_requests_root := None;
  h_extra_data := [] |}.
Definition package : BotanixConsensusPackage := {|
  bitcoin_checkpoint := (header 100, 100); bcp_aggregate_public_key := key; btc_network := NetRegtest |}.
Definition no_blocks : ChainView () () := {|
  find_block_by_hash _ := Ok None; build_and_connect := Err tt |}.
Definition mint_tx : TransactionSigned :=
  {| ts_hash := [1]; ts_fees := Eip1559 20 3; ts_gas_limit := 21000; ts_rest := [1] |}.
Definition bad_tx : TransactionSigned :=
  {| ts_hash := [2]; ts_fees := Eip1559 20 3; ts_gas_limit := 21000; ts_rest := [] |}.
Definition loop0 : TxLoop := mkTxLoop [] 0 0 [] [].
Definition run_block := execute_transactions no_blocks NetRegtest block_header 0 package
  [(alice, mint_tx); (alice, bad_tx)] loop0.

Lemma ok_inv {S E A} (m : SM S E A) s : is_ok (m s).1 = true → ∃ a s', m s = (Ok a, s').
Proof. destruct (m s) as [[a| |] s']; naive_solver. Qed.

Lemma err_inv {E A} (r : result E A) :
  match r with Err _ => true | _ => false end = true → ∃ e, r = Err e.
Proof. destruct r; naive_solver. Qed.

(** The sender pays 100 gas at 7 + 3 and nothing else. *)
Lemma failed_mint_costs_only_fee_witness :
  ∃ l' s', execute_transaction no_blocks NetRegtest block_header 0 package alice bad_tx loop0 start =
             (Ok l', s') ∧ tl_pegins l' = [] ∧ tl_fees l' = 1000 ∧
    db_basic alice s' = Ok (Some (mkInfo 4000 5 [])).
Proof.
  destruct (ok_inv (execute_transaction no_blocks NetRegtest block_header 0 package alice bad_tx loop0) start)
    as (l' & s' & Hrun); [vm_compute; reflexivity|].
  destruct (err_inv (botanix_mint_contract_checks no_blocks NetRegtest (Success 100 [bad_log]) package [2]))
    as [e He]; [vm_compute; reflexivity|].
  exists l', s'. split; [exact Hrun|].
  eapply failed_mint_costs_only_fee in Hrun
    as (Hp & _ & _ & _ & original & after & tip & Ho & Ha & Ht & _ & Hfee & Hs');
    [|exact sample_evm_laws|reflexivity|reflexivity|exact He|reflexivity|].
  - split; [exact Hp|]. rewrite Hs', Hfee. vm_compute in Ho, Ha, Ht.
    injection Ho as <-. injection Ha as <-. injection Ht as <-. split; vm_compute; reflexivity.
  - intros acc Hacc. vm_compute in Hacc. injection Hacc as <-. reflexivity.
Defined.

Lemma executed_pegins_are_backed_witness :
  ∃ l' s', run_block start = (Ok l', s') ∧ length (tl_pegins l') = 1%nat ∧
    Forall (pegin_backed no_blocks NetRegtest package) (tl_pegins l').
Proof.
  destruct (ok_inv run_block start) as (l' & s' & Hrun); [vm_compute; reflexivity|].
  exists l', s'. split_and!; [exact Hrun| |eapply executed_pegins_are_backed; [exact _..|exact Hrun]].
  assert (match (run_block start).1 with Ok l => (length (tl_pegins l) =? 1)%nat | _ => false end = true)
    as Hlen by (vm_compute; reflexivity).
  rewrite Hrun in Hlen. by apply Nat.eqb_eq.
Defined.

Lemma block_gas_within_limit_witness :
  ∃ l' s', run_block start = (Ok l', s') ∧ 0 ≤ tl_gas l' ≤ 30000.
Proof.
  destruct (ok_inv run_block start) as (l' & s' & Hrun); [vm_compute; reflexivity|].
  exists l', s'. split; [exact Hrun|].
  eapply (block_gas_within_limit no_blocks NetRegtest) in Hrun as (Hg & _); [exact Hg|]. unfold u64_max. simpl. lia.
Defined.

Lemma block_pegout_ids_distinct_witness :
  ∃ l' s', run_block start = (Ok l', s') ∧ NoDup (pw_id <$> tl_pegouts l').
Proof.
  destruct (ok_inv run_block start) as (l' & s' & Hrun); [vm_compute; reflexivity|].
  exists l', s'. split; [exact Hrun|].
  eapply (block_pegout_ids_distinct no_blocks NetRegtest) in Hrun as (Hids & _); [exact Hids| |].
  - unfold u32_max. simpl. lia.
  - decide_vm.
Defined.
End ExecutionSample.
