(* ===== verification/BlockBuilder.v ===== *)
(** * Building and verifying blocks

    - [consensus/authority/src/excecution_utils.rs]: the block that a validator builds
      from a proposal's transactions ([build_header_template], [execute],
      [complete_header], [build_and_execute]) and the batches of a snapshot
      ([batch_execute]);
    - [ethereum/evm/src/execute.rs], [ethereum/consensus/src/validation.rs]: execution
      of a block against the header it came with ([execute_and_verify_one]).

    The node's database is [Provider]: its calls may fail.  Tries, signatures and
    blooms are the class [ChainLib]. *)

From S2P Require Import Prelude Activation Bitcoin Codec Headers Peg Mint ChainRules HeaderRules Execution.
Import Manager.

Class ChainLib `{!EthLib, !BlockLib, !Evm} := {
  EMPTY_RECEIPTS : B256;
  EMPTY_TRANSACTIONS : B256;
  (** the bloom filter of a receipt's logs *)
  receipt_bloom : Receipt → bytes;
  bloom_union : bytes → bytes → bytes;
  calculate_receipt_root : list Receipt → B256;
  recover_signers : list TransactionSigned → option (list Address);
  (** the state of a database at a block, a fresh [State] on top of it, and the changes
      [State] has collected *)
  WorldState : Type;
  open_state : WorldState → EvmState;
  BundleState : Type;
  take_bundle : EvmState → BundleState;
  TrieUpdates : Type;
  TrieError : Type;
  state_root : WorldState → BundleState → result TrieError B256;
  overlay_root_with_updates : WorldState → BundleState → result TrieError (B256 * TrieUpdates);
}.

Record Provider `{ChainLib} (PE : Type) := mkProvider {
  best_block_number : result PE Z;
  block_hash_of : Z → result PE (option B256);
  header_by_number : Z → result PE (option EthHeader);
  header_by_hash : B256 → result PE (option EthHeader);
  state_provider_by_block_number : Z → result PE WorldState;
  latest_state : WorldState;
}.
Arguments best_block_number {_ _ _ _ _}.
Arguments block_hash_of {_ _ _ _ _}.
Arguments header_by_number {_ _ _ _ _}.
Arguments header_by_hash {_ _ _ _ _}.
Arguments state_provider_by_block_number {_ _ _ _ _}.
Arguments latest_state {_ _ _ _ _}.

Section builder.
Context `{!HeaderHash, !BitcoinHashes, !ConsensusEncoding, !Secp256k1, !PegLib, !Abi}.
Context `{!EthLib, !BlockLib, !Evm, !ChainLib}.
Context {BE PE : Type}.
(** [database_provider.provider()] and [BitcoindFactory::build_and_connect]. *)
Context (database_provider : result PE (Provider PE)) (bitcoind : result BE (BitcoindClient BE)).
Context (chain_spec : BotanixChainSpec) (bitcoin_network : Network).
Context (ethereum_params : BaseFeeParams).

Abbreviation BuildError := (BlockExecutionError (BE := BE) (PE := PE)).

Definition provider_err {A} (r : result PE A) : result BuildError A := map_err ProviderFailed r.
Definition root_err {A} (r : result TrieError A) : result BuildError A :=
  map_err (λ _, StateRootError) r.
(** [.expect(..)] of a result. *)
Definition unwrap {E F A} (r : result E A) : result F A :=
  match r with Ok a => Ok a | _ => Panic end.

(** ** Verification of an executed block *)

Definition bloom_zero : bytes := zeros 256.
Definition logs_bloom_of (receipts : list Receipt) : bytes :=
  foldl (λ bloom r, bloom_union bloom (receipt_bloom r)) bloom_zero receipts.

Definition compare_receipts_root_and_logs_bloom (root : B256) (bloom : bytes)
    (expected_root : B256) (expected_bloom : bytes) : result ConsensusError () :=
  let? _ := reject_if (bool_decide (root ≠ expected_root)) (BodyReceiptRootDiff root expected_root) in
  reject_if (bool_decide (bloom ≠ expected_bloom)) (BodyBloomLogDiff bloom expected_bloom).

Definition verify_receipts (expected_root : B256) (expected_bloom : bytes) (receipts : list Receipt) :
    result ConsensusError () :=
  compare_receipts_root_and_logs_bloom (calculate_receipt_root receipts) (logs_bloom_of receipts)
    expected_root expected_bloom.

Definition validate_block_post_execution (b : EthBlock) (s : ChainSpec) (receipts : list Receipt)
    (requests : list Request) : result ConsensusError () :=
  let h := eb_header b in
  let cumulative := from_option rc_cumulative_gas_used 0 (last receipts) in
  let? _ := reject_if (negb (h_gas_used h =? cumulative)) (BlockGasUsed cumulative (h_gas_used h)) in
  let? _ := (if is_byzantium_active_at_block s (h_number h)
             then verify_receipts (h_receipts_root h) (h_logs_bloom h) receipts else Ok tt) in
  if is_prague_active_at_timestamp s (h_timestamp h) then
    let? header_root := ok_or (h_requests_root h) RequestsRootMissing in
    let root := calculate_requests_root requests in
    reject_if (bool_decide (root ≠ header_root)) (BodyRequestsRootDiff root header_root)
  else Ok tt.

(** ** Execution *)

Definition view_of (p : Provider PE) : ChainView BE PE := mkView _ _ (header_by_hash p) bitcoind.

(** [BlockExecutionOutput]; the bundle is taken from the state at the end. *)
Record BlockExecutionOutput := mkExecOutput {
  xo_state : BundleState;
  xo_output : EthExecuteOutput;
}.

(** [EthBlockExecutor::execute] on a fresh state. *)
Definition executor_execute (p : Provider PE) (b : BlockWithSenders) (total_difficulty : Z)
    (w : WorldState) : result BuildError BlockExecutionOutput :=
  let '(r, s) := execute_without_verification (view_of p) chain_spec bitcoin_network b
                   total_difficulty (open_state w) in
  let? output := r in
  Ok (mkExecOutput (take_bundle s) output).

(** [execute] of the builder: on the state of the parent. *)
Definition execute (b : BlockWithSenders) : result BuildError BlockExecutionOutput :=
  let? p := provider_err database_provider in
  let? w := provider_err (state_provider_by_block_number p
                            (wrap64 (h_number (eb_header (bws_block b)) - 1))) in
  executor_execute p b 0 w.

(** [ExecutionOutcome]. *)
Record ExecutionOutcome := mkOutcome {
  oc_bundle : BundleState;
  oc_receipts : list (list Receipt);
  oc_first_block : Z;
  oc_requests : list (list Request);
}.

(** [BlockBatchRecord], with the default prune modes that keep everything. *)
Record BlockBatchRecord := mkBatch {
  br_first_block : option Z;
  br_tip : option Z;
  br_receipts : list (list Receipt);
  br_requests : list (list Request);
}.
Definition batch_record_default : BlockBatchRecord := mkBatch None None [] [].
Definition set_tip (tip : Z) (r : BlockBatchRecord) : BlockBatchRecord :=
  mkBatch (br_first_block r) (Some tip) (br_receipts r) (br_requests r).

(** One block of a batch, on the state the earlier ones left. *)
Definition execute_and_verify_one (view : ChainView BE PE) (b : BlockWithSenders)
    (total_difficulty : Z) : SM (EvmState * BlockBatchRecord) BuildError () :=
  smodify (λ sr, (sr.1, mkBatch (Some (default (h_number (eb_header (bws_block b)))
                                               (br_first_block sr.2)))
                                (br_tip sr.2) (br_receipts sr.2) (br_requests sr.2))) ;;*
  let* output := zoom fst (λ s sr, (s, snd sr))
                   (execute_without_verification view chain_spec bitcoin_network b total_difficulty) in
  slift (map_err PostExecutionInvalid
           (validate_block_post_execution (bws_block b) (inner chain_spec)
              (eo_receipts output) (eo_requests output))) ;;*
  smodify (λ sr, (sr.1, mkBatch (br_first_block sr.2) (br_tip sr.2)
                                (br_receipts sr.2 ++ [eo_receipts output])
                                (br_requests sr.2 ++ [eo_requests output]))).

Definition finalize_batch (s : EvmState) (r : BlockBatchRecord) : ExecutionOutcome :=
  mkOutcome (take_bundle s) (br_receipts r) (default 0 (br_first_block r)) (br_requests r).

Inductive BatchError := EmptyBatch | BatchFailed (e : BuildError).

Definition batch_execute (blocks : list BlockWithSenders) : result BatchError ExecutionOutcome :=
  match blocks, last blocks with
  | first :: _, Some final =>
      let number b := h_number (eb_header (bws_block b)) in
      let? p := map_err BatchFailed (provider_err database_provider) in
      let? w := map_err BatchFailed (provider_err (state_provider_by_block_number p
                                                     (wrap64 (number first - 1)))) in
      let '(r, (s, record)) :=
        sfor blocks (λ b, execute_and_verify_one (view_of p) b 0)
          (open_state w, set_tip (number final) batch_record_default) in
      let? _ := map_err BatchFailed r in
      Ok (finalize_batch s record)
  | _, _ => Err EmptyBatch
  end.

(** ** Headers *)

Definition ETHEREUM_BLOCK_GAS_LIMIT : Z := 30000000.

(** The blob gas that [build_header_template] adds up and then overwrites with 0. *)
Definition template_blob_gas (transactions : list TransactionSigned) : Z :=
  wrap64 (zsum (omap (λ t, tx_blob_gas (ts_fees t)) transactions)).

(** The seconds of a [Timestamp] are an [i64], cast to [u64]. *)
Definition build_header_template (transactions : list TransactionSigned)
    (bitcoin_checkpoint : BlockHash) (agg_pk : PublicKey) (seconds : Z) (recipient : Address) :
    result BuildError EthHeader :=
  let s := inner chain_spec in
  let? client := provider_err database_provider in
  let? best_block := map_err (λ _, LatestBlockError) (best_block_number client) in
  let? found := map_err (λ _, LatestBlockError) (block_hash_of client best_block) in
  let? best_hash := expect found in
  let timestamp := wrap64 seconds in
  let? parent := unwrap (header_by_number client best_block) in
  let base_fee_per_gas :=
    parent ← parent;
    next_block_base_fee parent (base_fee_params_at_timestamp ethereum_params s timestamp) in
  let edh := mkEdh EXTRA_HEADER_VERSION CHAIN_VERSION bitcoin_checkpoint agg_pk recipient in
  let template (blob_gas_used excess_blob_gas : option Z) (beacon_root : option B256) := {|
    h_parent_hash := best_hash; h_ommers_hash := EMPTY_OMMER_ROOT_HASH;
    h_beneficiary := address_zero; h_state_root := zeros 32;
    h_transactions_root := if bool_decide (transactions = []) then EMPTY_TRANSACTIONS
                           else calculate_transaction_root transactions;
    h_receipts_root := zeros 32; h_withdrawals_root := None; h_logs_bloom := bloom_zero;
    h_difficulty := 0; h_number := wrap64 (best_block + 1);
    h_gas_limit := ETHEREUM_BLOCK_GAS_LIMIT; h_gas_used := 0; h_timestamp := timestamp;
    h_mix_hash := zeros 32; h_nonce := 0; h_base_fee_per_gas := base_fee_per_gas;
    h_blob_gas_used := blob_gas_used; h_excess_blob_gas := excess_blob_gas;
    h_parent_beacon_block_root := beacon_root; h_requests_root := None;
    h_extra_data := edh_serialize edh |} in
  if is_cancun_active_at_timestamp s timestamp then
    let _ := template_blob_gas transactions in
    let? parent := unwrap (header_by_hash client best_hash) in
    let '(parent_excess, parent_used) :=
      match parent with
      | Some ph =>
          if is_cancun_active_at_timestamp s (h_timestamp ph)
          then (default 0 (h_excess_blob_gas ph), default 0 (h_blob_gas_used ph)) else (0, 0)
      | None => (0, 0)
      end in
    Ok (template (Some 0) (Some (calc_excess_blob_gas parent_excess parent_used))
                 (ph ← parent; h_parent_beacon_block_root ph))
  else Ok (template None None None).

(** The fields that [build_and_execute] and [complete_header] assign. *)
Definition set_base_fee (fee : option Z) (h : EthHeader) : EthHeader := {|
  h_parent_hash := h_parent_hash h; h_ommers_hash := h_ommers_hash h;
  h_beneficiary := h_beneficiary h; h_state_root := h_state_root h;
  h_transactions_root := h_transactions_root h; h_receipts_root := h_receipts_root h;
  h_withdrawals_root := h_withdrawals_root h; h_logs_bloom := h_logs_bloom h;
  h_difficulty := h_difficulty h; h_number := h_number h; h_gas_limit := h_gas_limit h;
  h_gas_used := h_gas_used h; h_timestamp := h_timestamp h; h_mix_hash := h_mix_hash h;
  h_nonce := h_nonce h; h_base_fee_per_gas := fee; h_blob_gas_used := h_blob_gas_used h;
  h_excess_blob_gas := h_excess_blob_gas h;
  h_parent_beacon_block_root := h_parent_beacon_block_root h;
  h_requests_root := h_requests_root h; h_extra_data := h_extra_data h |}.
Definition set_results (receipts_root : B256) (bloom : bytes) (gas_used : Z) (root : B256)
    (extra_data : bytes) (h : EthHeader) : EthHeader := {|
  h_parent_hash := h_parent_hash h; h_ommers_hash := h_ommers_hash h;
  h_beneficiary := h_beneficiary h; h_state_root := root;
  h_transactions_root := h_transactions_root h; h_receipts_root := receipts_root;
  h_withdrawals_root := h_withdrawals_root h; h_logs_bloom := bloom;
  h_difficulty := h_difficulty h; h_number := h_number h; h_gas_limit := h_gas_limit h;
  h_gas_used := gas_used; h_timestamp := h_timestamp h; h_mix_hash := h_mix_hash h;
  h_nonce := h_nonce h; h_base_fee_per_gas := h_base_fee_per_gas h;
  h_blob_gas_used := h_blob_gas_used h; h_excess_blob_gas := h_excess_blob_gas h;
  h_parent_beacon_block_root := h_parent_beacon_block_root h;
  h_requests_root := h_requests_root h; h_extra_data := extra_data |}.

Definition complete_header (h : EthHeader) (x : BlockExecutionOutput) (gas_used : Z)
    (recent_block_hash : BlockHash) (agg_pk : PublicKey) : result BuildError EthHeader :=
  let receipts := eo_receipts (xo_output x) in
  let '(receipts_root, bloom) :=
    if bool_decide (length receipts = 0%nat) then (EMPTY_RECEIPTS, h_logs_bloom h)
    else (calculate_receipt_root receipts, logs_bloom_of receipts) in
  let? p := provider_err database_provider in
  let? w := provider_err (state_provider_by_block_number p (wrap64 (h_number h - 1))) in
  let? root := root_err (state_root w (xo_state x)) in
  let? producer := map_err (λ _, FailedToFetchBlockProducerAddress) (block_fee_recipient_address h) in
  let edh := mkEdh EXTRA_HEADER_VERSION CHAIN_VERSION recent_block_hash agg_pk producer in
  Ok (set_results receipts_root bloom gas_used root (edh_serialize edh) h).

(** ** Blocks *)

(** A sealed block with its senders. *)
Record SealedBlock := mkSealed { sb_hash : B256; sb_block : BlockWithSenders }.
Definition sb_header (b : SealedBlock) : EthHeader := eb_header (bws_block (sb_block b)).
Definition seal_block (b : BlockWithSenders) : SealedBlock :=
  mkSealed (hash_slow (eb_header (bws_block b))) b.

(** [SealedBlockWithPeg] and [BlockWithContext]. *)
Record SealedBlockWithPeg := mkWithPeg {
  wp_block : SealedBlock;
  wp_pegins : list PeginData;
  wp_pegouts : list PegoutWithId;
}.
Record BlockWithContext := mkContext {
  sealed_block_with_peg : SealedBlockWithPeg;
  runtime_version : RuntimeVersion;
  network_upgrade_payload : option NetworkUpgradePayload;
  exec_outcome : ExecutionOutcome;
  trie_updates : TrieUpdates;
}.

Definition apply_floor (floor_base_fee : option Z) (h : EthHeader) : EthHeader :=
  match h_base_fee_per_gas h, floor_base_fee with
  | Some fee, Some floor => set_base_fee (Some (Z.max fee floor)) h
  | _, _ => h
  end.

Definition build_and_execute (transactions : list TransactionSigned) (version : RuntimeVersion)
    (payload : option NetworkUpgradePayload) (floor_base_fee : option Z) (recipient : Address)
    (bitcoin_checkpoint : BlockHash) (agg_pk : PublicKey) (seconds : Z) :
    result BuildError BlockWithContext :=
  let? template := build_header_template transactions bitcoin_checkpoint agg_pk seconds recipient in
  let h := apply_floor floor_base_fee template in
  let block header := {| eb_header := header; eb_body := transactions; eb_ommers := [];
                         eb_withdrawals := None; eb_requests := None |} in
  let? signers := ok_or (recover_signers transactions) SenderRecoveryError in
  let? _ := rassert (length signers =? length transactions)%nat in
  let? x := execute (mkBlockWithSenders (block h) signers) in
  let? completed := complete_header h x (eo_gas_used (xo_output x)) bitcoin_checkpoint agg_pk in
  let? signers := expect (recover_signers transactions) in
  let sealed := seal_block (mkBlockWithSenders (block completed) signers) in
  let with_peg := mkWithPeg sealed (eo_pegins (xo_output x)) (eo_pegouts (xo_output x)) in
  let outcome := mkOutcome (xo_state x) [eo_receipts (xo_output x)] (h_number completed) [] in
  let? p := provider_err database_provider in
  let? '(_, updates) := root_err (overlay_root_with_updates (latest_state p) (oc_bundle outcome)) in
  Ok (mkContext with_peg version payload outcome updates).
End builder.
