(* ===== verification/BuilderTheory.v ===== *)
(** * Theorems about built blocks

    A block that one validator builds passes every check of the authority consensus and
    continues the chain it was built on, and replaying it on another node, from the same
    parent state, gives the same receipts and the same state changes. *)

From S2P Require Import Prelude Activation Bitcoin Codec Headers HeadersTheory Peg Mint ChainRules.
From S2P Require Import HeaderRules Execution MintTheory ExecutionTheory BlockBuilder.
Import Manager.

(** Documented behaviour of the tries and of the block environment: roots of empty
    lists, and that the EVM reads none of the fields that describe results. *)
Class ChainLaws `{!EthLib, !BlockLib, !Evm, !ChainLib} : Prop := {
  empty_transactions : calculate_transaction_root [] = EMPTY_TRANSACTIONS;
  empty_receipts : calculate_receipt_root [] = EMPTY_RECEIPTS;
  empty_ommers : calculate_ommers_root [] = EMPTY_OMMER_ROOT_HASH;
  env_transact rr bl g sr ed h : evm_transact (set_results rr bl g sr ed h) = evm_transact h;
  env_beacon_root rr bl g sr ed h :
    apply_beacon_root_contract_call (set_results rr bl g sr ed h) = apply_beacon_root_contract_call h;
  env_blockhashes rr bl g sr ed h :
    apply_blockhashes_update (set_results rr bl g sr ed h) = apply_blockhashes_update h;
  (** blob gas comes in whole blobs, and so does the target it is compared with *)
  max_data_gas : 0 ≤ MAX_DATA_GAS_PER_BLOCK;
  excess_in_blobs e u : e mod DATA_GAS_PER_BLOB = 0 → u mod DATA_GAS_PER_BLOB = 0 →
    calc_excess_blob_gas e u mod DATA_GAS_PER_BLOB = 0;
}.

Section theory.
Context `{!HeaderHash, !BitcoinHashes, !ConsensusEncoding, !Secp256k1, !PegLib, !Abi}.
Context `{!EthLib, !BlockLib, !Evm, !ChainLib}.
Context `{!EncodingLaws, !Secp256k1Laws, !EvmLaws, !ChainLaws}.
Context {BE PE : Type}.
Context (chain_spec : BotanixChainSpec) (network : Network) (ethereum_params : BaseFeeParams).
Context (open : result PE (Provider PE)) (bitcoind : result BE (BitcoindClient BE)).

Abbreviation build := (build_and_execute open bitcoind chain_spec network ethereum_params).

(** ** What a build consists of *)

Definition edh_of (checkpoint : BlockHash) (agg : PublicKey) (recipient : Address) : ExtraDataHeader :=
  mkEdh EXTRA_HEADER_VERSION CHAIN_VERSION checkpoint agg recipient.
Definition block_of (h : EthHeader) (txs : list TransactionSigned) : EthBlock :=
  {| eb_header := h; eb_body := txs; eb_ommers := []; eb_withdrawals := None; eb_requests := None |}.

Lemma edh_of_ok checkpoint agg recipient :
  array_dom 32 checkpoint → array_dom 20 recipient → edh_ok (edh_of checkpoint agg recipient).
Proof.
  intros ? ?. split; simpl; try done;
    unfold EXTRA_HEADER_VERSION, CHAIN_VERSION, u32_dom, u32_max; lia.
Qed.

(** What the template fixes, whatever the chain. *)
Record template_of (txs : list TransactionSigned) (checkpoint : BlockHash) (agg : PublicKey)
    (recipient : Address) (seconds : Z) (best : Z) (h : EthHeader) : Prop := {
  tm_number : h_number h = wrap64 (best + 1);
  tm_ommers : h_ommers_hash h = EMPTY_OMMER_ROOT_HASH;
  tm_beneficiary : h_beneficiary h = address_zero;
  tm_root : h_transactions_root h =
    if bool_decide (txs = []) then EMPTY_TRANSACTIONS else calculate_transaction_root txs;
  tm_bloom : h_logs_bloom h = bloom_zero;
  tm_difficulty : h_difficulty h = 0;
  tm_nonce : h_nonce h = 0;
  tm_gas_limit : h_gas_limit h = ETHEREUM_BLOCK_GAS_LIMIT;
  tm_timestamp : h_timestamp h = wrap64 seconds;
  tm_requests : h_requests_root h = None;
  tm_extra : h_extra_data h = edh_serialize (edh_of checkpoint agg recipient);
  tm_blobs : is_cancun_active_at_timestamp (inner chain_spec) (wrap64 seconds) = false →
    h_blob_gas_used h = None ∧ h_excess_blob_gas h = None ∧ h_parent_beacon_block_root h = None;
  tm_blob_gas : is_cancun_active_at_timestamp (inner chain_spec) (wrap64 seconds) = true →
    h_blob_gas_used h = Some 0;
}.

(** The blob gas and the beacon root of a header, from the parent's. *)
Definition blob_parent (ph : option EthHeader) : Z * Z :=
  match ph with
  | Some ph =>
      if is_cancun_active_at_timestamp (inner chain_spec) (h_timestamp ph)
      then (default 0 (h_excess_blob_gas ph), default 0 (h_blob_gas_used ph)) else (0, 0)
  | None => (0, 0)
  end.
Definition blobs_from (ph : option EthHeader) (h : EthHeader) : Prop :=
  h_blob_gas_used h = Some 0 ∧
  h_excess_blob_gas h = Some (calc_excess_blob_gas (blob_parent ph).1 (blob_parent ph).2) ∧
  h_parent_beacon_block_root h = (ph ≫= h_parent_beacon_block_root).

Lemma build_header_template_ok p txs checkpoint agg seconds recipient h :
  open = Ok p →
  build_header_template (BE := BE) open chain_spec ethereum_params txs checkpoint agg seconds recipient
    = Ok h →
  ∃ best hash parent, best_block_number p = Ok best ∧ block_hash_of p best = Ok (Some hash) ∧
    header_by_number p best = Ok parent ∧ h_parent_hash h = hash ∧
    h_base_fee_per_gas h = (ph ← parent; next_block_base_fee ph
      (base_fee_params_at_timestamp ethereum_params (inner chain_spec) (wrap64 seconds))) ∧
    (is_cancun_active_at_timestamp (inner chain_spec) (wrap64 seconds) = true →
     ∃ ph, header_by_hash p hash = Ok ph ∧ blobs_from ph h) ∧
    template_of txs checkpoint agg recipient seconds best h.
Proof.
  intros -> Hr. unfold build_header_template in Hr. cbn [provider_err map_err rbind] in Hr.
  destruct (best_block_number p) as [best| |] eqn:Hbest; try done. cbn [map_err rbind] in Hr.
  destruct (block_hash_of p best) as [[hash|]| |] eqn:Hhash; try done. cbn [map_err rbind expect] in Hr.
  destruct (header_by_number p best) as [parent| |] eqn:Hparent; try done. cbn [unwrap rbind] in Hr.
  exists best, hash, parent.
  destruct (is_cancun_active_at_timestamp _ (wrap64 seconds)) eqn:Hc.
  - destruct (header_by_hash p hash) as [ph| |]; try done. cbn [unwrap rbind] in Hr.
    fold (blob_parent ph) in Hr. destruct (blob_parent ph) as [excess used] eqn:Hph.
    injection Hr as <-. split_and!; try done.
    + intros _. exists ph. unfold blobs_from. by rewrite Hph.
    + by split; [..|rewrite Hc|].
  - injection Hr as <-. split_and!; try done. by split; [..|rewrite Hc].
Qed.

Lemma apply_floor_template txs checkpoint agg recipient seconds best floor h :
  template_of txs checkpoint agg recipient seconds best h →
  template_of txs checkpoint agg recipient seconds best (apply_floor floor h).
Proof. intros []. unfold apply_floor. destruct (h_base_fee_per_gas h), floor; split; done. Qed.

Lemma complete_header_ok h x gas checkpoint agg recipient h' :
  h_extra_data h = edh_serialize (edh_of checkpoint agg recipient) →
  array_dom 32 checkpoint → length recipient = 20%nat →
  complete_header (BE := BE) open h x gas checkpoint agg = Ok h' →
  ∃ root, h' = set_results (calculate_receipt_root (eo_receipts (xo_output x)))
    (if bool_decide (length (eo_receipts (xo_output x)) = 0%nat) then h_logs_bloom h
     else logs_bloom_of (eo_receipts (xo_output x))) gas root (h_extra_data h) h.
Proof.
  intros Hextra Hcp Hlen20 Hr. unfold complete_header in Hr.
  assert (block_fee_recipient_address h = Ok recipient) as Hrec.
  { unfold block_fee_recipient_address, deserialize_extra_data_header. rewrite Hextra.
    rewrite <-(app_nil_r (edh_serialize _)), edh_read_back; [done| | |done..];
      unfold edh_of, EXTRA_HEADER_VERSION, CHAIN_VERSION, u32_dom, u32_max; simpl; lia. }
  case_match eqn:Hp. rinv Hr. rewrite Hrec in *. cbn [map_err] in *. simplify_eq.
  exists a1. rewrite Hextra. revert Hp. case_bool_decide as Hlen; intros [= <- <-]; [|done].
  apply length_zero_iff_nil in Hlen. by rewrite Hlen, empty_receipts.
Qed.

(** A build, step by step. *)
Lemma build_and_execute_ok p txs version payload floor recipient checkpoint agg seconds ctx :
  open = Ok p → array_dom 32 checkpoint → length recipient = 20%nat →
  build txs version payload floor recipient checkpoint agg seconds = Ok ctx →
  ∃ template signers w x root,
    let h := apply_floor floor template in
    let h' := set_results (calculate_receipt_root (eo_receipts (xo_output x)))
                (logs_bloom_of (eo_receipts (xo_output x))) (eo_gas_used (xo_output x)) root
                (h_extra_data h) h in
    build_header_template (BE := BE) open chain_spec ethereum_params txs checkpoint agg seconds recipient
      = Ok template ∧
    recover_signers txs = Some signers ∧ length signers = length txs ∧
    state_provider_by_block_number p (wrap64 (h_number h - 1)) = Ok w ∧
    executor_execute bitcoind chain_spec network p (mkBlockWithSenders (block_of h txs) signers) 0 w = Ok x ∧
    sealed_block_with_peg ctx =
      mkWithPeg (seal_block (mkBlockWithSenders (block_of h' txs) signers))
                (eo_pegins (xo_output x)) (eo_pegouts (xo_output x)) ∧
    exec_outcome ctx = mkOutcome (xo_state x) [eo_receipts (xo_output x)] (h_number h) [] ∧
    runtime_version ctx = version ∧ network_upgrade_payload ctx = payload.
Proof.
  intros Hopen Hcp Hrec Hr. unfold build_and_execute in Hr.
  apply rbind_ok in Hr as (template & Ht & Hr).
  pose proof Ht as Ht'. eapply build_header_template_ok in Ht' as (best & hash & parent & _ & _ & _ & _ & _ & _ & Hof);
    [|done].
  apply (apply_floor_template _ _ _ _ _ _ floor) in Hof.
  apply rbind_ok in Hr as (signers & Hs%ok_or_ok & Hr). unfold rassert in Hr.
  case_match eqn:Hlen; [|done]. apply Nat.eqb_eq in Hlen. cbn [rbind] in Hr.
  apply rbind_ok in Hr as (x & Hx & Hr). apply rbind_ok in Hr as (h' & Hh' & Hr).
  rewrite Hs in Hr. cbn [expect rbind] in Hr. unfold execute in Hx. rewrite Hopen in Hx, Hr.
  cbn [provider_err map_err rbind] in Hx, Hr. apply rbind_ok in Hx as (w & Hw%map_err_ok & Hx).
  apply rbind_ok in Hr as ([r updates] & _ & [= <-]).
  apply (complete_header_ok _ _ _ _ _ recipient) in Hh' as [root ->];
    [|by rewrite (tm_extra _ _ _ _ _ _ _ Hof)|done..].
  exists template, signers, w, x, root. split_and!; try done. simpl. do 5 f_equal.
  case_bool_decide as Hl; [|done]. apply length_zero_iff_nil in Hl.
  rewrite Hl, (tm_bloom _ _ _ _ _ _ _ Hof). done.
Qed.

(** ** Built blocks are valid *)

(** What an executed block reports comes from its transactions. *)
Lemma executor_execute_ok (p : Provider PE) b td w x :
  executor_execute bitcoind chain_spec network p b td w = Ok x →
  ∃ pkg l s s',
    botanix_consensus_package network bitcoind (eb_header (bws_block b)) = Ok pkg ∧
    execute_transactions (view_of bitcoind p) network (eb_header (bws_block b)) td pkg
      (zip (senders b) (eb_body (bws_block b))) (mkTxLoop [] 0 0 [] []) s = (Ok l, s') ∧
    eo_receipts (xo_output x) = tl_receipts l ∧ eo_gas_used (xo_output x) = tl_gas l ∧
    eo_pegins (xo_output x) = tl_pegins l ∧ eo_pegouts (xo_output x) = tl_pegouts l.
Proof.
  unfold executor_execute. case_match eqn:Hrun. destruct r as [output| |]; try done. intros [= <-].
  unfold execute_without_verification in Hrun.
  apply sbind_ok in Hrun as (u & s1 & _ & Hrun).
  apply sbind_ok in Hrun as (edh & s2 & _ & Hrun). apply sbind_ok in Hrun as (pkg & s3 & Hpkg & Hrun).
  unfold slift in Hpkg. injection Hpkg as Hpkg _. apply map_err_ok in Hpkg.
  apply sbind_ok in Hrun as (out & s4 & Hout & Hrun). apply sbind_ok in Hrun as (u' & s5 & _ & [= -> _]).
  unfold execute_state_transitions in Hout.
  apply sbind_ok in Hout as (u1 & t1 & _ & Hout). apply sbind_ok in Hout as (u2 & t2 & _ & Hout).
  apply sbind_ok in Hout as (l & t3 & Hl & Hout). apply sbind_ok in Hout as (rq & t4 & _ & [= <- _]).
  by exists pkg, l, t2, t3.
Qed.

(** The gas of a built block is the cumulative gas of its last receipt, within the
    limit. *)
Lemma executor_execute_gas (p : Provider PE) b td w x :
  0 ≤ h_gas_limit (eb_header (bws_block b)) ≤ u64_max →
  executor_execute bitcoind chain_spec network p b td w = Ok x →
  eo_gas_used (xo_output x) ≤ h_gas_limit (eb_header (bws_block b)) ∧
  from_option rc_cumulative_gas_used 0 (last (eo_receipts (xo_output x))) = eo_gas_used (xo_output x).
Proof.
  intros Hlim (pkg & l & s & s' & _ & Hrun & -> & -> & _)%executor_execute_ok.
  apply execute_transactions_gas in Hrun as [Hg _ _ Hlast _]; [|done..]. split; [lia|].
  rewrite <-Hlast. clear. induction (tl_receipts l) as [|r rs IH] using rev_ind; [done|].
  rewrite last_snoc, fmap_app. simpl. by rewrite List.last_last.
Qed.

Lemma extra_data_header_valid h checkpoint agg recipient nums :
  h_extra_data h = edh_serialize (edh_of checkpoint agg recipient) →
  edh_ok (edh_of checkpoint agg recipient) → nums_secp256k1_pk = Ok nums → agg ≠ nums →
  validate_extra_data_header h (Some agg) = Ok tt.
Proof.
  intros Hextra Hok Hnums Hne. unfold validate_extra_data_header. case_match; [done|].
  pose proof (edh_serialize_length _ Hok) as Hlen. cbn [ok_or rbind].
  unfold validate_header_extradata, deserialize_extra_data_header, edh_size, MAX_EDH_SIZE.
  rewrite Hextra, Hlen. cbn [reject_if rbind].
  rewrite <-(app_nil_r (edh_serialize _)), edh_deserialize_serialize by done. simpl.
  rewrite Hlen, Hnums. cbn. by rewrite bool_decide_eq_false_2, bool_decide_eq_false_2 by naive_solver.
Qed.

(** What a header leaves for the blob gas of the next one: whole blobs, and a beacon
    root to copy. *)
Definition blobs_aligned (h : EthHeader) : Prop :=
  h_parent_beacon_block_root h ≠ None ∧
  default 0 (h_excess_blob_gas h) mod DATA_GAS_PER_BLOB = 0 ∧
  default 0 (h_blob_gas_used h) mod DATA_GAS_PER_BLOB = 0.

(** The parent the block is built on, and the forks at its time: Prague is not active,
    the parent's blob fields can be continued when Cancun is, and blocks without
    withdrawals are accepted because the chain is one of Botanix when Shanghai is. *)
Record builds_on (p : Provider PE) (best : Z) (hash : B256) (parent : EthHeader) (seconds : Z) : Prop := {
  bo_best : best_block_number p = Ok best;
  bo_range : 0 ≤ best < u64_max;
  bo_hash : block_hash_of p best = Ok (Some hash);
  bo_parent : header_by_number p best = Ok (Some parent);
  bo_number : h_number parent = best;
  bo_fee : h_base_fee_per_gas parent ≠ None;
  bo_cancun : is_cancun_active_at_timestamp (inner chain_spec) (wrap64 seconds) = true →
    header_by_hash p hash = Ok (Some parent) ∧ blobs_aligned parent;
  bo_prague : is_prague_active_at_timestamp (inner chain_spec) (wrap64 seconds) = false;
  bo_shanghai : is_shanghai_active_at_timestamp (inner chain_spec) (wrap64 seconds) = true →
    chain_id (inner chain_spec) = BOTANIX_TESTNET_CHAIN_ID ∨
    chain_id (inner chain_spec) = BOTANIX_MAINNET_CHAIN_ID;
}.

(** On the chains of Botanix, Shanghai and Cancun are always active and Prague never is,
    and London came with the genesis block. *)
Lemma botanix_forks ts n :
  hardforks (inner chain_spec) = forks_new botanix → 0 ≤ ts →
  is_shanghai_active_at_timestamp (inner chain_spec) ts = true ∧
  is_cancun_active_at_timestamp (inner chain_spec) ts = true ∧
  is_prague_active_at_timestamp (inner chain_spec) ts = false ∧
  (0 < n → transitions_at_block (fork London (hardforks (inner chain_spec))) n = false).
Proof.
  intros Hf Hts. unfold is_shanghai_active_at_timestamp, is_cancun_active_at_timestamp,
    is_prague_active_at_timestamp, is_fork_active_at_timestamp. rewrite Hf.
  assert (fork Shanghai (forks_new botanix) = ForkTimestamp 0) as -> by (vm_compute; reflexivity).
  assert (fork Cancun (forks_new botanix) = ForkTimestamp 0) as -> by (vm_compute; reflexivity).
  assert (fork Prague (forks_new botanix) = ForkNever) as -> by (vm_compute; reflexivity).
  assert (fork London (forks_new botanix) = ForkBlock 0) as -> by (vm_compute; reflexivity).
  simpl. split_and!; [by apply Z.leb_le..|done|]. intros Hn. apply Z.eqb_neq. lia.
Qed.

Lemma built_header p txs version payload floor recipient checkpoint agg seconds ctx best hash parent :
  open = Ok p → array_dom 32 checkpoint → array_dom 20 recipient → builds_on p best hash parent seconds →
  build txs version payload floor recipient checkpoint agg seconds = Ok ctx →
  let b := bws_block (sb_block (wp_block (sealed_block_with_peg ctx))) in
  let receipts := concat (oc_receipts (exec_outcome ctx)) in
  template_of txs checkpoint agg recipient seconds best (set_results (h_receipts_root (eb_header b))
    bloom_zero 0 (h_state_root (eb_header b)) (h_extra_data (eb_header b)) (eb_header b)) ∧
  b = block_of (eb_header b) txs ∧ h_parent_hash (eb_header b) = hash ∧
  h_base_fee_per_gas (eb_header b) ≠ None ∧
  h_gas_used (eb_header b) ≤ ETHEREUM_BLOCK_GAS_LIMIT ∧
  h_gas_used (eb_header b) = from_option rc_cumulative_gas_used 0 (last receipts) ∧
  h_receipts_root (eb_header b) = calculate_receipt_root receipts ∧
  h_logs_bloom (eb_header b) = logs_bloom_of receipts ∧
  sb_hash (wp_block (sealed_block_with_peg ctx)) = hash_slow (eb_header b) ∧
  (is_cancun_active_at_timestamp (inner chain_spec) (wrap64 seconds) = true →
   blobs_from (Some parent) (eb_header b)) ∧
  (∀ fee, next_block_base_fee parent
       (base_fee_params_at_timestamp ethereum_params (inner chain_spec) (wrap64 seconds)) = Some fee →
     from_option (λ f, f ≤ fee) True floor → h_base_fee_per_gas (eb_header b) = Some fee).
Proof.
  intros Hopen Hcp Hrec [Hbest ? Hhash Hparent ? Hpfee Hcan ? ?] Hb.
  apply (build_and_execute_ok p) in Hb as (tpl & signers & w & x & root & Ht & Hs & _ & _ & Hx & -> & -> & _); try done; [|by apply Hrec].
  eapply build_header_template_ok in Ht as (n & hs & ph & Hn & Hh & Hp & Hph & Hfee & Hblobs & Hof); [|done].
  assert (n = best) as -> by congruence. assert (hs = hash) as -> by congruence.
  assert (ph = Some parent) as -> by congruence. simpl in Hfee.
  pose proof (apply_floor_template _ _ _ _ _ _ floor _ Hof) as Hof'.
  apply executor_execute_gas in Hx as [Hg Hlast]; cycle 1.
  { simpl. rewrite (tm_gas_limit _ _ _ _ _ _ _ Hof'). unfold ETHEREUM_BLOCK_GAS_LIMIT, u64_max. lia. }
  simpl in *. rewrite (tm_gas_limit _ _ _ _ _ _ _ Hof') in Hg. rewrite app_nil_r.
  split_and!; try done.
  - destruct Hof'. by split.
  - unfold apply_floor. by destruct (h_base_fee_per_gas tpl), floor.
  - unfold apply_floor, next_block_base_fee in *. destruct (h_base_fee_per_gas parent); [|done].
    destruct floor; rewrite Hfee; simpl; by rewrite ?Hfee.
  - intros Hc. destruct (Hcan Hc) as [Hbh _]. destruct (Hblobs Hc) as (ph & Hph' & Hfrom).
    assert (ph = Some parent) as -> by congruence. unfold blobs_from, apply_floor in *.
    by destruct (h_base_fee_per_gas tpl), floor.
  - intros fee Hnext Hfl. rewrite Hnext in Hfee. unfold apply_floor. rewrite Hfee.
    destruct floor as [f|]; simpl in *; [|done]. f_equal. lia.
Qed.

(** The facts of [built_header], for one header. *)
Section checks.
Context (h : EthHeader) (txs : list TransactionSigned) (checkpoint : BlockHash) (agg : PublicKey).
Context (recipient : Address) (seconds best : Z) (hash : B256) (parent : EthHeader) (p : Provider PE).
Context (receipts : list Receipt) (rr sr : B256) (ed : bytes).
Context (Hon : builds_on p best hash parent seconds).
Context (Hof : template_of txs checkpoint agg recipient seconds best (set_results rr bloom_zero 0 sr ed h)).

Lemma pre_execution_valid :
  (is_cancun_active_at_timestamp (inner chain_spec) (wrap64 seconds) = true →
   block_blob_gas_used (block_of h txs) = 0) →
  authority_validate_block_pre_execution chain_spec (block_of h txs) = Ok tt.
Proof.
  intros Hno. destruct Hof as [_ Hom _ Hroot _ _ _ _ Hts _ _ _ Hused], Hon as [_ _ _ _ _ _ _ Hp Hs].
  simpl in *. unfold authority_validate_block_pre_execution, validate_block_pre_execution. simpl.
  rewrite Hom, empty_ommers, bool_decide_eq_false_2 by naive_solver. cbn [reject_if rbind].
  rewrite Hroot, bool_decide_eq_false_2; cycle 1.
  { case_bool_decide; subst; rewrite ?empty_transactions; naive_solver. }
  cbn [reject_if rbind]. rewrite Hts, Hp.
  assert (is_shanghai_active_at_timestamp (inner chain_spec) (wrap64 seconds) &&
    negb (chain_id (inner chain_spec) =? BOTANIX_TESTNET_CHAIN_ID) &&
    negb (chain_id (inner chain_spec) =? BOTANIX_MAINNET_CHAIN_ID) = false) as ->.
  { destruct (is_shanghai_active_at_timestamp _ _); [|done]. by destruct (Hs eq_refl) as [-> | ->]. }
  cbn [rbind]. destruct (is_cancun_active_at_timestamp _ _); [|done].
  rewrite (Hused eq_refl). cbn [ok_or rbind]. by rewrite (Hno eq_refl).
Qed.

(** The excess of the parent, in whole blobs. *)
Lemma blob_parent_aligned :
  blobs_aligned parent → (blob_parent (Some parent)).1 mod DATA_GAS_PER_BLOB = 0 ∧
    (blob_parent (Some parent)).2 mod DATA_GAS_PER_BLOB = 0.
Proof. intros (_ & He & Hu). unfold blob_parent. by case_match. Qed.
Lemma blobs_stay_aligned :
  blobs_aligned parent → blobs_from (Some parent) h → blobs_aligned h.
Proof.
  intros Hal (Hu & He & Hr). destruct (blob_parent_aligned Hal) as [H1' H2'].
  split_and!; [by rewrite Hr; apply Hal|rewrite He; by apply excess_in_blobs|by rewrite Hu].
Qed.

Lemma header_valid :
  h_base_fee_per_gas h ≠ None → h_gas_used h ≤ ETHEREUM_BLOCK_GAS_LIMIT →
  (is_cancun_active_at_timestamp (inner chain_spec) (wrap64 seconds) = true →
   blobs_from (Some parent) h) →
  validate_header chain_spec h = Ok tt.
Proof.
  intros Hfee Hgas Hfrom.
  destruct Hof as [_ _ _ _ _ _ _ Hlim Hts Hreq _ Hblobs _], Hon as [_ _ _ _ _ _ Hc Hp _].
  simpl in *. unfold validate_header, validate_header_gas.
  rewrite Hlim, (proj2 (Z.ltb_ge _ _)) by done. cbn [reject_if rbind].
  unfold validate_header_base_fee. rewrite (bool_decide_eq_false_2 _ Hfee), andb_false_r. cbn [reject_if rbind].
  rewrite Hts, Hp, Hreq. destruct (is_cancun_active_at_timestamp _ _).
  - destruct (Hc eq_refl) as [_ Hal]. pose proof (Hfrom eq_refl) as Hf.
    destruct (blobs_stay_aligned Hal Hf) as (Hroot & Hex & _). destruct Hf as (Hu & He & _).
    unfold validate_4844_header_standalone. rewrite Hu, He in *. cbn [ok_or rbind default] in *.
    rewrite (bool_decide_eq_false_2 _ Hroot). cbn [reject_if rbind].
    rewrite (proj2 (Z.ltb_ge _ _) max_data_gas). cbn [reject_if rbind].
    rewrite Zmod_0_l. cbn [Z.eqb negb reject_if rbind]. unfold id in Hex. by rewrite Hex.
  - destruct (Hblobs eq_refl) as (Hb & He & Hr). by rewrite Hb, He, Hr.
Qed.

(** Against the parent, when the clock has advanced, the gas limit is the one all
    blocks have, London is not just starting, and no floor raises the fee. *)
Lemma against_parent_valid fee :
  h_parent_hash h = hash → h_timestamp parent < wrap64 seconds →
  h_gas_limit parent = ETHEREUM_BLOCK_GAS_LIMIT →
  transitions_at_block (fork London (hardforks (inner chain_spec))) (wrap64 (best + 1)) = false →
  (is_cancun_active_at_timestamp (inner chain_spec) (wrap64 seconds) = true →
   is_cancun_active_at_timestamp (inner chain_spec) (h_timestamp parent) = true ∧
   blobs_from (Some parent) h) →
  next_block_base_fee parent
    (base_fee_params_at_timestamp ethereum_params (inner chain_spec) (wrap64 seconds)) = Some fee →
  h_base_fee_per_gas h = Some fee →
  validate_header_against_parent ethereum_params chain_spec h (seal parent hash) = Ok tt.
Proof.
  intros Hh Hts Hlim Hlon Hblobs Hnext Hfee.
  destruct Hof as [Hn _ _ _ _ _ _ Hgl Hst _ _ _ _], Hon as [_ _ _ _ Hpn _ _ _ _]. simpl in *.
  unfold validate_header_against_parent, validate_against_parent_hash_number,
    validate_against_parent_timestamp, is_timestamp_in_past. simpl.
  rewrite Hpn, Hn, Z.eqb_refl, Hh, bool_decide_eq_false_2 by naive_solver. cbn [negb reject_if rbind].
  rewrite Hst, (proj2 (Z.leb_gt _ _)) by done. cbn [reject_if rbind].
  unfold validate_against_parent_gas_limit. rewrite Hn, Hlon, Hlim, Hgl. cbn [rbind].
  replace (_ <? _) with false by done. replace (_ <=? _) with false by done.
  replace (_ <? _) with false by done. cbn [reject_if rbind].
  unfold validate_against_parent_eip1559_base_fee. rewrite Hn, Hlon, Hst, Hnext, Hfee. cbn [ok_or rbind].
  rewrite Z.eqb_refl. cbn [negb reject_if].
  assert (∀ c : bool, (if c then Ok tt else Ok tt) = @Ok ConsensusError () tt) as Hok by (by intros []).
  rewrite Hok. cbn [rbind]. destruct (is_cancun_active_at_timestamp _ (wrap64 seconds)); [|done].
  destruct (Hblobs eq_refl) as (Hpc & Hu & He & _).
  unfold validate_against_parent_4844. rewrite Hu, He. unfold blob_parent. rewrite Hpc.
  rewrite bool_decide_eq_false_2 by done. cbn. by rewrite Z.eqb_refl.
Qed.

Lemma standalone_valid nums :
  ed = h_extra_data h → edh_ok (edh_of checkpoint agg recipient) → nums_secp256k1_pk = Ok nums → agg ≠ nums →
  validate_header_standalone h (Some agg) = Ok tt.
Proof.
  intros -> Hok Hnums Hne. destruct Hof as [_ _ Hben _ _ _ _ _ _ _ Hx _ _]. simpl in *.
  unfold validate_header_standalone. cbn [ok_or rbind].
  rewrite (extra_data_header_valid _ checkpoint agg recipient nums) by done. cbn [rbind].
  unfold validate_block_beneficiary. by rewrite Hben, bool_decide_eq_false_2 by naive_solver.
Qed.

Lemma total_difficulty_valid :
  ed = h_extra_data h → edh_ok (edh_of checkpoint agg recipient) →
  validate_header_with_total_difficulty h = Ok tt.
Proof.
  intros -> Hok. destruct Hof as [_ Hom _ _ _ Hd Hn _ _ _ Hx _ _]. simpl in *.
  unfold validate_header_with_total_difficulty, is_zero_difficulty.
  rewrite Hd, Hn, Hom, bool_decide_eq_false_2 by naive_solver. cbn [Z.eqb negb reject_if rbind].
  unfold validate_header_extradata. by rewrite Hx, edh_serialize_length.
Qed.

Lemma hash_number_valid :
  h_parent_hash h = hash → validate_against_parent_hash_number h (seal parent hash) = Ok tt.
Proof.
  intros Hh. destruct Hof as [Hn _ _ _ _ _ _ _ _ _ _ _ _], Hon as [_ _ _ _ Hpn _ _ _ _]. simpl in *.
  unfold validate_against_parent_hash_number. simpl.
  rewrite Hpn, Hn, Z.eqb_refl, Hh, bool_decide_eq_false_2 by naive_solver. done.
Qed.

Lemma post_execution_valid requests :
  h_gas_used h = from_option rc_cumulative_gas_used 0 (last receipts) →
  h_receipts_root h = calculate_receipt_root receipts → h_logs_bloom h = logs_bloom_of receipts →
  validate_block_post_execution (block_of h txs) (inner chain_spec) receipts requests = Ok tt.
Proof.
  intros Hg Hr Hb. destruct Hof as [_ _ _ _ _ _ _ _ Hts _ _ _ _], Hon as [_ _ _ _ _ _ _ Hp _]. simpl in *.
  unfold validate_block_post_execution. simpl. rewrite Hg, Z.eqb_refl. cbn [negb reject_if rbind].
  rewrite Hts, Hp. case_match; [|done].
  unfold verify_receipts, compare_receipts_root_and_logs_bloom.
  rewrite Hr, Hb, !bool_decide_eq_false_2 by naive_solver. done.
Qed.
End checks.

(** Under Cancun the builder forgets the blob gas of the transactions it includes, so a
    block with blobs fails the first check of the validator that built it. *)
Lemma blobs_fail_pre_execution h txs checkpoint agg recipient seconds best rr sr ed :
  template_of txs checkpoint agg recipient seconds best (set_results rr bloom_zero 0 sr ed h) →
  is_cancun_active_at_timestamp (inner chain_spec) (wrap64 seconds) = true →
  chain_id (inner chain_spec) = BOTANIX_MAINNET_CHAIN_ID →
  template_blob_gas txs ≠ 0 →
  authority_validate_block_pre_execution chain_spec (block_of h txs) =
    Err (BlobGasUsedDiff 0 (template_blob_gas txs)).
Proof.
  intros [_ Hom _ Hroot _ _ _ _ Hts _ _ _ Hb] Hc Hid Hne. simpl in *. rewrite Hc in Hb.
  unfold authority_validate_block_pre_execution, validate_block_pre_execution. simpl.
  rewrite Hom, empty_ommers, bool_decide_eq_false_2 by naive_solver. cbn [reject_if rbind].
  rewrite Hroot, bool_decide_eq_false_2; cycle 1.
  { case_bool_decide; subst; rewrite ?empty_transactions; naive_solver. }
  cbn [reject_if rbind]. rewrite Hts, Hc, Hid, Hb by done. rewrite andb_false_r. simpl.
  unfold block_blob_gas_used. fold (template_blob_gas txs). simpl.
  by rewrite (proj2 (Z.eqb_neq _ _)).
Qed.

Lemma built_block_checks p txs version payload floor recipient checkpoint agg seconds ctx
    best hash parent nums :
  open = Ok p → array_dom 32 checkpoint → array_dom 20 recipient →
  builds_on p best hash parent seconds → nums_secp256k1_pk = Ok nums → agg ≠ nums →
  build txs version payload floor recipient checkpoint agg seconds = Ok ctx →
  let b := bws_block (sb_block (wp_block (sealed_block_with_peg ctx))) in
  let cancun ts := is_cancun_active_at_timestamp (inner chain_spec) ts = true in
  (cancun (wrap64 seconds) → block_blob_gas_used b = 0) →
  authority_validate_block_pre_execution chain_spec b = Ok tt ∧
  validate_header chain_spec (eb_header b) = Ok tt ∧
  validate_header_standalone (eb_header b) (Some agg) = Ok tt ∧
  validate_header_with_total_difficulty (eb_header b) = Ok tt ∧
  validate_against_parent_hash_number (eb_header b) (seal parent hash) = Ok tt ∧
  validate_block_post_execution b (inner chain_spec) (concat (oc_receipts (exec_outcome ctx))) []
    = Ok tt ∧
  (cancun (wrap64 seconds) → blobs_aligned (eb_header b)) ∧
  (h_timestamp parent < wrap64 seconds → h_gas_limit parent = ETHEREUM_BLOCK_GAS_LIMIT →
   transitions_at_block (fork London (hardforks (inner chain_spec))) (wrap64 (best + 1)) = false →
   (cancun (wrap64 seconds) → cancun (h_timestamp parent)) →
   (∀ f fee, floor = Some f → next_block_base_fee parent (base_fee_params_at_timestamp ethereum_params
      (inner chain_spec) (wrap64 seconds)) = Some fee → f ≤ fee) →
   validate_header_against_parent ethereum_params chain_spec (eb_header b) (seal parent hash) = Ok tt).
Proof.
  intros Hopen Hcp Hrec Hon Hnums Hne Hb b cancun Hno. subst b.
  destruct (built_header _ _ _ _ _ _ _ _ _ _ _ _ _ Hopen Hcp Hrec Hon Hb)
    as (Hof & Hblock & Hph & Hfee & Hg & Hlast & Hroot & Hbloom & _ & Hfrom & Hnofloor).
  pose proof (edh_of_ok _ agg _ Hcp Hrec) as Hok. rewrite Hblock in Hno. split_and!.
  - rewrite Hblock. by eapply pre_execution_valid.
  - by eapply header_valid.
  - by eapply standalone_valid.
  - by eapply total_difficulty_valid.
  - by eapply hash_number_valid.
  - rewrite Hblock. by eapply post_execution_valid.
  - intros Hc. eapply blobs_stay_aligned; [|by apply Hfrom]. by apply (bo_cancun _ _ _ _ _ Hon).
  - intros Hts Hlim Hlon Hpc Hfl.
    destruct (next_block_base_fee parent (base_fee_params_at_timestamp ethereum_params
      (inner chain_spec) (wrap64 seconds))) as [fee|] eqn:Hnext.
    + assert (from_option (λ f, f ≤ fee) True floor) as Hle
        by (destruct floor as [f|]; [|done]; simpl; by apply (Hfl f fee)).
      eapply (against_parent_valid _ txs); [done..| |exact Hnext|by apply Hnofloor].
      intros Hc. split; [by apply Hpc|by apply Hfrom].
    + unfold next_block_base_fee in Hnext. destruct Hon as [_ _ _ _ _ Hpf _ _ _].
      by destruct (h_base_fee_per_gas parent).
Qed.

(** C18. Blocks a validator builds are valid.  On a parent with a base fee, with an
    aggregate key other than the placeholder, before Prague, on a chain with an id of
    Botanix when Shanghai is active, and, when Cancun is active (as it is on every
    Botanix chain), on a parent that has a beacon root and blob gas in whole blobs and
    without blob transactions in the block: every block that [build_and_execute]
    returns passes the checks before execution, the header checks, the authority's
    checks under that key, the check of number and parent hash and the checks after
    execution; and its blob fields let the next block be built on it.  It also passes
    the whole check against the parent when its time is later, the parent has the same
    gas limit, London does not start with it, Cancun does not either, and the floor is
    not above the base fee that follows from the parent. *)
Theorem built_block_is_valid p txs version payload floor recipient checkpoint agg seconds ctx
    best hash parent nums :
  open = Ok p → array_dom 32 checkpoint → array_dom 20 recipient →
  builds_on p best hash parent seconds → nums_secp256k1_pk = Ok nums → agg ≠ nums →
  build txs version payload floor recipient checkpoint agg seconds = Ok ctx →
  let b := bws_block (sb_block (wp_block (sealed_block_with_peg ctx))) in
  let cancun ts := is_cancun_active_at_timestamp (inner chain_spec) ts = true in
  (cancun (wrap64 seconds) → block_blob_gas_used b = 0) →
  authority_validate_block_pre_execution chain_spec b = Ok tt ∧
  validate_header chain_spec (eb_header b) = Ok tt ∧
  validate_header_standalone (eb_header b) (Some agg) = Ok tt ∧
  validate_header_with_total_difficulty (eb_header b) = Ok tt ∧
  validate_against_parent_hash_number (eb_header b) (seal parent hash) = Ok tt ∧
  validate_block_post_execution b (inner chain_spec) (concat (oc_receipts (exec_outcome ctx))) []
    = Ok tt ∧
  (cancun (wrap64 seconds) → blobs_aligned (eb_header b)) ∧
  (h_timestamp parent < wrap64 seconds → h_gas_limit parent = ETHEREUM_BLOCK_GAS_LIMIT →
   transitions_at_block (fork London (hardforks (inner chain_spec))) (wrap64 (best + 1)) = false →
   (cancun (wrap64 seconds) → cancun (h_timestamp parent)) →
   (∀ f fee, floor = Some f → next_block_base_fee parent (base_fee_params_at_timestamp ethereum_params
      (inner chain_spec) (wrap64 seconds)) = Some fee → f ≤ fee) →
   validate_header_against_parent ethereum_params chain_spec (eb_header b) (seal parent hash) = Ok tt).
Proof. apply built_block_checks. Qed.

(** ** Replaying a built block *)

(** Execution reads none of the fields that describe its results. *)
Section same_env.
Context (view : ChainView BE PE) (rr : B256) (bl : bytes) (g : Z) (sr : B256) (h : EthHeader).
Abbreviation h' := (set_results rr bl g sr (h_extra_data h) h).

Lemma execute_transactions_same_env td pkg txs l s :
  execute_transactions view network h' td pkg txs l s = execute_transactions view network h td pkg txs l s.
Proof.
  revert l s. induction txs as [|[sender tx] txs IH]; intros l s; [done|].
  apply sbind_ext; [|done]. unfold execute_transaction. by rewrite env_transact.
Qed.

Lemma execute_same_env td txs signers s :
  execute_without_verification view chain_spec network
    (mkBlockWithSenders (block_of h' txs) signers) td s =
  execute_without_verification view chain_spec network
    (mkBlockWithSenders (block_of h txs) signers) td s.
Proof.
  apply sbind_ext; [done|]. intros _ s1. apply sbind_ext; [done|]. intros edh s2.
  apply sbind_ext; [done|]. intros pkg s3. apply sbind_ext; [|done].
  unfold execute_state_transitions. simpl. rewrite env_beacon_root, env_blockhashes.
  apply sbind_ext; [done|]. intros _ s4. apply sbind_ext; [done|]. intros _ s5.
  apply sbind_ext; [apply execute_transactions_same_env|done].
Qed.
End same_env.

(** Executing a built block again, from the parent's state, gives what building it gave:
    its pegs are those of its own execution. *)
Lemma built_block_executes p txs version payload floor recipient checkpoint agg seconds ctx :
  open = Ok p → array_dom 32 checkpoint → length recipient = 20%nat →
  build txs version payload floor recipient checkpoint agg seconds = Ok ctx →
  let block := wp_block (sealed_block_with_peg ctx) in
  ∃ w x, state_provider_by_block_number p (wrap64 (h_number (sb_header block) - 1)) = Ok w ∧
    executor_execute bitcoind chain_spec network p (sb_block block) 0 w = Ok x ∧
    wp_pegins (sealed_block_with_peg ctx) = eo_pegins (xo_output x) ∧
    wp_pegouts (sealed_block_with_peg ctx) = eo_pegouts (xo_output x) ∧
    oc_receipts (exec_outcome ctx) = [eo_receipts (xo_output x)].
Proof.
  intros Hopen Hcp Hrec Hb.
  apply (build_and_execute_ok p) in Hb as (tpl & signers & w & x & root & _ & _ & _ & Hw & Hx & -> & -> & _);
    try done. exists w, x. split_and!; [exact Hw| |done..]. rewrite <-Hx.
  unfold executor_execute. simpl. by rewrite execute_same_env.
Qed.

(** C19. Built blocks replay.  For a block built on a parent with a base fee, before Prague,
    on a chain with an id of Botanix when Shanghai is active, and on a parent with a beacon
    root and blob gas in whole blobs when Cancun is: on any node that has the same state at
    the parent and the same blocks, executing a batch that consists of a built block verifies it against
    its own header and yields the same state changes and receipts as building it. *)
Theorem built_block_replays p txs version payload floor recipient checkpoint agg seconds ctx
    best hash parent open2 p2 :
  open = Ok p → array_dom 32 checkpoint → array_dom 20 recipient → builds_on p best hash parent seconds →
  build txs version payload floor recipient checkpoint agg seconds = Ok ctx →
  open2 = Ok p2 → header_by_hash p2 = header_by_hash p →
  state_provider_by_block_number p2 best = state_provider_by_block_number p best →
  ∃ outcome,
    batch_execute (BE := BE) open2 bitcoind chain_spec network
      [sb_block (wp_block (sealed_block_with_peg ctx))] = Ok outcome ∧
    oc_bundle outcome = oc_bundle (exec_outcome ctx) ∧
    oc_receipts outcome = oc_receipts (exec_outcome ctx) ∧
    oc_first_block outcome = oc_first_block (exec_outcome ctx).
Proof.
  intros Hopen Hcp Hrec Hon Hb Hopen2 Hheaders Hstate.
  destruct (built_header _ _ _ _ _ _ _ _ _ _ _ _ _ Hopen Hcp Hrec Hon Hb)
    as (Hof & _ & _ & _ & _ & Hlast & Hroot & Hbloom & _).
  apply (build_and_execute_ok p) in Hb as (tpl & signers & w & x & root & _ & _ & _ & Hw & Hx & Hctx & Hout & _);
    try done; [|by apply Hrec]. rewrite Hctx, Hout in *. simpl in *. rewrite app_nil_r in *. clear Hctx Hout.
  assert (h_number (apply_floor floor tpl) = wrap64 (best + 1)) as Hnum by apply Hof.
  assert (h_number (apply_floor floor tpl) - 1 = best) as Hbest.
  { destruct Hon as [_ ? _ _ _ _ _ _ _]. rewrite Hnum, wrap64_small; lia. }
  unfold batch_execute. rewrite Hopen2. simpl. rewrite Hbest in *.
  rewrite wrap64_small in * by (destruct Hon; lia).
  rewrite Hstate, Hw. simpl. unfold execute_and_verify_one, sbind, smodify, zoom. simpl.
  rewrite execute_same_env. unfold view_of. rewrite Hheaders. fold (view_of bitcoind p).
  unfold executor_execute in Hx.
  destruct (execute_without_verification _ _ _ _ 0 (open_state w)) as [[output| |] s] eqn:Hrun; try done.
  injection Hx as <-. simpl in *.
  erewrite post_execution_valid by done. simpl. by eexists.
Qed.
End theory.

(** ** A worked example *)

Module BuilderSample.
Import SampleCodec PegSample ExecutionSample.
#[local] Existing Instances sample_encoding sample_encoding_laws sample_secp sample_secp_laws
  sample_header_hash sample_hashes sample_peg sample_abi sample_eth sample_blocks sample_evm
  sample_evm_laws.

#[local] Instance sample_chain : ChainLib := {|
  EMPTY_RECEIPTS := []; EMPTY_TRANSACTIONS := [];
  receipt_bloom _ := []; bloom_union a _ := a; calculate_receipt_root _ := [];
  recover_signers txs := Some (replicate (length txs) alice);
  WorldState := EvmState; open_state w := w; BundleState := EvmState; take_bundle s := s;
  TrieUpdates := (); TrieError := ();
  state_root _ _ := Ok [7]; overlay_root_with_updates _ _ := Ok ([7], tt);
|}.
#[local] Instance sample_chain_laws : ChainLaws.
Proof.
  split; try reflexivity; [discriminate|]. intros e u He Hu. cbn [calc_excess_blob_gas sample_eth].
  destruct (Z.max_spec (e + u - 393216) 0) as [[_ ->]|[_ ->]]; [reflexivity|].
  change (@DATA_GAS_PER_BLOB _) with 131072 in *. rewrite Zminus_mod, Zplus_mod, He, Hu. reflexivity.
Qed.

(** The main chain. *)
Definition spec : BotanixChainSpec := BOTANIX_MAINNET tt.
Definition provider : Provider () := {|
  best_block_number := Ok 7; block_hash_of _ := Ok (Some [7]);
  header_by_number _ := Ok (Some block_header); header_by_hash _ := Ok (Some block_header);
  state_provider_by_block_number _ := Ok start; latest_state := start |}.
(** A node that answers with the block at height 100. *)
Definition bitcoind : result () (BitcoindClient ()) := Ok {|
  bc_get_block_header _ := Ok (header 100); bc_get_block_height _ := Ok 100 |}.
Definition agg : PublicKey := key.
Definition checkpoint : BlockHash := replicate 32 8.
Definition recipient : Address := replicate 20 9.

Definition run (txs : list TransactionSigned) :=
  build_and_execute (BE := ()) (Ok provider) bitcoind spec NetRegtest tt txs (RV 0 2) None (Some 5)
    recipient checkpoint agg 1000.

Lemma result_ok_inv {E A} (r : result E A) : is_ok r = true → ∃ a, r = Ok a.
Proof. destruct r; naive_solver. Qed.

Lemma array_replicate n b : is_byte b → array_dom n (replicate n b).
Proof. intros. split; [apply length_replicate|by apply Forall_replicate]. Qed.
Lemma checkpoint_ok : array_dom 32 checkpoint.
Proof. apply array_replicate. unfold is_byte. lia. Qed.
Lemma recipient_ok : array_dom 20 recipient.
Proof. apply array_replicate. unfold is_byte. lia. Qed.
Lemma provider_builds_on : builds_on spec provider 7 [7] block_header 1000.
Proof.
  split; try reflexivity; try discriminate.
  - unfold u64_max. lia.
  - intros _. split; [reflexivity|]. by split_and!.
  - intros _. by right.
Qed.
Definition nums : PublicKey := exist (λ bs, Is_true (sample_key_ok bs)) NUMS_POINT I.
Lemma nums_ok : nums_secp256k1_pk = Ok nums.
Proof. vm_compute. reflexivity. Qed.
Lemma agg_not_nums : agg ≠ nums.
Proof. discriminate. Qed.

Lemma built_block_is_valid_witness :
  ∃ ctx, run [bad_tx; mint_tx] = Ok ctx ∧
    is_cancun_active_at_timestamp (inner spec) (wrap64 1000) = true ∧
    validate_header spec (sb_header (wp_block (sealed_block_with_peg ctx))) = Ok tt ∧
    validate_header_standalone (sb_header (wp_block (sealed_block_with_peg ctx))) (Some agg) = Ok tt.
Proof.
  destruct (result_ok_inv (run [bad_tx; mint_tx])) as [ctx Hctx]; [vm_compute; reflexivity|].
  exists ctx. split; [exact Hctx|]. split; [reflexivity|].
  destruct (built_block_is_valid (BE := ()) (PE := ()) spec NetRegtest tt (Ok provider) bitcoind provider
    [bad_tx; mint_tx] (RV 0 2) None (Some 5) recipient checkpoint agg 1000 ctx 7 [7] block_header nums
    eq_refl checkpoint_ok recipient_ok provider_builds_on nums_ok agg_not_nums Hctx)
    as (_ & Hh & Hs & _); [|split; [exact Hh|exact Hs]].
  intros _. assert (match run [bad_tx; mint_tx] with
    | Ok c => block_blob_gas_used (bws_block (sb_block (wp_block (sealed_block_with_peg c))))
    | _ => 1 end = 0) as Hb by (vm_compute; reflexivity).
  rewrite Hctx in Hb. exact Hb.
Defined.

Lemma built_block_replays_witness :
  ∃ ctx outcome, run [bad_tx; mint_tx] = Ok ctx ∧
    batch_execute (BE := ()) (Ok provider) bitcoind spec NetRegtest
      [sb_block (wp_block (sealed_block_with_peg ctx))] = Ok outcome ∧
    oc_receipts outcome = oc_receipts (exec_outcome ctx).
Proof.
  destruct (result_ok_inv (run [bad_tx; mint_tx])) as [ctx Hctx]; [vm_compute; reflexivity|].
  pose proof Hctx as Hrun.
  eapply built_block_replays in Hctx as (outcome & Ho & _ & Hr & _);
    [|exact _..|reflexivity| | | | | |].
  - exists ctx, outcome. split_and!; [exact Hrun|exact Ho|exact Hr].
  - exact checkpoint_ok.
  - exact recipient_ok.
  - exact provider_builds_on.
  - reflexivity.
  - reflexivity.
  - reflexivity.
Defined.
End BuilderSample.
