(* ===== verification/Abci.v ===== *)
(** * The ABCI application

    [consensus/authority/src/comet_bft/abci.rs]: CometBFT asks the application to prepare,
    process, finalize and commit blocks; the driver writes a committed block to the two
    databases of the node.  [botanix-storage]: staged headers and runtime transitions.

    The cache of built blocks ([schnellru]), transaction bytes, the payload builder and
    the Ethereum database are classes.  A panic is [Panic]: it takes the node down. *)

From S2P Require Import Prelude Activation Bitcoin Checkpoints Codec Headers Peg Mint ChainRules HeaderRules.
From S2P Require Import Execution BlockBuilder.
Import Version Manager.

(** ** What the application is built on *)

(** [LruMap] with [ByLength]: looking up a key renews it. *)
Class LruMap (K V : Type) := {
  Lru : Type;
  lru_new : nat → Lru;
  lru_get : K → Lru → option V * Lru;
  lru_insert : K → V → Lru → Lru;
  lru_remove : K → Lru → option V * Lru;
}.

Class AbciLib `{!Secp256k1, !PegLib} := {
  (** [TransactionSigned::decode_enveloped] *)
  decode_enveloped : bytes → option TransactionSigned;
  (** [bitcoin::consensus::serialize] of a script, and the script of an address *)
  serialize_script : Script → bytes;
  address_script : BtcAddress → Script;
}.

(** The Ethereum database: a handle on it, and appending blocks in one transaction. *)
Class ChainStore `{ChainLib} (PE : Type) := {
  Db : Type;
  db_provider : Db → result PE (Provider PE);
  append_blocks_with_state : list SealedBlock → ExecutionOutcome → TrieUpdates → Db → result PE Db;
}.

(** ** Staged headers and runtime transitions *)

Record StagedPegin := mkStagedPegin {
  sp_txid : bytes; sp_vout : Z; sp_value : Z; sp_script_pubkey : bytes; sp_eth_address : bytes;
}.
Record StagedPegout := mkStagedPegout {
  so_pegout_id : bytes; so_script_pubkey : bytes; so_amount : Z; so_height : Z;
}.
Record HeaderWithPegs := mkHeaderWithPegs {
  hp_pegins : list StagedPegin;
  hp_pegouts : list StagedPegout;
  hp_header : EthHeader;
}.

(** The tables of the Botanix database that committing a block writes. *)
Record BotanixDb := mkBotanixDb {
  staged_headers : gmap B256 HeaderWithPegs;
  runtime_transitions : gmap Z RuntimeVersion;
}.

Definition insert_staged_header (id : B256) (h : HeaderWithPegs) (db : BotanixDb) : BotanixDb :=
  mkBotanixDb (<[id := h]> (staged_headers db)) (runtime_transitions db).
Definition remove_staged_header (id : B256) (db : BotanixDb) : bool * BotanixDb :=
  (bool_decide (staged_headers db !! id ≠ None),
   mkBotanixDb (delete id (staged_headers db)) (runtime_transitions db)).
Definition get_staged_headers (db : BotanixDb) : list (B256 * HeaderWithPegs) :=
  sort_by (λ a b, bytes_leb a.1 b.1) (map_to_list (staged_headers db)).

(** The key of the highest version seen. *)
Definition LATEST_RUNTIME_KEY : Z := u64_max.
Definition insert_runtime_upgrade_version (height : Z) (v : RuntimeVersion) (db : BotanixDb) :
    bool * BotanixDb :=
  let record := (true, mkBotanixDb (staged_headers db)
                   (<[height := v]> (<[LATEST_RUNTIME_KEY := v]> (runtime_transitions db)))) in
  match runtime_transitions db !! LATEST_RUNTIME_KEY with
  | Some latest => if version_le v latest then (false, db) else record
  | None => record
  end.
Definition get_runtime_versions (db : BotanixDb) : list (Z * RuntimeVersion) :=
  sort_by_key fst (filter (λ p, p.1 ≠ LATEST_RUNTIME_KEY) (map_to_list (runtime_transitions db))).
Definition get_last_runtime_version (db : BotanixDb) : option RuntimeVersion :=
  runtime_transitions db !! LATEST_RUNTIME_KEY.

Section staging.
Context `{!Secp256k1, !PegLib, !AbciLib}.

(** [txout] panics on an output that does not exist. *)
Fixpoint get_staged_pegins_from_pegin_meta (metas : list PeginMeta) : result () (list StagedPegin) :=
  match metas with
  | [] => Ok []
  | m :: rest =>
      let? out := meta_txout m in
      let? staged := get_staged_pegins_from_pegin_meta rest in
      Ok (mkStagedPegin (op_txid (meta_outpoint m)) (vout (meta_outpoint m)) (value out)
            (serialize_script (script_pubkey out)) (pm_address (meta_v0 m)) :: staged)
  end.
Definition get_staged_pegouts_from_pegout_data (pegouts : list PegoutWithId) (height : Z) :
    list StagedPegout :=
  (λ p, mkStagedPegout (as_bytes (pw_id p)) (address_script (pg_destination (pw_data p)))
          (pg_amount (pw_data p)) height) <$> pegouts.

(** The first transaction that does not decode ends the loop. *)
Fixpoint transactions_signed_from_bytes (l : list bytes) : option (list TransactionSigned) :=
  match l with
  | [] => Some []
  | bs :: rest => tx ← decode_enveloped bs; txs ← transactions_signed_from_bytes rest; Some (tx :: txs)
  end.
End staging.

(** ** The application *)

Definition RUNTIME_VERSION_V1 : RuntimeVersion := RUNTIME_VERSION_GENESIS.
Definition RUNTIME_VERSION_V2 : RuntimeVersion := RV 0 2.
Definition RUNTIME_VERSION_V3 : RuntimeVersion := RV 0 3.
Definition FLOOR_BASE_FEE_PER_GAS_V2 : Z := 5000000.
Definition FLOOR_BASE_FEE_PER_GAS_V3 : Z := 500000.

(** The floor of a version; [None] where the code has no arm for it. *)
Definition floor_of (v : RuntimeVersion) : option (option Z) :=
  if bool_decide (v = RUNTIME_VERSION_V1) then Some None
  else if bool_decide (v = RUNTIME_VERSION_V2) then Some (Some FLOOR_BASE_FEE_PER_GAS_V2)
  else if bool_decide (v = RUNTIME_VERSION_V3) then Some (Some FLOOR_BASE_FEE_PER_GAS_V3)
  else None.

Inductive VerifyStatus := VerifyAccepted | VerifyReject.

Record RequestPrepareProposal := {
  rp_max_tx_bytes : Z;
  rp_txs : list bytes;
  rp_height : Z;
  rp_time : option Z;
}.
Record RequestProcessProposal := {
  rq_txs : list bytes;
  rq_hash : bytes;
  rq_height : Z;
  rq_time : option Z;
}.
Record RequestFinalizeBlock := {
  rf_txs : list bytes;
  rf_hash : bytes;
  rf_height : Z;
  rf_time : option Z;
  rf_proposer_address : bytes;
}.
(** One result per transaction, all successful; the first carries the first
    transaction. *)
Record ResponseFinalizeBlock := mkFinalized {
  fz_tx_results : list bytes;
  fz_app_hash : B256;
}.

(** The outcome of [default_ethereum_payload_builder]: encoded transactions. *)
Inductive PayloadOutcome := Better (raw_transactions : list bytes) | Aborted | Cancelled | BuilderFailed.

Section abci.
Context `{!HeaderHash, !BitcoinHashes, !ConsensusEncoding, !Secp256k1, !PegLib, !Abi, !AbciLib}.
Context `{!EthLib, !BlockLib, !Evm, !ChainLib}.
Context {BE PE : Type} `{!ChainStore PE}.
Context {VDB VE : Type} `{RW : !ActivationManagerReaderWriter Address VDB VE}.
Context `{!LruMap B256 BlockWithContext}.

Record AbciConfig := mkConfig {
  cf_chain_spec : BotanixChainSpec;
  cf_btc_network : Network;
  (** [BaseFeeParams::ethereum()] *)
  cf_ethereum_params : BaseFeeParams;
  cf_bitcoind : result BE (BitcoindClient BE);
  cf_is_fed_node : bool;
  cf_block_fee_recipient_address : option Address;
  (** warnings are logged *)
  cf_warn : bool;
}.
Definition is_testnet (cf : AbciConfig) : bool :=
  chain_id (inner (cf_chain_spec cf)) =? BOTANIX_TESTNET_CHAIN_ID.

(** [CanonStateNotification::Commit] with the pegs of a block. *)
Record CommitNotification := mkNotification {
  nt_block : SealedBlock;
  nt_pegins : option (list PeginMeta);
  nt_pegouts : option (list PegoutWithId);
}.

(** [ABCIClient] and what it shares with the driver: the databases, the canonical
    head in memory, the aggregate key, the activation manager, the checkpoints and the
    block cache. *)
Record Abci := mkAbci {
  ab_db : Db;
  ab_botanix : BotanixDb;
  ab_head : option SealedHeader;
  ab_notifications : list CommitNotification;
  ab_aggregate_public_key : option PublicKey;
  ab_manager : ActivationManager VDB;
  ab_checkpoints : BitcoinCheckpointsChain;
  ab_cache : Lru;
  ab_tracked_final : option B256;
}.
Definition set_manager (m : ActivationManager VDB) (a : Abci) : Abci :=
  mkAbci (ab_db a) (ab_botanix a) (ab_head a) (ab_notifications a) (ab_aggregate_public_key a) m
    (ab_checkpoints a) (ab_cache a) (ab_tracked_final a).
Definition set_cache (c : Lru) (a : Abci) : Abci :=
  mkAbci (ab_db a) (ab_botanix a) (ab_head a) (ab_notifications a) (ab_aggregate_public_key a)
    (ab_manager a) (ab_checkpoints a) c (ab_tracked_final a).
Definition set_tracked_final (t : option B256) (a : Abci) : Abci :=
  mkAbci (ab_db a) (ab_botanix a) (ab_head a) (ab_notifications a) (ab_aggregate_public_key a)
    (ab_manager a) (ab_checkpoints a) (ab_cache a) t.
Definition set_aggregate_public_key (k : option PublicKey) (a : Abci) : Abci :=
  mkAbci (ab_db a) (ab_botanix a) (ab_head a) (ab_notifications a) k
    (ab_manager a) (ab_checkpoints a) (ab_cache a) (ab_tracked_final a).
Definition set_botanix (db : BotanixDb) (a : Abci) : Abci :=
  mkAbci (ab_db a) db (ab_head a) (ab_notifications a) (ab_aggregate_public_key a)
    (ab_manager a) (ab_checkpoints a) (ab_cache a) (ab_tracked_final a).
Definition set_db (db : Db) (a : Abci) : Abci :=
  mkAbci db (ab_botanix a) (ab_head a) (ab_notifications a) (ab_aggregate_public_key a)
    (ab_manager a) (ab_checkpoints a) (ab_cache a) (ab_tracked_final a).
Definition publish (h : SealedHeader) (n : CommitNotification) (a : Abci) : Abci :=
  mkAbci (ab_db a) (ab_botanix a) (Some h) (ab_notifications a ++ [n]) (ab_aggregate_public_key a)
    (ab_manager a) (ab_checkpoints a) (ab_cache a) (ab_tracked_final a).

Context (cf : AbciConfig).

Inductive AbciError :=
  | MissingAggregatedPublicKeyError | MissingBlockFeeRecipientAddress | MissingBitcoinCheckpoint
  | LatestHeaderMissing.

Definition aggregate_public_key (a : Abci) : result AbciError PublicKey :=
  ok_or (ab_aggregate_public_key a) MissingAggregatedPublicKeyError.
Definition bitcoin_blockhash (a : Abci) : result AbciError BlockHash :=
  let? cp := ok_or (strong (ab_checkpoints a)) MissingBitcoinCheckpoint in Ok (cp_hash cp).
(** The hash of the canonical head. *)
Definition application_hash (a : Abci) : result AbciError B256 :=
  let? h := ok_or (ab_head a) LatestHeaderMissing in Ok (sh_hash h).

Definition non_deterministic_data (v : RuntimeVersion) (payload : option NetworkUpgradePayload)
    (a : Abci) : result AbciError NonDeterministicData :=
  let? agg := aggregate_public_key a in
  let? recipient := ok_or (cf_block_fee_recipient_address cf) MissingBlockFeeRecipientAddress in
  let? hash := bitcoin_blockhash a in
  Ok (new_v2 hash agg recipient v payload).

(** [FixedBytes::<n>::from_slice] panics on another length. *)
Definition fixed_bytes (n : nat) (bs : bytes) : result () bytes :=
  if (length bs =? n)%nat then Ok bs else Panic.

Definition block_of_context (c : BlockWithContext) : EthBlock :=
  bws_block (sb_block (wp_block (sealed_block_with_peg c))).

Definition validate_block (b : EthBlock) (a : Abci) : VerifyStatus :=
  let checks : result () () :=
    let? _ := map_err (λ _, tt) (authority_validate_block_pre_execution (cf_chain_spec cf) b) in
    let? _ := map_err (λ _, tt) (validate_header (cf_chain_spec cf) (eb_header b)) in
    let? agg := map_err (λ _, tt) (aggregate_public_key a) in
    map_err (λ _, tt) (validate_header_standalone (eb_header b) (Some agg)) in
  match checks with Ok _ => VerifyAccepted | _ => VerifyReject end.

Definition build (a : Abci) := build_and_execute (db_provider (ab_db a)) (cf_bitcoind cf)
  (cf_chain_spec cf) (cf_btc_network cf) (cf_ethereum_params cf).

(** ** Initialisation and queries *)

(** Panics on another chain id or without a head. *)
Definition init_chain (chain : option Z) (a : Abci) : result () B256 :=
  let? id := expect chain in
  let? _ := rassert (chain_id (inner (cf_chain_spec cf)) =? id) in
  unwrap (application_hash a).
(** The last height and hash, or an empty answer. *)
Definition info (a : Abci) : option (Z * B256) :=
  h ← ab_head a; Some (h_number (sh_header h), sh_hash h).

(** ** Proposals *)

(** The pool's size and the payload builder, which gets the floor of the base fee and the
    room left for transactions. *)
Definition prepare_proposal (pool_size : Z) (payload_builder : option Z → Z → PayloadOutcome)
    (req : RequestPrepareProposal) (a : Abci) : result () (list bytes) :=
  let? _ := rassert (bool_decide (rp_txs req = [])) in
  let? _ := expect (rp_time req) in
  let? _ := rassert (0 <=? rp_max_tx_bytes req) in
  let? decision := unwrap (on_prepare_proposal (E := VE) (wrap64 (rp_height req)) (ab_manager a)) in
  let? ndd := unwrap (non_deterministic_data (pp_version decision) (pp_vote decision) a) in
  let? floor := expect (floor_of (pp_version decision)) in
  let? ndd_bytes := ndd_serialize ndd in
  let ndd_len := Z.of_nat (length ndd_bytes) in
  let? _ := rassert (ndd_len <=? rp_max_tx_bytes req) in
  if pool_size =? 0 then Ok [ndd_bytes]
  else match payload_builder floor (rp_max_tx_bytes req - ndd_len) with
       | Better txs => Ok (ndd_bytes :: txs)
       | _ => Panic
       end.

(** A rejection that logs a warning reads the application hash for it. *)
Definition reject_logged : SM Abci () VerifyStatus := λ a,
  if cf_warn cf then (let? _ := unwrap (application_hash a) in Ok VerifyReject, a)
  else (Ok VerifyReject, a).
Definition reject : SM Abci () VerifyStatus := sret VerifyReject.

(** The block of a proposal: built, checked and kept under the proposal's hash. *)
Definition process_block (ndd : NonDeterministicData) (agg : PublicKey) (recipient : Address)
    (txs : list TransactionSigned) (floor : option Z) (seconds : Z) (hash : B256) :
    SM Abci () VerifyStatus := λ a,
  match build a txs (ndd_runtime_version ndd) (ndd_network_upgrade_payload ndd) floor recipient
          (ndd_bitcoin_block_hash ndd) agg seconds with
  | Ok context =>
      match validate_block (block_of_context context) a with
      | VerifyAccepted => (Ok VerifyAccepted, set_cache (lru_insert hash context (ab_cache a)) a)
      | VerifyReject => reject_logged a
      end
  | Err _ => reject_logged a
  | Panic => (Panic, a)
  end.

(** The version must be one the activation manager accepts at this height. *)
Definition process_version (a : Abci) (ndd : NonDeterministicData) (agg : PublicKey) (recipient : Address)
    (txs : list TransactionSigned) (height seconds : Z) (hash : B256) : SM Abci () VerifyStatus :=
  let* decision := slift (unwrap (on_process_proposal (E := VE)
    (wrap64 height) (ndd_runtime_version ndd) (ab_manager a))) in
  match decision with
  | Process v _ =>
      let* floor := slift (expect (floor_of v)) in
      process_block ndd agg recipient txs floor seconds hash
  | RejectBlock _ _ => reject
  end.

(** The first transaction must name a fee recipient, a checkpoint of the local window
    and the local aggregate key. *)
Definition process_ndd (a : Abci) (ndd : NonDeterministicData) (rest : list bytes) (agg : PublicKey)
    (height seconds : Z) (hash : B256) : SM Abci () VerifyStatus :=
  match ndd_block_fee_recipient_address ndd with
  | None => reject_logged
  | Some recipient =>
      if negb (contains_by_hash (ndd_bitcoin_block_hash ndd) (ab_checkpoints a)) then reject_logged
      else if bool_decide (agg ≠ ndd_aggregated_public_key ndd) then reject_logged
      else match transactions_signed_from_bytes rest with
           | None => reject_logged
           | Some txs => process_version a ndd agg recipient txs height seconds hash
           end
  end.

Definition process_proposal (req : RequestProcessProposal) : SM Abci () VerifyStatus :=
  let* a := sget in
  match aggregate_public_key a with
  | Ok agg =>
      match rq_time req with
      | None => reject
      | Some seconds =>
          let* hash := slift (fixed_bytes 32 (rq_hash req)) in
          match rq_txs req with
          | [] => reject_logged
          | ndd_bytes :: rest =>
              match (ndd_deserialize ndd_bytes).1 with
              | Ok ndd => process_ndd a ndd rest agg (rq_height req) seconds hash
              | Err _ => reject_logged
              | Panic => slift Panic
              end
          end
      end
  | _ => reject_logged
  end.

(** ** Finalization *)

(** The block of a request that is not in the cache: built again, for history. *)
Definition finalize_build (req : RequestFinalizeBlock) (hash : B256) :
    SM Abci () BlockWithContext :=
  let* a := sget in
  let* first := slift (expect (head (rf_txs req))) in
  let* ndd := slift (unwrap (ndd_deserialize first).1) in
  let* recipient :=
    (match ndd_block_fee_recipient_address ndd with
     | Some address => sret address
     | None => if is_testnet cf then slift (fixed_bytes 20 (rf_proposer_address req)) else slift Panic
     end) in
  let* seconds := slift (expect (rf_time req)) in
  let* txs := slift (expect (transactions_signed_from_bytes (tail (rf_txs req)))) in
  let v := ndd_runtime_version ndd in
  let floor := default (Some FLOOR_BASE_FEE_PER_GAS_V3) (floor_of v) in
  let* context := slift (unwrap (build a txs v (ndd_network_upgrade_payload ndd) floor recipient
                    (ndd_bitcoin_block_hash ndd) (ndd_aggregated_public_key ndd) seconds)) in
  smodify (λ a, set_cache (lru_insert hash context (ab_cache a)) a) ;;*
  sret context.

Definition finalize_context (req : RequestFinalizeBlock) (hash : B256) : SM Abci () BlockWithContext :=
  let* a := sget in
  let '(found, cache) := lru_get hash (ab_cache a) in
  smodify (set_cache cache) ;;*
  match found with
  | Some context => sret context
  | None => finalize_build req hash
  end.

(** The activation manager decides last, and may refuse the block for good. *)
Definition finalize_decide (req : RequestFinalizeBlock) (c : BlockWithContext) : SM Abci () () :=
  let* proposer := slift (fixed_bytes 20 (rf_proposer_address req)) in
  let* decision := zoom ab_manager set_manager (sexpect (on_finalize_block (E := VE)
    (runtime_version c) (wrap64 (rf_height req)) proposer (network_upgrade_payload c))) in
  match decision with
  | Finalize _ => sret tt
  | RejectBlockDeadEnd _ => slift Panic
  end ;;*
  let* a := sget in
  slift (let? _ := unwrap (get_upgrade_polling (E := VE) (ab_manager a)) in Ok tt).

(** A node outside the federation learns the aggregate key from block 1. *)
Definition learn_aggregate_key (b : EthBlock) : SM Abci () () :=
  if negb (cf_is_fed_node cf) && (h_number (eb_header b) =? 1) then
    let* edh := slift (unwrap (deserialize_extra_data_header (eb_header b))) in
    smodify (set_aggregate_public_key (Some (edh_aggregated_public_key edh)))
  else sret tt.

Definition finalize_block (req : RequestFinalizeBlock) : SM Abci () ResponseFinalizeBlock :=
  slift (rassert (negb (bool_decide (rf_txs req = [])))) ;;*
  let* hash := slift (fixed_bytes 32 (rf_hash req)) in
  let* context := finalize_context req hash in
  finalize_decide req context ;;*
  smodify (set_tracked_final (Some hash)) ;;*
  learn_aggregate_key (block_of_context context) ;;*
  let* a := sget in
  match validate_block (block_of_context context) a with
  | VerifyReject => slift Panic
  | VerifyAccepted => sret tt
  end ;;*
  let* first := slift (expect (head (rf_txs req))) in
  sret (mkFinalized (first :: ((λ _, []) <$> eb_body (block_of_context context)))
                    (sb_hash (wp_block (sealed_block_with_peg context)))).

(** ** Commit *)

Definition pegin_metas (c : BlockWithContext) : list PeginMeta :=
  pegins ← wp_pegins (sealed_block_with_peg c); pd_meta pegins.

(** The Botanix database is written first, in one transaction. *)
Definition driver_commit_botanix (c : BlockWithContext) (db : BotanixDb) : result () BotanixDb :=
  let block := wp_block (sealed_block_with_peg c) in
  let? pegins := get_staged_pegins_from_pegin_meta (pegin_metas c) in
  let pegouts := get_staged_pegouts_from_pegout_data (wp_pegouts (sealed_block_with_peg c))
                   (h_number (sb_header block)) in
  let staged := mkHeaderWithPegs pegins pegouts (sb_header block) in
  let db := insert_staged_header (sb_hash block) staged db in
  Ok (insert_runtime_upgrade_version (h_number (sb_header block)) (runtime_version c) db).2.

(** Then the Ethereum database, and then the head in memory and the subscribers. *)
Definition driver_commit_block (c : BlockWithContext) : SM Abci () () :=
  let block := wp_block (sealed_block_with_peg c) in
  let* a := sget in
  let* botanix := slift (unwrap (driver_commit_botanix c (ab_botanix a))) in
  smodify (set_botanix botanix) ;;*
  let* db := slift (unwrap (append_blocks_with_state [block] (exec_outcome c) (trie_updates c) (ab_db a))) in
  smodify (set_db db) ;;*
  smodify (publish (seal (sb_header block) (sb_hash block))
             (mkNotification block (Some (pegin_metas c))
                (Some (wp_pegouts (sealed_block_with_peg c))))).

Definition commit : SM Abci () () :=
  let* a := sget in
  let* hash := slift (expect (ab_tracked_final a)) in
  smodify (set_tracked_final None) ;;*
  let '(found, cache) := lru_remove hash (ab_cache a) in
  smodify (set_cache cache) ;;*
  let* context := slift (expect found) in
  driver_commit_block context.
End abci.
