(* ===== verification/AbciTheory.v ===== *)
(** * Theorems about the ABCI application

    An honest proposal is accepted; nodes on the same chain agree on the hash of every
    block they finalize, whichever proposals they saw; committing records the pegs of
    the block, survives a crash between its two writes, and every pegin it records is
    backed; recorded runtime versions only increase. *)

From S2P Require Import Prelude Activation ActivationTheory Bitcoin Checkpoints Codec Headers HeadersTheory.
From S2P Require Import Peg Mint PegTheory MintTheory ChainRules HeaderRules Execution ExecutionTheory.
From S2P Require Import BlockBuilder BuilderTheory Abci.
Import Version Manager.

(** Documented behaviour of [LruMap]: an entry may be evicted, never changed. *)
Class LruLaws (K V : Type) `{!LruMap K V} := {
  lru_view : Lru → K → option V;
  lru_new_view n k : lru_view (lru_new n) k = None;
  lru_get_found k c : (lru_get k c).1 = lru_view c k;
  lru_get_view k c k' : lru_view (lru_get k c).2 k' = lru_view c k';
  lru_insert_same k v c : lru_view (lru_insert k v c) k = Some v;
  lru_insert_other k v c k' w :
    k' ≠ k → lru_view (lru_insert k v c) k' = Some w → lru_view c k' = Some w;
  lru_remove_found k c : (lru_remove k c).1 = lru_view c k;
  lru_remove_same k c : lru_view (lru_remove k c).2 k = None;
  lru_remove_other k c k' : k' ≠ k → lru_view (lru_remove k c).2 k' = lru_view c k';
}.

(** ** Runtime transitions *)

(** Recorded heights are below the key of the highest version; versions increase with the
    height and end at the highest. *)
Record transitions_ok (t : gmap Z RuntimeVersion) : Prop := {
  tr_heights h v : t !! h = Some v → h ≤ LATEST_RUNTIME_KEY;
  tr_increasing h1 h2 v1 v2 : t !! h1 = Some v1 → t !! h2 = Some v2 →
    h1 < h2 → h2 ≠ LATEST_RUNTIME_KEY → version_lt v1 v2 = true;
  tr_latest h v : t !! h = Some v →
    ∃ latest, t !! LATEST_RUNTIME_KEY = Some latest ∧ version_le v latest = true;
}.

Lemma version_le_lt_trans a b c :
  version_le a b = true → version_lt b c = true → version_lt a c = true.
Proof. rewrite version_le_lex, !version_lt_lex. lia. Qed.
Lemma version_le_total a b : version_le a b = false → version_lt b a = true.
Proof. intros H. by rewrite version_lt_not_le, H. Qed.

Lemma insert_runtime_view height v db b db' :
  insert_runtime_upgrade_version height v db = (b, db') →
  staged_headers db' = staged_headers db ∧
  ((b = false ∧ db' = db ∧ ∃ latest, runtime_transitions db !! LATEST_RUNTIME_KEY = Some latest ∧
      version_le v latest = true) ∨
   (b = true ∧ runtime_transitions db' = <[height := v]> (<[LATEST_RUNTIME_KEY := v]> (runtime_transitions db)) ∧
      ∀ latest, runtime_transitions db !! LATEST_RUNTIME_KEY = Some latest → version_lt latest v = true)).
Proof.
  unfold insert_runtime_upgrade_version. destruct (runtime_transitions db !! LATEST_RUNTIME_KEY) as [l|] eqn:Hl.
  - destruct (version_le v l) eqn:Hv; intros [= <- <-]; split; try done; [left|right].
    + split_and!; [done..|]. eauto.
    + split_and!; [done..|]. intros ? [= <-]. by apply version_le_total.
  - intros [= <- <-]. split; [done|]. right. split_and!; [done..|]. by intros ? ?.
Qed.

Lemma insert_runtime_ok height v db :
  0 ≤ height < LATEST_RUNTIME_KEY →
  (∀ h w, runtime_transitions db !! h = Some w → h ≠ LATEST_RUNTIME_KEY → h < height) →
  transitions_ok (runtime_transitions db) →
  transitions_ok (runtime_transitions (insert_runtime_upgrade_version height v db).2).
Proof.
  intros Hh Hbelow [H1' H2' H3'].
  destruct (insert_runtime_upgrade_version height v db) as [b db'] eqn:Hi. simpl.
  apply insert_runtime_view in Hi as (_ & [(_ & -> & _)|(_ & -> & Hlt)]); [by split|].
  assert (∀ h w, runtime_transitions db !! h = Some w → version_lt w v = true) as Hv.
  { intros h w Hw. destruct (H3' h w Hw) as (l & Hl & Hle). eapply version_le_lt_trans; eauto. }
  split.
  - intros h w. rewrite !lookup_insert_Some. intros [[<- _]|[_ [[<- _]|[_ Hw]]]]; [lia|done|eauto].
  - intros h1 h2 v1 v2. rewrite !lookup_insert_Some.
    intros [[<- <-]|[? [[<- <-]|[? Hv1]]]] [[<- <-]|[? [[<- <-]|[? Hv2]]]] Hlt12 Hne;
      try (unfold LATEST_RUNTIME_KEY in *; lia); eauto.
    + apply Hbelow in Hv2; [|done]. lia.
    + apply H1' in Hv2. unfold LATEST_RUNTIME_KEY in *. lia.
  - intros h w Hw. exists v. split.
    { rewrite lookup_insert_ne by lia. apply lookup_insert_eq. }
    rewrite !lookup_insert_Some in Hw.
    destruct Hw as [[_ <-]|[_ [[_ <-]|[_ Hw]]]]; [apply version_le_refl..|].
    apply version_lt_le. eauto.
Qed.

(** What committing a list of blocks records of their heights and versions. *)
Definition record_versions (l : list (Z * RuntimeVersion)) (db : BotanixDb) : BotanixDb :=
  foldl (λ db p, (insert_runtime_upgrade_version p.1 p.2 db).2) db l.

Lemma record_versions_recorded l db h v :
  runtime_transitions (record_versions l db) !! h = Some v → h ≠ LATEST_RUNTIME_KEY →
  runtime_transitions db !! h = Some v ∨ (h, v) ∈ l.
Proof.
  revert db. induction l as [|[h' v'] l IH]; intros db Hv Hne; [by left|]. simpl in Hv.
  destruct (IH _ Hv Hne) as [Hold|Hin]; [|by right; right].
  destruct (insert_runtime_upgrade_version h' v' db) as [b db'] eqn:Hi.
  apply insert_runtime_view in Hi as (_ & [(_ & -> & _)|(_ & Ht & _)]); [by left|]. simpl in Hold.
  rewrite Ht in Hold. rewrite !lookup_insert_Some in Hold.
  destruct Hold as [[<- <-]|[_ [[<- _]|[_ Hold]]]]; [right; left|done|by left].
Qed.

Lemma record_versions_latest l db :
  ∀ h v, (h, v) ∈ l → ∃ latest,
    get_last_runtime_version (record_versions l db) = Some latest ∧ version_le v latest = true.
Proof.
  assert (∀ l db w, get_last_runtime_version db = Some w → ∃ latest,
    get_last_runtime_version (record_versions l db) = Some latest ∧ version_le w latest = true) as Hmono.
  { clear. induction l as [|[h v] l IH]; intros db w Hw; simpl; [exists w; eauto using version_le_refl|].
    destruct (insert_runtime_upgrade_version h v db) as [b db'] eqn:Hi. simpl.
    apply insert_runtime_view in Hi as (_ & [(_ & -> & _)|(_ & Ht & Hlt)]); [by apply IH|].
    destruct (IH db' v) as (latest & Hl & Hle).
    { unfold get_last_runtime_version. rewrite Ht, lookup_insert_Some.
      destruct (decide (h = LATEST_RUNTIME_KEY)); [by left|]. right. split; [done|apply lookup_insert_eq]. }
    exists latest. split; [done|]. eapply version_le_trans; [|done]. by apply version_lt_le, Hlt. }
  revert db. induction l as [|[h' v'] l IH]; intros db h v; [by intros ?%elem_of_nil|].
  intros [[= -> ->]|Hin]%elem_of_cons; [|by eapply IH]. simpl.
  destruct (insert_runtime_upgrade_version h' v' db) as [b db'] eqn:Hi. simpl.
  apply insert_runtime_view in Hi as (_ & [(_ & -> & latest & Hl & Hle)|(_ & Ht & _)]).
  - destruct (Hmono l db latest Hl) as (l2 & ? & ?). exists l2. split; [done|]. by eapply version_le_trans.
  - apply Hmono. unfold get_last_runtime_version. rewrite Ht, lookup_insert_Some.
    destruct (decide (h' = LATEST_RUNTIME_KEY)); [by left|]. right. split; [done|apply lookup_insert_eq].
Qed.

(** Recorded runtime versions.  After blocks are committed at increasing heights, the
    recorded transitions have strictly increasing versions, each was the version of the
    block at its height, and the latest version is at least that of every block. *)
Theorem runtime_transitions_increase l staged :
  StronglySorted Z.lt l.*1 → Forall (λ h, 0 ≤ h < LATEST_RUNTIME_KEY) l.*1 →
  let db := record_versions l (mkBotanixDb staged ∅) in
  transitions_ok (runtime_transitions db) ∧
  (∀ h v, runtime_transitions db !! h = Some v → h ≠ LATEST_RUNTIME_KEY → (h, v) ∈ l) ∧
  (∀ h v, (h, v) ∈ l → ∃ latest,
     get_last_runtime_version db = Some latest ∧ version_le v latest = true).
Proof.
  intros Hs Hall. simpl. split_and!; [|intros h v Hv Hne|apply record_versions_latest]; cycle 1.
  { by destruct (record_versions_recorded _ _ _ _ Hv Hne). }
  induction l as [|[h v] l IH] using rev_ind; [split; intros; simplify_map_eq|].
  rewrite fmap_app in Hs, Hall. apply StronglySorted_app in Hs as (Hlt & Hs & _).
  apply Forall_app in Hall as [Hall Hh]. apply Forall_cons in Hh as [Hh _]. simpl in Hh.
  unfold record_versions in *. rewrite foldl_app. simpl. apply insert_runtime_ok; [done| |by apply IH].
  intros k w Hw Hne. fold (record_versions l (mkBotanixDb staged ∅)) in Hw.
  apply record_versions_recorded in Hw as [Hw|Hw]; [by simpl in Hw; rewrite lookup_empty in Hw| |done].
  apply Hlt; [|by apply list_elem_of_singleton]. apply list_elem_of_fmap. by exists (k, w).
Qed.

Section theory.
Context `{!HeaderHash, !BitcoinHashes, !ConsensusEncoding, !Secp256k1, !PegLib, !Abi, !AbciLib}.
Context `{!EthLib, !BlockLib, !Evm, !ChainLib}.
Context {BE PE : Type} `{!ChainStore PE}.
Context {VDB VE : Type} `{RW : !ActivationManagerReaderWriter Address VDB VE}.
Context `{!LruMap B256 BlockWithContext, !LruLaws B256 BlockWithContext}.
Abbreviation Node := (Abci (PE := PE) (VDB := VDB)).
Implicit Types (a : Node) (cf : AbciConfig (BE := BE)).

Abbreviation cached a := (lru_view (ab_cache a)).

(** ** What was cached *)

(** The version a proposal is processed with is its own. *)
Lemma on_process_proposal_version h v (m : ActivationManager VDB) w c :
  on_process_proposal (E := VE) h v m = Ok (Process w c) → w = v.
Proof.
  unfold on_process_proposal, process_active. destruct (upgrade m) as [u|].
  - intros Hr. rinv1 Hr. destruct (all_passing _ && _) eqn:Hp; [bool_to_prop; simplify_eq; naive_solver|].
    case_bool_decide; simplify_eq. done.
  - case_bool_decide; intros; simplify_eq. done.
Qed.

(** The block that the data of a decided CometBFT block determines: its transactions, its
    time and, for the oldest version of the first transaction, its proposer. *)
Definition context_for cf (db : Db) (txs : list bytes) (time : option Z) (proposer : bytes)
    (c : BlockWithContext) : Prop :=
  ∃ first ndd recipient seconds signed,
    head txs = Some first ∧ (ndd_deserialize first).1 = Ok ndd ∧
    match ndd_block_fee_recipient_address ndd with
    | Some address => recipient = address
    | None => is_testnet cf = true ∧ recipient = proposer
    end ∧
    time = Some seconds ∧ transactions_signed_from_bytes (tail txs) = Some signed ∧
    build_and_execute (db_provider db) (cf_bitcoind cf) (cf_chain_spec cf) (cf_btc_network cf)
      (cf_ethereum_params cf) signed (ndd_runtime_version ndd) (ndd_network_upgrade_payload ndd)
      (default (Some FLOOR_BASE_FEE_PER_GAS_V3) (floor_of (ndd_runtime_version ndd))) recipient
      (ndd_bitcoin_block_hash ndd) (ndd_aggregated_public_key ndd) seconds = Ok c.

(** Configurations of nodes on one chain. *)
Definition same_chain cf1 cf2 : Prop :=
  cf_chain_spec cf1 = cf_chain_spec cf2 ∧ cf_btc_network cf1 = cf_btc_network cf2 ∧
  cf_ethereum_params cf1 = cf_ethereum_params cf2 ∧ cf_bitcoind cf1 = cf_bitcoind cf2.

Lemma context_for_unique cf1 cf2 db1 db2 txs time proposer c1 c2 :
  same_chain cf1 cf2 → db_provider db1 = db_provider db2 →
  context_for cf1 db1 txs time proposer c1 → context_for cf2 db2 txs time proposer c2 → c1 = c2.
Proof.
  intros (Hs & Hn & Hp & Hb) Hdb (f1 & n1 & r1 & s1 & t1 & Hf1 & Hn1 & Hr1 & Hs1 & Ht1 & Hb1)
    (f2 & n2 & r2 & s2 & t2 & Hf2 & Hn2 & Hr2 & Hs2 & Ht2 & Hb2).
  rewrite Hs, Hn, Hp, Hb, Hdb in Hb1.
  assert (f1 = f2) as -> by congruence. assert (n1 = n2) as -> by congruence.
  assert (s1 = s2) as -> by congruence. assert (t1 = t2) as -> by congruence.
  assert (r1 = r2) as -> by (destruct (ndd_block_fee_recipient_address n2); naive_solver congruence).
  congruence.
Qed.

Lemma reject_logged_rejects cf a a' : reject_logged cf a ≠ (Ok VerifyAccepted, a').
Proof. unfold reject_logged. destruct (cf_warn cf), (application_hash a); simpl; naive_solver. Qed.
#[local] Hint Resolve reject_logged_rejects : core.

Lemma process_block_accepted cf ndd agg recipient txs floor seconds hash a a' :
  process_block cf ndd agg recipient txs floor seconds hash a = (Ok VerifyAccepted, a') →
  ∃ c, build cf a txs (ndd_runtime_version ndd) (ndd_network_upgrade_payload ndd) floor recipient
         (ndd_bitcoin_block_hash ndd) agg seconds = Ok c ∧
       validate_block cf (block_of_context c) a = VerifyAccepted ∧
       a' = set_cache (lru_insert hash c (ab_cache a)) a.
Proof.
  unfold process_block. destruct (build _ _ _ _ _ _ _ _ _ _) as [c| |]; [|by intros ?%reject_logged_rejects|done].
  destruct (validate_block _ _ _) eqn:Hv; [|by intros ?%reject_logged_rejects].
  intros [= <-]. eauto.
Qed.

(** An accepted proposal adds one entry, the block of its data. *)
Lemma process_proposal_accepted cf req a a' :
  process_proposal (VE := VE) cf req a = (Ok VerifyAccepted, a') →
  ∃ c, (∀ proposer, context_for cf (ab_db a) (rq_txs req) (rq_time req) proposer c) ∧
       validate_block cf (block_of_context c) a = VerifyAccepted ∧
       a' = set_cache (lru_insert (rq_hash req) c (ab_cache a)) a.
Proof.
  unfold process_proposal, process_ndd, process_version. intros Hrun. apply sbind_ok in Hrun as (? & ? & [= <- <-] & Hrun).
  destruct (aggregate_public_key a) as [agg| |]; [|by apply reject_logged_rejects in Hrun..].
  destruct (rq_time req) as [seconds|]; [|done].
  apply sbind_ok in Hrun as (hash & ? & [= Hhash <-] & Hrun).
  destruct (rq_txs req) as [|first rest] eqn:Htxs; [by apply reject_logged_rejects in Hrun|].
  destruct (ndd_deserialize first).1 as [ndd| |] eqn:Hndd; [|by apply reject_logged_rejects in Hrun|done].
  destruct (ndd_block_fee_recipient_address ndd) as [recipient|] eqn:Hr; [|by apply reject_logged_rejects in Hrun].
  destruct (negb _); [by apply reject_logged_rejects in Hrun|].
  case_bool_decide as Hagg; [by apply reject_logged_rejects in Hrun|].
  destruct (transactions_signed_from_bytes rest) as [txs|] eqn:Hdec; [|by apply reject_logged_rejects in Hrun].
  apply sbind_ok in Hrun as (d & ? & [= Hd <-] & Hrun).
  destruct d as [v conds|]; [|done].
  apply sbind_ok in Hrun as (floor & ? & [= Hfloor%expect_ok <-] & Hrun).
  apply process_block_accepted in Hrun as (c & Hb & Hv & ->).
  unfold fixed_bytes in Hhash. case_match; [|done]. injection Hhash as <-.
  unfold unwrap in Hd. destruct (on_process_proposal _ _ _) as [d'| |] eqn:Hd'; [|done..].
  injection Hd as ->. apply on_process_proposal_version in Hd' as ->. subst agg.
  exists c. split_and!; [|done|done]. intros proposer.
  exists first, ndd, recipient, seconds, txs. rewrite Hr, Hfloor. done.
Qed.

(** Anything but acceptance leaves the node as it was. *)
Lemma reject_logged_state cf a : (reject_logged cf a).2 = a.
Proof. unfold reject_logged. by destruct (cf_warn cf). Qed.
Lemma process_proposal_rejected cf req a :
  (process_proposal (VE := VE) cf req a).1 ≠ Ok VerifyAccepted → (process_proposal (VE := VE) cf req a).2 = a.
Proof.
  unfold process_proposal, process_ndd, process_version, sbind, sget, slift, reject, sret.
  destruct (aggregate_public_key a) as [agg| |]; [|intros _; apply reject_logged_state..].
  destruct (rq_time req) as [seconds|]; [|done].
  destruct (fixed_bytes 32 (rq_hash req)) as [hash| |]; [|done..].
  destruct (rq_txs req) as [|first rest]; [intros _; apply reject_logged_state|].
  destruct (ndd_deserialize first).1 as [ndd| |]; [|intros _; apply reject_logged_state|done].
  destruct (ndd_block_fee_recipient_address ndd) as [recipient|]; [|intros _; apply reject_logged_state].
  destruct (negb _); [intros _; apply reject_logged_state|].
  case_bool_decide; [intros _; apply reject_logged_state|].
  destruct (transactions_signed_from_bytes rest) as [txs|]; [|intros _; apply reject_logged_state].
  destruct (unwrap _) as [d| |]; [|done..]. destruct d as [v conds|]; [|done].
  destruct (expect (floor_of v)) as [floor| |]; [|done..].
  unfold process_block. destruct (build _ _ _ _ _ _ _ _ _ _); [|intros _; apply reject_logged_state|done].
  destruct (validate_block _ _ _); [done|intros _; apply reject_logged_state].
Qed.

Lemma finalize_build_ok cf req hash a c a' :
  finalize_build cf req hash a = (Ok c, a') →
  context_for cf (ab_db a) (rf_txs req) (rf_time req) (rf_proposer_address req) c ∧
  a' = set_cache (lru_insert hash c (ab_cache a)) a.
Proof.
  unfold finalize_build. intros Hrun. apply sbind_ok in Hrun as (? & ? & [= <- <-] & Hrun).
  apply sbind_ok in Hrun as (first & ? & [= Hfirst%expect_ok <-] & Hrun).
  apply sbind_ok in Hrun as (ndd & ? & [= Hndd <-] & Hrun).
  apply sbind_ok in Hrun as (recipient & a1 & Hrec & Hrun).
  apply sbind_ok in Hrun as (seconds & ? & [= Hs%expect_ok <-] & Hrun).
  apply sbind_ok in Hrun as (txs & ? & [= Htxs%expect_ok <-] & Hrun).
  apply sbind_ok in Hrun as (c' & ? & [= Hb <-] & Hrun).
  apply sbind_ok in Hrun as (? & ? & [= <- <-] & [= <- <-]).
  destruct (ndd_deserialize first).1 as [ndd'| |] eqn:Hndd'; [|done..]. injection Hndd as <-.
  unfold build in Hb. destruct (build_and_execute _ _ _ _ _ _ _ _ _ _ _ _ _) as [c''| |] eqn:Hb'; [|done..].
  injection Hb as <-.
  assert (a1 = a ∧ match ndd_block_fee_recipient_address ndd' with
                   | Some address => recipient = address
                   | None => is_testnet cf = true ∧ recipient = rf_proposer_address req end) as [-> Hrec'].
  { destruct (ndd_block_fee_recipient_address ndd'); [by injection Hrec|].
    destruct (is_testnet cf); [|done]. unfold slift, fixed_bytes in Hrec. case_match; [|done].
    by injection Hrec as <- <-. }
  split; [|done]. exists first, ndd', recipient, seconds, txs. done.
Qed.

Lemma finalize_context_ok cf req hash a c a' :
  finalize_context cf req hash a = (Ok c, a') →
  (∃ cache, a' = set_cache cache a) ∧
  (∀ k w, cached a' k = Some w → cached a k = Some w ∨ (k = hash ∧ w = c)) ∧
  cached a' hash = Some c ∧
  (cached a hash = Some c ∨
   context_for cf (ab_db a) (rf_txs req) (rf_time req) (rf_proposer_address req) c).
Proof.
  unfold finalize_context. intros Hrun. apply sbind_ok in Hrun as (? & ? & [= <- <-] & Hrun).
  pose proof (lru_get_found hash (ab_cache a)) as Hfound.
  pose proof (lru_get_view hash (ab_cache a)) as Hview.
  destruct (lru_get hash (ab_cache a)) as [found cache]. simpl in Hfound, Hview. subst found.
  apply sbind_ok in Hrun as (? & ? & [= <- <-] & Hrun).
  destruct (cached a hash) as [c'|] eqn:Hc.
  - injection Hrun as <- <-. split_and!; [by eexists| |by simpl; rewrite Hview|by left].
    intros k w. simpl. rewrite Hview. auto.
  - apply finalize_build_ok in Hrun as [Hctx ->]. simpl in *. split_and!; [by eexists| |apply lru_insert_same|by right].
    intros k w Hw. destruct (decide (k = hash)) as [->|Hne].
    + rewrite lru_insert_same in Hw. injection Hw as <-. auto.
    + apply lru_insert_other in Hw; [|done]. rewrite Hview in Hw. auto.
Qed.

Lemma finalize_decide_state req c a u a' :
  finalize_decide (VE := VE) req c a = (Ok u, a') → ∃ m, a' = set_manager m a.
Proof.
  unfold finalize_decide. intros Hrun. apply sbind_ok in Hrun as (p & ? & [= _ <-] & Hrun).
  apply sbind_ok in Hrun as (d & a1 & Hd & Hrun). apply sbind_ok in Hrun as (? & a2 & Hok & Hrun).
  apply sbind_ok in Hrun as (? & ? & [= <- <-] & [= _ <-]).
  destruct d; [|done]. injection Hok as _ <-. unfold zoom in Hd. case_match. injection Hd as _ <-.
  by eexists.
Qed.
Lemma learn_aggregate_key_state cf b a u a' :
  learn_aggregate_key cf b a = (Ok u, a') → ∃ k, a' = set_aggregate_public_key k a.
Proof.
  unfold learn_aggregate_key. case_match.
  - intros (e & ? & [= _ <-] & [= _ <-])%sbind_ok. by eexists.
  - intros [= _ <-]. exists (ab_aggregate_public_key a). by destruct a.
Qed.

(** Finalizing answers for the block it found or built, remembers it for the commit and
    leaves the databases alone. *)
Lemma finalize_block_ok cf req a r a' :
  finalize_block (VE := VE) cf req a = (Ok r, a') →
  ∃ c a1 first, finalize_context cf req (rf_hash req) a = (Ok c, a1) ∧
    head (rf_txs req) = Some first ∧
    r = mkFinalized (first :: ((λ _, []) <$> eb_body (block_of_context c)))
                    (sb_hash (wp_block (sealed_block_with_peg c))) ∧
    validate_block cf (block_of_context c) a' = VerifyAccepted ∧
    ab_tracked_final a' = Some (rf_hash req) ∧ ab_cache a' = ab_cache a1 ∧
    cached a1 (rf_hash req) = Some c ∧ ab_notifications a' = ab_notifications a ∧
    ab_db a' = ab_db a ∧ ab_botanix a' = ab_botanix a ∧ ab_head a' = ab_head a.
Proof.
  unfold finalize_block. intros Hrun. apply sbind_ok in Hrun as (? & a0 & [= _ <-] & Hrun).
  apply sbind_ok in Hrun as (hash & ? & [= Hhash <-] & Hrun).
  unfold fixed_bytes in Hhash. case_match; [|done]. injection Hhash as <-.
  apply sbind_ok in Hrun as (c & a1 & Hc & Hrun). apply sbind_ok in Hrun as (? & a2 & Hd & Hrun).
  apply sbind_ok in Hrun as (? & a3 & [= _ <-] & Hrun). apply sbind_ok in Hrun as (? & a4 & Hk & Hrun).
  apply sbind_ok in Hrun as (? & ? & [= <- <-] & Hrun). apply sbind_ok in Hrun as (? & a5 & Hv & Hrun).
  apply sbind_ok in Hrun as (first & ? & [= Hfirst%expect_ok <-] & [= <- <-]).
  destruct (validate_block _ _ _) eqn:Hval; [|done]. injection Hv as _ <-.
  exists c, a1, first. apply finalize_context_ok in Hc as Hc'. destruct Hc' as ([cache ->] & _ & Hin & _).
  apply finalize_decide_state in Hd as [m ->]. apply learn_aggregate_key_state in Hk as [k ->].
  done.
Qed.

(** ** Honest proposals *)

Section honest.
Context `{!EncodingLaws, !Secp256k1Laws, !EvmLaws, !ChainLaws}.

(** What a proposal consists of. *)
Lemma prepare_proposal_ok cf pool builder req a txs :
  prepare_proposal (VE := VE) cf pool builder req a = Ok txs →
  ∃ d agg recipient cp floor first rest,
    on_prepare_proposal (E := VE) (wrap64 (rp_height req)) (ab_manager a) = Ok d ∧
    ab_aggregate_public_key a = Some agg ∧ cf_block_fee_recipient_address cf = Some recipient ∧
    strong (ab_checkpoints a) = Some cp ∧ floor_of (pp_version d) = Some floor ∧
    ndd_serialize (new_v2 (cp_hash cp) agg recipient (pp_version d) (pp_vote d)) = Ok first ∧
    txs = first :: rest.
Proof.
  unfold prepare_proposal, non_deterministic_data, aggregate_public_key, bitcoin_blockhash.
  intros Hr. apply rbind_ok in Hr as (? & _ & Hr). apply rbind_ok in Hr as (? & _ & Hr).
  apply rbind_ok in Hr as (? & _ & Hr). apply rbind_ok in Hr as (d & Hd & Hr).
  apply rbind_ok in Hr as (ndd & Hndd & Hr). apply rbind_ok in Hr as (floor & Hfloor%expect_ok & Hr).
  apply rbind_ok in Hr as (first & Hfirst & Hr). apply rbind_ok in Hr as (? & _ & Hr).
  destruct (on_prepare_proposal _ _) as [d'| |]; [|done..]. injection Hd as <-.
  destruct (ab_aggregate_public_key a) as [agg|]; [|done]. cbn [ok_or rbind] in Hndd.
  destruct (cf_block_fee_recipient_address cf) as [recipient|]; [|done]. cbn [ok_or rbind] in Hndd.
  destruct (strong (ab_checkpoints a)) as [cp|]; [|done]. cbn [ok_or rbind unwrap] in Hndd.
  injection Hndd as <-.
  assert (∃ rest, txs = first :: rest) as [rest ->].
  { case_match; [injection Hr as <-; by eexists|]. destruct (builder _ _); [|done..].
    injection Hr as <-. by eexists. }
  exists d', agg, recipient, cp, floor, first, rest. done.
Qed.

Lemma floor_of_version_ok v f : floor_of v = Some f → version_ok v.
Proof.
  unfold floor_of, version_ok, u16_max. repeat case_bool_decide; subst; simpl; intros; try done; lia.
Qed.

(** C14. Honest proposals are accepted.  A proposal that a node prepared is accepted by
    every node that holds the same aggregate key (not the placeholder), knows the
    proposer's checkpoint, and whose activation manager agrees to the version, when the
    block it describes can be built on that node's chain: on a parent with a base fee,
    before Prague, on a chain with an id of Botanix when Shanghai is active, and, when
    Cancun is active (as it is on every Botanix chain), on a parent that has a beacon
    root and blob gas in whole blobs, with no blob transactions in the block.  Then the
    block passes all the checks, and it is cached under the proposal's hash. *)
Theorem honest_proposal_is_accepted cf1 cf pool builder preq a req (b : Node) seconds proposer c
    p best phash parent nums :
  prepare_proposal (VE := VE) cf1 pool builder preq a = Ok (rq_txs req) →
  rq_height req = rp_height preq → length (rq_hash req) = 32%nat → rq_time req = Some seconds →
  ab_aggregate_public_key b = ab_aggregate_public_key a →
  (∀ cp, strong (ab_checkpoints a) = Some cp →
     contains_by_hash (cp_hash cp) (ab_checkpoints b) = true ∧ array_dom 32 (cp_hash cp)) →
  (∀ recipient, cf_block_fee_recipient_address cf1 = Some recipient → array_dom 20 recipient) →
  (∀ d, on_prepare_proposal (E := VE) (wrap64 (rp_height preq)) (ab_manager a) = Ok d →
     (∀ x, pp_vote d = Some x → payload_ok x) ∧
     ∃ w conds, on_process_proposal (E := VE) (wrap64 (rp_height preq)) (pp_version d) (ab_manager b)
       = Ok (Process w conds)) →
  context_for cf (ab_db b) (rq_txs req) (rq_time req) proposer c →
  db_provider (ab_db b) = Ok p → builds_on (cf_chain_spec cf) p best phash parent seconds →
  (is_cancun_active_at_timestamp (inner (cf_chain_spec cf)) (wrap64 seconds) = true →
   block_blob_gas_used (block_of_context c) = 0) →
  nums_secp256k1_pk = Ok nums → ab_aggregate_public_key a ≠ Some nums →
  process_proposal (VE := VE) cf req b =
    (Ok VerifyAccepted, set_cache (lru_insert (rq_hash req) c (ab_cache b)) b).
Proof.
  intros Hprep Hheight Hlen Htime Hagg Hcps Hrec Hact Hctx Hdb Hon Hno Hnums Hne.
  apply prepare_proposal_ok in Hprep
    as (d & agg & recipient & cp & floor & first & rest & Hd & Ha & Hr & Hcp & Hfloor & Hser & Htxs).
  destruct (Hcps _ Hcp) as [Hin Hdom]. destruct (Hact _ Hd) as (Hpay & w & conds & Hproc).
  specialize (Hrec _ Hr). rewrite Ha in *.
  destruct (ndd_deserialize_serialize (new_v2 (cp_hash cp) agg recipient (pp_version d) (pp_vote d)) [])
    as (bs & Hbs & left & Hread & _).
  { apply ok_v2; [done|apply Hrec|by eapply floor_of_version_ok|done]. }
  { done. }
  rewrite Hser in Hbs. injection Hbs as <-. rewrite app_nil_r in Hread.
  destruct Hctx as (f & ndd & r & s & signed & Hf & Hndd & Hrr & Hs & Hdec & Hb).
  rewrite Htxs, Htime in *. simpl in *. injection Hf as <-. injection Hs as <-.
  rewrite Hread in Hndd. injection Hndd as <-. simpl in *. subst r. rewrite Hfloor in Hb. simpl in Hb.
  assert (validate_block cf (block_of_context c) b = VerifyAccepted) as Hval.
  { apply (built_block_checks _ _ _ _ _ p) with (nums := nums) (best := best) (hash := phash)
      (parent := parent) in Hb as (H1' & H2' & H3' & _); try done; [|congruence].
    unfold validate_block, block_of_context, aggregate_public_key. rewrite Hagg.
    rewrite H1', H2'. simpl. by rewrite H3'. }
  pose proof (on_process_proposal_version _ _ _ _ _ Hproc) as ->.
  unfold process_proposal, process_ndd, process_version, sbind, sget, slift, aggregate_public_key. rewrite Hagg. cbn [ok_or].
  rewrite Htime. unfold fixed_bytes. rewrite Hlen, Htxs. simpl. rewrite Hread. simpl.
  rewrite Hin. simpl. rewrite bool_decide_eq_false_2 by naive_solver.
  rewrite Hdec, Hheight, Hproc. simpl. rewrite Hfloor. simpl.
  unfold process_block, build. simpl. rewrite Hb, Hval. done.
Qed.
End honest.

(** ** Agreement *)

(** The CometBFT blocks of one height: a hash determines the transactions, the time and
    the proposer. *)
Context (proposals : B256 → option (list bytes * option Z * bytes)).

(** What a node does between two commits: it processes and finalizes these blocks, in any
    order and with any repetition, while its checkpoints and its key may change. *)
Definition set_checkpoints_and_key (cps : BitcoinCheckpointsChain) (k : option PublicKey) a : Node :=
  mkAbci (ab_db a) (ab_botanix a) (ab_head a) (ab_notifications a) k (ab_manager a) cps (ab_cache a)
    (ab_tracked_final a).
Inductive round_step cf : Node → Node → Prop :=
  | step_process req proposer r a a' :
      proposals (rq_hash req) = Some (rq_txs req, rq_time req, proposer) →
      process_proposal (VE := VE) cf req a = (Ok r, a') → round_step cf a a'
  | step_finalize req r a a' :
      proposals (rf_hash req) = Some (rf_txs req, rf_time req, rf_proposer_address req) →
      finalize_block (VE := VE) cf req a = (Ok r, a') → round_step cf a a'
  | step_background cps k a : round_step cf a (set_checkpoints_and_key cps k a).

(** Every block of the height in the cache is the one its data determines. *)
Definition faithful cf a : Prop := ∀ hash c txs time proposer,
  cached a hash = Some c → proposals hash = Some (txs, time, proposer) →
  context_for cf (ab_db a) txs time proposer c.

Lemma finalize_context_faithful cf req a c a1 :
  faithful cf a → proposals (rf_hash req) = Some (rf_txs req, rf_time req, rf_proposer_address req) →
  finalize_context cf req (rf_hash req) a = (Ok c, a1) →
  context_for cf (ab_db a) (rf_txs req) (rf_time req) (rf_proposer_address req) c ∧
  ∀ a', ab_cache a' = ab_cache a1 → ab_db a' = ab_db a → faithful cf a'.
Proof.
  intros Hf Hp Hc. apply finalize_context_ok in Hc as ([cache Ha1] & Hother & _ & Hcase).
  assert (context_for cf (ab_db a) (rf_txs req) (rf_time req) (rf_proposer_address req) c) as Hctx.
  { destruct Hcase as [Hcase|Hcase]; [by eapply Hf|done]. }
  split; [done|]. intros a' Hcache Hdb hash w txs time proposer Hw Hprop. rewrite Hcache in Hw. rewrite Hdb.
  destruct (Hother _ _ Hw) as [Hold|[-> ->]]; [by eapply Hf|]. rewrite Hp in Hprop. by simplify_eq.
Qed.

Lemma round_step_faithful cf a a' :
  round_step cf a a' → faithful cf a → faithful cf a' ∧ ab_db a' = ab_db a ∧ ab_botanix a' = ab_botanix a.
Proof.
  intros [req proposer r b b' Hp Hrun|req r b b' Hp Hrun|cps k b] Hf.
  - destruct r; cycle 1.
    { pose proof (process_proposal_rejected cf req b) as Hr. rewrite Hrun in Hr. simpl in Hr.
      by rewrite Hr. }
    apply process_proposal_accepted in Hrun as (c & Hctx & _ & ->). split; [|done].
    intros hash w txs time prop Hw Hprop. simpl in *. destruct (decide (hash = rq_hash req)) as [->|Hne].
    + rewrite lru_insert_same in Hw. injection Hw as <-. rewrite Hp in Hprop. injection Hprop as <- <- <-. apply Hctx.
    + apply lru_insert_other in Hw; [|done]. by eapply Hf.
  - apply finalize_block_ok in Hrun as (c & a1 & first & Hc & _ & _ & _ & _ & Hcache & _ & _ & Hdb & Hbt & _).
    eapply finalize_context_faithful in Hc as [_ Hkeep]; [|done..]. eauto.
  - split; [|done]. exact Hf.
Qed.

Lemma rounds_faithful cf a a' :
  rtc (round_step cf) a a' → faithful cf a → faithful cf a' ∧ ab_db a' = ab_db a ∧ ab_botanix a' = ab_botanix a.
Proof.
  induction 1 as [|a1 a2 a3 Hstep _ IH]; [done|]. intros Hf.
  apply round_step_faithful in Hstep as (Hf2 & Hdb & Hbt); [|done].
  destruct (IH Hf2) as (? & ? & ?). split_and!; [done|congruence..].
Qed.

(** C10. Nodes agree on finalized blocks.  Two nodes on the same chain, with the same
    database, start a height with none of its blocks cached and then process and
    finalize its proposals in any way.  Whatever each of them saw, cached or had to
    rebuild, they give the same answer, the application hash included, for every block
    they both finalize. *)
Theorem app_hash_agreement cf1 cf2 a1 a2 b1 b2 req r1 r2 b1' b2' :
  same_chain cf1 cf2 → db_provider (ab_db a1) = db_provider (ab_db a2) →
  (∀ hash, proposals hash ≠ None → cached a1 hash = None ∧ cached a2 hash = None) →
  rtc (round_step cf1) a1 b1 → rtc (round_step cf2) a2 b2 →
  proposals (rf_hash req) = Some (rf_txs req, rf_time req, rf_proposer_address req) →
  finalize_block (VE := VE) cf1 req b1 = (Ok r1, b1') →
  finalize_block (VE := VE) cf2 req b2 = (Ok r2, b2') → r1 = r2.
Proof.
  intros Hsame Hdb Hempty Hs1 Hs2 Hp H1' H2'.
  apply rounds_faithful in Hs1 as (Hf1 & Hd1 & _); cycle 1.
  { intros hash c txs time proposer Hc Hprop. destruct (Hempty hash); congruence. }
  apply rounds_faithful in Hs2 as (Hf2 & Hd2 & _); cycle 1.
  { intros hash c txs time proposer Hc Hprop. destruct (Hempty hash); congruence. }
  apply finalize_block_ok in H1' as (c1 & x1 & f1 & Hc1 & Hh1 & -> & _).
  apply finalize_block_ok in H2' as (c2 & x2 & f2 & Hc2 & Hh2 & -> & _).
  eapply finalize_context_faithful in Hc1 as [Hc1 _]; [|done..].
  eapply finalize_context_faithful in Hc2 as [Hc2 _]; [|done..].
  assert (c1 = c2) as -> by (eapply context_for_unique; [exact Hsame| |exact Hc1|exact Hc2]; congruence).
  congruence.
Qed.

(** ** Commit *)

Lemma commit_ok a u a' :
  commit a = (Ok u, a') →
  ∃ hash c botanix db,
    let block := wp_block (sealed_block_with_peg c) in
    ab_tracked_final a = Some hash ∧ cached a hash = Some c ∧
    driver_commit_botanix c (ab_botanix a) = Ok botanix ∧
    append_blocks_with_state [block] (exec_outcome c) (trie_updates c) (ab_db a) = Ok db ∧
    ab_botanix a' = botanix ∧ ab_db a' = db ∧ ab_tracked_final a' = None ∧
    ab_head a' = Some (seal (sb_header block) (sb_hash block)) ∧
    ab_notifications a' = ab_notifications a ++
      [mkNotification block (Some (pegin_metas c)) (Some (wp_pegouts (sealed_block_with_peg c)))] ∧
    cached a' hash = None.
Proof.
  unfold commit. intros Hrun. apply sbind_ok in Hrun as (? & ? & [= <- <-] & Hrun).
  apply sbind_ok in Hrun as (hash & ? & [= Hhash%expect_ok <-] & Hrun).
  apply sbind_ok in Hrun as (? & ? & [= _ <-] & Hrun).
  pose proof (lru_remove_found hash (ab_cache a)) as Hfound.
  pose proof (lru_remove_same hash (ab_cache a)) as Hgone.
  destruct (lru_remove hash (ab_cache a)) as [found cache]. simpl in Hfound, Hgone. subst found.
  apply sbind_ok in Hrun as (? & ? & [= _ <-] & Hrun).
  apply sbind_ok in Hrun as (c & ? & [= Hc%expect_ok <-] & Hrun). unfold driver_commit_block in Hrun.
  apply sbind_ok in Hrun as (? & ? & [= <- <-] & Hrun).
  apply sbind_ok in Hrun as (botanix & ? & [= Hbt <-] & Hrun).
  apply sbind_ok in Hrun as (? & ? & [= _ <-] & Hrun).
  apply sbind_ok in Hrun as (db & ? & [= Hdb <-] & Hrun).
  apply sbind_ok in Hrun as (? & ? & [= _ <-] & [= _ <-]). simpl in *.
  exists hash, c, botanix, db. unfold unwrap in Hbt, Hdb.
  destruct (driver_commit_botanix _ _) as [bt| |]; [|done..]. injection Hbt as ->.
  destruct (append_blocks_with_state _ _ _ _) as [db'| |]; [|done..]. injection Hdb as ->. done.
Qed.

(** Writing the Botanix tables again changes nothing. *)
Lemma driver_commit_botanix_again c db db1 :
  driver_commit_botanix c db = Ok db1 → driver_commit_botanix c db1 = Ok db1.
Proof.
  unfold driver_commit_botanix. intros Hr. apply rbind_ok in Hr as (pegins & -> & [= <-]). simpl. f_equal.
  set (staged := mkHeaderWithPegs _ _ _). set (id := sb_hash _). set (n := h_number _).
  set (db0 := insert_staged_header id staged db). generalize (runtime_version c). intros v.
  destruct (insert_runtime_upgrade_version n v db0) as [b db2] eqn:Hi. simpl.
  apply insert_runtime_view in Hi as Hv. destruct Hv as (Hstaged & Hcase).
  assert (insert_staged_header id staged db2 = db2) as ->.
  { unfold insert_staged_header. rewrite Hstaged. simpl. rewrite insert_insert_eq.
    destruct db2; simpl in *. by rewrite Hstaged. }
  assert (∃ latest, runtime_transitions db2 !! LATEST_RUNTIME_KEY = Some latest ∧ version_le v latest = true)
    as (latest & Hl & Hle).
  { destruct Hcase as [(_ & -> & Hl)|(_ & Ht & _)]; [done|]. exists v. split; [|apply version_le_refl].
    rewrite Ht, lookup_insert_Some. destruct (decide (n = LATEST_RUNTIME_KEY)) as [->|]; [by left|].
    right. split; [done|]. apply lookup_insert_eq. }
  unfold insert_runtime_upgrade_version. by rewrite Hl, Hle.
Qed.

(** C15. Commits survive crashes.  A node finalizes and commits a block.  Had it crashed
    after the first of the two writes, lost its memory and been asked again for the
    block, it would end with the same databases, the same head and the same answer:
    neither write is lost or applied twice. *)
Theorem commit_survives_crash cf req a r a1 u a2 b r' b1 u' b2 :
  faithful cf a → proposals (rf_hash req) = Some (rf_txs req, rf_time req, rf_proposer_address req) →
  finalize_block (VE := VE) cf req a = (Ok r, a1) → commit a1 = (Ok u, a2) →
  ab_db b = ab_db a → ab_botanix b = ab_botanix a2 → (∀ hash, cached b hash = None) →
  finalize_block (VE := VE) cf req b = (Ok r', b1) → commit b1 = (Ok u', b2) →
  r' = r ∧ ab_botanix b2 = ab_botanix a2 ∧ ab_db b2 = ab_db a2 ∧ ab_head b2 = ab_head a2.
Proof.
  intros Hf Hp Hfa Hca Hdb Hbt Hempty Hfb Hcb.
  apply finalize_block_ok in Hfa
    as (c & x & f & Hc & Hh & -> & _ & Ht & Hcache & Hin & _ & Hda & Hba & _).
  apply finalize_block_ok in Hfb
    as (c' & x' & f' & Hc' & Hh' & -> & _ & Ht' & Hcache' & Hin' & _ & Hda' & Hba' & _).
  assert (faithful cf b) as Hfb by (intros h w ? ? ? Hw; by rewrite Hempty in Hw).
  eapply finalize_context_faithful in Hc as [Hc _]; [|done..].
  eapply finalize_context_faithful in Hc' as [Hc' _]; [|done..].
  assert (c' = c) as -> by (eapply (context_for_unique cf cf); [done| |exact Hc'|exact Hc]; congruence).
  apply commit_ok in Hca as (h1 & d1 & bt1 & db1 & Ht1 & Hd1 & Hw1 & Happ1 & Hb1 & He1 & _ & Hhd1 & _).
  apply commit_ok in Hcb as (h2 & d2 & bt2 & db2 & Ht2 & Hd2 & Hw2 & Happ2 & Hb2 & He2 & _ & Hhd2 & _).
  rewrite <-Hcache in Hin. rewrite <-Hcache' in Hin'.
  assert (d1 = c) as -> by congruence. assert (d2 = c) as -> by congruence.
  assert (ab_botanix b1 = bt1) as Hbt1 by congruence. rewrite Hbt1 in Hw2.
  rewrite (driver_commit_botanix_again _ _ _ Hw1) in Hw2. injection Hw2 as <-.
  rewrite Hda in Happ1. rewrite Hda', Hdb, Happ1 in Happ2. injection Happ2 as <-.
  split_and!; congruence.
Qed.

(** ** Recorded pegs *)

(** The block of a request executes as it was built, and its pegins are backed under the
    consensus package of its own header. *)
Lemma context_pegs `{!EncodingLaws, !Secp256k1Laws, !PegLaws, !ChainLaws} cf db txs time proposer c p :
  context_for cf db txs time proposer c → db_provider db = Ok p →
  Forall (Forall is_byte) txs → length proposer = 20%nat →
  let block := wp_block (sealed_block_with_peg c) in
  ∃ w x edh pkg,
    state_provider_by_block_number p (wrap64 (h_number (sb_header block) - 1)) = Ok w ∧
    executor_execute (cf_bitcoind cf) (cf_chain_spec cf) (cf_btc_network cf) p (sb_block block) 0 w = Ok x ∧
    wp_pegins (sealed_block_with_peg c) = eo_pegins (xo_output x) ∧
    wp_pegouts (sealed_block_with_peg c) = eo_pegouts (xo_output x) ∧
    deserialize_extra_data_header (sb_header block) = Ok edh ∧
    botanix_consensus_package (cf_btc_network cf) (cf_bitcoind cf) (sb_header block) = Ok pkg ∧
    bcp_aggregate_public_key pkg = edh_aggregated_public_key edh ∧
    Forall (pegin_backed (view_of (cf_bitcoind cf) p) (cf_btc_network cf) pkg) (eo_pegins (xo_output x)).
Proof.
  intros (first & ndd & rec & secs & signed & Hf & Hndd & Hrec & _ & _ & Hbuild) Hopen Hbytes Hprop.
  destruct txs as [|first' txs]; [done|]. injection Hf as ->. apply Forall_cons in Hbytes as [Hbytes _].
  destruct (ndd_deserialize first) as [r rest] eqn:Hr. simpl in Hndd. subst r.
  destruct (ndd_deserialize_sizes _ _ _ Hbytes Hr) as [Hcp Haddr].
  assert (length rec = 20%nat) as Hlen.
  { destruct (ndd_block_fee_recipient_address ndd); [subst; by apply Haddr|by destruct Hrec as [_ ->]]. }
  destruct (built_block_executes _ _ _ _ _ _ _ _ _ _ _ _ _ _ _ Hopen Hcp Hlen Hbuild)
    as (w & x & Hw & Hx & Hpi & Hpo & _).
  pose proof Hx as Hx'. apply executor_execute_ok in Hx' as (pkg & l & st & st' & Hpkg & Hrun & _ & _ & Hl & _).
  assert (∃ edh, deserialize_extra_data_header (sb_header (wp_block (sealed_block_with_peg c))) = Ok edh ∧
    bcp_aggregate_public_key pkg = edh_aggregated_public_key edh) as (edh & Hedh & Hkey).
  { unfold botanix_consensus_package in Hpkg. apply rbind_ok in Hpkg as (edh & Hedh%map_err_ok & Hpkg).
    exists edh. split; [done|]. apply rbind_ok in Hpkg as (? & _ & Hpkg).
    apply rbind_ok in Hpkg as (? & _ & Hpkg). apply rbind_ok in Hpkg as (? & _ & Hpkg).
    by injection Hpkg as <-. }
  exists w, x, edh, pkg. split_and!; try done. rewrite Hl. by eapply execute_transactions_backed.
Qed.

(** C16. Committing records the pegs of the block, and only backed pegins.  When a node
    has finalized a block and committed it, the block is the one that the request
    describes, built on the node's database; executing it from the state at its parent
    gives the pegins and pegouts that are recorded: the staged headers contain the block
    with exactly the proofs of these pegins and these pegouts at its height, besides what
    was there, and the subscribers get the same.  Every one of these pegins is backed
    under the consensus package of the block's own header: the aggregate key in its extra
    data and the bitcoin header at the checkpoint its extra data names.  (The cached blocks
    are those of their proposals, as every run keeps them; the transactions are bytes, and
    the proposer's address has 20 of them.) *)
Theorem commit_records_backed_pegs `{!EncodingLaws, !Secp256k1Laws, !PegLaws, !ChainLaws}
    cf req a r a1 u a2 p :
  faithful cf a → proposals (rf_hash req) = Some (rf_txs req, rf_time req, rf_proposer_address req) →
  Forall (Forall is_byte) (rf_txs req) → length (rf_proposer_address req) = 20%nat →
  db_provider (ab_db a) = Ok p →
  finalize_block (VE := VE) cf req a = (Ok r, a1) → commit a1 = (Ok u, a2) →
  ∃ c w x edh pkg pegins,
    let block := wp_block (sealed_block_with_peg c) in
    let metas := eo_pegins (xo_output x) ≫= pd_meta in
    let pegouts := eo_pegouts (xo_output x) in
    context_for cf (ab_db a) (rf_txs req) (rf_time req) (rf_proposer_address req) c ∧
    fz_app_hash r = sb_hash block ∧
    state_provider_by_block_number p (wrap64 (h_number (sb_header block) - 1)) = Ok w ∧
    executor_execute (cf_bitcoind cf) (cf_chain_spec cf) (cf_btc_network cf) p (sb_block block) 0 w = Ok x ∧
    get_staged_pegins_from_pegin_meta metas = Ok pegins ∧
    staged_headers (ab_botanix a2) =
      <[sb_hash block := mkHeaderWithPegs pegins
          (get_staged_pegouts_from_pegout_data pegouts (h_number (sb_header block))) (sb_header block)]>
        (staged_headers (ab_botanix a)) ∧
    ab_notifications a2 = ab_notifications a ++ [mkNotification block (Some metas) (Some pegouts)] ∧
    deserialize_extra_data_header (sb_header block) = Ok edh ∧
    botanix_consensus_package (cf_btc_network cf) (cf_bitcoind cf) (sb_header block) = Ok pkg ∧
    bcp_aggregate_public_key pkg = edh_aggregated_public_key edh ∧
    Forall (pegin_backed (view_of (cf_bitcoind cf) p) (cf_btc_network cf) pkg) (eo_pegins (xo_output x)).
Proof.
  intros Hf Hp Hbytes Hprop Hopen Hfa Hca.
  apply finalize_block_ok in Hfa
    as (c & y & f & Hc & Hh & -> & _ & Ht & Hcache & Hin & Hnot & Hda & Hba & _).
  eapply finalize_context_faithful in Hc as [Hc _]; [|done..].
  apply commit_ok in Hca as (h1 & d1 & bt1 & db1 & Ht1 & Hd1 & Hw1 & _ & Hb1 & _ & _ & _ & Hn1 & _).
  rewrite <-Hcache in Hin. assert (d1 = c) as -> by congruence.
  destruct (context_pegs cf _ _ _ _ c p Hc Hopen Hbytes Hprop)
    as (w & x & edh & pkg & Hw & Hx & Hpi & Hpo & Hedh & Hpkg & Hkey & Hback).
  unfold driver_commit_botanix, pegin_metas in Hw1, Hn1. rewrite Hpi, Hpo in Hw1, Hn1.
  apply rbind_ok in Hw1 as (sp & Hsp & [= Hw1]).
  exists c, w, x, edh, pkg, sp. split_and!; try done; [|by rewrite Hn1, Hnot].
  rewrite Hb1, <-Hw1, Hba in *.
  destruct (insert_runtime_upgrade_version _ _ _) as [bb db2] eqn:Hi. simpl in *.
  apply insert_runtime_view in Hi as [-> _]. done.
Qed.
End theory.

(** ** A worked example *)

Module AbciSample.
Import SampleCodec PegSample ExecutionSample BuilderSample.
#[local] Existing Instances sample_encoding sample_encoding_laws sample_secp sample_secp_laws
  sample_header_hash sample_hashes sample_peg sample_peg_laws sample_abi sample_eth sample_blocks
  sample_evm sample_evm_laws sample_chain sample_chain_laws.

(** The most recently used entries first, at most as many as the limit. *)
Definition without {V} (k : B256) (l : list (B256 * V)) : list (B256 * V) := filter (λ p, p.1 ≠ k) l.
Definition find_entry {V} (k : B256) (l : list (B256 * V)) : option V :=
  snd <$> List.find (λ p, bool_decide (p.1 = k)) l.
#[local] Instance list_lru {V} : LruMap B256 V := {|
  Lru := nat * list (B256 * V);
  lru_new n := (n, []);
  lru_get k c := match find_entry k c.2 with
                 | Some v => (Some v, (c.1, (k, v) :: without k c.2))
                 | None => (None, c) end;
  lru_insert k v c := (c.1, (k, v) :: take (c.1 - 1) (without k c.2));
  lru_remove k c := (find_entry k c.2, (c.1, without k c.2));
|}.

Lemma find_without {V} k k' (l : list (B256 * V)) :
  find_entry k' (without k l) = if bool_decide (k' = k) then None else find_entry k' l.
Proof.
  unfold without. induction l as [|[j v] l IH]; [by case_bool_decide|].
  rewrite filter_cons. unfold find_entry in *. simpl.
  destruct (decide (j = k)) as [->|Hj]; [rewrite decide_False by naive_solver|rewrite decide_True by done].
  - rewrite IH. destruct (decide (k = k')) as [->|]; [by rewrite bool_decide_eq_true_2|].
    by rewrite !bool_decide_eq_false_2 by naive_solver.
  - simpl. destruct (decide (j = k')) as [->|]; [|by rewrite (bool_decide_eq_false_2 (j = k'))].
    by rewrite (bool_decide_eq_true_2 (k' = k')), (bool_decide_eq_false_2 (k' = k)).
Qed.
Lemma find_take {V} k n (l : list (B256 * V)) v :
  find_entry k (take n l) = Some v → find_entry k l = Some v.
Proof.
  unfold find_entry. revert n. induction l as [|[j w] l IH]; intros [|n]; simpl; try done.
  case_bool_decide; [done|]. apply IH.
Qed.
#[local] Program Instance list_lru_laws {V} : LruLaws B256 V := {| lru_view c k := find_entry k c.2 |}.
Next Obligation. done. Qed.
Next Obligation. intros V k c. simpl. by destruct (find_entry k c.2). Qed.
Next Obligation.
  intros V k c k'. simpl. destruct (find_entry k c.2) as [v|] eqn:Hk; [|done]. simpl. unfold find_entry at 1.
  simpl. case_bool_decide as He; simpl; [by subst|].
  fold (find_entry k' (without k c.2)). rewrite find_without, bool_decide_eq_false_2; naive_solver.
Qed.
Next Obligation. intros V k v c. unfold find_entry. simpl. by rewrite bool_decide_eq_true_2. Qed.
Next Obligation.
  intros V k v c k' w Hne. simpl. unfold find_entry at 1. simpl. rewrite bool_decide_eq_false_2 by naive_solver.
  fold (find_entry k' (take (c.1 - 1) (without k c.2))). intros Hw%find_take.
  rewrite find_without, bool_decide_eq_false_2 in Hw; done.
Qed.
Next Obligation. done. Qed.
Next Obligation. intros V k c. simpl. by rewrite find_without, bool_decide_eq_true_2. Qed.
Next Obligation. intros V k c k' Hne. simpl. by rewrite find_without, bool_decide_eq_false_2. Qed.

(** The chain of the builder's example, with a sender that can pay the floor. *)
Definition rich_state : EvmState := ({[ alice := mkInfo 1000000000000 4 [] ]} : gmap Address AccountInfo).
Definition rich : Provider () := {|
  best_block_number := Ok 7; block_hash_of _ := Ok (Some [7]);
  header_by_number _ := Ok (Some block_header); header_by_hash _ := Ok (Some block_header);
  state_provider_by_block_number _ := Ok rich_state; latest_state := rich_state |}.
Lemma rich_builds_on : builds_on spec rich 7 [7] block_header 1000.
Proof.
  split; try reflexivity; try discriminate.
  - unfold u64_max. lia.
  - intros _. split; [reflexivity|]. by split_and!.
  - intros _. by right.
Qed.
Definition mint : TransactionSigned :=
  {| ts_hash := [1]; ts_fees := Eip1559 9000000 3; ts_gas_limit := 21000; ts_rest := [1] |}.
Definition bad : TransactionSigned :=
  {| ts_hash := [2]; ts_fees := Eip1559 9000000 3; ts_gas_limit := 21000; ts_rest := [] |}.

(** A database that keeps its blocks. *)
#[local] Instance sample_store : ChainStore () := {|
  Db := list SealedBlock; db_provider _ := Ok rich; append_blocks_with_state bs _ _ d := Ok (d ++ bs) |}.
#[local] Instance sample_abci : AbciLib := {|
  decode_enveloped bs := if bool_decide (bs = [1]) then Some mint
                         else if bool_decide (bs = [2]) then Some bad else None;
  serialize_script s := Z.of_nat (length s) :: s; address_script a := a |}.

Definition config : AbciConfig (BE := ()) := {|
  cf_chain_spec := spec; cf_btc_network := NetRegtest; cf_ethereum_params := tt;
  cf_bitcoind := bitcoind; cf_is_fed_node := true; cf_block_fee_recipient_address := Some recipient;
  cf_warn := true |}.
Definition voters : gmap Address VoteEntry := ∅.
Definition manager : ActivationManager (gmap Address VoteEntry) := new voters 100 (RV 0 2) None.
Definition window : BitcoinCheckpointsChain := {|
  strong_confirmation_depth := 1; checkpoints := [mkCheckpoint (header 100) 100 checkpoint];
  window_start := 1; window_end := 1; confirmation_window_size := 1 |}.
Definition empty_tables : BotanixDb := mkBotanixDb ∅ ∅.
Definition node : Abci (PE := ()) (VDB := gmap Address VoteEntry) :=
  mkAbci ([] : Db) empty_tables (Some (seal block_header [7])) [] (Some agg) manager window (lru_new 5) None.

Definition prepare_request : RequestPrepareProposal :=
  {| rp_max_tx_bytes := 1000; rp_txs := []; rp_height := 8; rp_time := Some 1000 |}.
Definition block_hash32 : B256 := replicate 32 4.
Definition ndd_bytes : bytes :=
  match ndd_serialize (new_v2 checkpoint agg recipient (RV 0 2) None) with Ok bs => bs | _ => [] end.
Definition process_request : RequestProcessProposal :=
  {| rq_txs := [ndd_bytes; [2]; [1]]; rq_hash := block_hash32; rq_height := 8; rq_time := Some 1000 |}.
Definition finalize_request : RequestFinalizeBlock :=
  {| rf_txs := [ndd_bytes; [2]; [1]]; rf_hash := block_hash32; rf_height := 8; rf_time := Some 1000;
     rf_proposer_address := alice |}.
Definition height_blocks (h : B256) : option (list bytes * option Z * bytes) :=
  if bool_decide (h = block_hash32) then Some ([ndd_bytes; [2]; [1]], Some 1000, alice) else None.

Definition process_run := process_proposal (VE := ()) config process_request.
Definition finalize_run := finalize_block (VE := ()) config finalize_request.
Definition finalize_and_commit : SM _ () () := let* _ := finalize_run in commit.

Lemma request_known : height_blocks (rf_hash finalize_request) =
  Some (rf_txs finalize_request, rf_time finalize_request, rf_proposer_address finalize_request).
Proof. unfold height_blocks. by rewrite bool_decide_eq_true_2. Qed.
Lemma proposal_known : height_blocks (rq_hash process_request) =
  Some (rq_txs process_request, rq_time process_request, alice).
Proof. unfold height_blocks. by rewrite bool_decide_eq_true_2. Qed.
Lemma node_faithful : faithful height_blocks config node.
Proof. intros hash c txs time proposer Hc. discriminate Hc. Qed.

Lemma runtime_transitions_increase_witness :
  transitions_ok (runtime_transitions
    (record_versions [(3, RV 0 2); (5, RV 0 1); (9, RV 0 3)] (mkBotanixDb ∅ ∅))).
Proof.
  apply (runtime_transitions_increase [(3, RV 0 2); (5, RV 0 1); (9, RV 0 3)] ∅).
  - simpl. repeat (constructor; try lia).
  - simpl. unfold LATEST_RUNTIME_KEY, u64_max. repeat (constructor; try lia).
Defined.

(** One node processed the proposal, the other rebuilds it. *)
Lemma app_hash_agreement_witness :
  ∃ b1 r1 b1' r2 b2', process_run node = (Ok VerifyAccepted, b1) ∧ finalize_run b1 = (Ok r1, b1') ∧
    finalize_run node = (Ok r2, b2') ∧ r1 = r2.
Proof.
  destruct (process_run node) as [r b1] eqn:Hp.
  assert (match (process_run node).1 with Ok VerifyAccepted => true | _ => false end = true) as Hr
    by (vm_compute; reflexivity).
  rewrite Hp in Hr. destruct r as [[]| |]; try discriminate Hr.
  destruct (ok_inv finalize_run node) as (r2 & b2' & H2'); [vm_compute; reflexivity|].
  destruct (ok_inv finalize_run b1) as (r1 & b1' & H1').
  { replace b1 with (process_run node).2 by (by rewrite Hp). vm_compute. reflexivity. }
  exists b1, r1, b1', r2, b2'. split_and!; [reflexivity|exact H1'|exact H2'|].
  eapply (app_hash_agreement (VE := ()) height_blocks config config node node b1 node finalize_request);
    [by repeat split|reflexivity| | |apply rtc_refl|exact request_known|exact H1'|exact H2'].
  - intros hash _. split; reflexivity.
  - apply rtc_once. eapply (step_process (VE := ()) height_blocks config process_request alice); [exact proposal_known|].
    exact Hp.
Defined.

Lemma honest_proposal_is_accepted_witness :
  ∃ c, process_run node = (Ok VerifyAccepted, set_cache (lru_insert block_hash32 c (ab_cache node)) node).
Proof.
  destruct (result_ok_inv (build_and_execute (BE := ()) (PE := ()) (Ok rich) bitcoind spec NetRegtest tt
    [bad; mint] (RV 0 2) None (Some FLOOR_BASE_FEE_PER_GAS_V2) recipient checkpoint agg 1000))
    as [c Hc]; [vm_compute; reflexivity|].
  exists c.
  eapply (honest_proposal_is_accepted (VE := ()) config config 1 (λ _ _, Better [[2]; [1]]) prepare_request node
            process_request node 1000 alice c rich 7 [7] block_header nums).
  - vm_compute. reflexivity.
  - reflexivity.
  - reflexivity.
  - reflexivity.
  - reflexivity.
  - intros cp Hcp. vm_compute in Hcp. injection Hcp as <-. split; [vm_compute; reflexivity|exact checkpoint_ok].
  - intros r [= <-]. exact recipient_ok.
  - intros d Hd. vm_compute in Hd. injection Hd as <-. split; [by intros ?|].
    eexists _, _. vm_compute. reflexivity.
  - eexists _, (new_v2 checkpoint agg recipient (RV 0 2) None), recipient, 1000, [bad; mint].
    split_and!; [reflexivity|vm_compute; reflexivity|reflexivity|reflexivity|vm_compute; reflexivity|exact Hc].
  - reflexivity.
  - exact rich_builds_on.
  - intros _. assert (match build_and_execute (BE := ()) (PE := ()) (Ok rich) bitcoind spec NetRegtest tt
      [bad; mint] (RV 0 2) None (Some FLOOR_BASE_FEE_PER_GAS_V2) recipient checkpoint agg 1000 with
      | Ok c => block_blob_gas_used (block_of_context c) | _ => 1 end = 0) as Hb by (vm_compute; reflexivity).
    rewrite Hc in Hb. exact Hb.
  - exact nums_ok.
  - discriminate.
Defined.

Lemma commit_survives_crash_witness :
  ∃ r a1 u a2, finalize_run node = (Ok r, a1) ∧ commit a1 = (Ok u, a2) ∧
    ∃ r' b1 u' b2, finalize_run (set_botanix (ab_botanix a2) node) = (Ok r', b1) ∧ commit b1 = (Ok u', b2) ∧
      ab_botanix b2 = ab_botanix a2.
Proof.
  destruct (ok_inv finalize_run node) as (r & a1 & Hf); [vm_compute; reflexivity|].
  destruct (ok_inv commit a1) as (u & a2 & Hc).
  { replace a1 with (finalize_run node).2 by (by rewrite Hf). vm_compute. reflexivity. }
  assert (a2 = (finalize_and_commit node).2) as Ha2.
  { unfold finalize_and_commit, sbind. rewrite Hf. by rewrite Hc. }
  exists r, a1, u, a2. split_and!; [exact Hf|exact Hc|].
  destruct (ok_inv finalize_run (set_botanix (ab_botanix a2) node)) as (r' & b1 & Hf').
  { rewrite Ha2. vm_compute. reflexivity. }
  destruct (ok_inv commit b1) as (u' & b2 & Hc').
  { replace b1 with (finalize_run (set_botanix (ab_botanix a2) node)).2 by (by rewrite Hf').
    rewrite Ha2. vm_compute. reflexivity. }
  exists r', b1, u', b2. split_and!; [exact Hf'|exact Hc'|].
  unfold finalize_run in Hf, Hf'.
  exact (proj1 (proj2 (commit_survives_crash (VE := ()) height_blocks config finalize_request node r a1 u a2
    (set_botanix (ab_botanix a2) node) r' b1 u' b2 node_faithful request_known Hf Hc eq_refl eq_refl
    (λ _, eq_refl) Hf' Hc'))).
Defined.

Lemma commit_records_backed_pegs_witness :
  ∃ r a1 u a2 staged, finalize_run node = (Ok r, a1) ∧ commit a1 = (Ok u, a2) ∧
    staged_headers (ab_botanix a2) = <[fz_app_hash r := staged]> ∅ ∧ length (hp_pegins staged) = 1%nat.
Proof.
  destruct (ok_inv finalize_run node) as (r & a1 & Hf); [vm_compute; reflexivity|].
  destruct (ok_inv commit a1) as (u & a2 & Hc).
  { replace a1 with (finalize_run node).2 by (by rewrite Hf). vm_compute. reflexivity. }
  assert (a2 = (finalize_and_commit node).2) as Ha2.
  { unfold finalize_and_commit, sbind. rewrite Hf. by rewrite Hc. }
  unfold finalize_run in Hf.
  destruct (commit_records_backed_pegs (VE := ()) height_blocks config finalize_request node r a1 u a2 rich
    node_faithful request_known) as (c & w & x & edh & pkg & pegins & _ & Hr & _ & _ & _ & Hs & _);
    [ |reflexivity|reflexivity|exact Hf|exact Hc|].
  { vm_compute. repeat constructor; discriminate. }
  eexists r, a1, u, a2, _. split_and!; [exact Hf|exact Hc|rewrite Hr; exact Hs|].
  assert (((λ e, length (hp_pegins e)) <$> (map_to_list (staged_headers (ab_botanix (finalize_and_commit node).2))).*2)
    = [1%nat]) as Hlen by (vm_compute; reflexivity).
  rewrite <-Ha2, Hs in Hlen. change (staged_headers (ab_botanix node)) with (∅ : gmap B256 HeaderWithPegs) in Hlen.
  rewrite insert_empty, map_to_list_singleton in Hlen. by injection Hlen.
Defined.
End AbciSample.
