(* ===== verification/Snapshots.v ===== *)
(** * Snapshots of the chain

    - [botanix-storage/src/models/snapshot.rs] and
      [provider/database/snapshot.rs]: snapshots, their chunks and the records of
      running synchronizations;
    - [consensus/authority/src/snapshot_manager.rs]: the manager that adds every
      block of the chain to the latest snapshot and drops old ones.

    A table is a finite map walked in the order of its keys.  Serialization of blocks
    ([botanix-data-parser] around [serde] and compression) is the class [DataParser], which
    [Serialization] implements; SHA-256 is [Sha256].  Every method of the storage is a transaction of its own. *)

From S2P Require Import Prelude Bitcoin Codec Headers Peg Mint ChainRules HeaderRules Execution.

Class DataParser `{!EthLib, !BlockLib} := {
  encode_block : BlockWithSenders → option bytes;
  decode_block : bytes → option BlockWithSenders;
  encode_blocks : list BlockWithSenders → option bytes;
  decode_blocks : bytes → option (list BlockWithSenders);
}.
Class Sha256 := sha256 : bytes → bytes.

(** ** Tables *)

Definition walk {A} (m : gmap Z A) : list (Z * A) := sort_by_key fst (map_to_list m).
Definition cursor_first {A} (m : gmap Z A) : option (Z * A) := head (walk m).
Definition cursor_last {A} (m : gmap Z A) : option (Z * A) := last (walk m).
Definition in_range (lo hi : Z) {A} (p : Z * A) : Prop := lo ≤ p.1 ≤ hi.
#[export] Instance in_range_dec lo hi {A} (p : Z * A) : Decision (in_range lo hi p) := _.
Definition walk_range {A} (lo hi : Z) (m : gmap Z A) : list (Z * A) :=
  filter (in_range lo hi) (walk m).
(** [BotanixDatabaseProvider::remove] *)
Definition remove_range {A} (lo hi : Z) (m : gmap Z A) : gmap Z A :=
  filter (λ p, ¬ in_range lo hi p) m.

(** ** Records *)

Record SnapshotChunk := mkChunk {
  ck_snapshot_id : Z;
  chunk_data : list bytes;
  starting_block_number : Z;
  ending_block_number : Z;
}.
Definition chunk_new (snapshot_id starting : Z) (data : bytes) : SnapshotChunk :=
  mkChunk snapshot_id [data] starting starting.
Definition append_chunk_data (data : bytes) (ending : Z) (c : SnapshotChunk) : SnapshotChunk :=
  mkChunk (ck_snapshot_id c) (chunk_data c ++ [data]) (starting_block_number c) ending.
(** Sizes are sums of lengths of data in memory, which [usize] holds. *)
Definition data_size (data : list bytes) : Z := zsum ((λ d, Z.of_nat (length d)) <$> data).
Definition chunk_size (c : SnapshotChunk) : Z := 8 + data_size (chunk_data c).

Record Snapshot := mkSnapshot {
  sn_id : Z;
  sn_height : Z;
  chunk_ids : list Z;
  block_ids : list Z;
  sn_block_hash : B256;
}.
Definition snapshot_default : Snapshot := mkSnapshot 0 0 [] [] (zeros 32).
Definition set_id (id : Z) (s : Snapshot) : Snapshot :=
  mkSnapshot id (sn_height s) (chunk_ids s) (block_ids s) (sn_block_hash s).
Definition set_height (h : Z) (s : Snapshot) : Snapshot :=
  mkSnapshot (sn_id s) h (chunk_ids s) (block_ids s) (sn_block_hash s).
Definition set_block_hash (h : B256) (s : Snapshot) : Snapshot :=
  mkSnapshot (sn_id s) (sn_height s) (chunk_ids s) (block_ids s) h.
Definition add_block_id_if_not_exists (b : Z) (s : Snapshot) : Snapshot :=
  if bool_decide (b ∈ block_ids s) then s
  else mkSnapshot (sn_id s) (sn_height s) (chunk_ids s) (block_ids s ++ [b]) (sn_block_hash s).
Definition add_chunk_id_if_not_exists (c : Z) (s : Snapshot) : Snapshot :=
  if bool_decide (c ∈ chunk_ids s) then s
  else mkSnapshot (sn_id s) (sn_height s) (chunk_ids s ++ [c]) (block_ids s) (sn_block_hash s).
Definition get_latest_chunk_id (s : Snapshot) : option Z := last (chunk_ids s).
Definition get_oldest_chunk_id (s : Snapshot) : option Z := head (chunk_ids s).
Definition snapshot_size (s : Snapshot) : Z :=
  8 + 32 + Z.of_nat (length (block_ids s)) * 8 + Z.of_nat (length (chunk_ids s)) * 8.
Definition get_hash `{!Sha256} (s : Snapshot) : bytes :=
  sha256 (to_le_bytes 8 (sn_id s) ++ to_le_bytes 8 (sn_height s)
          ++ (c ← chunk_ids s; to_le_bytes 8 c) ++ (b ← block_ids s; to_le_bytes 8 b)
          ++ sn_block_hash s).

Record SnapshotSync := mkSnapshotSync {
  sy_height : Z;
  sy_total_chunks : Z;
  sy_last_applied_chunk_index : Z;
  sy_snapshot_hash : B256;
  sy_format : Z;
}.
Definition snapshot_sync_new (height : Z) (hash : B256) (format total : Z) : SnapshotSync :=
  mkSnapshotSync height total 0 hash format.
Definition set_last_applied_chunk_index (i : Z) (s : SnapshotSync) : SnapshotSync :=
  mkSnapshotSync (sy_height s) (sy_total_chunks s) i (sy_snapshot_hash s) (sy_format s).

(** ** Storage *)

Record SnapshotDb := mkSnapshotDb {
  tb_snapshots : gmap Z Snapshot;
  tb_block_snapshots : gmap Z Z;
  tb_chunks : gmap Z SnapshotChunk;
  tb_chunk_blocks : gmap Z Z;
  tb_snapshot_syncs : gmap Z SnapshotSync;
}.
Definition empty_snapshot_db : SnapshotDb := mkSnapshotDb ∅ ∅ ∅ ∅ ∅.

(** In the order of their heights; snapshots of one height come in any order. *)
Definition get_snapshots (db : SnapshotDb) : list Snapshot :=
  sort_by_key sn_height ((walk (tb_snapshots db)).*2).
Definition get_snapshot_by_id (id : Z) (db : SnapshotDb) : option Snapshot := tb_snapshots db !! id.
Definition get_last_snapshot_sync_id (db : SnapshotDb) : option Z :=
  fst <$> cursor_last (tb_snapshot_syncs db).
Definition get_snapshot_sync_by_id (id : Z) (db : SnapshotDb) : option SnapshotSync :=
  tb_snapshot_syncs db !! id.
Definition get_chunk_by_id (id : Z) (db : SnapshotDb) : option SnapshotChunk := tb_chunks db !! id.
Definition get_chunk_size (id : Z) (db : SnapshotDb) : Z := from_option chunk_size 0 (tb_chunks db !! id).
Definition get_snapshot_id_by_block_id (b : Z) (db : SnapshotDb) : option Z := tb_block_snapshots db !! b.
Definition get_chunk_block_number (id : Z) (db : SnapshotDb) : option Z := tb_chunk_blocks db !! id.
Definition get_last_snapshot_height (db : SnapshotDb) : option (Z * Z) :=
  (λ p, (p.1, sn_height p.2)) <$> cursor_last (tb_snapshots db).
Definition get_first_snapshot_height (db : SnapshotDb) : option (Z * Z) :=
  (λ p, (p.1, sn_height p.2)) <$> cursor_first (tb_snapshots db).
Definition get_snapshot_size (id : Z) (db : SnapshotDb) : Z :=
  let '(size, ids) := from_option (λ s, (snapshot_size s, chunk_ids s)) (0, []) (tb_snapshots db !! id) in
  size + match head ids, last ids with
         | Some first, Some final => zsum ((λ p, chunk_size p.2) <$> walk_range first final (tb_chunks db))
         | _, _ => 0
         end.
Definition get_snapshots_count (db : SnapshotDb) : Z := Z.of_nat (length (walk (tb_snapshots db))).
Definition get_last_chunk_id (db : SnapshotDb) : option Z := fst <$> cursor_last (tb_chunks db).
Definition get_first_chunk_id (db : SnapshotDb) : option Z := fst <$> cursor_first (tb_chunks db).

Definition create_new_snapshot_sync (height : Z) (hash : B256) (total format : Z) (db : SnapshotDb) :
    Z * SnapshotDb :=
  let id := wrap64 (default 0 (get_last_snapshot_sync_id db) + 1) in
  (id, mkSnapshotDb (tb_snapshots db) (tb_block_snapshots db) (tb_chunks db) (tb_chunk_blocks db)
         (<[id := snapshot_sync_new height hash format total]> (tb_snapshot_syncs db))).
Definition create_new_snapshot (number : Z) (hash : B256) (db : SnapshotDb) : Z * SnapshotDb :=
  let id := wrap64 (from_option fst 0 (get_last_snapshot_height db) + 1) in
  let s := set_block_hash hash (set_height number (set_id id snapshot_default)) in
  (id, mkSnapshotDb (<[id := s]> (tb_snapshots db)) (<[number := id]> (tb_block_snapshots db))
         (tb_chunks db) (tb_chunk_blocks db) (tb_snapshot_syncs db)).
Definition create_new_chunk (snapshot_id number : Z) (data : bytes) (db : SnapshotDb) : Z * SnapshotDb :=
  let id := wrap64 (default 0 (get_last_chunk_id db) + 1) in
  (id, mkSnapshotDb (tb_snapshots db) (tb_block_snapshots db)
         (<[id := chunk_new snapshot_id number data]> (tb_chunks db))
         (<[id := number]> (tb_chunk_blocks db)) (tb_snapshot_syncs db)).
(** Panics on a chunk that does not exist. *)
Definition append_to_chunk {E : Type} (id number : Z) (data : bytes) (db : SnapshotDb) : result E SnapshotDb :=
  let? c := expect (get_chunk_by_id id db) in
  Ok (mkSnapshotDb (tb_snapshots db) (tb_block_snapshots db)
        (<[id := append_chunk_data data number c]> (tb_chunks db))
        (tb_chunk_blocks db) (tb_snapshot_syncs db)).
Definition update_snapshot (id number chunk_id : Z) (db : SnapshotDb) : SnapshotDb :=
  match tb_snapshots db !! id with
  | Some s =>
      let s := set_height number (add_chunk_id_if_not_exists chunk_id
                                    (add_block_id_if_not_exists number s)) in
      mkSnapshotDb (<[id := s]> (tb_snapshots db)) (tb_block_snapshots db) (tb_chunks db)
        (tb_chunk_blocks db) (tb_snapshot_syncs db)
  | None => db
  end.
Definition update_snapshot_sync (id : Z) (s : SnapshotSync) (db : SnapshotDb) : SnapshotDb :=
  mkSnapshotDb (tb_snapshots db) (tb_block_snapshots db) (tb_chunks db) (tb_chunk_blocks db)
    (<[id := s]> (tb_snapshot_syncs db)).
Definition insert_block_snapshot_id_mapping (number id : Z) (db : SnapshotDb) : SnapshotDb :=
  mkSnapshotDb (tb_snapshots db) (<[number := id]> (tb_block_snapshots db)) (tb_chunks db)
    (tb_chunk_blocks db) (tb_snapshot_syncs db).
Definition remove_block_snapshot_id_mapping (lo hi : Z) (db : SnapshotDb) : SnapshotDb :=
  mkSnapshotDb (tb_snapshots db) (remove_range lo hi (tb_block_snapshots db)) (tb_chunks db)
    (tb_chunk_blocks db) (tb_snapshot_syncs db).
Definition remove_snapshots (lo hi : Z) (db : SnapshotDb) : SnapshotDb :=
  if hi <? lo then db
  else mkSnapshotDb (remove_range lo hi (tb_snapshots db)) (tb_block_snapshots db) (tb_chunks db)
         (tb_chunk_blocks db) (tb_snapshot_syncs db).
Definition remove_chunks (lo hi : Z) (db : SnapshotDb) : SnapshotDb :=
  if hi <? lo then db
  else mkSnapshotDb (tb_snapshots db) (tb_block_snapshots db) (remove_range lo hi (tb_chunks db))
         (tb_chunk_blocks db) (tb_snapshot_syncs db).
Definition delete_chunks_in_blocks (lo hi : Z) (db : SnapshotDb) : SnapshotDb :=
  if hi <? lo then db
  else mkSnapshotDb (tb_snapshots db) (tb_block_snapshots db) (tb_chunks db)
         (remove_range lo hi (tb_chunk_blocks db)) (tb_snapshot_syncs db).
Definition remove_oldest_snapshot {E : Type} (db : SnapshotDb) : result E SnapshotDb :=
  match get_first_snapshot_height db with
  | Some (id, _) =>
      let? s := expect (get_snapshot_by_id id db) in
      let db := remove_snapshots id id db in
      match head (chunk_ids s), last (chunk_ids s) with
      | Some first, Some final => Ok (delete_chunks_in_blocks first final (remove_chunks first final db))
      | _, _ => Ok db
      end
  | None => Ok db
  end.

(** ** The manager *)

Definition SNAPSHOT_MESSAGE_FORMAT : Z := 1.
Definition SNAPSHOT_MESSAGE_FORMAT_TEST : Z := 2.
Record SnapshotSizeLimits := mkLimits { snapshot_max_size : Z; snapshot_chunk_size : Z }.
Definition SNAPSHOT_SIZE_LIMITS_TEST : SnapshotSizeLimits := mkLimits (1024 * 5) 1024.
Definition SNAPSHOT_SIZE_LIMITS_PROD : SnapshotSizeLimits :=
  mkLimits (1024 * 1024 * 15) (1024 * 1024 * 3).
Definition limits_of (format : Z) : SnapshotSizeLimits :=
  if format =? SNAPSHOT_MESSAGE_FORMAT then SNAPSHOT_SIZE_LIMITS_PROD
  else if format =? SNAPSHOT_MESSAGE_FORMAT_TEST then SNAPSHOT_SIZE_LIMITS_TEST
  else SNAPSHOT_SIZE_LIMITS_PROD.

Record SnapshotManagerConfig := mkManagerConfig {
  snapshots_to_keep : Z;
  snapshot_message_format : Z;
  enable_state_sync : bool;
  enable_historical_sync : bool;
}.
(** [SnapshotManagerStateLock]: what the manager works on, read by the application. *)
Record ManagerState := mkManagerState {
  ms_snapshot_id : Z;
  ms_block_id : Z;
  ms_is_syncing_history : bool;
}.
Definition manager_state_default : ManagerState := mkManagerState 0 0 false.

Inductive SnapshotManagerError :=
  | DataParserFailed | InvalidBlockHeightForSnapshot | TendermintFailed.

(** The storage and the shared state. *)
Record Store := mkStore { st_db : SnapshotDb; st_state : ManagerState }.
Definition with_db (db : SnapshotDb) (s : Store) : Store := mkStore db (st_state s).
Definition set_is_syncing_history (b : bool) (s : Store) : Store :=
  mkStore (st_db s) (mkManagerState (ms_snapshot_id (st_state s)) (ms_block_id (st_state s)) b).
Definition set_current (id number : Z) (s : Store) : Store :=
  mkStore (st_db s) (mkManagerState id number (ms_is_syncing_history (st_state s))).

(** A write that returns a value. *)
Definition swrite {E A : Type} (f : SnapshotDb → A * SnapshotDb) : SM Store E A := λ s,
  let '(a, db) := f (st_db s) in (Ok a, with_db db s).

Section manager.
Context `{!EthLib, !BlockLib, !DataParser}.
Context (cf : SnapshotManagerConfig).
Let limits := limits_of (snapshot_message_format cf).

Definition block_number (b : BlockWithSenders) : Z := h_number (eb_header (bws_block b)).
Definition block_hash_slow (b : BlockWithSenders) : B256 := hash_slow (eb_header (bws_block b)).

(** The snapshot a block goes to: the last one, or a new one. *)
Definition latest_snapshot (b : BlockWithSenders) : SM Store SnapshotManagerError Z :=
  let* s := sget in
  match get_last_snapshot_height (st_db s) with
  | Some (id, height) =>
      if negb (ms_is_syncing_history (st_state s)) && (block_number b <? height)
      then slift (Err InvalidBlockHeightForSnapshot) else sret id
  | None => swrite (create_new_snapshot (block_number b) (block_hash_slow b))
  end.
Definition snapshot_with_room (b : BlockWithSenders) (len id : Z) : SM Store SnapshotManagerError Z :=
  let* s := sget in
  if snapshot_max_size limits <? get_snapshot_size id (st_db s) + len
  then swrite (create_new_snapshot (block_number b) (block_hash_slow b)) else sret id.

(** The data goes to the latest chunk of the snapshot or to a new one. *)
Definition store_data (id number : Z) (data : bytes) : SM Store SnapshotManagerError Z :=
  let* s := sget in
  let* snapshot := slift (expect (get_snapshot_by_id id (st_db s))) in
  match get_latest_chunk_id snapshot with
  | Some chunk_id =>
      if snapshot_chunk_size limits <? get_chunk_size chunk_id (st_db s) + Z.of_nat (length data)
      then swrite (create_new_chunk id number data)
      else
        let* db := slift (append_to_chunk chunk_id number data (st_db s)) in
        smodify (with_db db) ;;*
        sret chunk_id
  | None => swrite (create_new_chunk id number data)
  end.

Definition process_block (b : BlockWithSenders) : SM Store SnapshotManagerError () :=
  let* data := slift (ok_or (encode_block b) DataParserFailed) in
  if bool_decide (data = []) then sret tt
  else
    let* id := latest_snapshot b in
    let* id := snapshot_with_room b (Z.of_nat (length data)) id in
    smodify (set_current id (block_number b)) ;;*
    let* chunk_id := store_data id (block_number b) data in
    smodify (λ s, with_db (update_snapshot id (block_number b) chunk_id (st_db s)) s) ;;*
    smodify (λ s, with_db (insert_block_snapshot_id_mapping (block_number b) id (st_db s)) s).

Definition apply_retention_policy : SM Store SnapshotManagerError () :=
  let* s := sget in
  if negb (ms_is_syncing_history (st_state s)) &&
     (snapshots_to_keep cf <? get_snapshots_count (st_db s))
  then match get_first_snapshot_height (st_db s) with
       | Some (_, oldest_height) =>
           if ms_block_id (st_state s) =? oldest_height then sret tt
           else
             let* db := slift (remove_oldest_snapshot (st_db s)) in
             smodify (with_db db)
       | None => sret tt
       end
  else sret tt.

(** ** The loop of the manager *)

(** Heights [lo..=hi]. *)
Definition heights (lo hi : Z) : list Z := (λ n, lo + Z.of_nat n) <$> seq 0 (Z.to_nat (hi - lo + 1)).

(** The blocks of the chain that are not in a snapshot yet. *)
Definition historical_heights (latest : Z) (db : SnapshotDb) : list Z :=
  let starting := wrap64 (from_option snd 0 (get_last_snapshot_height db) + 1) in
  let missing := saturating_sub latest starting in
  if missing =? 0 then [] else if enable_historical_sync cf then heights starting latest else [].

(** A block of the history that is missing or fails is skipped. *)
Definition process_historical (b : option BlockWithSenders) : SM Store SnapshotManagerError () := λ s,
  match b with
  | Some b => match process_block b s with
              | (Panic, s') => (Panic, s')
              | (_, s') => (Ok tt, s')
              end
  | None => (Ok tt, s)
  end.

Definition historical_sync (latest : Z) (block_at : Z → option BlockWithSenders) :
    SM Store SnapshotManagerError () :=
  let* s := sget in
  let starting := wrap64 (from_option snd 0 (get_last_snapshot_height (st_db s)) + 1) in
  if saturating_sub latest starting =? 0 then sret tt
  else
    smodify (set_is_syncing_history (enable_historical_sync cf)) ;;*
    sfor (historical_heights latest (st_db s)) (λ h, process_historical (block_at h)) ;;*
    smodify (set_is_syncing_history false).

(** A committed block, live; a failed block is skipped before old snapshots are dropped. *)
Definition on_commit (b : BlockWithSenders) : SM Store SnapshotManagerError () := λ s,
  match process_block b s with
  | (Ok _, s') => apply_retention_policy s'
  | (Err _, s') => (Ok tt, s')
  | (Panic, s') => (Panic, s')
  end.

(** [latest] is [None] when CometBFT cannot be reached.  The chain does not reorganise:
    the events are commits. *)
Definition run (latest : option Z) (block_at : Z → option BlockWithSenders)
    (events : list BlockWithSenders) : SM Store SnapshotManagerError () :=
  if negb (enable_state_sync cf) then sret tt
  else
    let* latest := slift (ok_or latest TendermintFailed) in
    historical_sync latest block_at ;;*
    sfor events on_commit.
End manager.
