(* ===== verification/SnapshotsTheory.v ===== *)
(** * Theorems about snapshots

    The storage refines an archive: a list of segments, one per snapshot, each a list of
    chunks, each a list of blocks.  [represents] relates the two; processing a block and
    dropping the oldest snapshot are steps of the archive. *)

From S2P Require Import Prelude Bitcoin Codec Headers Peg Mint ChainRules HeaderRules Execution Snapshots.

(** ** Tables *)

Section tables.
Context {A : Type}.
Implicit Types (l : list (Z * A)) (m : gmap Z A).

Definition sorted_keys l : Prop := StronglySorted Z.lt l.*1.

Lemma sorted_keys_nodup l : sorted_keys l → NoDup l.*1.
Proof.
  unfold sorted_keys. induction l.*1 as [|k ks IH]; intros Hs; [constructor|].
  apply StronglySorted_inv in Hs as [Hs Hk]. constructor; [|auto].
  intros Hin. rewrite Forall_forall in Hk. apply Hk in Hin. lia.
Qed.
Lemma sorted_keys_app l1 l2 : sorted_keys (l1 ++ l2) ↔
  (∀ x y, x ∈ l1.*1 → y ∈ l2.*1 → x < y) ∧ sorted_keys l1 ∧ sorted_keys l2.
Proof. unfold sorted_keys. rewrite fmap_app. apply StronglySorted_app. Qed.
Lemma sorted_keys_snoc l k (v w : A) : sorted_keys (l ++ [(k, v)]) → sorted_keys (l ++ [(k, w)]).
Proof. unfold sorted_keys. by rewrite !fmap_app. Qed.

Lemma walk_list_to_map l : sorted_keys l → walk (list_to_map l) = l.
Proof.
  intros Hs. pose proof (sorted_keys_nodup l Hs) as Hnd.
  assert (walk (list_to_map l) ≡ₚ l) as Hp.
  { unfold walk, sort_by_key. rewrite sort_by_perm. by apply map_to_list_to_map. }
  apply (StronglySorted_unique_strong (λ a b, a.1 ≤ b.1)); [|by apply sort_by_key_sorted| |done].
  - intros [k1 v1] [k2 v2] H1 H2 Hle1 Hle2. rewrite Hp in H1. simpl in *.
    assert (k1 = k2) as <- by lia. f_equal.
    apply (elem_of_list_to_map_1 (M := gmap Z)) in H1, H2; [congruence|done..].
  - clear Hp Hnd. unfold sorted_keys in Hs. induction l as [|x l IH]; [constructor|].
    apply StronglySorted_inv in Hs as [Hs Hx]. constructor; [auto|].
    apply Forall_forall. intros y Hy. rewrite Forall_forall in Hx.
    assert (x.1 < y.1); [|lia]. apply Hx. by apply list_elem_of_fmap_2.
Qed.

Lemma lookup_list_to_map l k v :
  sorted_keys l → (list_to_map l : gmap Z A) !! k = Some v ↔ (k, v) ∈ l.
Proof. intros Hs. symmetry. by apply elem_of_list_to_map, sorted_keys_nodup. Qed.
Lemma list_to_map_key l k : is_Some ((list_to_map l : gmap Z A) !! k) → k ∈ l.*1.
Proof.
  intros [v Hv]. destruct (decide (k ∈ l.*1)) as [|Hn]; [done|].
  apply not_elem_of_list_to_map in Hn. congruence.
Qed.
Lemma list_to_map_app_last l k v :
  k ∉ l.*1 → list_to_map (l ++ [(k, v)]) = <[k := v]> (list_to_map l : gmap Z A).
Proof. intros Hk. rewrite list_to_map_snoc; done. Qed.
Lemma list_to_map_update_last l k v w :
  sorted_keys (l ++ [(k, v)]) →
  <[k := w]> (list_to_map (l ++ [(k, v)]) : gmap Z A) = list_to_map (l ++ [(k, w)]).
Proof.
  intros Hs. assert (k ∉ l.*1) as Hk.
  { apply sorted_keys_app in Hs as (Hlt & _). intros Hin.
    assert (k < k); [apply Hlt; [done|simpl; set_solver]|lia]. }
  rewrite !list_to_map_app_last by done. by rewrite insert_insert_eq.
Qed.

Lemma list_filter_all (P : Z * A → Prop) `{!∀ x, Decision (P x)} l : Forall P l → filter P l = l.
Proof. induction 1; [done|]. rewrite filter_cons_True by done. by f_equal. Qed.
Lemma list_filter_none (P : Z * A → Prop) `{!∀ x, Decision (P x)} l :
  Forall (λ x, ¬ P x) l → filter P l = [].
Proof. induction 1; [done|]. by rewrite filter_cons_False. Qed.

(** A range that covers exactly a segment of the table. *)
Lemma in_range_segment l lo hi k v :
  sorted_keys l → head l.*1 = Some lo → last l.*1 = Some hi → (k, v) ∈ l → lo ≤ k ≤ hi.
Proof.
  unfold sorted_keys. intros Hs Hh Hl Hin.
  assert (k ∈ l.*1) as Hk by (apply list_elem_of_fmap; by exists (k, v)).
  clear Hin. revert Hs Hh Hl Hk. generalize l.*1 as ks. intros ks Hs Hh Hl Hk. split.
  - destruct ks as [|x ks]; [done|]. simplify_eq/=. apply StronglySorted_inv in Hs as [_ Hs].
    apply elem_of_cons in Hk as [->|Hk]; [lia|]. rewrite Forall_forall in Hs. apply Hs in Hk. lia.
  - apply last_Some in Hl as [ks' ->]. apply StronglySorted_app in Hs as (Hlt & _ & _).
    apply elem_of_app in Hk as [Hk|Hk]; [|apply list_elem_of_singleton in Hk; lia].
    assert (k < hi); [apply Hlt; [done|left]|lia].
Qed.
Lemma not_in_range_segment l1 l2 l3 lo hi k v :
  sorted_keys (l1 ++ l2 ++ l3) → head l2.*1 = Some lo → last l2.*1 = Some hi →
  (k, v) ∈ l1 ++ l3 → ¬ (lo ≤ k ≤ hi).
Proof.
  intros Hs Hh Hl Hin. apply sorted_keys_app in Hs as (H1 & _ & H23).
  apply sorted_keys_app in H23 as (H2 & _ & _). rewrite fmap_app in H1.
  assert (lo ∈ l2.*1) as Hlo by (destruct l2 as [|[? ?] ?]; simplify_eq/=; left).
  assert (hi ∈ l2.*1) as Hhi by (apply last_Some in Hl as [? ->]; set_solver).
  apply elem_of_app in Hin as [Hin|Hin]; apply (list_elem_of_fmap_2 fst) in Hin; simpl in Hin.
  - assert (k < lo); [apply H1; [done|set_solver]|lia].
  - specialize (H2 hi k Hhi Hin). lia.
Qed.

Lemma walk_range_segment l1 l2 l3 lo hi :
  sorted_keys (l1 ++ l2 ++ l3) → head l2.*1 = Some lo → last l2.*1 = Some hi →
  walk_range lo hi (list_to_map (l1 ++ l2 ++ l3)) = l2.
Proof.
  intros Hs Hh Hl. unfold walk_range. rewrite walk_list_to_map by done.
  assert (∀ l k v, (k, v) ∈ l → l = l1 ∨ l = l3 → ¬ in_range lo hi (k, v)) as Hout.
  { intros l k v Hin Hor. apply (not_in_range_segment l1 l2 l3 lo hi k v Hs Hh Hl).
    destruct Hor as [-> | ->]; set_solver. }
  apply sorted_keys_app in Hs as (_ & _ & Hs). apply sorted_keys_app in Hs as (_ & Hs & _).
  rewrite !filter_app, (list_filter_all (in_range lo hi) l2).
  2:{ apply Forall_forall. intros [k v] Hin. by apply (in_range_segment l2 lo hi k v). }
  rewrite !list_filter_none by (apply Forall_forall; intros [k v] Hin; eauto).
  by rewrite app_nil_r.
Qed.

Lemma remove_range_segment l1 l2 l3 lo hi :
  sorted_keys (l1 ++ l2 ++ l3) → head l2.*1 = Some lo → last l2.*1 = Some hi →
  remove_range lo hi (list_to_map (l1 ++ l2 ++ l3)) = list_to_map (l1 ++ l3).
Proof.
  intros Hs Hh Hl.
  assert (sorted_keys (l1 ++ l3)) as Hs'.
  { apply sorted_keys_app in Hs as (H1 & Hs1 & H23). apply sorted_keys_app in H23 as (_ & _ & H3).
    apply sorted_keys_app. split_and!; [|done|done]. intros x y Hx Hy. apply H1; [done|].
    rewrite fmap_app. set_solver. }
  apply map_eq. intros k. apply option_eq. intros v. unfold remove_range.
  rewrite map_lookup_filter_Some, !lookup_list_to_map by done. split.
  - intros [Hin Hout]. assert (∀ v', (k, v') ∉ l2) as H2.
    { intros v' Hin'. apply Hout. apply sorted_keys_app in Hs as (_ & _ & Hs).
      apply sorted_keys_app in Hs as (_ & Hs & _). by apply (in_range_segment l2 lo hi k v'). }
    set_solver.
  - intros Hin. split; [set_solver|]. by apply (not_in_range_segment l1 l2 l3 lo hi k v Hs Hh Hl).
Qed.
End tables.

(** ** The archive *)

Section archive.
Context `{!EthLib, !BlockLib, !DataParser}.

Abbreviation Archive := (list (list (list BlockWithSenders))).
Definition archived_blocks (a : Archive) : list BlockWithSenders := mjoin (mjoin a).

(** The bytes the manager counts. *)
Definition encoded_len (b : BlockWithSenders) : Z := Z.of_nat (length (default [] (encode_block b))).
Definition chunk_bytes (ch : list BlockWithSenders) : Z := 8 + zsum (encoded_len <$> ch).
Definition segment_bytes (seg : list (list BlockWithSenders)) : Z :=
  40 + 8 * Z.of_nat (length (mjoin seg)) + 8 * Z.of_nat (length seg) + zsum (chunk_bytes <$> seg).

(** What adding a block does: it joins the last chunk, opens a chunk or opens a snapshot;
    the first block, when it is larger than a snapshot may be, leaves an empty one. *)
Inductive archive_step (limits : SnapshotSizeLimits) (b : BlockWithSenders) : Archive → Archive → Prop :=
  | step_append pre seg ch :
      segment_bytes (seg ++ [ch]) + encoded_len b ≤ snapshot_max_size limits →
      chunk_bytes ch + encoded_len b ≤ snapshot_chunk_size limits →
      archive_step limits b (pre ++ [seg ++ [ch]]) (pre ++ [seg ++ [ch ++ [b]]])
  | step_chunk pre seg :
      segment_bytes seg + encoded_len b ≤ snapshot_max_size limits →
      archive_step limits b (pre ++ [seg]) (pre ++ [seg ++ [[b]]])
  | step_snapshot a : archive_step limits b a (a ++ [[[b]]])
  | step_oversized :
      snapshot_max_size limits < 40 + encoded_len b → archive_step limits b [] [[]; [[b]]].

Lemma archive_step_blocks limits b a a' :
  archive_step limits b a a' → archived_blocks a' = archived_blocks a ++ [b].
Proof.
  unfold archived_blocks. destruct 1; simpl; try done;
    repeat (rewrite ?join_app; simpl; rewrite ?app_nil_r, <-?app_assoc); done.
Qed.

(** ** What the storage holds *)

(** A snapshot under its key, with its chunks under theirs. *)
Abbreviation Group := (Z * Snapshot * list (Z * SnapshotChunk))%type.

Record stores (gs : list Group) (db : SnapshotDb) : Prop := {
  sto_snapshots : tb_snapshots db = list_to_map gs.*1;
  sto_chunks : tb_chunks db = list_to_map (mjoin gs.*2);
  sto_snapshot_keys : sorted_keys gs.*1;
  sto_chunk_keys : sorted_keys (mjoin gs.*2);
  sto_positive : Forall (λ k, 0 < k) (gs.*1.*1 ++ (mjoin gs.*2).*1);
}.

Definition holds_chunk (ch : list BlockWithSenders) (c : Z * SnapshotChunk) : Prop :=
  mapM encode_block ch = Some (chunk_data c.2).
Record holds_segment (db : SnapshotDb) (seg : list (list BlockWithSenders)) (g : Group) : Prop := {
  hs_chunk_ids : chunk_ids g.1.2 = g.2.*1;
  hs_chunks : Forall2 holds_chunk seg g.2;
  hs_block_ids : block_ids g.1.2 = block_number <$> mjoin seg;
  hs_height b : last (mjoin seg) = Some b →
    sn_height g.1.2 = block_number b ∧ tb_block_snapshots db !! block_number b = Some g.1.1;
}.
Definition represents_as (gs : list Group) (a : Archive) (db : SnapshotDb) : Prop :=
  stores gs db ∧ Forall2 (holds_segment db) a gs.
Definition represents (a : Archive) (db : SnapshotDb) : Prop := ∃ gs, represents_as gs a db.

(** Every archived block is below the next one. *)
Definition fresh (n : Z) (a : Archive) : Prop := Forall (λ b, block_number b < n) (archived_blocks a).
(** Identifiers are left. *)
Definition has_room (db : SnapshotDb) : Prop :=
  (∀ k, is_Some (tb_snapshots db !! k) → k < u64_max - 1) ∧
  (∀ k, is_Some (tb_chunks db !! k) → k < u64_max).

Lemma encoded_len_sum ch c :
  holds_chunk ch c → zsum (encoded_len <$> ch) = data_size (chunk_data c.2).
Proof.
  unfold holds_chunk, data_size. generalize (chunk_data c.2). induction ch as [|b ch IH]; intros ds Hm.
  - by injection Hm as <-.
  - simpl in Hm. apply bind_Some in Hm as (d & Hd & Hm). apply bind_Some in Hm as (ds' & Hm & [= <-]).
    rewrite !fmap_cons, !zsum_cons, (IH _ Hm). unfold encoded_len. by rewrite Hd.
Qed.
Lemma chunk_bytes_size ch c : holds_chunk ch c → chunk_bytes ch = chunk_size c.2.
Proof. intros Hc. unfold chunk_bytes, chunk_size. by rewrite (encoded_len_sum ch c Hc). Qed.

Lemma stores_lookup gs db g :
  stores gs db → g ∈ gs → tb_snapshots db !! g.1.1 = Some g.1.2.
Proof.
  intros [Hs _ Hk _ _] Hg. rewrite Hs. apply lookup_list_to_map; [done|].
  apply list_elem_of_fmap. exists g. by destruct g as [[??]?].
Qed.
Lemma stores_chunk_lookup gs db g c :
  stores gs db → g ∈ gs → c ∈ g.2 → tb_chunks db !! c.1 = Some c.2.
Proof.
  intros [_ Hc _ Hk _] Hg Hin. rewrite Hc. apply lookup_list_to_map; [done|].
  apply list_elem_of_join. exists g.2. split; [by destruct c|]. by apply list_elem_of_fmap_2.
Qed.

Lemma last_snapshot gs g db :
  stores (gs ++ [g]) db → get_last_snapshot_height db = Some (g.1.1, sn_height g.1.2).
Proof.
  intros [Hs _ Hk _ _]. unfold get_last_snapshot_height, cursor_last.
  rewrite Hs, walk_list_to_map by done. rewrite fmap_app. simpl. by rewrite last_snoc.
Qed.
Lemma no_snapshot db : stores [] db → get_last_snapshot_height db = None.
Proof. intros [Hs _ _ _ _]. unfold get_last_snapshot_height, cursor_last. by rewrite Hs. Qed.
Lemma last_chunk gs db :
  stores gs db → get_last_chunk_id db = last (mjoin gs.*2).*1.
Proof.
  intros [_ Hc _ Hk _]. unfold get_last_chunk_id, cursor_last.
  rewrite Hc, walk_list_to_map by done. by rewrite fmap_last.
Qed.

Lemma last_snapshot_size gs g a seg db :
  represents_as (gs ++ [g]) (a ++ [seg]) db → get_snapshot_size g.1.1 db = segment_bytes seg.
Proof.
  intros [Hst Hall]. apply Forall2_app_inv_r in Hall as (a' & l' & _ & Hl & Heq).
  apply Forall2_cons_inv_r in Hl as (seg' & ? & Hseg & Hnil & ->).
  apply Forall2_nil_inv_r in Hnil as ->. apply app_inj_tail in Heq as [_ <-].
  unfold get_snapshot_size. rewrite (stores_lookup (gs ++ [g]) db g Hst) by set_solver. simpl.
  destruct Hseg as [Hids Hch Hbs _].
  assert (zsum (chunk_bytes <$> seg) = zsum ((λ c, chunk_size c.2) <$> g.2)) as Hsum.
  { clear -Hch. induction Hch as [|ch c seg cs Hc _ IH]; [done|].
    by rewrite !fmap_cons, !zsum_cons, IH, (chunk_bytes_size ch c Hc). }
  assert (match head (chunk_ids g.1.2), last (chunk_ids g.1.2) with
          | Some lo, Some hi => zsum ((λ p, chunk_size p.2) <$> walk_range lo hi (tb_chunks db))
          | _, _ => 0 end = zsum (chunk_bytes <$> seg)) as ->.
  { rewrite Hids. destruct (head g.2.*1) as [lo|] eqn:Hlo, (last g.2.*1) as [hi|] eqn:Hhi.
    - rewrite (sto_chunks _ _ Hst), fmap_app, join_app. simpl. rewrite Hsum.
      rewrite (walk_range_segment (mjoin gs.*2) g.2 [] lo hi); [done| |done|done].
      pose proof (sto_chunk_keys _ _ Hst) as Hk. rewrite fmap_app, join_app in Hk. done.
    - rewrite Hsum. apply last_None in Hhi. apply fmap_nil_inv in Hhi as ->. done.
    - rewrite Hsum. apply head_None in Hlo. apply fmap_nil_inv in Hlo as ->. done.
    - rewrite Hsum. apply head_None in Hlo. apply fmap_nil_inv in Hlo as ->. done. }
  unfold segment_bytes, snapshot_size. rewrite Hbs, Hids, !length_fmap.
  rewrite (Forall2_length _ _ _ Hch). lia.
Qed.

Lemma holds_segment_mapping db db' seg g :
  holds_segment db seg g →
  (∀ b, last (mjoin seg) = Some b →
        tb_block_snapshots db' !! block_number b = tb_block_snapshots db !! block_number b) →
  holds_segment db' seg g.
Proof.
  intros [Hi Hc Hb Hh] Hm. split; [done..|]. intros b Hl. rewrite (Hm b Hl). by apply Hh.
Qed.
(** A mapping for a fresh number leaves the other segments alone. *)
Lemma holds_fresh db db' n id a gs :
  tb_block_snapshots db' = <[n := id]> (tb_block_snapshots db) → fresh n a →
  Forall2 (holds_segment db) a gs → Forall2 (holds_segment db') a gs.
Proof.
  intros Hm Hf Hall. induction Hall as [|seg g a gs Hsg _ IH]; [constructor|].
  unfold fresh, archived_blocks in Hf. simpl in Hf. rewrite join_app, Forall_app in Hf.
  destruct Hf as [Hf Hf']. constructor; [|by apply IH]. apply (holds_segment_mapping db); [done|].
  intros b Hl. rewrite Hm, lookup_insert_ne; [done|]. rewrite Forall_forall in Hf.
  apply last_Some_elem_of, Hf in Hl. lia.
Qed.

(** The identifier after the last key of a table. *)
Lemma next_key {A} (l : list (Z * A)) (max : Z) :
  sorted_keys l → Forall (λ k, 0 < k) l.*1 →
  (∀ k, is_Some ((list_to_map l : gmap Z A) !! k) → k < max) → max ≤ u64_max →
  let id := wrap64 (default 0 (last l.*1) + 1) in
  0 < id ∧ id ≤ Z.max 1 max ∧ ∀ k, k ∈ l.*1 → k < id.
Proof.
  intros Hs Hpos Hmax Hle. simpl. destruct (last l.*1) as [hi|] eqn:Hl; simpl.
  - pose proof (last_Some_elem_of _ _ Hl) as Hin.
    assert (0 < hi < max) as Hhi.
    { split; [by rewrite Forall_forall in Hpos; apply Hpos|]. apply Hmax.
      apply list_elem_of_fmap in Hin as ([k v] & -> & Hin). exists v. by apply lookup_list_to_map. }
    rewrite wrap64_small by lia. split_and!; [lia..|].
    intros k Hk. apply list_elem_of_fmap in Hk as ([k' v] & -> & Hk).
    destruct (head l.*1) as [lo|] eqn:Hh;
      [|apply head_None in Hh; apply fmap_nil_inv in Hh as ->; by apply not_elem_of_nil in Hk].
    pose proof (in_range_segment l lo hi k' v Hs Hh Hl Hk). simpl. lia.
  - rewrite wrap64_small by (unfold u64_max in *; lia). split_and!; [lia..|].
    apply last_None in Hl. rewrite Hl. intros k Hk. by apply not_elem_of_nil in Hk.
Qed.

Lemma sorted_keys_extend {A} (l : list (Z * A)) k v :
  sorted_keys l → (∀ k', k' ∈ l.*1 → k' < k) → sorted_keys (l ++ [(k, v)]).
Proof.
  intros Hs Hk. apply sorted_keys_app. split_and!; [|done|].
  - intros x y Hx Hy. simpl in Hy. apply list_elem_of_singleton in Hy as ->. by apply Hk.
  - unfold sorted_keys. simpl. repeat constructor.
Qed.

Lemma last_snapshot_key gs db :
  stores gs db → from_option fst 0 (get_last_snapshot_height db) = default 0 (last gs.*1.*1).
Proof.
  intros Hst. destruct gs as [|g gs _] using rev_ind; [by rewrite no_snapshot|].
  rewrite (last_snapshot gs g db Hst), !fmap_app. simpl. by rewrite last_snoc.
Qed.

Lemma create_snapshot_represents gs a db n h :
  represents_as gs a db → fresh n a → (∀ k, is_Some (tb_snapshots db !! k) → k < u64_max) →
  ∃ id s db', create_new_snapshot n h db = (id, db') ∧
    represents_as (gs ++ [(id, s, [])]) (a ++ [[]]) db' ∧ tb_chunks db' = tb_chunks db ∧
    ∀ k, is_Some (tb_snapshots db' !! k) → k = id ∨ is_Some (tb_snapshots db !! k).
Proof.
  intros [Hst Hall] Hf Hmax. destruct Hst as [Hs Hc Hsk Hck Hpos] eqn:E. rewrite Hs in Hmax.
  pose proof (proj1 (Forall_app _ _ _) Hpos) as [Hp1 Hp2].
  pose proof (next_key gs.*1 u64_max Hsk Hp1 Hmax ltac:(lia)) as (Hid & _ & Hlt).
  unfold create_new_snapshot. rewrite (last_snapshot_key gs db) by done.
  set (id := wrap64 _) in *. clearbody id. eexists id, _, _. split; [reflexivity|].
  assert (id ∉ gs.*1.*1) as Hnew by (intros Hin; apply Hlt in Hin; lia). split_and!; simpl.
  - split.
    + split; simpl; rewrite ?fmap_app; simpl.
      * by rewrite Hs, list_to_map_app_last.
      * by rewrite join_app, app_nil_r.
      * by apply sorted_keys_extend.
      * by rewrite join_app, app_nil_r.
      * rewrite join_app, fmap_app. simpl. rewrite app_nil_r.
        rewrite !Forall_app. split_and!; [done| |done]. by repeat constructor.
    + apply Forall2_app.
      * by eapply holds_fresh; [| |exact Hall].
      * constructor; [|constructor]. by split; simpl.
  - done.
  - intros k [v Hv]. destruct (decide (k = id)) as [->|Hne]; [by left|right].
    rewrite lookup_insert_ne in Hv by done. by exists v.
Qed.

(** The last snapshot once its chunks hold a block more. *)
Lemma put_block gs id s cs a seg db b cs' seg' cid db1 :
  represents_as (gs ++ [(id, s, cs)]) (a ++ [seg]) db → fresh (block_number b) (a ++ [seg]) →
  tb_snapshots db1 = tb_snapshots db → tb_block_snapshots db1 = tb_block_snapshots db →
  tb_chunks db1 = list_to_map (mjoin gs.*2 ++ cs') → sorted_keys (mjoin gs.*2 ++ cs') →
  Forall (λ k, 0 < k) (mjoin gs.*2 ++ cs').*1 →
  Forall2 holds_chunk seg' cs' → mjoin seg' = mjoin seg ++ [b] →
  chunk_ids (add_chunk_id_if_not_exists cid s) = cs'.*1 →
  ∃ s', represents_as (gs ++ [(id, s', cs')]) (a ++ [seg'])
          (insert_block_snapshot_id_mapping (block_number b) id
             (update_snapshot id (block_number b) cid db1)).
Proof.
  intros [Hst Hall] Hf Hs1 Hb1 Hc1 Hck Hcp Hch Hj Hids.
  pose proof (stores_lookup _ _ (id, s, cs) Hst ltac:(set_solver)) as Hs. simpl in Hs.
  destruct Hst as [Hsn _ Hsk _ Hpos]. rewrite fmap_app in Hsn, Hsk, Hpos. simpl in Hsn, Hsk, Hpos.
  apply Forall2_app_inv_r in Hall as (a' & l' & Hall & Hl & Heq).
  apply Forall2_cons_inv_r in Hl as (seg0 & ? & Hseg & Hnil & ->).
  apply Forall2_nil_inv_r in Hnil as ->. apply app_inj_tail in Heq as [-> ->].
  pose proof (hs_block_ids _ _ _ Hseg) as Hbids. simpl in Hbids.
  assert (block_number b ∉ block_ids s) as Hnew.
  { rewrite Hbids. intros Hin. apply list_elem_of_fmap in Hin as (b' & Heq & Hin).
    unfold fresh, archived_blocks in Hf. rewrite !join_app, Forall_app in Hf.
    destruct Hf as [_ Hf]. simpl in Hf. rewrite app_nil_r in Hf.
    rewrite Forall_forall in Hf. apply Hf in Hin. lia. }
  unfold update_snapshot. rewrite Hs1, Hs. eexists. split; [split|]; simpl; rewrite ?fmap_app; simpl.
  - rewrite Hsn. by rewrite list_to_map_update_last.
  - rewrite join_app. simpl. by rewrite app_nil_r.
  - by eapply sorted_keys_snoc.
  - rewrite join_app. simpl. by rewrite app_nil_r.
  - rewrite join_app. simpl. rewrite app_nil_r. rewrite fmap_app in Hpos. simpl in Hpos.
    rewrite Forall_app in Hpos |- *. by destruct Hpos.
  - apply Forall2_app.
    + eapply holds_fresh; [simpl; by rewrite Hb1| |exact Hall].
      unfold fresh, archived_blocks in *. rewrite !join_app, Forall_app in Hf. by destruct Hf.
    + constructor; [|constructor]. split; simpl.
      * rewrite <-Hids. unfold add_chunk_id_if_not_exists, add_block_id_if_not_exists.
        rewrite (bool_decide_false (block_number b ∈ _)) by done. simpl. by case_bool_decide.
      * done.
      * rewrite Hj, fmap_app. simpl. unfold add_chunk_id_if_not_exists, add_block_id_if_not_exists.
        rewrite (bool_decide_false (block_number b ∈ _)) by done.
        by case_bool_decide; simpl; rewrite Hbids.
      * intros b' Hl. rewrite Hj, last_snoc in Hl. injection Hl as <-.
        split; [done|]. by rewrite lookup_insert_eq.
Qed.

Definition adds_block (limits : SnapshotSizeLimits) (b : BlockWithSenders)
    (seg seg' : list (list BlockWithSenders)) : Prop :=
  (∃ seg0 ch, seg = seg0 ++ [ch] ∧ seg' = seg0 ++ [ch ++ [b]] ∧
              chunk_bytes ch + encoded_len b ≤ snapshot_chunk_size limits) ∨
  seg' = seg ++ [[b]].

Lemma holds_new_chunk b data k id n :
  encode_block b = Some data → holds_chunk [b] (k, chunk_new id n data).
Proof. intros Hd. unfold holds_chunk. simpl. by rewrite Hd. Qed.
Lemma holds_appended ch c b data n :
  holds_chunk ch c → encode_block b = Some data →
  holds_chunk (ch ++ [b]) (c.1, append_chunk_data data n c.2).
Proof.
  unfold holds_chunk. simpl. rewrite !mapM_Some. intros Hc Hd. apply Forall2_app; [done|].
  by repeat constructor.
Qed.

Lemma new_chunk_represents gs id s cs a seg db b data :
  represents_as (gs ++ [(id, s, cs)]) (a ++ [seg]) db → fresh (block_number b) (a ++ [seg]) →
  (∀ k, is_Some (tb_chunks db !! k) → k < u64_max) → encode_block b = Some data →
  ∃ cid db', create_new_chunk id (block_number b) data db = (cid, db') ∧
    represents (a ++ [seg ++ [[b]]])
      (insert_block_snapshot_id_mapping (block_number b) id
         (update_snapshot id (block_number b) cid db')).
Proof.
  intros Hrep Hf Hmax Hd. pose proof Hrep as [Hst Hall].
  unfold create_new_chunk. rewrite (last_chunk _ db Hst).
  destruct Hst as [Hsn Hc Hsk Hck Hpos]. apply Forall_app in Hpos as [_ Hpos]. rewrite Hc in Hmax.
  pose proof (next_key _ u64_max Hck Hpos Hmax ltac:(lia)) as (Hid & _ & Hlt).
  rewrite fmap_app, join_app in *. simpl in *. rewrite app_nil_r in *.
  set (cid := wrap64 _) in *. clearbody cid. eexists cid, _. split; [reflexivity|].
  assert (cid ∉ (mjoin gs.*2 ++ cs).*1) as Hnew by (intros Hin; apply Hlt in Hin; lia).
  apply Forall2_app_inv in Hall as [_ Hseg].
  2:{ apply Forall2_length in Hall. rewrite !length_app in Hall. simpl in Hall. lia. }
  apply Forall2_cons in Hseg as [[Hids Hch _ _] _]. simpl in *.
  match goal with |- represents _ (insert_block_snapshot_id_mapping _ _ (update_snapshot _ _ _ ?db1)) =>
    destruct (put_block gs id s cs a seg db b (cs ++ [(cid, chunk_new id (block_number b) data)])
                (seg ++ [[b]]) cid db1 Hrep Hf eq_refl eq_refl) as [s' Hs']; [..|by eexists]; simpl
  end.
  - by rewrite Hc, app_assoc, list_to_map_app_last.
  - rewrite app_assoc. by apply sorted_keys_extend.
  - rewrite app_assoc, fmap_app. apply Forall_app. by repeat constructor.
  - apply Forall2_app; [done|]. constructor; [by apply holds_new_chunk|constructor].
  - rewrite join_app. done.
  - unfold add_chunk_id_if_not_exists. rewrite bool_decide_false; simpl.
    + by rewrite Hids, fmap_app.
    + rewrite Hids. rewrite fmap_app in Hnew. set_solver.
Qed.

Lemma appended_represents gs id s cs c a seg ch db b data :
  represents_as (gs ++ [(id, s, cs ++ [c])]) (a ++ [seg ++ [ch]]) db →
  fresh (block_number b) (a ++ [seg ++ [ch]]) → encode_block b = Some data →
  ∃ db', append_to_chunk (E := SnapshotManagerError) c.1 (block_number b) data db = Ok db' ∧
    represents (a ++ [seg ++ [ch ++ [b]]])
      (insert_block_snapshot_id_mapping (block_number b) id
         (update_snapshot id (block_number b) c.1 db')).
Proof.
  intros Hrep Hf Hd. pose proof Hrep as [Hst Hall].
  pose proof (stores_chunk_lookup _ _ (id, s, cs ++ [c]) c Hst ltac:(set_solver) ltac:(set_solver)) as Hl.
  unfold append_to_chunk, get_chunk_by_id. rewrite Hl. simpl. eexists. split; [reflexivity|].
  destruct Hst as [Hsn Hc Hsk Hck Hpos]. apply Forall_app in Hpos as [_ Hpos].
  rewrite fmap_app, join_app in *. simpl in *. rewrite app_nil_r in *.
  apply Forall2_app_inv in Hall as [_ Hseg].
  2:{ apply Forall2_length in Hall. rewrite !length_app in Hall. simpl in Hall. lia. }
  apply Forall2_cons in Hseg as [[Hids Hch _ _] _]. simpl in *.
  pose proof (Forall2_length _ _ _ Hch) as Hlen. rewrite !length_app in Hlen. simpl in Hlen.
  apply Forall2_app_inv in Hch as [Hch Hc1]; [|lia]. apply Forall2_cons in Hc1 as [Hc1 _].
  match goal with |- represents _ (insert_block_snapshot_id_mapping _ _ (update_snapshot _ _ _ ?db1)) =>
    destruct (put_block gs id s (cs ++ [c]) a (seg ++ [ch]) db b
                (cs ++ [(c.1, append_chunk_data data (block_number b) c.2)])
                (seg ++ [ch ++ [b]]) c.1 db1 Hrep Hf eq_refl eq_refl) as [s' Hs']; [..|by eexists]; simpl
  end.
  - destruct c as [k v]. rewrite Hc, !app_assoc. simpl. apply list_to_map_update_last.
    by rewrite <-app_assoc.
  - destruct c as [k v]. rewrite app_assoc in Hck |- *. by eapply sorted_keys_snoc.
  - rewrite !fmap_app in *. simpl in *. done.
  - apply Forall2_app; [done|]. constructor; [by apply holds_appended|constructor].
  - rewrite !join_app. simpl. by rewrite !app_nil_r, app_assoc.
  - unfold add_chunk_id_if_not_exists. rewrite bool_decide_true; simpl.
    + rewrite Hids, !fmap_app. done.
    + rewrite Hids, fmap_app. set_solver.
Qed.

Context (cf : SnapshotManagerConfig).
Let limits := limits_of (snapshot_message_format cf).

Lemma store_data_represents gs id s cs a seg b data st :
  represents_as (gs ++ [(id, s, cs)]) (a ++ [seg]) (st_db st) →
  fresh (block_number b) (a ++ [seg]) →
  (∀ k, is_Some (tb_chunks (st_db st) !! k) → k < u64_max) → encode_block b = Some data →
  ∃ cid db' seg', store_data cf id (block_number b) data st = (Ok cid, with_db db' st) ∧
    adds_block limits b seg seg' ∧
    represents (a ++ [seg']) (insert_block_snapshot_id_mapping (block_number b) id
                                (update_snapshot id (block_number b) cid db')).
Proof.
  intros Hrep Hf Hmax Hd. pose proof Hrep as [Hst Hall].
  pose proof (stores_lookup _ _ (id, s, cs) Hst ltac:(set_solver)) as Hs. simpl in Hs.
  apply Forall2_app_inv in Hall as [_ Hseg].
  2:{ apply Forall2_length in Hall. rewrite !length_app in Hall. simpl in Hall. lia. }
  apply Forall2_cons in Hseg as [[Hids Hch _ _] _]. simpl in *.
  destruct (new_chunk_represents _ _ _ _ _ _ _ _ _ Hrep Hf Hmax Hd) as (cid & db' & Hnew & Hrep').
  assert (swrite (create_new_chunk id (block_number b) data) st
          = (Ok (E := SnapshotManagerError) cid, with_db db' st)) as Hw
    by (unfold swrite; by rewrite Hnew).
  unfold store_data, sbind, sget, slift, get_snapshot_by_id, get_latest_chunk_id.
  rewrite Hs. simpl. rewrite Hids. destruct cs as [|c cs _] using rev_ind; simpl.
  { exists cid, db', (seg ++ [[b]]). split_and!; [done|by right|done]. }
  rewrite fmap_app. simpl. rewrite last_snoc. apply Forall2_app_inv_r in Hch as (seg0 & l & Hch & Hl & ->).
  apply Forall2_cons_inv_r in Hl as (ch & ? & Hc & Hnil & ->). apply Forall2_nil_inv_r in Hnil as ->.
  unfold get_chunk_size.
  rewrite (stores_chunk_lookup _ _ (id, s, cs ++ [c]) c Hst) by set_solver. simpl.
  case_match eqn:Hlim.
  { exists cid, db', ((seg0 ++ [ch]) ++ [[b]]). split_and!; [done|by right|done]. }
  destruct (appended_represents gs id s cs c a seg0 ch _ b data Hrep Hf Hd) as (db2 & -> & Hrep2).
  exists c.1, db2, (seg0 ++ [ch ++ [b]]). split_and!; [done| |done].
  left. exists seg0, ch. split_and!; [done..|]. rewrite (chunk_bytes_size ch c Hc).
  unfold encoded_len. rewrite Hd. simpl. apply Z.ltb_ge in Hlim. done.
Qed.

Lemma adds_block_step pre seg seg' b :
  adds_block limits b seg seg' → segment_bytes seg + encoded_len b ≤ snapshot_max_size limits →
  archive_step limits b (pre ++ [seg]) (pre ++ [seg']).
Proof. intros [(seg0 & ch & -> & -> & Hle)| ->] Hsz; by constructor. Qed.

(** Between two blocks, the last snapshot holds one. *)
Definition settled (a : Archive) : Prop := ∀ seg, last a = Some seg → mjoin seg ≠ [].
Lemma archive_step_settled b a a' : archive_step limits b a a' → settled a'.
Proof.
  intros Hstep seg Hl Hnil. destruct Hstep; rewrite ?last_snoc in Hl; simplify_eq/=; try done;
    rewrite join_app in Hnil; apply app_nil in Hnil as [_ Hnil]; simpl in Hnil;
    rewrite ?app_nil_r in Hnil; by destruct ch || done.
Qed.

(** The part of [process_block] after the snapshot is chosen. *)
Definition place (b : BlockWithSenders) (data : bytes) (id : Z) : SM Store SnapshotManagerError () :=
  smodify (set_current id (block_number b)) ;;*
  let* chunk_id := store_data cf id (block_number b) data in
  smodify (λ s, with_db (update_snapshot id (block_number b) chunk_id (st_db s)) s) ;;*
  smodify (λ s, with_db (insert_block_snapshot_id_mapping (block_number b) id (st_db s)) s).

Definition ends_at (b : BlockWithSenders) (st st' : Store) : Prop :=
  ms_block_id (st_state st') = block_number b ∧
  ms_is_syncing_history (st_state st') = ms_is_syncing_history (st_state st).

Lemma place_represents gs id s cs a seg b data st :
  represents_as (gs ++ [(id, s, cs)]) (a ++ [seg]) (st_db st) →
  fresh (block_number b) (a ++ [seg]) →
  (∀ k, is_Some (tb_chunks (st_db st) !! k) → k < u64_max) → encode_block b = Some data →
  ∃ seg' st', place b data id st = (Ok tt, st') ∧ adds_block limits b seg seg' ∧
    represents (a ++ [seg']) (st_db st') ∧ ends_at b st st'.
Proof.
  intros Hrep Hf Hmax Hd.
  destruct (store_data_represents gs id s cs a seg b data (set_current id (block_number b) st)
              Hrep Hf Hmax Hd) as (cid & db' & seg' & Hrun & Hadd & Hrep').
  unfold place, sbind, smodify. rewrite Hrun. eexists seg', _. split_and!; [done..|]. done.
Qed.

Lemma room_represents gs id s cs a seg b data st :
  represents_as (gs ++ [(id, s, cs)]) (a ++ [seg]) (st_db st) →
  fresh (block_number b) (a ++ [seg]) →
  (∀ k, is_Some (tb_snapshots (st_db st) !! k) → k < u64_max) →
  (∀ k, is_Some (tb_chunks (st_db st) !! k) → k < u64_max) → encode_block b = Some data →
  ∃ a' st', (let* id := snapshot_with_room cf b (Z.of_nat (length data)) id in place b data id) st
              = (Ok tt, st') ∧
    ((∃ seg', a' = a ++ [seg'] ∧ adds_block limits b seg seg' ∧
              segment_bytes seg + encoded_len b ≤ snapshot_max_size limits) ∨
     (a' = (a ++ [seg]) ++ [[[b]]] ∧ snapshot_max_size limits < segment_bytes seg + encoded_len b)) ∧
    represents a' (st_db st') ∧ ends_at b st st'.
Proof.
  intros Hrep Hf Hsmax Hcmax Hd. pose proof (last_snapshot_size _ _ _ _ _ Hrep) as Hsize. simpl in Hsize.
  unfold snapshot_with_room, sbind at 1, sget at 1. unfold sbind at 1.
  assert (Z.of_nat (length data) = encoded_len b) as Hlen by (unfold encoded_len; by rewrite Hd).
  rewrite Hsize, Hlen. destruct (snapshot_max_size _ <? _) eqn:Hlim.
  - apply Z.ltb_lt in Hlim.
    destruct (create_snapshot_represents _ _ _ (block_number b) (block_hash_slow b) Hrep Hf Hsmax)
      as (id' & s' & db' & Hnew & Hrep' & Hck & _).
    assert (fresh (block_number b) ((a ++ [seg]) ++ [[]])) as Hf'.
    { unfold fresh, archived_blocks in *. by rewrite join_app, app_nil_r. }
    unfold swrite. rewrite Hnew.
    destruct (place_represents _ id' s' [] (a ++ [seg]) [] b data (with_db db' st) Hrep' Hf')
      as (seg' & st' & Hrun & Hadd & Hrep2 & Hend); [by simpl; rewrite Hck|done|].
    exists ((a ++ [seg]) ++ [seg']), st'. split; [done|]. split; [|done]. right. split; [|done].
    destruct Hadd as [(seg0 & ch & Heq & _)| ->]; [by destruct seg0|done].
  - apply Z.ltb_ge in Hlim.
    destruct (place_represents _ _ _ _ _ _ _ _ _ Hrep Hf Hcmax Hd)
      as (seg' & st' & Hrun & Hadd & Hrep2 & Hend).
    exists (a ++ [seg']), st'. split; [done|]. split; [|done]. left. by exists seg'.
Qed.

Lemma process_block_place b data st :
  encode_block b = Some data → data ≠ [] →
  process_block cf b st =
    (let* id := latest_snapshot b in
     let* id := snapshot_with_room cf b (Z.of_nat (length data)) id in place b data id) st.
Proof.
  intros Hd Hne. unfold process_block, sbind at 1, slift at 1. rewrite Hd. simpl.
  by rewrite bool_decide_false.
Qed.

(** A segment with a block: its height is below the next block. *)
Lemma last_height_below gs g a seg db n :
  represents_as (gs ++ [g]) (a ++ [seg]) db → settled (a ++ [seg]) → fresh n (a ++ [seg]) →
  sn_height g.1.2 < n.
Proof.
  intros [_ Hall] Hset Hf. apply Forall2_app_inv in Hall as [_ Hseg].
  2:{ apply Forall2_length in Hall. rewrite !length_app in Hall. simpl in Hall. lia. }
  apply Forall2_cons in Hseg as [[_ _ _ Hh] _]. specialize (Hset seg (last_snoc _ _)).
  destruct (last (mjoin seg)) as [b|] eqn:Hl; [|by apply last_None in Hl].
  destruct (Hh b eq_refl) as [-> _]. unfold fresh, archived_blocks in Hf.
  rewrite !join_app, Forall_app in Hf. destruct Hf as [_ Hf]. simpl in Hf. rewrite app_nil_r in Hf.
  rewrite Forall_forall in Hf. by apply Hf, last_Some_elem_of.
Qed.

Lemma process_block_refines a st b data :
  represents a (st_db st) → settled a → fresh (block_number b) a → has_room (st_db st) →
  encode_block b = Some data → data ≠ [] →
  ∃ a' st', process_block cf b st = (Ok tt, st') ∧ archive_step limits b a a' ∧
    represents a' (st_db st') ∧ ends_at b st st'.
Proof.
  intros [gs Hrep] Hset Hf [Hsmax Hcmax] Hd Hne. rewrite (process_block_place b data st Hd Hne).
  unfold latest_snapshot, sbind at 1, sget at 1. unfold sbind at 1.
  destruct gs as [|g gs _] using rev_ind.
  - pose proof Hrep as [Hst Hall]. apply Forall2_nil_inv_r in Hall as ->.
    rewrite (no_snapshot _ Hst).
    destruct (create_snapshot_represents [] [] _ (block_number b) (block_hash_slow b) Hrep Hf)
      as (id & s & db' & Hnew & Hrep' & Hck & Hkeys); [intros k Hk; apply Hsmax in Hk; lia|].
    unfold swrite. rewrite Hnew.
    destruct (room_represents [] id s [] [] [] b data (with_db db' st) Hrep' Hf)
      as (a' & st' & Hrun & Hor & Hrep2 & Hend); [| |done|].
    { simpl. intros k Hk. destruct (Hkeys k Hk) as [->|Hk']; [|apply Hsmax in Hk'; lia].
      assert (get_last_snapshot_height (st_db st) = None) as Hnone by by apply no_snapshot.
      unfold create_new_snapshot in Hnew. rewrite Hnone in Hnew. simpl in Hnew.
      injection Hnew as <- _. vm_compute. done. }
    { simpl. by rewrite Hck. }
    exists a', st'. split; [exact Hrun|]. split; [|done].
    destruct Hor as [(seg' & -> & Hadd & _)|[-> Hlt]]; simpl.
    + destruct Hadd as [(seg0 & ch & Heq & _)| ->]; [by destruct seg0|]. apply (step_snapshot _ _ []).
    + apply step_oversized. unfold segment_bytes in Hlt. simpl in Hlt. unfold zsum in Hlt. simpl in Hlt. lia.
  - pose proof Hrep as [Hst Hall]. destruct g as [[id s] cs].
    destruct a as [|seg a _] using rev_ind.
    { apply Forall2_length in Hall. rewrite length_app in Hall. simpl in Hall. lia. }
    rewrite (last_snapshot _ _ _ Hst). simpl.
    pose proof (last_height_below _ _ _ _ _ _ Hrep Hset Hf) as Hlt. simpl in Hlt.
    replace (block_number b <? sn_height s) with false by (symmetry; apply Z.ltb_ge; lia).
    rewrite andb_false_r. simpl.
    destruct (room_represents gs id s cs a seg b data st Hrep Hf)
      as (a' & st' & Hrun & Hor & Hrep2 & Hend);
      [intros k Hk; apply Hsmax in Hk; lia|done|done|].
    exists a', st'. split; [exact Hrun|]. split; [|done].
    destruct Hor as [(seg' & -> & Hadd & Hle)|[-> _]]; [by apply adds_block_step|constructor].
Qed.

(** ** Dropping the oldest snapshot *)

Lemma remove_oldest_represents a db :
  represents a db →
  ∃ db', remove_oldest_snapshot (E := SnapshotManagerError) db = Ok db' ∧ represents (tail a) db' ∧
         tb_block_snapshots db' = tb_block_snapshots db.
Proof.
  intros [gs [Hst Hall]]. unfold remove_oldest_snapshot, get_first_snapshot_height, cursor_first.
  rewrite (sto_snapshots _ _ Hst), walk_list_to_map by apply Hst.
  destruct gs as [|[[id s] cs] gs]; simpl.
  { apply Forall2_nil_inv_r in Hall as ->. exists db. split_and!; [done| |done]. by exists []. }
  pose proof (stores_lookup _ _ (id, s, cs) Hst ltac:(left)) as Hs. simpl in Hs.
  unfold get_snapshot_by_id. rewrite Hs. simpl. unfold remove_snapshots.
  rewrite (proj2 (Z.ltb_ge id id)) by lia.
  apply Forall2_cons_inv_r in Hall as (seg & a' & Hseg & Hall & ->). simpl.
  destruct Hst as [Hsn Hc Hsk Hck Hpos]. destruct Hseg as [Hids _ _ _]. csimpl in *.
  assert (remove_range id id (tb_snapshots db) = list_to_map gs.*1) as Hsn'.
  { rewrite Hsn. exact (remove_range_segment [] [(id, s)] gs.*1 id id Hsk eq_refl eq_refl). }
  apply (sorted_keys_app [(id, s)]) in Hsk as (_ & _ & Hsk).
  pose proof Hck as Hck'. apply sorted_keys_app in Hck' as (_ & _ & Hck').
  assert (Forall (λ k, 0 < k) (gs.*1.*1 ++ (mjoin gs.*2).*1)) as Hpos'.
  { apply Forall_cons in Hpos as [_ Hpos]. rewrite fmap_app, !Forall_app in Hpos.
    apply Forall_app. tauto. }
  assert (∀ db', tb_block_snapshots db' = tb_block_snapshots db →
                 tb_snapshots db' = list_to_map gs.*1 → tb_chunks db' = list_to_map (mjoin gs.*2) →
                 represents a' db') as Hrep.
  { intros db' Hb' Hs' Hc'. exists gs. split; [by split|].
    eapply Forall2_impl; [exact Hall|]. intros seg' g' Hg'.
    apply (holds_segment_mapping db); [done|]. intros b' _. by rewrite Hb'. }
  rewrite Hids. destruct (head cs.*1) as [lo|] eqn:Hlo, (last cs.*1) as [hi|] eqn:Hhi;
    try (eexists; split_and!; [reflexivity| |reflexivity]; apply Hrep; [done|done|simpl; rewrite Hc];
         (apply head_None in Hlo || apply last_None in Hhi);
         by (apply fmap_nil_inv in Hlo as -> || apply fmap_nil_inv in Hhi as ->)).
  assert (lo ≤ hi) as Hle.
  { destruct cs as [|[k v] cs']; [done|]. simpl in Hlo. injection Hlo as <-.
    apply sorted_keys_app in Hck as (_ & Hcs & _).
    pose proof (in_range_segment ((k, v) :: cs') k hi k v Hcs eq_refl Hhi ltac:(left)). lia. }
  unfold delete_chunks_in_blocks, remove_chunks. rewrite (proj2 (Z.ltb_ge hi lo)) by lia.
  eexists. split_and!; [reflexivity| |reflexivity]. apply Hrep; [done..|]. simpl. rewrite Hc.
  by apply (remove_range_segment [] cs (mjoin gs.*2)).
Qed.

(** The snapshot in use is the last one. *)
Definition in_use (a : Archive) (st : Store) : Prop :=
  ∀ b, last (archived_blocks a) = Some b → ms_block_id (st_state st) = block_number b.

Lemma retention_refines a st :
  represents a (st_db st) → settled a → in_use a st →
  ∃ a' st', apply_retention_policy cf st = (Ok tt, st') ∧ represents a' (st_db st') ∧
    settled a' ∧ st_state st' = st_state st ∧ (a' = a ∨ a' = tail a) ∧
    (a ≠ [] → last a' = last a).
Proof.
  intros Hrep Hset Huse. pose proof Hrep as [gs [Hst Hall]].
  assert (∃ a' st', (Ok (E := SnapshotManagerError) tt, st) = (Ok tt, st') ∧
            represents a' (st_db st') ∧ settled a' ∧ st_state st' = st_state st ∧
            (a' = a ∨ a' = tail a) ∧ (a ≠ [] → last a' = last a)) as Hsame.
  { exists a, st. split_and!; auto. }
  unfold apply_retention_policy, sbind at 1, sget at 1. case_match; [|exact Hsame].
  unfold get_first_snapshot_height, cursor_first.
  rewrite (sto_snapshots _ _ Hst), walk_list_to_map by apply Hst.
  destruct gs as [|[[id s] cs] gs]; simpl; [exact Hsame|].
  case_match eqn:Hcur; [exact Hsame|]. apply Z.eqb_neq in Hcur.
  destruct (remove_oldest_represents a _ Hrep) as (db' & Hrun & Hrep' & _).
  unfold sbind, slift, smodify. rewrite Hrun. exists (tail a), (with_db db' st).
  apply Forall2_cons_inv_r in Hall as (seg & a' & [_ _ _ Hh] & _ & ->). simpl in *.
  destruct a' as [|seg' a'].
  { exfalso. destruct (last (mjoin seg)) as [b|] eqn:Hl;
      [|apply last_None in Hl; by apply (Hset seg)].
    apply Hcur. destruct (Hh b eq_refl) as [-> _]. apply Huse.
    unfold archived_blocks. simpl. by rewrite app_nil_r. }
  split_and!; [done..| | |by right|]; try done.
Qed.

(** ** Every run of the manager *)

(** The blocks processed so far, in order, and the store. *)
Inductive snap_reach : list BlockWithSenders → Store → Prop :=
  | reach_init state : snap_reach [] (mkStore empty_snapshot_db state)
  | reach_process bs st b data r st' :
      snap_reach bs st → Forall (λ b', block_number b' < block_number b) bs → has_room (st_db st) →
      encode_block b = Some data → data ≠ [] →
      process_block cf b st = (r, st') → snap_reach (bs ++ [b]) st'
  | reach_retain bs st r st' :
      snap_reach bs st → apply_retention_policy cf st = (r, st') → snap_reach bs st'
  | reach_history bs st syncing :
      snap_reach bs st → snap_reach bs (set_is_syncing_history syncing st).

(** Sizes: the limits hold up to the bookkeeping of the last block, unless a chunk or a
    snapshot is one block. *)
Definition chunk_bounded (ch : list BlockWithSenders) : Prop :=
  ch ≠ [] ∧ (chunk_bytes ch ≤ snapshot_chunk_size limits ∨ length ch = 1%nat).
Definition segment_bounded (seg : list (list BlockWithSenders)) : Prop :=
  (segment_bytes seg ≤ snapshot_max_size limits + 24 ∨ (length (mjoin seg) ≤ 1)%nat) ∧
  Forall chunk_bounded seg.

Lemma chunk_bytes_snoc ch b : chunk_bytes (ch ++ [b]) = chunk_bytes ch + encoded_len b.
Proof. unfold chunk_bytes. rewrite fmap_app, zsum_app. simpl. rewrite zsum_cons. unfold zsum. simpl. lia. Qed.
Lemma segment_bytes_append seg ch b :
  segment_bytes (seg ++ [ch ++ [b]]) = segment_bytes (seg ++ [ch]) + 8 + encoded_len b.
Proof.
  unfold segment_bytes. rewrite !fmap_app, !zsum_app, !join_app, !length_app. simpl.
  rewrite !zsum_cons, chunk_bytes_snoc, !app_nil_r, !length_app. simpl. lia.
Qed.
Lemma segment_bytes_chunk seg b : segment_bytes (seg ++ [[b]]) = segment_bytes seg + 24 + encoded_len b.
Proof.
  unfold segment_bytes. rewrite !fmap_app, !zsum_app, !join_app, !length_app. simpl.
  rewrite !zsum_cons. unfold chunk_bytes at 2. simpl. rewrite zsum_cons. unfold zsum at 2 3. simpl. lia.
Qed.

Lemma archive_step_bounded b a a' :
  archive_step limits b a a' → Forall segment_bounded a → Forall segment_bounded a'.
Proof.
  assert (segment_bounded []) as Hnil by (split; [right; simpl; lia|constructor]).
  assert (segment_bounded [[b]]) as Hone by (split; [right; simpl; lia|repeat constructor; auto]).
  intros Hstep Hall. destruct Hstep as [pre seg ch Hs Hc|pre seg Hs|a|Hs];
    [..|by repeat constructor]; rewrite ?Forall_app in *.
  - destruct Hall as [Hpre [_ Hch]%Forall_singleton]. split; [done|]. apply Forall_singleton.
    apply Forall_app in Hch as [Hch _]. split.
    + left. rewrite segment_bytes_append. lia.
    + apply Forall_app. split; [done|]. apply Forall_singleton.
      split; [by destruct ch|]. left. rewrite chunk_bytes_snoc. lia.
  - destruct Hall as [Hpre [_ Hch]%Forall_singleton]. split; [done|]. apply Forall_singleton. split.
    + left. rewrite segment_bytes_chunk. lia.
    + apply Forall_app. split; [done|]. apply Forall_singleton. split; [done|by right].
  - split; [done|]. by apply Forall_singleton.
Qed.

Record archives (bs : list BlockWithSenders) (st : Store) (a : Archive) : Prop := {
  ar_represents : represents a (st_db st);
  ar_settled : settled a;
  ar_in_use : in_use a st;
  ar_suffix : archived_blocks a `suffix_of` bs;
  ar_latest : last bs = last (archived_blocks a);
  ar_bounded : Forall segment_bounded a;
}.

Lemma snap_reach_archives bs st : snap_reach bs st → ∃ a, archives bs st a.
Proof.
  induction 1 as [state|bs st b data r st' _ [a Ha] Hfresh Hroom Hd Hne Hrun
                 |bs st r st' _ [a Ha] Hrun|bs st f _ [a Ha]].
  - exists []. split; try done. exists []. split; [|constructor]. by repeat constructor.
  - destruct Ha as [Hrep Hset Huse [dropped Hsuf] Hlast Hb].
    assert (fresh (block_number b) a) as Hf
      by (unfold fresh; rewrite Hsuf, Forall_app in Hfresh; by destruct Hfresh).
    destruct (process_block_refines a st b data Hrep Hset Hf Hroom Hd Hne)
      as (a' & st2 & Hrun' & Hstep & Hrep' & Hend & _). rewrite Hrun in Hrun'. simplify_eq.
    pose proof (archive_step_blocks _ _ _ _ Hstep) as Hblocks. exists a'. split.
    + done.
    + by eapply archive_step_settled.
    + intros b' Hb'. rewrite Hblocks, last_snoc in Hb'. by simplify_eq.
    + rewrite Hblocks. exists dropped. by rewrite app_assoc.
    + by rewrite Hblocks, !last_snoc.
    + by eapply archive_step_bounded.
  - destruct Ha as [Hrep Hset Huse Hsuf Hlast Hb].
    destruct (retention_refines a st Hrep Hset Huse)
      as (a' & st2 & Hrun' & Hrep' & Hset' & Hstate & Hor & Hl). rewrite Hrun in Hrun'. simplify_eq.
    exists a'. destruct Hor as [->| ->]; [by split; try done; intros b; rewrite Hstate; apply Huse|].
    destruct a as [|seg a]; [by split; try done; intros b; rewrite Hstate; apply Huse|]. simpl in *.
    assert (last (archived_blocks (seg :: a)) = last (archived_blocks a)) as Heq.
    { specialize (Hl ltac:(done)). unfold archived_blocks. simpl. rewrite join_app, last_app.
      destruct (last (mjoin (mjoin a))) eqn:Hla; [done|]. exfalso. apply last_None in Hla.
      destruct a as [|seg' a _] using rev_ind; [done|]. apply (Hset' seg'); [by rewrite last_snoc|].
      rewrite !join_app in Hla. apply app_nil in Hla as [_ Hla]. simpl in Hla. by rewrite app_nil_r in Hla. }
    split; try done.
    + intros b Hb'. rewrite Hstate. apply Huse. by rewrite Heq.
    + etrans; [|exact Hsuf]. unfold archived_blocks. simpl. rewrite join_app. by eexists.
    + by rewrite <-Heq.
    + by apply Forall_cons in Hb as [_ ?].
  - exists a. destruct Ha. by split.
Qed.

(** C20. Snapshots keep every block.  Whatever blocks the manager has processed, in
    increasing order, the storage holds a suffix of them in order, up to the latest one,
    within the size limits (up to the bookkeeping of one block, or with a single block in
    an oversized chunk or snapshot).  The next block is always stored: processing it
    succeeds and appends it to the last chunk, to a new chunk or to a new snapshot, with
    nothing else moved. *)
Theorem snapshots_archive_blocks bs st :
  snap_reach bs st →
  ∃ a, represents a (st_db st) ∧ archived_blocks a `suffix_of` bs ∧
    last bs = last (archived_blocks a) ∧ Forall segment_bounded a ∧
    ∀ b data, Forall (λ b', block_number b' < block_number b) bs → has_room (st_db st) →
      encode_block b = Some data → data ≠ [] →
      ∃ a' st', process_block cf b st = (Ok tt, st') ∧ archive_step limits b a a' ∧
                represents a' (st_db st').
Proof.
  intros [a [Hrep Hset _ Hsuf Hlast Hb]]%snap_reach_archives. exists a. split_and!; [done..|].
  intros b data Hfresh Hroom Hd Hne.
  destruct (process_block_refines a st b data Hrep Hset) as (a' & st' & Hrun & Hstep & Hrep' & _); try done.
  { destruct Hsuf as [dropped ->]. by apply Forall_app in Hfresh as [_ ?]. }
  by exists a', st'.
Qed.

(** When exactly one block is missing at the start, the historical sync is empty: the
    number of missing blocks is computed one too low. *)
Lemma one_missing_block_is_skipped db id h :
  get_last_snapshot_height db = Some (id, h) → 0 ≤ h < u64_max →
  historical_heights cf (h + 1) db = [].
Proof.
  intros Hl Hh. unfold historical_heights. rewrite Hl. simpl.
  rewrite wrap64_small by lia. unfold saturating_sub. by rewrite Z.sub_diag.
Qed.
End archive.
