(* ===== verification/StateSync.v ===== *)
(** * State synchronization

    The snapshot requests of [consensus/authority/src/comet_bft/abci.rs]: a node lists its
    snapshots and loads their chunks for others, and a node that joins is offered a
    snapshot and applies its chunks.

    A poisoned lock follows a panic, which takes the node down. *)

From S2P Require Import Prelude Activation Bitcoin Checkpoints Codec Headers Peg Mint ChainRules HeaderRules.
From S2P Require Import Execution BlockBuilder Abci Snapshots.

(** [block_by_id] of the node's database, where it can be read. *)
Class BlockStore `{ChainStore} := has_block : Db → Z → bool.

Inductive SnapshotOfferResult :=
  | OfferUnknown | OfferAccept | OfferAbort | OfferReject | OfferRejectFormat | OfferRejectSender.
Inductive ApplySnapshotResult :=
  | ApplyUnknown | ApplyAccept | ApplyAbort | ApplyRetry | ApplyRetrySnapshot | ApplyRejectSnapshot.

(** [Snapshot] of the protocol. *)
Record SnapshotMsg := mkSnapshotMsg {
  sm_height : Z;
  sm_format : Z;
  sm_chunks : Z;
  sm_hash : bytes;
}.
Record RequestOfferSnapshot := mkOffer { of_snapshot : option SnapshotMsg; of_app_hash : bytes }.
Record RequestLoadSnapshotChunk := mkLoad { ld_height : Z; ld_chunk : Z }.
Record RequestApplySnapshotChunk := mkApply { ap_index : Z; ap_chunk : bytes }.

(** The snapshot that is being applied. *)
Record SnapshotSyncStateLock := mkSyncLock {
  sl_height : Z;
  sl_hash : bytes;
  sl_chunks : Z;
  sl_format : Z;
}.
#[export] Instance sync_lock_eq_dec : EqDecision SnapshotSyncStateLock.
Proof. solve_decision. Defined.
Definition lock_of (s : SnapshotMsg) : SnapshotSyncStateLock :=
  mkSyncLock (sm_height s) (sm_hash s) (sm_chunks s) (sm_format s).

Section state_sync.
Context `{!HeaderHash, !BitcoinHashes, !ConsensusEncoding, !Secp256k1, !PegLib, !Abi, !AbciLib}.
Context `{!EthLib, !BlockLib, !Evm, !ChainLib}.
Context {BE PE : Type} `{!ChainStore PE, !BlockStore}.
Context {VDB VE : Type} `{RW : !ActivationManagerReaderWriter Address VDB VE}.
Context `{!LruMap B256 BlockWithContext}.
Context `{!DataParser, !Sha256}.

Abbreviation App := (Abci (PE := PE) (VDB := VDB)).

(** The application with the snapshots it shares with the manager. *)
Record SyncNode := mkSyncNode {
  sn_app : App;
  sn_store : Store;
  sn_lock : option SnapshotSyncStateLock;
}.
Definition set_app (a : App) (n : SyncNode) : SyncNode := mkSyncNode a (sn_store n) (sn_lock n).
Definition set_store_db (db : SnapshotDb) (n : SyncNode) : SyncNode :=
  mkSyncNode (sn_app n) (with_db db (sn_store n)) (sn_lock n).
Definition set_lock (l : option SnapshotSyncStateLock) (n : SyncNode) : SyncNode :=
  mkSyncNode (sn_app n) (sn_store n) l.

Context (cf : AbciConfig (BE := BE)) (snapshot_format : Z).

(** ** Serving snapshots *)

(** The snapshot at the current block may not be complete. *)
Definition list_snapshots (n : SyncNode) : list SnapshotMsg :=
  let state := st_state (sn_store n) in
  if ms_is_syncing_history state then []
  else (λ s, mkSnapshotMsg (sn_height s) snapshot_format
               (wrap32 (Z.of_nat (length (chunk_ids s)))) (get_hash s))
       <$> filter (λ s, sn_height s ≠ ms_block_id state) (get_snapshots (st_db (sn_store n))).

(** Blocks that do not decode are left out. *)
Definition serialize_chunk (c : SnapshotChunk) : option bytes :=
  encode_blocks (omap decode_block (chunk_data c)).

(** An empty answer where anything is missing. *)
Definition load_snapshot_chunk (req : RequestLoadSnapshotChunk) (n : SyncNode) : bytes :=
  let state := st_state (sn_store n) in
  let db := st_db (sn_store n) in
  if ms_is_syncing_history state then []
  else if ms_block_id state =? ld_height req then []
  else default [] (
    id ← get_snapshot_id_by_block_id (ld_height req) db;
    s ← get_snapshot_by_id id db;
    chunk_id ← chunk_ids s !! Z.to_nat (ld_chunk req);
    c ← get_chunk_by_id chunk_id db;
    serialize_chunk c).

(** ** Joining from a snapshot *)

(** What an offer must satisfy before the running synchronization is looked at. *)
Definition offer_refused (req : RequestOfferSnapshot) (s : SnapshotMsg) (n : SyncNode) :
    option SnapshotOfferResult :=
  if ms_is_syncing_history (st_state (sn_store n)) then Some OfferReject
  else if bool_decide (of_app_hash req = []) then Some OfferReject
  else match application_hash (sn_app n) with
       | Ok hash =>
           if bool_decide (hash = of_app_hash req) then Some OfferReject
           else if negb (sm_format s =? snapshot_format) then Some OfferRejectFormat
           else if sm_chunks s =? 0 then Some OfferReject
           else if bool_decide (sm_hash s = []) then Some OfferReject
           else None
       | _ => Some OfferReject
       end.

(** A snapshot below the chain or below the running synchronization is refused. *)
Definition offer_stale (s : SnapshotMsg) (n : SyncNode) : bool :=
  has_block (ab_db (sn_app n)) (sm_height s)
  || match ab_head (sn_app n) with
     | Some head => sm_height s <? h_number (sh_header head)
     | None => true
     end
  || match sn_lock n with Some l => sm_height s <=? sl_height l | None => false end.

(** The hash is stored as 32 bytes: another length panics. *)
Definition accept_offer (s : SnapshotMsg) : SM SyncNode () SnapshotOfferResult :=
  let* hash := slift (fixed_bytes 32 (sm_hash s)) in
  smodify (λ n, set_store_db (create_new_snapshot_sync (sm_height s) hash (sm_chunks s) (sm_format s)
                                (st_db (sn_store n))).2 n) ;;*
  smodify (λ n, set_lock ((λ _, lock_of s) <$> sn_lock n) n) ;;*
  sret OfferAccept.

Definition offer_snapshot (req : RequestOfferSnapshot) : SM SyncNode () SnapshotOfferResult :=
  match of_snapshot req with
  | None => sret OfferUnknown
  | Some s =>
      let* n := sget in
      match offer_refused req s n with
      | Some r => sret r
      | None =>
          if bool_decide (sn_lock n = Some (lock_of s)) then sret OfferAccept
          else if offer_stale s n then sret OfferReject
          else accept_offer s
      end
  end.

(** The blocks of a chunk, executed as a batch on the node's state and appended in one
    transaction; subscribers are told of each block, without its pegs. *)
Definition apply_blocks (blocks : list BlockWithSenders) : SM SyncNode () ApplySnapshotResult := λ n,
  let a := sn_app n in
  match batch_execute (db_provider (ab_db a)) (cf_bitcoind cf) (cf_chain_spec cf)
          (cf_btc_network cf) blocks with
  | Ok outcome =>
      match db_provider (ab_db a) with
      | Ok p =>
          match overlay_root_with_updates (latest_state p) (oc_bundle outcome) with
          | Ok (_, updates) =>
              let sealed := seal_block <$> blocks in
              match append_blocks_with_state sealed outcome updates (ab_db a) with
              | Ok db =>
                  let publish_block a b :=
                    publish (seal (sb_header b) (sb_hash b)) (mkNotification b None None) a in
                  (Ok ApplyAccept, set_app (foldl publish_block (set_db db a) sealed) n)
              | Err _ => (Ok ApplyRetrySnapshot, n)
              | Panic => (Panic, n)
              end
          | Err _ => (Ok ApplyUnknown, n)
          | Panic => (Panic, n)
          end
      | Err _ => (Ok ApplyUnknown, n)
      | Panic => (Panic, n)
      end
  | Err _ => (Ok ApplyRetrySnapshot, n)
  | Panic => (Panic, n)
  end.

Definition apply_snapshot_chunk (req : RequestApplySnapshotChunk) : SM SyncNode () ApplySnapshotResult :=
  let* n := sget in
  let db := st_db (sn_store n) in
  if ms_is_syncing_history (st_state (sn_store n)) then sret ApplyRetrySnapshot
  else match get_last_snapshot_sync_id db with
       | None => sret ApplyRetrySnapshot
       | Some id =>
           match get_snapshot_sync_by_id id db with
           | None => sret ApplyRetrySnapshot
           | Some s =>
               if ap_index req <? saturating_sub (sy_last_applied_chunk_index s) 1
               then sret ApplyRetrySnapshot
               else
                 smodify (set_store_db (update_snapshot_sync id
                            (set_last_applied_chunk_index (ap_index req) s) db)) ;;*
                 match decode_blocks (ap_chunk req) with
                 | None => sret ApplyRetrySnapshot
                 | Some blocks => apply_blocks blocks
                 end
           end
       end.
End state_sync.
