(* ===== verification/StateSyncTheory.v ===== *)
(** * Theorems about state synchronization

    What a node serves is what its manager archived, a node that applies it extends its
    chain by exactly those blocks, and offers only move a node forward. *)

From S2P Require Import Prelude Activation Bitcoin Checkpoints Codec Headers Peg Mint ChainRules HeaderRules.
From S2P Require Import Execution BlockBuilder Abci Snapshots SnapshotsTheory StateSync.
From S2P Require Import Codec MintTheory ExecutionTheory BuilderTheory AbciTheory.

(** Blocks decode to what was encoded, and blocks that encode one by one encode together. *)
Class ParserLaws `{DataParser} : Prop := {
  decode_encode_block b d : encode_block b = Some d → decode_block d = Some b;
  decode_encode_blocks l d : encode_blocks l = Some d → decode_blocks d = Some l;
  encode_blocks_some l : Forall (λ b, is_Some (encode_block b)) l → is_Some (encode_blocks l);
}.

(** What [append_blocks_with_state] is documented to do: the blocks are stored behind the
    ones that are there. *)
Class StoredBlocks `{ChainStore} := {
  stored_blocks : Db → list SealedBlock;
  append_stores bs outcome updates d d' :
    append_blocks_with_state bs outcome updates d = Ok d' → stored_blocks d' = stored_blocks d ++ bs;
}.

Section theory.
Context `{!HeaderHash, !BitcoinHashes, !ConsensusEncoding, !Secp256k1, !PegLib, !Abi, !AbciLib}.
Context `{!EthLib, !BlockLib, !Evm, !ChainLib}.
Context {BE PE : Type} `{!ChainStore PE, !BlockStore}.
Context {VDB VE : Type} `{RW : !ActivationManagerReaderWriter Address VDB VE}.
Context `{!LruMap B256 BlockWithContext}.
Context `{!DataParser, !Sha256}.

Abbreviation Node := (SyncNode (PE := PE) (VDB := VDB)).
Implicit Types (n : Node) (msg : SnapshotMsg).

(** ** Serving *)

(** The chunks of a listed snapshot, as another node asks for them. *)
Definition served n msg : list bytes :=
  (λ i, load_snapshot_chunk (mkLoad (sm_height msg) (Z.of_nat i)) n) <$> seq 0 (Z.to_nat (sm_chunks msg)).

Lemma elem_of_walk {A} (l : list (Z * A)) x : sorted_keys l → x ∈ walk (list_to_map l) ↔ x ∈ l.
Proof. intros Hs. by rewrite walk_list_to_map. Qed.

Lemma listed_group (gs : list (Z * Snapshot * list (Z * SnapshotChunk))) db s :
  stores gs db → s ∈ get_snapshots db → ∃ g, g ∈ gs ∧ g.1.2 = s.
Proof.
  intros Hst Hs. unfold get_snapshots, sort_by_key in Hs. rewrite sort_by_perm in Hs.
  apply list_elem_of_fmap in Hs as ([k s'] & -> & Hin).
  rewrite (sto_snapshots _ _ Hst), elem_of_walk in Hin by apply Hst.
  apply list_elem_of_fmap in Hin as (g & Heq & Hg). exists g. split; [done|]. by rewrite <-Heq.
Qed.

Lemma decoded_chunk `{!ParserLaws} ch c :
  holds_chunk ch c → ∃ d, serialize_chunk c.2 = Some d ∧ decode_blocks d = Some ch.
Proof.
  intros Hc. unfold serialize_chunk. unfold holds_chunk in Hc. rewrite mapM_Some in Hc.
  assert (omap decode_block (chunk_data c.2) = ch) as ->.
  { induction Hc as [|b d ch ds Hb _ IH]; [done|]. csimpl. by rewrite (decode_encode_block b d Hb), IH. }
  destruct (encode_blocks_some ch) as [d Hd].
  { clear -Hc. induction Hc; constructor; [by eexists|done]. }
  exists d. split; [done|]. by apply decode_encode_blocks.
Qed.

Lemma segment_length seg : Forall (λ ch : list BlockWithSenders, ch ≠ []) seg → (length seg ≤ length (mjoin seg))%nat.
Proof.
  induction 1 as [|ch seg Hch _ IH]; [done|]. simpl. rewrite length_app.
  destruct ch; [done|]. simpl. lia.
Qed.

Context (mcf : SnapshotManagerConfig) (snapshot_format : Z).

(** The number of chunks of a snapshot fits in 32 bits. *)
Lemma segment_small seg : segment_bounded mcf seg → Z.of_nat (length seg) < 2 ^ 31.
Proof.
  intros [Hsize Hchunks].
  assert (length seg ≤ length (mjoin seg))%nat as Hle.
  { apply segment_length. eapply Forall_impl; [exact Hchunks|]. by intros ? [? _]. }
  destruct Hsize as [Hsize|Hsize]; [|lia].
  assert (0 ≤ zsum (chunk_bytes <$> seg)) as Hz.
  { apply zsum_nonneg, Forall_fmap, Forall_forall. intros ch _. simpl. unfold chunk_bytes.
    assert (0 ≤ zsum (encoded_len <$> ch)); [|lia]. apply zsum_nonneg, Forall_fmap, Forall_forall.
    intros b _. simpl. unfold encoded_len. lia. }
  assert (snapshot_max_size (limits_of (snapshot_message_format mcf)) ≤ 2 ^ 24).
  { unfold limits_of. repeat case_match; simpl; lia. }
  unfold segment_bytes in Hsize. lia.
Qed.

(** A listed snapshot is a segment of the archive, and its chunks load. *)
Lemma served_segment `{!ParserLaws} bs n msg :
  snap_reach mcf bs (sn_store n) → msg ∈ list_snapshots snapshot_format n →
  ∃ before seg after, bs = before ++ mjoin seg ++ after ∧
    mapM decode_blocks (served n msg) = Some seg ∧ Forall (λ ch, ch ≠ []) seg ∧
    ∀ b, last (mjoin seg) = Some b → sm_height msg = block_number b.
Proof.
  intros [a [Hrep _ _ [dropped Hsuf] _ Hb]]%snap_reach_archives Hin.
  unfold list_snapshots in Hin. case_match eqn:Hsync; [by apply not_elem_of_nil in Hin|].
  apply list_elem_of_fmap in Hin as (s & -> & Hin).
  apply list_elem_of_filter in Hin as [Hcur Hin]. destruct Hrep as [gs [Hst Hall]].
  destruct (listed_group gs _ s Hst Hin) as (g & Hg & <-).
  apply list_elem_of_lookup_1 in Hg as [i Hi].
  destruct (Forall2_lookup_r _ _ _ _ _ Hall Hi) as (seg & Hseg & [Hids Hch _ Hh]).
  apply list_elem_of_lookup_2 in Hi as Hg.
  assert (seg ∈ a) as Hsa by by eapply list_elem_of_lookup_2.
  rewrite Forall_forall in Hb. pose proof Hsa as Hseg'. destruct (Hb seg Hsa) as [_ Hchunks].
  assert (Forall (λ ch, ch ≠ []) seg) as Hne by (eapply Forall_impl; [exact Hchunks|]; by intros ? [? _]).
  pose proof (Forall2_length _ _ _ Hch) as Hlen.
  apply list_elem_of_split in Hsa as (a1 & a2 & ->).
  exists (dropped ++ archived_blocks a1), seg, (archived_blocks a2). split_and!.
  - rewrite Hsuf. unfold archived_blocks. rewrite !join_app. simpl. by rewrite join_app, <-!app_assoc.
  - unfold served. simpl. rewrite Hids, length_fmap, <-Hlen.
    pose proof (segment_small seg (Hb seg Hseg')) as Hsmall.
    rewrite wrap32_small by (unfold u32_max; lia). rewrite Nat2Z.id.
    apply mapM_Some. rewrite Forall2_fmap_l.
    apply Forall2_same_length_lookup_2; [by rewrite length_seq|].
    intros j k ch Hj Hch'. apply lookup_seq in Hj as [-> Hj]. simpl.
    destruct (Forall2_lookup_l _ _ _ _ _ Hch Hch') as (c & Hc & Hhold).
    assert (mjoin seg ≠ []) as Hjoin.
    { intros Hnil. pose proof (segment_length seg Hne) as Hle. rewrite Hnil in Hle. simpl in Hle. lia. }
    destruct (last (mjoin seg)) as [b|] eqn:Hl; [|by apply last_None in Hl].
    destruct (Hh b eq_refl) as [Hheight Hmap].
    unfold load_snapshot_chunk. simpl. rewrite Hsync.
    rewrite (proj2 (Z.eqb_neq _ _)) by congruence.
    unfold get_snapshot_id_by_block_id. rewrite Hheight, Hmap. simpl.
    unfold get_snapshot_by_id. rewrite (stores_lookup gs _ g Hst Hg). simpl.
    rewrite Nat2Z.id, Hids, list_lookup_fmap, Hc. simpl.
    unfold get_chunk_by_id. rewrite (stores_chunk_lookup gs _ g c Hst Hg) by by eapply list_elem_of_lookup_2.
    simpl. destruct (decoded_chunk ch c Hhold) as (d & -> & Hd). done.
  - done.
  - intros b Hl. by destruct (Hh b Hl) as [? _].
Qed.

(** Snapshots are served intact.  Every snapshot a node lists is a run of consecutive
    blocks its manager processed, up to the height it is listed at: loading its chunks by
    their indices and decoding them gives those blocks in order. *)
Theorem snapshot_transfer `{!ParserLaws} bs n msg :
  snap_reach mcf bs (sn_store n) → msg ∈ list_snapshots snapshot_format n →
  ∃ before blocks after, bs = before ++ blocks ++ after ∧
    mjoin <$> mapM decode_blocks (served n msg) = Some blocks ∧
    ∀ b, last blocks = Some b → sm_height msg = block_number b.
Proof.
  intros Hreach Hin. destruct (served_segment bs n msg Hreach Hin) as (before & seg & after & Hbs & Hm & _ & Hh).
  exists before, (mjoin seg), after. split_and!; [done| |done]. by rewrite Hm.
Qed.

(** ** Applying *)

Context (cf : AbciConfig (BE := BE)).

Definition synced_notification (b : BlockWithSenders) : CommitNotification :=
  mkNotification (seal_block b) None None.
(** The chain database after batches of blocks: each batch is executed on the state that
    is there, and stored with its outcome in one transaction. *)
Fixpoint appended (chunks : list (list BlockWithSenders)) (d d' : Db) : Prop :=
  match chunks with
  | [] => d' = d
  | blocks :: rest => ∃ p outcome root updates d1,
      db_provider d = Ok p ∧
      batch_execute (Ok p) (cf_bitcoind cf) (cf_chain_spec cf) (cf_btc_network cf) blocks = Ok outcome ∧
      overlay_root_with_updates (latest_state p) (oc_bundle outcome) = Ok (root, updates) ∧
      append_blocks_with_state (seal_block <$> blocks) outcome updates d = Ok d1 ∧
      appended rest d1 d'
  end.

(** What subscribers, the head and the databases see of the blocks of chunks. *)
Record extends_by (chunks : list (list BlockWithSenders)) n n' : Prop := {
  eb_notifications : ab_notifications (sn_app n') =
    ab_notifications (sn_app n) ++ (synced_notification <$> mjoin chunks);
  eb_head : ab_head (sn_app n') =
    match last (mjoin chunks) with
    | Some b => Some (seal (eb_header (bws_block b)) (hash_slow (eb_header (bws_block b))))
    | None => ab_head (sn_app n)
    end;
  eb_db : appended chunks (ab_db (sn_app n)) (ab_db (sn_app n'));
  eb_botanix : ab_botanix (sn_app n') = ab_botanix (sn_app n);
}.

Lemma publish_all blocks (a : Abci (PE := PE) (VDB := VDB)) :
  let a' := foldl (λ a b, publish (seal (sb_header b) (sb_hash b)) (mkNotification b None None) a) a
              (seal_block <$> blocks) in
  ab_notifications a' = ab_notifications a ++ (synced_notification <$> blocks) ∧
  ab_head a' = match last blocks with
               | Some b => Some (seal (eb_header (bws_block b)) (hash_slow (eb_header (bws_block b))))
               | None => ab_head a end ∧
  ab_botanix a' = ab_botanix a ∧ ab_db a' = ab_db a.
Proof.
  simpl. induction blocks as [|b blocks IH] using rev_ind; [by rewrite app_nil_r|].
  rewrite fmap_app, foldl_app, last_snoc. simpl. destruct IH as (-> & _ & -> & ->).
  by rewrite fmap_app, app_assoc.
Qed.

Lemma apply_blocks_cases blocks n r n' :
  apply_blocks cf blocks n = (r, n') →
  match r with
  | Ok ApplyAccept => extends_by [blocks] n n' ∧ sn_store n' = sn_store n ∧ sn_lock n' = sn_lock n
  | _ => n' = n
  end.
Proof.
  unfold apply_blocks. intros Hrun.
  destruct (batch_execute _ _ _ _ _) as [outcome| |] eqn:Hb; [|by simplify_eq..].
  destruct (db_provider _) as [p| |] eqn:Hp; [|by simplify_eq..].
  destruct (overlay_root_with_updates _ _) as [[root updates]| |] eqn:Ho; [|by simplify_eq..].
  destruct (append_blocks_with_state _ _ _ _) as [db| |] eqn:Ha; [|by simplify_eq..].
  injection Hrun as <- <-. destruct (publish_all blocks (set_db db (sn_app n))) as (Hn & Hh & Hx & Hd).
  split_and!; [|done|done]. split; cbn [mjoin list_join]; rewrite ?app_nil_r; try done.
  exists p, outcome, root, updates, db. by split_and!.
Qed.

Lemma apply_chunk_cases req n r n' :
  apply_snapshot_chunk cf req n = (r, n') →
  match r with
  | Ok ApplyAccept => ∃ blocks, decode_blocks (ap_chunk req) = Some blocks ∧ extends_by [blocks] n n'
  | _ => sn_app n' = sn_app n
  end.
Proof.
  unfold apply_snapshot_chunk, sbind, sget, smodify, sret. intros Hrun.
  destruct (ms_is_syncing_history _); [by simplify_eq|].
  destruct (get_last_snapshot_sync_id _) as [id|]; [|by simplify_eq].
  destruct (get_snapshot_sync_by_id _ _) as [s|]; [|by simplify_eq].
  destruct (_ <? _); [by simplify_eq|].
  destruct (decode_blocks _) as [blocks|] eqn:Hd; [|by simplify_eq].
  apply apply_blocks_cases in Hrun. destruct r as [[]| |]; try by rewrite Hrun.
  destruct Hrun as ([Hn Hh Hx Hb] & _ & _). exists blocks. split; [done|by split].
Qed.

(** Chunks applied in order from an index, each accepted. *)
Fixpoint accept_chunks (i : Z) (chunks : list bytes) n n' : Prop :=
  match chunks with
  | [] => n' = n
  | c :: rest => ∃ m, apply_snapshot_chunk cf (mkApply i c) n = (Ok ApplyAccept, m) ∧
                      accept_chunks (i + 1) rest m n'
  end.

Lemma appended_app chunks1 chunks2 d1 d2 d3 :
  appended chunks1 d1 d2 → appended chunks2 d2 d3 → appended (chunks1 ++ chunks2) d1 d3.
Proof.
  revert d1. induction chunks1 as [|blocks chunks IH]; intros d1; simpl; [by intros <-|].
  intros (p & outcome & root & updates & d & ? & ? & ? & ? & Hrest) H23.
  exists p, outcome, root, updates, d. split_and!; try done. by apply IH.
Qed.
Lemma appended_stored `{!StoredBlocks} chunks d d' :
  appended chunks d d' → stored_blocks d' = stored_blocks d ++ (seal_block <$> mjoin chunks).
Proof.
  revert d. induction chunks as [|blocks chunks IH]; intros d; simpl.
  - intros ->. by rewrite app_nil_r.
  - intros (p & outcome & root & updates & d1 & _ & _ & _ & Ha & Hrest).
    rewrite (IH _ Hrest), (append_stores _ _ _ _ _ Ha), fmap_app. by rewrite app_assoc.
Qed.
Lemma extends_by_trans chunks1 chunks2 n1 n2 n3 :
  extends_by chunks1 n1 n2 → extends_by chunks2 n2 n3 → extends_by (chunks1 ++ chunks2) n1 n3.
Proof.
  intros [Hn1 Hh1 Hd1 Hb1] [Hn2 Hh2 Hd2 Hb2]. split.
  - by rewrite join_app, Hn2, Hn1, fmap_app, app_assoc.
  - rewrite join_app, Hh2, Hh1, last_app. by destruct (last (mjoin chunks2)).
  - by eapply appended_app.
  - by rewrite Hb2.
Qed.
Lemma accept_chunks_extends i chunks n n' segs :
  accept_chunks i chunks n n' → mapM decode_blocks chunks = Some segs → extends_by segs n n'.
Proof.
  revert i n segs. induction chunks as [|c chunks IH]; intros i n segs Hacc Hm.
  - injection Hm as <-. simpl in Hacc. subst. split; [by rewrite app_nil_r|done..].
  - destruct Hacc as (m & Hrun & Hacc). simpl in Hm.
    apply bind_Some in Hm as (seg & Hs & Hm). apply bind_Some in Hm as (segs' & Hm & [= <-]).
    apply apply_chunk_cases in Hrun as (blocks & Hd & Hext). simpl in Hd.
    rewrite Hs in Hd. injection Hd as ->. apply (extends_by_trans [blocks]) with (n2 := m); [done|].
    by eapply IH.
Qed.

(** C21. State synchronization restores the chain of the server.  When a node applies
    the chunks of a snapshot that another node lists with at least one chunk (others are
    refused when offered), in order, and accepts each, then the chunks are a nonempty run
    of consecutive blocks that the server's manager processed; the node executed each
    chunk on the state it had, and stored its blocks with the outcome, so that its chain
    database holds exactly these blocks, in order, behind what it held; its subscribers
    see the same blocks, without pegs; its head is the last one, which is at the listed
    height; and nothing is staged for the wallet. *)
Theorem state_sync_restores `{!ParserLaws, !StoredBlocks} bs server msg client client' :
  snap_reach mcf bs (sn_store server) → msg ∈ list_snapshots snapshot_format server →
  sm_chunks msg ≠ 0 → accept_chunks 0 (served server msg) client client' →
  ∃ before chunks after b, bs = before ++ mjoin chunks ++ after ∧
    mapM decode_blocks (served server msg) = Some chunks ∧ extends_by chunks client client' ∧
    stored_blocks (ab_db (sn_app client')) =
      stored_blocks (ab_db (sn_app client)) ++ (seal_block <$> mjoin chunks) ∧
    last (mjoin chunks) = Some b ∧ sm_height msg = block_number b ∧
    ab_head (sn_app client') = Some (seal (eb_header (bws_block b)) (hash_slow (eb_header (bws_block b)))).
Proof.
  intros Hreach Hin Hne Hacc.
  destruct (served_segment bs server msg Hreach Hin) as (before & seg & after & Hbs & Hm & Hall & Hh).
  pose proof (accept_chunks_extends _ _ _ _ _ Hacc Hm) as Hext.
  assert (mjoin seg ≠ []) as Hjoin.
  { intros Hnil. pose proof (segment_length seg Hall) as Hle. rewrite Hnil in Hle.
    pose proof Hm as Hlen. apply mapM_Some, Forall2_length in Hlen. unfold served in Hlen. rewrite length_fmap, length_seq in Hlen.
    assert (0 ≤ sm_chunks msg) as Hpos.
    { unfold list_snapshots in Hin. case_match; [by apply not_elem_of_nil in Hin|].
      apply list_elem_of_fmap in Hin as (s & -> & _). simpl. apply Z.mod_pos_bound. done. }
    simpl in Hle. lia. }
  destruct (last (mjoin seg)) as [b|] eqn:Hl; [|by apply last_None in Hl].
  exists before, seg, after, b. split_and!; try done.
  - apply appended_stored, Hext.
  - by apply Hh.
  - by rewrite (eb_head _ _ _ Hext), Hl.
Qed.

(** ** Offers *)

Definition offer_acceptable (s : SnapshotMsg) (req : RequestOfferSnapshot) n : Prop :=
  ms_is_syncing_history (st_state (sn_store n)) = false ∧ of_app_hash req ≠ [] ∧
  (∃ head, ab_head (sn_app n) = Some head ∧ sh_hash head ≠ of_app_hash req) ∧
  sm_format s = snapshot_format ∧ sm_chunks s ≠ 0 ∧ sm_hash s ≠ [].

Lemma offer_refused_none req s n : offer_refused snapshot_format req s n = None ↔ offer_acceptable s req n.
Proof.
  unfold offer_refused, offer_acceptable, application_hash.
  destruct (ms_is_syncing_history _); [by split; [done|intros [? _]]|].
  case_bool_decide as Happ; [by split; [done|intros (_ & ? & _)]|].
  destruct (ab_head (sn_app n)) as [head|]; simpl; [|by split; [done|intros (_ & _ & (? & ? & _) & _)]].
  case_bool_decide as Hhash; [split; [done|naive_solver]|].
  destruct (sm_format s =? snapshot_format) eqn:Hf; simpl; [|split; [done|]; bool_to_prop; naive_solver].
  destruct (sm_chunks s =? 0) eqn:Hc; [split; [done|]; bool_to_prop; naive_solver|].
  case_bool_decide; bool_to_prop; [split; [done|naive_solver]|].
  split; [|done]. intros _. split_and!; try done; try lia. by exists head.
Qed.
Lemma offer_stale_false s n : offer_stale s n = false →
  has_block (ab_db (sn_app n)) (sm_height s) = false ∧
  (∀ head, ab_head (sn_app n) = Some head → h_number (sh_header head) ≤ sm_height s) ∧
  (∀ l, sn_lock n = Some l → sl_height l < sm_height s).
Proof.
  unfold offer_stale. rewrite !orb_false_iff. intros [[Hb Hh] Hl]. split_and!; [done| |].
  - intros head Heq. rewrite Heq in Hh. apply Z.ltb_ge in Hh. done.
  - intros l Heq. rewrite Heq in Hl. apply Z.leb_gt in Hl. done.
Qed.

(** Offers move a node forward.  An offer is accepted only when its format is
    ours, it has chunks and differs from the chain; it is the snapshot already being
    applied, or one above the chain and above that snapshot, which is then recorded.
    Whatever else an offer is answered, nothing changes. *)
Theorem offers_move_forward req n r n' :
  offer_snapshot snapshot_format req n = (r, n') →
  match r with
  | Ok OfferAccept => ∃ s, of_snapshot req = Some s ∧ offer_acceptable s req n ∧ sn_app n' = sn_app n ∧
      ((n' = n ∧ sn_lock n = Some (lock_of s)) ∨
       (has_block (ab_db (sn_app n)) (sm_height s) = false ∧
        (∀ head, ab_head (sn_app n) = Some head → h_number (sh_header head) ≤ sm_height s) ∧
        (∀ l, sn_lock n = Some l → sl_height l < sm_height s ∧ sn_lock n' = Some (lock_of s)) ∧
        ∃ id, tb_snapshot_syncs (st_db (sn_store n')) =
          <[id := snapshot_sync_new (sm_height s) (sm_hash s) (sm_format s) (sm_chunks s)]>
            (tb_snapshot_syncs (st_db (sn_store n)))))
  | _ => n' = n
  end.
Proof.
  unfold offer_snapshot, sbind, sget, sret. intros Hrun.
  destruct (of_snapshot req) as [s|]; [|by simplify_eq/=]. destruct (offer_refused _ req s n) as [x|] eqn:Hr.
  { injection Hrun as <- <-. destruct x; try done.
    unfold offer_refused in Hr. by repeat case_match. }
  apply offer_refused_none in Hr. case_bool_decide as Hlock.
  { injection Hrun as <- <-. exists s. split_and!; [done..|]. by left. }
  destruct (offer_stale s n) eqn:Hst; [by simplify_eq/=|].
  apply offer_stale_false in Hst as (Hb & Hh & Hl).
  unfold accept_offer, sbind, slift, smodify, sret, fixed_bytes in Hrun.
  destruct (length (sm_hash s) =? 32)%nat; simplify_eq/=; [|done].
  exists s. split_and!; [done..|]. right. split_and!; [done..| |by eexists].
  intros l Hls. split; [by apply Hl|]. by rewrite Hls.
Qed.

(** An offer with a hash of another length than 32 bytes brings the node down. *)
Lemma offered_hash_length_panics req s n :
  of_snapshot req = Some s → offer_acceptable s req n → sn_lock n ≠ Some (lock_of s) →
  offer_stale s n = false → length (sm_hash s) ≠ 32%nat →
  (offer_snapshot snapshot_format req n).1 = Panic.
Proof.
  intros Hs Hok%offer_refused_none Hl Hst Hlen. unfold offer_snapshot, sbind, sget.
  rewrite Hs, Hok, bool_decide_false, Hst by done. unfold accept_offer, fixed_bytes, sbind, slift.
  by rewrite (proj2 (Nat.eqb_neq _ _)).
Qed.
End theory.

(** ** A worked example *)

Module StateSyncSample.
Import SampleCodec PegSample ExecutionSample BuilderSample AbciSample.
#[local] Existing Instances sample_encoding sample_encoding_laws sample_secp sample_secp_laws
  sample_header_hash sample_hashes sample_peg sample_peg_laws sample_abi sample_eth sample_blocks
  sample_evm sample_evm_laws sample_chain sample_chain_laws list_lru sample_store sample_abci.

#[local] Instance fees_eq_dec : EqDecision TxFees. Proof. solve_decision. Defined.
#[local] Instance tx_eq_dec : EqDecision TransactionSigned. Proof. solve_decision. Defined.
#[local] Instance header_eq_dec : EqDecision EthHeader. Proof. solve_decision. Defined.
#[local] Instance withdrawal_eq_dec : EqDecision Withdrawal. Proof. solve_decision. Defined.
#[local] Instance request_eq_dec : EqDecision Request. Proof. simpl. solve_decision. Defined.
#[local] Instance block_eq_dec : EqDecision EthBlock. Proof. solve_decision. Defined.
#[local] Instance senders_eq_dec : EqDecision BlockWithSenders. Proof. solve_decision. Defined.

(** The block built on the sample chain, and the next one. *)
Definition empty_block (h : EthHeader) : BlockWithSenders :=
  mkBlockWithSenders {| eb_header := h; eb_body := []; eb_ommers := []; eb_withdrawals := None;
                        eb_requests := None |} [].
Definition b8 : BlockWithSenders := Eval vm_compute in
  match build_and_execute (BE := ()) (PE := ()) (Ok rich) bitcoind spec NetRegtest tt [bad; mint]
          (RV 0 2) None (Some FLOOR_BASE_FEE_PER_GAS_V2) recipient checkpoint agg 1000 with
  | Ok c => sb_block (wp_block (sealed_block_with_peg c))
  | _ => empty_block block_header
  end.
Definition b9 : BlockWithSenders := empty_block {|
  h_parent_hash := []; h_ommers_hash := []; h_beneficiary := address_zero; h_state_root := [];
  h_transactions_root := []; h_receipts_root := []; h_withdrawals_root := None; h_logs_bloom := [];
  h_difficulty := 0; h_number := 9; h_gas_limit := 30000; h_gas_used := 0; h_timestamp := 0;
  h_mix_hash := []; h_nonce := 0; h_base_fee_per_gas := Some 7; h_blob_gas_used := None;
  h_excess_blob_gas := None; h_parent_beacon_block_root := None; h_requests_root := None;
  h_extra_data := [] |}.

(** Blocks larger than a test snapshot. *)
Definition block_len : nat := Z.to_nat 6000.
Definition tag_of (b : BlockWithSenders) : option Z :=
  if decide (b = b8) then Some 8 else if decide (b = b9) then Some 9 else None.
Definition block_of (tag : Z) : option BlockWithSenders :=
  if decide (tag = 8) then Some b8 else if decide (tag = 9) then Some b9 else None.
Lemma block_of_tag b t : tag_of b = Some t → block_of t = Some b.
Proof. unfold tag_of, block_of. intros Ht. repeat case_decide; by simplify_eq. Qed.
#[local] Instance sample_parser : DataParser := {|
  encode_block b := (λ t, replicate block_len t) <$> tag_of b;
  decode_block bs := head bs ≫= block_of;
  encode_blocks l := mapM tag_of l;
  decode_blocks bs := mapM block_of bs |}.
#[local] Instance sample_parser_laws : ParserLaws.
Proof.
  split; simpl.
  - intros b d Hd. apply fmap_Some in Hd as (t & Ht & ->). simpl. by apply block_of_tag.
  - intros l d Hd. apply mapM_Some in Hd. apply mapM_Some. apply Forall2_flip.
    eapply Forall2_impl; [exact Hd|]. intros b t. apply block_of_tag.
  - intros l Hl. apply mapM_is_Some. eapply Forall_impl; [exact Hl|].
    intros b [d Hd]. apply fmap_Some in Hd as (t & Ht & _). by exists t.
Qed.
#[local] Instance sample_sha : Sha256 := λ bs, take 32 (bs ++ zeros 32).
#[local] Instance sample_blocks_known : BlockStore := λ _ h, h <=? 7.

Definition manager_config : SnapshotManagerConfig :=
  mkManagerConfig 2 SNAPSHOT_MESSAGE_FORMAT_TEST true true.
Definition store0 : Store := mkStore empty_snapshot_db manager_state_default.
Definition store1 : Store := (process_block manager_config b8 store0).2.
Definition store2 : Store := (process_block manager_config b9 store1).2.

Lemma room_by_map st :
  bool_decide (map_Forall (λ k _, k < u64_max - 1) (tb_snapshots (st_db st)) ∧
               map_Forall (λ k _, k < u64_max) (tb_chunks (st_db st))) = true → has_room (st_db st).
Proof. intros [H1 H2]%bool_decide_eq_true. split; intros k [v Hv]; eauto. Qed.
Lemma store1_reach : snap_reach manager_config [b8] store1.
Proof.
  apply (reach_process manager_config [] store0 b8 (replicate block_len 8) (process_block manager_config b8 store0).1).
  - constructor.
  - constructor.
  - apply room_by_map. vm_compute. reflexivity.
  - vm_compute. reflexivity.
  - discriminate.
  - by destruct (process_block manager_config b8 store0) eqn:E; unfold store1; rewrite E.
Qed.
Lemma store2_reach : snap_reach manager_config [b8; b9] store2.
Proof.
  apply (reach_process manager_config [b8] store1 b9 (replicate block_len 9) (process_block manager_config b9 store1).1).
  - exact store1_reach.
  - repeat constructor.
  - apply room_by_map. vm_compute. reflexivity.
  - vm_compute. reflexivity.
  - discriminate.
  - by destruct (process_block manager_config b9 store1) eqn:E; unfold store2; rewrite E.
Qed.

Lemma snapshots_archive_blocks_witness :
  snap_reach manager_config [b8; b9] store2 ∧
  ∃ a, represents a (st_db store2) ∧ last (archived_blocks a) = Some b9.
Proof.
  split; [exact store2_reach|].
  destruct (snapshots_archive_blocks manager_config [b8; b9] store2 store2_reach) as (a & Hr & _ & Hl & _).
  exists a. split; [exact Hr|]. by rewrite <-Hl.
Defined.

Definition server : SyncNode (PE := ()) (VDB := gmap Address VoteEntry) :=
  mkSyncNode node store2 (Some (mkSyncLock 0 [] 0 0)).
Definition listed : SnapshotMsg :=
  default (mkSnapshotMsg 0 0 0 []) (list_snapshots SNAPSHOT_MESSAGE_FORMAT_TEST server !! 1%nat).
Lemma listed_in : listed ∈ list_snapshots SNAPSHOT_MESSAGE_FORMAT_TEST server.
Proof. apply (list_elem_of_lookup_2 _ 1). vm_compute. reflexivity. Qed.

Lemma snapshot_transfer_witness :
  ∃ blocks, mjoin <$> mapM decode_blocks (served server listed) = Some blocks ∧ blocks = [b8].
Proof.
  destruct (snapshot_transfer manager_config SNAPSHOT_MESSAGE_FORMAT_TEST [b8; b9] server listed)
    as (before & blocks & after & _ & Hm & _); [exact store2_reach|exact listed_in|].
  exists blocks. split; [exact Hm|].
  assert (mjoin <$> mapM decode_blocks (served server listed) = Some [b8]) as Heq by (vm_compute; reflexivity).
  rewrite Heq in Hm. by injection Hm.
Defined.

(** A fresh node is offered the snapshot and applies its one chunk. *)
Definition offer : RequestOfferSnapshot := mkOffer (Some listed) [1].
Definition fresh_node : SyncNode (PE := ()) (VDB := gmap Address VoteEntry) :=
  mkSyncNode node store0 (Some (mkSyncLock 0 [] 0 0)).
Definition joining := (offer_snapshot SNAPSHOT_MESSAGE_FORMAT_TEST offer fresh_node).2.

Lemma offers_move_forward_witness :
  (offer_snapshot SNAPSHOT_MESSAGE_FORMAT_TEST offer fresh_node).1 = Ok OfferAccept ∧
  offer_acceptable SNAPSHOT_MESSAGE_FORMAT_TEST listed offer fresh_node.
Proof.
  destruct (offer_snapshot SNAPSHOT_MESSAGE_FORMAT_TEST offer fresh_node) as [r n'] eqn:Hrun.
  assert (match (offer_snapshot SNAPSHOT_MESSAGE_FORMAT_TEST offer fresh_node).1 with
          | Ok OfferAccept => true | _ => false end = true) as Hr by (vm_compute; reflexivity).
  rewrite Hrun in Hr. destruct r as [[]| |]; try discriminate Hr. split; [reflexivity|].
  apply offers_move_forward in Hrun as (s & Hs & Hok & _).
  assert (s = listed) as -> by exact (eq_sym (f_equal (default s) Hs)). exact Hok.
Defined.

#[local] Program Instance sample_stored : StoredBlocks := {| stored_blocks d := d |}.
Next Obligation. intros bs outcome updates d d' [= <-]. done. Qed.

Lemma state_sync_restores_witness :
  ∃ client', accept_chunks config 0 (served server listed) joining client' ∧
    ab_db (sn_app client') = ab_db (sn_app joining) ++ [seal_block b8] ∧ sm_height listed = 8.
Proof.
  assert (∃ client', accept_chunks config 0 (served server listed) joining client') as [client' Hacc].
  { replace (served server listed) with [[8]] by (vm_compute; reflexivity). cbn [accept_chunks].
    destruct (apply_snapshot_chunk config (mkApply 0 [8]) joining) as [r m] eqn:Hrun.
    assert (match (apply_snapshot_chunk config (mkApply 0 [8]) joining).1 with
            | Ok ApplyAccept => true | _ => false end = true) as Hr by (vm_compute; reflexivity).
    rewrite Hrun in Hr. destruct r as [[]| |]; try discriminate Hr.
    exists m, m. split; reflexivity. }
  exists client'. split; [exact Hacc|].
  destruct (state_sync_restores manager_config SNAPSHOT_MESSAGE_FORMAT_TEST config [b8; b9] server listed
              joining client' store2_reach listed_in) as (before & chunks & after & b & _ & Hm & _ & Hst & Hl & Hh & _);
    [vm_compute; discriminate|exact Hacc|].
  assert (mapM decode_blocks (served server listed) = Some [[b8]]) as Heq by (vm_compute; reflexivity).
  rewrite Heq in Hm. injection Hm as <-. injection Hl as <-. split; [exact Hst|]. rewrite Hh. reflexivity.
Defined.
End StateSyncSample.
