(* ===== verification/RpcTypes.v ===== *)
(** * Messages of the server's interface

    [bin/btc-server/src/rpc/type_extensions.rs], the UTXO conversions of
    [database/mod.rs] and the parsers of [util.rs]: how the messages of the gRPC
    interface become the server's own data and back.  The message types are the
    ones [proto/btc_server.proto] declares: message fields are optional, a string
    is its UTF-8 bytes.  Points in time are whole seconds since the epoch. *)

From S2P Require Import Prelude Bitcoin Psbt Database.

(** ** Messages *)

Record RpcOutPoint := { ro_txid : bytes; ro_vout : Z }.
Record RpcScriptBuf := { script : bytes }.
Record RpcTxOut := { rt_value : Z; rt_script_pubkey : option RpcScriptBuf }.
Record RpcTxIn := {
  ri_previous_outpoint : option RpcOutPoint;
  ri_script_sig : option RpcScriptBuf;
  ri_sequence : Z;
  ri_witness : list bytes;
}.
Record RpcTransaction := {
  rx_version : Z;
  rx_lock_time : Z;
  rx_input : list RpcTxIn;
  rx_output : list RpcTxOut;
}.
Record RpcUtxo := {
  ru_outpoint : option RpcOutPoint;
  ru_output : option RpcTxOut;
  ru_eth_address : bytes;
}.
Record RpcUtxoToRecover := { rr_outpoint : option RpcOutPoint; rr_eth_address : bytes }.
Record RpcPendingPegout := {
  rp_pegout_id : bytes;
  rp_spk : bytes;
  rp_amount : Z;
  rp_height : Z;
  rp_timestamp : Z;
}.
Record RpcFinalizedPegout := {
  rf_id : bytes;
  rf_botanix_block_height : Z;
  rf_botanix_block_timestamp : Z;
}.
(** [prost_types::Timestamp] *)
Record RpcTimestamp := { seconds : Z; nanos : Z }.
Record RpcTrackedTx := {
  rk_txid : bytes;
  rk_tx : option RpcTransaction;
  rk_pegout_idxs : list Z;
  rk_pegout_requests : list RpcPendingPegout;
  rk_change_idxs : list Z;
  rk_created : option RpcTimestamp;
}.

(** ** Libraries: the [hex] crate and scripts of the [bitcoin] crate *)

Class TextLib := {
  hex_encode : bytes → bytes;
  hex_decode : bytes → option bytes;
  is_p2tr : Script → bool;
  (** [consensus::deserialize::<ScriptBuf>]: all bytes must be used *)
  deserialize_script : bytes → option Script;
}.
(** The two character sets of [hex]: encoding uses the lower-case digits. *)
Definition is_hex_digit (c : Z) : bool := ((48 <=? c) && (c <=? 57)) || ((97 <=? c) && (c <=? 102)).
Class TextLibLaws `{TextLib} : Prop := {
  hex_decode_encode b : Forall is_byte b → hex_decode (hex_encode b) = Some b;
  hex_encode_digits b : Forall (λ c, is_hex_digit c = true) (hex_encode b);
  hex_encode_nil b : hex_encode b = [] → b = [];
}.

(** ** Parsers of [util.rs] *)

Inductive ParsingError := FrostPeerId | BadEthAddress | SigningSessionId.

(** [trim_start_matches] with the pattern 0x: every leading occurrence. *)
Fixpoint trim_0x (s : bytes) : bytes :=
  match s with
  | 48 :: 120 :: s' => trim_0x s'
  | _ => s
  end.
Definition to_ascii_lowercase (s : bytes) : bytes :=
  (λ c, if (65 <=? c) && (c <=? 90) then c + 32 else c) <$> s.

Definition parse_eth_address `{TextLib} (eth_address : bytes) : result ParsingError bytes :=
  let? b := ok_or (hex_decode (to_ascii_lowercase (trim_0x eth_address))) BadEthAddress in
  if negb (length b =? 20)%nat then Err BadEthAddress else Ok b.

Definition deserialize_frost_peer_id `{Frost} (id : bytes) : result ParsingError Identifier :=
  if negb (length id =? 32)%nat then Err FrostPeerId else ok_or (id_deserialize id) FrostPeerId.

Definition parse_signing_session_id (session_id : bytes) : result ParsingError bytes :=
  if negb (length session_id =? 32)%nat then Err SigningSessionId else Ok session_id.

(** [Txid::from_slice] and [consensus::deserialize::<Txid>]: 32 bytes. *)
Definition hash_from_slice (b : bytes) : option bytes := if (length b =? 32)%nat then Some b else None.
(** [BlockHash::consensus_decode]: the first 32 bytes of the reader. *)
Definition hash_consensus_decode (b : bytes) : option bytes :=
  if (32 <=? length b)%nat then Some (take 32 b) else None.

(** ** Conversions of [type_extensions.rs] *)

Inductive TryFromError := InvalidTxid.

Definition rpc_txin_validate (i : RpcTxIn) : result () () :=
  match ri_previous_outpoint i with
  | None => Err tt
  | Some o =>
      match hash_from_slice (ro_txid o) with
      | None => Err tt
      | Some _ => match ri_script_sig i with None => Err tt | Some _ => Ok tt end
      end
  end.
Definition rpc_txout_validate (o : RpcTxOut) : result () () :=
  match rt_script_pubkey o with None => Err tt | Some _ => Ok tt end.
Definition rpc_tracked_tx_validate (t : RpcTrackedTx) : result () () :=
  match rk_tx t with
  | None => Err tt
  | Some _ => match rk_created t with None => Err tt | Some _ => Ok tt end
  end.

Definition rpc_outpoint_from (o : OutPoint) : RpcOutPoint :=
  {| ro_txid := op_txid o; ro_vout := vout o |}.
Definition outpoint_try_from (o : RpcOutPoint) : result TryFromError OutPoint :=
  let? t := ok_or (hash_from_slice (ro_txid o)) InvalidTxid in
  Ok (mkOutPoint t (ro_vout o)).

Definition rpc_txin_from (i : TxIn) : RpcTxIn :=
  {| ri_previous_outpoint := Some (rpc_outpoint_from (previous_output i));
     ri_script_sig := Some {| script := script_sig i |};
     ri_sequence := sequence i; ri_witness := txin_witness i |}.
Definition rpc_txout_from (o : TxOut) : RpcTxOut :=
  {| rt_value := value o; rt_script_pubkey := Some {| script := script_pubkey o |} |}.

(** A missing timestamp becomes the time of the conversion. *)
Definition rpc_pending_pegout_from (now : Z) (r : PegoutRequest) : RpcPendingPegout :=
  {| rp_pegout_id := as_bytes (req_id r); rp_spk := req_spk r; rp_amount := req_value r;
     rp_height := req_botanix_height r; rp_timestamp := default now (req_timestamp r) |}.

(** [as i64] *)
Definition as_i64 (x : Z) : Z :=
  let w := wrap64 x in if w <? 2 ^ 63 then w else w - 2 ^ 64.

(** A creation time before the epoch panics. *)
Definition rpc_tracked_tx_from (now : Z) (t : Tx) : result TryFromError RpcTrackedTx :=
  let? _ := rassert (0 <=? created t) in
  Ok {| rk_txid := txid t;
        rk_tx := Some {| rx_version := tx_version (tx t); rx_lock_time := lock_time (tx t);
                         rx_input := rpc_txin_from <$> input (tx t);
                         rx_output := rpc_txout_from <$> output (tx t) |};
        rk_pegout_idxs := (λ i, wrap32 (Z.of_nat i)) <$> pegout_idxs t;
        rk_pegout_requests := rpc_pending_pegout_from now <$> pegout_requests t;
        rk_change_idxs := (λ i, wrap32 (Z.of_nat i)) <$> change_idxs t;
        rk_created := Some {| seconds := as_i64 (created t); nanos := 0 |} |}.

(** ** UTXOs *)

Section utxo.
Context `{TextLib}.

Definition parse_p2tr_script_with_fallback (script_bytes : bytes) : Script :=
  if is_p2tr script_bytes then script_bytes
  else
    match deserialize_script script_bytes with
    | Some s => if is_p2tr s then s else script_bytes
    | None => script_bytes
    end.

Definition utxo_try_from (u : RpcUtxo) : result DbError Utxo :=
  let? o := ok_or (ru_outpoint u) DbRpcToDbMap in
  let? t := ok_or (hash_from_slice (ro_txid o)) DbRpcToDbMap in
  let? out := ok_or (ru_output u) DbRpcToDbMap in
  let? spk := ok_or (rt_script_pubkey out) DbRpcToDbMap in
  let? addr := match ru_eth_address u with
               | [] => Ok None
               | s => let? a := map_err (λ _, DbRpcToDbMap) (parse_eth_address s) in Ok (Some a)
               end in
  Ok (utxo_new (mkOutPoint t (ro_vout o))
        {| value := rt_value out;
           script_pubkey := parse_p2tr_script_with_fallback (script spk) |}
        addr (Some V1)).

Definition rpc_utxo_from (u : Utxo) : RpcUtxo :=
  {| ru_outpoint := Some {| ro_txid := op_txid (outpoint u); ro_vout := vout (outpoint u) |};
     ru_output := Some {| rt_value := value (utxo_output u);
                          rt_script_pubkey := Some {| script := script_pubkey (utxo_output u) |} |};
     ru_eth_address := from_option hex_encode [] (utxo_eth_address u) |}.

(** [iter().map(try_from).collect::<Result<Vec<_>, _>>()] *)
Fixpoint try_all {E A B} (f : A → result E B) (l : list A) : result E (list B) :=
  match l with
  | [] => Ok []
  | x :: l' => let? y := f x in let? rest := try_all f l' in Ok (y :: rest)
  end.

End utxo.

(** ** [utxo_recovery/mod.rs]: the entries of the recovery file *)

Record UtxoRecoveryData := { rd_txid : bytes; rd_vout : Z; rd_eth_address : bytes }.
(** [txid_from_str]: parsing a transaction id from its reversed hexadecimal form. *)
Definition utxo_to_recover_try_from (txid_from_str : bytes → option Txid) (d : UtxoRecoveryData)
    : result () RpcUtxoToRecover :=
  let? t := ok_or (txid_from_str (rd_txid d)) tt in
  Ok {| rr_outpoint := Some {| ro_txid := t; ro_vout := rd_vout d |};
        rr_eth_address := rd_eth_address d |}.
(** [None]: the file cannot be read or parsed. *)
Definition read_utxos_from_file (txid_from_str : bytes → option Txid)
    (file : option (list UtxoRecoveryData)) : list RpcUtxoToRecover :=
  match file with
  | Some l => omap (λ d, match utxo_to_recover_try_from txid_from_str d with
                         | Ok u => Some u
                         | _ => None
                         end) l
  | None => []
  end.
