(* ===== verification/Jwt.v ===== *)
(** * Tokens

    [bin/btc-server/client/src/jwt.rs]: the secret the node and the wallet server share, the
    tokens made with it, and the file it is kept in.

    The crates [jsonwebtoken] and [base64] are parameters ([JwtLib]), as is [hex] ([TextLib]).
    [jsonwebtoken] checks the signature, the algorithm and, if there is one, the expiry; the
    time of issue is checked here.  Text is UTF-8. *)

From S2P Require Import Prelude RpcTypes.
Local Open Scope Z_scope.

Abbreviation JwtSecret := bytes.

Record Claims := mkClaims { iat : Z; exp : option Z }.

(** The kinds of [jsonwebtoken::errors::ErrorKind] that [validate] tells apart. *)
Inductive ErrorKind := InvalidSignatureKind | InvalidAlgorithmKind | OtherKind.

Inductive JwtError :=
  | JwtSecretHexDecodeError
  | InvalidLength (expected found : Z)
  | UnsupportedSignatureAlgorithm
  | InvalidSignature
  | InvalidIssuanceTimestamp
  | JwtDecodingError
  | CreateDir
  | ReadFile
  | WriteFile.

Class JwtLib := {
  base64_decode : bytes → option bytes;
  (** the bytes are a string *)
  from_utf8 : bytes → bool;
  (** [decode] with [HS256] and the required claim [iat], on the key, the time and the token *)
  jsonwebtoken_decode : bytes → Z → bytes → result ErrorKind Claims;
  (** [encode] with [HS256] *)
  jsonwebtoken_encode : bytes → Claims → option bytes;
}.
Module JwtSecret.

(** ** Strings *)

(** [char::is_whitespace]: the encodings of the characters. *)
Definition WHITESPACE : list bytes :=
  [[9]; [10]; [11]; [12]; [13]; [32]; [194; 133]; [194; 160]; [225; 154; 128];
   [226; 128; 128]; [226; 128; 129]; [226; 128; 130]; [226; 128; 131]; [226; 128; 132];
   [226; 128; 133]; [226; 128; 134]; [226; 128; 135]; [226; 128; 136]; [226; 128; 137];
   [226; 128; 138]; [226; 128; 168]; [226; 128; 169]; [226; 128; 175]; [226; 129; 159];
   [227; 128; 128]].
Definition starts_with (w s : bytes) : bool := bool_decide (take (length w) s = w).
(** Remove the first of [ws] again and again; each removal takes a byte. *)
Fixpoint strip_all (ws : list bytes) (fuel : nat) (s : bytes) : bytes :=
  match fuel, list_find (λ w, starts_with w s = true) ws with
  | S fuel, Some (_, w) => strip_all ws fuel (drop (length w) s)
  | _, _ => s
  end.
Definition trim_start (s : bytes) : bytes := strip_all WHITESPACE (length s) s.
Definition trim_end (s : bytes) : bytes :=
  reverse (strip_all (reverse <$> WHITESPACE) (length s) (reverse s)).
(** [str::trim] *)
Definition trim (s : bytes) : bytes := trim_end (trim_start s).

Definition JWT_SECRET_LEN : Z := 64.
Definition JWT_MAX_IAT_DIFF : Z := 60.

Definition with_current_timestamp (now : Z) : Claims := mkClaims now None.
(** [u64::abs_diff] *)
Definition is_within_time_window (now : Z) (c : Claims) : bool := Z.abs (now - iat c) <=? JWT_MAX_IAT_DIFF.

Section secret.
Context `{TextLib}.

Definition from_hex (hex : bytes) : result JwtError JwtSecret :=
  let hex := trim_0x (trim hex) in
  let len := Z.of_nat (length hex) in
  if negb (len =? JWT_SECRET_LEN) then Err (InvalidLength JWT_SECRET_LEN len)
  else
    let? hex_bytes := ok_or (hex_decode hex) JwtSecretHexDecodeError in
    if (length hex_bytes =? 32)%nat then Ok hex_bytes else Panic.

(** [random_bytes]: 32 bytes *)
Definition random (random_bytes : bytes) : result JwtError JwtSecret :=
  match from_hex (hex_encode random_bytes) with Ok s => Ok s | _ => Panic end.

(** The file of the secret: its contents, if it is there.  [None] as a result of the file
    system is a failure. *)
Definition from_file (read_to_string : option bytes) : result JwtError JwtSecret :=
  let? hex := ok_or read_to_string ReadFile in from_hex hex.
Definition try_create_random (dir_made written : bool) (random_bytes : bytes) :
    SM (option bytes) JwtError JwtSecret :=
  if negb dir_made then slift (Err CreateDir)
  else
    let* secret := slift (random random_bytes) in
    if negb written then slift (Err WriteFile)
    else smodify (λ _, Some (hex_encode secret)) ;;* sret secret.
(** [get_or_create_jwt_secret_from_path] of the server *)
Definition get_or_create_jwt_secret (readable dir_made written : bool) (random_bytes : bytes) :
    SM (option bytes) JwtError JwtSecret :=
  let* file := sget in
  match file with
  | Some contents => slift (from_file (if readable then Some contents else None))
  | None => try_create_random dir_made written random_bytes
  end.
End secret.

Section token.
Context `{!JwtLib}.

Definition validate (secret : JwtSecret) (now : Z) (jwt : bytes) : result JwtError () :=
  match jsonwebtoken_decode secret now jwt with
  | Ok claims =>
      if negb (is_within_time_window now claims) then Err InvalidIssuanceTimestamp else Ok tt
  | Err InvalidSignatureKind => Err InvalidSignature
  | Err InvalidAlgorithmKind => Err UnsupportedSignatureAlgorithm
  | Err OtherKind => Err JwtDecodingError
  | Panic => Panic
  end.
Definition encode (secret : JwtSecret) (claims : Claims) : option bytes :=
  jsonwebtoken_encode secret claims.
End token.
End JwtSecret.
