(* ===== verification/Server.v ===== *)
(** * The server's handlers

    [bin/btc-server/src/bin/main.rs]: the state of the running server ([App]) and
    the handlers of its gRPC interface, over the database, the pegout scheduler,
    the signer, the coordinator and the key generation machine.

    A handler is an effect on the server's state that ends with a response, a
    status or a panic.  The database handle of [App] and the one inside the
    scheduler are clones of one store: the store is the scheduler's field [db].
    The numbers of bitcoind calls and of random draws made so far are part of the
    state.  Logging and metrics have no effect on it; where metrics are switched
    on and their code can make a handler fail, that is modelled ([telemetry]). *)

From S2P Require Import Prelude Bitcoin Psbt Database PegoutScheduler CoinSelection ValidatePsbt Signing Codec Headers Peg DkgEncryption Dkg RpcTypes Jwt.
Local Open Scope Z_scope.

(** ** Libraries *)

(** The calls to bitcoind the handlers make beside the scheduler's.
    [already_in_chain e], [missingorspent e]: the error's text contains "already
    in chain", "bad-txns-inputs-missingorspent". *)
Class BitcoindWallet `{Bitcoind} := {
  get_tx_out : nat → OutPoint → result RpcError (option TxOut);
  send_raw_transaction : nat → Transaction → result RpcError Txid;
  (** the fee rate as an amount per kilobyte *)
  estimate_smart_fee : nat → result RpcError (option Z);
  get_block_count : nat → result RpcError Z;
  get_block_hash : nat → Z → result RpcError BlockHash;
  already_in_chain : RpcError → bool;
  missingorspent : RpcError → bool;
}.

(** Serialization of PSBTs and of key generation messages, FROST key packages,
    addresses, and the conversion of fee rates (floating point). *)
Class WireLib `{DkgLib, !Secp256k1, !PegLib} := {
  psbt_serialize : Psbt → bytes;
  psbt_deserialize : bytes → option Psbt;
  msg_encode : DkgMessage → bytes;
  msg_decode : bytes → option DkgMessage;
  (** [Identifier::derive] of a [u16] in little-endian bytes *)
  id_derive : Z → option Identifier;
  kp_verifying_key : KeyPackage → VerifyingKey;
  pkp_verifying_key : PublicKeyPackage → VerifyingKey;
  (** [ScriptBuf::new_p2tr] without a script tree *)
  new_p2tr : bytes → Script;
  (** [Address::from_script] succeeds *)
  address_from_script : Script → Network → bool;
  taproot_address : Script → Network → bytes;
  btc_per_kb_to_sat_per_vb : Z → Z;
}.

Definition UPPER_PEGOUT_BOUND : nat := 100.
Definition DEFAULT_COORDINATOR_ID : Z := 0.

(** ** Requests and responses *)

Record ConsensusCheckpointRequest := {
  checkpoint_block_hash : bytes;
  pegins : list RpcUtxo;
  cc_pending_pegouts : list RpcPendingPegout;
}.
Record SigningPackageRequest := { spr_psbt : bytes; spr_session : bytes }.
Record SigningPackage := { pkg_psbt : bytes; pkg_identifier : bytes; pkg_session : bytes }.
Record MakeTxRequest := { mt_session : bytes; mt_checkpoint : bytes }.
Record RpcDkgPayload := { dp_sender : bytes; dp_recipient : bytes; dp_payload : bytes }.
Record RpcDkgPayloads := { dp_timeout : Z; dp_payloads : list RpcDkgPayload }.
Record GetFinalizedPegoutIdsResponse := {
  data : list RpcFinalizedPegout;
  chunk_index : Z;
  total_chunks : Z;
  is_final : bool;
}.
Record GetGatewayAddressResponse := {
  gw_publickey : bytes;
  gw_tweaked_public_key : bytes;
  gateway_address : bytes;
}.
Record RecoverMissingUtxosResponse := { total_requested : Z; total_recovered : Z }.

(** ** Errors *)

(** The top-level [Error], as far as the handlers produce it; [to_status] makes
    an internal status of each.  [ErrBitcoind]: the database's [BitcoindError]. *)
Inductive Error `{Bitcoind} :=
  | SigningRound1 (e : Signer.SigningRound1Error)
  | SigningRound2 (e : Signer.SigningRound2Error)
  | FailedToDeserializePegoutId
  | Coordination (e : Coordinator.CoordinatorError)
  | Parsing (e : ParsingError)
  | ErrDb (e : DbError)
  | ErrBitcoind (e : RpcError)
  | PegoutSchedulerSync (e : SyncError)
  | DkgStateMachineError (e : DkgError)
  | DkgDeserialization.

(** The other messages a status carries. *)
Inductive Message :=
  | MJwtBase64 | MJwtUtf8 | MJwtFailed | MJwtMissing
  | MCheckpointHash | MUtxos | MCheckpointBlock | MPegoutSpk | MPegoutId
  | MPsbt | MExtractTx | MInSession | MNotInSession | MTooManyPegouts
  | MMissingKeyPackage | MTweak | MPublicKey | MFinalize (e : Coordinator.CoordinatorError)
  | MTipHeight | MBroadcast | MHaveKeyPackage | MNoDkg
  | MTrackedTx | MFinalizedIds | MMissingOutpoint | MOutpoint | MGetTxOut | MEthAddress.

Inductive Status `{Bitcoind} :=
  | Internal (e : Error)
  | InternalMsg (m : Message)
  | BadArg (m : Message)
  | Unauthenticated (m : Message)
  | AlreadyExists (m : Message).

(** ** The state *)

Section state.
Context `{BitcoinLib, FrostSign, !DkgLib}.

Record DkgState := {
  machine : DkgStateMachine;
  dkg_stage : option Stage;
  dkg_session_nonce : option Z;
}.

Record App := {
  pegout_scheduler : PegoutScheduler;
  dkg : option DkgState;
  frost_round1_nonces : option (list (SigningNonces * SigningCommitments));
  calls : nat;
  nonce_draws : nat;
}.

Definition app_db (a : App) : Db := PegoutScheduler.db (pegout_scheduler a).
Definition put_scheduler (s : PegoutScheduler) (a : App) : App :=
  {| pegout_scheduler := s; dkg := dkg a; frost_round1_nonces := frost_round1_nonces a;
     calls := calls a; nonce_draws := nonce_draws a |}.
Definition put_db (d : Db) (a : App) : App := put_scheduler (with_db d (pegout_scheduler a)) a.
Definition put_dkg (x : option DkgState) (a : App) : App :=
  {| pegout_scheduler := pegout_scheduler a; dkg := x;
     frost_round1_nonces := frost_round1_nonces a; calls := calls a;
     nonce_draws := nonce_draws a |}.
Definition put_nonces (x : option (list (SigningNonces * SigningCommitments))) (a : App) : App :=
  {| pegout_scheduler := pegout_scheduler a; dkg := dkg a; frost_round1_nonces := x;
     calls := calls a; nonce_draws := nonce_draws a |}.
Definition put_calls (n : nat) (a : App) : App :=
  {| pegout_scheduler := pegout_scheduler a; dkg := dkg a;
     frost_round1_nonces := frost_round1_nonces a; calls := n; nonce_draws := nonce_draws a |}.
Definition put_draws (n : nat) (a : App) : App :=
  {| pegout_scheduler := pegout_scheduler a; dkg := dkg a;
     frost_round1_nonces := frost_round1_nonces a; calls := calls a; nonce_draws := n |}.

(** [print_dkg_state_log]: the stage and nonce last logged. *)
Definition print_dkg_state_log (x : DkgState) : DkgState :=
  let x1 :=
    match Dkg.session_nonce (machine x) with
    | Some current =>
        match dkg_session_nonce x with
        | Some tracked =>
            if bool_decide (tracked = current) then x
            else {| machine := machine x; dkg_stage := None; dkg_session_nonce := Some current |}
        | None => {| machine := machine x; dkg_stage := dkg_stage x;
                     dkg_session_nonce := Some current |}
        end
    | None => x
    end in
  {| machine := machine x1; dkg_stage := Some (Dkg.stage (machine x1));
     dkg_session_nonce := dkg_session_nonce x1 |}.

End state.

(** The fixed part of [App]: its configuration.  [identifier] is the FROST
    identifier derived from [config_identifier], see [App.new]. *)
Record AppConfig `{Frost, JwtLib} := {
  btc_network : Network;
  identifier : Identifier;
  config_identifier : Z;
  config_coordinator : option Z;
  app_min_signers : Z;
  excluded_eth_addresses : list bytes;
  jwt_secret : option JwtSecret;
  fall_back_fee_rate : Z;
  telemetry : bool;
}.

(** A request: its token, if it carries one, and its message. *)
Record Request (A : Type) := { metadata : option bytes; get_ref : A }.
Arguments metadata {A} r.
Arguments get_ref {A} r.

Module App.
Section handlers.
Context `{BitcoinLib, FrostSign, !DkgLib, Bdk, Hashing, Bitcoind, !BitcoindWallet, JwtLib}.
Context `{Secp256k1, !PegLib, !WireLib, TextLib}.
Context (cfg : AppConfig).
(** What the clock shows when the handler runs: seconds since the epoch and, for
    key generation, nanoseconds of a monotonic clock. *)
Context (now instant : Z).
(** The bound on the scheduler's retries ([PegoutScheduler]) and on the attempts
    to build a transaction ([Signing]). *)
Context (fuel : nat).

Abbreviation AppM := (SM App Status).

(** ** Effects on the parts *)

Definition on_sched {A} (m : SM PegoutScheduler DbError A) : AppM A :=
  zoom pegout_scheduler put_scheduler (smap_err (λ e, Internal (ErrDb e)) m).
Definition on_db {A} (m : DbM A) : AppM A :=
  zoom app_db put_db (smap_err (λ e, Internal (ErrDb e)) m).
Definition modify_db (f : Db → Db) : AppM () := smodify (λ a, put_db (f (app_db a)) a).
Definition call {A} (f : nat → result RpcError A) : AppM (result RpcError A) := λ a,
  (Ok (f (calls a)), put_calls (S (calls a)) a).
(** [.map_err(..)?] *)
Definition or_status {E A} (s : E → Status) (r : result E A) : AppM A := slift (map_err s r).
Definition fail {A} (s : Status) : AppM A := slift (Err s).
Definition ok_or_status {A} (o : option A) (s : Status) : AppM A := slift (ok_or o s).
Definition parsing {A} (r : result ParsingError A) : AppM A :=
  or_status (λ e, Internal (Parsing e)) r.

(** The gateway's change script. *)
Definition generate_taproot_change_scriptpubkey (pk : Codec.PublicKey) : Script :=
  new_p2tr (x_only_public_key pk).
Definition change_spk (vk : VerifyingKey) : result VerifyingKeyExtError Script :=
  let? pk := to_secp_pk vk in Ok (generate_taproot_change_scriptpubkey pk).
(** As the scheduler and the validation compute it from the public package. *)
Definition change_spk_of (p : PublicKeyPackage) : option Script :=
  match change_spk (pkp_verifying_key p) with Ok s => Some s | _ => None end.

(** ** Authentication *)

Definition validate_jwt {A} (request : Request A) : AppM () :=
  match metadata request, jwt_secret cfg with
  | _, None => sret tt
  | None, Some _ => fail (Unauthenticated MJwtMissing)
  | Some m, Some secret =>
      let* token := ok_or_status (base64_decode m) (BadArg MJwtBase64) in
      if negb (from_utf8 token) then fail (BadArg MJwtUtf8)
      else if negb (is_ok (JwtSecret.validate secret now token)) then fail (Unauthenticated MJwtFailed)
      else sret tt
  end.

Definition is_coordinator : bool :=
  config_identifier cfg =? default DEFAULT_COORDINATOR_ID (config_coordinator cfg).

(** ** The scheduler *)

(** [None] leaves the block the scheduler starts from to [fallback_checkpoint];
    then no tracked transaction is loaded. *)
Definition load_pegout_scheduler (d : Db) (fallback_checkpoint : BlockHash) (depth : Z)
    : result DbError () * PegoutScheduler :=
  match get_pegout_mgr_finalized_block d with
  | Some latest => PegoutScheduler.new depth (get_tracked_txs d) latest d
  | None => PegoutScheduler.new depth [] fallback_checkpoint d
  end.

(** [sync_until], then the new base block and the root of the UTXO set are
    stored. *)
Definition sync_pegout_scheduler (checkpoint : BlockHash) : AppM () :=
  zoom (λ a, (pegout_scheduler a, calls a)) (λ x a, put_calls x.2 (put_scheduler x.1 a))
    (smap_err (λ e, Internal (PegoutSchedulerSync e))
       (sync_until change_spk_of now fuel checkpoint)) ;;*
  let* a := sget in
  modify_db (store_pegout_mgr_finalized_block (last_finalized (pegout_scheduler a))) ;;*
  on_db update_utxo_merkle_root.

Definition add_tracked_tx (t : Transaction) (targets : list PegoutRequest) (timestamp : Z)
    : AppM () :=
  let* x := on_sched (add_tx change_spk_of t targets timestamp) in
  on_db (store_tracked_tx x).

(** ** General endpoints *)

Definition health_check (request : Request ()) : AppM () :=
  validate_jwt request ;;*
  if telemetry cfg then
    λ a, let '(_, x) := is_syncing now (pegout_scheduler a, calls a) in
         (Ok tt, put_calls x.2 a)
  else sret tt.

(** One pending pegout of a request. *)
Definition parse_pending_pegout (p : RpcPendingPegout) : result Status PegoutRequest :=
  if negb (address_from_script (rp_spk p) (btc_network cfg)) then Err (BadArg MPegoutSpk)
  else
    let? id := map_err (λ _, BadArg MPegoutId) (from_bytes (rp_pegout_id p)) in
    Ok {| req_id := id; req_spk := rp_spk p; req_value := rp_amount p;
          req_botanix_height := rp_height p; req_timestamp := Some (rp_timestamp p) |}.

(** The ids that are paid or being paid. *)
Definition broadcasted_pegout_ids (a : App) : gset PegoutId :=
  list_to_set ((fin_id <$> get_finalized_pegout_ids (app_db a)) ++
               tracked_pegout_request_ids (pegout_scheduler a)).

(** The pegins of a block, and the sum of all UTXOs for the metrics. *)
Definition store_pegins (l : list RpcUtxo) : AppM () :=
  let* utxos := or_status (λ _, BadArg MUtxos) (try_all utxo_try_from l) in
  modify_db (λ d, (store_utxos utxos d).2) ;;*
  on_db update_utxo_merkle_root ;;*
  let* a := sget in
  let* _ := slift (amount_sum ((λ u, value (utxo_output u)) <$> get_all_utxos (app_db a))) in
  sret tt.

(** The pegouts of a block that are not yet paid or being paid; none when the
    wallet is empty. *)
Definition store_pegouts (l : list RpcPendingPegout) : AppM () :=
  let* a := sget in
  let '(available_utxos, tracked_inputs) := get_available_utxos (app_db a) in
  if bool_decide (available_utxos = ∅) && bool_decide (tracked_inputs = ∅) then sret tt
  else
    let* pegouts := slift (try_all parse_pending_pegout l) in
    let broadcasted := broadcasted_pegout_ids a in
    on_db (store_pending_pegouts (filter (λ p, req_id p ∉ broadcasted) pegouts)).

Definition new_consensus_checkpoint (request : Request ConsensusCheckpointRequest) : AppM () :=
  validate_jwt request ;;*
  let req := get_ref request in
  let* checkpoint := ok_or_status (hash_consensus_decode (checkpoint_block_hash req))
                       (BadArg MCheckpointHash) in
  sync_pegout_scheduler checkpoint ;;*
  store_pegins (pegins req) ;;*
  (if telemetry cfg then
     let* r := call (λ n, get_block_info n checkpoint) in
     let* _ := or_status (λ _, BadArg MCheckpointBlock) r in sret tt
   else sret tt) ;;*
  store_pegouts (cc_pending_pegouts req).

(** [finalize]: miniscript's finalizer on a copy of the PSBT. *)
Definition get_signing_status (finalize : Psbt → bool) (request : Request bytes)
    : AppM SigningStatus :=
  validate_jwt request ;;*
  let* session := parsing (parse_signing_session_id (get_ref request)) in
  let* a := sget in
  sret (Database.get_signing_status finalize session (app_db a)).

Definition get_session_ids (request : Request Z) : AppM (list bytes) :=
  validate_jwt request ;;*
  let* a := sget in
  or_status (λ e, Internal (ErrDb e)) (Database.get_session_ids (get_ref request) (app_db a)).

(** ** Pegouts *)

Definition get_pending_pegouts (request : Request ()) : AppM (list RpcPendingPegout) :=
  validate_jwt request ;;*
  let* a := sget in
  sret (rpc_pending_pegout_from now <$> Database.get_pending_pegouts (app_db a)).

Definition rpc_finalized_pegout_from (p : FinalizedPegout) : RpcFinalizedPegout :=
  {| rf_id := as_bytes (fin_id p); rf_botanix_block_height := fin_block_number p;
     rf_botanix_block_timestamp := default now (fin_timestamp p) |}.

(** The batches sent to a client that stays connected; a channel of capacity
    zero panics. *)
Definition get_finalized_pegout_ids (request : Request Z)
    : AppM (list GetFinalizedPegoutIdsResponse) :=
  validate_jwt request ;;*
  let chunk_size := Z.to_nat (get_ref request) in
  slift (rassert (negb (chunk_size =? 0)%nat)) ;;*
  let* a := sget in
  let* items := or_status (λ e, Internal (ErrDb e))
                  (get_finalized_pegout_ids_stream chunk_size (app_db a)) in
  sret ((λ '(ids, index, total),
           {| data := rpc_finalized_pegout_from <$> ids; chunk_index := index;
              total_chunks := total; is_final := index + 1 =? total |}) <$> items).

(** ** Wallet state *)

Definition reset_all_utxos (request : Request (list RpcUtxo)) : AppM () :=
  validate_jwt request ;;*
  let* utxos := or_status (λ e, Internal (ErrDb e)) (try_all utxo_try_from (get_ref request)) in
  modify_db (reset_utxos utxos).

Definition get_all_utxos (request : Request ()) : AppM (list RpcUtxo) :=
  validate_jwt request ;;*
  let* a := sget in
  sret (rpc_utxo_from <$> Database.get_all_utxos (app_db a)).

Definition get_wallet_state (request : Request ()) : AppM WalletState :=
  validate_jwt request ;;*
  let* a := sget in
  sret (get_wallet_state_commitment (app_db a)).

Definition get_tracked_txs (request : Request ()) : AppM (list RpcTrackedTx) :=
  validate_jwt request ;;*
  let* a := sget in
  or_status (λ _, InternalMsg MTrackedTx)
    (try_all (rpc_tracked_tx_from now) (Database.get_tracked_txs (app_db a))).

Definition parse_finalized_pegout (v : RpcFinalizedPegout) : result () FinalizedPegout :=
  let? id := from_bytes (rf_id v) in
  Ok {| fin_id := id; fin_block_number := rf_botanix_block_height v;
        fin_timestamp := Some (rf_botanix_block_timestamp v) |}.

Definition reset_wallet_state (request : Request (list RpcFinalizedPegout)) : AppM () :=
  validate_jwt request ;;*
  let* ids := or_status (λ _, InternalMsg MFinalizedIds)
                (try_all parse_finalized_pegout (get_ref request)) in
  modify_db (reset_finalized_pegout_ids ids).

(** ** The signer *)

Definition abort_signing (request : Request ()) : AppM () := smodify (put_nonces None).

(** Run the signer on the database and a PSBT. *)
Definition signing {E A} (s : E → Status) (p : Psbt) (m : SM (Db * Psbt) E A) : AppM (A * Psbt) :=
  λ a, let '(r, x) := m (app_db a, p) in
       (map_err s (rbind r (λ v, Ok (v, x.2))), put_db x.1 a).

Definition response (p : Psbt) (session : bytes) : SigningPackage :=
  {| pkg_psbt := psbt_serialize p; pkg_identifier := id_serialize (identifier cfg);
     pkg_session := session |}.

Definition get_round1_signing_package (request : Request SigningPackageRequest)
    : AppM SigningPackage :=
  validate_jwt request ;;*
  let req := get_ref request in
  let* session := parsing (parse_signing_session_id (spr_session req)) in
  let* a := sget in
  if bool_decide (is_Some (frost_round1_nonces a)) then fail (InternalMsg MInSession)
  else
    let* p := ok_or_status (psbt_deserialize (spr_psbt req)) (BadArg MPsbt) in
    smodify (put_draws (nonce_draws a + length (inputs p))) ;;*
    let* '(nonces, p') :=
      signing (λ e, Internal (SigningRound1 e)) p
        (Signer.get_round1_signing_package change_spk_of (app_min_signers cfg) (identifier cfg)
           (nonce_draws a)) in
    smodify (put_nonces (Some nonces)) ;;*
    sret (response p' session).

(** The pegout ids of the PSBT's outputs. *)
Fixpoint psbt_pegout_ids (l : list PsbtOutput) : result Status (list PegoutId) :=
  match l with
  | [] => Ok []
  | o :: l' =>
      match pegout_id o with
      | Some b =>
          let? id := map_err (λ _, Internal FailedToDeserializePegoutId) (from_bytes b) in
          let? rest := psbt_pegout_ids l' in
          Ok (id :: rest)
      | None => psbt_pegout_ids l'
      end
  end.

(** After signing: the transaction is tracked with the pending pegouts it pays,
    and a member that is not the coordinator clears its pending pegouts. *)
Definition track_signed_tx (p : Psbt) (session : bytes) : AppM SigningPackage :=
  let* signed_tx := slift (match extract_tx p with Ok t => Ok t | _ => Panic end) in
  if (UPPER_PEGOUT_BOUND + 1 <? length (outputs p))%nat then fail (BadArg MTooManyPegouts)
  else
    let* ids := slift (psbt_pegout_ids (outputs p)) in
    let* a := sget in
    let psbt_pending := filter (λ r, req_id r ∈ ids) (Database.get_pending_pegouts (app_db a)) in
    add_tracked_tx signed_tx psbt_pending now ;;*
    (if negb is_coordinator then on_db (reset_pending_pegouts []) else sret tt) ;;*
    sret (response p session).

Definition get_round2_signing_package (request : Request SigningPackageRequest)
    : AppM SigningPackage :=
  validate_jwt request ;;*
  let* a := sget in
  match frost_round1_nonces a with
  | None => fail (InternalMsg MNotInSession)
  | Some signing_nonces =>
      let req := get_ref request in
      let* session := parsing (parse_signing_session_id (spr_session req)) in
      let* p := ok_or_status (psbt_deserialize (spr_psbt req)) (BadArg MPsbt) in
      let* '(_, p') :=
        signing (λ e, Internal (SigningRound2 e)) p
          (Signer.get_round2_signing_package change_spk_of (app_min_signers cfg) (identifier cfg)
             signing_nonces) in
      smodify (put_nonces None) ;;*
      track_signed_tx p' session
  end.

(** ** Broadcasting *)

(** Remove every input of the transaction that is in the database and no longer
    unspent on chain. *)
Fixpoint handle_invalid_inputs (l : list TxIn) : AppM () :=
  match l with
  | [] => sret tt
  | i :: l' =>
      let* a := sget in
      match get_utxo (previous_output i) (app_db a) with
      | Some _ =>
          let* r := call (λ n, get_tx_out n (previous_output i)) in
          let* out := or_status (λ e, Internal (ErrBitcoind e)) r in
          match out with
          | None => modify_db (remove_utxo (previous_output i))
          | Some _ => sret tt
          end
      | None => sret tt
      end ;;*
      handle_invalid_inputs l'
  end.

Definition handle_broadcast_error (err : RpcError) (t : Transaction) : AppM () :=
  if already_in_chain err then sret tt
  else
    (if missingorspent err then handle_invalid_inputs (input t) else sret tt) ;;*
    on_sched (un_track_tx (compute_txid t)) ;;*
    fail (InternalMsg MBroadcast).

(** ** The coordinator *)

(** [PegoutId::from_bytes(..).expect(..)] on every id. *)
Definition parse_pegout_ids (l : list bytes) : result Status (list PegoutId) :=
  try_all (λ b, match from_bytes b with Ok id => Ok id | _ => Panic end) l.

Definition finalize_signing (request : Request bytes) : AppM bytes :=
  validate_jwt request ;;*
  let* session := parsing (parse_signing_session_id (get_ref request)) in
  let* a := sget in
  let* p := or_status (λ e, InternalMsg (MFinalize e))
              (Coordinator.finalize_signing session (app_db a)) in
  let* t := or_status (λ _, BadArg MExtractTx) (extract_tx p) in
  let* sent := call (λ n, send_raw_transaction n t) in
  match sent with
  | Ok _ => sret tt
  | Err err => handle_broadcast_error err t
  | Panic => slift Panic
  end ;;*
  (if telemetry cfg then
     let* r := call get_block_count in
     let* _ := or_status (λ _, InternalMsg MTipHeight) r in sret tt
   else sret tt) ;;*
  let* ids := slift (parse_pegout_ids (pegout_ids p)) in
  modify_db (remove_pending_pegout ids) ;;*
  sret (psbt_serialize p).

Definition get_psbt (request : Request MakeTxRequest) : AppM SigningPackage :=
  validate_jwt request ;;*
  let req := get_ref request in
  let* session := parsing (parse_signing_session_id (mt_session req)) in
  let* checkpoint := ok_or_status (hash_from_slice (mt_checkpoint req)) (BadArg MCheckpointHash) in
  let* fee_res := call estimate_smart_fee in
  let fee_rate := match fee_res with
                  | Ok (Some f) => btc_per_kb_to_sat_per_vb f
                  | _ => fall_back_fee_rate cfg
                  end in
  sync_pegout_scheduler checkpoint ;;*
  let* a := sget in
  let tracked := Database.get_tracked_txs (app_db a) in
  let pending := coord_pending_pegouts UPPER_PEGOUT_BOUND (app_db a) in
  let outs := (λ r, (txout r, req_id r)) <$> pending in
  let* k := ok_or_status (get_key_package (app_db a)) (InternalMsg MMissingKeyPackage) in
  let* change_script := or_status (λ _, InternalMsg MTweak) (change_spk (kp_verifying_key k)) in
  let* p := zoom app_db put_db (smap_err (λ e, Internal (Coordination e))
              (Coordinator.make_tx change_spk_of fuel outs fee_rate
                 change_script (app_min_signers cfg) tracked (excluded_eth_addresses cfg))) in
  on_db (update_psbt session p) ;;*
  sret (response p session).

Definition get_to_sign_package (request : Request bytes) : AppM SigningPackage :=
  validate_jwt request ;;*
  let* session := parsing (parse_signing_session_id (get_ref request)) in
  let* p := zoom app_db put_db (smap_err (λ e, Internal (Coordination e))
              (Coordinator.get_to_sign change_spk_of session (app_min_signers cfg))) in
  sret (response p session).

(** Both collecting endpoints. *)
Definition new_signing_package
    (add : bytes → Identifier → Psbt → Z → SM Db Coordinator.CoordinatorError ())
    (request : Request SigningPackage) : AppM () :=
  validate_jwt request ;;*
  let req := get_ref request in
  let* session := parsing (parse_signing_session_id (pkg_session req)) in
  let* frost_id := parsing (deserialize_frost_peer_id (pkg_identifier req)) in
  let* p := ok_or_status (psbt_deserialize (pkg_psbt req)) (BadArg MPsbt) in
  zoom app_db put_db (smap_err (λ e, Internal (Coordination e))
    (add session frost_id p (app_min_signers cfg))).
Definition new_round1_signing_package (request : Request SigningPackage) : AppM () :=
  new_signing_package (Coordinator.add_round1_signing change_spk_of) request.
Definition new_round2_signing_package (request : Request SigningPackage) : AppM () :=
  new_signing_package (Coordinator.add_round2_signing change_spk_of) request.

(** ** Addresses *)

Definition get_public_key (request : Request ()) : AppM bytes :=
  validate_jwt request ;;*
  let* a := sget in
  let* k := ok_or_status (get_key_package (app_db a)) (BadArg MMissingKeyPackage) in
  let* b := ok_or_status (vk_serialize (kp_verifying_key k)) (InternalMsg MPublicKey) in
  sret (hex_encode b).

Definition get_gateway_address (request : Request bytes) : AppM GetGatewayAddressResponse :=
  validate_jwt request ;;*
  let* a := sget in
  let* k := ok_or_status (get_key_package (app_db a)) (InternalMsg MMissingKeyPackage) in
  let* eth_address := parsing (parse_eth_address (get_ref request)) in
  let* tweaked_key := or_status (λ _, InternalMsg MTweak)
                        (generate_tweaked_public_key (kp_verifying_key k) eth_address) in
  let* b := ok_or_status (vk_serialize (kp_verifying_key k)) (InternalMsg MPublicKey) in
  sret {| gw_publickey := hex_encode b;
          gw_tweaked_public_key := hex_encode (pk_serialize tweaked_key);
          gateway_address := taproot_address (generate_taproot_scriptpubkey tweaked_key)
                               (btc_network cfg) |}.

(** ** Key generation *)

(** [while let Some(p) = machine.send(..)]: every message leaves the queue, so
    its length bounds the number of rounds. *)
Fixpoint drain (n : nat) (s : DkgStateMachine) : list DkgPayload * DkgStateMachine :=
  match n with
  | O => ([], s)
  | S n' =>
      match Dkg.send instant s with
      | (Some p, s') => let '(l, s2) := drain n' s' in (p :: l, s2)
      | (None, s') => ([], s')
      end
  end.
Definition send_all (s : DkgStateMachine) : list DkgPayload * DkgStateMachine :=
  drain (S (length (queue s))) s.

Definition encode_payload (p : DkgPayload) : RpcDkgPayload :=
  {| dp_sender := id_serialize (sender p); dp_recipient := id_serialize (recipient p);
     dp_payload := msg_encode (msg p) |}.

Definition dkg_response (s : DkgStateMachine) (l : list DkgPayload) : RpcDkgPayloads :=
  {| dp_timeout := from_option (λ t, wrap64 (t / 1000000)) u64_max (Dkg.timeout instant s);
     dp_payloads := encode_payload <$> l |}.

Definition with_machine (s : DkgStateMachine) (x : DkgState) : DkgState :=
  {| machine := s; dkg_stage := dkg_stage x; dkg_session_nonce := dkg_session_nonce x |}.

(** Log, then send what is queued. *)
Definition dkg_flush (x : DkgState) : list DkgPayload * DkgState :=
  let x1 := print_dkg_state_log x in
  let '(l, s) := send_all (machine x1) in (l, with_machine s x1).

Definition get_dkg_payloads (request : Request ()) : AppM RpcDkgPayloads :=
  validate_jwt request ;;*
  let* a := sget in
  if bool_decide (is_Some (get_key_package (app_db a))) then fail (AlreadyExists MHaveKeyPackage)
  else
    let* x := ok_or_status (dkg a) (InternalMsg MNoDkg) in
    (** the result of [on_timeout] is not used; its only failures are panics *)
    match on_timeout instant (machine x) with
    | (Panic, s) => smodify (put_dkg (Some (with_machine s x))) ;;* slift Panic
    | (_, s) =>
        let '(l, x') := dkg_flush (with_machine s x) in
        smodify (put_dkg (Some x')) ;;*
        sret (dkg_response (machine x') l)
    end.

(** The key packages are written once, when the machine has finished. *)
Definition save_keys (s : DkgStateMachine) : AppM () :=
  match aggregate_key_packages s with
  | Some (sec_key, pub_key) =>
      let* a := sget in
      match get_key_package (app_db a) with
      | None => modify_db (set_key_package sec_key) ;;* modify_db (set_pubkey_package pub_key)
      | Some _ => sret tt
      end
  | None => sret tt
  end.

Definition new_dkg_payload (request : Request RpcDkgPayload) : AppM RpcDkgPayloads :=
  validate_jwt request ;;*
  let req := get_ref request in
  let* from := parsing (deserialize_frost_peer_id (dp_sender req)) in
  let* to := parsing (deserialize_frost_peer_id (dp_recipient req)) in
  let* m := ok_or_status (msg_decode (dp_payload req)) (Internal DkgDeserialization) in
  let* a := sget in
  let* x := ok_or_status (dkg a) (InternalMsg MNoDkg) in
  let '(r, s) := recv {| sender := from; recipient := to; msg := m |} (machine x) in
  smodify (put_dkg (Some (with_machine s x))) ;;*
  let* _ := or_status (λ e, Internal (DkgStateMachineError e)) r in
  let '(l, x') := dkg_flush (with_machine s x) in
  smodify (put_dkg (Some x')) ;;*
  save_keys (machine x') ;;*
  sret (dkg_response (machine x') l).

(** ** Recovering UTXOs *)

(** The script an output for the address, or a change output, pays. *)
Definition expected_script_pubkey (k : KeyPackage) (eth_address : option bytes)
    : result VerifyingKeyExtError Script :=
  match eth_address with
  | Some addr =>
      let? pk := generate_tweaked_public_key (kp_verifying_key k) addr in
      Ok (generate_taproot_scriptpubkey pk)
  | None => change_spk (kp_verifying_key k)
  end.

(** The UTXOs to add. *)
Fixpoint utxos_to_add (k : KeyPackage) (db_outpoints : gset OutPoint) (l : list RpcUtxoToRecover)
    : AppM (list Utxo) :=
  match l with
  | [] => sret []
  | u :: l' =>
      let* ro := ok_or_status (rr_outpoint u) (BadArg MMissingOutpoint) in
      let* o := or_status (λ _, BadArg MOutpoint) (outpoint_try_from ro) in
      if bool_decide (o ∈ db_outpoints) then utxos_to_add k db_outpoints l'
      else
        let* r := call (λ n, get_tx_out n o) in
        let* found := or_status (λ _, InternalMsg MGetTxOut) r in
        match found with
        | None => utxos_to_add k db_outpoints l'
        | Some out =>
            let* addr := match rr_eth_address u with
                         | [] => sret None
                         | s => let* b := or_status (λ _, InternalMsg MEthAddress)
                                            (parse_eth_address s) in sret (Some b)
                         end in
            let utxo := {| outpoint := o; utxo_output := out; utxo_eth_address := addr;
                           utxo_version := 0 |} in
            let* expected := or_status (λ _, InternalMsg MTweak) (expected_script_pubkey k addr) in
            if negb (bool_decide (expected = script_pubkey out)) then utxos_to_add k db_outpoints l'
            else let* rest := utxos_to_add k db_outpoints l' in sret (utxo :: rest)
        end
  end.

Definition recover_missing_utxos (request : Request (list RpcUtxoToRecover))
    : AppM RecoverMissingUtxosResponse :=
  validate_jwt request ;;*
  let* a := sget in
  let db_outpoints : gset OutPoint :=
    list_to_set (outpoint <$> Database.get_all_utxos (app_db a)) in
  let* k := ok_or_status (get_key_package (app_db a)) (InternalMsg MMissingKeyPackage) in
  let* us := utxos_to_add k db_outpoints (get_ref request) in
  modify_db (λ d, (store_utxos us d).2) ;;*
  on_db update_utxo_merkle_root ;;*
  sret {| total_requested := Z.of_nat (length (get_ref request));
          total_recovered := Z.of_nat (length us) |}.

(** ** Starting *)

(** The members of the federation configuration, numbered from 0. *)
Fixpoint federation_members (pos : Z) (l : list DkgEncryption.PublicKey)
    : result DkgError (gmap Identifier DkgEncryption.PublicKey) :=
  match l with
  | [] => Ok ∅
  | pk :: l' =>
      let? id := expect (id_derive (pos mod 65536)) in
      let? rest := federation_members (pos + 1) l' in
      Ok (match rest !! id with Some _ => rest | None => <[id := pk]> rest end)
  end.

Definition dkg_config (min max : Z) : Dkg.Config :=
  {| max_signers := max; min_signers := min; round1_package_timeout := 3 * 1000000000;
     round2_package_timeout := 3 * 1000000000; round3_package_timeout := 3 * 1000000000;
     pending_session_timeout := Some (60 * 5 * 1000000000) |}.

(** [App::new] on an opened database; the files are read and parsed before.
    [draws] numbers the random draws of the machine. *)
Definition new (d : Db) (sec : SecretKey) (federation : list DkgEncryption.PublicKey) (max : Z)
    (call_no draws nonce_no : nat) : result Error App :=
  let d1 := (migrate_legacy_key_package d).2 in
  let? _ := rassert (bool_decide (id_derive (config_identifier cfg) = Some (identifier cfg))) in
  let? coord := expect (id_derive (default DEFAULT_COORDINATOR_ID (config_coordinator cfg))) in
  let min := app_min_signers cfg in
  let? _ := rassert (min <=? max) in
  let? _ := rassert (2 <=? min) in
  let? depth := match get_pegin_confirmation_depth (btc_network cfg) with
                | Ok n => Ok n
                | _ => Panic
                end in
  let? tip := map_err (λ e, PegoutSchedulerSync (Rpc e)) (get_block_count call_no) in
  let? fallback_checkpoint := map_err (λ e, PegoutSchedulerSync (Rpc e))
                                (get_block_hash (S call_no) (saturating_sub tip depth)) in
  match load_pegout_scheduler d1 fallback_checkpoint depth with
  | (Ok _, sched) =>
      let? machine :=
        match get_key_package d1 with
        | Some _ => Ok None
        | None =>
            let? members := map_err DkgStateMachineError (federation_members 0 federation) in
            let? m := map_err DkgStateMachineError
                        (Dkg.new (identifier cfg) sec coord members (dkg_config min max)
                           (Some now) draws) in
            Ok (Some {| machine := m; dkg_stage := None; dkg_session_nonce := None |})
        end in
      Ok {| pegout_scheduler := sched; dkg := machine; frost_round1_nonces := None;
            calls := S (S call_no); nonce_draws := nonce_no |}
  | (Err e, _) => Err (ErrDb e)
  | (Panic, _) => Panic
  end.

End handlers.
End App.
