(* ===== verification/ServerTheory.v ===== *)
(** * Theorems about the server

    What every sequence of calls to the server guarantees: a nonce signs at most
    once, the group key is written once and only with the authenticated result of
    key generation, pegs a checkpoint delivers are kept, recovered UTXOs are the
    federation's own. *)

From S2P Require Import Prelude Bitcoin Psbt Database DatabaseTheory PegoutScheduler SchedulerTheory CoinSelection ValidatePsbt ValidateTheory Signing SigningTheory Codec Headers Peg DkgEncryption Dkg DkgTheory RpcTypes Jwt Server.
Local Open Scope Z_scope.

(** ** The key packages are not touched *)

Definition same_keys (d d' : Db) : Prop :=
  key_packages d' = key_packages d ∧ pubkey_packages d' = pubkey_packages d ∧
  legacy_key_package d' = legacy_key_package d.
#[export] Instance same_keys_preorder : PreOrder same_keys.
Proof. split; [done|]. intros d1 d2 d3 (?&?&?) (?&?&?). split_and!; congruence. Qed.

Lemma put_same_keys d :
  (∀ x, same_keys d (put_utxos x d)) ∧ (∀ x, same_keys d (put_psbts x d)) ∧
  (∀ x, same_keys d (put_tracked x d)) ∧ (∀ x, same_keys d (put_finalized x d)) ∧
  (∀ x, same_keys d (put_pending x d)) ∧ (∀ x, same_keys d (put_utxo_root x d)) ∧
  (∀ x, same_keys d (put_tracked_root x d)) ∧ (∀ x, same_keys d (put_pending_root x d)) ∧
  (∀ x, same_keys d (put_tip x d)).
Proof. destruct d. split_and!; done. Qed.

Ltac keys_put := apply (put_same_keys _).

Lemma foldl_same_keys {A} (f : Db → A → Db) l d :
  (∀ d x, same_keys d (f d x)) → same_keys d (foldl f d l).
Proof.
  intros Hf. revert d. induction l as [|x l IH]; intros d; [reflexivity|]. simpl.
  etrans; [apply Hf|apply IH].
Qed.
Lemma store_utxos_same_keys us d : same_keys d (store_utxos us d).2.
Proof.
  destruct us as [|u [|u' us]]; [reflexivity| |simpl; keys_put].
  unfold store_utxos, store_utxo. case_match; [reflexivity|]. simpl. keys_put.
Qed.
Lemma remove_pending_same_keys ids d : same_keys d (remove_pending_pegout ids d).
Proof. apply foldl_same_keys. intros. keys_put. Qed.
Lemma store_finalized_same_keys fs d : same_keys d (store_finalized_pegout_ids fs d).
Proof.
  unfold store_finalized_pegout_ids, store_finalized_pegout_id, store_finalized_pegout_ids_atomically.
  repeat case_match; try reflexivity; keys_put.
Qed.

Section db.
Context `{Hashing}.

Lemma merkle_same_keys l put :
  (∀ x d, same_keys d (put x d)) → guarantees same_keys (merkle_of l put).
Proof.
  intros Hput. unfold merkle_of. guarantees_tac. apply guarantees_modify. auto.
Qed.
Lemma utxo_root_same_keys : guarantees same_keys update_utxo_merkle_root.
Proof. unfold update_utxo_merkle_root. guarantees_tac. apply merkle_same_keys. intros; keys_put. Qed.
Lemma tracked_root_same_keys : guarantees same_keys update_tracked_tx_merkle_root.
Proof.
  unfold update_tracked_tx_merkle_root. guarantees_tac. apply merkle_same_keys. intros; keys_put.
Qed.
Lemma pending_root_same_keys : guarantees same_keys update_pending_pegouts_merkle_root.
Proof.
  unfold update_pending_pegouts_merkle_root. guarantees_tac. apply merkle_same_keys.
  intros; keys_put.
Qed.
Lemma store_tracked_same_keys t : guarantees same_keys (store_tracked_tx t).
Proof.
  unfold store_tracked_tx. apply guarantees_bind; [typeclasses eauto| |].
  - apply guarantees_modify. intros; keys_put.
  - intros. apply tracked_root_same_keys.
Qed.
Lemma store_pending_same_keys rs : guarantees same_keys (store_pending_pegouts rs).
Proof.
  destruct rs as [|r [|r' rs]]; [apply guarantees_ret; typeclasses eauto|..];
    (apply guarantees_bind; [typeclasses eauto| |intros; apply pending_root_same_keys]);
    apply guarantees_modify; intros; keys_put.
Qed.
Lemma reset_pending_same_keys rs : guarantees same_keys (reset_pending_pegouts rs).
Proof.
  unfold reset_pending_pegouts. apply guarantees_bind; [typeclasses eauto| |].
  - apply guarantees_modify. intros; unfold clear_pending_pegouts; keys_put.
  - intros. apply store_pending_same_keys.
Qed.
End db.
#[export] Hint Resolve utxo_root_same_keys tracked_root_same_keys pending_root_same_keys
  store_tracked_same_keys store_pending_same_keys reset_pending_same_keys
  store_utxos_same_keys remove_pending_same_keys store_finalized_same_keys : macbeth.

Section sched.
Context `{BitcoinHashes, Hashing, Bitcoind}.
Context (change_of : PublicKeyPackage → option Script) (now : Z).

Definition sched_keys (s s' : PegoutScheduler) : Prop :=
  same_keys (PegoutScheduler.db s) (PegoutScheduler.db s').
#[export] Instance sched_keys_preorder : PreOrder sched_keys.
Proof. split; [intros s; unfold sched_keys; reflexivity|]. intros a b c. unfold sched_keys. apply transitivity. Qed.

Lemma modify_db_keys f :
  (∀ d, same_keys d (f d)) → guarantees sched_keys (PegoutScheduler.modify_db f).
Proof. intros Hf. unfold PegoutScheduler.modify_db. apply guarantees_modify. intros []. apply Hf. Qed.
Lemma on_db_keys {A} (m : DbM A) :
  guarantees same_keys m → guarantees sched_keys (PegoutScheduler.on_db m).
Proof.
  intros Hm. unfold PegoutScheduler.on_db. apply guarantees_zoom. intros s d <-. destruct s. apply Hm.
Qed.
Lemma with_keys f :
  (∀ s, PegoutScheduler.db (f s) = PegoutScheduler.db s) → guarantees sched_keys (smodify (E := DbError) f).
Proof. intros Hf. apply guarantees_modify. intros s. unfold sched_keys. by rewrite Hf. Qed.

Ltac sched_keys_tac :=
  guarantees_tac;
  first [ apply with_keys; by intros []
        | apply modify_db_keys; intros; unfold remove_tracked_tx, remove_utxo,
            store_finalized_pegout_ids_atomically, prune_finalized_pegout_ids;
          first [keys_put | apply store_utxos_same_keys] ].

Lemma un_track_keys id : guarantees sched_keys (un_track_tx id).
Proof. unfold un_track_tx. sched_keys_tac. Qed.
Lemma add_back_keys t : guarantees sched_keys (add_tx_back_to_pending t).
Proof. apply on_db_keys. auto with macbeth. Qed.
Lemma track_keys t : guarantees sched_keys (track_tx t).
Proof. unfold track_tx. sched_keys_tac. Qed.
#[local] Hint Resolve un_track_keys add_back_keys track_keys : macbeth.
Lemma add_tx_keys t rs ts : guarantees sched_keys (add_tx change_of t rs ts).
Proof. unfold add_tx. guarantees_tac. Qed.
Lemma rollback_tx_keys id : guarantees sched_keys (rollback_tx id).
Proof. unfold rollback_tx. sched_keys_tac. Qed.
Lemma store_change_keys spk ids acc : guarantees sched_keys (store_change spk ids acc).
Proof. revert acc. induction ids as [|id ids IH]; intros acc; cbn [store_change]; sched_keys_tac. Qed.
Lemma spend_input_keys i : guarantees sched_keys (spend_input i).
Proof. unfold spend_input. sched_keys_tac. Qed.
Lemma finalize_tx_keys id : guarantees sched_keys (finalize_tx now id).
Proof. unfold finalize_tx. sched_keys_tac. Qed.
#[local] Hint Resolve rollback_tx_keys store_change_keys spend_input_keys finalize_tx_keys : macbeth.
Lemma finalize_block_keys b : guarantees sched_keys (finalize_block change_of now b).
Proof. unfold finalize_block. sched_keys_tac. Qed.
Lemma rollback_tip_keys : guarantees sched_keys rollback_tip.
Proof. unfold rollback_tip. sched_keys_tac. Qed.
Lemma add_block_keys b : guarantees sched_keys (add_block b).
Proof. unfold add_block. sched_keys_tac. Qed.
Lemma with_blocks_keys l : guarantees sched_keys (smodify (E := DbError) (with_blocks l)).
Proof. apply with_keys. by intros []. Qed.
#[local] Hint Resolve finalize_block_keys rollback_tip_keys add_block_keys with_blocks_keys : macbeth.
#[local] Hint Resolve guarantees_on_scheduler guarantees_call guarantees_rpc : macbeth.

Lemma check_dropped_keys cp id : guarantees (lifted sched_keys) (check_dropped cp id).
Proof. unfold check_dropped. guarantees_tac. Qed.
#[local] Hint Resolve check_dropped_keys : macbeth.
Lemma track_mempool_keys cp : guarantees (lifted sched_keys) (track_mempool cp).
Proof. unfold track_mempool. guarantees_tac. Qed.
Lemma sync_block_keys h : guarantees (lifted sched_keys) (sync_block change_of now h).
Proof. unfold sync_block. guarantees_tac. Qed.
Lemma rollback_loop_keys fuel : guarantees (lifted sched_keys) (rollback_loop fuel).
Proof. induction fuel as [|fuel IH]; simpl; guarantees_tac. Qed.
#[local] Hint Resolve track_mempool_keys sync_block_keys rollback_loop_keys : macbeth.
Lemma find_tip_keys fuel : guarantees (lifted sched_keys) (find_tip fuel).
Proof. induction fuel as [|fuel IH]; simpl; guarantees_tac. Qed.
Lemma collect_to_sync_keys fuel last cursor acc :
  guarantees (lifted sched_keys) (collect_to_sync fuel last cursor acc).
Proof. revert cursor acc. induction fuel as [|fuel IH]; simpl; guarantees_tac. Qed.
Lemma sync_blocks_keys cp l : guarantees (lifted sched_keys) (sync_blocks change_of now cp l).
Proof. induction l as [|h l IH]; simpl; guarantees_tac. Qed.
#[local] Hint Resolve find_tip_keys collect_to_sync_keys sync_blocks_keys : macbeth.
Lemma sync_until_keys fuel cp : guarantees (lifted sched_keys) (sync_until change_of now fuel cp).
Proof. unfold sync_until, is_syncing. guarantees_tac. Qed.

(** Loading the scheduler only reads the store. *)
Lemma scheduler_new_keys window l h d : same_keys d (PegoutScheduler.db (PegoutScheduler.new window l h d).2).
Proof.
  unfold PegoutScheduler.new.
  match goal with |- same_keys _ (PegoutScheduler.db (sfor l track_tx ?s).2) =>
    change (sched_keys s (sfor l track_tx s).2) end.
  apply guarantees_sfor; [apply _|]. intros. apply track_keys.
Qed.
End sched.

Section coordinator.
Context `{BitcoinLib, FrostSign, Bdk, Hashing}.
Context (change_of : PublicKeyPackage → option Script).

Lemma validate_same_keys p flags min : guarantees same_keys (validate_psbt change_of p flags min).
Proof.
  intros d. destruct (validate_psbt change_of p flags min d) as [r d'] eqn:Hv.
  apply validate_psbt_cases in Hv as [_ [->|(id & _ & _ & ->)]]; [reflexivity|].
  apply remove_pending_same_keys.
Qed.
Lemma cvalidate_same_keys p flags min :
  guarantees same_keys (Coordinator.cvalidate change_of p flags min).
Proof. unfold Coordinator.cvalidate. apply guarantees_map_err, validate_same_keys. Qed.
Lemma update_psbt_same_keys s p : guarantees same_keys (update_psbt s p).
Proof. unfold update_psbt. guarantees_tac; apply guarantees_modify; intros; try keys_put. Qed.
#[local] Hint Resolve cvalidate_same_keys update_psbt_same_keys : macbeth.
Lemma make_tx_same_keys fuel outs rate script min tracked excluded :
  guarantees same_keys
    (Coordinator.make_tx change_of fuel outs rate script min tracked excluded).
Proof.
  revert outs. induction fuel as [|fuel IH]; intros outs; cbn [Coordinator.make_tx];
    unfold Coordinator.attempt_make_tx; guarantees_tac.
Qed.
Lemma get_to_sign_same_keys s min : guarantees same_keys (Coordinator.get_to_sign change_of s min).
Proof. unfold Coordinator.get_to_sign. guarantees_tac. Qed.
Lemma add_round1_same_keys s id p min :
  guarantees same_keys (Coordinator.add_round1_signing change_of s id p min).
Proof. unfold Coordinator.add_round1_signing. guarantees_tac. Qed.
Lemma add_round2_same_keys s id p min :
  guarantees same_keys (Coordinator.add_round2_signing change_of s id p min).
Proof. unfold Coordinator.add_round2_signing. guarantees_tac. Qed.
End coordinator.

(** ** Handlers that leave the secrets alone *)

Section server.
Context `{BitcoinLib, FrostSign, !DkgLib, Bdk, Hashing, Bitcoind, !BitcoindWallet, JwtLib}.
Context `{Secp256k1, !PegLib, !WireLib, TextLib}.
Context (cfg : AppConfig).

(** The nonces, the draws, the key generation machine and the stored keys stay. *)
Definition frame (a a' : App) : Prop :=
  frost_round1_nonces a' = frost_round1_nonces a ∧ nonce_draws a' = nonce_draws a ∧
  dkg a' = dkg a ∧ same_keys (app_db a) (app_db a').
#[export] Instance frame_preorder : PreOrder frame.
Proof.
  split.
  - intros a. split_and!; try done.
  - intros a b c (?&?&?&?) (?&?&?&?). split_and!; try congruence. by etrans.
Qed.

Lemma put_db_frame d a : same_keys (app_db a) d → frame a (put_db d a).
Proof. intros Hd. unfold frame, app_db. destruct a as [[]]. done. Qed.
Lemma put_scheduler_frame s a : sched_keys (pegout_scheduler a) s → frame a (put_scheduler s a).
Proof. intros Hs. by destruct a. Qed.

Lemma zoom_db_frame {E A} (f : E → Status) (m : SM Db E A) :
  guarantees same_keys m → guarantees frame (zoom app_db put_db (smap_err f m)).
Proof.
  intros Hm. apply guarantees_zoom. intros a d <-. apply put_db_frame.
  by apply guarantees_map_err.
Qed.
Lemma on_db_frame {A} (m : DbM A) : guarantees same_keys m → guarantees frame (App.on_db m).
Proof. apply zoom_db_frame. Qed.
Lemma modify_db_frame f : (∀ d, same_keys d (f d)) → guarantees frame (App.modify_db f).
Proof. intros Hf. apply guarantees_modify. intros a. by apply put_db_frame. Qed.
Lemma on_sched_frame {A} (m : SM PegoutScheduler DbError A) :
  guarantees sched_keys m → guarantees frame (App.on_sched m).
Proof.
  intros Hm. unfold App.on_sched. apply guarantees_zoom. intros a s <-. apply put_scheduler_frame.
  by apply guarantees_map_err.
Qed.
Lemma call_frame {A} (f : nat → result RpcError A) : guarantees frame (App.call f).
Proof. by intros []. Qed.
Lemma fail_frame {A} s : guarantees frame (App.fail (A := A) s).
Proof. intros a. reflexivity. Qed.
Lemma ok_or_frame {A} (o : option A) s : guarantees frame (App.ok_or_status o s).
Proof. intros a. reflexivity. Qed.
Lemma or_status_frame {E A} (s : E → Status) (r : result E A) : guarantees frame (App.or_status s r).
Proof. intros a. reflexivity. Qed.
Lemma parsing_frame {A} (r : result ParsingError A) : guarantees frame (App.parsing r).
Proof. intros a. reflexivity. Qed.
Lemma validate_jwt_frame now {A} (r : Request A) : guarantees frame (App.validate_jwt cfg now r).
Proof. unfold App.validate_jwt, App.fail, App.ok_or_status. guarantees_tac. Qed.
#[local] Hint Resolve call_frame fail_frame ok_or_frame or_status_frame parsing_frame
  validate_jwt_frame : macbeth.

Lemma sync_pegout_scheduler_frame now fuel cp :
  guarantees frame (App.sync_pegout_scheduler now fuel cp).
Proof.
  unfold App.sync_pegout_scheduler. guarantees_tac.
  - apply guarantees_zoom. intros a x <-.
    pose proof (guarantees_map_err _ (λ e, Internal (PegoutSchedulerSync e)) _
      (sync_until_keys App.change_spk_of now fuel cp) (pegout_scheduler a, calls a)) as Hs.
    revert Hs. unfold lifted. destruct (smap_err _ _ _) as [r [s n]]. simpl. intros Hs.
    apply put_scheduler_frame in Hs. revert Hs. by destruct a.
  - apply modify_db_frame. intros d. unfold store_pegout_mgr_finalized_block. keys_put.
  - apply on_db_frame. auto with macbeth.
Qed.
Lemma add_tracked_tx_frame t rs ts : guarantees frame (App.add_tracked_tx t rs ts).
Proof.
  unfold App.add_tracked_tx. guarantees_tac.
  - apply on_sched_frame, add_tx_keys.
  - apply on_db_frame. auto with macbeth.
Qed.
Lemma store_utxos_frame us : guarantees frame (App.modify_db (λ d, (store_utxos us d).2)).
Proof. apply modify_db_frame. intros. apply store_utxos_same_keys. Qed.
Lemma utxo_root_frame : guarantees frame (App.on_db update_utxo_merkle_root).
Proof. apply on_db_frame. auto with macbeth. Qed.
#[local] Hint Resolve sync_pegout_scheduler_frame add_tracked_tx_frame store_utxos_frame
  utxo_root_frame : macbeth.

Lemma health_check_frame now r : guarantees frame (App.health_check cfg now r).
Proof.
  unfold App.health_check. guarantees_tac. intros b.
  destruct (is_syncing now (pegout_scheduler b, calls b)) as [? []]. by destruct b.
Qed.
Lemma new_consensus_checkpoint_frame now fuel r :
  guarantees frame (App.new_consensus_checkpoint cfg now fuel r).
Proof.
  unfold App.new_consensus_checkpoint, App.store_pegins, App.store_pegouts.
  guarantees_tac. apply on_db_frame. auto with macbeth.
Qed.
Lemma reset_all_utxos_frame now r : guarantees frame (App.reset_all_utxos cfg now r).
Proof.
  unfold App.reset_all_utxos. guarantees_tac. apply modify_db_frame. intros d.
  unfold reset_utxos. etrans; [|apply store_utxos_same_keys]. unfold clear_utxos. keys_put.
Qed.
Lemma reset_wallet_state_frame now r : guarantees frame (App.reset_wallet_state cfg now r).
Proof.
  unfold App.reset_wallet_state. guarantees_tac. apply modify_db_frame. intros d.
  unfold reset_finalized_pegout_ids. etrans; [|apply store_finalized_same_keys].
  unfold clear_finalized_pegout_ids. keys_put.
Qed.
Lemma handle_invalid_inputs_frame l : guarantees frame (App.handle_invalid_inputs l).
Proof.
  induction l as [|i l IH]; cbn [App.handle_invalid_inputs]; guarantees_tac.
  apply modify_db_frame. intros d. unfold remove_utxo. keys_put.
Qed.
Lemma handle_broadcast_error_frame e t : guarantees frame (App.handle_broadcast_error e t).
Proof.
  unfold App.handle_broadcast_error. guarantees_tac; [apply handle_invalid_inputs_frame|].
  apply on_sched_frame, un_track_keys.
Qed.
#[local] Hint Resolve handle_broadcast_error_frame : macbeth.
Lemma finalize_signing_frame now r : guarantees frame (App.finalize_signing cfg now r).
Proof.
  unfold App.finalize_signing. guarantees_tac;
    apply modify_db_frame; intros; apply remove_pending_same_keys.
Qed.
Lemma get_psbt_frame now fuel r : guarantees frame (App.get_psbt cfg now fuel r).
Proof.
  unfold App.get_psbt. guarantees_tac.
  - apply zoom_db_frame, make_tx_same_keys.
  - apply on_db_frame, update_psbt_same_keys.
Qed.
Lemma get_to_sign_package_frame now r : guarantees frame (App.get_to_sign_package cfg now r).
Proof. unfold App.get_to_sign_package. guarantees_tac. apply zoom_db_frame, get_to_sign_same_keys. Qed.
Lemma new_round1_signing_package_frame now r :
  guarantees frame (App.new_round1_signing_package cfg now r).
Proof.
  unfold App.new_round1_signing_package, App.new_signing_package. guarantees_tac.
  apply zoom_db_frame, add_round1_same_keys.
Qed.
Lemma new_round2_signing_package_frame now r :
  guarantees frame (App.new_round2_signing_package cfg now r).
Proof.
  unfold App.new_round2_signing_package, App.new_signing_package. guarantees_tac.
  apply zoom_db_frame, add_round2_same_keys.
Qed.
Lemma utxos_to_add_frame k s l : guarantees frame (App.utxos_to_add k s l).
Proof. induction l as [|u l IH]; cbn [App.utxos_to_add]; guarantees_tac. Qed.
#[local] Hint Resolve utxos_to_add_frame : macbeth.
Lemma recover_missing_utxos_frame now r : guarantees frame (App.recover_missing_utxos cfg now r).
Proof. unfold App.recover_missing_utxos. guarantees_tac. Qed.

(** ** Signing *)

(** The nonce pairs of [m] draws, starting with draw [n], under key [k]. *)
Definition batch (r : KeyPackage * nat * nat) : list (SigningNonces * SigningCommitments) :=
  (λ j, commit r.1.1 (r.1.2 + j)%nat) <$> seq 0 r.2.

(** As [frame], without the nonces and draws. *)
Definition keys_frame (a a' : App) : Prop := dkg a' = dkg a ∧ same_keys (app_db a) (app_db a').

Lemma signing_eq {E A} (f : E → Status) p (m : SM (Db * Psbt) E A) a r x :
  m (app_db a, p) = (r, x) →
  App.signing f p m a = (map_err f (rbind r (λ v, Ok (v, x.2))), put_db x.1 a).
Proof. intros Hm. unfold App.signing. by rewrite Hm. Qed.

(** The signer only touches the pending pegouts. *)
Lemma signer_validate_keys {E} (f : ValidatePSBTError → E) flags min x :
  same_keys x.1 (Signer.validate App.change_spk_of f flags min x).2.1.
Proof.
  unfold Signer.validate. pose proof (validate_same_keys App.change_spk_of x.2 flags min x.1) as Hv.
  by destruct (validate_psbt _ _ _ _ _).
Qed.
Definition pair_keys (x y : Db * Psbt) : Prop := same_keys x.1 y.1.
#[export] Instance pair_keys_preorder : PreOrder pair_keys.
Proof. split; [intros x; unfold pair_keys; reflexivity|]. intros x y z. unfold pair_keys. apply transitivity. Qed.
Lemma round1_keys min id n x :
  same_keys x.1 (Signer.get_round1_signing_package App.change_spk_of min id n x).2.1.
Proof.
  enough (guarantees pair_keys (Signer.get_round1_signing_package App.change_spk_of min id n))
    as Hg by apply Hg.
  unfold Signer.get_round1_signing_package. guarantees_tac.
  - intros y. apply signer_validate_keys.
  - apply guarantees_modify. intros y. unfold pair_keys. reflexivity.
Qed.
Lemma round2_keys min id l x :
  same_keys x.1 (Signer.get_round2_signing_package App.change_spk_of min id l x).2.1.
Proof.
  enough (guarantees pair_keys (Signer.get_round2_signing_package App.change_spk_of min id l))
    as Hg by apply Hg.
  unfold Signer.get_round2_signing_package. guarantees_tac.
  - intros y. apply signer_validate_keys.
  - apply guarantees_modify. intros y. unfold pair_keys. reflexivity.
Qed.

Lemma frame_keys a a' : frame a a' → keys_frame a a'.
Proof. intros (_ & _ & ? & ?). done. Qed.

(** New nonces come from new draws, and only when there were none. *)
Definition round1_effect (a a' : App) : Prop :=
  keys_frame a a' ∧ (nonce_draws a ≤ nonce_draws a')%nat ∧
  (frost_round1_nonces a' = frost_round1_nonces a ∨
   ∃ k m, frost_round1_nonces a = None ∧ (nonce_draws a + m ≤ nonce_draws a')%nat ∧
     frost_round1_nonces a' = Some (batch (k, nonce_draws a, m))).
Lemma frame_round1 a a' : frame a a' → round1_effect a a'.
Proof.
  intros Hf. split; [by apply frame_keys|]. destruct Hf as (? & -> & _). auto.
Qed.

Lemma round1_cases now r a res a' :
  App.get_round1_signing_package cfg now r a = (res, a') → round1_effect a a'.
Proof.
  unfold App.get_round1_signing_package. intros Heq.
  apply (guarantees_prefix frame) in Heq as [([] & a1 & _ & Hf1 & Heq)|[_ ?]]; [|by apply frame_round1|auto with macbeth].
  apply (guarantees_prefix frame) in Heq as [(session & a2 & _ & Hf2 & Heq)|[_ ?]];
    [|apply frame_round1; by etrans|auto with macbeth].
  unfold sbind at 1, sget in Heq. assert (frame a a2) as Hf by (by etrans). clear Hf1 Hf2.
  case_bool_decide as Hn; [injection Heq as <- <-; by apply frame_round1|].
  apply (guarantees_prefix frame) in Heq as [(p & a3 & _ & Hf3 & Heq)|[_ ?]];
    [|apply frame_round1; by etrans|auto with macbeth].
  assert (frame a a3) as Hf4 by (by etrans). pose proof Hf as (Hna & Hda & _).
  pose proof Hf4 as (Hn3 & Hd3 & Hk3 & Hs3). clear Hf Hf3.
  unfold sbind at 1, smodify in Heq.
  destruct (Signer.get_round1_signing_package App.change_spk_of (app_min_signers cfg)
    (identifier cfg) (nonce_draws a2) (app_db a3, p)) as [rs [d p']] eqn:Hs.
  pose proof (round1_keys (app_min_signers cfg) (identifier cfg) (nonce_draws a2) (app_db a3, p))
    as Hkeys. rewrite Hs in Hkeys. simpl in Hkeys.
  assert (app_db (put_draws (nonce_draws a2 + length (inputs p)) a3) = app_db a3) as Hdb
    by (by destruct a3).
  unfold sbind at 1 in Heq. erewrite signing_eq in Heq by (by rewrite Hdb). cbn [fst snd] in Heq.
  set (a4 := put_db d (put_draws (nonce_draws a2 + length (inputs p)) a3)) in *.
  assert (keys_frame a a4) as Hk4.
  { split; [by destruct a3|]. unfold a4. etrans; [exact Hs3|]. by destruct a3 as [[]]. }
  assert (nonce_draws a4 = (nonce_draws a + length (inputs p))%nat) as Hd4
    by (rewrite <-Hda; unfold a4; by destruct a3).
  assert (frost_round1_nonces a4 = frost_round1_nonces a) as Hn4
    by (rewrite <-Hn3; unfold a4; by destruct a3).
  clearbody a4. destruct rs as [nonces|e|]; cbn [rbind map_err] in Heq.
  2,3: injection Heq as <- <-; split_and!; [done|lia|auto].
  apply round1_ok in Hs as (k & l & _ & _ & Hc & _).
  apply commit_inputs_spec in Hc as (_ & -> & _).
  unfold sbind, smodify, sret in Heq. injection Heq as <- <-.
  split_and!; [by destruct a4|destruct a4; simpl in *; lia|]. right.
  exists k, (length (inputs p)). split_and!.
  - rewrite <-Hna. destruct (frost_round1_nonces a2); [|done]. by destruct Hn.
  - destruct a4; simpl in *; lia.
  - rewrite <-Hda. by destruct a4.
Qed.

(** Nonces that signed are gone. *)
Definition round2_effect (ok : bool) (a a' : App) : Prop :=
  keys_frame a a' ∧ nonce_draws a' = nonce_draws a ∧
  (frost_round1_nonces a' = frost_round1_nonces a ∧ ok = false ∨ frost_round1_nonces a' = None).
Lemma frame_round2 a a1 a' ok :
  frame a a1 → round2_effect ok a1 a' → round2_effect ok a a'.
Proof.
  intros (Hn & Hd & Hdkg & Hs) ([Hdkg' Hs'] & Hd' & Hc). split_and!; [split; [congruence|by etrans]|congruence|].
  destruct Hc as [[? ?]|?]; [left|right]; split_and?; congruence.
Qed.
Lemma round2_frame a a1 a' ok :
  round2_effect ok a a1 → frame a1 a' → frost_round1_nonces a1 = None → round2_effect true a a'.
Proof.
  intros ([Hdkg Hs] & Hd & _) (Hn & Hd' & Hdkg' & Hs') Hnone.
  split_and!; [split; [congruence|by etrans]|congruence|]. right. congruence.
Qed.
Lemma round2_any ok a a' : round2_effect true a a' → round2_effect ok a a'.
Proof. intros (? & ? & [[_ ?]|?]); [done|]. by split_and!; [| |right]. Qed.

Lemma track_signed_tx_frame now p session : guarantees frame (App.track_signed_tx cfg now p session).
Proof.
  unfold App.track_signed_tx. guarantees_tac. apply on_db_frame. auto with macbeth.
Qed.
Lemma round2_cases now r a res a' :
  App.get_round2_signing_package cfg now r a = (res, a') → round2_effect (is_ok res) a a'.
Proof.
  assert (∀ a', frame a a' → round2_effect false a a') as Hfr.
  { intros a1 (Hn & Hd & Hk & Hs). split_and!; [by split|done|by left]. }
  unfold App.get_round2_signing_package. intros Heq.
  apply (guarantees_prefix frame) in Heq as [([] & a1 & _ & Hf1 & Heq)|[-> ?]]; [|by apply Hfr|auto with macbeth].
  apply (frame_round2 _ _ _ _ Hf1). clear Hfr Hf1 a. rename a1 into a.
  assert (∀ a', frame a a' → round2_effect false a a') as Hfr.
  { intros a1 (Hn & Hd & Hk & Hs). split_and!; [by split|done|by left]. }
  unfold sbind at 1, sget in Heq. destruct (frost_round1_nonces a) as [nonces|];
    [|injection Heq as <- <-; apply Hfr; reflexivity].
  apply (guarantees_prefix frame) in Heq as [(session & a1 & _ & Hf1 & Heq)|[-> ?]]; [|by apply Hfr|auto with macbeth].
  apply (guarantees_prefix frame) in Heq as [(p & a2 & _ & Hf2 & Heq)|[-> ?]];
    [|apply Hfr; by etrans|auto with macbeth].
  assert (frame a a2) as Hf by (by etrans). apply (frame_round2 _ _ _ _ Hf). clear Hfr Hf Hf1 Hf2 a.
  pose proof (round2_keys (app_min_signers cfg) (identifier cfg) nonces (app_db a2, p)) as Hkeys.
  destruct (Signer.get_round2_signing_package App.change_spk_of (app_min_signers cfg)
    (identifier cfg) nonces (app_db a2, p)) as [rs [d p']] eqn:Hs. simpl in Hkeys.
  unfold sbind at 1 in Heq. erewrite signing_eq in Heq by exact Hs. cbn [fst snd] in Heq.
  apply put_db_frame in Hkeys. destruct Hkeys as (Hn & Hd & Hk & Hsk).
  destruct rs as [x|e|]; cbn [rbind map_err] in Heq.
  2,3: injection Heq as <- <-; split_and!; [by split|done|by left].
  unfold sbind at 1, smodify in Heq. apply round2_any.
  pose proof (track_signed_tx_frame now p' session (put_nonces None (put_db d a2))) as Ht.
  rewrite Heq in Ht. simpl in Ht.
  eapply (round2_frame _ (put_nonces None (put_db d a2)) _ true); [|exact Ht|by destruct a2].
  split_and!; [split; [by destruct a2|]|by destruct a2|right; by destruct a2].
  etrans; [exact Hsk|]. by destruct a2 as [[]].
Qed.

(** ** Key generation *)

Definition dkg_reach (x x' : option DkgState) : Prop :=
  match x, x' with
  | Some x, Some x' => rtc dkg_step (machine x) (machine x')
  | None, None => True
  | _, _ => False
  end.
Lemma dkg_reach_refl x : dkg_reach x x.
Proof. destruct x; [apply rtc_refl|done]. Qed.

Lemma drain_steps instant n s : rtc dkg_step s (App.drain instant n s).2.
Proof.
  revert s. induction n as [|n IH]; intros s; [apply rtc_refl|]. cbn [App.drain].
  pose proof (step_send instant s) as Hs. destruct (Dkg.send instant s) as [[p|] s1]; simpl in Hs.
  - specialize (IH s1). destruct (App.drain instant n s1) as [l s2]. by eapply rtc_l.
  - by apply rtc_once.
Qed.
Lemma print_log_machine x : machine (print_dkg_state_log x) = machine x.
Proof. unfold print_dkg_state_log. by repeat case_match. Qed.
Lemma dkg_flush_steps instant x : rtc dkg_step (machine x) (machine (App.dkg_flush instant x).2).
Proof.
  unfold App.dkg_flush, App.send_all. rewrite print_log_machine.
  pose proof (drain_steps instant (S (length (queue (machine x)))) (machine x)) as Hd.
  by destruct (App.drain _ _ _).
Qed.

(** The queue is empty afterwards: no message waits for the next call. *)
Lemma send_queue instant s p s' :
  Dkg.send instant s = (p, s') →
  (length (queue s') ≤ length (queue s))%nat ∧
  (p ≠ None → (length (queue s') < length (queue s))%nat) ∧ (p = None → queue s' = []).
Proof.
  unfold Dkg.send. generalize (queue s) as q. intros q. revert s'.
  induction q as [|p0 q IH]; intros s' Heq; cbn [send_loop] in Heq.
  - injection Heq as <- <-. simpl. split_and!; [lia|done|done].
  - destruct (mark_sent instant p0 s) as [s1|].
    + injection Heq as <- <-. simpl. split_and!; [lia|lia|done].
    + destruct (IH _ Heq) as (? & Hlt & ?). simpl. split_and!; [lia| |done].
      intros Hp. specialize (Hlt Hp). lia.
Qed.
Lemma drain_empties instant n s :
  (length (queue s) < n)%nat → queue (App.drain instant n s).2 = [].
Proof.
  revert s. induction n as [|n IH]; intros s Hn; [lia|]. cbn [App.drain].
  destruct (Dkg.send instant s) as [[p|] s1] eqn:Hs;
    destruct (send_queue _ _ _ _ Hs) as (_ & Hlt & Hnil); [|by apply Hnil].
  specialize (Hlt ltac:(done)). specialize (IH s1 ltac:(lia)). by destruct (App.drain instant n s1).
Qed.

(** What the two key generation endpoints may do. *)
Definition dkg_effect (a a' : App) : Prop :=
  frost_round1_nonces a' = frost_round1_nonces a ∧ nonce_draws a' = nonce_draws a ∧
  dkg_reach (dkg a) (dkg a') ∧
  (same_keys (app_db a) (app_db a') ∨
   get_key_package (app_db a) = None ∧ legacy_key_package (app_db a') = legacy_key_package (app_db a) ∧
   ∃ x k pk, dkg a' = Some x ∧ aggregate_key_packages (machine x) = Some (k, pk) ∧
     get_key_package (app_db a') = Some k ∧ get_public_key_package (app_db a') = Some pk).
Lemma frame_dkg a a1 a' : frame a a1 → dkg_effect a1 a' → dkg_effect a a'.
Proof.
  intros (Hn & Hd & Hk & Hs) (Hn' & Hd' & Hk' & Hs').
  split_and!; [congruence|congruence|by rewrite <-Hk|].
  destruct Hs' as [Hs'|(Hnone & Hl & Hx)]; [left; by etrans|right].
  destruct Hs as (Hs1 & _ & Hs3). split_and!; [|congruence|done].
  unfold get_key_package, get_key_package_by_id in *. by rewrite <-Hs1.
Qed.
Lemma frame_dkg_refl a a' : frame a a' → dkg_effect a a'.
Proof.
  intros (Hn & Hd & Hk & Hs). split_and!; [done|done|rewrite Hk; apply dkg_reach_refl|by left].
Qed.
Lemma put_dkg_effect x x' a :
  dkg a = Some x → rtc dkg_step (machine x) (machine x') → dkg_effect a (put_dkg (Some x') a).
Proof.
  intros Hx Hs. split_and!; [by destruct a|by destruct a| |left; by destruct a].
  rewrite Hx. by destruct a.
Qed.

Lemma get_dkg_payloads_cases now instant r a :
  dkg_effect a (App.get_dkg_payloads cfg now instant r a).2.
Proof.
  destruct (App.get_dkg_payloads cfg now instant r a) as [res a'] eqn:Heq. simpl. revert Heq.
  unfold App.get_dkg_payloads. intros Heq.
  apply (guarantees_prefix frame) in Heq as [([] & a1 & _ & Hf1 & Heq)|[_ ?]];
    [|by apply frame_dkg_refl|auto with macbeth].
  apply (frame_dkg _ _ _ Hf1). clear Hf1 a. rename a1 into a.
  unfold sbind at 1, sget in Heq. case_bool_decide.
  { injection Heq as <- <-. apply frame_dkg_refl. reflexivity. }
  unfold sbind at 1, App.ok_or_status, slift in Heq.
  destruct (dkg a) as [x|] eqn:Hx; cbn [ok_or] in Heq;
    [|injection Heq as <- <-; apply frame_dkg_refl; reflexivity].
  pose proof (step_timeout instant (machine x)) as Hs.
  destruct (on_timeout instant (machine x)) as [rt s1] eqn:Ht. simpl in Hs.
  pose proof (dkg_flush_steps instant (App.with_machine s1 x)) as Hfl.
  destruct (App.dkg_flush instant (App.with_machine s1 x)) as [l x'] eqn:Hfe. simpl in Hfl.
  destruct rt; unfold sbind, smodify, sret, slift in Heq; injection Heq as <- <-;
    apply (put_dkg_effect x); try done;
    first [by apply rtc_once | by eapply rtc_l].
Qed.

(** Saving the keys when the machine of the state has finished. *)
Lemma save_keys_cases x a :
  dkg a = Some x →
  (App.save_keys (machine x) a).1 = Ok tt ∧ dkg_effect a (App.save_keys (machine x) a).2.
Proof.
  intros Hx. unfold App.save_keys.
  destruct (aggregate_key_packages (machine x)) as [[k pk]|] eqn:Hagg;
    [|split; [done|]; apply frame_dkg_refl; reflexivity].
  unfold sbind, sget. destruct (get_key_package (app_db a)) eqn:Hk;
    [split; [done|]; apply frame_dkg_refl; reflexivity|].
  unfold App.modify_db, smodify. split; [done|]. cbn [snd].
  destruct a as [sch dk nn cl dr]; destruct sch as [cw tx bi bp cf lb lf d]; destruct d; simpl in *.
  split_and!; [done|done|rewrite Hx; apply rtc_refl|]. right. split_and!; [done|done|].
  exists x, k, pk. split_and!; [done|done| |]; apply lookup_insert_eq.
Qed.
Lemma dkg_effect_trans a a1 a2 :
  dkg_effect a a1 → same_keys (app_db a) (app_db a1) → dkg_effect a1 a2 → dkg_effect a a2.
Proof.
  intros (Hn & Hd & Hr & _) Hs (Hn' & Hd' & Hr' & Hs').
  split_and!; [congruence|congruence| |].
  - destruct (dkg a), (dkg a1), (dkg a2); try done. unfold dkg_reach in *. by etrans.
  - destruct Hs' as [Hs'|(Hnone & Hl & Hx)]; [left; by etrans|right].
    destruct Hs as (Hs1 & _ & Hs3). split_and!; [|congruence|done].
    unfold get_key_package, get_key_package_by_id in *. by rewrite <-Hs1.
Qed.

Lemma new_dkg_payload_cases now instant r a :
  dkg_effect a (App.new_dkg_payload cfg now instant r a).2.
Proof.
  destruct (App.new_dkg_payload cfg now instant r a) as [res a'] eqn:Heq. simpl. revert Heq.
  unfold App.new_dkg_payload. intros Heq.
  do 4 (apply (guarantees_prefix frame) in Heq as [(? & a1 & _ & Hf1 & Heq)|[_ ?]];
    [apply (frame_dkg _ _ _ Hf1); clear Hf1 a; rename a1 into a|by apply frame_dkg_refl|
     auto with macbeth]).
  unfold sbind at 1, sget in Heq. unfold sbind at 1, App.ok_or_status, slift in Heq.
  destruct (dkg a) as [y|] eqn:Hx; cbn [ok_or] in Heq;
    [|injection Heq as <- <-; apply frame_dkg_refl; reflexivity].
  match type of Heq with context [recv ?q (machine y)] =>
    pose proof (step_recv q (machine y)) as Hs; destruct (recv q (machine y)) as [rr s1] end.
  simpl in Hs. unfold sbind at 1, smodify in Heq.
  set (a1 := put_dkg (Some (App.with_machine s1 y)) a) in *.
  assert (dkg_effect a a1) as He1 by (apply (put_dkg_effect y); [done|by apply rtc_once]).
  unfold sbind at 1, App.or_status, slift in Heq.
  destruct rr as [[]|e|]; cbn [map_err] in Heq; [|by injection Heq as <- <-..].
  pose proof (dkg_flush_steps instant (App.with_machine s1 y)) as Hfl.
  destruct (App.dkg_flush instant (App.with_machine s1 y)) as [l x'] eqn:Hfe. simpl in Hfl.
  unfold sbind at 1, smodify in Heq.
  set (a2 := put_dkg (Some x') a1) in *.
  assert (dkg_effect a a2) as He2.
  { apply (dkg_effect_trans _ a1); [done|by destruct a|].
    by apply (put_dkg_effect (App.with_machine s1 y)); [destruct a|]. }
  apply (dkg_effect_trans _ a2); [done|by destruct a|].
  destruct (save_keys_cases x' a2) as [Hok Hsave]; [by destruct a|].
  unfold sbind in Heq. destruct (App.save_keys (machine x') a2) as [rk a3]. simpl in *. subst rk.
  unfold sret in Heq. by injection Heq as <- <-.
Qed.

(** ** Runs of the server *)

(** Any endpoint, with any request. *)
Inductive Call :=
  | CHealth (r : Request ())
  | CCheckpoint (fuel : nat) (r : Request ConsensusCheckpointRequest)
  | CSigningStatus (finalize : Psbt → bool) (r : Request bytes)
  | CSessionIds (r : Request Z)
  | CPendingPegouts (r : Request ())
  | CFinalizedIds (r : Request Z)
  | CResetUtxos (r : Request (list RpcUtxo))
  | CAllUtxos (r : Request ())
  | CWalletState (r : Request ())
  | CTrackedTxs (r : Request ())
  | CResetWallet (r : Request (list RpcFinalizedPegout))
  | CAbort (r : Request ())
  | CRound1 (r : Request SigningPackageRequest)
  | CRound2 (r : Request SigningPackageRequest)
  | CFinalize (r : Request bytes)
  | CPsbt (fuel : nat) (r : Request MakeTxRequest)
  | CToSign (r : Request bytes)
  | CNewRound1 (r : Request SigningPackage)
  | CNewRound2 (r : Request SigningPackage)
  | CPublicKey (r : Request ())
  | CGateway (r : Request bytes)
  | CDkgPayloads (r : Request ())
  | CNewDkg (r : Request RpcDkgPayload)
  | CRecover (r : Request (list RpcUtxoToRecover)).

(** The state an endpoint leaves, however it ends. *)
Definition exec (now instant : Z) (c : Call) (a : App) : App :=
  match c with
  | CHealth r => (App.health_check cfg now r a).2
  | CCheckpoint fuel r => (App.new_consensus_checkpoint cfg now fuel r a).2
  | CSigningStatus f r => (App.get_signing_status cfg now f r a).2
  | CSessionIds r => (App.get_session_ids cfg now r a).2
  | CPendingPegouts r => (App.get_pending_pegouts cfg now r a).2
  | CFinalizedIds r => (App.get_finalized_pegout_ids cfg now r a).2
  | CResetUtxos r => (App.reset_all_utxos cfg now r a).2
  | CAllUtxos r => (App.get_all_utxos cfg now r a).2
  | CWalletState r => (App.get_wallet_state cfg now r a).2
  | CTrackedTxs r => (App.get_tracked_txs cfg now r a).2
  | CResetWallet r => (App.reset_wallet_state cfg now r a).2
  | CAbort r => (App.abort_signing r a).2
  | CRound1 r => (App.get_round1_signing_package cfg now r a).2
  | CRound2 r => (App.get_round2_signing_package cfg now r a).2
  | CFinalize r => (App.finalize_signing cfg now r a).2
  | CPsbt fuel r => (App.get_psbt cfg now fuel r a).2
  | CToSign r => (App.get_to_sign_package cfg now r a).2
  | CNewRound1 r => (App.new_round1_signing_package cfg now r a).2
  | CNewRound2 r => (App.new_round2_signing_package cfg now r a).2
  | CPublicKey r => (App.get_public_key cfg now r a).2
  | CGateway r => (App.get_gateway_address cfg now r a).2
  | CDkgPayloads r => (App.get_dkg_payloads cfg now instant r a).2
  | CNewDkg r => (App.new_dkg_payload cfg now instant r a).2
  | CRecover r => (App.recover_missing_utxos cfg now r a).2
  end.

(** The nonces whose signatures leave the server: those of a round 2 that
    answers. *)
Definition released (now : Z) (c : Call) (a : App) : option (list (SigningNonces * SigningCommitments)) :=
  match c with
  | CRound2 r => if is_ok (App.get_round2_signing_package cfg now r a).1
                 then frost_round1_nonces a else None
  | _ => None
  end.

(** Every call but those of signing and key generation. *)
Definition plain (c : Call) : bool :=
  match c with
  | CAbort _ | CRound1 _ | CRound2 _ | CDkgPayloads _ | CNewDkg _ => false
  | _ => true
  end.
Lemma exec_frame now instant c a : plain c = true → frame a (exec now instant c a).
Proof.
  destruct c; intros Hp; try discriminate Hp; cbn [exec].
  all: try match goal with |- frame ?b (?m ?b).2 => enough (guarantees frame m) as Hg by apply Hg end.
  all: auto using health_check_frame, new_consensus_checkpoint_frame, reset_all_utxos_frame,
    reset_wallet_state_frame, finalize_signing_frame, get_psbt_frame, get_to_sign_package_frame,
    new_round1_signing_package_frame, new_round2_signing_package_frame,
    recover_missing_utxos_frame.
  all: unfold App.get_signing_status, App.get_session_ids, App.get_pending_pegouts,
    App.get_finalized_pegout_ids, App.get_all_utxos, App.get_wallet_state, App.get_tracked_txs,
    App.get_public_key, App.get_gateway_address; guarantees_tac.
Qed.

(** One step of the server's life: a call, or a restart on the same store with
    the same configuration. *)
Context (sec : SecretKey) (federation : list DkgEncryption.PublicKey) (max : Z).

(** [run a l a']: from [a] to [a'], releasing the signatures of the nonce
    lists [l], in this order. *)
Inductive run (a : App) : list (list (SigningNonces * SigningCommitments)) → App → Prop :=
  | run_nil : run a [] a
  | run_call l a' now instant c :
      run a l a' → run a (l ++ option_list (released now c a')) (exec now instant c a')
  | run_restart l a' now draws a'' :
      run a l a' →
      App.new cfg now (app_db a') sec federation max (calls a') draws (nonce_draws a') = Ok a'' →
      run a l a''.

(** ** A nonce signs at most once *)

Lemma StronglySorted_lookup_lt {A} (R : A → A → Prop) l i j x y :
  StronglySorted R l → (i < j)%nat → l !! i = Some x → l !! j = Some y → R x y.
Proof.
  intros Hs Hij Hi Hj. rewrite <-(take_drop j l) in Hs.
  apply (StronglySorted_app_1_elem_of R _ _ x y Hs).
  - apply list_elem_of_lookup_2 with i. by rewrite lookup_take_lt.
  - apply list_elem_of_lookup_2 with 0%nat. by rewrite lookup_drop, Nat.add_0_r.
Qed.

Definition range_end (r : KeyPackage * nat * nat) : nat := r.1.2 + r.2.
(** Later ranges of draws start after the end of earlier ones. *)
Definition after (r1 r2 : KeyPackage * nat * nat) : Prop := (range_end r1 ≤ r2.1.2)%nat.

Record nonce_inv (l : list (list (SigningNonces * SigningCommitments)))
    (rs : list (KeyPackage * nat * nat)) (a : App) : Prop := {
  inv_released : l = batch <$> rs;
  inv_sorted : StronglySorted after rs;
  inv_past : ∀ r, r ∈ rs → (range_end r ≤ nonce_draws a)%nat;
  inv_held : ∀ nn, frost_round1_nonces a = Some nn →
    ∃ r, nn = batch r ∧ (range_end r ≤ nonce_draws a)%nat ∧ ∀ r', r' ∈ rs → after r' r;
}.

(** A step that keeps the nonces or drops them. *)
Lemma nonce_inv_keep l rs a a' :
  nonce_inv l rs a → (nonce_draws a ≤ nonce_draws a')%nat →
  (frost_round1_nonces a' = frost_round1_nonces a ∨ frost_round1_nonces a' = None) →
  nonce_inv l rs a'.
Proof.
  intros [Hl Hs Hp Hh] Hd Hn. split; [done|done| |].
  - intros r Hr. specialize (Hp r Hr). lia.
  - intros nn Hnn. destruct Hn as [Hn|Hn]; [|congruence]. rewrite Hn in Hnn.
    destruct (Hh nn Hnn) as (r & ? & ? & ?). exists r. split_and!; [done|lia|done].
Qed.
Lemma nonce_inv_round1 l rs a a' :
  nonce_inv l rs a → round1_effect a a' → nonce_inv l rs a'.
Proof.
  intros Hi (_ & Hd & [Hn|(k & m & Hnone & Hm & Hn)]); [eapply nonce_inv_keep; eauto|].
  destruct Hi as [Hl Hs Hp Hh]. split; [done|done| |].
  - intros r Hr. specialize (Hp r Hr). lia.
  - intros nn Hnn. rewrite Hn in Hnn. injection Hnn as <-. exists (k, nonce_draws a, m).
    split_and!; [done|done|]. intros r Hr. by apply Hp.
Qed.
Lemma nonce_inv_release l rs a nn :
  nonce_inv l rs a → frost_round1_nonces a = Some nn →
  ∃ rs', (∀ a', nonce_draws a' = nonce_draws a → frost_round1_nonces a' = None →
            nonce_inv (l ++ [nn]) rs' a').
Proof.
  intros [Hl Hs Hp Hh] Hnn. destruct (Hh nn Hnn) as (r & -> & Hr & Haft).
  exists (rs ++ [r]). intros a' Hd Hn. split.
  - by rewrite fmap_app, Hl.
  - apply StronglySorted_app_2; [|done|by repeat constructor].
    intros x y Hx Hy%list_elem_of_singleton. subst. auto.
  - rewrite Hd. intros x [Hx|Hx%list_elem_of_singleton]%elem_of_app; subst; auto.
  - congruence.
Qed.

Lemma exec_nonce_inv now instant c l rs a :
  nonce_inv l rs a →
  ∃ rs', nonce_inv (l ++ option_list (released now c a)) rs' (exec now instant c a).
Proof.
  intros Hi. destruct (plain c) eqn:Hp.
  { destruct (exec_frame now instant c a Hp) as (Hn & Hd & _).
    assert (released now c a = None) as -> by (by destruct c). simpl. rewrite app_nil_r.
    exists rs. eapply nonce_inv_keep; [done|lia|auto]. }
  destruct c as [| | | | | | | | | | |r|r|r| | | | | | | |r|r|]; try discriminate Hp;
    cbn [exec released option_list]; rewrite ?app_nil_r.
  - exists rs. eapply nonce_inv_keep; [done| |right]; by destruct a.
  - exists rs. eapply nonce_inv_round1; [done|].
    by destruct (App.get_round1_signing_package cfg now r a) eqn:He; eapply round1_cases.
  - destruct (App.get_round2_signing_package cfg now r a) as [res a'] eqn:He.
    apply round2_cases in He as (_ & Hd & Hn). cbn [fst snd].
    destruct Hn as [[Hn Hok]|Hn].
    + rewrite Hok. simpl. rewrite app_nil_r. exists rs. eapply nonce_inv_keep; [done|lia|auto].
    + destruct (is_ok res); [|simpl; rewrite app_nil_r; exists rs; eapply nonce_inv_keep; [done|lia|auto]].
      destruct (frost_round1_nonces a) as [nn|] eqn:Hnn; simpl.
      * destruct (nonce_inv_release _ _ _ _ Hi Hnn) as (rs' & Hrs). exists rs'. by apply Hrs.
      * rewrite app_nil_r. exists rs. eapply nonce_inv_keep; [done|lia|auto].
  - exists rs. destruct (get_dkg_payloads_cases now instant r a) as (Hn & Hd & _).
    eapply nonce_inv_keep; [done|lia|auto].
  - exists rs. destruct (new_dkg_payload_cases now instant r a) as (Hn & Hd & _).
    eapply nonce_inv_keep; [done|lia|auto].
Qed.

Lemma load_keys d h depth :
  same_keys d (PegoutScheduler.db (App.load_pegout_scheduler d h depth).2).
Proof. unfold App.load_pegout_scheduler. case_match; apply scheduler_new_keys. Qed.
Lemma new_fields now d call_no draws nonce_no a :
  App.new cfg now d sec federation max call_no draws nonce_no = Ok a →
  frost_round1_nonces a = None ∧ nonce_draws a = nonce_no ∧
  same_keys (migrate_legacy_key_package d).2 (app_db a) ∧
  (∀ x, dkg a = Some x → ∃ coord mem,
     App.federation_members 0 federation = Ok mem ∧
     Dkg.new (identifier cfg) sec coord mem (App.dkg_config (app_min_signers cfg) max) (Some now)
       draws = Ok (machine x)).
Proof.
  unfold App.new. intros Heq. rinv Heq.
  match type of Heq with context [App.load_pegout_scheduler ?x ?h ?n] =>
    pose proof (load_keys x h n) as Hk;
    destruct (App.load_pegout_scheduler x h n) as [[| |] sched] end; [|done..].
  rinv1 Heq. injection Heq as <-. split_and!; [done|done|exact Hk|].
  simpl. intros x ->. destruct (get_key_package _); [done|].
  match goal with H : rbind _ _ = Ok (Some x) |- _ => rinv H; injection H as <- end.
  repeat match goal with H : map_err _ _ = Ok _ |- _ => apply map_err_ok in H end.
  eauto.
Qed.

(** C4. Every random draw signs at most once.  Over any sequence of calls to the
    server, in any order, from any client, failing or not, with aborted sessions
    and restarts, the signature shares that leave it are made with nonces from
    disjoint ranges of draws of the random generator: what one answer of round 2
    was signed with is never used for another. *)
Theorem nonces_sign_once a l a' :
  frost_round1_nonces a = None → run a l a' →
  ∃ rs, l = batch <$> rs ∧
    ∀ i j r r', (i < j)%nat → rs !! i = Some r → rs !! j = Some r' → (range_end r ≤ r'.1.2)%nat.
Proof.
  intros Hnone Hrun. enough (∃ rs, nonce_inv l rs a') as (rs & [Hl Hs _ _]).
  { exists rs. split; [done|]. intros i j r r' Hij Hi Hj.
    by eapply (StronglySorted_lookup_lt after rs i j). }
  induction Hrun as [|l a' now instant c _ [rs IH]|l a' now draws a'' _ [rs IH] Hnew].
  - exists []. split; [done|constructor| |congruence]. intros r Hr. by apply not_elem_of_nil in Hr.
  - by eapply exec_nonce_inv.
  - apply new_fields in Hnew as (Hn & Hd & _). exists rs. eapply nonce_inv_keep; [done|lia|auto].
Qed.

(** ** The group key *)

Context {HL : DkgLibLaws}.
Context (mem : gmap Identifier DkgEncryption.PublicKey).
Context (members_ok : App.federation_members 0 federation = Ok mem) (two : (2 ≤ size mem)%nat).

(** The machine runs key generation among the configured members; a stored key
    is one that key generation authenticated. *)
Record key_inv (a : App) : Prop := {
  inv_machine : ∀ x, dkg a = Some x → ∃ coord now draws s0,
    Dkg.new (identifier cfg) sec coord mem (App.dkg_config (app_min_signers cfg) max) (Some now)
      draws = Ok s0 ∧ rtc dkg_step s0 (machine x);
  inv_key : ∀ k, get_key_package (app_db a) = Some k →
    ∃ pk, get_public_key_package (app_db a) = Some pk ∧
      authenticated_keys mem (identifier cfg) k pk;
  inv_legacy : legacy_key_package (app_db a) = None;
}.

Lemma same_keys_get d d' :
  same_keys d d' → get_key_package d' = get_key_package d ∧
  get_public_key_package d' = get_public_key_package d ∧ legacy_key_package d' = legacy_key_package d.
Proof.
  intros (H1' & H2' & H3'). unfold get_key_package, get_key_package_by_id,
    get_public_key_package, get_public_key_package_by_id. by rewrite H1', H2'.
Qed.
Lemma reached_keys_authenticated coord now draws s0 s k pk :
  Dkg.new (identifier cfg) sec coord mem (App.dkg_config (app_min_signers cfg) max) (Some now)
    draws = Ok s0 → rtc dkg_step s0 s → aggregate_key_packages s = Some (k, pk) →
  authenticated_keys mem (identifier cfg) k pk.
Proof.
  intros Hnew Hrun Hagg. destruct (new_ok _ _ _ _ _ _ _ _ Hnew two) as (Hok & Hm & Hi).
  apply dkg_steps_good in Hrun as [(Hm' & Hi' & _) Hgood]. apply Hgood in Hok as [_ _ Hst].
  unfold aggregate_key_packages in Hagg. destruct (Dkg.state s); try done.
  injection Hagg as <- <-. simpl in Hst. congruence.
Qed.

Lemma key_inv_same a a' :
  key_inv a → dkg_reach (dkg a) (dkg a') → same_keys (app_db a) (app_db a') → key_inv a'.
Proof.
  intros [Hm Hk Hl] Hr Hs. destruct (same_keys_get _ _ Hs) as (E1 & E2 & E3). split.
  - intros x Hx. rewrite Hx in Hr. destruct (dkg a) as [y|]; [|done].
    destruct (Hm y eq_refl) as (coord & now & draws & s0 & Hnew & Hrun).
    exists coord, now, draws, s0. split; [done|]. by etrans.
  - rewrite E1, E2. done.
  - congruence.
Qed.
Lemma key_inv_dkg a a' : key_inv a → dkg_effect a a' → key_inv a'.
Proof.
  intros Hi (_ & _ & Hr & [Hs|(Hnone & Hl & x & k & pk & Hx & Hagg & Hk & Hpk)]);
    [by eapply key_inv_same|].
  destruct Hi as [Hm _ Hleg].
  assert (∃ coord now draws s0, Dkg.new (identifier cfg) sec coord mem
    (App.dkg_config (app_min_signers cfg) max) (Some now) draws = Ok s0 ∧
    rtc dkg_step s0 (machine x)) as (coord & now & draws & s0 & Hnew & Hrun).
  { rewrite Hx in Hr. destruct (dkg a) as [y|]; [|done].
    destruct (Hm y eq_refl) as (coord & now & draws & s0 & Hnew & Hrun).
    exists coord, now, draws, s0. split; [done|]. by etrans. }
  split; [|intros k'; rewrite Hk; intros [= <-]; exists pk; split; [done|]|congruence].
  - intros y Hy. rewrite Hx in Hy. injection Hy as <-. by exists coord, now, draws, s0.
  - by eapply reached_keys_authenticated.
Qed.

Lemma exec_keys now instant c a :
  dkg_effect a (exec now instant c a) ∨
  (dkg (exec now instant c a) = dkg a ∧ same_keys (app_db a) (app_db (exec now instant c a))).
Proof.
  destruct (plain c) eqn:Hp.
  { destruct (exec_frame now instant c a Hp) as (_ & _ & ? & ?). by right. }
  destruct c as [| | | | | | | | | | |r|r|r| | | | | | | |r|r|]; try discriminate Hp; cbn [exec].
  - right. by destruct a.
  - right. destruct (App.get_round1_signing_package cfg now r a) as [res a'] eqn:He.
    apply round1_cases in He as [[? ?] _]. done.
  - right. destruct (App.get_round2_signing_package cfg now r a) as [res a'] eqn:He.
    apply round2_cases in He as [[? ?] _]. done.
  - left. apply get_dkg_payloads_cases.
  - left. apply new_dkg_payload_cases.
Qed.

Lemma migrate_no_legacy d : legacy_key_package d = None → migrate_legacy_key_package d = (false, d).
Proof. unfold migrate_legacy_key_package. intros ->. by case_match. Qed.

Lemma restart_key_inv now d call_no draws nonce_no a :
  (∀ k, get_key_package d = Some k → ∃ pk, get_public_key_package d = Some pk ∧
     authenticated_keys mem (identifier cfg) k pk) →
  legacy_key_package d = None →
  App.new cfg now d sec federation max call_no draws nonce_no = Ok a → key_inv a.
Proof.
  intros Hk Hl Hnew. apply new_fields in Hnew as (_ & _ & Hs & Hm).
  rewrite migrate_no_legacy in Hs by done. destruct (same_keys_get _ _ Hs) as (E1 & E2 & E3). split.
  - intros x Hx. destruct (Hm x Hx) as (coord & mem' & Hmem & Hn).
    rewrite members_ok in Hmem. injection Hmem as <-. exists coord, now, draws, (machine x).
    split; [done|apply rtc_refl].
  - rewrite E1, E2. exact Hk.
  - cbn [snd] in E3. congruence.
Qed.

Lemma run_key_inv a l a' : key_inv a → run a l a' → key_inv a'.
Proof.
  intros Hi. induction 1 as [|l a' now instant c _ IH|l a' now draws a'' _ [IHm IHk IHl] Hnew]; [done| |].
  - destruct (exec_keys now instant c a') as [He|[Hd Hs]]; [by eapply key_inv_dkg|].
    eapply key_inv_same; [done| |done]. rewrite Hd. apply dkg_reach_refl.
  - by eapply restart_key_inv.
Qed.
Lemma run_keeps_key a l a' k :
  legacy_key_package (app_db a) = None → run a l a' → get_key_package (app_db a) = Some k →
  legacy_key_package (app_db a') = None ∧ get_key_package (app_db a') = Some k ∧
  get_public_key_package (app_db a') = get_public_key_package (app_db a).
Proof.
  intros Hl Hrun Hk. induction Hrun as [|l a' now instant c _ (IHl & IH & IHp)|l a' now draws a'' _ (IHl & IH & IHp) Hnew]; [done| |].
  - destruct (exec_keys now instant c a') as [(_ & _ & _ & [Hs|(Hnone & _)])|[_ Hs]];
      [|congruence|]; destruct (same_keys_get _ _ Hs) as (-> & -> & ->); done.
  - apply new_fields in Hnew as (_ & _ & Hs & _). rewrite migrate_no_legacy in Hs by done.
    destruct (same_keys_get _ _ Hs) as (-> & -> & ->). done.
Qed.

(** C6. The group key of a server is authenticated and permanent.  A server that
    starts without keys and then serves any calls, from any client and in any
    order, with restarts in between, has at any time either no key package or one
    whose public part every other configured member has signed, made from one
    authenticated contribution of each of them; and once it is there, no later
    call and no restart replaces it or its public part. *)
Theorem group_key_authentic_and_permanent now d call_no draws nonce_no a0 l a k :
  get_key_package d = None → legacy_key_package d = None →
  App.new cfg now d sec federation max call_no draws nonce_no = Ok a0 → run a0 l a →
  get_key_package (app_db a) = Some k →
  (∃ pk, get_public_key_package (app_db a) = Some pk ∧
     authenticated_keys mem (identifier cfg) k pk) ∧
  ∀ l' a', run a l' a' → get_key_package (app_db a') = Some k ∧
    get_public_key_package (app_db a') = get_public_key_package (app_db a).
Proof.
  intros Hd Hl Hnew Hrun Hk.
  assert (key_inv a) as [_ Hkey Hleg].
  { eapply run_key_inv; [|exact Hrun]. eapply restart_key_inv; [|done|exact Hnew]. congruence. }
  split; [by apply Hkey|]. intros l' a' Hrun'.
  by destruct (run_keeps_key _ _ _ _ Hleg Hrun' Hk) as (_ & ? & ?).
Qed.
End server.
