(* ===== verification/ServerPegs.v ===== *)
(** * Theorems about pegs in the server

    What happens to pegins and pegouts when the node reports a block, when the
    federation signs, when a transaction is broadcast and when UTXOs are
    recovered; and the round trip of UTXOs through the interface. *)

From S2P Require Import Prelude Bitcoin Psbt Database DatabaseTheory PegoutScheduler SchedulerTheory CoinSelection ValidatePsbt ValidateTheory Signing SigningTheory Codec Headers Peg DkgEncryption Dkg RpcTypes Jwt Server.
Local Open Scope Z_scope.

(** ** Conversions *)

Lemma try_all_ok {E A B} (f : A → result E B) l l' :
  try_all f l = Ok l' ↔ Forall2 (λ x y, f x = Ok y) l l'.
Proof.
  revert l'. induction l as [|x l IH]; intros l'; cbn [try_all].
  - split; [by intros [= <-]|]. by intros ->%Forall2_nil_inv_l.
  - rewrite rbind_ok. split.
    + intros (y & Hy & Hr). rinv1 Hr. injection Hr as <-. constructor; [done|]. by apply IH.
    + intros (y & l2 & Hy & Hl & ->)%Forall2_cons_inv_l. exists y. split; [done|].
      apply IH in Hl. by rewrite Hl.
Qed.
Lemma try_all_in {E A B} (f : A → result E B) l l' x :
  try_all f l = Ok l' → x ∈ l → ∃ y, f x = Ok y ∧ y ∈ l'.
Proof.
  intros Hf%try_all_ok Hx. apply list_elem_of_lookup in Hx as [i Hi].
  destruct (Forall2_lookup_l _ _ _ _ _ Hf Hi) as (y & Hy & Hfy). exists y. split; [done|].
  by eapply list_elem_of_lookup_2.
Qed.

Section text.
Context `{TextLib, !TextLibLaws}.

Lemma hex_trim s : Forall (λ c, is_hex_digit c = true) s → trim_0x s = s.
Proof.
  destruct s as [|c [|c' s]]; [done| |]; intros Hs.
  - cbn [trim_0x]. by repeat case_match.
  - rewrite !Forall_cons in Hs. destruct Hs as (_ & Hc & _).
    assert (c' ≠ 120) as Hne by (intros ->; done). cbn [trim_0x]. by repeat case_match; subst.
Qed.
Lemma hex_lower s : Forall (λ c, is_hex_digit c = true) s → to_ascii_lowercase s = s.
Proof.
  unfold to_ascii_lowercase. induction 1 as [|c s Hc _ IH]; [done|]. csimpl. rewrite IH.
  unfold is_hex_digit in Hc.
  destruct (Z.leb_spec 65 c); [|done]; destruct (Z.leb_spec c 90); [|done].
  exfalso. apply orb_true_iff in Hc as [Hc|Hc]; bool_to_prop; lia.
Qed.
Lemma parse_eth_address_hex b :
  Forall is_byte b → length b = 20%nat → parse_eth_address (hex_encode b) = Ok b.
Proof.
  intros Hb Hl. unfold parse_eth_address. pose proof (hex_encode_digits b) as Hd.
  rewrite hex_trim, hex_lower, hex_decode_encode by done. simpl. by rewrite Hl.
Qed.

(** A UTXO as the server stores them: 32-byte ids, 20-byte addresses, version 0,
    and a script that pays to Taproot. *)
Definition taproot_utxo (u : Utxo) : Prop :=
  length (op_txid (outpoint u)) = 32%nat ∧ is_p2tr (script_pubkey (utxo_output u)) = true ∧
  utxo_version u = 0 ∧
  ∀ addr, utxo_eth_address u = Some addr → Forall is_byte addr ∧ length addr = 20%nat.

(** A UTXO crosses the interface unchanged: what the server reports for one of
    its UTXOs is parsed back as the same outpoint, amount, script and eth address. *)
Theorem utxo_interface_roundtrip u :
  taproot_utxo u → utxo_try_from (rpc_utxo_from u) = Ok u.
Proof.
  intros (Ht & Hp & Hv & Ha). destruct u as [[t v] [val spk] addr ver]; simpl in *. subst ver.
  unfold utxo_try_from, rpc_utxo_from, hash_from_slice. simpl. rewrite Ht. simpl.
  unfold parse_p2tr_script_with_fallback. rewrite Hp. destruct addr as [b|]; simpl; [|done].
  destruct (Ha b eq_refl) as [Hb Hl]. destruct (hex_encode b) as [|c s] eqn:Hh.
  - apply hex_encode_nil in Hh. by subst.
  - rewrite <-Hh, parse_eth_address_hex by done. done.
Qed.
End text.

(** ** Reporting a block *)

Section server.
Context `{BitcoinLib, FrostSign, !DkgLib, Bdk, Hashing, !HashingLaws, Bitcoind, !BitcoindWallet, JwtLib}.
Context `{Secp256k1, !PegLib, !WireLib, TextLib}.
Context (cfg : AppConfig) (now : Z).

Section report.
Context (now_nonneg : 0 ≤ now).

(** The relation of [SchedulerTheory] on the server's state. *)
Definition app_safe (a a' : App) : Prop :=
  safe_step now (pegout_scheduler a) (pegout_scheduler a').
#[export] Instance app_safe_preorder : PreOrder app_safe.
Proof.
  split; [intros a; unfold app_safe; reflexivity|]. intros a b c. unfold app_safe. apply transitivity.
Qed.

(** The three trees unchanged, and no coin gone. *)
Definition keeps_trees (d d' : Db) : Prop := same_trees d d' ∧ utxos d ⊆ utxos d'.
Lemma keeps_trees_safe s d : keeps_trees (db s) d → safe_step now s (with_db d s).
Proof.
  intros [Htr Hu] Hs. split.
  - destruct s. by eapply same_trees_wf.
  - destruct Htr as (Ht & Hp & Hf). apply conserves_same; destruct s; simpl in *; try done.
    by rewrite Hp.
Qed.
Lemma on_db_safe {A} (m : DbM A) :
  (∀ d, keeps_trees d (m d).2) → guarantees app_safe (App.on_db m).
Proof.
  intros Hm. unfold App.on_db. apply guarantees_zoom. intros a d <-. unfold app_safe.
  destruct a as [s dk nn c dr]. apply keeps_trees_safe. unfold smap_err. specialize (Hm (db s)).
  simpl. unfold app_db. simpl. by destruct (m (db s)).
Qed.
Lemma modify_db_safe f : (∀ d, keeps_trees d (f d)) → guarantees app_safe (App.modify_db f).
Proof.
  intros Hf. unfold App.modify_db. apply guarantees_modify. intros [s dk nn c dr].
  apply keeps_trees_safe, Hf.
Qed.
Lemma store_utxos_trees us d : keeps_trees d (store_utxos us d).2.
Proof.
  rewrite store_utxos_eq. split; [by destruct d|]. apply map_subseteq_spec. intros o row Ho.
  assert (insert_all_absent outpoint utxo_row us (utxos d) !! o = Some row) as Hr
    by (by rewrite insert_all_absent_lookup, Ho). by destruct d.
Qed.
Lemma set_root_utxo d l : utxos (set_root put_utxo_root l d) = utxos d.
Proof. unfold set_root. case_match; by destruct d. Qed.
Lemma utxo_root_trees d : keeps_trees d (update_utxo_merkle_root d).2.
Proof.
  split; [apply root_updates_same_trees|]. rewrite update_utxo_merkle_root_eq. cbn [snd].
  by rewrite set_root_utxo.
Qed.
Lemma put_tip_trees h d : keeps_trees d (store_pegout_mgr_finalized_block h d).
Proof. by destruct d. Qed.

(** Pending pegouts are only added. *)
Lemma store_pending_step rs s :
  db_wf (db s) → ∃ d, store_pending_pegouts rs (db s) = (Ok tt, d) ∧ db_wf d ∧
    conserves now s (with_db d s) ∧ utxos d = utxos (db s) ∧ tracked_txs d = tracked_txs (db s) ∧
    ∀ r, r ∈ rs → req_id r ∈ dom (pending_pegouts d).
Proof.
  intros Hs. destruct (store_pending_summary rs (db s) Hs)
    as (d & Heq & Hwf & Hdom & Hf & Hu & Ht).
  exists d. split_and!; [done|done| |done|done|].
  - apply conserves_same; destruct s; simpl in *; [done|done| |done|by rewrite Hu].
    rewrite Hdom. apply union_subseteq_l.
  - intros r Hr. rewrite Hdom. apply elem_of_union_r, elem_of_list_to_set.
    by apply list_elem_of_fmap_2.
Qed.
Lemma store_pending_safe rs : guarantees app_safe (App.on_db (store_pending_pegouts rs)).
Proof.
  intros a Hs. destruct (store_pending_step rs _ Hs) as (d & Heq & Hok & Hc & _).
  unfold App.on_db, zoom, smap_err, app_db. rewrite Heq. destruct a as [s]. by destruct s; split.
Qed.

Lemma sync_pegout_scheduler_safe fuel cp : guarantees app_safe (App.sync_pegout_scheduler now fuel cp).
Proof.
  unfold App.sync_pegout_scheduler. guarantees_tac.
  - apply guarantees_zoom. intros a x <-.
    pose proof (guarantees_map_err _ (λ e, Internal (PegoutSchedulerSync e)) _
      (sync_until_safe now now_nonneg App.change_spk_of fuel cp) (pegout_scheduler a, calls a)) as Hs.
    revert Hs. destruct (smap_err _ _ _) as [r [s n]]. destruct a. done.
  - apply modify_db_safe, put_tip_trees.
  - apply on_db_safe, utxo_root_trees.
Qed.
Lemma call_safe {A} (f : nat → result RpcError A) : guarantees app_safe (App.call f).
Proof. intros []. unfold app_safe. simpl. reflexivity. Qed.
Lemma pure_safe {A} (r : result Status A) : guarantees app_safe (slift r).
Proof. apply guarantees_lift, _. Qed.
Lemma validate_jwt_safe {A} (r : Request A) : guarantees app_safe (App.validate_jwt cfg now r).
Proof. unfold App.validate_jwt, App.fail, App.ok_or_status. guarantees_tac. Qed.
#[local] Hint Resolve sync_pegout_scheduler_safe call_safe validate_jwt_safe store_pending_safe : macbeth.

Lemma new_consensus_checkpoint_safe fuel r :
  guarantees app_safe (App.new_consensus_checkpoint cfg now fuel r).
Proof.
  unfold App.new_consensus_checkpoint, App.store_pegins, App.store_pegouts, App.ok_or_status,
    App.or_status. guarantees_tac.
  - apply modify_db_safe. intros. apply store_utxos_trees.
  - apply on_db_safe, utxo_root_trees.
Qed.

(** Steps that keep the UTXO rows there are. *)
Definition utxos_kept (a a' : App) : Prop :=
  ∀ o, is_Some (utxos (app_db a) !! o) → is_Some (utxos (app_db a') !! o).

Lemma utxo_root_step a :
  ∃ d, App.on_db update_utxo_merkle_root a = (Ok tt, put_db d a) ∧ utxos d = utxos (app_db a) ∧
    same_trees (app_db a) d.
Proof.
  pose proof (utxo_root_trees (app_db a)) as Ht.
  rewrite update_utxo_merkle_root_eq in Ht. eexists.
  unfold App.on_db, zoom, smap_err. rewrite update_utxo_merkle_root_eq. split; [done|].
  split; [apply set_root_utxo|exact (proj1 Ht)].
Qed.
Lemma app_db_put d a : app_db (put_db d a) = d.
Proof. by destruct a as [[]]. Qed.
Lemma put_db_sched d a : pegout_scheduler (put_db d a) = with_db d (pegout_scheduler a).
Proof. by destruct a. Qed.

(** The wallet has nothing to pay from: no UTXO, and no tracked transaction that
    spends one. *)
Definition empty_wallet (d : Db) : Prop :=
  utxos d = ∅ ∧ ∀ t, t ∈ get_tracked_txs d → inputs_of t = [].

Lemma available_empty d :
  (get_available_utxos d).1 = ∅ → (get_available_utxos d).2 = ∅ → empty_wallet d.
Proof.
  unfold get_available_utxos. simpl. intros Ha Ht. split.
  - rewrite Ht in Ha. apply map_empty. intros o. destruct (utxos d !! o) as [row|] eqn:Ho; [|done].
    exfalso. pose proof (utxo_map_lookup d o) as Hl. unfold Coordinator.utxo_map, get_utxo in Hl.
    rewrite Ho in Hl. simpl in Hl.
    apply (f_equal (.!! o)) in Ha. rewrite lookup_empty in Ha.
    apply map_lookup_filter_None in Ha as [Ha|Ha]; [congruence|].
    apply (Ha _ Hl). set_solver.
  - intros t Hin. destruct (inputs_of t) as [|o l] eqn:Hl; [done|]. exfalso.
    assert (o ∈ (list_to_set (get_tracked_txs d ≫= tracked_inputs_of) : gset OutPoint)) as Ho.
    { apply elem_of_list_to_set, list_elem_of_bind. exists t. split; [|done].
      change (o ∈ inputs_of t). rewrite Hl. left. }
    rewrite Ht in Ho. set_solver.
Qed.

(** A request for an id that is being paid, or was paid, is accounted for. *)
Lemma broadcasted_accounted a i :
  db_wf (app_db a) → i ∈ App.broadcasted_pegout_ids a → accounted (pegout_scheduler a) i.
Proof.
  intros (_ & _ & Hfin) Hi. unfold App.broadcasted_pegout_ids in Hi.
  apply elem_of_list_to_set, elem_of_app in Hi as [Hi|Hi].
  - right. right. apply list_elem_of_fmap in Hi as (f & -> & Hf).
    unfold get_finalized_pegout_ids in Hf. apply list_elem_of_fmap in Hf as ([k f'] & -> & Hf).
    apply elem_of_tree_iter in Hf. pose proof (Hfin _ _ Hf) as Hk. simpl in *. rewrite Hk.
    by apply elem_of_dom_2 in Hf.
  - left. unfold tracked_pegout_request_ids in Hi. apply list_elem_of_fmap in Hi as (r & -> & Hr).
    apply list_elem_of_bind in Hr as (t & Hr & Ht). apply list_elem_of_fmap in Ht as ([k t'] & -> & Ht).
    apply elem_of_map_to_list in Ht. exists r. split; [|done]. by exists k, t'.
Qed.

(** Storing the pegouts of a request that are not yet paid or being paid. *)
Lemma pegouts_accounted rs a :
  db_wf (app_db a) →
  ∃ d, App.on_db (store_pending_pegouts
         (filter (λ p, req_id p ∉ App.broadcasted_pegout_ids a) rs)) a = (Ok tt, put_db d a) ∧
    utxos d = utxos (app_db a) ∧
    ∀ r, r ∈ rs → accounted (with_db d (pegout_scheduler a)) (req_id r).
Proof.
  intros Hs.
  destruct (store_pending_step (filter (λ p, req_id p ∉ App.broadcasted_pegout_ids a) rs) _ Hs)
    as (d & Heq & Hok & Hc & Hu & Ht & Hin).
  exists d. unfold App.on_db, zoom, smap_err. unfold app_db at 1. rewrite Heq.
  split_and!; [done|done|]. intros r Hr.
  destruct (decide (req_id r ∈ App.broadcasted_pegout_ids a)) as [Hb|Hb].
  - apply broadcasted_accounted in Hb; [|done].
    destruct (store_pending_summary (filter (λ p, req_id p ∉ App.broadcasted_pegout_ids a) rs)
      (db (pegout_scheduler a)) Hs) as (d' & Heq' & _ & Hdom & Hf & _).
    rewrite Heq in Heq'. injection Heq' as <-. revert Hb. unfold accounted, tracked_request.
    destruct (pegout_scheduler a); simpl in *. rewrite Hdom, Hf. set_solver.
  - right. left. destruct (pegout_scheduler a). apply Hin, list_elem_of_filter. done.
Qed.

Lemma guarantees_ok {A} (T : App → App → Prop) (m : SM App Status A) a x a' :
  guarantees T m → m a = (Ok x, a') → T a a'.
Proof. intros Hm Heq. specialize (Hm a). by rewrite Heq in Hm. Qed.

(** The call that only feeds a metric leaves the scheduler and the store alone. *)
Lemma metric_step {B} (f : nat → result RpcError B) (g : RpcError → Status) a (x : ()) a' :
  (if telemetry cfg then
     let* r := App.call f in let* _ := App.or_status g r in sret tt
   else sret tt) a = (Ok x, a') → pegout_scheduler a' = pegout_scheduler a.
Proof.
  destruct (telemetry cfg); [|by intros [= _ <-]]. intros Heq.
  apply sbind_ok in Heq as (r & a1 & Hc & Heq). unfold App.call in Hc. injection Hc as _ <-.
  apply sbind_ok in Heq as (y & a2 & Ho & Heq). unfold App.or_status, slift in Ho.
  injection Ho as _ <-. unfold sret in Heq. injection Heq as _ <-. by destruct a.
Qed.

Definition pegins_stored (l : list RpcUtxo) (a : App) : Prop :=
  ∀ u, u ∈ l → ∃ x, utxo_try_from u = Ok x ∧ is_Some (utxos (app_db a) !! outpoint x).
Definition pegouts_kept (l : list RpcPendingPegout) (a : App) : Prop :=
  ∀ p, p ∈ l → ∃ r, App.parse_pending_pegout cfg p = Ok r ∧
    accounted (pegout_scheduler a) (req_id r).

Lemma store_pegins_ok l a a' :
  App.store_pegins l a = (Ok tt, a') →
  same_trees (app_db a) (app_db a') ∧ pegins_stored l a'.
Proof.
  intros Heq. unfold App.store_pegins in Heq.
  apply sbind_ok in Heq as (us & a3 & Hus & Heq). unfold App.or_status, slift in Hus.
  injection Hus as Hus <-. apply map_err_ok in Hus.
  apply sbind_ok in Heq as ([] & a3 & Hst & Heq). unfold App.modify_db, smodify in Hst.
  injection Hst as <-. set (a3 := put_db (store_utxos us (app_db a)).2 a) in *.
  apply sbind_ok in Heq as ([] & a4 & Hroot & Heq).
  destruct (utxo_root_step a3) as (d4 & Hr4 & Hu4 & Ht4). rewrite Hr4 in Hroot.
  injection Hroot as <-. apply sbind_ok in Heq as (x & a5 & Hg & Heq). unfold sget in Hg.
  injection Hg as <- <-. apply sbind_ok in Heq as (total & a5 & Hsum & Heq).
  unfold slift in Hsum. injection Hsum as _ <-. unfold sret in Heq. injection Heq as <-. split.
  - rewrite app_db_put. destruct (store_utxos_trees us (app_db a)) as [(Ha1 & Ha2 & Ha3) _].
    destruct Ht4 as (Hb1 & Hb2 & Hb3). unfold a3 in *. rewrite app_db_put in *. unfold same_trees.
    split_and!; congruence.
  - intros u Hu. destruct (try_all_in _ _ _ _ Hus Hu) as (x & Hx & Hin). exists x. split; [done|].
    rewrite app_db_put, Hu4. unfold a3. rewrite app_db_put, store_utxos_eq.
    assert (outpoint x ∈ dom (insert_all_absent outpoint utxo_row us (utxos (app_db a)))) as Hd
      by (rewrite insert_all_absent_dom; apply elem_of_union_r, elem_of_list_to_set;
          by apply list_elem_of_fmap_2).
    apply elem_of_dom in Hd. by destruct (app_db a).
Qed.
(** Recording pending pegouts leaves the coins alone. *)
Definition same_utxos (d d' : Database.Db) : Prop := utxos d' = utxos d.
#[local] Instance same_utxos_preorder : PreOrder same_utxos.
Proof. split; [done|]. unfold same_utxos. intros x y z. congruence. Qed.
Lemma store_pending_utxos rs : guarantees same_utxos (store_pending_pegouts rs).
Proof.
  assert (∀ l, guarantees same_utxos (merkle_of l put_pending_root)) as Hm.
  { intros l. unfold merkle_of. guarantees_tac. apply guarantees_modify. by intros []. }
  unfold store_pending_pegouts, store_pending_pegout, store_pending_pegouts_atomically,
    update_pending_pegouts_merkle_root. guarantees_tac; try apply Hm;
    apply guarantees_modify; by intros [].
Qed.
Lemma store_pegouts_utxos l a r a' :
  App.store_pegouts cfg l a = (r, a') → utxos (app_db a') = utxos (app_db a).
Proof.
  unfold App.store_pegouts, sbind at 1, sget. destruct (get_available_utxos (app_db a)) as [av tr].
  destruct (bool_decide (av = ∅) && bool_decide (tr = ∅)); [by intros [= _ <-]|].
  unfold sbind at 1, slift. destruct (try_all _ l) as [rs| |]; [|by intros [= _ <-]..].
  unfold App.on_db, zoom, smap_err.
  match goal with |- context [store_pending_pegouts ?rs ?d] =>
    pose proof (store_pending_utxos rs d) as Hu; destruct (store_pending_pegouts rs d) end.
  intros [= _ <-]. rewrite app_db_put. exact Hu.
Qed.
Lemma store_pegouts_ok l a a' :
  db_wf (app_db a) → App.store_pegouts cfg l a = (Ok tt, a') →
  pegouts_kept l a' ∨ a' = a ∧ empty_wallet (app_db a).
Proof.
  intros Hs Heq. unfold App.store_pegouts, sbind at 1, sget in Heq.
  destruct (get_available_utxos (app_db a)) as [av tr] eqn:Hav.
  destruct (bool_decide (av = ∅) && bool_decide (tr = ∅)) eqn:Hemp.
  { unfold sret in Heq. injection Heq as <-. right. bool_to_prop.
    split; [done|]. apply available_empty; by rewrite Hav. }
  apply sbind_ok in Heq as (rs & a6 & Hrs & Heq). unfold slift in Hrs. injection Hrs as Hrs <-.
  destruct (pegouts_accounted rs a Hs) as (d & Hst & Hu & Hacc). rewrite Hst in Heq.
  injection Heq as <-. left. intros p Hp.
  destruct (try_all_in _ _ _ _ Hrs Hp) as (r & Hr & Hin). exists r. split; [done|].
  rewrite put_db_sched. by apply Hacc.
Qed.

(** The steps of an accepted checkpoint: the scheduler is synced, the pegins are
    stored, the pegouts are recorded. *)
Lemma new_consensus_checkpoint_steps fuel req a a' :
  App.new_consensus_checkpoint cfg now fuel req a = (Ok tt, a') →
  ∃ a2, app_safe a a2 ∧ pegins_stored (pegins (get_ref req)) a' ∧
    ∃ a5, same_trees (app_db a2) (app_db a5) ∧
      App.store_pegouts cfg (cc_pending_pegouts (get_ref req)) a5 = (Ok tt, a').
Proof.
  intros Heq. unfold App.new_consensus_checkpoint in Heq.
  apply sbind_ok in Heq as ([] & a1 & Hv & Heq).
  apply sbind_ok in Heq as (cp & a2 & Hcp & Heq). unfold App.ok_or_status, slift in Hcp.
  injection Hcp as _ <-. apply sbind_ok in Heq as ([] & a2 & Hsync & Heq).
  exists a2. split.
  { transitivity a1; [by apply (guarantees_ok _ _ _ _ _ (validate_jwt_safe req) Hv)|].
    by eapply (guarantees_ok _ _ _ _ _ (sync_pegout_scheduler_safe fuel cp) Hsync). }
  clear Hv Hsync. apply sbind_ok in Heq as ([] & a4 & Hin & Heq).
  destruct (store_pegins_ok _ _ _ Hin) as [Hs4 Hpeg].
  apply sbind_ok in Heq as ([] & a5 & Hm & Heq). apply metric_step in Hm.
  assert (app_db a5 = app_db a4) as Hdb by (unfold app_db; by rewrite Hm).
  split; [|exists a5; by rewrite Hdb].
  intros u Hu'. destruct (Hpeg u Hu') as (x & Hx & Hrow). exists x.
  by rewrite (store_pegouts_utxos _ _ _ _ Heq), Hdb.
Qed.

Lemma new_consensus_checkpoint_ok fuel req a a' :
  db_wf (app_db a) →
  App.new_consensus_checkpoint cfg now fuel req a = (Ok tt, a') →
  pegins_stored (pegins (get_ref req)) a' ∧
  (pegouts_kept (cc_pending_pegouts (get_ref req)) a' ∨ empty_wallet (app_db a')) ∧
  db_wf (app_db a') ∧
  (∀ i, accounted (pegout_scheduler a) i →
     accounted (pegout_scheduler a') i ∨ SchedulerTheory.expired now (pegout_scheduler a) i ∨
     chained (pegout_scheduler a) i) ∧
  (∀ o row, utxos (app_db a) !! o = Some row →
     utxos (app_db a') !! o = Some row ∨ known_input (pegout_scheduler a) o).
Proof.
  intros Hs Heq.
  pose proof (guarantees_ok _ _ _ _ _ (new_consensus_checkpoint_safe fuel req) Heq Hs)
    as [Hs' [_ _ _ Hacc Hco]].
  destruct (new_consensus_checkpoint_steps _ _ _ _ Heq) as (a2 & Hsafe & Hpeg & a5 & Htr & Hst).
  split_and!; [done| |done..].
  destruct (store_pegouts_ok _ _ _ (same_trees_wf _ _ Htr (proj1 (Hsafe Hs))) Hst) as [Hout|[-> Hout]];
    [by left|by right].
Qed.

(** C5. What an accepted block leaves in the wallet, from any store whose records
    are under their own keys.  When the server answers success to a checkpoint,
    every pegin of the block is in its UTXO set; every pegout of the block is
    pending, tracked or finalized, or the wallet has neither a UTXO nor a tracked
    spend (and then the pegouts were not stored); every pegout that was pending,
    tracked or finalized before still is, unless its record is older than the
    retention window or it is requested by a tracked transaction whose output an
    input known to the scheduler spends; every UTXO from before is unchanged, unless
    it is such a known input; and records stay under their own keys. *)
Theorem checkpoint_keeps_pegs fuel req a a' :
  db_wf (app_db a) →
  App.new_consensus_checkpoint cfg now fuel req a = (Ok tt, a') →
  pegins_stored (pegins (get_ref req)) a' ∧
  (pegouts_kept (cc_pending_pegouts (get_ref req)) a' ∨ empty_wallet (app_db a')) ∧
  db_wf (app_db a') ∧
  (∀ i, accounted (pegout_scheduler a) i →
     accounted (pegout_scheduler a') i ∨ SchedulerTheory.expired now (pegout_scheduler a) i ∨
     chained (pegout_scheduler a) i) ∧
  (∀ o row, utxos (app_db a) !! o = Some row →
     utxos (app_db a') !! o = Some row ∨ known_input (pegout_scheduler a) o).
Proof. apply new_consensus_checkpoint_ok. Qed.

End report.

(** ** Signing *)

(** [add_tx] records the transaction with the given requests and leaves the
    store alone. *)
Definition same_txs (s s' : PegoutScheduler) : Prop := txs s' = txs s ∧ db s' = db s.
#[local] Instance same_txs_preorder : PreOrder same_txs.
Proof. split; [done|]. intros x y z [] []. split; congruence. Qed.
Lemma add_tx_ok change_of t rs ts s x s' :
  add_tx change_of t rs ts s = (Ok x, s') →
  txid x = compute_txid t ∧ tx x = t ∧ pegout_requests x = rs ∧ created x = ts ∧
  txs s' = <[compute_txid t := x]> (txs s) ∧ db s' = db s.
Proof.
  unfold add_tx, sbind at 1, sget. intros Heq.
  apply sbind_ok in Heq as (pi & s1 & Hp & Heq). unfold slift in Hp. injection Hp as _ <-.
  apply sbind_ok in Heq as (ci & s1 & Hc & Heq). unfold slift in Hc. injection Hc as _ <-.
  apply sbind_ok in Heq as ([] & s1 & Ht & Heq). unfold sbind, sget, slift in Heq.
  injection Heq as Hx <-. unfold track_tx in Ht.
  assert (∀ l, guarantees same_txs (sfor (E := DbError) l (λ i,
    smodify (λ s, with_by_input (push_entry i (compute_txid t) (txs_by_input s)) s)))) as Hg1.
  { intros l. guarantees_tac. apply guarantees_modify. by intros []. }
  apply sbind_ok in Ht as ([] & s2 & H1' & Ht).
  specialize (Hg1 (inputs_of {| txid := compute_txid t; tx := t; pegout_idxs := pi;
    pegout_requests := rs; change_idxs := ci; created := ts |}) s). simpl in Hg1, H1'.
  rewrite H1' in Hg1. apply sbind_ok in Ht as ([] & s3 & H2' & Ht).
  assert (same_txs s2 s3) as Hg2.
  { match type of H2' with sfor ?l ?f s2 = _ =>
      assert (guarantees same_txs (sfor l f)) as Hg by (guarantees_tac; apply guarantees_modify; by intros []);
      specialize (Hg s2); by rewrite H2' in Hg end. }
  unfold smodify in Ht. injection Ht as <-. destruct Hg1 as [Ht1 Hd1], Hg2 as [Ht2 Hd2]. simpl in *.
  apply expect_ok in Hx. destruct s3. simpl in *. rewrite lookup_insert_eq in Hx. injection Hx as <-.
  split_and!; try done; congruence.
Qed.

Lemma store_tracked_tx_ok x d d' :
  store_tracked_tx x d = (Ok tt, d') →
  tracked_txs d' = <[txid x := x]> (tracked_txs d) ∧ pending_pegouts d' = pending_pegouts d ∧
  finalized_pegout_ids d' = finalized_pegout_ids d ∧ utxos d' = utxos d.
Proof.
  unfold store_tracked_tx, sbind at 1, smodify. intros Heq.
  unfold update_tracked_tx_merkle_root, sbind, sget, merkle_of, slift in Heq.
  case_match; [injection Heq as <-; by destruct d|].
  destruct (calculate_root _); simpl in Heq; [|done]. injection Heq as <-. by destruct d.
Qed.

Lemma on_db_ok {A} (m : DbM A) a x a' :
  App.on_db m a = (Ok x, a') → ∃ d, m (app_db a) = (Ok x, d) ∧ a' = put_db d a.
Proof.
  unfold App.on_db, zoom, smap_err. destruct (m (app_db a)) as [r d]. intros [= Hr <-].
  apply map_err_ok in Hr as ->. by exists d.
Qed.

(** What a signed transaction is tracked with. *)
Lemma track_signed_tx_ok p session a resp a' :
  App.track_signed_tx cfg now p session a = (Ok resp, a') →
  ∃ t ids x, resp = App.response cfg p session ∧ extract_tx p = Ok t ∧
    App.psbt_pegout_ids (outputs p) = Ok ids ∧ tx x = t ∧
    pegout_requests x = filter (λ r, req_id r ∈ ids) (get_pending_pegouts (app_db a)) ∧
    txs (pegout_scheduler a') = <[compute_txid t := x]> (txs (pegout_scheduler a)) ∧
    tracked_txs (app_db a') = <[compute_txid t := x]> (tracked_txs (app_db a)) ∧
    finalized_pegout_ids (app_db a') = finalized_pegout_ids (app_db a) ∧
    utxos (app_db a') = utxos (app_db a) ∧
    pending_pegouts (app_db a') = if App.is_coordinator cfg then pending_pegouts (app_db a) else ∅.
Proof.
  unfold App.track_signed_tx. intros Heq.
  apply sbind_ok in Heq as (t & a1 & Ht & Heq). unfold slift in Ht. injection Ht as Ht <-.
  destruct (extract_tx p) as [t'| |]; [|done..]. injection Ht as ->.
  destruct (_ <? _)%nat; [done|].
  apply sbind_ok in Heq as (ids & a1 & Hids & Heq). unfold slift in Hids. injection Hids as Hids <-.
  unfold sbind at 1, sget in Heq. apply sbind_ok in Heq as ([] & a1 & Hadd & Heq).
  unfold App.add_tracked_tx in Hadd. apply sbind_ok in Hadd as (x & a2 & Hx & Hst).
  unfold App.on_sched, zoom, smap_err in Hx.
  match type of Hx with context [add_tx ?c t ?rs now ?s] =>
    destruct (add_tx c t rs now s) as [rx s2] eqn:Hax end.
  injection Hx as Hrx <-. apply map_err_ok in Hrx as ->.
  apply add_tx_ok in Hax as (Hid & Htx & Hreq & _ & Htxs & Hdb).
  apply on_db_ok in Hst as (d3 & Hst & ->).
  apply store_tracked_tx_ok in Hst as (Htr & Hpe & Hfi & Hu).
  assert (app_db (put_scheduler s2 a) = app_db a) as Hdb2 by (by destruct a).
  rewrite Hdb2 in *. apply sbind_ok in Heq as ([] & a4 & Hclear & Heq).
  unfold sret in Heq. injection Heq as <- <-. exists t, ids, x.
  rewrite Hid in Htr.
  assert (txs (pegout_scheduler (put_db d3 (put_scheduler s2 a))) =
    <[compute_txid t := x]> (txs (pegout_scheduler a))) as Htxs' by (rewrite <-Htxs; by destruct a, s2).
  split_and!; try done; destruct (App.is_coordinator cfg); cbn [negb] in Hclear;
    first [ by (unfold sret in Hclear; injection Hclear as <-; rewrite ?app_db_put)
          | apply on_db_ok in Hclear as (d5 & Hcl & ->); rewrite app_db_put in Hcl;
            unfold reset_pending_pegouts, sbind, smodify in Hcl; simpl in Hcl;
            unfold sret in Hcl; injection Hcl as <-; rewrite ?app_db_put, ?put_db_sched;
            destruct d3, a, s2; simpl in *; congruence ].
Qed.

Lemma validate_jwt_same {A} (r : Request A) a x a' :
  App.validate_jwt cfg now r a = (x, a') → a' = a.
Proof.
  unfold App.validate_jwt, App.ok_or_status, App.fail, sret, slift, sbind.
  repeat case_match; intros; simplify_eq; done.
Qed.

Lemma round2_response req a resp a' :
  App.get_round2_signing_package cfg now req a = (Ok resp, a') →
  ∃ nonces p p' session a1, frost_round1_nonces a = Some nonces ∧
    psbt_deserialize (spr_psbt (get_ref req)) = Some p ∧
    (Signer.get_round2_signing_package App.change_spk_of (app_min_signers cfg) (identifier cfg)
       nonces (app_db a, p)).1 = Ok tt ∧
    outputs p' = outputs p ∧ unsigned_tx p' = unsigned_tx p ∧
    pegout_scheduler a1 = pegout_scheduler a ∧
    App.track_signed_tx cfg now p' session a1 = (Ok resp, a').
Proof.
  unfold App.get_round2_signing_package. intros Heq.
  apply sbind_ok in Heq as ([] & a1 & Hv & Heq). apply validate_jwt_same in Hv as ->.
  unfold sbind at 1, sget in Heq. destruct (frost_round1_nonces a) as [nonces|]; [|done].
  apply sbind_ok in Heq as (session & a1 & Hp & Heq). unfold App.parsing, App.or_status, slift in Hp.
  injection Hp as _ <-. apply sbind_ok in Heq as (p & a1 & Hp & Heq).
  unfold App.ok_or_status, slift in Hp. injection Hp as Hp <-. apply ok_or_ok in Hp.
  apply sbind_ok in Heq as ([y p'] & a1 & Hs & Heq). unfold App.signing in Hs.
  destruct (Signer.get_round2_signing_package App.change_spk_of (app_min_signers cfg)
    (identifier cfg) nonces (app_db a, p)) as [rs [d q]] eqn:Hr.
  injection Hs as Hrs <-. apply map_err_ok in Hrs. destruct rs as [[]| |]; [|done..].
  cbn [rbind] in Hrs. injection Hrs as _ <-. pose proof Hr as Hr'.
  apply round2_ok in Hr' as (pkgs & k & l & Hval & _ & _ & _ & _ & Hq & _). simpl in Hval, Hq.
  apply validate_psbt_cases in Hval as [Hok _]. destruct (Hok eq_refl) as [-> _].
  unfold sbind at 1, smodify in Heq. eexists nonces, p, q, session, _.
  split_and!; [done|done|by rewrite Hr|by rewrite Hq|by rewrite Hq| |exact Heq].
  by destruct a as [[]].
Qed.

(** Round 2 hands the pegouts it pays from the pending set to the tracked
    transaction.  When a member's server answers a round 2 request, it has recorded
    the signed transaction, in memory and in the store, with exactly the pending
    pegouts whose ids the PSBT's outputs carry; the coordinator keeps its pending
    set (until the broadcast), every other member's is emptied; the UTXO set and
    the finalized ids are as before. *)
Theorem round2_tracks_paid_pegouts req a resp a' :
  App.get_round2_signing_package cfg now req a = (Ok resp, a') →
  ∃ p p' t ids x, psbt_deserialize (spr_psbt (get_ref req)) = Some p ∧
    outputs p' = outputs p ∧ pkg_psbt resp = psbt_serialize p' ∧ extract_tx p' = Ok t ∧
    App.psbt_pegout_ids (outputs p) = Ok ids ∧ tx x = t ∧
    pegout_requests x = filter (λ r, req_id r ∈ ids) (get_pending_pegouts (app_db a)) ∧
    txs (pegout_scheduler a') = <[compute_txid t := x]> (txs (pegout_scheduler a)) ∧
    tracked_txs (app_db a') = <[compute_txid t := x]> (tracked_txs (app_db a)) ∧
    finalized_pegout_ids (app_db a') = finalized_pegout_ids (app_db a) ∧
    utxos (app_db a') = utxos (app_db a) ∧
    pending_pegouts (app_db a') = if App.is_coordinator cfg then pending_pegouts (app_db a) else ∅.
Proof.
  intros Heq. apply round2_response in Heq as (nonces & p & p' & session & a1 & _ & Hp & _ & Ho & _ & Hs & Ht).
  apply track_signed_tx_ok in Ht as (t & ids & x & -> & Hex & Hids & Htx & Hreq & Hrest).
  unfold app_db in *. rewrite Hs in *. exists p, p', t, ids, x. rewrite Ho in Hids.
  destruct Hrest as (? & ? & ? & ? & ?). by split_and!.
Qed.

(** A member that is not the coordinator forgets pegouts it did not pay.  A
    pegout that is pending there, is not paid by the PSBT and is neither tracked
    nor finalized is gone after round 2: nothing on this server records it any
    more. *)
Theorem round2_forgets_other_pegouts req a resp a' i p ids :
  App.get_round2_signing_package cfg now req a = (Ok resp, a') →
  App.is_coordinator cfg = false →
  psbt_deserialize (spr_psbt (get_ref req)) = Some p →
  App.psbt_pegout_ids (outputs p) = Ok ids → i ∉ ids →
  ¬ (∃ r, tracked_request (pegout_scheduler a) r ∧ req_id r = i) →
  i ∉ dom (finalized_pegout_ids (app_db a)) → ¬ accounted (pegout_scheduler a') i.
Proof.
  intros Heq Hc Hp Hids Hi Htr Hfi.
  apply round2_response in Heq as (nonces & p0 & p' & session & a1 & _ & Hp0 & _ & Ho & _ & Hs & Ht).
  rewrite Hp in Hp0. injection Hp0 as <-.
  apply track_signed_tx_ok in Ht as (t & ids' & x & _ & _ & Hids' & _ & Hreq & Htxs & _ & Hf & _ & Hpe).
  rewrite Ho, Hids in Hids'. injection Hids' as <-. unfold app_db in *. rewrite Hs, Hc in *.
  intros [(r & (k & y & Hy & Hr) & <-)|[Hd|Hd]].
  - rewrite Htxs in Hy. destruct (decide (k = compute_txid t)) as [->|Hne].
    + rewrite lookup_insert_eq in Hy. injection Hy as <-. rewrite Hreq in Hr.
      by apply list_elem_of_filter in Hr as [? _].
    + rewrite lookup_insert_ne in Hy by done. apply Htr. exists r. split; [|done]. by exists k, y.
  - rewrite Hpe, dom_empty_L in Hd. by apply not_elem_of_empty in Hd.
  - rewrite Hf in Hd. done.
Qed.

(** ** Broadcasting *)

(** Only UTXOs that bitcoind no longer knows are removed. *)
Definition spent_inputs_removed (l : list OutPoint) (a a' : App) : Prop :=
  (∃ m, app_db a' = put_utxos m (app_db a) ∧
     ∀ o, m !! o = utxos (app_db a) !! o ∨
       m !! o = None ∧ o ∈ l ∧ ∃ n, get_tx_out n o = Ok None) ∧
  pegout_scheduler a' = with_db (app_db a') (pegout_scheduler a).

Lemma put_utxos_same d : put_utxos (utxos d) d = d.
Proof. by destruct d. Qed.
Lemma spent_inputs_refl l a a' : pegout_scheduler a' = pegout_scheduler a → spent_inputs_removed l a a'.
Proof.
  intros Hs. assert (app_db a' = app_db a) as Hd by (unfold app_db; by rewrite Hs). split.
  - exists (utxos (app_db a)). split; [by rewrite put_utxos_same|by left].
  - rewrite Hs, Hd. unfold app_db. by destruct a as [[]].
Qed.
Lemma spent_inputs_trans l1 l2 a a1 a2 :
  spent_inputs_removed l1 a a1 → spent_inputs_removed l2 a1 a2 → spent_inputs_removed (l1 ++ l2) a a2.
Proof.
  intros [(m1 & Hd1 & Hm1) Hs1] [(m2 & Hd2 & Hm2) Hs2]. split.
  - exists m2. rewrite Hd2, Hd1. split; [by destruct (app_db a)|]. intros o.
    assert (utxos (app_db a1) = m1) as Hu by (rewrite Hd1; by destruct (app_db a)).
    rewrite Hu in Hm2. destruct (Hm2 o) as [->|(-> & Ho & ?)].
    + destruct (Hm1 o) as [->|(-> & ? & ?)]; [by left|right]. set_solver.
    + right. set_solver.
  - rewrite Hs2, Hs1. unfold app_db. by destruct a as [[]].
Qed.
Lemma handle_invalid_inputs_spec l a :
  spent_inputs_removed (previous_output <$> l) a (App.handle_invalid_inputs l a).2.
Proof.
  revert a. induction l as [|i l IH]; intros a; cbn [App.handle_invalid_inputs fmap list_fmap].
  { by apply spent_inputs_refl. }
  unfold sbind at 1, sget. unfold sbind at 1.
  assert (∀ a1, spent_inputs_removed [previous_output i] a a1 →
    spent_inputs_removed (previous_output i :: (previous_output <$> l)) a
      (App.handle_invalid_inputs l a1).2) as Hnext
    by (intros a1 Ha1; apply (spent_inputs_trans [_] _ _ _ _ Ha1), IH).
  destruct (get_utxo (previous_output i) (app_db a)) as [u|] eqn:Hu;
    [|apply Hnext; by apply spent_inputs_refl].
  unfold sbind at 1, App.call. unfold sbind at 1, App.or_status, slift.
  assert (∀ n x, spent_inputs_removed x a (put_calls n a)) as Hc
    by (intros; apply spent_inputs_refl; by destruct a).
  destruct (get_tx_out (calls a) (previous_output i)) as [[o|]| |] eqn:Hg; cbn [map_err]; [| |apply Hc..].
  - apply Hnext, Hc.
  - unfold App.modify_db, smodify. apply Hnext. split; [|by destruct a as [[]]].
    exists (delete (previous_output i) (utxos (app_db a))). split.
    { unfold remove_utxo. by destruct a as [[]]. }
    intros o. destruct (decide (o = previous_output i)) as [->|Hne]; [right|left].
    + rewrite lookup_delete_eq. split_and!; [done|set_solver|by eexists].
    + by rewrite lookup_delete_ne.
Qed.

(** Untracking only drops the transaction. *)
Lemma un_track_pending id s :
  pending_pegouts (db (un_track_tx id s).2) = pending_pegouts (db s) ∧
  finalized_pegout_ids (db (un_track_tx id s).2) = finalized_pegout_ids (db s).
Proof.
  set (T := λ s s' : PegoutScheduler, pending_pegouts (db s') = pending_pegouts (db s) ∧
    finalized_pegout_ids (db s') = finalized_pegout_ids (db s)).
  assert (PreOrder T) as HT by (split; [done|]; intros x y z [] []; split; congruence).
  enough (guarantees T (un_track_tx id)) as Hg by apply Hg.
  unfold un_track_tx, PegoutScheduler.modify_db. guarantees_tac;
    apply guarantees_modify; intros [? ? ? ? ? ? ? []]; done.
Qed.

(** Pending and finalized pegouts stay. *)
Definition same_pegs (a a' : App) : Prop :=
  pending_pegouts (app_db a') = pending_pegouts (app_db a) ∧
  finalized_pegout_ids (app_db a') = finalized_pegout_ids (app_db a).
#[local] Instance same_pegs_preorder : PreOrder same_pegs.
Proof. split; [done|]. intros x y z [] []. split; congruence. Qed.

(** bitcoind has the transaction: it took it, or says it is in the chain. *)
Definition accepted (n : nat) (t : Transaction) : Prop :=
  (∃ id, send_raw_transaction n t = Ok id) ∨
  (∃ e, send_raw_transaction n t = Err e ∧ already_in_chain e = true).

Lemma broadcast_error_cases e t a r a' :
  App.handle_broadcast_error e t a = (r, a') →
  (r = Ok tt → already_in_chain e = true) ∧ same_pegs a a'.
Proof.
  unfold App.handle_broadcast_error, same_pegs. destruct (already_in_chain e) eqn:He.
  { unfold sret. by intros [= <- <-]. }
  intros Heq. unfold sbind at 1 in Heq.
  assert (∃ r1 a1, (if missingorspent e then App.handle_invalid_inputs (input t) else sret tt) a =
    (r1, a1) ∧ pending_pegouts (app_db a1) = pending_pegouts (app_db a) ∧
    finalized_pegout_ids (app_db a1) = finalized_pegout_ids (app_db a)) as (r1 & a1 & H1' & Hp1 & Hf1).
  { destruct (missingorspent e); [|by exists (Ok tt), a].
    pose proof (handle_invalid_inputs_spec (input t) a) as [(m & Hm & _) _].
    destruct (App.handle_invalid_inputs (input t) a) as [r1 a1]. exists r1, a1. simpl in Hm.
    rewrite Hm. by destruct (app_db a). }
  rewrite H1' in Heq. destruct r1 as [[]| |]; [|by injection Heq as <- <-..].
  unfold sbind, App.on_sched, zoom, smap_err, App.fail, slift in Heq.
  destruct (un_track_pending (compute_txid t) (pegout_scheduler a1)) as [Hp2 Hf2].
  destruct (un_track_tx (compute_txid t) (pegout_scheduler a1)) as [r2 s2]. simpl in Hp2, Hf2.
  assert (app_db (put_scheduler s2 a1) = db s2) as Hdb by (by destruct a1).
  destruct r2; cbn [map_err] in Heq; injection Heq as <- <-; rewrite Hdb, Hp2, Hf2; done.
Qed.

Lemma remove_pending_lookup ids d i :
  pending_pegouts (remove_pending_pegout ids d) !! i =
  if decide (i ∈ ids) then None else pending_pegouts d !! i.
Proof.
  rewrite foldl_remove_pending.
  assert (∀ m, pending_pegouts (put_pending m d) = m) as Hput by (by destruct d).
  rewrite Hput. case_decide; [by apply foldl_delete_None|by apply foldl_delete_ne].
Qed.
Lemma remove_pending_finalized ids d :
  finalized_pegout_ids (remove_pending_pegout ids d) = finalized_pegout_ids d.
Proof. rewrite foldl_remove_pending. by destruct d. Qed.

Lemma broadcast_cases n t a r a' :
  match send_raw_transaction n t with
  | Ok _ => sret tt
  | Err err => App.handle_broadcast_error err t
  | Panic => slift Panic
  end a = (r, a') → same_pegs a a' ∧ (r = Ok tt → accepted n t).
Proof.
  unfold accepted. destruct (send_raw_transaction n t) as [id|e|]; intros Heq.
  - injection Heq as <- <-. split; [done|]. intros _. left. by eexists.
  - apply broadcast_error_cases in Heq as [? ?]. split; [done|]. intros Hr. right. eauto.
  - by injection Heq as <- <-.
Qed.
Lemma call_pegs {A} (f : nat → result RpcError A) : guarantees same_pegs (App.call f).
Proof. by intros []. Qed.
Lemma validate_jwt_pegs {A} (q : Request A) : guarantees same_pegs (App.validate_jwt cfg now q).
Proof.
  intros a. destruct (App.validate_jwt cfg now q a) as [r a'] eqn:Heq.
  by apply validate_jwt_same in Heq as ->.
Qed.
Lemma metric_pegs {B} (f : nat → result RpcError B) (g : RpcError → Status) :
  guarantees same_pegs (if telemetry cfg then
     let* r := App.call f in let* _ := App.or_status g r in sret tt
   else sret tt).
Proof. unfold App.or_status. guarantees_tac. apply call_pegs. Qed.

Lemma finalize_signing_cases req a r a' :
  App.finalize_signing cfg now req a = (r, a') →
  finalized_pegout_ids (app_db a') = finalized_pegout_ids (app_db a) ∧
  (is_ok r = false ∧ pending_pegouts (app_db a') = pending_pegouts (app_db a) ∨
   ∃ p t ids, Coordinator.finalize_signing (get_ref req) (app_db a) = Ok p ∧
     extract_tx p = Ok t ∧ accepted (calls a) t ∧ App.parse_pegout_ids (pegout_ids p) = Ok ids ∧
     r = Ok (psbt_serialize p) ∧
     ∀ i, pending_pegouts (app_db a') !! i =
            if decide (i ∈ ids) then None else pending_pegouts (app_db a) !! i).
Proof.
  unfold App.finalize_signing. intros Heq.
  assert (∀ a a' : App, is_ok r = false → same_pegs a a' →
    finalized_pegout_ids (app_db a') = finalized_pegout_ids (app_db a) ∧
    is_ok r = false ∧ pending_pegouts (app_db a') = pending_pegouts (app_db a)) as Hfail
    by (by intros ? ? ? []).
  apply (guarantees_prefix same_pegs) in Heq as [([] & a0 & Hv & _ & Heq)|[? ?]];
    [|naive_solver|apply validate_jwt_pegs].
  apply validate_jwt_same in Hv as ->. unfold App.parsing, App.or_status in Heq.
  unfold sbind at 1, slift, parse_signing_session_id in Heq.
  destruct (negb _); cbn [map_err] in Heq; [injection Heq as <- <-; naive_solver|].
  unfold sbind at 1, sget in Heq. unfold sbind at 1 in Heq.
  destruct (Coordinator.finalize_signing (get_ref req) (app_db a)) as [p| |] eqn:Hp;
    cbn [map_err] in Heq; [|injection Heq as <- <-; naive_solver..].
  unfold sbind at 1 in Heq. destruct (extract_tx p) as [t| |] eqn:Ht; cbn [map_err] in Heq;
    [|injection Heq as <- <-; naive_solver..].
  unfold sbind at 1, App.call at 1 in Heq.
  assert (same_pegs a (put_calls (S (calls a)) a)) as Hs1 by (by destruct a).
  apply (guarantees_prefix same_pegs) in Heq as [([] & a2 & Hb & Hs2 & Heq)|[? ?]];
    [|assert (same_pegs a a') by (by etrans); naive_solver|
     intros x; by apply (broadcast_cases _ _ x _ _ (surjective_pairing _))].
  apply broadcast_cases in Hb as [_ Hacc].
  assert (same_pegs a a2) as Hs by (by etrans). clear Hs1 Hs2.
  apply (guarantees_prefix same_pegs) in Heq as [([] & a3 & _ & Hs3 & Heq)|[? ?]];
    [|assert (same_pegs a a') by (by etrans); naive_solver|apply metric_pegs].
  assert (same_pegs a a3) as Hs4 by (by etrans). clear Hs Hs3.
  unfold sbind at 1, slift in Heq.
  destruct (App.parse_pegout_ids (pegout_ids p)) as [ids| |] eqn:Hids;
    [|injection Heq as <- <-; naive_solver..].
  unfold sbind, App.modify_db, smodify, sret in Heq. injection Heq as <- <-.
  rewrite app_db_put, remove_pending_finalized. destruct Hs4 as [Hpe Hfi]. split; [done|].
  right. exists p, t, ids. split_and!; [done|done|auto|done|done|]. intros i.
  by rewrite remove_pending_lookup, Hpe.
Qed.

(** C7. Pegouts leave the coordinator's pending set only after a broadcast.  When
    finalizing a session fails, at whatever point, or panics, the pending set is
    what it was; when it succeeds, bitcoind has accepted the session's aggregated
    transaction or reported it to be in the chain, and exactly the pegouts of its
    outputs are removed.  The finalized ids never change here. *)
Theorem broadcast_before_removal req a r a' :
  App.finalize_signing cfg now req a = (r, a') →
  finalized_pegout_ids (app_db a') = finalized_pegout_ids (app_db a) ∧
  (is_ok r = false ∧ pending_pegouts (app_db a') = pending_pegouts (app_db a) ∨
   ∃ p t ids, Coordinator.finalize_signing (get_ref req) (app_db a) = Ok p ∧
     extract_tx p = Ok t ∧ accepted (calls a) t ∧ App.parse_pegout_ids (pegout_ids p) = Ok ids ∧
     r = Ok (psbt_serialize p) ∧
     ∀ i, pending_pegouts (app_db a') !! i =
            if decide (i ∈ ids) then None else pending_pegouts (app_db a) !! i).
Proof. apply finalize_signing_cases. Qed.

(** ** Recovering UTXOs *)

(** A requested output that bitcoind reports as unspent, new to the store, and
    that pays the federation's script for its address. *)
Definition recoverable (k : KeyPackage) (known : gset OutPoint) (l : list RpcUtxoToRecover)
    (u : Utxo) : Prop :=
  (outpoint u ∉ known) ∧ utxo_version u = 0 ∧
  (∃ n, get_tx_out n (outpoint u) = Ok (Some (utxo_output u))) ∧
  App.expected_script_pubkey k (utxo_eth_address u) = Ok (script_pubkey (utxo_output u)) ∧
  ∃ q ro, q ∈ l ∧ rr_outpoint q = Some ro ∧ outpoint_try_from ro = Ok (outpoint u) ∧
    (rr_eth_address q = [] ∧ utxo_eth_address u = None ∨
     ∃ b, parse_eth_address (rr_eth_address q) = Ok b ∧ utxo_eth_address u = Some b).
Lemma recoverable_cons k known q l u : recoverable k known l u → recoverable k known (q :: l) u.
Proof.
  intros (? & ? & ? & ? & q' & ro & Hq & ?). split_and!; try done. exists q', ro.
  split; [by right|done].
Qed.

Lemma utxos_to_add_spec k known l a us a' :
  App.utxos_to_add k known l a = (Ok us, a') →
  pegout_scheduler a' = pegout_scheduler a ∧ Forall (recoverable k known l) us.
Proof.
  revert a us. induction l as [|q l IH]; intros a us Heq; cbn [App.utxos_to_add] in Heq.
  { injection Heq as <- <-. done. }
  assert (∀ a1 us, App.utxos_to_add k known l a1 = (Ok us, a') →
    pegout_scheduler a' = pegout_scheduler a1 ∧ Forall (recoverable k known (q :: l)) us) as Hnext.
  { intros a1 us1 [? Hf]%IH. split; [done|]. eapply Forall_impl; [exact Hf|]. apply recoverable_cons. }
  apply sbind_ok in Heq as (ro & a1 & Hro & Heq). unfold App.ok_or_status, slift in Hro.
  injection Hro as Hro <-. apply ok_or_ok in Hro.
  apply sbind_ok in Heq as (o & a1 & Ho & Heq). unfold App.or_status, slift in Ho.
  injection Ho as Ho <-. apply map_err_ok in Ho.
  case_bool_decide as Hk; [by apply Hnext|].
  unfold sbind at 1, App.call in Heq.
  assert (pegout_scheduler (put_calls (S (calls a)) a) = pegout_scheduler a) as Hc by (by destruct a).
  rewrite <-Hc. apply sbind_ok in Heq as (found & a1 & Hf & Heq). unfold App.or_status, slift in Hf.
  injection Hf as Hf <-. apply map_err_ok in Hf. destruct found as [out|]; [|by apply Hnext].
  apply sbind_ok in Heq as (addr & a1 & Ha & Heq).
  assert (a1 = put_calls (S (calls a)) a ∧ (rr_eth_address q = [] ∧ addr = None ∨
    ∃ b, parse_eth_address (rr_eth_address q) = Ok b ∧ addr = Some b)) as [-> Haddr].
  { destruct (rr_eth_address q) as [|c s]; [by injection Ha as <- <-; auto|].
    apply sbind_ok in Ha as (b & a2 & Hb & Ha). unfold App.or_status, slift in Hb.
    injection Hb as Hb <-. apply map_err_ok in Hb. injection Ha as <- <-.
    split; [done|]. right. by exists b. }
  apply sbind_ok in Heq as (spk & a1 & Hspk & Heq). unfold App.or_status, slift in Hspk.
  injection Hspk as Hspk <-. apply map_err_ok in Hspk.
  case_bool_decide as Heqs; cbn [negb] in Heq; [subst spk|by apply Hnext].
  apply sbind_ok in Heq as (rest & a1 & Hrest & Heq). injection Heq as <- <-.
  destruct (Hnext _ _ Hrest) as [? Hall]. split; [done|]. constructor; [|done].
  split_and!; [done|done|by eexists|done|]. exists q, ro. split; [by left|done].
Qed.

(** Recovery adds only the federation's own coins.  However large or malicious
    a recovery request is: no stored UTXO is changed or removed, and every UTXO it
    adds was asked for, was reported unspent by bitcoind with exactly the amount and
    script stored, and pays the script of the group key tweaked with the stored eth
    address, or its change script; no pending or finalized pegout changes. *)
Theorem recovered_utxos_are_ours req a resp a' :
  App.recover_missing_utxos cfg now req a = (Ok resp, a') →
  ∃ k, get_key_package (app_db a) = Some k ∧
    total_requested resp = Z.of_nat (length (get_ref req)) ∧ same_pegs a a' ∧
    (∀ o row, utxos (app_db a) !! o = Some row → utxos (app_db a') !! o = Some row) ∧
    (∀ o row, utxos (app_db a') !! o = Some row →
       utxos (app_db a) !! o = Some row ∨
       recoverable k (dom (utxos (app_db a))) (get_ref req) (utxo_of_row o row)).
Proof.
  unfold App.recover_missing_utxos. intros Heq.
  apply sbind_ok in Heq as ([] & a1 & Hv & Heq). apply validate_jwt_same in Hv as ->.
  unfold sbind at 1, sget in Heq. apply sbind_ok in Heq as (k & a1 & Hk & Heq).
  unfold App.ok_or_status, slift in Hk. injection Hk as Hk <-. apply ok_or_ok in Hk.
  apply sbind_ok in Heq as (us & a1 & Hus & Heq). apply utxos_to_add_spec in Hus as [Hs Hall].
  assert (app_db a1 = app_db a) as Hdb by (unfold app_db; by rewrite Hs).
  unfold sbind at 1, App.modify_db, smodify in Heq.
  apply sbind_ok in Heq as ([] & a2 & Hroot & Heq). unfold sret in Heq. injection Heq as <- <-.
  destruct (utxo_root_step (put_db (store_utxos us (app_db a1)).2 a1)) as (d & Hr & Hu & Ht).
  rewrite Hr in Hroot. injection Hroot as <-. exists k. rewrite app_db_put, Hu.
  rewrite !app_db_put, store_utxos_eq, Hdb in *.
  set (m := insert_all_absent outpoint utxo_row us (utxos (app_db a))) in *.
  assert (utxos (put_utxos m (app_db a)) = m) as Hm by (by destruct (app_db a)). rewrite Hm.
  split_and!; [done|done| | |].
  - destruct Ht as (_ & Hp & Hf). unfold same_pegs. rewrite app_db_put, Hp, Hf.
    by destruct (app_db a).
  - intros o row Hrow. unfold m. by rewrite insert_all_absent_lookup, Hrow.
  - intros o row. unfold m. rewrite insert_all_absent_lookup.
    destruct (utxos (app_db a) !! o) as [r0|] eqn:Ho; [by left|]. intros Hrow. right.
    destruct (head _) as [u|] eqn:Hh; [|done]. simpl in Hrow. injection Hrow as <-.
    apply head_Some_elem_of, list_elem_of_filter in Hh as [<- Hin].
    rewrite Forall_forall in Hall. apply Hall in Hin.
    assert (utxo_of_row (outpoint u) (utxo_row u) = u) as -> by (by destruct u).
    destruct Hin as (Hno & Hrest). split; [|done]. intros [r1 Hr1]%elem_of_dom. congruence.
Qed.
End server.
