(* ===== verification/ServerSample.v ===== *)
(** * A concrete server

    Small instances of the libraries the server is built on, a server with a
    wallet, a federation of two servers that generate keys over the interface, and
    the theorems of [ServerTheory] and [ServerPegs] at them. *)

From S2P Require Import Prelude Bitcoin Psbt Database DatabaseTheory PegoutScheduler SchedulerTheory CoinSelection CoinSelectionTheory ValidatePsbt ValidateTheory Signing SigningTheory Codec Headers Peg Mint MintTheory DkgEncryption Dkg DkgTheory RpcTypes Jwt Server ServerTheory ServerPegs.
Local Open Scope Z_scope.

Module SampleServer.
Import SampleCodec.
#[export] Existing Instances Sample.lib Sample.lib_laws Sample.frost Sample.frost_laws
  SampleDb.hashing SampleDb.hashing_laws SampleSelection.bdk SampleSigning.sign
  SampleDkg.lib SampleDkg.lib_laws sample_secp PegSample.sample_peg.

(** ** Libraries *)

(** Hexadecimal in lower case. *)
Definition digit (d : Z) : Z := if d <? 10 then 48 + d else 87 + d.
Definition undigit (c : Z) : option Z :=
  if (48 <=? c) && (c <=? 57) then Some (c - 48)
  else if (97 <=? c) && (c <=? 102) then Some (c - 87) else None.
Fixpoint encode (l : bytes) : bytes :=
  match l with
  | [] => []
  | b :: l' => digit (b mod 256 / 16) :: digit (b mod 16) :: encode l'
  end.
Fixpoint decode (l : bytes) : option bytes :=
  match l with
  | [] => Some []
  | [_] => None
  | c :: c' :: l' => x ← undigit c; y ← undigit c'; r ← decode l'; Some (16 * x + y :: r)
  end.
#[export] Instance text : TextLib := {|
  hex_encode := encode;
  hex_decode := decode;
  is_p2tr s := bool_decide (take 2 s = [81; 32] ∧ length s = 34%nat);
  deserialize_script b :=
    match b with
    | n :: s => if n =? Z.of_nat (length s) then Some s else None
    | [] => None
    end;
|}.
Lemma undigit_digit d : 0 ≤ d < 16 → undigit (digit d) = Some d ∧ is_hex_digit (digit d) = true.
Proof.
  intros Hd. unfold digit, undigit, is_hex_digit.
  destruct (Z.ltb_spec d 10);
    repeat match goal with |- context [(?a <=? ?b)] => destruct (Z.leb_spec a b); try lia end;
    simpl; split; f_equal; lia.
Qed.
Lemma nibbles b : 0 ≤ b mod 256 / 16 < 16 ∧ 0 ≤ b mod 16 < 16.
Proof. Z.to_euclidean_division_equations. lia. Qed.
#[export] Instance text_laws : TextLibLaws.
Proof.
  split; simpl.
  - induction 1 as [|b l Hb _ IH]; [done|]. unfold is_byte in Hb. cbn [encode decode].
    destruct (nibbles b) as [H1 H2]. rewrite (proj1 (undigit_digit _ H1)). simpl.
    rewrite (proj1 (undigit_digit _ H2)). simpl. rewrite IH. simpl.
    rewrite (Z.mod_small b 256), <-Z.div_mod by lia. done.
  - induction b as [|b l IH]; cbn [encode]; [constructor|].
    destruct (nibbles b) as [H1 H2]. repeat constructor; [by apply undigit_digit..|done].
  - by intros [].
Qed.

(** bitcoind knows one block, accepts every transaction and reports one output
    for every outpoint. *)
Definition base : BlockHash := replicate 32 0.
#[export] Instance node : Bitcoind := {|
  RpcError := ();
  not_in_mempool _ := true;
  initialblockdownload _ := Ok false;
  get_best_block_hash _ := Ok base;
  get_block_header_info _ h :=
    Ok {| h_hash := h; h_height := 0; h_confirmations := 1; h_previous_block_hash := None;
          h_time := 100 |};
  get_block _ _ := Err tt;
  get_raw_transaction_info _ _ := Ok None;
  get_block_info _ _ := Ok 0;
  get_mempool_entry _ _ := Ok tt;
|}.
#[export] Instance node_wallet : BitcoindWallet := {|
  get_tx_out _ _ := Ok (Some PegSample.deposit);
  send_raw_transaction _ t := Ok (compute_txid t);
  estimate_smart_fee _ := Ok None;
  get_block_count _ := Ok 0;
  get_block_hash _ _ := Ok base;
  already_in_chain _ := false;
  missingorspent _ := false;
|}.

#[export] Instance jwt : JwtLib := {|
  base64_decode b := Some b;
  from_utf8 _ := true;
  jsonwebtoken_decode secret now token :=
    if decide (secret = token) then Ok (mkClaims now None) else Err InvalidSignatureKind;
  jsonwebtoken_encode secret _ := Some secret;
|}.

Definition encode_msg (m : DkgMessage) : bytes :=
  match m with
  | Round1 i ctx n eph sig p =>
      [1; i; n; eph; Z.of_nat (length ctx); Z.of_nat (length sig)] ++ ctx ++ sig ++ p
  | AckRound1 i => [2; i]
  | Round2 i t n p => [3; i; t; n] ++ p
  | AckRound2 i t => [4; i; t]
  | Round3 i sig => [5; i] ++ sig
  | AckRound3 i => [6; i]
  end.
Definition decode_msg (b : bytes) : option DkgMessage :=
  match b with
  | 1 :: i :: n :: eph :: lc :: ls :: l =>
      let rest := drop (Z.to_nat lc) l in
      Some (Round1 i (take (Z.to_nat lc) l) n eph (take (Z.to_nat ls) rest)
              (drop (Z.to_nat ls) rest))
  | [2; i] => Some (AckRound1 i)
  | 3 :: i :: t :: n :: p => Some (Round2 i t n p)
  | [4; i; t] => Some (AckRound2 i t)
  | 5 :: i :: sig => Some (Round3 i sig)
  | [6; i] => Some (AckRound3 i)
  | _ => None
  end.
(** The PSBT to commit to has an encoding, and two to sign: with the commitments
    of draw 3 and of draw 4. *)
Definition committed_again : Psbt :=
  (Signer.get_round1_signing_package SampleValidate.change_script 1 9 4
     (SampleSigning.db, SampleValidate.psbt)).2.2.
#[export] Instance wire : WireLib := {|
  psbt_serialize p := if existsb (λ i, bool_decide (signing_commitments 9 i ≠ None)) (inputs p)
                      then [2] else [1];
  psbt_deserialize b := match b with
                        | [1] => Some SampleValidate.psbt
                        | [2] => Some SampleSigning.committed
                        | [3] => Some committed_again
                        | _ => None
                        end;
  msg_encode := encode_msg;
  msg_decode := decode_msg;
  id_derive i := Some i;
  kp_verifying_key _ := 2 :: replicate 32 1;
  pkp_verifying_key _ := 2 :: replicate 32 1;
  new_p2tr _ := [81];
  address_from_script _ _ := true;
  taproot_address s _ := s;
  btc_per_kb_to_sat_per_vb f := f / 1000;
|}.

(** ** A server *)

Definition config (min me coord : Z) : AppConfig := {|
  btc_network := NetRegtest;
  identifier := me; config_identifier := me; config_coordinator := Some coord;
  app_min_signers := min; excluded_eth_addresses := []; jwt_secret := Some [1; 2];
  fall_back_fee_rate := 1; telemetry := true;
|}.
Definition request {A} (x : A) : Request A := {| metadata := Some [1; 2]; get_ref := x |}.

(** A pegin for an eth address, and the pegout [n]. *)
Definition eth : bytes := replicate 20 171.
Definition pegin (n : Z) : Utxo :=
  {| outpoint := mkOutPoint (replicate 32 n) 1; utxo_output := PegSample.deposit;
     utxo_eth_address := Some eth; utxo_version := 0 |}.
Definition rpc_pegout (n : Z) : RpcPendingPegout :=
  {| rp_spk := [n]; rp_amount := 1000 * n; rp_pegout_id := as_bytes (SampleDb.pid n);
     rp_height := 5; rp_timestamp := 100 |}.
(** A member with the wallet of the validation example and two pending pegouts,
    of which the example's PSBT pays the first. *)
Definition pending (n : Z) : PegoutRequest :=
  {| req_id := SampleDb.pid n; req_spk := [82]; req_value := 4100; req_botanix_height := 5;
     req_timestamp := Some 100 |}.
Definition wallet : Db :=
  put_pending {[SampleDb.pid 3 := pending 3; SampleDb.pid 4 := pending 4]}
    SampleSigning.db.
Definition member (d : Db) : App :=
  {| pegout_scheduler := (PegoutScheduler.new 1 [] base d).2; dkg := None;
     frost_round1_nonces := None; calls := 0; nonce_draws := 3 |}.
End SampleServer.
Import SampleServer.

Lemma utxo_interface_roundtrip_witness :
  utxo_try_from (rpc_utxo_from (pegin 7)) = Ok (pegin 7).
Proof.
  apply (utxo_interface_roundtrip (pegin 7)). split_and!;
    [reflexivity|vm_compute; reflexivity|reflexivity|].
  intros addr [= <-]. split; [|reflexivity]. unfold eth. apply Forall_replicate. unfold is_byte. lia.
Defined.

Lemma ok_unit_inv {S E} (x : result E () * S) : is_ok x.1 = true → ∃ a, x = (Ok tt, a).
Proof. destruct x as [[[]| |] a]; try done. by exists a. Qed.
Lemma ok_value_inv {S E A} (x : result E A * S) : is_ok x.1 = true → ∃ v a, x = (Ok v, a).
Proof. destruct x as [[v| |] a]; try done. by exists v, a. Qed.

(** A block with one pegin and two pegouts. *)
Definition block_report : Request ConsensusCheckpointRequest := request
  {| checkpoint_block_hash := base; pegins := [rpc_utxo_from (pegin 7)];
     cc_pending_pegouts := [rpc_pegout 4; rpc_pegout 5] |}.
Lemma member_wf : db_wf (app_db (member wallet)).
Proof. split_and!; decide_vm. Qed.
Lemma checkpoint_keeps_pegs_witness :
  ∃ a, App.new_consensus_checkpoint (config 1 9 9) 1000 5 block_report (member wallet) = (Ok tt, a) ∧
    pegins_stored [rpc_utxo_from (pegin 7)] a ∧
    pegouts_kept (config 1 9 9) [rpc_pegout 4; rpc_pegout 5] a.
Proof.
  destruct (ok_unit_inv (App.new_consensus_checkpoint (config 1 9 9) 1000 5 block_report
    (member wallet))) as [a Ha]; [vm_compute; reflexivity|]. exists a. split; [exact Ha|].
  destruct (checkpoint_keeps_pegs (config 1 9 9) 1000 ltac:(lia) 5 block_report (member wallet) a
    member_wf Ha) as (Hin & Hout & _). split; [exact Hin|].
  destruct Hout as [Hout|[He _]]; [exact Hout|].
  exfalso. destruct (Hin _ ltac:(left)) as (x & Hx & Hs). rewrite He, lookup_empty in Hs.
  by destruct Hs.
Defined.

(** A member that has committed and signs. *)
Definition signing_member : App :=
  put_nonces (Some [(3, [3; 7])]) (member wallet).
Definition to_sign : Request SigningPackageRequest := request
  {| spr_psbt := [2]; spr_session := replicate 32 1 |}.
Lemma to_sign_psbt : psbt_deserialize (spr_psbt (get_ref to_sign)) = Some SampleSigning.committed.
Proof. reflexivity. Qed.
Lemma round2_tracks_paid_pegouts_witness :
  ∃ resp a x, App.get_round2_signing_package (config 1 9 1) 50 to_sign signing_member = (Ok resp, a) ∧
    pending_pegouts (app_db a) = ∅ ∧
    pegout_requests x = filter (λ r, req_id r ∈ [SampleDb.pid 3]) (get_pending_pegouts wallet) ∧
    tracked_txs (app_db a) !! compute_txid (tx x) = Some x.
Proof.
  destruct (ok_value_inv (App.get_round2_signing_package (config 1 9 1) 50 to_sign signing_member))
    as (resp & a & Ha); [vm_compute; reflexivity|].
  destruct (round2_tracks_paid_pegouts (config 1 9 1) 50 to_sign signing_member resp a Ha)
    as (p & p' & t & ids & x & Hp & _ & _ & _ & Hids & Hx & Hreq & _ & Htr & _ & _ & Hpe).
  exists resp, a, x. split; [exact Ha|]. split; [exact Hpe|].
  pose proof to_sign_psbt as Hp'. rewrite Hp in Hp'. apply (inj Some) in Hp' as ->.
  assert (App.psbt_pegout_ids (outputs SampleSigning.committed) = Ok [SampleDb.pid 3]) as Hids'
    by (vm_compute; reflexivity).
  rewrite Hids' in Hids. injection Hids as <-. split; [exact Hreq|].
  rewrite Htr, Hx, lookup_insert_eq. reflexivity.
Defined.
Lemma round2_forgets_other_pegouts_witness :
  ∃ resp a, App.get_round2_signing_package (config 1 9 1) 50 to_sign signing_member = (Ok resp, a) ∧
    pending_pegouts (app_db signing_member) !! SampleDb.pid 4 = Some (pending 4) ∧
    ¬ accounted (pegout_scheduler a) (SampleDb.pid 4).
Proof.
  destruct (ok_value_inv (App.get_round2_signing_package (config 1 9 1) 50 to_sign signing_member))
    as (resp & a & Ha); [vm_compute; reflexivity|].
  exists resp, a. split; [exact Ha|]. split; [vm_compute; reflexivity|].
  apply (round2_forgets_other_pegouts (config 1 9 1) 50 to_sign signing_member resp a (SampleDb.pid 4)
    SampleSigning.committed [SampleDb.pid 3]).
  - exact Ha.
  - reflexivity.
  - exact to_sign_psbt.
  - vm_compute. reflexivity.
  - apply (bool_decide_unpack _). vm_compute. exact I.
  - intros (r & (k & y & Hy & _) & _). vm_compute in Hy. discriminate Hy.
  - apply (bool_decide_unpack _). vm_compute. exact I.
Defined.

(** The coordinator with a session that all have signed. *)
Definition coordinator_app : App :=
  member (put_psbts {[replicate 32 1 := SampleSigning.signed]} wallet).
Lemma broadcast_before_removal_witness :
  ∃ r a, App.finalize_signing (config 1 9 9) 50 (request (replicate 32 1)) coordinator_app = (Ok r, a) ∧
    pending_pegouts (app_db a) !! SampleDb.pid 3 = None ∧
    pending_pegouts (app_db a) !! SampleDb.pid 4 = Some (pending 4).
Proof.
  destruct (ok_value_inv (App.finalize_signing (config 1 9 9) 50 (request (replicate 32 1))
    coordinator_app)) as (r & a & Ha); [vm_compute; reflexivity|].
  exists r, a. split; [exact Ha|].
  destruct (broadcast_before_removal (config 1 9 9) 50 (request (replicate 32 1)) coordinator_app
    (Ok r) a Ha) as (_ & [[He _]|(p & t & ids & Hp & _ & _ & Hids & _ & Hpe)]); [discriminate He|].
  assert (rbind (Coordinator.finalize_signing (replicate 32 1) (app_db coordinator_app))
    (λ p, match App.parse_pegout_ids (pegout_ids p) with Ok l => Ok l | _ => Panic end) =
    Ok [SampleDb.pid 3]) as Hc by (vm_compute; reflexivity).
  cbn [get_ref request] in Hp. rewrite Hp in Hc. cbn [rbind] in Hc. rewrite Hids in Hc. injection Hc as ->.
  rewrite !Hpe. split; vm_compute; reflexivity.
Defined.

(** A request to recover a coin of the federation twice, once with a wrong
    address. *)
Definition missing : list RpcUtxoToRecover :=
  [{| rr_outpoint := Some (rpc_outpoint_from (mkOutPoint (replicate 32 7) 1));
      rr_eth_address := hex_encode eth |};
   {| rr_outpoint := Some (rpc_outpoint_from (mkOutPoint (replicate 32 8) 1));
      rr_eth_address := [] |}].
Lemma recovered_utxos_are_ours_witness :
  ∃ resp a, App.recover_missing_utxos (config 1 9 9) 50 (request missing) (member wallet) = (Ok resp, a) ∧
    total_requested resp = 2 ∧ total_recovered resp = 1 ∧
    recoverable [5] (dom (utxos wallet)) missing (pegin 7).
Proof.
  destruct (ok_value_inv (App.recover_missing_utxos (config 1 9 9) 50 (request missing) (member wallet)))
    as (resp & a & Ha); [vm_compute; reflexivity|].
  exists resp, a. split; [exact Ha|].
  destruct (recovered_utxos_are_ours (config 1 9 9) 50 (request missing) (member wallet) resp a Ha)
    as (k & Hk & Ht & _ & _ & Hnew).
  assert (get_key_package (app_db (member wallet)) = Some [5]) as Hk' by (vm_compute; reflexivity).
  rewrite Hk' in Hk. injection Hk as <-. split; [exact Ht|].
  assert (match App.recover_missing_utxos (config 1 9 9) 50 (request missing) (member wallet) with
    | (Ok r, a) => (total_recovered r, utxos (app_db a) !! mkOutPoint (replicate 32 7) 1)
    | _ => (0, None) end = (1, Some (utxo_row (pegin 7)))) as Hrun by (vm_compute; reflexivity).
  rewrite Ha in Hrun. pose proof (f_equal snd Hrun) as Hrow. apply (f_equal fst) in Hrun.
  split; [exact Hrun|].
  destruct (Hnew _ _ Hrow) as [Hold|Hrec]; [|exact Hrec].
  exfalso. vm_compute in Hold. discriminate Hold.
Defined.

(** ** Runs *)

Section calls.
Context (cfg : AppConfig) (now instant : Z).
Definition exec_all (cs : list Call) (a : App) : App := foldl (λ a c, exec cfg now instant c a) a cs.
Fixpoint releases (cs : list Call) (a : App) : list (list (SigningNonces * SigningCommitments)) :=
  match cs with
  | [] => []
  | c :: cs' => option_list (released cfg now c a) ++ releases cs' (exec cfg now instant c a)
  end.
Lemma run_calls sec fed max a0 l cs a :
  run cfg sec fed max a0 l a → run cfg sec fed max a0 (l ++ releases cs a) (exec_all cs a).
Proof.
  revert l a. induction cs as [|c cs IH]; intros l a Hr; cbn [releases exec_all foldl].
  { by rewrite app_nil_r. }
  rewrite app_assoc. apply IH. by apply run_call.
Qed.
End calls.

(** Two sessions, with a second request for the first between. *)
Definition sign_calls : list Call :=
  let package b := request {| spr_psbt := b; spr_session := replicate 32 1 |} in
  [CRound1 (package [1]); CRound2 (package [2]); CRound2 (package [2]); CRound1 (package [1]);
   CRound2 (package [3])].
Lemma nonces_sign_once_witness :
  ∃ a rs, run (config 1 9 9) 0 [] 2 (member wallet) [[(3, [3; 7])]; [(4, [4; 7])]] a ∧
    [[(3, [3; 7])]; [(4, [4; 7])]] = batch <$> rs ∧
    ∀ i j r r', (i < j)%nat → rs !! i = Some r → rs !! j = Some r' → (range_end r ≤ r'.1.2)%nat.
Proof.
  pose proof (run_calls (config 1 9 9) 50 0 0 [] 2 (member wallet) [] sign_calls (member wallet)
    (run_nil _ _ _ _ _)) as Hrun.
  assert (releases (config 1 9 9) 50 0 sign_calls (member wallet) =
    [[(3, [3; 7])]; [(4, [4; 7])]]) as Hl by (vm_compute; reflexivity).
  rewrite Hl in Hrun. eexists.
  destruct (nonces_sign_once (config 1 9 9) _ _ _ (member wallet) _ _ eq_refl Hrun)
    as (rs & Hrs & Hdis).
  exists rs. split; [exact Hrun|]. split; [exact Hrs|exact Hdis].
Defined.

(** Two servers, 0 (the coordinator) and 1, that forward each other's payloads. *)
Definition fresh_server (me : Z) : result Error App :=
  App.new (config 2 me 0) 7 open (11 + me) [11; 12] 2 0 (Z.to_nat (10 * me)) 0.
Definition payloads (x : result Status RpcDkgPayloads * App) : list RpcDkgPayload * App :=
  (match x.1 with Ok r => dp_payloads r | _ => [] end, x.2).
(** [forward n q0 q1 a0 a1]: the calls that reach server 0. *)
Fixpoint forward (n : nat) (q0 q1 : list RpcDkgPayload) (a0 a1 : App) : list Call :=
  match n with
  | O => []
  | S n' =>
      match q0, q1 with
      | p :: q0', _ =>
          let '(out, a0') := payloads (App.new_dkg_payload (config 2 0 0) 7 0 (request p) a0) in
          CNewDkg (request p) :: forward n' q0' (q1 ++ out) a0' a1
      | [], p :: q1' =>
          let '(out, a1') := payloads (App.new_dkg_payload (config 2 1 0) 7 0 (request p) a1) in
          forward n' out q1' a0 a1'
      | [], [] => []
      end
  end.
Definition dkg_calls (a0 a1 : App) : list Call :=
  let '(q1, a0') := payloads (App.get_dkg_payloads (config 2 0 0) 7 0 (request tt) a0) in
  let '(q0, a1') := payloads (App.get_dkg_payloads (config 2 1 0) 7 0 (request tt) a1) in
  CDkgPayloads (request tt) :: forward 40 q0 q1 a0' a1'.

Definition both : gmap Identifier DkgEncryption.PublicKey := {[0 := 11; 1 := 12]}.
Definition after_dkg (a0 a1 : App) : App := exec_all (config 2 0 0) 7 0 (dkg_calls a0 a1) a0.
Lemma group_key_authentic_and_permanent_witness :
  ∃ a0 a l pk, fresh_server 0 = Ok a0 ∧ run (config 2 0 0) 11 [11; 12] 2 a0 l a ∧
    get_key_package (app_db a) = Some [0; 0] ∧
    get_public_key_package (app_db a) = Some pk ∧ authenticated_keys both 0 [0; 0] pk.
Proof.
  destruct (ok_ex (fresh_server 0)) as [a0 H0]; [vm_compute; reflexivity|].
  destruct (ok_ex (fresh_server 1)) as [a1 H1]; [vm_compute; reflexivity|].
  assert (match fresh_server 0, fresh_server 1 with
    | Ok a0, Ok a1 => get_key_package (app_db (after_dkg a0 a1))
    | _, _ => None end = Some [0; 0]) as Hk by (vm_compute; reflexivity).
  rewrite H0, H1 in Hk.
  pose proof (run_calls (config 2 0 0) 7 0 11 [11; 12] 2 a0 [] (dkg_calls a0 a1) a0
    (run_nil _ _ _ _ _)) as Hrun.
  assert (App.federation_members 0 [11; 12] = Ok both) as Hm by (vm_compute; reflexivity).
  assert (2 ≤ size both)%nat as H2 by (vm_compute; lia).
  destruct (group_key_authentic_and_permanent (config 2 0 0) _ _ _ both Hm H2 7 open 0 0 0 a0 _
    (after_dkg a0 a1) [0; 0] eq_refl eq_refl H0 Hrun Hk) as [(pk & Hpk & Ha) _].
  exists a0, (after_dkg a0 a1), ([] ++ releases (config 2 0 0) 7 0 (dkg_calls a0 a1) a0), pk.
  exact (conj H0 (conj Hrun (conj Hk (conj Hpk Ha)))).
Defined.
