(* ===== verification/PegoutValidation.v ===== *)
(** * Pegouts read from the chain

    [consensus/authority/src/utils.rs]: before a node takes part in signing a
    PSBT it looks up the burn event of every pegout the PSBT pays and compares the
    output with it ([validate_psbt_by_ids]); the pegouts of a block are collected
    from its receipts ([get_block_pegouts]).

    The node's view of the chain is a record of the queries of reth's providers. *)

From S2P Require Import Prelude Bitcoin Psbt Codec Headers Peg Mint Execution Abci.
Local Open Scope Z_scope.

(** ** The chain *)

Record ChainView (PE : Type) := {
  cv_receipt_by_hash : B256 → result PE (option Receipt);
  (** [transaction_by_hash_with_meta]: the number of the block *)
  cv_transaction_block : B256 → result PE (option Z);
  cv_header_by_number : Z → result PE (option EthHeader);
  (** [block_by_number], of which only the header is used *)
  cv_block_by_number : Z → result PE (option EthHeader);
  (** the hashes of the transactions *)
  cv_transactions_by_block : Z → result PE (option (list B256));
  cv_receipts_by_block : Z → result PE (option (list Receipt));
}.
Arguments cv_receipt_by_hash {PE}.
Arguments cv_transaction_block {PE}.
Arguments cv_header_by_number {PE}.
Arguments cv_block_by_number {PE}.
Arguments cv_transactions_by_block {PE}.
Arguments cv_receipts_by_block {PE}.

(** Three months. *)
Definition MAX_BLOCK_TS_CUTOFF_DURATION_SECS : Z := 30 * 24 * 60 * 60 * 3.

(** [now]: the clock, in seconds since the epoch. *)
Definition is_block_age_acceptable (now timestamp max_age_cutoff : Z) : bool :=
  saturating_sub now max_age_cutoff <? timestamp.

(** [while start % epoch_length != 0 { start -= 1 }]: zero is always an epoch
    start, so the number bounds the rounds; a length of zero panics. *)
Fixpoint epoch_start_loop (fuel : nat) (epoch_length n : Z) : Z :=
  match fuel with
  | O => n
  | S fuel' => if n mod epoch_length =? 0 then n else epoch_start_loop fuel' epoch_length (n - 1)
  end.
Definition find_epoch_start (epoch_length current_block_number : Z) : result () Z :=
  let? _ := rassert (negb (epoch_length =? 0)) in
  Ok (epoch_start_loop (Z.to_nat current_block_number) epoch_length current_block_number).

Section pegouts.
Context `{!Secp256k1, !PegLib, !Abi, !AbciLib}.
Context {PE : Type} (contains_input : bytes → bytes → bool).

(** ** The pegouts of a block *)

Definition bloom_contains_pegout (bloom : bytes) : bool :=
  contains_input bloom MINT_CONTRACT_ADDRESS && contains_input bloom BURN_TOPIC.
Definition bloom_contains_pegin (bloom : bytes) : bool :=
  contains_input bloom MINT_CONTRACT_ADDRESS && contains_input bloom MINT_TOPIC.

Inductive EpochPegoutsError :=
  | FailedToFetchPegouts
  | NoReceiptsFoundForBlock (number : Z).

Definition or_fetch {A} (r : result PE A) : result EpochPegoutsError A :=
  match r with Ok x => Ok x | Err _ => Err FailedToFetchPegouts | Panic => Panic end.

(** The logs of a receipt that are burn events. *)
Definition burn_events (network : Network) (r : Receipt) : list (nat * PegoutData) :=
  if rc_success r then
    omap (λ '(index, log), match try_parse_burn_event network log with
                           | Ok (Some p) => Some (index, p)
                           | _ => None
                           end) (imap pair (rc_logs r))
  else [].

(** [index as u32] *)
Definition pegout_id_of (tx_hash : B256) (index : nat) : PegoutId :=
  mkPegoutId tx_hash (Z.of_nat index mod 2 ^ 32).

Definition get_block_pegouts (client : ChainView PE) (now block : Z) (network : Network)
    (max_cutoff_age : option Z) : result EpochPegoutsError (list (PegoutId * Z)) :=
  let? found := or_fetch (cv_block_by_number client block) in
  match found with
  | None => Err FailedToFetchPegouts
  | Some header =>
      if negb (bloom_contains_pegout (h_logs_bloom header)) then Ok []
      else if from_option (λ age, negb (is_block_age_acceptable now (h_timestamp header) age)) false
                max_cutoff_age
      then Ok []
      else
        let? txs := or_fetch (cv_transactions_by_block client (h_number header)) in
        let? receipts := or_fetch (cv_receipts_by_block client (h_number header)) in
        match txs, receipts with
        | Some txs, Some receipts =>
            Ok ('(receipt, tx) ← zip receipts txs;
                (λ '(index, _), (pegout_id_of tx index, h_timestamp header)) <$>
                  burn_events network receipt)
        | _, _ => Err (NoReceiptsFoundForBlock (h_number header))
        end
  end.

(** The pegouts of the blocks from the start of the epoch to [best_block]. *)
Fixpoint pegouts_of_blocks (client : ChainView PE) (network : Network) (blocks : list Z)
    : result EpochPegoutsError (list PegoutData) :=
  match blocks with
  | [] => Ok []
  | block :: rest =>
      let? found := or_fetch (cv_block_by_number client block) in
      match found with
      | None => Err FailedToFetchPegouts
      | Some header =>
          let? here :=
            if bloom_contains_pegout (h_logs_bloom header) then
              let? receipts := or_fetch (cv_receipts_by_block client (h_number header)) in
              Ok (r ← default [] receipts; (burn_events network r).*2)
            else Ok [] in
          let? later := pegouts_of_blocks client network rest in
          Ok (here ++ later)
      end
  end.
Definition epoch_pegouts (client : ChainView PE) (best_block : Z) (network : Network)
    (epoch_length : Z) : result EpochPegoutsError (list PegoutData) :=
  match find_epoch_start epoch_length best_block with
  | Ok start => pegouts_of_blocks client network
                  ((λ i, start + Z.of_nat i) <$> seq 0 (Z.to_nat (best_block - start + 1)))
  | _ => Panic
  end.

(** ** Validating a PSBT against the chain *)

(** The messages of [FailedToValidatePsbtByIds]. *)
Inductive ByIds :=
  | OutputsMismatch | NoPegoutIds | DuplicatePegoutId | MultipleChangeOutputs | NoFeePerOutput
  | NoLog | BadBurnEvent | NotABurnEvent | NoTxOut | WrongDestination | AmountUnderflow | WrongAmount.
Inductive PsbtValidationError :=
  | FailedToValidatePsbtByIds (reason : ByIds)
  | FailedToGetTransactionByPegoutId (txid : bytes)
  | FailedToGetHeaderForPegoutId (txid : bytes)
  | PegoutIdOutsideMaximumCutoffAge (txid : bytes).

Definition by_ids {A} (o : option A) (reason : ByIds) : result PsbtValidationError A :=
  ok_or o (FailedToValidatePsbtByIds reason).
Definition reject_by_ids (b : bool) (reason : ByIds) : result PsbtValidationError () :=
  if b then Err (FailedToValidatePsbtByIds reason) else Ok tt.

Definition extract_pegout_ids (p : Psbt) : list (nat * PegoutId) :=
  omap (λ '(pos, o), b ← pegout_id o;
                     match from_bytes b with Ok id => Some (pos, id) | _ => None end)
    (imap pair (outputs p)).

Definition validate_psbt_by_output (tx_out : TxOut) (destination : BtcAddress) (amount fee : Z)
    : result PsbtValidationError () :=
  let? _ := reject_by_ids (negb (bool_decide (script_pubkey tx_out = address_script destination)))
              WrongDestination in
  let? expected_amount := by_ids (checked_sub amount fee) AmountUnderflow in
  reject_by_ids (negb (value tx_out =? expected_amount)) WrongAmount.

(** [insert] into a [HashSet] fails on an id that is there. *)
Fixpoint check_duplicates (seen : gset PegoutId) (l : list (nat * PegoutId))
    : result PsbtValidationError () :=
  match l with
  | [] => Ok tt
  | (_, id) :: l' =>
      let? _ := reject_by_ids (bool_decide (id ∈ seen)) DuplicatePegoutId in
      check_duplicates ({[id]} ∪ seen) l'
  end.

Definition validate_psbt_id_by_maximum_cutoff_age (client : ChainView PE) (now : Z) (id : PegoutId)
    : result PsbtValidationError () :=
  let? block := match cv_transaction_block client (pid_txid id) with
                | Ok (Some n) => Ok n
                | Ok None | Err _ => Err (FailedToGetTransactionByPegoutId (pid_txid id))
                | Panic => Panic
                end in
  let? header := match cv_header_by_number client block with
                 | Ok (Some h) => Ok h
                 | Ok None | Err _ => Err (FailedToGetHeaderForPegoutId (pid_txid id))
                 | Panic => Panic
                 end in
  if is_block_age_acceptable now (h_timestamp header) MAX_BLOCK_TS_CUTOFF_DURATION_SECS then Ok tt
  else Err (PegoutIdOutsideMaximumCutoffAge (pid_txid id)).

Fixpoint check_ages (client : ChainView PE) (now : Z) (l : list (nat * PegoutId))
    : result PsbtValidationError () :=
  match l with
  | [] => Ok tt
  | (_, id) :: l' =>
      let? _ := validate_psbt_id_by_maximum_cutoff_age client now id in
      check_ages client now l'
  end.

(** The outputs that no pegout id was found for. *)
Definition change_output_count (p : Psbt) (l : list (nat * PegoutId)) : nat :=
  length (filter (λ i, i ∉ l.*1) (seq 0 (length (outputs p)))).

(** [receipt_by_hash(..).ok().flatten().and_then(..)] *)
Definition burn_log (client : ChainView PE) (id : PegoutId) : result PsbtValidationError Log :=
  match cv_receipt_by_hash client (pid_txid id) with
  | Ok (Some r) => by_ids (rc_logs r !! Z.to_nat (idx id)) NoLog
  | Ok None | Err _ => Err (FailedToValidatePsbtByIds NoLog)
  | Panic => Panic
  end.
Definition burn_of (client : ChainView PE) (network : Network) (id : PegoutId)
    : result PsbtValidationError PegoutData :=
  let? log := burn_log client id in
  let? parsed := map_err (λ _, FailedToValidatePsbtByIds BadBurnEvent)
                   (try_parse_burn_event network log) in
  by_ids parsed NotABurnEvent.

Fixpoint check_burns (client : ChainView PE) (network : Network) (p : Psbt) (fee : Z)
    (l : list (nat * PegoutId)) : result PsbtValidationError () :=
  match l with
  | [] => Ok tt
  | (pos, id) :: l' =>
      let? burn := burn_of client network id in
      let? tx_out := by_ids (output (unsigned_tx p) !! pos) NoTxOut in
      let? _ := validate_psbt_by_output tx_out (pg_destination burn) (pg_amount burn) fee in
      check_burns client network p fee l'
  end.

Definition validate_psbt_by_ids `{BitcoinLib} (client : ChainView PE) (now : Z) (network : Network)
    (p : Psbt) : result PsbtValidationError () :=
  let? _ := reject_by_ids (negb (length (outputs p) =? length (output (unsigned_tx p)))%nat)
              OutputsMismatch in
  let ids := extract_pegout_ids p in
  let? _ := reject_by_ids (length ids =? 0)%nat NoPegoutIds in
  let? _ := check_duplicates ∅ ids in
  let? _ := check_ages client now ids in
  let? _ := reject_by_ids (1 <? change_output_count p ids)%nat MultipleChangeOutputs in
  let? fee := map_err (λ _, FailedToValidatePsbtByIds NoFeePerOutput)
                (fee_per_output p (Z.of_nat (length ids))) in
  check_burns client network p fee ids.

End pegouts.
