(* ===== verification/PegoutValidationTheory.v ===== *)
(** * Theorems about validation against the chain

    What a PSBT that a node accepts pays, and when the node accepts the PSBTs that
    the wallet's coin selection builds. *)

From S2P Require Import Prelude Bitcoin Psbt Database DatabaseTheory CoinSelection CoinSelectionTheory Codec Headers Peg Mint MintTheory HeaderRules Execution Abci PegoutValidation.
Local Open Scope Z_scope.

Lemma filter_ext_in {A} (P Q : A → Prop) `{∀ x, Decision (P x), ∀ x, Decision (Q x)} (l : list A) :
  (∀ x, x ∈ l → P x ↔ Q x) → filter P l = filter Q l.
Proof.
  induction l as [|x l IH]; intros Hpq; [done|].
  assert (filter P l = filter Q l) as Hl by (apply IH; intros y Hy; apply Hpq; by right).
  destruct (decide (P x)) as [Hp|Hp].
  - rewrite !filter_cons_True by (try done; by apply Hpq; [left|]). by rewrite Hl.
  - rewrite !filter_cons_False; [done| |done]. intros Hq. apply Hp, Hpq; [left|done].
Qed.

Section theory.
Context `{!Secp256k1, !PegLib, !Abi, !AbciLib, BitcoinLib}.
Context {PE : Type} (client : ChainView PE) (now : Z) (network : Network).

Lemma reject_by_ids_ok b reason : reject_by_ids b reason = Ok tt ↔ b = false.
Proof. by destruct b. Qed.
Lemma by_ids_ok {A} (o : option A) reason x : by_ids o reason = Ok x ↔ o = Some x.
Proof. apply ok_or_ok. Qed.

(** The block of the pegout is young enough. *)
Definition young (id : PegoutId) : Prop :=
  ∃ n h, cv_transaction_block client (pid_txid id) = Ok (Some n) ∧
    cv_header_by_number client n = Ok (Some h) ∧
    saturating_sub now MAX_BLOCK_TS_CUTOFF_DURATION_SECS < h_timestamp h.
(** The output at the position pays the burn event, less the fee. *)
Definition pays (p : Psbt) (fee : Z) (x : nat * PegoutId) : Prop :=
  ∃ burn o, burn_of client network x.2 = Ok burn ∧ output (unsigned_tx p) !! x.1 = Some o ∧
    script_pubkey o = address_script (pg_destination burn) ∧
    fee ≤ pg_amount burn ∧ value o = pg_amount burn - fee.

Lemma cutoff_ok id : validate_psbt_id_by_maximum_cutoff_age client now id = Ok tt ↔ young id.
Proof.
  unfold validate_psbt_id_by_maximum_cutoff_age, is_block_age_acceptable, young. split.
  - intros Heq. rinv Heq. destruct (cv_transaction_block _ _) as [[n|]| |]; [|done..].
    injection E as ->. destruct (cv_header_by_number _ _) as [[h|]| |] eqn:Hh; [|done..].
    injection E0 as ->. destruct (_ <? _) eqn:Hlt; [|done]. bool_to_prop. by exists a, a0.
  - intros (n & h & -> & Hh & Hlt). cbn [rbind]. rewrite Hh. cbn [rbind].
    by rewrite (proj2 (Z.ltb_lt _ _)) by done.
Qed.
Lemma check_ages_ok l : check_ages client now l = Ok tt ↔ Forall (λ x, young x.2) l.
Proof.
  induction l as [|[pos id] l IH]; cbn [check_ages]; [by split; [constructor|]|].
  rewrite Forall_cons, <-cutoff_ok, <-IH, rbind_ok. simpl. split; [|eauto].
  intros ([] & ? & ?). done.
Qed.
Lemma check_duplicates_ok seen l :
  check_duplicates seen l = Ok tt ↔ NoDup l.*2 ∧ ∀ id, id ∈ l.*2 → id ∉ seen.
Proof.
  revert seen. induction l as [|[pos id] l IH]; intros seen; cbn [check_duplicates fmap list_fmap].
  { split; [|done]. split; [constructor|]. intros id Hid. by apply not_elem_of_nil in Hid. }
  rewrite rbind_ok. simpl. rewrite NoDup_cons. split.
  - intros ([] & Hd & Hr). apply reject_by_ids_ok in Hd. bool_to_prop.
    apply IH in Hr as [Hnd Hs]. split_and!; [|done|].
    + intros Hin. apply Hs in Hin. set_solver.
    + intros i [->|Hi]%elem_of_cons; [done|]. apply Hs in Hi. set_solver.
  - intros [[Hin Hnd] Hs]. exists tt. rewrite reject_by_ids_ok. split.
    + apply bool_decide_eq_false. apply Hs. left.
    + apply IH. split; [done|]. intros i Hi. specialize (Hs i (list_elem_of_further _ _ _ Hi)). set_solver.
Qed.
Lemma by_output_ok o dest amount fee :
  validate_psbt_by_output o dest amount fee = Ok tt ↔
  script_pubkey o = address_script dest ∧ fee ≤ amount ∧ value o = amount - fee.
Proof.
  unfold validate_psbt_by_output. rewrite rbind_ok. split.
  - intros ([] & Hs & Hr). apply reject_by_ids_ok in Hs. rewrite negb_false_iff in Hs.
    apply bool_decide_eq_true in Hs. apply rbind_ok in Hr as (e & He & Hr).
    apply by_ids_ok, checked_sub_some in He as [-> ?]. apply reject_by_ids_ok in Hr.
    rewrite negb_false_iff in Hr. by apply Z.eqb_eq in Hr.
  - intros (Hs & Hle & Hv). exists tt. rewrite reject_by_ids_ok, bool_decide_eq_true_2 by done.
    split; [done|]. apply rbind_ok. exists (amount - fee).
    rewrite by_ids_ok, checked_sub_some, reject_by_ids_ok, (proj2 (Z.eqb_eq _ _)) by done. done.
Qed.
Lemma check_burns_ok p fee l :
  check_burns client network p fee l = Ok tt ↔ Forall (pays p fee) l.
Proof.
  induction l as [|[pos id] l IH]; cbn [check_burns]; [by split; [constructor|]|].
  rewrite Forall_cons, <-IH, rbind_ok. unfold pays at 1. cbn [fst snd]. split.
  - intros (burn & Hb & Hr). apply rbind_ok in Hr as (o & Ho & Hr). apply by_ids_ok in Ho.
    apply rbind_ok in Hr as ([] & Hv & Hr). apply by_output_ok in Hv. split; [|done].
    by exists burn, o.
  - intros [(burn & o & Hb & Ho & Hv) Hr]. exists burn. split; [done|]. apply rbind_ok.
    exists o. split; [by apply by_ids_ok|]. apply rbind_ok. exists tt. by rewrite by_output_ok.
Qed.

(** ** The ids of a PSBT *)

Definition id_at (o : PsbtOutput) : option PegoutId :=
  b ← pegout_id o; match from_bytes b with Ok id => Some id | _ => None end.
Fixpoint ids_from (k : nat) (l : list PsbtOutput) : list (nat * PegoutId) :=
  match l with
  | [] => []
  | o :: l' => match id_at o with
               | Some id => (k, id) :: ids_from (S k) l'
               | None => ids_from (S k) l'
               end
  end.
Lemma extract_pegout_ids_eq p : extract_pegout_ids p = ids_from 0 (outputs p).
Proof.
  unfold extract_pegout_ids.
  enough (∀ l f k, (∀ i, f i = (k + i)%nat) →
    omap (λ '(pos, o), b ← pegout_id o;
      match from_bytes b with Ok id => Some (pos, id) | _ => None end) (imap (λ i o, (f i, o)) l) =
    ids_from k l) as Hen by (by apply (Hen _ (λ i, i))).
  induction l as [|o l IH]; intros f k Hf; [done|]. rewrite imap_cons, list_omap_cons.
  cbn [ids_from]. unfold compose. rewrite (IH (λ i, f (S i)) (S k)) by (intros; rewrite Hf; lia).
  unfold id_at. rewrite Hf, Nat.add_0_r. destruct (pegout_id o); [|done]. simpl.
  by destruct (from_bytes _).
Qed.
Lemma ids_from_ge k l x : x ∈ ids_from k l → (k ≤ x.1)%nat.
Proof.
  revert k. induction l as [|o l IH]; intros k Hx; cbn [ids_from] in Hx; [by apply not_elem_of_nil in Hx|].
  destruct (id_at o); [apply elem_of_cons in Hx as [->|Hx]; [done|]|]; apply IH in Hx; lia.
Qed.
Lemma ids_from_count k l :
  (length (filter (λ i, i ∉ (ids_from k l).*1) (seq k (length l))) + length (ids_from k l) =
   length l)%nat.
Proof.
  revert k. induction l as [|o l IH]; intros k; [done|]. cbn [ids_from length seq].
  assert (∀ L : list nat, (∀ i, i ∈ L → (S k ≤ i)%nat) → filter (λ i, i ∉ k :: (ids_from (S k) l).*1) L =
    filter (λ i, i ∉ (ids_from (S k) l).*1) L) as Hext.
  { intros L HL. apply filter_ext_in. intros i Hi. rewrite not_elem_of_cons.
    apply HL in Hi. split; [naive_solver|]. intros ?. split; [lia|done]. }
  destruct (id_at o) as [id|]; csimpl.
  - rewrite filter_cons_False by (intros Hn; apply Hn; left).
    rewrite Hext by (intros i Hi%elem_of_seq; lia). specialize (IH (S k)). lia.
  - rewrite filter_cons_True; [simpl; by rewrite IH|]. intros (x & -> & Hx)%list_elem_of_fmap.
    apply ids_from_ge in Hx. lia.
Qed.
Lemma change_output_count_eq p :
  (change_output_count p (extract_pegout_ids p) + length (extract_pegout_ids p) =
   length (outputs p))%nat.
Proof. rewrite extract_pegout_ids_eq. apply ids_from_count. Qed.

(** A node accepts a PSBT exactly when the chain backs every pegout in it.  The
    PSBT has an entry for every output; it pays at least one pegout, none twice,
    none older than the cutoff; all its outputs but at most one are pegouts; and
    each of these pays the script that its burn event names, the burnt amount less
    an equal share of the fee, rounded down. *)
Theorem validate_psbt_by_ids_iff p :
  let ids := extract_pegout_ids p in
  validate_psbt_by_ids client now network p = Ok tt ↔
  length (outputs p) = length (output (unsigned_tx p)) ∧ ids ≠ [] ∧ NoDup ids.*2 ∧
  Forall (λ x, young x.2) ids ∧ (length (outputs p) ≤ length ids + 1)%nat ∧
  ∃ fee, psbt_fee p = Ok fee ∧ Forall (pays p (fee / Z.of_nat (length ids))) ids.
Proof.
  intros ids. unfold validate_psbt_by_ids. fold ids.
  pose proof (change_output_count_eq p) as Hc. fold ids in Hc. split.
  - intros Heq. rinv Heq. repeat match goal with x : () |- _ => destruct x end.
    apply reject_by_ids_ok in E, E0, E3. apply check_duplicates_ok in E1 as [Hnd _].
    apply check_ages_ok in E2. apply map_err_ok, rbind_ok in E4 as (fee & Hfee & Hdiv).
    apply map_err_ok in Hfee. apply ok_or_ok, checked_div_some in Hdiv as [-> _].
    apply check_burns_ok in Heq. rewrite negb_false_iff, Nat.eqb_eq in E.
    apply Nat.eqb_neq in E0. apply Nat.ltb_ge in E3.
    split_and!; [done| |done|done|lia|by eexists]. intros Hn. by rewrite Hn in E0.
  - intros (Hl & Hne & Hnd & Hy & Hch & fee & Hfee & Hp).
    assert (length ids ≠ 0)%nat as Hn by (by destruct ids).
    rewrite (proj2 (reject_by_ids_ok _ _)) by (rewrite negb_false_iff; by apply Nat.eqb_eq).
    cbn [rbind]. rewrite (proj2 (reject_by_ids_ok _ _)) by (by apply Nat.eqb_neq). cbn [rbind].
    rewrite (proj2 (check_duplicates_ok _ _)) by (split; [done|set_solver]). cbn [rbind].
    rewrite (proj2 (check_ages_ok _)) by done. cbn [rbind].
    rewrite (proj2 (reject_by_ids_ok _ _)) by (apply Nat.ltb_ge; lia). cbn [rbind].
    unfold fee_per_output. rewrite Hfee. cbn [rbind map_err].
    rewrite (proj2 (checked_div_some _ _ (fee / Z.of_nat (length ids)))) by (split; [done|lia]).
    cbn [ok_or map_err rbind]. by apply check_burns_ok.
Qed.

(** ** The PSBTs of the wallet *)

(** What coin selection is given: distinct pegouts that the chain records, with
    the amounts and the scripts of their burn events. *)
Definition on_chain (x : TxOut * PegoutId) : Prop :=
  pegout_id_ok x.2 ∧ young x.2 ∧
  ∃ burn, burn_of client network x.2 = Ok burn ∧ pg_amount burn = value x.1 ∧
    address_script (pg_destination burn) = script_pubkey x.1.

Definition with_bytes (x : TxOut * PegoutId) : TxOut * bytes := (x.1, as_bytes x.2).
Lemma sublist_fmap_ex {A B} (f : A → B) k l : k `sublist_of` f <$> l → ∃ k', k = f <$> k' ∧ k' `sublist_of` l.
Proof.
  revert k. induction l as [|x l IH]; intros k Hk; csimpl in Hk.
  - apply sublist_nil_r in Hk as ->. by exists [].
  - apply sublist_cons_r in Hk as [Hk|(k1 & -> & Hk)]; destruct (IH _ Hk) as (k' & -> & Hs).
    + exists k'. split; [done|]. by apply sublist_cons.
    + exists (x :: k'). split; [done|]. by apply sublist_skip.
Qed.
Lemma fmap_sublist_of {A B} (f : A → B) k l : k `sublist_of` l → f <$> k `sublist_of` f <$> l.
Proof. induction 1; csimpl; by constructor. Qed.
Lemma ids_from_created (ks : list (TxOut * PegoutId)) (tl : list PsbtOutput) k :
  Forall (λ x, pegout_id_ok x.2) ks → Forall (λ o, id_at o = None) tl →
  ids_from k (((λ p, set_pegout_id p default_output) <$> (with_bytes <$> ks).*2) ++ tl) =
  imap (λ i x, ((k + i)%nat, x.2)) ks.
Proof.
  intros Hks Htl. revert k. induction Hks as [|[o id] ks Hid _ IH]; intros k; csimpl.
  - revert k. induction Htl as [|o tl Ho _ IHt]; intros k; [done|]. cbn [ids_from]. by rewrite Ho.
  - assert (id_at (set_pegout_id (as_bytes id) default_output) = Some id) as ->.
    { unfold id_at. rewrite pegout_id_set by (by apply as_bytes_length). simpl.
      by rewrite from_bytes_as_bytes. }
    rewrite IH, Nat.add_0_r. f_equal. apply imap_ext. intros i x _. unfold compose. simpl. f_equal. lia.
Qed.
End theory.

Section wallet.
Context `{!Secp256k1, !PegLib, !Abi, !AbciLib, BitcoinLib, !BitcoinLibLaws, Bdk, !BdkLaws}.
Context {PE : Type} (client : ChainView PE) (now : Z) (network : Network).

Lemma zsum_fmap_inputs ins vs :
  Forall2 (λ i v, value <$> witness_utxo i = Some v) (fill_input default_input <$> ins) vs →
  vs = input_values ins.
Proof.
  revert vs. induction ins as [|u ins IH]; intros vs Hv; csimpl in Hv.
  - by apply Forall2_nil_inv_l in Hv.
  - apply Forall2_cons_inv_l in Hv as (v & vs' & Hu & Hv & ->).
    rewrite (proj1 (fill_input_fields u)) in Hu. injection Hu as <-.
    by rewrite (IH _ Hv).
Qed.

(** The fee of the PSBT is the sum of the shares. *)
Lemma created_fee ins outs change fee :
  psbt_fee (created_psbt ins outs (Some change)) = Ok fee →
  fee = zsum (input_values ins) - zsum (values outs) - value change.
Proof.
  intros Hf. apply psbt_fee_ok in Hf as (vs & Hv & -> & _). apply zsum_fmap_inputs in Hv as ->.
  unfold created_psbt, pegout_tx, values. simpl. rewrite fmap_app, zsum_app, <-list_fmap_compose.
  unfold compose. csimpl. unfold zsum at 3. simpl. lia.
Qed.

(** All shares are equal exactly when the fee divides evenly. *)
Lemma fee_shares_equal l fee fees :
  l ≠ [] → 0 ≤ fee ≤ u64_max → calculate_fee_distribution l fee = Ok fees →
  length fees = length l ∧
  (Forall (λ f, f = fee / Z.of_nat (length l)) fees ↔ fee mod Z.of_nat (length l) = 0).
Proof.
  intros Hl Hfee Hd. destruct (fee_distribution_spec l fee Hl Hfee) as (fees' & Hd' & Hlen & _ & Hlk).
  rewrite Hd in Hd'. injection Hd' as <-. split; [done|]. set (n := Z.of_nat (length l)) in *.
  assert (1 ≤ n) as Hn by (destruct l; [done|subst n; simpl; lia]).
  pose proof (Z.mod_pos_bound fee n ltac:(lia)) as Hm. split.
  - intros Hall. destruct (decide (fee mod n = 0)) as [|Hne]; [done|exfalso].
    destruct (sorted_indices l) as [|i rest] eqn:Hs.
    { pose proof (sorted_indices_perm l) as Hp. rewrite Hs in Hp.
      apply Permutation_nil_l in Hp. destruct l; [done|discriminate Hp]. }
    assert (i < length l)%nat as Hi.
    { assert (i ∈ seq 0 (length l)) as Hin%elem_of_seq; [|lia].
      rewrite <-sorted_indices_perm, Hs. left. }
    specialize (Hlk i Hi). destruct (Z.to_nat (fee mod n)) as [|r] eqn:Hr; [lia|].
    simpl in Hlk. rewrite decide_True in Hlk by left. rewrite Forall_forall in Hall.
    apply list_elem_of_lookup_2, Hall in Hlk. lia.
  - intros Hz. rewrite Hz in Hlk. simpl in Hlk. apply Forall_lookup. intros i f Hf.
    pose proof (lookup_lt_Some _ _ _ Hf). rewrite Hlk in Hf by lia. by injection Hf.
Qed.
Lemma after_fee_ids l fees :
  length fees = length l → (zip_with after_fee l fees).*2 = l.*2.
Proof. revert fees. induction l as [|x l IH]; intros [|f fees] Hl; simplify_eq/=; [done|]. by rewrite IH. Qed.

Lemma Forall_positions {A B} (P : nat * B → Prop) (f : A → B) l :
  Forall P (imap (λ i x, (i, f x)) l) ↔ ∀ i x, l !! i = Some x → P (i, f x).
Proof.
  rewrite Forall_lookup. split.
  - intros HP i x Hx. apply (HP i). by rewrite list_lookup_imap, Hx.
  - intros HP i y Hy. rewrite list_lookup_imap in Hy. destruct (l !! i) eqn:Hi; [|done].
    injection Hy as <-. by apply HP.
Qed.
Lemma extract_created ins ks fees change :
  Forall (on_chain client now network) ks → length fees = length ks →
  extract_pegout_ids (created_psbt ins (zip_with after_fee (with_bytes <$> ks) fees) (Some change)) =
  imap (λ i x, (i, x.2)) ks.
Proof.
  intros Hks Hlen. rewrite extract_pegout_ids_eq. unfold created_psbt. cbn [outputs].
  rewrite after_fee_ids by (by rewrite length_fmap).
  apply (ids_from_created ks _ 0); [|by constructor].
  eapply Forall_impl; [exact Hks|]. by intros x [].
Qed.

(** A pegout output satisfies the node exactly when its share is the rounded one. *)
Lemma pays_created ins ks fees change i x f fee :
  Forall (on_chain client now network) ks → ks !! i = Some x → fees !! i = Some f →
  length fees = length ks → f ≤ value x.1 →
  pays client network (created_psbt ins (zip_with after_fee (with_bytes <$> ks) fees) (Some change))
    fee (i, x.2) ↔ f = fee ∧ fee ≤ value x.1.
Proof.
  intros Hall Hx Hf Hlen Hle. rewrite Forall_forall in Hall.
  destruct (Hall x (list_elem_of_lookup_2 _ _ _ Hx)) as (_ & _ & burn & Hb & Ham & Hspk).
  assert (output (unsigned_tx (created_psbt ins (zip_with after_fee (with_bytes <$> ks) fees)
    (Some change))) !! i = Some {| value := value x.1 - f; script_pubkey := script_pubkey x.1 |}) as Ho.
  { unfold created_psbt, pegout_tx. cbn [unsigned_tx output]. rewrite lookup_app_l.
    2: { rewrite length_fmap, length_zip_with, length_fmap. apply lookup_lt_Some in Hx. lia. }
    rewrite list_lookup_fmap, lookup_zip_with, list_lookup_fmap, Hx, Hf. simpl.
    unfold after_fee. simpl. by rewrite (proj2 (checked_sub_some _ _ (value x.1 - f))) by lia. }
  unfold pays. cbn [fst snd]. rewrite Ho. split.
  - intros (burn' & o & Hb' & [= <-] & _ & Hle' & Hv). rewrite Hb in Hb'. injection Hb' as <-.
    simpl in Hv. lia.
  - intros [-> Hle']. eexists burn, _. split_and!; [done|done|by rewrite Hspk|lia|simpl; lia].
Qed.

(** C9. The federation signs what its wallet builds only when the fee divides
    evenly.  Take any transaction that the coordinator's coin selection builds for
    pegouts that are all recorded on chain, with the amounts and the scripts of
    their burn events, distinct and within the cutoff age: the coordinator and the
    other members accept it if and only if its fee is a multiple of the number of
    pegouts it pays.  Coin selection gives the remaining sats to the largest
    pegouts; validation expects every pegout to bear the rounded share. *)
Theorem selected_psbt_accepted_iff opt req outs rate script p fee :
  own_key outpoint opt → own_key outpoint req → opt ##ₘ req →
  map_Forall (λ _, utxo_ok) opt → map_Forall (λ _, utxo_ok) req →
  Forall (λ o, 0 ≤ value o.1 ∧ 0 < minimal_non_dust (script_pubkey o.1)) outs →
  NoDup outs.*2 → Forall (on_chain client now network) outs →
  coin_selection opt req outs rate script = Ok p → psbt_fee p = Ok fee →
  validate_psbt_by_ids client now network p = Ok tt ↔
  fee mod Z.of_nat (length (extract_pegout_ids p)) = 0.
Proof.
  intros Hopt Hreq Hdisj Hvo Hvr Houts Hnd Hch Heq Hfee.
  destruct (coin_selection_spec _ _ _ _ _ _ Hopt Hreq Hdisj Hvo Hvr Houts Heq)
    as (ins & kept & fees & change & -> & _ & _ & _ & Hsub & _ & Hle & _ & _ & _ & Hd & Hb & Hsum).
  assert (fee = zsum fees) as -> by (apply created_fee in Hfee; lia). clear Hsum Heq.
  apply (sublist_fmap_ex with_bytes) in Hsub as (ks & -> & Hsub).
  assert (Forall (on_chain client now network) ks) as Hks.
  { apply Forall_forall. intros x Hx. rewrite Forall_forall in Hch.
    by apply Hch, (elem_of_sublist ks). }
  assert (ks ≠ []) as Hne by (intros ->; done).
  destruct (fee_shares_equal (with_bytes <$> ks) (zsum fees) fees) as [Hlen Hiff];
    [by destruct ks|done|done|].
  rewrite length_fmap in *. set (p := created_psbt _ _ _) in *.
  pose proof (extract_created ins ks fees change Hks Hlen) as Hids. fold p in Hids.
  rewrite Forall2_fmap_l in Hle.
  rewrite validate_psbt_by_ids_iff, Hids, length_imap, <-Hiff. split.
  - intros (_ & _ & _ & _ & _ & fee & Hfee' & Hp). rewrite Hfee in Hfee'. injection Hfee' as <-.
    rewrite Forall_positions in Hp. apply Forall_lookup. intros i f Hf.
    destruct (Forall2_lookup_r _ _ _ _ _ Hle Hf) as (x & Hx & Hfx).
    eapply (pays_created ins ks fees change i x f); [done..|]. by apply Hp.
  - intros Hall. split_and!.
    + unfold p, created_psbt, pegout_tx. simpl. by rewrite !length_app, !length_fmap.
    + intros Hn. apply (f_equal length) in Hn. rewrite length_imap in Hn. by destruct ks.
    + rewrite fmap_imap. change (NoDup (imap (const snd) ks)). rewrite imap_const.
      eapply sublist_NoDup; [|by apply fmap_sublist_of]. done.
    + apply Forall_positions. intros i y Hy. rewrite Forall_lookup in Hks.
      by destruct (Hks i y Hy) as (_ & ? & _).
    + unfold p, created_psbt. simpl. rewrite length_app, !length_fmap, length_zip_with, length_fmap.
      simpl. lia.
    + exists (zsum fees). split; [done|]. apply Forall_positions. intros i y Hy.
      destruct (Forall2_lookup_l _ _ _ _ _ Hle Hy) as (f & Hf & Hfy).
      eapply (pays_created ins ks fees change i y f); [done..|].
      rewrite Forall_lookup in Hall. by rewrite <-(Hall i f Hf).
Qed.
End wallet.

(** ** A concrete chain *)

Module SampleChain.
Import SampleCodec.
#[export] Existing Instances Sample.lib Sample.lib_laws SampleSelection.bdk SampleSelection.bdk_laws
  sample_secp PegSample.sample_peg.
(** The data of a burn event is the burnt amount in sats; all pay the script 82. *)
#[export] Instance abi : Abi := {|
  abi_decode ps bs :=
    match ps, bs with
    | [PUint _; PString; PBytes], [v] => Some [TUint (v * SATOSHI_IN_WEI); TString [82]; TBytes [0]]
    | _, _ => None
    end;
  MINT_TOPIC := [1]; BURN_TOPIC := [2];
|}.
#[export] Instance abci : AbciLib := {|
  decode_enveloped _ := None;
  serialize_script s := Z.of_nat (length s) :: s;
  address_script a := a;
|}.
Definition header (t : Z) : EthHeader :=
  {| h_parent_hash := []; h_ommers_hash := []; h_beneficiary := []; h_state_root := [];
     h_transactions_root := []; h_receipts_root := []; h_withdrawals_root := None;
     h_logs_bloom := []; h_difficulty := 0; h_number := 1; h_gas_limit := 0; h_gas_used := 0;
     h_timestamp := t; h_mix_hash := []; h_nonce := 0; h_base_fee_per_gas := None;
     h_blob_gas_used := None; h_excess_blob_gas := None; h_parent_beacon_block_root := None;
     h_requests_root := None; h_extra_data := [] |}.
Definition burn (v : Z) : Log := mkLog MINT_CONTRACT_ADDRESS [BURN_TOPIC; []] [v].
(** Transaction 3 burns 40,000 sats in its log 3, transaction 4 burns 30,000 in
    its log 4. *)
Definition receipt (n : nat) (v : Z) : Receipt :=
  mkReceipt TyEip1559 true 0 (replicate n (mkLog [] [] []) ++ [burn v]).
Definition chain : ChainView () := {|
  cv_receipt_by_hash h :=
    if bool_decide (h = replicate 32 3) then Ok (Some (receipt 3 40000))
    else if bool_decide (h = replicate 32 4) then Ok (Some (receipt 4 30000)) else Ok None;
  cv_transaction_block _ := Ok (Some 1);
  cv_header_by_number _ := Ok (Some (header 100));
  cv_block_by_number _ := Ok (Some (header 100));
  cv_transactions_by_block _ := Ok None;
  cv_receipts_by_block _ := Ok None;
|}.
Definition pegouts : list (TxOut * PegoutId) :=
  [SampleSelection.pegout 3 40000; SampleSelection.pegout 4 30000].
Definition coins : gmap OutPoint Utxo := SampleSelection.wallet [SampleDb.utxo 1 100000].
Definition selected (rate : Z) : result CoinSelectionError Psbt :=
  coin_selection coins ∅ pegouts rate [81].
End SampleChain.
Import SampleChain.

Definition burns (n v : Z) : bool :=
  match burn_of chain NetRegtest (SampleDb.pid n) with
  | Ok b => (pg_amount b =? v) && bool_decide (address_script (pg_destination b) = [82])
  | _ => false
  end.
Lemma sample_pegout n v :
  0 ≤ n < 256 → burns n v = true → on_chain chain 200 NetRegtest (SampleSelection.pegout n v).
Proof.
  unfold burns. destruct (burn_of chain NetRegtest (SampleDb.pid n)) as [b| |] eqn:Hb; [|done..].
  intros Hn Hv. apply andb_true_iff in Hv as [Hv Hd]. bool_to_prop. split_and!.
  - split; [reflexivity|]. split; [|simpl; unfold u32_max; lia].
    apply Forall_replicate. exact Hn.
  - exists 1, (header 100). done.
  - exists b. done.
Qed.
Lemma sample_on_chain : Forall (on_chain chain 200 NetRegtest) pegouts.
Proof.
  assert (burns 3 40000 = true) as H3 by (vm_compute; reflexivity).
  assert (burns 4 30000 = true) as H4 by (vm_compute; reflexivity).
  exact (Forall_cons_2 _ _ _ (sample_pegout 3 40000 ltac:(lia) H3)
    (Forall_cons_2 _ _ _ (sample_pegout 4 30000 ltac:(lia) H4) (Forall_nil_2 _))).
Qed.
(** The same two pegouts at two fee rates. *)
Lemma selected_psbt_accepted_iff_witness :
  ∃ p q, selected 1000 = Ok p ∧ selected 1002 = Ok q ∧
    validate_psbt_by_ids chain 200 NetRegtest p = Ok tt ∧
    validate_psbt_by_ids chain 200 NetRegtest q ≠ Ok tt.
Proof.
  assert (∀ rate p fee, selected rate = Ok p → psbt_fee p = Ok fee →
    validate_psbt_by_ids chain 200 NetRegtest p = Ok tt ↔
    fee mod Z.of_nat (length (extract_pegout_ids p)) = 0) as Hiff.
  { intros rate p fee Hp Hf. refine (selected_psbt_accepted_iff chain 200 NetRegtest coins ∅ pegouts
      rate [81] p fee _ _ _ _ _ _ _ sample_on_chain Hp Hf).
    - decide_vm.
    - apply map_Forall_empty.
    - apply map_disjoint_empty_r.
    - decide_vm.
    - apply map_Forall_empty.
    - repeat constructor; simpl; lia.
    - decide_vm. }
  assert (∀ rate fee n, match selected rate with
    | Ok p => (psbt_fee p, length (extract_pegout_ids p)) | _ => (Panic, 0%nat) end = (Ok fee, n) →
    ∃ p, selected rate = Ok p ∧ psbt_fee p = Ok fee ∧ length (extract_pegout_ids p) = n) as Hsel.
  { intros rate fee n. destruct (selected rate) as [p| |]; [|discriminate..].
    intros Heq. exists p. split; [reflexivity|]. split; [exact (f_equal fst Heq)|exact (f_equal snd Heq)]. }
  destruct (Hsel 1000 790 2%nat) as (p & Hp & Hpf & Hpn); [vm_compute; reflexivity|].
  destruct (Hsel 1002 791 2%nat) as (q & Hq & Hqf & Hqn); [vm_compute; reflexivity|].
  exists p, q. split; [exact Hp|]. split; [exact Hq|].
  rewrite (Hiff _ _ _ Hp Hpf), (Hiff _ _ _ Hq Hqf), Hpn, Hqn. split; [reflexivity|discriminate].
Defined.
