(* ===== verification/FrostSigning.v ===== *)
(** * The signing sessions of a node

    [consensus/authority/src/signing.rs]: the state machine that takes a signing
    session through its rounds, between the node's own wallet server and its peers;
    the interface of the wallet server as the node sees it
    ([btc-server/client/src/extended_client.rs]), and the messages of the FROST
    network ([net/network/src/frost/mod.rs]).

    The server is any state with the operations of [BtcServer]: a call may fail
    with or without having had its effect.  Which peers are connected and which
    sends succeed is decided by the environment ([FrostNet]), per query. *)

From S2P Require Import Prelude Bitcoin Psbt RpcTypes Server.
Local Open Scope Z_scope.

(** ** The wallet server *)

(** Every failed call is [GrpcClientError::Call]. *)
Inductive GrpcClientError := GrpcCall.

Class BtcServer (St : Type) := {
  srv_new_consensus_checkpoint : ConsensusCheckpointRequest → SM St GrpcClientError ();
  srv_get_psbt : MakeTxRequest → SM St GrpcClientError SigningPackage;
  srv_get_round1_signing_package : SigningPackageRequest → SM St GrpcClientError SigningPackage;
  srv_get_round2_signing_package : SigningPackageRequest → SM St GrpcClientError SigningPackage;
  srv_new_round1_signing_package : SigningPackage → SM St GrpcClientError ();
  srv_new_round2_signing_package : SigningPackage → SM St GrpcClientError ();
  srv_get_to_sign_package : bytes → SM St GrpcClientError SigningPackage;
  srv_finalize_signing : bytes → SM St GrpcClientError bytes;
  srv_abort_signing : () → SM St GrpcClientError ();
  srv_get_public_key : () → SM St GrpcClientError bytes;
  srv_get_dkg_payloads : () → SM St GrpcClientError RpcDkgPayloads;
  srv_new_dkg_payload : RpcDkgPayload → SM St GrpcClientError RpcDkgPayloads;
  srv_get_finalized_pegout_ids : Z → SM St GrpcClientError (list GetFinalizedPegoutIdsResponse);
  srv_reset_wallet_state : list RpcFinalizedPegout → SM St GrpcClientError ();
}.

(** [retry_exec], [retry_future]: up to [n] further attempts. *)
Fixpoint retry_exec {S E A} (n : nat) (m : SM S E A) : SM S E A := λ s,
  match n with
  | O => m s
  | Datatypes.S n' =>
      match m s with
      | (Err _, s') => retry_exec n' m s'
      | r => r
      end
  end.

(** ** Messages *)

Abbreviation PeerId := bytes.

Inductive SigningEventResponseType :=
  | SignerRound1SigningPackage | CoordinatorRound1SigningPackage
  | SignerRound2SigningPackage | CoordinatorRound2SigningPackage.
Record SigningResponse := {
  response_type : SigningEventResponseType;
  sr_session : bytes;
  sr_psbt : bytes;
}.
Record DkgResponse := { dkg_data : bytes; dkg_sender : bytes; dkg_recipient : bytes }.
Record WalletStateResponse := { ws_uuid : bytes; ws_finalized_pegout_ids : bytes }.
Inductive PeerMessageStatus := PmNoneAuthority (p : PeerId) | PmPeerIdNotFound (p : PeerId).
Inductive PeerMessageResponse :=
  | PmDkg (r : DkgResponse)
  | PmSigning (r : SigningResponse)
  | PmWalletState (r : WalletStateResponse)
  | PmError (s : PeerMessageStatus).

Record PeerData `{Frost} := { pd_peer_id : PeerId; pd_frost_identifier : Identifier }.
Record FrostConfig := {
  authority_index : Z;
  authorities_len : Z;
  fc_min_signers : Z;
  wallet_state_sync_chunk_size : Z;
}.

(** What becomes of a query for the connected peers: they are listed in the order
    of the manager's map, the command cannot be sent, or it is never answered. *)
Inductive PeersReply `{Frost} := Peers (l : list PeerData) | CommandNotSent | NoAnswer.

(** What happens to the n-th query, and whether the n-th message can be handed to
    the peer. *)
Class FrostNet `{Frost} := {
  connected_peers : nat → PeersReply;
  peer_accepts : nat → PeerId → bool;
}.

(** ** Turns ([consensus/common/src/utils.rs]) *)

(** The remainder by a zero cycle panics; the coordinator is always authority 0. *)
Definition is_inturn (authorities_len signer_index time_range : Z) : result () bool :=
  let? _ := rassert (negb (authorities_len * time_range =? 0)) in Ok (signer_index =? 0).
Definition current_inturn_index (authorities_len block_time : Z) : result () Z :=
  let? _ := rassert (negb (wrap64 (authorities_len * block_time) =? 0)) in Ok 0.

(** ** Sessions *)

Inductive SigningState := Initial | Round1 | Round2 | Finalized | Failed.
#[export] Instance SigningState_eq_dec : EqDecision SigningState.
Proof. solve_decision. Defined.
Definition is_running (s : SigningState) : bool :=
  match s with Initial | Finalized | Failed => false | _ => true end.
Definition is_round1 (s : SigningState) : bool := match s with Round1 => true | _ => false end.
Definition is_round2 (s : SigningState) : bool := match s with Round2 => true | _ => false end.
Definition is_finalized (s : SigningState) : bool := match s with Finalized => true | _ => false end.
Definition has_failed (s : SigningState) : bool := match s with Failed => true | _ => false end.

Record SigningSession := {
  session_id : bytes;
  state : SigningState;
  coordinator_index : Z;
  original_psbt : option bytes;
}.

Inductive SigningError :=
  | InternalGrpc | InvalidSigningSessionId | FailedToGetPeersHandles | NotEnoughConnectedPeers
  | CoordinatorRetriggeredSession | SendError.

(** The sessions, the server, the number of queries made to the network, and what
    was handed to peers, latest first. *)
Record Machine (St : Type) := {
  signing_states : gmap bytes SigningSession;
  server : St;
  queries : nat;
  sent : list (PeerId * PeerMessageResponse);
}.
Arguments signing_states {St}.
Arguments server {St}.
Arguments queries {St}.
Arguments sent {St}.

Definition put_sessions {St : Type} (x : gmap bytes SigningSession) (m : Machine St) : Machine St :=
  {| signing_states := x; server := server m; queries := queries m; sent := sent m |}.
Definition put_server {St : Type} (x : St) (m : Machine St) : Machine St :=
  {| signing_states := signing_states m; server := x; queries := queries m; sent := sent m |}.
Definition put_queries {St : Type} (x : nat) (m : Machine St) : Machine St :=
  {| signing_states := signing_states m; server := server m; queries := x; sent := sent m |}.
Definition put_sent {St : Type} (x : list (PeerId * PeerMessageResponse)) (m : Machine St) : Machine St :=
  {| signing_states := signing_states m; server := server m; queries := queries m; sent := x |}.

Module SigningStateMachine.
Section machine.
Context {St : Type} `{!BtcServer St, Frost, !FrostNet}.
(** [authority_index_to_frost_identifier], which expects the derivation to work *)
Context (identifier_of : Z → Identifier).
Context (frost_config : FrostConfig) (leader_selection_window : option Z).

Abbreviation SigM := (SM (Machine St) SigningError).
Definition personal_frost_identifier : Identifier := identifier_of (authority_index frost_config).

(** ** The map of sessions *)

Definition set_state (x : SigningState) (s : SigningSession) : SigningSession :=
  {| session_id := session_id s; state := x; coordinator_index := coordinator_index s;
     original_psbt := original_psbt s |}.
Definition update_signing_state (id : bytes) (x : SigningState) : SigM () :=
  smodify (λ m, put_sessions (alter (set_state x) id (signing_states m)) m).
Definition insert_new_signing_session (id : bytes) (coordinator : Z) (psbt : option bytes)
    (x : SigningState) : SigM () :=
  smodify (λ m, match signing_states m !! id with
                | Some _ => m
                | None => put_sessions (<[id := {| session_id := id; state := x;
                    coordinator_index := coordinator; original_psbt := psbt |}]> (signing_states m)) m
                end).
Definition remove_signing_session (id : bytes) : SigM () :=
  smodify (λ m, put_sessions (delete id (signing_states m)) m).
Definition state_is (f : SigningState → bool) (id : bytes) (m : Machine St) : bool :=
  from_option (λ s, f (state s)) false (signing_states m !! id).

(** ** Calls *)

Definition call {A} (m : SM St GrpcClientError A) : SigM A :=
  zoom server put_server (smap_err (λ _, InternalGrpc) m).
Definition get_round1_signing_package (session psbt : bytes) : SigM SigningPackage :=
  call (srv_get_round1_signing_package {| spr_psbt := psbt; spr_session := session |}).
Definition get_round2_signing_package (session psbt : bytes) : SigM SigningPackage :=
  call (srv_get_round2_signing_package {| spr_psbt := psbt; spr_session := session |}).
Definition new_round1_signing_package (id : Identifier) (session psbt : bytes) : SigM () :=
  call (srv_new_round1_signing_package
    {| pkg_psbt := psbt; pkg_identifier := id_serialize id; pkg_session := session |}).
Definition new_round2_signing_package (id : Identifier) (session psbt : bytes) : SigM () :=
  call (srv_new_round2_signing_package
    {| pkg_psbt := psbt; pkg_identifier := id_serialize id; pkg_session := session |}).
Definition get_to_sign_package (session : bytes) : SigM SigningPackage :=
  call (srv_get_to_sign_package session).
Definition finalize_signing (session : bytes) : SigM bytes := call (srv_finalize_signing session).
Definition abort_signing : SigM () := call (srv_abort_signing tt).

(** ** Peers *)

Definition get_all_peers_handle : SigM (list PeerData) := λ m,
  (match connected_peers (queries m) with Peers l => Ok l | _ => Err FailedToGetPeersHandles end,
   put_queries (S (queries m)) m).
Definition send (to : PeerId) (msg : PeerMessageResponse) : SigM () := λ m,
  let m' := put_queries (S (queries m)) m in
  if peer_accepts (queries m) to then (Ok tt, put_sent ((to, msg) :: sent m) m')
  else (Err SendError, m').

(** The run of a turn computation inside the machine: its failures are panics. *)
Definition turn {A} (r : result () A) : SigM A :=
  slift (match r with Ok x => Ok x | _ => Panic end).
Definition is_coordinator : SigM bool :=
  turn (let? window := expect leader_selection_window in
        is_inturn (authorities_len frost_config) (authority_index frost_config) window).

(** [None]: the coordinator is us, or is not connected. *)
Definition get_coordinator_peer_data : SigM (option (PeerData * Z)) :=
  let* window := turn (expect leader_selection_window) in
  let* inturn := turn (is_inturn (authorities_len frost_config) (authority_index frost_config) window) in
  if inturn : bool then sret None
  else
    let* peers := get_all_peers_handle in
    let* index := turn (current_inturn_index (authorities_len frost_config) window) in
    sret ((λ p, (p, index)) <$>
            find (λ p, bool_decide (pd_frost_identifier p = identifier_of index)) peers).

Fixpoint gossip_loop (msg : PeerMessageResponse) (l : list PeerData) : SigM () :=
  match l with
  | [] => sret tt
  | p :: l' =>
      (if bool_decide (pd_frost_identifier p = personal_frost_identifier) then sret tt
       else send (pd_peer_id p) msg) ;;*
      gossip_loop msg l'
  end.
(** One attempt: a failed send ends it, after the sends before. *)
Definition gossip_once (msg : PeerMessageResponse) : SigM () :=
  let* peers := get_all_peers_handle in
  if Z.of_nat (length peers) + 1 <? fc_min_signers frost_config then slift (Err NotEnoughConnectedPeers)
  else gossip_loop msg peers.
Definition gossip_to_peers (p : SigningPackage) (type : SigningEventResponseType) : SigM () :=
  retry_exec 3 (gossip_once (PmSigning {| response_type := type; sr_session := pkg_session p;
                                          sr_psbt := pkg_psbt p |})).

Definition parse_signing_session_id (id : bytes) : SigM bytes :=
  if (length id =? 32)%nat then sret id else slift (Err InvalidSigningSessionId).

(** [if let Err(e) = m { state = Failed; return Err(e) }] *)
Definition or_failed {A} (id : bytes) (m : SigM A) : SigM A := λ s,
  match m s with
  | (Err e, s') => (update_signing_state id Failed ;;* slift (Err e)) s'
  | r => r
  end.

(** ** The rounds *)

Definition initate_signing_session (signing_session_id psbt : bytes) : SigM () :=
  let* id := parse_signing_session_id signing_session_id in
  let* coordinator := get_coordinator_peer_data in
  match coordinator with
  | Some _ => sret tt
  | None =>
      let* m := sget in
      match signing_states m !! id with
      | Some session =>
          if coordinator_index session =? authority_index frost_config then
            abort_signing ;;*
            remove_signing_session id ;;*
            slift (Err CoordinatorRetriggeredSession)
          else sret tt
      | None =>
          abort_signing ;;*
          insert_new_signing_session id (authority_index frost_config) (Some psbt) Initial
      end ;;*
      let* package := get_round1_signing_package id psbt in
      new_round1_signing_package personal_frost_identifier id (pkg_psbt package) ;;*
      update_signing_state id Round1 ;;*
      or_failed id (gossip_to_peers package SignerRound1SigningPackage)
  end.

Definition signer_process_round1 (from : Identifier) (signing_session_id psbt : bytes) : SigM () :=
  let* id := parse_signing_session_id signing_session_id in
  let* coordinator := get_coordinator_peer_data in
  match coordinator with
  | None => sret tt
  | Some (peer, coordinator_id) =>
      if negb (bool_decide (pd_frost_identifier peer = from)) then sret tt
      else
        let* m := sget in
        match signing_states m !! id with
        | None =>
            insert_new_signing_session id coordinator_id None Round1 ;;* abort_signing
        | Some _ =>
            remove_signing_session id ;;* slift (Err CoordinatorRetriggeredSession)
        end ;;*
        let* package := or_failed id (get_round1_signing_package id psbt) in
        update_signing_state id Round2 ;;*
        if bool_decide (pd_frost_identifier peer = personal_frost_identifier) then sret tt
        else retry_exec 3 (send (pd_peer_id peer) (PmSigning
               {| response_type := CoordinatorRound1SigningPackage;
                  sr_session := pkg_session package; sr_psbt := pkg_psbt package |}))
  end.

Definition coordinator_process_round1 (from : Identifier) (signing_session_id psbt : bytes)
    : SigM () :=
  let* id := parse_signing_session_id signing_session_id in
  let* m := sget in
  if negb (state_is is_round1 id m) then sret tt
  else
    let* coordinator := is_coordinator in
    if negb coordinator then sret tt
    else if bool_decide (personal_frost_identifier = from) then sret tt
    else λ s,
      match new_round1_signing_package from id psbt s with
      | (Err _, s1) => (Ok tt, s1)
      | (Panic, s1) => (Panic, s1)
      | (Ok _, s1) =>
          match get_to_sign_package id s1 with
          | (Err _, s2) => (Ok tt, s2)
          | (Panic, s2) => (Panic, s2)
          | (Ok to_sign, s2) =>
              (let* mine := get_round2_signing_package id (pkg_psbt to_sign) in
               new_round2_signing_package personal_frost_identifier id (pkg_psbt mine) ;;*
               update_signing_state id Round2 ;;*
               or_failed id (gossip_to_peers to_sign SignerRound2SigningPackage)) s2
          end
      end.

Definition signer_process_round2 (from : Identifier) (signing_session_id psbt : bytes) : SigM () :=
  let* id := parse_signing_session_id signing_session_id in
  let* coordinator := get_coordinator_peer_data in
  match coordinator with
  | None => sret tt
  | Some (peer, _) =>
      if negb (bool_decide (pd_frost_identifier peer = from)) then sret tt
      else
        let* m := sget in
        if negb (state_is is_round2 id m) then sret tt
        else
          let* package := or_failed id (get_round2_signing_package id psbt) in
          retry_exec 3 (send (pd_peer_id peer) (PmSigning
            {| response_type := CoordinatorRound2SigningPackage;
               sr_session := pkg_session package; sr_psbt := pkg_psbt package |}))
  end.

Definition coordinator_process_round2 (from : Identifier) (signing_session_id psbt : bytes)
    : SigM () :=
  let* id := parse_signing_session_id signing_session_id in
  let* m := sget in
  if negb (state_is is_round2 id m) then sret tt
  else
    let* coordinator := is_coordinator in
    if negb coordinator then sret tt
    else if bool_decide (personal_frost_identifier = from) then sret tt
    else
      or_failed id (new_round2_signing_package from id psbt) ;;*
      λ s, match finalize_signing id s with
           | (Ok _, s') => update_signing_state id Finalized s'
           | (Err _, s') => (Ok tt, s')
           | (Panic, s') => (Panic, s')
           end.

End machine.
End SigningStateMachine.
