(* ===== verification/FrostTask.v ===== *)
(** * The FROST task of a node

    [consensus/authority/src/frost_task.rs]: the task hands every committed block
    with its pegs to the wallet server, starts a signing session at the end of an
    epoch, answers the messages of the other members, and runs key generation;
    [consensus/authority/src/utils.rs]: the pegs in the form the server takes. *)

From S2P Require Import Prelude Activation Bitcoin Psbt Codec Headers Peg Mint ChainRules HeaderRules Execution BlockBuilder Abci.
From S2P Require Import PegoutValidation DkgEncryption RpcTypes Server FrostSigning.
Local Open Scope Z_scope.

(** ** Pegs for the server *)

Section conversions.
Context `{!Secp256k1, !PegLib, !AbciLib, !TextLib}.

(** [get(vout).expect("valid vout")] *)
Definition utxo_from_pegin_meta (m : PeginMeta) : result () RpcUtxo :=
  let? tx_out := meta_txout m in
  Ok {| ru_outpoint := Some {| ro_txid := op_txid (meta_outpoint m); ro_vout := vout (meta_outpoint m) |};
        ru_output := Some {| rt_value := value tx_out;
          rt_script_pubkey := Some {| script := serialize_script (script_pubkey tx_out) |} |};
        ru_eth_address := hex_encode (pm_address (meta_v0 m)) |}.
Definition get_utxos_from_pegin_meta (l : list PeginMeta) : result () (list RpcUtxo) :=
  try_all utxo_from_pegin_meta l.

(** [pegin.vout as u32] *)
Definition get_utxos_from_staged_pegins (l : list StagedPegin) : list RpcUtxo :=
  (λ p, {| ru_outpoint := Some {| ro_txid := sp_txid p; ro_vout := sp_vout p mod 2 ^ 32 |};
           ru_output := Some {| rt_value := sp_value p;
             rt_script_pubkey := Some {| script := sp_script_pubkey p |} |};
           ru_eth_address := hex_encode (sp_eth_address p) |}) <$> l.

Definition get_pending_pegouts_from_pegout_data (l : list PegoutWithId) (height timestamp : Z)
    : list RpcPendingPegout :=
  (λ p, {| rp_pegout_id := as_bytes (pw_id p);
           rp_spk := address_script (pg_destination (pw_data p));
           rp_amount := pg_amount (pw_data p); rp_height := height; rp_timestamp := timestamp |}) <$> l.
Definition get_pending_pegouts_from_staged_pegouts (l : list StagedPegout) (timestamp : Z)
    : list RpcPendingPegout :=
  (λ p, {| rp_pegout_id := so_pegout_id p; rp_spk := so_script_pubkey p;
           rp_amount := so_amount p; rp_height := so_height p; rp_timestamp := timestamp |}) <$> l.
End conversions.

(** ** The task *)

(** Compression and serialization of a batch of finalized ids, for a peer. *)
Class SyncCodec := {
  sync_encode : GetFinalizedPegoutIdsResponse → option bytes;
  sync_decode : bytes → option GetFinalizedPegoutIdsResponse;
}.

(** [aggregate_public_key]: in the storage shared with the application;
    [dkg_task]: the queue of key generation, when it runs; [is_block_syncing]: the node is catching up. *)
Record Task `{!Secp256k1} (St : Type) := {
  machine_of : Machine St;
  staged : BotanixDb;
  check_staged_headers : bool;
  aggregate_key : option Codec.PublicKey;
  dkg_task : option (list DkgResponse);
  is_block_syncing : bool;
}.
Arguments machine_of {_ St}.
Arguments staged {_ St}.
Arguments check_staged_headers {_ St}.
Arguments aggregate_key {_ St}.
Arguments dkg_task {_ St}.
Arguments is_block_syncing {_ St}.

Section put.
Context `{!Secp256k1} {St : Type}.
Definition put_machine (x : Machine St) (t : Task St) : Task St :=
  {| machine_of := x; staged := staged t; check_staged_headers := check_staged_headers t;
     aggregate_key := aggregate_key t; dkg_task := dkg_task t;
     is_block_syncing := is_block_syncing t |}.
Definition put_staged (x : BotanixDb) (t : Task St) : Task St :=
  {| machine_of := machine_of t; staged := x; check_staged_headers := check_staged_headers t;
     aggregate_key := aggregate_key t; dkg_task := dkg_task t;
     is_block_syncing := is_block_syncing t |}.
Definition put_check (x : bool) (t : Task St) : Task St :=
  {| machine_of := machine_of t; staged := staged t; check_staged_headers := x;
     aggregate_key := aggregate_key t; dkg_task := dkg_task t;
     is_block_syncing := is_block_syncing t |}.
Definition put_key (x : option Codec.PublicKey) (t : Task St) : Task St :=
  {| machine_of := machine_of t; staged := staged t;
     check_staged_headers := check_staged_headers t; aggregate_key := x; dkg_task := dkg_task t;
     is_block_syncing := is_block_syncing t |}.
Definition put_dkg_task (x : option (list DkgResponse)) (t : Task St) : Task St :=
  {| machine_of := machine_of t; staged := staged t;
     check_staged_headers := check_staged_headers t; aggregate_key := aggregate_key t;
     dkg_task := x; is_block_syncing := is_block_syncing t |}.
Definition put_syncing (x : bool) (t : Task St) : Task St :=
  {| machine_of := machine_of t; staged := staged t;
     check_staged_headers := check_staged_headers t; aggregate_key := aggregate_key t;
     dkg_task := dkg_task t; is_block_syncing := x |}.
End put.

Record PeerMessageContext `{Frost} := {
  mc_peer_id : PeerId;
  mc_frost_identifier : option Identifier;
  mc_message : PeerMessageResponse;
}.

(** What one round of the loop sees: whether the application has started, whether
    the node is catching up ([None]: the query failed), and what has arrived. *)
Record LoopInput `{Frost, !Secp256k1, !PegLib, !BlockLib} := {
  li_abci_started : bool;
  li_syncing : option bool;
  li_notifications : list CommitNotification;
  li_messages : list PeerMessageContext;
}.

Module FrostTask.
Section task.
Context `{BitcoinLib, Frost, !DkgLib, !ConsensusEncoding, !Secp256k1, !PegLib, !WireLib}.
Context `{!Abi, !AbciLib, !TextLib, !EthLib, !BlockLib, !FrostNet, !SyncCodec}.
Context {St : Type} `{!BtcServer St} {PE : Type}.
Context (identifier_of : Z → Identifier) (frost_config : FrostConfig).
Context (chain_spec : BotanixChainSpec) (btc_network : Network).
(** The chain and the clock when the event is handled. *)
Context (chain : ChainView PE) (now : Z).

(** The task fails only by panicking. *)
Abbreviation TaskM := (SM (Task St) ()).

Definition attempt {E A} (m : SM (Task St) E A) : TaskM (option A) := λ t,
  match m t with
  | (Ok x, t') => (Ok (Some x), t')
  | (Err _, t') => (Ok None, t')
  | (Panic, t') => (Panic, t')
  end.
Definition on_machine {E A} (m : SM (Machine St) E A) : SM (Task St) E A :=
  zoom machine_of put_machine m.
Definition on_server {E A} (m : SM St E A) : SM (Task St) E A :=
  on_machine (zoom server put_server m).
Definition ignore {E A} (m : SM (Task St) E A) : TaskM () := let* _ := attempt m in sret tt.

Definition window : option Z := leader_selection_window chain_spec.
Definition is_coordinator : TaskM bool :=
  let* r := attempt (on_machine (SigningStateMachine.is_coordinator frost_config window)) in
  sret (default false r).

Definition psbt_is_valid (p : Psbt) : TaskM bool :=
  match validate_psbt_by_ids chain now btc_network p with
  | Ok _ => sret true
  | Err _ => sret false
  | Panic => slift Panic
  end.

(** ** Committed blocks *)

(** At the end of an epoch the coordinator starts a session for the block. *)
Definition start_session (header_hash : B256) (header : EthHeader) (checkpoint : BlockHash)
    : TaskM () :=
  let* epoch := slift (is_poa_epoch header (epoch_length chain_spec)) in
  if negb epoch then sret tt
  else
    let* coordinator := is_coordinator in
    if negb coordinator then sret tt
    else
      let* made := attempt (on_server (srv_get_psbt
                     {| mt_session := header_hash; mt_checkpoint := checkpoint |})) in
      match made with
      | None => sret tt
      | Some payload =>
          match psbt_deserialize (pkg_psbt payload) with
          | None => sret tt
          | Some p =>
              let* valid := psbt_is_valid p in
              if negb valid then sret tt
              else ignore (on_machine (SigningStateMachine.initate_signing_session identifier_of
                     frost_config window header_hash (pkg_psbt payload)))
          end
      end.

Definition checkpoint_request (header : EthHeader) (pegins : list RpcUtxo)
    (pending_pegouts : list RpcPendingPegout) : result () (BlockHash * ConsensusCheckpointRequest) :=
  match deserialize_extra_data_header header with
  | Ok edh =>
      let cp_block_hash := edh_bitcoin_block_hash edh in
      Ok (cp_block_hash, {| checkpoint_block_hash := consensus_encode c_hash cp_block_hash;
                            pegins := pegins; cc_pending_pegouts := pending_pegouts |})
  | Err _ => Err tt
  | Panic => Panic
  end.

Definition handle_canon_state_commit (header_hash : B256) (header : EthHeader)
    (pegins : list RpcUtxo) (pending_pegouts : list RpcPendingPegout) : TaskM () :=
  match checkpoint_request header pegins pending_pegouts with
  | Err _ => sret tt
  | Panic => slift Panic
  | Ok (cp_block_hash, req) =>
      let* accepted := attempt (on_server (retry_exec 3 (srv_new_consensus_checkpoint req))) in
      match accepted with
      | None => smodify (put_check true)
      | Some _ =>
          smodify (λ t, put_staged (remove_staged_header header_hash (staged t)).2 t) ;;*
          start_session header_hash header cp_block_hash
      end
  end.

Definition handle_staged_header (x : B256 * HeaderWithPegs) : TaskM () :=
  let header := hp_header x.2 in
  handle_canon_state_commit x.1 header (get_utxos_from_staged_pegins (hp_pegins x.2))
    (get_pending_pegouts_from_staged_pegouts (hp_pegouts x.2) (h_timestamp header)).
(** The headers are read once, in the order of their keys, and sorted by number. *)
Definition handle_staged_headers : TaskM () :=
  let* t := sget in
  if check_staged_headers t then
    smodify (put_check false) ;;*
    sfor (sort_by_key (λ x, h_number (hp_header x.2)) (get_staged_headers (staged t)))
      handle_staged_header
  else sret tt.

Definition handle_notification (n : CommitNotification) : TaskM () :=
  let header := sb_header (nt_block n) in
  let* pegins := slift (from_option get_utxos_from_pegin_meta (Ok []) (nt_pegins n)) in
  handle_canon_state_commit (sb_hash (nt_block n)) header pegins
    (from_option (λ l, get_pending_pegouts_from_pegout_data l (h_number header) (h_timestamp header))
       [] (nt_pegouts n)).

(** ** Messages of peers *)

(** [send_command(..)], then [rx.await.expect(..)] *)
Definition all_peers : TaskM (option (list PeerData)) := λ t,
  let m := machine_of t in
  let t' := put_machine (put_queries (S (queries m)) m) t in
  match connected_peers (queries m) with
  | Peers l => (Ok (Some l), t')
  | CommandNotSent => (Ok None, t')
  | NoAnswer => (Panic, t')
  end.
Definition send_to (peer : PeerData) (msg : PeerMessageResponse) : TaskM () :=
  ignore (on_machine (SigningStateMachine.send (pd_peer_id peer) msg)).

(** A batch that cannot be encoded ends the loop. *)
Fixpoint send_batches (peer : PeerData) (response : WalletStateResponse)
    (l : list GetFinalizedPegoutIdsResponse) : TaskM () :=
  match l with
  | [] => sret tt
  | batch :: l' =>
      match data batch with
      | [] => send_batches peer response l'
      | _ =>
          match sync_encode batch with
          | None => sret tt
          | Some b =>
              send_to peer (PmWalletState {| ws_uuid := ws_uuid response;
                                             ws_finalized_pegout_ids := b |}) ;;*
              send_batches peer response l'
          end
      end
  end.
Definition send_serialized_compressed_finalized_pegout_ids (peer : PeerData)
    (response : WalletStateResponse) : TaskM () :=
  let* items := attempt (on_server
    (srv_get_finalized_pegout_ids (wallet_state_sync_chunk_size frost_config))) in
  match items with
  | None => sret tt
  | Some l => send_batches peer response l
  end.

(** A message with state is for the wallet synchronization; one without asks for
    ours. *)
Definition handle_wallet_state (peer_id : PeerId) (response : WalletStateResponse) : TaskM () :=
  match ws_finalized_pegout_ids response with
  | _ :: _ => sret tt
  | [] =>
      let* peers := all_peers in
      match peers with
      | None => sret tt
      | Some l =>
          match find (λ p, bool_decide (pd_peer_id p = peer_id)) l with
          | None => sret tt
          | Some peer => send_serialized_compressed_finalized_pegout_ids peer response
          end
      end
  end.

Definition handle_signing (from : Identifier) (r : SigningResponse) : TaskM () :=
  if negb (length (sr_session r) =? 32)%nat then sret tt
  else
    match psbt_deserialize (sr_psbt r) with
    | None => sret tt
    | Some p =>
        let* valid := psbt_is_valid p in
        if negb valid then sret tt
        else
          ignore (on_machine
            (match response_type r with
             | SignerRound1SigningPackage =>
                 SigningStateMachine.signer_process_round1 identifier_of frost_config window
             | CoordinatorRound1SigningPackage =>
                 SigningStateMachine.coordinator_process_round1 identifier_of frost_config window
             | SignerRound2SigningPackage =>
                 SigningStateMachine.signer_process_round2 identifier_of frost_config window
             | CoordinatorRound2SigningPackage =>
                 SigningStateMachine.coordinator_process_round2 identifier_of frost_config window
             end from (sr_session r) (sr_psbt r)))
    end.

Definition handle_message (c : PeerMessageContext) : TaskM () :=
  match mc_frost_identifier c with
  | None => sret tt
  | Some from =>
      match mc_message c with
      | PmError _ => sret tt
      | PmWalletState r => handle_wallet_state (mc_peer_id c) r
      | PmDkg r => smodify (λ t, put_dkg_task ((λ q, q ++ [r]) <$> dkg_task t) t)
      | PmSigning r => handle_signing from r
      end
  end.

(** ** The loop *)

Definition body (i : LoopInput) : TaskM () :=
  handle_staged_headers ;;*
  sfor (li_notifications i) handle_notification ;;*
  sfor (li_messages i) handle_message.
Definition iteration (i : LoopInput) : TaskM () :=
  if li_abci_started i then
    match li_syncing i with
    | None => sret tt
    | Some syncing =>
        smodify (put_syncing syncing) ;;*
        if syncing : bool then sret tt else body i
    end
  else body i.

(** A new task: no session; the staged headers are checked first.  The server and
    the network are the ones there are. *)
Definition new (m : Machine St) (db : BotanixDb) (aggregate_public_key : option Codec.PublicKey)
    : Task St :=
  {| machine_of := put_sessions ∅ m; staged := db; check_staged_headers := true;
     aggregate_key := aggregate_public_key; dkg_task := None; is_block_syncing := false |}.

(** Before the loop: the key of the server, or key generation. *)
Definition start : TaskM () :=
  let* found := attempt (on_server (srv_get_public_key tt)) in
  match found with
  | None => smodify (put_dkg_task (Some []))
  | Some publickey =>
      let* b := slift (expect (hex_decode publickey)) in
      match pk_from_slice b with
      | Some pk => smodify (put_key (Some pk))
      | None => sret tt
      end
  end.

(** ** Key generation ([DkgRunnerTask]) *)

(** The payloads, each to the connected peer with the recipient's identifier. *)
Fixpoint gossip_loop (peers : list PeerData) (l : list RpcDkgPayload) : TaskM () :=
  match l with
  | [] => sret tt
  | p :: l' =>
      let* recipient := slift (expect (id_deserialize (dp_recipient p))) in
      (if bool_decide (recipient ∈ (identifier_of ∘ Z.of_nat <$>
                                      seq 0 (Z.to_nat (authorities_len frost_config)))) then
         match find (λ d, bool_decide (pd_frost_identifier d = recipient)) peers with
         | None => sret tt
         | Some peer =>
             send_to peer (PmDkg {| dkg_data := dp_payload p; dkg_sender := dp_sender p;
                                    dkg_recipient := dp_recipient p |})
         end
       else sret tt) ;;*
      gossip_loop peers l'
  end.
Definition gossip_payloads (l : list RpcDkgPayload) : TaskM () :=
  match l with
  | [] => sret tt
  | _ =>
      let* peers := all_peers in
      match peers with
      | None => sret tt
      | Some ps => gossip_loop ps l
      end
  end.

(** [PublicKey::from_str(..).expect(..)] *)
Definition store_public_key (publickey : bytes) : TaskM () :=
  let* pk := slift (expect (b ← hex_decode publickey; pk_from_slice b)) in
  smodify (put_key (Some pk)).

(** The next payload of the queue. *)
Definition dkg_payload : TaskM () :=
  let* t := sget in
  match dkg_task t with
  | Some (r :: queue) =>
      smodify (put_dkg_task (Some queue)) ;;*
      let* resp := attempt (on_server (srv_new_dkg_payload
        {| dp_sender := dkg_sender r; dp_recipient := dkg_recipient r; dp_payload := dkg_data r |})) in
      match resp with
      | None => sret tt
      | Some resp =>
          let* key := attempt (on_server (srv_get_public_key tt)) in
          match key with Some k => store_public_key k | None => sret tt end ;;*
          gossip_payloads (dp_payloads resp)
      end
  | _ => sret tt
  end.
Definition dkg_timeout : TaskM () :=
  let* resp := attempt (on_server (srv_get_dkg_payloads tt)) in
  match resp with
  | None => sret tt
  | Some resp => gossip_payloads (dp_payloads resp)
  end.

End task.
End FrostTask.
