(* ===== verification/FrostHistory.v ===== *)
(** * Histories of the FROST task

    The calls that a node makes to its wallet server, recorded beside the server's
    state, and what every step of the task guarantees about them: what is asked to
    be signed, which sessions are finalized, and which staged blocks are removed. *)

From S2P Require Import Prelude Activation Bitcoin Psbt Codec Headers Peg Mint ChainRules HeaderRules Execution BlockBuilder Abci.
From S2P Require Import PegoutValidation DkgEncryption RpcTypes Jwt Server FrostSigning FrostTask.
Local Open Scope Z_scope.

(** ** Recorded calls *)

(** A checkpoint the server accepted, a package it was asked for, a package it
    composed, a transaction it finalized. *)
Inductive Call :=
  | Checkpointed (req : ConsensusCheckpointRequest)
  | AskedRound1 (req : SigningPackageRequest)
  | AskedRound2 (req : SigningPackageRequest)
  | ToSign (session : bytes) (package : SigningPackage)
  | SigningDone (session : bytes) (tx : bytes).

Section history.
Context {St : Type} `{!BtcServer St}.

(** Latest first, each with the server's state before and after. *)
Abbreviation Log := (list (Call * St * St)).

Definition record {A} (entry : result GrpcClientError A → option Call)
    (m : SM St GrpcClientError A) : SM (St * Log) GrpcClientError A := λ x,
  let '(r, s) := m x.1 in
  (r, (s, from_option (λ c, (c, x.1, s) :: x.2) x.2 (entry r))).
Definition silent {A} : SM St GrpcClientError A → SM (St * Log) GrpcClientError A :=
  record (λ _, None).
Definition if_ok {A} (f : A → Call) (r : result GrpcClientError A) : option Call :=
  match r with Ok x => Some (f x) | _ => None end.

#[export] Instance recording : BtcServer (St * Log) := {|
  srv_new_consensus_checkpoint r :=
    record (if_ok (λ _, Checkpointed r)) (srv_new_consensus_checkpoint r);
  srv_get_psbt r := silent (srv_get_psbt r);
  srv_get_round1_signing_package r :=
    record (λ _, Some (AskedRound1 r)) (srv_get_round1_signing_package r);
  srv_get_round2_signing_package r :=
    record (λ _, Some (AskedRound2 r)) (srv_get_round2_signing_package r);
  srv_new_round1_signing_package r := silent (srv_new_round1_signing_package r);
  srv_new_round2_signing_package r := silent (srv_new_round2_signing_package r);
  srv_get_to_sign_package r := record (if_ok (ToSign r)) (srv_get_to_sign_package r);
  srv_finalize_signing r := record (if_ok (SigningDone r)) (srv_finalize_signing r);
  srv_abort_signing r := silent (srv_abort_signing r);
  srv_get_public_key r := silent (srv_get_public_key r);
  srv_get_dkg_payloads r := silent (srv_get_dkg_payloads r);
  srv_new_dkg_payload r := silent (srv_new_dkg_payload r);
  srv_get_finalized_pegout_ids r := silent (srv_get_finalized_pegout_ids r);
  srv_reset_wallet_state r := silent (srv_reset_wallet_state r);
|}.

(** What an entry says of the server. *)
Definition call_holds (c : Call) (s s' : St) : Prop :=
  match c with
  | Checkpointed r => srv_new_consensus_checkpoint r s = (Ok tt, s')
  | AskedRound1 r => (srv_get_round1_signing_package r s).2 = s'
  | AskedRound2 r => (srv_get_round2_signing_package r s).2 = s'
  | ToSign id p => srv_get_to_sign_package id s = (Ok p, s')
  | SigningDone id t => srv_finalize_signing id s = (Ok t, s')
  end.

(** A PSBT to sign is one that [valid] admits, or what the server composed for the
    session. *)
Definition may_sign (valid : bytes → Prop) (older : Log) (c : Call) : Prop :=
  match c with
  | AskedRound1 r => valid (spr_psbt r)
  | AskedRound2 r =>
      valid (spr_psbt r) ∨
      ∃ p s s', (ToSign (spr_session r) p, s, s') ∈ older ∧ pkg_psbt p = spr_psbt r
  | _ => True
  end.

(** The log grows by true entries that [may_sign] allows. *)
Inductive extends (valid : bytes → Prop) (l : Log) : Log → Prop :=
  | extends_refl : extends valid l l
  | extends_cons l' c s s' :
      extends valid l l' → call_holds c s s' → may_sign valid l' c →
      extends valid l ((c, s, s') :: l').
#[export] Instance extends_preorder valid : PreOrder (extends valid).
Proof.
  split; [constructor|]. intros l1 l2 l3 H12. induction 1; [done|by constructor].
Qed.
Lemma extends_subset valid l l' : extends valid l l' → l ⊆ l'.
Proof. induction 1; set_solver. Qed.
Lemma extends_holds valid l l' c s s' :
  extends valid l l' → (c, s, s') ∈ l' → (c, s, s') ∈ l ∨ call_holds c s s'.
Proof. induction 1; set_solver. Qed.
(** What was asked since, was allowed by then. *)
Lemma extends_signed valid l l' c s s' :
  extends valid l l' → (c, s, s') ∈ l' → (c, s, s') ∈ l ∨ may_sign valid l' c.
Proof.
  assert (∀ (l1 l2 : Log) x, l1 ⊆ l2 → may_sign valid l1 x → may_sign valid l2 x) as Hmono.
  { intros l1 l2 [] Hsub; simpl; naive_solver. }
  induction 1 as [|l' c' s1 s1' He IH Hh Hm]; [by left|].
  intros [[= -> -> ->]|Hin]%elem_of_cons; [|destruct (IH Hin); [by left|]];
    right; (eapply Hmono; [|done]); set_solver.
Qed.

Lemma record_extends valid {A} entry (m : SM St GrpcClientError A) x :
  (∀ c, entry (m x.1).1 = Some c → call_holds c x.1 (m x.1).2 ∧ may_sign valid x.2 c) →
  extends valid x.2 (record entry m x).2.2.
Proof.
  intros Hc. unfold record. destruct (m x.1) as [r s]; simpl in *.
  destruct (entry r) as [c|]; simpl; [|reflexivity]. destruct (Hc c eq_refl). by constructor; [constructor|..].
Qed.

(** ** The signing machine *)

Definition history (m : Machine (St * Log)) : Log := (server m).2.

(** A session is finalized only when the server has finalized it. *)
Definition sessions_ok (m : Machine (St * Log)) : Prop :=
  ∀ id x, signing_states m !! id = Some x → state x = Finalized →
    ∃ tx s s', (SigningDone id tx, s, s') ∈ history m.

Definition machine_step (valid : bytes → Prop) (m m' : Machine (St * Log)) : Prop :=
  extends valid (history m) (history m') ∧ (sessions_ok m → sessions_ok m').
#[export] Instance machine_step_preorder valid : PreOrder (machine_step valid).
Proof.
  split; [done|]. intros m1 m2 m3 [He1 Hs1] [He2 Hs2]. split; [by etrans|auto].
Qed.

Lemma history_step valid m x n l :
  extends valid (history m) x.2 →
  machine_step valid m
    {| signing_states := signing_states m; server := x; queries := n; sent := l |}.
Proof.
  intros He. split; [done|]. intros Hs id y Hy Hf. destruct (Hs id y Hy Hf) as (tx & s & s' & Hin).
  exists tx, s, s'. unfold history. simpl. eapply extends_subset; eauto.
Qed.
Lemma call_step valid {A} entry (m : SM St GrpcClientError A) x :
  (∀ c, entry (m (server x).1).1 = Some c →
     call_holds c (server x).1 (m (server x).1).2 ∧ may_sign valid (history x) c) →
  machine_step valid x (SigningStateMachine.call (record entry m) x).2.
Proof.
  intros Hc. unfold SigningStateMachine.call, zoom, smap_err.
  pose proof (record_extends valid entry m (server x) Hc) as He.
  destruct (record entry m (server x)) as [r y]. by apply history_step.
Qed.
Lemma silent_step valid {A} (m : SM St GrpcClientError A) :
  guarantees (machine_step valid) (SigningStateMachine.call (silent m)).
Proof. intros x. by apply call_step. Qed.

Lemma guarantees_retry {S E A} (T : S → S → Prop) `{!PreOrder T} n (m : SM S E A) :
  guarantees T m → guarantees T (retry_exec n m).
Proof.
  intros Hm. induction n as [|n IH]; intros s; [apply Hm|]. simpl. specialize (Hm s).
  destruct (m s) as [[x|e|] s']; [done| |done]. etrans; [done|apply IH].
Qed.

(** Sessions change by insertion or alteration to a state other than finalized, or
    by removal. *)
Lemma sessions_step valid m f :
  (∀ id x, f !! id = Some x → state x = Finalized → signing_states m !! id = Some x) →
  machine_step valid m (put_sessions f m).
Proof. intros Hf. split; [reflexivity|]. intros Hs id x Hx Hfin. by eapply Hs; eauto. Qed.
Lemma update_step valid id x :
  x ≠ Finalized →
  guarantees (machine_step valid) (SigningStateMachine.update_signing_state id x).
Proof.
  intros Hx m. apply sessions_step. intros id' y. rewrite lookup_alter_Some.
  intros [(-> & z & _ & ->)|[_ Hy]]; [done|by intros].
Qed.
Lemma insert_step valid id c p x :
  x ≠ Finalized →
  guarantees (machine_step valid) (SigningStateMachine.insert_new_signing_session id c p x).
Proof.
  intros Hx m. cbn. destruct (signing_states m !! id) as [z|]; [reflexivity|].
  apply sessions_step. intros id' y. rewrite lookup_insert_Some.
  intros [(_ & <-)|[_ Hy]]; [done|by intros].
Qed.
Lemma remove_step valid id :
  guarantees (machine_step valid) (SigningStateMachine.remove_signing_session id).
Proof. intros m. apply sessions_step. intros id' y. rewrite lookup_delete_Some. naive_solver. Qed.

End history.
#[export] Hint Resolve silent_step update_step insert_step remove_step : macbeth.
#[export] Hint Extern 1 (_ ≠ Finalized) => discriminate : macbeth.

Section machine.
Context {St : Type} `{!BtcServer St, Frost, !FrostNet}.
Context (identifier_of : Z → Identifier) (frost_config : FrostConfig) (window : option Z).
Context (valid : bytes → Prop).
Abbreviation T := (machine_step valid).
Abbreviation Mach := (Machine (St * list (Call * St * St))).

Lemma peers_step : guarantees (S := Mach) T SigningStateMachine.get_all_peers_handle.
Proof. intros m. apply (history_step _ m (server m)). reflexivity. Qed.
Lemma send_step to msg : guarantees (S := Mach) T (SigningStateMachine.send to msg).
Proof.
  intros m. unfold SigningStateMachine.send.
  destruct (peer_accepts _ _); apply (history_step _ m (server m)); reflexivity.
Qed.
Lemma or_failed_step {A} id (m : SM Mach SigningError A) :
  guarantees T m → guarantees T (SigningStateMachine.or_failed id m).
Proof.
  intros Hm s. unfold SigningStateMachine.or_failed. specialize (Hm s).
  destruct (m s) as [[x|e|] s']; [done| |done]. etrans; [done|].
  apply guarantees_bind; [typeclasses eauto|by apply update_step|].
  intros _. apply guarantees_lift. typeclasses eauto.
Qed.
Lemma turn_step {A} (r : result () A) : guarantees (S := Mach) T (SigningStateMachine.turn r).
Proof. apply guarantees_lift. typeclasses eauto. Qed.
Lemma round1_step id psbt :
  valid psbt → guarantees (S := Mach) T (SigningStateMachine.get_round1_signing_package id psbt).
Proof. intros Hv m. apply call_step. by intros c [= <-]. Qed.
Lemma round2_step id psbt :
  valid psbt → guarantees (S := Mach) T (SigningStateMachine.get_round2_signing_package id psbt).
Proof. intros Hv m. apply call_step. intros c [= <-]. split; [done|by left]. Qed.
Lemma abort_step : guarantees (S := Mach) T SigningStateMachine.abort_signing.
Proof. apply silent_step. Qed.
Lemma new_round1_step from id psbt :
  guarantees (S := Mach) T (SigningStateMachine.new_round1_signing_package from id psbt).
Proof. apply silent_step. Qed.
Lemma new_round2_step from id psbt :
  guarantees (S := Mach) T (SigningStateMachine.new_round2_signing_package from id psbt).
Proof. apply silent_step. Qed.
Lemma parse_step id : guarantees (S := Mach) T (SigningStateMachine.parse_signing_session_id id).
Proof. unfold SigningStateMachine.parse_signing_session_id. guarantees_tac. Qed.
#[local] Hint Resolve peers_step send_step or_failed_step turn_step round1_step round2_step
  abort_step new_round1_step new_round2_step parse_step : macbeth.

Lemma coordinator_step :
  guarantees (S := Mach) T
    (SigningStateMachine.get_coordinator_peer_data identifier_of frost_config window).
Proof. unfold SigningStateMachine.get_coordinator_peer_data. guarantees_tac. Qed.
Lemma gossip_step p type :
  guarantees (S := Mach) T (SigningStateMachine.gossip_to_peers identifier_of frost_config p type).
Proof.
  apply guarantees_retry; [typeclasses eauto|]. unfold SigningStateMachine.gossip_once.
  assert (∀ msg l, guarantees (S := Mach) T
    (SigningStateMachine.gossip_loop identifier_of frost_config msg l)) as Hl.
  { intros msg l. induction l as [|q l IH]; cbn [SigningStateMachine.gossip_loop]; guarantees_tac. }
  guarantees_tac.
Qed.
Lemma reply_step to msg : guarantees (S := Mach) T (retry_exec 3 (SigningStateMachine.send to msg)).
Proof. apply guarantees_retry; [typeclasses eauto|apply send_step]. Qed.
#[local] Hint Resolve coordinator_step gossip_step reply_step : macbeth.

Lemma initate_step id psbt :
  valid psbt →
  guarantees (S := Mach) T
    (SigningStateMachine.initate_signing_session identifier_of frost_config window id psbt).
Proof.
  intros Hv. unfold SigningStateMachine.initate_signing_session. guarantees_tac.
Qed.
Lemma signer_round1_step from id psbt :
  valid psbt →
  guarantees (S := Mach) T
    (SigningStateMachine.signer_process_round1 identifier_of frost_config window from id psbt).
Proof.
  intros Hv. unfold SigningStateMachine.signer_process_round1. guarantees_tac.
Qed.
Lemma signer_round2_step from id psbt :
  valid psbt →
  guarantees (S := Mach) T
    (SigningStateMachine.signer_process_round2 identifier_of frost_config window from id psbt).
Proof. intros Hv. unfold SigningStateMachine.signer_process_round2. guarantees_tac. Qed.

Lemma logged_step {A} (f : A → Call) (m : SM St GrpcClientError A) x r x' :
  (∀ s y s', m s = (Ok y, s') → call_holds (f y) s s' ∧ ∀ l, may_sign (St := St) valid l (f y)) →
  SigningStateMachine.call (record (if_ok f) m) x = (r, x') →
  T x x' ∧ ∀ y, r = Ok y → ∃ s s', (f y, s, s') ∈ history x'.
Proof.
  intros Hm Heq. split.
  - pose proof (call_step valid (if_ok f) m x) as Hc. rewrite Heq in Hc. apply Hc.
    specialize (Hm (server x).1). intros c.
    destruct (m (server x).1) as [[y|e|] s']; intros [= <-]. by destruct (Hm y s' eq_refl).
  - intros y ->. unfold SigningStateMachine.call, zoom, smap_err, record in Heq.
    destruct (m (server x).1) as [[z|e|] s'] eqn:Hs; [injection Heq as -> <-|done..].
    exists (server x).1, s'. left.
Qed.

(** The coordinator signs what its server has just composed. *)
Lemma to_sign_step id m r m' :
  SigningStateMachine.get_to_sign_package id (St := St * list (Call * St * St)) m = (r, m') →
  T m m' ∧ ∀ p, r = Ok p → ∃ s s', (ToSign id p, s, s') ∈ history m'.
Proof. by apply logged_step. Qed.
Lemma own_share_step id psbt m p s s' :
  (ToSign id p, s, s') ∈ history m → pkg_psbt p = psbt →
  T m (SigningStateMachine.get_round2_signing_package id psbt m).2.
Proof.
  intros Hin Hp. apply call_step. intros c [= <-]. split; [done|]. right. by exists p, s, s'.
Qed.
Lemma coordinator_round1_step from id psbt :
  guarantees (S := Mach) T
    (SigningStateMachine.coordinator_process_round1 identifier_of frost_config window from id psbt).
Proof.
  unfold SigningStateMachine.coordinator_process_round1, SigningStateMachine.is_coordinator.
  guarantees_tac. intros m.
  pose proof (new_round1_step from a psbt m) as H1.
  destruct (SigningStateMachine.new_round1_signing_package from a psbt m) as [[x|e|] m1]; [|done..].
  destruct (SigningStateMachine.get_to_sign_package a m1) as [r m2] eqn:Hto.
  apply to_sign_step in Hto as [H2 Hin].
  destruct r as [p|e|]; [|by etrans..]. destruct (Hin p eq_refl) as (s & s' & Hs).
  etrans; [done|]. etrans; [done|]. simpl.
  pose proof (own_share_step _ _ _ _ _ _ Hs eq_refl) as H3. unfold sbind at 1.
  destruct (SigningStateMachine.get_round2_signing_package a (pkg_psbt p) m2) as [[q|e|] m3]; [|done..].
  etrans; [done|]. clear H3. cbn beta. revert m3.
  match goal with |- ∀ m3, T _ (?k m3).2 => change (guarantees T k) end. guarantees_tac.
Qed.

Lemma finalize_step id m r m' :
  SigningStateMachine.finalize_signing id (St := St * list (Call * St * St)) m = (r, m') →
  T m m' ∧ ∀ t, r = Ok t → ∃ s s', (SigningDone id t, s, s') ∈ history m'.
Proof. by apply logged_step. Qed.
Lemma coordinator_round2_step from id psbt :
  guarantees (S := Mach) T
    (SigningStateMachine.coordinator_process_round2 identifier_of frost_config window from id psbt).
Proof.
  unfold SigningStateMachine.coordinator_process_round2, SigningStateMachine.is_coordinator.
  guarantees_tac. intros m.
  destruct (SigningStateMachine.finalize_signing a m) as [r m1] eqn:Hf.
  apply finalize_step in Hf as [H1 Hin]. destruct r as [t|e|]; [|done..]. etrans; [done|].
  destruct (Hin t eq_refl) as (s & s' & Hs). split; [reflexivity|].
  intros Hok id' y. cbn. rewrite lookup_alter_Some.
  intros [(-> & z & Hz & ->)|[_ Hy]]; [by exists t, s, s'|by apply Hok].
Qed.
End machine.
#[export] Hint Resolve initate_step signer_round1_step signer_round2_step coordinator_round1_step
  coordinator_round2_step send_step turn_step : macbeth.

(** ** The task *)

Section staged.
Context `{!ConsensusEncoding, !Secp256k1, !TextLib}.
Context {St : Type} `{!BtcServer St}.
Abbreviation Log := (list (Call * St * St)).

(** The request for a staged block. *)
Definition request_of (e : HeaderWithPegs) : result () (BlockHash * ConsensusCheckpointRequest) :=
  FrostTask.checkpoint_request (hp_header e) (get_utxos_from_staged_pegins (hp_pegins e))
    (get_pending_pegouts_from_staged_pegouts (hp_pegouts e) (h_timestamp (hp_header e))).
Definition delivered (e : HeaderWithPegs) (l : Log) : Prop :=
  ∃ cp req s s', request_of e = Ok (cp, req) ∧ (Checkpointed req, s, s') ∈ l.
Lemma delivered_mono e l l' : l ⊆ l' → delivered e l → delivered e l'.
Proof. intros Hl (cp & req & s & s' & Hr & Hin). exists cp, req, s, s'. auto. Qed.

(** [content h e]: the block with hash [h] has the header and the pegs of [e]. *)
Context (valid : bytes → Prop) (content : B256 → HeaderWithPegs → Prop).

Definition task_step (t t' : Task (St * Log)) : Prop :=
  machine_step valid (machine_of t) (machine_of t') ∧
  staged_headers (staged t') ⊆ staged_headers (staged t) ∧
  ((∀ h e, staged_headers (staged t) !! h = Some e → content h e) →
   ∀ h e, staged_headers (staged t) !! h = Some e →
     staged_headers (staged t') !! h = Some e ∨ delivered e (history (machine_of t'))).
#[export] Instance task_step_preorder : PreOrder task_step.
Proof.
  split; [intros t; split; [reflexivity|split; [reflexivity|by left]]|].
  intros t1 t2 t3 (Hm1 & Hs1 & Hd1) (Hm2 & Hs2 & Hd2).
  split; [by etrans|split; [by etrans|]].
  intros Hc h e He. destruct (Hd1 Hc h e He) as [He2|Hd].
  - apply Hd2; [|done]. intros h' e' He'. apply Hc. by eapply lookup_weaken.
  - right. eapply delivered_mono; [|done]. eapply extends_subset, Hm2.
Qed.

Lemma machine_task_step t m :
  machine_step valid (machine_of t) m → task_step t (put_machine m t).
Proof. intros Hm. split; [done|split; [reflexivity|by left]]. Qed.
(** The other fields play no part. *)
Lemma same_task_step t t' :
  machine_of t' = machine_of t → staged t' = staged t → task_step t t'.
Proof. intros Hm Hs. unfold task_step. rewrite Hm, Hs. split; [reflexivity|split; [reflexivity|by left]]. Qed.
End staged.

Section task.
Context `{BitcoinLib, Frost, !DkgLib, !ConsensusEncoding, !Secp256k1, !PegLib, !WireLib}.
Context `{!Abi, !AbciLib, !TextLib, !EthLib, !BlockLib, !FrostNet, !SyncCodec}.
Context {St : Type} `{!BtcServer St} {PE : Type}.
Context (identifier_of : Z → Identifier) (frost_config : FrostConfig).
Context (chain_spec : BotanixChainSpec) (btc_network : Network).
Context (chain : ChainView PE) (now : Z).

(** The serialized PSBTs that pass validation against the chain. *)
Definition validated (b : bytes) : Prop :=
  ∃ p u, psbt_deserialize b = Some p ∧ validate_psbt_by_ids chain now btc_network p = Ok u.
Abbreviation Log := (list (Call * St * St)).
Abbreviation Tk := (Task (St * Log)).

Section frame.
Context (valid : bytes → Prop) (content : B256 → HeaderWithPegs → Prop).
Abbreviation T := (task_step (St := St) valid content).

Lemma attempt_step {E A} (m : SM Tk E A) : guarantees T m → guarantees T (FrostTask.attempt m).
Proof. intros Hm t. unfold FrostTask.attempt. specialize (Hm t). by destruct (m t) as [[] ?]. Qed.
Lemma ignore_step {E A} (m : SM Tk E A) : guarantees T m → guarantees T (FrostTask.ignore m).
Proof.
  intros Hm. unfold FrostTask.ignore. apply guarantees_bind; [typeclasses eauto|by apply attempt_step|].
  intros _. apply guarantees_ret. typeclasses eauto.
Qed.
Lemma on_machine_step {E A} (m : SM (Machine (St * Log)) E A) :
  guarantees (machine_step valid) m → guarantees T (FrostTask.on_machine m).
Proof.
  intros Hm t. unfold FrostTask.on_machine, zoom. specialize (Hm (machine_of t)).
  destruct (m (machine_of t)) as [r x]. by apply machine_task_step.
Qed.
Lemma on_server_step {A} (m : SM St GrpcClientError A) :
  guarantees T (FrostTask.on_server (silent m)).
Proof.
  apply on_machine_step. intros x. pose proof (record_extends valid (λ _, None) m (server x)) as He.
  unfold zoom, silent. destruct (record _ m (server x)) as [r y]. apply history_step. by apply He.
Qed.
#[local] Hint Resolve attempt_step ignore_step on_machine_step on_server_step : macbeth.

Lemma is_coordinator_step : guarantees (S := Tk) T (FrostTask.is_coordinator frost_config chain_spec).
Proof.
  unfold FrostTask.is_coordinator, SigningStateMachine.is_coordinator.
  guarantees_tac.
Qed.
#[local] Hint Resolve is_coordinator_step : macbeth.


Lemma all_peers_step : guarantees (S := Tk) T FrostTask.all_peers.
Proof.
  intros t. unfold FrostTask.all_peers.
  assert (machine_step valid (machine_of t)
            (put_queries (S (queries (machine_of t))) (machine_of t))) as Hm
    by (apply (history_step _ _ (server (machine_of t))); reflexivity).
  destruct (connected_peers _); by apply machine_task_step.
Qed.
Lemma send_to_step peer msg : guarantees (S := Tk) T (FrostTask.send_to peer msg).
Proof. apply ignore_step, on_machine_step, send_step. Qed.
#[local] Hint Resolve all_peers_step send_to_step : macbeth.

Lemma wallet_state_step peer_id r :
  guarantees (S := Tk) T (FrostTask.handle_wallet_state frost_config peer_id r).
Proof.
  unfold FrostTask.handle_wallet_state, FrostTask.send_serialized_compressed_finalized_pegout_ids.
  assert (∀ peer r l, guarantees (S := Tk) T (FrostTask.send_batches peer r l)) as Hb.
  { intros peer r' l. induction l as [|b l IH]; cbn [FrostTask.send_batches]; guarantees_tac. }
  guarantees_tac. apply attempt_step, on_server_step.
Qed.

(** ** Start and key generation *)

Lemma modify_step (f : Tk → Tk) :
  (∀ t, machine_of (f t) = machine_of t) → (∀ t, staged (f t) = staged t) →
  guarantees T (smodify (E := ()) f).
Proof. intros Hm Hs. apply guarantees_modify. intros t. by apply same_task_step. Qed.
Lemma gossip_payloads_step l :
  guarantees (S := Tk) T (FrostTask.gossip_payloads identifier_of frost_config l).
Proof.
  unfold FrostTask.gossip_payloads.
  assert (∀ ps l, guarantees (S := Tk) T (FrostTask.gossip_loop identifier_of frost_config ps l)) as Hg.
  { intros ps l'. induction l' as [|p l' IH]; cbn [FrostTask.gossip_loop]; guarantees_tac. }
  guarantees_tac.
Qed.
Lemma start_step : guarantees (S := Tk) T FrostTask.start.
Proof.
  unfold FrostTask.start. guarantees_tac;
    [apply attempt_step, on_server_step|by apply modify_step..].
Qed.
Lemma dkg_payload_step :
  guarantees (S := Tk) T (FrostTask.dkg_payload identifier_of frost_config).
Proof.
  unfold FrostTask.dkg_payload, FrostTask.store_public_key. guarantees_tac.
  all: try (by apply modify_step). all: try apply gossip_payloads_step.
  all: apply attempt_step, on_server_step.
Qed.
Lemma dkg_timeout_step :
  guarantees (S := Tk) T (FrostTask.dkg_timeout identifier_of frost_config).
Proof.
  unfold FrostTask.dkg_timeout. guarantees_tac;
    [apply attempt_step, on_server_step|apply gossip_payloads_step].
Qed.
End frame.

Section commit.
Context (content : B256 → HeaderWithPegs → Prop).
Abbreviation T := (task_step (St := St) validated content).
#[local] Hint Resolve attempt_step ignore_step on_machine_step on_server_step
  is_coordinator_step : macbeth.

(** What comes after the validation of a PSBT. *)
Lemma validated_step b (k : SM Tk () ()) :
  (validated b → guarantees T k) →
  guarantees T
    (match psbt_deserialize b with
     | None => sret tt
     | Some p => let* valid := FrostTask.psbt_is_valid btc_network chain now p in
                 if negb valid then sret tt else k
     end).
Proof.
  intros Hk t. destruct (psbt_deserialize b) as [p|] eqn:Hp; [|reflexivity].
  unfold sbind, FrostTask.psbt_is_valid.
  destruct (validate_psbt_by_ids chain now btc_network p) as [u|e|] eqn:Hv; simpl; [|reflexivity..].
  apply Hk. by exists p, u.
Qed.
Lemma start_session_step hash header cp :
  guarantees T (FrostTask.start_session identifier_of frost_config chain_spec btc_network chain now
                  (St := St * Log) hash header cp).
Proof.
  unfold FrostTask.start_session. apply guarantees_bind; [typeclasses eauto|guarantees_tac|].
  intros []; cbn [negb]; [|guarantees_tac]. apply guarantees_bind; [typeclasses eauto|guarantees_tac|].
  intros []; cbn [negb]; [|guarantees_tac]. apply guarantees_bind; [typeclasses eauto| |].
  { apply attempt_step, on_server_step. }
  intros [s|]; [|guarantees_tac]. apply validated_step. eauto with macbeth.
Qed.

(** ** Committed blocks *)

Lemma checkpoint_call n req x :
  let '(r, x') := retry_exec n (srv_new_consensus_checkpoint (St := St * Log) req) x in
  extends validated x.2 x'.2 ∧ (r = Ok tt → ∃ s s', (Checkpointed req, s, s') ∈ x'.2).
Proof.
  assert (∀ x, let '(r, x') := srv_new_consensus_checkpoint (St := St * Log) req x in
    extends validated x.2 x'.2 ∧ (r = Ok tt → ∃ s s', (Checkpointed req, s, s') ∈ x'.2)) as Hone.
  { intros y. cbn. unfold record. destruct (srv_new_consensus_checkpoint req y.1) as [[[]|e|] s] eqn:Hs;
      cbn; (split; [|try done]); [by constructor; [reflexivity|..]| |reflexivity..].
    intros _. exists y.1, s. left. }
  revert x. induction n as [|n IH]; intros x; [apply Hone|]. cbn [retry_exec]. specialize (Hone x).
  destruct (srv_new_consensus_checkpoint req x) as [[[]|e|] x1]; [done| |done]. destruct Hone as [Hx1 _].
  specialize (IH x1). destruct (retry_exec n _ x1) as [r x2]. destruct IH as [Hx2 Hin].
  split; [by etrans|done].
Qed.

(** The block of a hash is removed from the staged ones only after the server
    accepted the request that stands for it. *)
Lemma commit_step hash header pegins pegouts :
  (∀ e, content hash e → request_of e = FrostTask.checkpoint_request header pegins pegouts) →
  guarantees T (FrostTask.handle_canon_state_commit identifier_of frost_config chain_spec btc_network
                  chain now (St := St * Log) hash header pegins pegouts).
Proof.
  intros Hreq. unfold FrostTask.handle_canon_state_commit.
  destruct (FrostTask.checkpoint_request header pegins pegouts) as [[cp req]|e|] eqn:Hr;
    [|guarantees_tac..].
  intros t. unfold sbind at 1, FrostTask.attempt, FrostTask.on_server, FrostTask.on_machine, zoom.
  pose proof (checkpoint_call 3 req (server (machine_of t))) as Hcall.
  destruct (retry_exec 3 _ _) as [r x']. destruct Hcall as [Hext Hin].
  assert (machine_step validated (machine_of t) (put_server x' (machine_of t))) as Hm
    by by apply history_step.
  destruct r as [[]|e|]; cbn; [|by apply machine_task_step..]. unfold sbind at 1. cbn.
  etrans; [|apply start_session_step]. destruct (Hin eq_refl) as (s & s' & Hs).
  split; [done|split; [apply delete_subseteq|]]. intros Hc h e He. cbn.
  destruct (decide (h = hash)) as [->|Hne]; [right|left; by rewrite lookup_delete_ne].
  exists cp, req, s, s'. split; [by apply Hreq, Hc|done].
Qed.
End commit.

Section steps.
Context (content : B256 → HeaderWithPegs → Prop).
Abbreviation T := (task_step (St := St) validated content).
#[local] Hint Resolve attempt_step ignore_step on_machine_step on_server_step
  is_coordinator_step wallet_state_step : macbeth.

Lemma get_staged_headers_in db x : x ∈ get_staged_headers db ↔ staged_headers db !! x.1 = Some x.2.
Proof. destruct x. unfold get_staged_headers. by rewrite sort_by_perm, elem_of_map_to_list. Qed.
(** The blocks are the ones that are staged, whatever their content. *)
Lemma staged_headers_step :
  guarantees T (FrostTask.handle_staged_headers identifier_of frost_config chain_spec btc_network
                  chain now (St := St * Log)).
Proof.
  intros t. unfold FrostTask.handle_staged_headers, sbind at 1, sget.
  destruct (check_staged_headers t); [|reflexivity].
  set (content0 h e := staged_headers (staged t) !! h = Some e).
  assert (task_step validated content0 t (sfor (sort_by_key (λ x, h_number (hp_header x.2))
    (get_staged_headers (staged t))) (FrostTask.handle_staged_header identifier_of frost_config
      chain_spec btc_network chain now (St := St * Log)) (put_check false t)).2) as (Hm & Hs & Hd).
  { etrans; [by apply (same_task_step _ _ t (put_check false t))|].
    apply guarantees_sfor; [typeclasses eauto|]. intros x Hx. apply commit_step. intros e He.
    unfold sort_by_key in Hx. rewrite sort_by_perm in Hx. apply get_staged_headers_in in Hx.
    assert (e = x.2) as -> by (unfold content0 in He; congruence). done. }
  split; [done|split; [done|]]. intros _. by apply Hd.
Qed.

(** ** Messages *)

Lemma signing_step from r :
  guarantees (S := Tk) T (FrostTask.handle_signing identifier_of frost_config chain_spec btc_network
                            chain now from r).
Proof.
  unfold FrostTask.handle_signing. destruct (negb _); [guarantees_tac|].
  apply validated_step. intros Hv. apply ignore_step, on_machine_step.
  destruct (response_type r); auto with macbeth.
Qed.
Lemma message_step c :
  guarantees (S := Tk) T (FrostTask.handle_message identifier_of frost_config chain_spec btc_network
                            chain now c).
Proof.
  unfold FrostTask.handle_message. guarantees_tac.
  - by apply modify_step.
  - apply signing_step.
Qed.

(** ** The loop *)

(** The block of a notification is the one its hash stands for. *)
Definition notified (n : CommitNotification) : Prop :=
  ∀ e pegins, content (sb_hash (nt_block n)) e →
    from_option get_utxos_from_pegin_meta (Ok []) (nt_pegins n) = Ok pegins →
    request_of e = FrostTask.checkpoint_request (sb_header (nt_block n)) pegins
      (from_option (λ l, get_pending_pegouts_from_pegout_data l (h_number (sb_header (nt_block n)))
         (h_timestamp (sb_header (nt_block n)))) [] (nt_pegouts n)).

Lemma notification_step n :
  notified n →
  guarantees T (FrostTask.handle_notification identifier_of frost_config chain_spec btc_network
                  chain now (St := St * Log) n).
Proof.
  intros Hn t. unfold FrostTask.handle_notification, sbind at 1, slift.
  destruct (from_option get_utxos_from_pegin_meta (Ok []) (nt_pegins n)) as [pegins|e|] eqn:Hp;
    [|reflexivity..].
  apply commit_step. intros e He. by apply Hn.
Qed.
Lemma iteration_step i :
  Forall notified (li_notifications i) →
  guarantees T (FrostTask.iteration identifier_of frost_config chain_spec btc_network chain now
                  (St := St * Log) i).
Proof.
  intros Hn. rewrite Forall_forall in Hn.
  assert (guarantees T (FrostTask.body identifier_of frost_config chain_spec btc_network chain now
            (St := St * Log) i)) as Hb.
  { unfold FrostTask.body. guarantees_tac.
    - apply staged_headers_step.
    - by apply notification_step, Hn.
    - apply message_step. }
  unfold FrostTask.iteration. guarantees_tac. by apply modify_step.
Qed.

End steps.
End task.
