(* ===== verification/ServerLink.v ===== *)
(** * The node's client of the wallet server

    [btc-server/client/src/extended_client.rs]: every method puts a fresh token on
    the request, sends it and turns whatever goes wrong into one error.  Between
    the client and the handlers of [Server] is a connection that can lose the
    request or the reply. *)

From S2P Require Import Prelude Bitcoin Psbt Database PegoutScheduler CoinSelection Signing Codec Peg DkgEncryption Dkg RpcTypes Jwt Server FrostSigning.
Local Open Scope Z_scope.

(** Metadata travels encoded. *)
Class JwtIssuer `{JwtLib} := { base64_encode : bytes → bytes }.

Inductive Delivery := Delivered | RequestLost | ReplyLost.

(** What the environment decides at the n-th call: what becomes of it, and the
    clocks of the two sides. *)
Record Environment := {
  link : nat → Delivery;
  client_clock : nat → Z;
  server_clock : nat → Z;
  server_instant : nat → Z;
  (** the bound of the server's loops *)
  retries : nat;
}.

Record Connected `{BitcoinLib, FrostSign, !DkgLib} := { app : App; round_trips : nat }.

Section client.
Context `{BitcoinLib, FrostSign, !DkgLib, Bdk, Hashing, Bitcoind, !BitcoindWallet, JwtLib, !JwtIssuer}.
Context `{Secp256k1, !PegLib, !WireLib, TextLib}.
Context (cfg : AppConfig) (env : Environment) (client_secret : option JwtSecret).

(** Encoding and validating the own token must work. *)
Definition generate_jwt_token (now : Z) : result GrpcClientError (option bytes) :=
  match client_secret with
  | None => Ok None
  | Some secret =>
      let? token := expect (JwtSecret.encode secret (mkClaims now (Some 10000000000))) in
      let? _ := rassert (is_ok (JwtSecret.validate secret now token)) in
      Ok (Some token)
  end.

(** [generate_method]; a handler that panics is an error for the client. *)
Definition generate_method {A B} (handler : nat → Request A → SM App Status B) (request : A)
    : SM Connected GrpcClientError B := λ x,
  let n := round_trips x in
  match generate_jwt_token (client_clock env n) with
  | Ok token =>
      let req := {| metadata := base64_encode <$> token; get_ref := request |} in
      match link env n with
      | RequestLost => (Err GrpcCall, {| app := app x; round_trips := S n |})
      | d =>
          let '(r, a) := handler n req (app x) in
          (match d, r with Delivered, Ok y => Ok y | _, _ => Err GrpcCall end,
           {| app := a; round_trips := S n |})
      end
  | Err e => (Err e, x)
  | Panic => (Panic, x)
  end.

Abbreviation now n := (server_clock env n).
#[export] Instance BtcServerExtendedClient : BtcServer Connected := {|
  srv_new_consensus_checkpoint :=
    generate_method (λ n, App.new_consensus_checkpoint cfg (now n) (retries env));
  srv_get_psbt := generate_method (λ n, App.get_psbt cfg (now n) (retries env));
  srv_get_round1_signing_package :=
    generate_method (λ n, App.get_round1_signing_package cfg (now n));
  srv_get_round2_signing_package :=
    generate_method (λ n, App.get_round2_signing_package cfg (now n));
  srv_new_round1_signing_package :=
    generate_method (λ n, App.new_round1_signing_package cfg (now n));
  srv_new_round2_signing_package :=
    generate_method (λ n, App.new_round2_signing_package cfg (now n));
  srv_get_to_sign_package := generate_method (λ n, App.get_to_sign_package cfg (now n));
  srv_finalize_signing := generate_method (λ n, App.finalize_signing cfg (now n));
  srv_abort_signing := generate_method (λ _, App.abort_signing);
  srv_get_public_key := generate_method (λ n, App.get_public_key cfg (now n));
  srv_get_dkg_payloads :=
    generate_method (λ n, App.get_dkg_payloads cfg (now n) (server_instant env n));
  srv_new_dkg_payload :=
    generate_method (λ n, App.new_dkg_payload cfg (now n) (server_instant env n));
  srv_get_finalized_pegout_ids :=
    generate_method (λ n, App.get_finalized_pegout_ids cfg (now n));
  srv_reset_wallet_state := generate_method (λ n, App.reset_wallet_state cfg (now n));
|}.

(** Success at the client is success of the handler; a failed call has run the
    handler once or not at all. *)
Lemma generate_method_spec {A B} (handler : nat → Request A → SM App Status B) request x r x' :
  generate_method handler request x = (r, x') →
  (∃ y n token, r = Ok y ∧
     handler n {| metadata := token; get_ref := request |} (app x) = (Ok y, app x')) ∨
  (is_ok r = false ∧
   (app x' = app x ∨ ∃ n token,
      (handler n {| metadata := token; get_ref := request |} (app x)).2 = app x')).
Proof.
  unfold generate_method. intros Heq.
  destruct (generate_jwt_token _) as [token|e|]; [|by injection Heq as <- <-; right; auto..].
  set (req := {| metadata := base64_encode <$> token; get_ref := request |}) in *.
  destruct (handler (round_trips x) req (app x)) as [h a] eqn:Hh.
  destruct (link env (round_trips x)); [| |].
  - destruct h as [y|e|]; injection Heq as <- <-; [left|right..].
    + by exists y, (round_trips x), (base64_encode <$> token).
    + split; [done|]. right. exists (round_trips x), (base64_encode <$> token). by fold req; rewrite Hh.
    + split; [done|]. right. exists (round_trips x), (base64_encode <$> token). by fold req; rewrite Hh.
  - injection Heq as <- <-. right; auto.
  - injection Heq as <- <-. right. split; [done|]. right.
    exists (round_trips x), (base64_encode <$> token). by fold req; rewrite Hh.
Qed.
(** The server is left as it was or as the handler leaves it. *)
Lemma generate_method_app {A B} (handler : nat → Request A → SM App Status B) request x :
  app (generate_method handler request x).2 = app x ∨
  ∃ n token, app (generate_method handler request x).2 =
    (handler n {| metadata := token; get_ref := request |} (app x)).2.
Proof.
  destruct (generate_method handler request x) as [r x'] eqn:Heq. simpl.
  destruct (generate_method_spec _ _ _ _ _ Heq) as [(y & n & token & _ & Hh)|(_ & [?|(n & token & Hh)])];
    [right; exists n, token; by rewrite Hh|by left|right; by exists n, token].
Qed.
End client.
