(* ===== verification/FrostTheory.v ===== *)
(** * Theorems about the FROST task

    A node over time: it commits blocks, its FROST task iterates, fails, restarts
    and generates keys, and its wallet server changes under the hands of others.
    Whatever the order of these steps, a committed block is kept until the wallet
    server has accepted it, and only validated transactions are signed. *)

From S2P Require Import Prelude Activation Bitcoin Psbt Database DatabaseTheory PegoutScheduler SchedulerTheory CoinSelection Signing Codec Headers Peg Mint ChainRules HeaderRules Execution BlockBuilder Abci.
From S2P Require Import AbciTheory PegoutValidation DkgEncryption Dkg RpcTypes Jwt Server ServerPegs FrostSigning FrostTask FrostHistory ServerLink.
Local Open Scope Z_scope.

(** ** Committed blocks and their requests *)

Section requests.
Context `{!HeaderHash, !BitcoinHashes, !ConsensusEncoding, !Secp256k1, !PegLib, !Abi, !AbciLib}.
Context `{!EthLib, !BlockLib, !Evm, !ChainLib, !TextLib}.

(** What committing a block stages. *)
Definition stages (c : BlockWithContext) (e : HeaderWithPegs) : Prop :=
  get_staged_pegins_from_pegin_meta (pegin_metas c) = Ok (hp_pegins e) ∧
  hp_pegouts e = get_staged_pegouts_from_pegout_data (wp_pegouts (sealed_block_with_peg c))
                   (h_number (sb_header (wp_block (sealed_block_with_peg c)))) ∧
  hp_header e = sb_header (wp_block (sealed_block_with_peg c)).
Lemma stages_unique c e e' : stages c e → stages c e' → e = e'.
Proof.
  destruct e, e'. intros (Ha & Hb & Hc) (Ha' & Hb' & Hc'); simpl in *. congruence.
Qed.
Abbreviation hash_of c := (sb_hash (wp_block (sealed_block_with_peg c))).

Lemma commit_stages c db db' :
  driver_commit_botanix c db = Ok db' →
  ∃ e, stages c e ∧ staged_headers db' = <[hash_of c := e]> (staged_headers db).
Proof.
  unfold driver_commit_botanix. intros Hc. apply rbind_ok in Hc as (sp & Hsp & [= <-]).
  set (e := mkHeaderWithPegs sp _ _). exists e. split; [done|].
  destruct (insert_runtime_upgrade_version _ _ _) as [b db2] eqn:Hi.
  apply insert_runtime_view in Hi as [Hst _]. simpl. by rewrite Hst.
Qed.

(** The fields have the widths of the source: output numbers of 32 bits, ids of
    pegouts with hashes of 32 bytes. *)
Definition pegs_fit (c : BlockWithContext) : Prop :=
  Forall (λ m, 0 ≤ vout (meta_outpoint m) < 2 ^ 32) (pegin_metas c) ∧
  Forall (λ p, pegout_id_ok (pw_id p)) (wp_pegouts (sealed_block_with_peg c)).

(** The staged pegs and the notified pegs become the same request. *)
Lemma staged_pegins_sent l sp us :
  Forall (λ m, 0 ≤ vout (meta_outpoint m) < 2 ^ 32) l →
  get_staged_pegins_from_pegin_meta l = Ok sp → get_utxos_from_pegin_meta l = Ok us →
  get_utxos_from_staged_pegins sp = us.
Proof.
  intros Hl. revert sp us. induction Hl as [|m l Hm _ IH]; intros sp us Hs Hu.
  - injection Hs as <-. by injection Hu as <-.
  - cbn [get_staged_pegins_from_pegin_meta] in Hs. unfold get_utxos_from_pegin_meta in Hu.
    cbn [try_all] in Hu. unfold utxo_from_pegin_meta at 1 in Hu.
    destruct (meta_txout m) as [out| |]; [|done..]. simpl in Hs, Hu.
    destruct (get_staged_pegins_from_pegin_meta l) as [sp'| |]; [|done..].
    unfold get_utxos_from_pegin_meta in IH.
    destruct (try_all utxo_from_pegin_meta l) as [us'| |]; [|done..].
    simpl in Hs, Hu. injection Hs as <-. injection Hu as <-. unfold get_utxos_from_staged_pegins.
    csimpl. f_equal; [|by apply IH]. by rewrite Z.mod_small.
Qed.
(** Staging the pegins of a block means that their outputs exist. *)
Lemma staged_pegins_convert l sp :
  get_staged_pegins_from_pegin_meta l = Ok sp → ∃ us, get_utxos_from_pegin_meta l = Ok us.
Proof.
  revert sp. induction l as [|m l IH]; intros sp Hs; [by exists []|].
  cbn [get_staged_pegins_from_pegin_meta] in Hs. unfold get_utxos_from_pegin_meta in *.
  cbn [try_all]. unfold utxo_from_pegin_meta at 1.
  destruct (meta_txout m) as [out| |]; [|done..]. simpl in *.
  destruct (get_staged_pegins_from_pegin_meta l) as [sp'| |]; [|done..].
  destruct (IH sp' eq_refl) as [us ->]. by eexists.
Qed.
(** The notification of a committed block. *)
Definition notification_of (c : BlockWithContext) : CommitNotification :=
  mkNotification (wp_block (sealed_block_with_peg c)) (Some (pegin_metas c))
    (Some (wp_pegouts (sealed_block_with_peg c))).
Lemma notified_as_staged c e pegins :
  pegs_fit c → stages c e → get_utxos_from_pegin_meta (pegin_metas c) = Ok pegins →
  request_of e = FrostTask.checkpoint_request (sb_header (wp_block (sealed_block_with_peg c))) pegins
    (get_pending_pegouts_from_pegout_data (wp_pegouts (sealed_block_with_peg c))
       (h_number (sb_header (wp_block (sealed_block_with_peg c))))
       (h_timestamp (sb_header (wp_block (sealed_block_with_peg c))))).
Proof.
  intros Hv (Hp & Ho & Hh) Hu. unfold request_of. rewrite Hh, Ho.
  rewrite (staged_pegins_sent _ _ _ (proj1 Hv) Hp Hu). f_equal.
  unfold get_pending_pegouts_from_staged_pegouts, get_staged_pegouts_from_pegout_data,
    get_pending_pegouts_from_pegout_data. by rewrite <-list_fmap_compose.
Qed.

(** What a request says of the block's pegs. *)
Lemma request_pegins c e cp req m :
  pegs_fit c → stages c e → request_of e = Ok (cp, req) → m ∈ pegin_metas c →
  ∃ u, u ∈ pegins req ∧
    ru_outpoint u = Some {| ro_txid := op_txid (meta_outpoint m); ro_vout := vout (meta_outpoint m) |}.
Proof.
  intros Hv Hs Hr Hm. destruct (staged_pegins_convert _ _ (proj1 Hs)) as [us Hus].
  rewrite (notified_as_staged _ _ _ Hv Hs Hus) in Hr. unfold FrostTask.checkpoint_request in Hr.
  destruct (deserialize_extra_data_header _) as [edh| |]; [|done..]. injection Hr as _ <-. simpl.
  destruct (try_all_in _ _ _ _ Hus Hm) as (u & Hu & Hin). exists u. split; [done|].
  unfold utxo_from_pegin_meta in Hu. apply rbind_ok in Hu as (out & _ & [= <-]). done.
Qed.
Lemma request_pegouts c e cp req p :
  stages c e → request_of e = Ok (cp, req) → p ∈ wp_pegouts (sealed_block_with_peg c) →
  ∃ q, q ∈ cc_pending_pegouts req ∧ rp_pegout_id q = as_bytes (pw_id p).
Proof.
  intros (_ & Ho & _) Hr Hp. unfold request_of, FrostTask.checkpoint_request in Hr.
  destruct (deserialize_extra_data_header _) as [edh| |]; [|done..]. injection Hr as _ <-.
  cbn [cc_pending_pegouts]. rewrite Ho.
  unfold get_pending_pegouts_from_staged_pegouts, get_staged_pegouts_from_pegout_data.
  rewrite <-list_fmap_compose. eexists. split; [by apply list_elem_of_fmap_2|done].
Qed.
End requests.

(** ** A node over time *)

Section node.
Context `{BitcoinLib, Frost, !DkgLib, !FrostNet, !SyncCodec}.
Context `{!HeaderHash, !BitcoinHashes, !ConsensusEncoding, !Secp256k1, !PegLib, !Abi, !AbciLib}.
Context `{!EthLib, !BlockLib, !Evm, !ChainLib, !TextLib, !WireLib}.
Context {St : Type} `{!BtcServer St} {PE : Type}.
Context (identifier_of : Z → Identifier) (frost_config : FrostConfig).
Context (chain_spec : BotanixChainSpec) (btc_network : Network).
Abbreviation Log := (list (Call * St * St)).
Abbreviation hash_of c := (sb_hash (wp_block (sealed_block_with_peg c))).

(** The task with the recorded calls, and the blocks committed so far. *)
Record Node := { node_task : Task (St * Log); committed : list BlockWithContext }.

(** The steps: a block is committed, and blocks with the same hash are the same;
    the task goes through its loop, having been notified of committed blocks; it is
    restarted; a step of key generation; someone else uses the server. *)
Inductive node_step : Node → Node → Prop :=
  | step_commit n c db :
      pegs_fit c →
      (∀ c', c' ∈ committed n → hash_of c' = hash_of c → ∀ e, stages c' e ↔ stages c e) →
      driver_commit_botanix c (staged (node_task n)) = Ok db →
      node_step n {| node_task := put_staged db (node_task n); committed := c :: committed n |}
  | step_iterate n (chain : ChainView PE) now i r t :
      Forall (λ x, ∃ c, c ∈ committed n ∧ x = notification_of c) (li_notifications i) →
      FrostTask.iteration identifier_of frost_config chain_spec btc_network chain now i (node_task n)
        = (r, t) →
      node_step n {| node_task := t; committed := committed n |}
  | step_restart n key r t :
      FrostTask.start (FrostTask.new (machine_of (node_task n)) (staged (node_task n)) key) = (r, t) →
      node_step n {| node_task := t; committed := committed n |}
  | step_dkg n r t :
      FrostTask.dkg_payload identifier_of frost_config (node_task n) = (r, t) ∨
      FrostTask.dkg_timeout identifier_of frost_config (node_task n) = (r, t) →
      node_step n {| node_task := t; committed := committed n |}
  | step_server n s :
      let m := machine_of (node_task n) in
      node_step n {| node_task := put_machine (put_server (s, history m) m) (node_task n);
                     committed := committed n |}.

(** A new node. *)
Definition fresh (n : Node) : Prop :=
  committed n = [] ∧ staged_headers (staged (node_task n)) = ∅ ∧
  signing_states (machine_of (node_task n)) = ∅ ∧ history (machine_of (node_task n)) = [].

(** Every committed block is staged or delivered; the entries of the history are
    true; finalized sessions are finalized. *)
Record node_ok (n : Node) : Prop := {
  ok_unique : ∀ c c' e, c ∈ committed n → c' ∈ committed n → hash_of c = hash_of c' →
    stages c e ↔ stages c' e;
  ok_fit : Forall pegs_fit (committed n);
  ok_staged : ∀ h e, staged_headers (staged (node_task n)) !! h = Some e →
    ∃ c, c ∈ committed n ∧ hash_of c = h ∧ stages c e;
  ok_kept : ∀ c, c ∈ committed n → ∃ e, stages c e ∧
    (staged_headers (staged (node_task n)) !! hash_of c = Some e ∨
     delivered e (history (machine_of (node_task n))));
  ok_history : ∀ c s s', (c, s, s') ∈ history (machine_of (node_task n)) → call_holds c s s';
  ok_sessions : sessions_ok (machine_of (node_task n));
}.
Definition block_content (n : Node) (h : B256) (e : HeaderWithPegs) : Prop :=
  ∃ c, c ∈ committed n ∧ hash_of c = h ∧ stages c e.

Lemma node_task_step valid n t :
  node_ok n → task_step valid (block_content n) (node_task n) t →
  node_ok {| node_task := t; committed := committed n |}.
Proof.
  intros [Hu Hv Hs Hk Hh Hf] ([He Hfin] & Hsub & Hd). split; simpl; [done|done| | | |].
  - intros h e Hl. apply Hs. by eapply lookup_weaken.
  - intros c Hc. destruct (Hk c Hc) as (e & Hst & Hor). exists e. split; [done|].
    destruct Hor as [Hl|Hl]; [by apply Hd|]. right. eapply delivered_mono; [|done].
    by eapply extends_subset.
  - intros c s s' Hin. destruct (extends_holds _ _ _ _ _ _ He Hin); auto.
  - auto.
Qed.

(** A committed block is what its notification says. *)
Lemma committed_notified n c :
  node_ok n → c ∈ committed n → notified (block_content n) (notification_of c).
Proof.
  intros Hn Hc e pegins (c' & Hc' & Hh & Hst) Hp. simpl in *.
  eapply notified_as_staged; [|by apply (ok_unique n Hn c' c)|done].
  by eapply (proj1 (Forall_forall _ _)); [apply (ok_fit n Hn)|].
Qed.

Lemma node_commit n c db :
  node_ok n → pegs_fit c →
  (∀ c', c' ∈ committed n → hash_of c' = hash_of c → ∀ e, stages c' e ↔ stages c e) →
  driver_commit_botanix c (staged (node_task n)) = Ok db →
  node_ok {| node_task := put_staged db (node_task n); committed := c :: committed n |}.
Proof.
  intros [Hu Hv Hs Hk Hh Hf] Hc Huniq Hdb. apply commit_stages in Hdb as (e & Hst & Hdb).
  split; simpl; rewrite ?Hdb; [|by constructor| | |done|done].
  - intros c1 c2 e' [->|Hc1]%elem_of_cons [->|Hc2]%elem_of_cons Heq; [done| | |by apply Hu].
    + symmetry. by apply Huniq.
    + by apply Huniq.
  - intros h e'. rewrite lookup_insert_Some. intros [[<- <-]|[_ Hl]].
    + exists c. split; [left|done].
    + destruct (Hs h e' Hl) as (c' & Hin & Hhe). exists c'. split; [by right|done].
  - intros c' [->|Hin]%elem_of_cons; [exists e; rewrite lookup_insert_eq; auto|].
    destruct (decide (hash_of c = hash_of c')) as [Heq|Hne].
    + exists e. split; [by apply (Huniq c' Hin)|]. left. by rewrite Heq, lookup_insert_eq.
    + rewrite lookup_insert_ne by done. by apply Hk.
Qed.

Lemma node_step_ok n n' : node_ok n → node_step n n' → node_ok n'.
Proof.
  intros Hn Hstep. destruct Hstep as [n c db Hv Hu Hdb|n chain now i r t Hi Heq|n key r t Heq|n r t Heq|n s].
  - by apply node_commit.
  - apply (node_task_step (validated btc_network chain now)); [done|].
    change t with (r, t).2. rewrite <-Heq. apply iteration_step.
    eapply Forall_impl; [done|]. intros x (c & Hc & ->). by apply committed_notified.
  - set (n0 := {| node_task := FrostTask.new (machine_of (node_task n)) (staged (node_task n)) key;
                  committed := committed n |}).
    assert (node_ok n0) as Hn0.
    { by destruct Hn. }
    apply (node_task_step (λ _, False) n0); [done|]. change t with (r, t).2. rewrite <-Heq.
    apply start_step.
  - apply (node_task_step (λ _, False)); [done|]. change t with (r, t).2.
    destruct Heq as [<-|<-]; [apply dkg_payload_step|apply dkg_timeout_step].
  - destruct Hn. by split.
Qed.
Lemma node_run_ok n n' : fresh n → rtc node_step n n' → node_ok n'.
Proof.
  intros (Hc & Hs & Hss & Hh). assert (node_ok n) as Hn.
  { split; rewrite ?Hc, ?Hh; try set_solver.
    - intros h e. by rewrite Hs, lookup_empty.
    - intros id x. by rewrite Hss, lookup_empty. }
  intros Hr. revert Hn. clear -Hr. induction Hr; [done|]. eauto using node_step_ok.
Qed.
End node.

(** ** What is signed *)

Section signing.
Context `{BitcoinLib, Frost, !DkgLib, !FrostNet, !SyncCodec}.
Context `{!ConsensusEncoding, !Secp256k1, !PegLib, !WireLib}.
Context `{!Abi, !AbciLib, !TextLib, !EthLib, !BlockLib}.
Context {St : Type} `{!BtcServer St} {PE : Type}.
Context (identifier_of : Z → Identifier) (frost_config : FrostConfig).
Context (chain_spec : BotanixChainSpec) (btc_network : Network).

Lemma extends_new valid (l l' : list (Call * St * St)) :
  extends valid l l' → ∃ new, l' = new ++ l ∧ Forall (λ x, may_sign valid l' x.1.1) new.
Proof.
  assert (∀ (l1 l2 : list (Call * St * St)) x, l1 ⊆ l2 → may_sign valid l1 x → may_sign valid l2 x)
    as Hmono by (intros l1 l2 [] Hsub; simpl; naive_solver).
  induction 1 as [|l' c s s' He (new & Heq & Hnew) Hh Hm]; [by exists []|].
  exists ((c, s, s') :: new). split; [by rewrite Heq|]. constructor; simpl.
  - eapply Hmono; [|done]. set_solver.
  - eapply Forall_impl; [done|]. intros x. apply Hmono. set_solver.
Qed.

(** C8. A node asks its server to sign only what it has validated.  In one round of
    the task, whatever blocks are reported and whatever the peers send, and also
    when the round ends in a panic, every request for a commitment or a signature
    share that the server gets is for a PSBT that passes [validate_psbt_by_ids]
    against the chain of that round, or, in the second round, for the package that
    this server itself has composed for the session. *)
Theorem only_validated_psbts_signed (chain : ChainView PE) now i t :
  let t' := (FrostTask.iteration identifier_of frost_config chain_spec btc_network chain now
               (St := St * list (Call * St * St)) i t).2 in
  ∃ new, history (machine_of t') = new ++ history (machine_of t) ∧
    Forall (λ x, match x.1.1 with
       | AskedRound1 r => validated btc_network chain now (spr_psbt r)
       | AskedRound2 r =>
           validated btc_network chain now (spr_psbt r) ∨
           ∃ p s s', (ToSign (spr_session r) p, s, s') ∈ history (machine_of t') ∧
             pkg_psbt p = spr_psbt r
       | _ => True
       end) new.
Proof.
  set (t' := _.2). simpl.
  assert (task_step (validated btc_network chain now) (λ _ _, False) t t') as [[He _] _].
  { apply iteration_step. apply Forall_true. by intros n e pegins []. }
  destruct (extends_new _ _ _ He) as (new & Heq & Hnew). by exists new.
Qed.
End signing.

(** ** Delivery of staged blocks *)

Section delivery.
Context `{BitcoinLib, Frost, !DkgLib, !ConsensusEncoding, !Secp256k1, !PegLib, !WireLib}.
Context `{!Abi, !AbciLib, !TextLib, !EthLib, !BlockLib, !FrostNet, !SyncCodec}.
Context {St : Type} `{!BtcServer St} {PE : Type}.
Context (identifier_of : Z → Identifier) (frost_config : FrostConfig).
Context (chain_spec : BotanixChainSpec) (btc_network : Network).
Context (chain : ChainView PE) (now : Z).

Abbreviation Log := (list (Call * St * St)).
Abbreviation Tk := (Task (St * Log)).

Definition same_staged (t t' : Tk) : Prop := staged t' = staged t.
#[local] Instance same_staged_preorder : PreOrder same_staged.
Proof. split; [done|]. intros x y z. unfold same_staged. congruence. Qed.
Lemma attempt_staged {E A} (m : SM (Machine (St * Log)) E A) :
  guarantees same_staged (FrostTask.attempt (FrostTask.on_machine m)).
Proof.
  intros t. unfold FrostTask.attempt, FrostTask.on_machine, zoom.
  by destruct (m (machine_of t)) as [[] ?].
Qed.
Lemma ignore_staged {E A} (m : SM (Machine (St * Log)) E A) :
  guarantees same_staged (FrostTask.ignore (FrostTask.on_machine m)).
Proof. unfold FrostTask.ignore. guarantees_tac. apply attempt_staged. Qed.
Lemma psbt_is_valid_staged p :
  guarantees same_staged (FrostTask.psbt_is_valid (St := St * Log) btc_network chain now p).
Proof. unfold FrostTask.psbt_is_valid. guarantees_tac. Qed.
#[local] Hint Resolve attempt_staged ignore_staged psbt_is_valid_staged : macbeth.
Lemma start_session_staged hash header cp :
  guarantees same_staged (FrostTask.start_session (St := St * Log) identifier_of frost_config chain_spec
                            btc_network chain now hash header cp).
Proof.
  unfold FrostTask.start_session, FrostTask.is_coordinator, FrostTask.on_server. guarantees_tac.
Qed.

Abbreviation handle := (FrostTask.handle_staged_header (St := St * Log) identifier_of frost_config
                          chain_spec btc_network chain now).

(** The server, in state [y], accepts the request for a staged block in one of the
    tries the task makes. *)
Definition accepted_at (e : HeaderWithPegs) (y : St * Log) : bool :=
  match request_of e with
  | Ok (_, req) => is_ok (retry_exec 3 (srv_new_consensus_checkpoint req) y).1
  | _ => false
  end.

(** A checkpoint that is accepted in the end is the one entry it adds. *)
Lemma checkpoint_recorded n req (y : St * Log) :
  let '(r, y') := retry_exec n (srv_new_consensus_checkpoint req) y in
  ∃ new, y'.2 = new ++ y.2 ∧
    (r = Ok tt → ∃ s s', (Checkpointed req, s, s') ∈ new ∧
       srv_new_consensus_checkpoint req s = (Ok tt, s')).
Proof.
  assert (∀ y : St * Log, let '(r, y') := srv_new_consensus_checkpoint req y in
    ∃ new, y'.2 = new ++ y.2 ∧ (r = Ok tt → ∃ s s', (Checkpointed req, s, s') ∈ new ∧
       srv_new_consensus_checkpoint req s = (Ok tt, s'))) as Hone.
  { intros x. cbn. unfold record.
    destruct (srv_new_consensus_checkpoint req x.1) as [[[]|e|] s] eqn:Hs; cbn;
      [|by exists []..]. exists [(Checkpointed req, x.1, s)]. split; [done|]. intros _.
    exists x.1, s. split; [left|done]. }
  revert y. induction n as [|n IH]; intros y; [apply Hone|]. cbn [retry_exec]. specialize (Hone y).
  destruct (srv_new_consensus_checkpoint req y) as [[[]|e|] y1]; [done| |done].
  destruct Hone as (new1 & Hy1 & _). specialize (IH y1). destruct (retry_exec n _ y1) as [r y2].
  destruct IH as (new2 & Hy2 & Hin). exists (new2 ++ new1). rewrite Hy2, Hy1. split; [apply app_assoc|].
  intros Hr. destruct (Hin Hr) as (s1 & s2 & Hs & Hok). exists s1, s2. split; [|done].
  apply elem_of_app. by left.
Qed.

(** Starting a session only adds to the log. *)
Lemma start_session_log hash header cp (t : Tk) :
  ∃ new, history (machine_of (FrostTask.start_session (St := St * Log) identifier_of frost_config
    chain_spec btc_network chain now hash header cp t).2) = new ++ history (machine_of t).
Proof.
  destruct (start_session_step identifier_of frost_config chain_spec btc_network chain now
    (λ _ _, False) hash header cp t) as [[He _] _].
  destruct (extends_new _ _ _ He) as (new & Heq & _). by exists new.
Qed.

(** A staged block leaves the staged ones exactly when the server accepts it, and
    then the log has the call. *)
Lemma staged_header_handled x t :
  let t' := (handle x t).2 in
  staged_headers (staged t') =
    (if accepted_at x.2 (server (machine_of t)) then delete x.1 (staged_headers (staged t))
     else staged_headers (staged t)) ∧
  ∃ new, history (machine_of t') = new ++ history (machine_of t) ∧
    (accepted_at x.2 (server (machine_of t)) = true → ∃ cp req s s', request_of x.2 = Ok (cp, req) ∧
       (Checkpointed req, s, s') ∈ new ∧ srv_new_consensus_checkpoint req s = (Ok tt, s')).
Proof.
  unfold FrostTask.handle_staged_header, FrostTask.handle_canon_state_commit, accepted_at.
  unfold request_of. destruct (FrostTask.checkpoint_request _ _ _) as [[cp req]|e|];
    [|split; [done|by exists []]..].
  unfold sbind at 1 3, FrostTask.attempt, FrostTask.on_server, FrostTask.on_machine, zoom.
  pose proof (checkpoint_recorded 3 req (server (machine_of t))) as Hcall.
  destruct (retry_exec 3 _ (server (machine_of t))) as [r y]. destruct Hcall as (new & Hy & Hin).
  destruct r as [[]|e|]; [|split; [done|by exists new]..]. specialize (Hin eq_refl).
  unfold sbind at 1 2. cbn [smodify is_ok fst].
  match goal with |- context [FrostTask.start_session _ _ _ _ _ _ ?h ?hd ?c ?u] =>
    pose proof (start_session_staged h hd c u : staged _ = _) as Hst;
    destruct (start_session_log h hd c u) as (new' & Hlog) end.
  split; [by rewrite Hst|]. exists (new' ++ new). split.
  - rewrite Hlog. cbn. unfold history. cbn. by rewrite Hy, app_assoc.
  - intros _. destruct Hin as (s1 & s2 & Hs & Hok). exists cp, req, s1, s2. split_and!; [done| |done].
    apply elem_of_app. by right.
Qed.

(** Steps that remove staged blocks, as they are in [m], only when they deliver
    them. *)
Definition delivers (m : gmap B256 HeaderWithPegs) (t t' : Tk) : Prop :=
  staged_headers (staged t') ⊆ staged_headers (staged t) ∧
  ∃ new, history (machine_of t') = new ++ history (machine_of t) ∧
    (staged_headers (staged t) ⊆ m → ∀ h e, staged_headers (staged t) !! h = Some e →
       staged_headers (staged t') !! h = None →
       ∃ cp req s s', request_of e = Ok (cp, req) ∧ (Checkpointed req, s, s') ∈ new ∧
         srv_new_consensus_checkpoint req s = (Ok tt, s')).
#[local] Instance delivers_preorder m : PreOrder (delivers m).
Proof.
  split.
  - intros t. split; [done|]. exists []. split; [done|]. intros _ h e. congruence.
  - intros t1 t2 t3 (Hs1 & new1 & Hl1 & Hd1) (Hs2 & new2 & Hl2 & Hd2). split; [by etrans|].
    exists (new2 ++ new1). split; [by rewrite Hl2, Hl1, app_assoc|]. intros Hm h e He Hn.
    destruct (staged_headers (staged t2) !! h) as [e2|] eqn:He2.
    + assert (e2 = e) as -> by (pose proof (lookup_weaken _ _ _ _ He2 Hs1); congruence).
      destruct (Hd2 ltac:(by etrans) h e He2 Hn) as (cp & req & s1 & s2 & ? & ? & ?).
      exists cp, req, s1, s2. split_and!; [done| |done]. apply elem_of_app. by left.
    + destruct (Hd1 Hm h e He He2) as (cp & req & s1 & s2 & ? & ? & ?).
      exists cp, req, s1, s2. split_and!; [done| |done]. apply elem_of_app. by right.
Qed.
Lemma staged_header_delivers m x : m !! x.1 = Some x.2 → guarantees (delivers m) (handle x).
Proof.
  intros Hx t. destruct (staged_header_handled x t) as (Hst & new & Hlog & Hin).
  split; [rewrite Hst; case_match; [apply delete_subseteq|done]|].
  exists new. split; [done|]. intros Hm h e He Hn. rewrite Hst in Hn.
  destruct (accepted_at x.2 _); [|congruence]. apply lookup_delete_None in Hn as [Hn|Hn]; [|congruence].
  subst h. pose proof (lookup_weaken _ _ _ _ He Hm) as He'. assert (e = x.2) as -> by congruence. auto.
Qed.
(** The other blocks are not touched. *)
Lemma staged_others l t r t' h :
  sfor l handle t = (r, t') → h ∉ l.*1 →
  staged_headers (staged t') !! h = staged_headers (staged t) !! h.
Proof.
  revert t. induction l as [|x l IH]; intros t Heq Hh; cbn [sfor] in Heq.
  { by injection Heq as <- <-. }
  csimpl in Hh. rewrite not_elem_of_cons in Hh. destruct Hh as [Hne Hh]. unfold sbind in Heq.
  destruct (staged_header_handled x t) as (Hst & _). destruct (handle x t) as [r1 t1]. cbn in Hst.
  assert (staged_headers (staged t1) !! h = staged_headers (staged t) !! h) as <-
    by (rewrite Hst; case_match; [by rewrite lookup_delete_ne|done]).
  destruct r1 as [[]|e|]; [by apply IH|by injection Heq as <- <-..].
Qed.

(** C27. Staged blocks are delivered.  When the task checks the staged headers, for
    each staged block, whatever the wallet server answers: the block stays staged as
    it is, or the check made, and the server accepted, the checkpoint request with
    all its pegs, and the block is staged no more.  When the check completes, every
    staged block was offered, in the order of the block numbers, and it is staged no
    more exactly when the server accepted it in one of the tries, in the state it
    was in after the earlier blocks; so a block that was refused is the only one
    left for the next check. *)
Theorem staged_blocks_delivered t r t' h e :
  check_staged_headers t = true → staged_headers (staged t) !! h = Some e →
  FrostTask.handle_staged_headers (St := St * Log) identifier_of frost_config chain_spec btc_network
    chain now t = (r, t') →
  (staged_headers (staged t') !! h = Some e ∨
   staged_headers (staged t') !! h = None ∧
   ∃ new cp req s s', history (machine_of t') = new ++ history (machine_of t) ∧
     request_of e = Ok (cp, req) ∧ (Checkpointed req, s, s') ∈ new ∧
     srv_new_consensus_checkpoint req s = (Ok tt, s')) ∧
  (r = Ok tt →
   ∃ earlier later t1,
     sort_by_key (λ x, h_number (hp_header x.2)) (get_staged_headers (staged t)) =
       earlier ++ (h, e) :: later ∧
     sfor earlier handle (put_check false t) = (Ok tt, t1) ∧
     staged_headers (staged t') !! h =
       if accepted_at e (server (machine_of t1)) then None else Some e).
Proof.
  intros Hcheck He Heq. unfold FrostTask.handle_staged_headers, sbind at 1, sget in Heq.
  rewrite Hcheck in Heq. unfold sbind at 1, smodify in Heq. set (l := sort_by_key _ _) in *.
  assert (∀ x, x ∈ l ↔ staged_headers (staged t) !! x.1 = Some x.2) as Hl.
  { intros x. unfold l, sort_by_key. rewrite sort_by_perm. apply get_staged_headers_in. }
  assert (NoDup l.*1) as Hnd.
  { unfold l, sort_by_key, get_staged_headers. rewrite !sort_by_perm. apply NoDup_fst_map_to_list. }
  split.
  - assert (guarantees (delivers (staged_headers (staged t))) (sfor l handle)) as Hg.
    { apply guarantees_sfor; [apply _|]. intros x Hx%Hl. by apply staged_header_delivers. }
    specialize (Hg (put_check false t)). rewrite Heq in Hg. destruct Hg as (Hsub & new & Hlog & Hd).
    destruct (staged_headers (staged t') !! h) as [e'|] eqn:He'.
    + left. pose proof (lookup_weaken _ _ _ _ He' Hsub) as Hw. cbn in Hw. congruence.
    + right. split; [done|]. destruct (Hd ltac:(done) h e He He') as (cp & req & s1 & s2 & ?).
      by exists new, cp, req, s1, s2.
  - intros ->. assert ((h, e) ∈ l) as Hin by (by apply Hl).
    apply list_elem_of_split in Hin as (l1 & l2 & Hsplit). rewrite Hsplit in *.
    rewrite sfor_app in Heq. apply sbind_ok in Heq as ([] & t1 & Hl1 & Heq).
    exists l1, l2, t1. split_and!; [done|done|].
    rewrite fmap_app in Hnd. csimpl in Hnd. apply NoDup_app in Hnd as (_ & Hd1 & Hd2).
    apply NoDup_cons in Hd2 as [Hd2 _].
    assert (staged_headers (staged t1) !! h = Some e) as Ht1.
    { rewrite (staged_others _ _ _ _ h Hl1); [done|]. intros Hin. apply (Hd1 h Hin). left. }
    cbn [sfor] in Heq. apply sbind_ok in Heq as ([] & t2 & Hx & Heq).
    rewrite (staged_others _ _ _ _ h Heq Hd2). destruct (staged_header_handled (h, e) t1) as (Hst & _).
    rewrite Hx in Hst. cbn [snd fst] in Hst. rewrite Hst.
    case_match; [apply lookup_delete_eq|done].
Qed.
End delivery.

(** ** The wallet behind the client *)

Section wallet.
Context `{BitcoinLib, FrostSign, !DkgLib, Bdk, Hashing, !HashingLaws, Bitcoind, !BitcoindWallet}.
Context `{JwtLib, !JwtIssuer, !FrostNet, !SyncCodec}.
Context `{!HeaderHash, !BitcoinHashes, !ConsensusEncoding, !Secp256k1, !PegLib, !Abi, !AbciLib}.
Context `{!EthLib, !BlockLib, !Evm, !ChainLib, !TextLib, !WireLib}.
Context {PE : Type}.
Context (cfg : AppConfig) (env : Environment) (client_secret : option JwtSecret).
Context (identifier_of : Z → Identifier) (frost_config : FrostConfig).
Context (chain_spec : BotanixChainSpec) (btc_network : Network).
#[local] Existing Instance BtcServerExtendedClient.
#[local] Instance the_client : BtcServer Connected := BtcServerExtendedClient cfg env client_secret.
Abbreviation node_runs := (rtc (node_step (St := Connected) (PE := PE) identifier_of frost_config
                                  chain_spec btc_network)).
Abbreviation hash_of c := (sb_hash (wp_block (sealed_block_with_peg c))).

(** The wallet holds the outputs of a block's pegins, and its pegouts as pending,
    tracked or paid. *)
Definition holds_pegins (c : BlockWithContext) (a : App) : Prop :=
  ∀ m, m ∈ pegin_metas c → is_Some (utxos (app_db a) !! meta_outpoint m).
Definition holds_pegouts (c : BlockWithContext) (a : App) : Prop :=
  ∀ p, p ∈ wp_pegouts (sealed_block_with_peg c) → accounted (pegout_scheduler a) (pw_id p).

Lemma parsed_outpoint u x o :
  ru_outpoint u = Some {| ro_txid := op_txid o; ro_vout := vout o |} → utxo_try_from u = Ok x →
  outpoint x = o.
Proof.
  intros Hop Hx. unfold utxo_try_from in Hx. rewrite Hop in Hx. cbn [ok_or rbind] in Hx.
  apply rbind_ok in Hx as (t & Ht & Hx). apply ok_or_ok in Ht. unfold hash_from_slice in Ht.
  cbn [ro_txid] in Ht. destruct (_ =? _)%nat; [injection Ht as <-|done].
  apply rbind_ok in Hx as (out & _ & Hx). apply rbind_ok in Hx as (spk & _ & Hx).
  apply rbind_ok in Hx as (addr & _ & [= <-]). by destruct o.
Qed.
Lemma accepted_request_held c e cp req now fuel token a a' :
  0 ≤ now → pegs_fit c → stages c e → request_of e = Ok (cp, req) →
  App.new_consensus_checkpoint cfg now fuel {| metadata := token; get_ref := req |} a = (Ok tt, a') →
  holds_pegins c a' ∧
  (db_wf (app_db a) → holds_pegouts c a' ∨ empty_wallet (app_db a')).
Proof.
  intros Hnow Hfit Hst Hreq Hrun. split.
  - destruct (new_consensus_checkpoint_steps cfg now Hnow fuel _ a a' Hrun) as (_ & _ & Hin & _).
    intros m Hm. destruct (request_pegins c e cp req m Hfit Hst Hreq Hm) as (u & Hu & Hop).
    destruct (Hin u Hu) as (x & Hx & Hrow). by rewrite <-(parsed_outpoint u x _ Hop Hx).
  - intros Hok.
    destruct (new_consensus_checkpoint_ok cfg now Hnow fuel _ a a' Hok Hrun) as (_ & Hout & _).
    destruct Hout as [Hout|Hout]; [left|by right]. intros p Hp.
    destruct (request_pegouts c e cp req p Hst Hreq Hp) as (q & Hq & Hid).
    destruct (Hout q Hq) as (r & Hr & Hacc). unfold App.parse_pending_pegout in Hr.
    destruct (negb _); [done|]. rewrite Hid, from_bytes_as_bytes in Hr.
    + simpl in Hr. by injection Hr as <-.
    + by eapply (proj1 (Forall_forall _ _) (proj2 Hfit)).
Qed.

(** C2. The pegs of a committed block reach the wallet.  In every run of a node in
    which blocks are committed, its task iterates, panics, restarts and generates
    keys, the wallet server changes by other hands, and the connection loses
    requests and replies: each committed block is still staged with all its pegs, or
    the wallet server accepted it at some point of the run.  When it did, it held
    the outputs of all the block's pegins as UTXOs; and, provided the records of its
    store were under their own keys before (every operation of the database keeps
    them there), it held all the block's pegouts as pending, tracked or paid, or its
    wallet had neither a UTXO nor a tracked spend: then the server stores no pegout
    and answers success all the same. *)
Theorem committed_pegs_reach_wallet n n' c :
  (∀ k, 0 ≤ server_clock env k) → fresh n → node_runs n n' → c ∈ committed n' →
  ∃ e, stages c e ∧
    (staged_headers (staged (node_task n')) !! hash_of c = Some e ∨
     ∃ cp req x x', request_of e = Ok (cp, req) ∧
       (Checkpointed req, x, x') ∈ history (machine_of (node_task n')) ∧
       srv_new_consensus_checkpoint req x = (Ok tt, x') ∧
       holds_pegins c (app x') ∧
       (db_wf (app_db (app x)) → holds_pegouts c (app x') ∨ empty_wallet (app_db (app x')))).
Proof.
  intros Hclock Hfresh Hrun Hc. pose proof (node_run_ok _ _ _ _ _ _ Hfresh Hrun) as Hn.
  destruct (ok_kept n' Hn c Hc) as (e & Hst & Hor). exists e. split; [done|].
  destruct Hor as [Hl|(cp & req & x & x' & Hreq & Hin)]; [by left|right].
  exists cp, req, x, x'. pose proof (ok_history n' Hn _ _ _ Hin) as Hcall. simpl in Hcall.
  do 3 (split; [done|]).
  destruct (generate_method_spec _ _ _ _ _ _ _ Hcall) as [([] & k & token & _ & Hrun')|[? _]]; [|done].
  eapply accepted_request_held; [apply Hclock| |done..].
  by eapply (proj1 (Forall_forall _ _) (ok_fit n' Hn)).
Qed.

(** A finalized session has been broadcast.  In every run of a node, when the
    signing machine holds a session as finalized, the wallet server has finalized
    it at some point of the run, and bitcoind accepted the aggregated transaction
    of the session then, or reported that it is in the chain. *)
Theorem finalized_sessions_were_broadcast n n' id session :
  fresh n → node_runs n n' →
  signing_states (machine_of (node_task n')) !! id = Some session → state session = Finalized →
  ∃ x p t, Coordinator.finalize_signing id (app_db (app x)) = Ok p ∧
    extract_tx p = Ok t ∧ accepted (calls (app x)) t ∧
    ∃ x', (SigningDone id (psbt_serialize p), x, x') ∈ history (machine_of (node_task n')).
Proof.
  intros Hfresh Hrun Hs Hfin. pose proof (node_run_ok _ _ _ _ _ _ Hfresh Hrun) as Hn.
  destruct (ok_sessions n' Hn id session Hs Hfin) as (tx & x & x' & Hin).
  pose proof (ok_history n' Hn _ _ _ Hin) as Hcall. simpl in Hcall.
  destruct (generate_method_spec _ _ _ _ _ _ _ Hcall) as [(y & k & token & Hy & Hrun')|[? _]]; [|done].
  apply finalize_signing_cases in Hrun' as (_ & [[? _]|(p & t & ids & Hp & Ht & Hacc & _ & Hr & _)]); [done|].
  exists x, p, t. split_and!; [done..|]. exists x'. injection Hy as ->. by injection Hr as <-.
Qed.
End wallet.
