(* ===== verification/FrostSample.v ===== *)
(** * A concrete node

    A node with its wallet server behind a connection that loses calls: it commits
    a block, reports it, and coordinates a signing session to its end.  The theorems
    of [FrostTheory] at this node. *)

From S2P Require Import Prelude Activation Bitcoin Psbt Database DatabaseTheory PegoutScheduler SchedulerTheory CoinSelection CoinSelectionTheory ValidatePsbt ValidateTheory Signing SigningTheory Codec Headers HeadersTheory Peg Mint MintTheory ChainRules HeaderRules Execution ExecutionTheory BlockBuilder BuilderTheory Abci AbciTheory.
From S2P Require Import PegoutValidation PegoutValidationTheory DkgEncryption Dkg DkgTheory RpcTypes Jwt Server ServerPegs ServerSample FrostSigning FrostTask FrostHistory ServerLink FrostTheory.
Local Open Scope Z_scope.

Module SampleNode.
Import SampleCodec SampleServer.
#[export] Existing Instances sample_encoding PegSample.sample_header_hash PegSample.sample_hashes
  SampleChain.abi ExecutionSample.sample_eth ExecutionSample.sample_blocks
  ExecutionSample.sample_evm BuilderSample.sample_chain AbciSample.sample_abci.

#[export] Instance issuer : JwtIssuer := {|
  base64_encode b := b;
|}.
#[export] Instance sync_codec : SyncCodec := {|
  sync_encode _ := None;
  sync_decode _ := None;
|}.
(** One peer, always connected. *)
#[export] Instance net : FrostNet := {|
  connected_peers _ := Peers [{| pd_peer_id := [2]; pd_frost_identifier := 2 |}];
  peer_accepts _ _ := true;
|}.

(** A wallet with one coin and one pegout, the transaction it makes, and
    this transaction after a round of a signer. *)
Definition wallet : Database.Db := put_pending {[SampleDb.pid 3 := pending 3]} SampleSigning.db.
Definition change (_ : PublicKeyPackage) : option Script := Some [81].
Definition made : Psbt :=
  match Coordinator.make_tx change 5 [(txout (pending 3), SampleDb.pid 3)] 1 [81] 2 [] [] wallet with
  | (Ok p, _) => p
  | _ => SampleValidate.psbt
  end.
Definition commits (id : Identifier) (p : Psbt) : Psbt :=
  (Signer.get_round1_signing_package change 2 id (Z.to_nat (id mod 6)) (wallet, p)).2.2.
Definition signs (id : Identifier) (p : Psbt) : Psbt :=
  (Signer.get_round2_signing_package change 2 id [(id mod 6, [id mod 6; 7])] (wallet, p)).2.2.
Definition to_sign : Psbt := commits 2 (commits 9 made).
(** Serialization: who has committed and who has signed. *)
Definition has (f : PsbtInput → bool) (p : Psbt) : Z := if existsb f (inputs p) then 1 else 0.
Definition has_commitments (id : Identifier) : Psbt → Z :=
  has (λ x, bool_decide (signing_commitments id x ≠ None)).
Definition has_signature (id : Identifier) : Psbt → Z :=
  has (λ x, bool_decide (partial_signature id x ≠ None)).
#[export] Instance wire : WireLib := {|
  psbt_serialize p :=
    [8 * has_commitments 9 p + 4 * has_commitments 2 p + 2 * has_signature 9 p + has_signature 2 p];
  psbt_deserialize b := match b with
                        | [0] => Some made
                        | [8] => Some (commits 9 made)
                        | [4] => Some (commits 2 made)
                        | [12] => Some to_sign
                        | [14] => Some (signs 9 to_sign)
                        | [13] => Some (signs 2 to_sign)
                        | _ => None
                        end;
  msg_encode := encode_msg;
  msg_decode := decode_msg;
  id_derive i := Some i;
  kp_verifying_key _ := 2 :: replicate 32 1;
  pkp_verifying_key _ := 2 :: replicate 32 1;
  new_p2tr _ := [81];
  address_from_script _ _ := true;
  taproot_address s _ := s;
  btc_per_kb_to_sat_per_vb f := f / 1000;
|}.

(** The first two calls get lost. *)
Definition env : Environment := {|
  link n := if (n <? 2)%nat then RequestLost else Delivered;
  client_clock _ := 1000; server_clock _ := 1000; server_instant _ := 0; retries := 5;
|}.
Definition server_config : AppConfig := config 2 9 9.
#[export] Instance client : BtcServer Connected :=
  BtcServerExtendedClient server_config env (Some [1; 2]).

(** Authority 0 of a federation of two has the identifier 9. *)
Definition identifier_of (i : Z) : Identifier := if i =? 0 then 9 else 2.
Definition frost_config : FrostConfig := {|
  authority_index := 0; authorities_len := 2; fc_min_signers := 2; wallet_state_sync_chunk_size := 10;
|}.
Definition spec (epoch : Z) : BotanixChainSpec := {|
  inner := inner BuilderSample.spec;
  bitcoin_checkpoint_confirmation_depth := 6; historical_bitcoin_checkpoints_count := 1;
  weak_bitcoin_checkpoints_count := 1; leader_selection_window := Some 5;
  botanix_fee_recipient := None; lst_fee_receiver := None; epoch_length := epoch |}.

(** A block with pegins. *)
Definition header : EthHeader :=
  set_results [] [] 0 [] (edh_serialize (mkEdh EXTRA_HEADER_VERSION CHAIN_VERSION base BuilderSample.agg
    BuilderSample.recipient)) ExecutionSample.block_header.
Definition pegin_meta : PeginMeta := MetaV0 {|
  pm_version := 0; pm_outpoint := mkOutPoint PegSample.txid 0; pm_address := eth;
  pm_aggregate_publickey := PegSample.key; pm_block_headers := []; pm_merkle_proof := tt;
  pm_tx := PegSample.tx |}.
Definition block (pegins : list PeginMeta) : BlockWithContext :=
  mkContext (mkWithPeg (mkSealed (replicate 32 1) (mkBlockWithSenders
      {| eb_header := header; eb_body := []; eb_ommers := []; eb_withdrawals := None;
         eb_requests := None |} []))
    [{| pd_account := eth; pd_amount := 7; pd_bitcoin_block_height := 100; pd_meta := pegins |}] [])
    (RV 0 2) None (mkOutcome (ExecutionSample.start : BundleState) [] 0 []) tt.

(** The chain of the node: the transaction of the pegout of the signing example
    burns what the PSBT pays out and the fee. *)
Definition chain : ChainView () := {|
  cv_receipt_by_hash _ := Ok (Some (mkReceipt TyEip1559 true 0
    (replicate 3 (mkLog [] [] []) ++ [mkLog MINT_CONTRACT_ADDRESS [BURN_TOPIC; []] [4100]])));
  cv_transaction_block _ := Ok (Some 1);
  cv_header_by_number _ := Ok (Some (SampleChain.header 100));
  cv_block_by_number _ := Ok (Some (SampleChain.header 100));
  cv_transactions_by_block _ := Ok None;
  cv_receipts_by_block _ := Ok None;
|}.

Definition no_tables : BotanixDb := mkBotanixDb ∅ ∅.
Definition machine0 (a : App) : Machine (Connected * list (Call * Connected * Connected)) :=
  {| signing_states := ∅; server := ({| app := a; round_trips := 0 |}, []); queries := 0; sent := [] |}.
Definition node0 (a : App) : Node :=
  {| node_task := FrostTask.new (machine0 a) no_tables None; committed := [] |}.
Abbreviation SampleState := (Node (St := Connected)).

(** One round of the task, with what has arrived. *)
Definition arrived (ns : list CommitNotification) (ms : list PeerMessageContext) : LoopInput :=
  {| li_abci_started := false; li_syncing := None; li_notifications := ns; li_messages := ms |}.
Definition round (epoch : Z) (i : LoopInput) (n : SampleState) : SampleState :=
  {| node_task := (FrostTask.iteration identifier_of frost_config (spec epoch) NetRegtest chain 1000 i
                     (node_task n)).2;
     committed := committed n |}.
Definition commit (c : BlockWithContext) (n : SampleState) : SampleState :=
  {| node_task := match driver_commit_botanix c (staged (node_task n)) with
                  | Ok db => put_staged db (node_task n)
                  | _ => node_task n
                  end;
     committed := c :: committed n |}.
End SampleNode.
Import SampleCodec SampleServer SampleNode.

(** ** Steps *)

Lemma commit_steps epoch c n :
  committed n = [] → pegs_fit c → is_ok (driver_commit_botanix c (staged (node_task n))) = true →
  node_step (PE := ()) identifier_of frost_config (spec epoch) NetRegtest n (commit c n).
Proof.
  intros Hn Hfit Hok. unfold commit.
  destruct (driver_commit_botanix c (staged (node_task n))) as [db| |] eqn:Hdb; [|discriminate Hok..].
  apply step_commit; [exact Hfit| |exact Hdb]. rewrite Hn. intros c' Hc'. by apply not_elem_of_nil in Hc'.
Qed.
Lemma round_steps epoch i n :
  Forall (λ x, ∃ c, c ∈ committed n ∧ x = notification_of c) (li_notifications i) →
  node_step (PE := ()) identifier_of frost_config (spec epoch) NetRegtest n (round epoch i n).
Proof.
  intros Hi. unfold round. eapply step_iterate; [exact Hi|]. apply surjective_pairing.
Qed.
Lemma node0_fresh a : fresh (node0 a).
Proof. by split_and!. Qed.
Lemma block_fits l :
  forallb (λ m, (0 <=? vout (meta_outpoint m)) && (vout (meta_outpoint m) <? 2 ^ 32)) l = true →
  pegs_fit (block l).
Proof.
  intros Hl. split; [|apply Forall_nil_2]. unfold pegin_metas. cbn. rewrite app_nil_r.
  apply Forall_forall. intros m Hm. rewrite forallb_forall in Hl.
  specialize (Hl m (proj1 (list_elem_of_In _ _) Hm)). bool_to_prop. lia.
Qed.

(** ** A block is committed and reported, after two lost calls *)

Definition n1 : SampleState := commit (block [pegin_meta]) (node0 (member wallet)).
Definition n2 : SampleState := round 100 (arrived [notification_of (block [pegin_meta])] []) n1.
Lemma n2_runs :
  rtc (node_step (PE := ()) identifier_of frost_config (spec 100) NetRegtest)
    (node0 (member wallet)) n2.
Proof.
  eapply rtc_l; [apply (commit_steps 100 (block [pegin_meta]))|apply rtc_once, round_steps].
  - reflexivity.
  - apply block_fits. reflexivity.
  - vm_compute. reflexivity.
  - apply Forall_singleton. exists (block [pegin_meta]). split; [left|reflexivity].
Qed.
Lemma committed_pegs_reach_wallet_witness :
  ∃ req x x', (Checkpointed req, x, x') ∈ history (machine_of (node_task n2)) ∧
    srv_new_consensus_checkpoint req x = (Ok tt, x') ∧
    is_Some (utxos (app_db (app x')) !! mkOutPoint PegSample.txid 0).
Proof.
  destruct (committed_pegs_reach_wallet (PE := ()) server_config env (Some [1; 2]) identifier_of
    frost_config (spec 100) NetRegtest (node0 (member wallet)) n2 (block [pegin_meta]))
    as (e & _ & [Hst|(cp & req & x & x' & _ & Hin & Hcall & Hheld & _)]).
  - intros k. discriminate.
  - apply node0_fresh.
  - exact n2_runs.
  - left.
  - exfalso. vm_compute in Hst. discriminate Hst.
  - exists req, x, x'. split; [exact Hin|]. split; [exact Hcall|].
    apply (Hheld pegin_meta). left.
Defined.

(** ** A session from its start to the broadcast *)

Definition answer (type : SigningEventResponseType) (psbt : bytes) : LoopInput :=
  arrived [] [{| mc_peer_id := [2]; mc_frost_identifier := Some (2 : Identifier);
                 mc_message := PmSigning {| response_type := type; sr_session := replicate 32 1;
                                            sr_psbt := psbt |} |}].
Definition s1 : SampleState := commit (block []) (node0 (member wallet)).
Definition s2 : SampleState := round 1 (arrived [] []) s1.
Definition s3 : SampleState := round 1 (answer CoordinatorRound1SigningPackage [4]) s2.
Definition s4 : SampleState := round 1 (answer CoordinatorRound2SigningPackage [13]) s3.
Definition states (n : SampleState) : option SigningState :=
  state <$> signing_states (machine_of (node_task n)) !! replicate 32 1.
(** The session goes through its states. *)
Example session_states :
  (states s1, states s2, states s3, states s4) = (None, Some Round1, Some Round2, Some Finalized).
Proof. vm_compute. reflexivity. Qed.
(** A notification for a block that was sent from the staged headers in the same
    round ends the session that was just started. *)
Example session_retriggered :
  states (round 1 (arrived [notification_of (block [])] []) s1) = None.
Proof. vm_compute. reflexivity. Qed.
Lemma s4_runs :
  rtc (node_step (PE := ()) identifier_of frost_config (spec 1) NetRegtest)
    (node0 (member wallet)) s4.
Proof.
  eapply rtc_l; [apply (commit_steps 1 (block []))|].
  - reflexivity.
  - apply block_fits. reflexivity.
  - vm_compute. reflexivity.
  - eapply rtc_l; [apply (round_steps 1 (arrived [] [])); apply Forall_nil_2|].
    eapply rtc_l; [apply (round_steps 1 (answer CoordinatorRound1SigningPackage [4])); apply Forall_nil_2|].
    apply rtc_once, (round_steps 1 (answer CoordinatorRound2SigningPackage [13])), Forall_nil_2.
Qed.
Lemma finalized_sessions_were_broadcast_witness :
  ∃ x p t, Coordinator.finalize_signing (replicate 32 1) (app_db (app x)) = Ok p ∧
    extract_tx p = Ok t ∧ accepted (calls (app x)) t.
Proof.
  destruct (signing_states (machine_of (node_task s4)) !! replicate 32 1) as [session|] eqn:Hs.
  2: { apply (f_equal (fmap state)) in Hs. vm_compute in Hs. discriminate Hs. }
  destruct (finalized_sessions_were_broadcast (PE := ()) server_config env (Some [1; 2]) identifier_of
    frost_config (spec 1) NetRegtest (node0 (member wallet)) s4 (replicate 32 1) session)
    as (x & p & t & Hp & Ht & Hacc & _).
  - apply node0_fresh.
  - exact s4_runs.
  - exact Hs.
  - apply (inj Some). apply (f_equal (fmap state)) in Hs. cbn [fmap option_fmap option_map] in Hs.
    rewrite <-Hs. vm_compute. reflexivity.
  - exists x, p, t. split; [exact Hp|]. split; [exact Ht|exact Hacc].
Defined.

(** ** The staged block of [n1] is offered to the server *)

Definition waiting : Task (Connected * list (Call * Connected * Connected)) := node_task n1.
Definition check_staged := FrostTask.handle_staged_headers identifier_of frost_config (spec 100)
  NetRegtest chain 1000 waiting.
Lemma staged_blocks_delivered_witness :
  ∃ h e req x x', staged_headers (staged waiting) !! h = Some e ∧
    staged_headers (staged check_staged.2) !! h = None ∧
    (Checkpointed req, x, x') ∈ history (machine_of check_staged.2) ∧
    srv_new_consensus_checkpoint req x = (Ok tt, x').
Proof.
  destruct (map_to_list (staged_headers (staged waiting))) as [|[h e] l] eqn:Hl.
  { apply (f_equal length) in Hl. vm_compute in Hl. discriminate Hl. }
  assert (staged_headers (staged waiting) !! h = Some e) as He
    by (apply elem_of_map_to_list; rewrite Hl; left).
  assert (staged_headers (staged check_staged.2) !! h = None) as Hgone.
  { assert (bool_decide (staged_headers (staged check_staged.2) = ∅) = true) as Hb
      by (vm_compute; reflexivity).
    apply bool_decide_eq_true in Hb. rewrite Hb. apply lookup_empty. }
  destruct (staged_blocks_delivered identifier_of frost_config (spec 100) NetRegtest chain 1000 waiting
    check_staged.1 check_staged.2 h e) as [[Hst|(_ & new & cp & req & x & x' & Hlog & _ & Hin & Hok)] _].
  - vm_compute. reflexivity.
  - exact He.
  - apply surjective_pairing.
  - congruence.
  - exists h, e, req, x, x'. split_and!; [exact He|exact Hgone| |exact Hok].
    rewrite Hlog. apply elem_of_app. left. exact Hin.
Defined.
