(* ===== verification/WalletSync.v ===== *)
(** * Synchronization of the wallet state

    [consensus/authority/src/wallet_state_sync.rs]: at the end of an epoch a node
    asks its peers for the pegouts they know as paid, collects the answers in the
    Botanix database, and when enough peers have answered resets the finalized
    pegouts of its wallet server.  [botanix-storage]: the records of the answers
    ([models/wallet_sync.rs], [provider/database/wallet_state_sync.rs]).

    Database transactions succeed; the maps and sets of the source are finite maps
    and sets, whose order of iteration plays no part in the results. *)

From S2P Require Import Prelude Bitcoin Psbt Codec Headers Peg Mint HeaderRules Abci PegoutValidation RpcTypes Server FrostSigning FrostTask.
Local Open Scope Z_scope.

(** ** Records *)

Record WalletStateSyncRecord := mkSyncRecord {
  sy_uuid : B256;
  sy_data : list bytes;
  sy_blocks : list Z;
  sy_chunks_count : Z;
  sy_peer_id : PeerId;
}.

(** [uuid_to_b256]: 16 bytes and 16 zeros *)
Definition uuid_to_b256 (uuid : bytes) : B256 := uuid ++ replicate 16 0.

Module WalletStateSyncRecord.
Definition new (peer_id : PeerId) (uuid : B256) (chunks_count : Z) (data : option (list (Z * bytes)))
    : WalletStateSyncRecord :=
  let l := default [] data in mkSyncRecord uuid l.*2 l.*1 chunks_count peer_id.

Definition add_data_if_not_exists (data_chunk : bytes) (block_number : Z) (r : WalletStateSyncRecord)
    : bool * WalletStateSyncRecord :=
  if existsb (λ d, bool_decide (d = data_chunk)) (sy_data r) then (false, r)
  else if existsb (λ b, b =? block_number) (sy_blocks r) then (false, r)
  else (true, mkSyncRecord (sy_uuid r) (sy_data r ++ [data_chunk]) (sy_blocks r ++ [block_number])
                (sy_chunks_count r) (sy_peer_id r)).
Definition append_data_with_block (additional_data : bytes) (block_number : Z)
    (r : WalletStateSyncRecord) : WalletStateSyncRecord :=
  (add_data_if_not_exists additional_data block_number r).2.
Definition append_data_block_chunks (additional_data_chunks : list bytes) (blocks : list Z)
    (r : WalletStateSyncRecord) : WalletStateSyncRecord :=
  foldl (λ r '(block, data), (add_data_if_not_exists data block r).2) r
    (zip blocks additional_data_chunks).

Definition get_blocks_data_iter (r : WalletStateSyncRecord) : list (Z * bytes) :=
  zip (sy_blocks r) (sy_data r).
Definition blocks_and_data_to_set (r : WalletStateSyncRecord) : gset (Z * bytes) :=
  list_to_set (zip (sy_blocks r) (sy_data r)).

Definition size (r : WalletStateSyncRecord) : Z :=
  32 + 64 + zsum ((λ d, Z.of_nat (length d)) <$> sy_data r) + Z.of_nat (length (sy_blocks r)) * 8.
(** The input of the hash. *)
Definition get_hash (sha256 : bytes → bytes) (r : WalletStateSyncRecord) : bytes :=
  sha256 (sy_peer_id r ++ sy_uuid r ++ concat (sy_data r)).

Definition set_peer_id (x : PeerId) (r : WalletStateSyncRecord) : WalletStateSyncRecord :=
  mkSyncRecord (sy_uuid r) (sy_data r) (sy_blocks r) (sy_chunks_count r) x.
Definition set_chunks_count (x : Z) (r : WalletStateSyncRecord) : WalletStateSyncRecord :=
  mkSyncRecord (sy_uuid r) (sy_data r) (sy_blocks r) x (sy_peer_id r).
Definition set_uuid (x : B256) (r : WalletStateSyncRecord) : WalletStateSyncRecord :=
  mkSyncRecord x (sy_data r) (sy_blocks r) (sy_chunks_count r) (sy_peer_id r).
End WalletStateSyncRecord.

(** ** The table *)

Abbreviation SyncTable := (gmap PeerId WalletStateSyncRecord).

Definition get_state_sync_records (t : SyncTable) : list WalletStateSyncRecord := (map_to_list t).*2.
Definition get_state_sync_record_peer_ids (t : SyncTable) : list PeerId :=
  sy_peer_id <$> get_state_sync_records t.
Definition get_state_sync_record_by_peer_id (peer_id : PeerId) (t : SyncTable)
    : option WalletStateSyncRecord := t !! peer_id.
Definition get_state_sync_records_count (t : SyncTable) : Z := Z.of_nat (length (map_to_list t)).

(** A peer has answered when it has sent as many items as it announced chunks. *)
Definition reached (r : WalletStateSyncRecord) : bool :=
  sy_chunks_count r <=? Z.of_nat (length (sy_data r)).
Definition get_minimum_superset (min_required_criterion : Z) (t : SyncTable)
    : bool * gset (Z * bytes) :=
  let peers := filter (λ r, reached r = true) (get_state_sync_records t) in
  if Z.of_nat (length peers) <? min_required_criterion then (false, ∅)
  else (true, ⋃ (WalletStateSyncRecord.blocks_and_data_to_set <$> peers)).

Definition create_new_state_sync_record (uuid : B256) (peer_id : PeerId) (chunks_count : Z)
    (data : option (list (Z * bytes))) (t : SyncTable) : SyncTable :=
  <[peer_id := WalletStateSyncRecord.new peer_id uuid chunks_count data]> t.
Definition append_data_to_state_sync_record (peer_id : PeerId) (data : list (Z * bytes))
    (t : SyncTable) : SyncTable :=
  match t !! peer_id with
  | None => t
  | Some r =>
      <[peer_id := foldl (λ r '(block, chunk),
          WalletStateSyncRecord.append_data_with_block chunk block r) r data]> t
  end.
Definition remove_state_sync_record_per_peer_id (peer_id : PeerId) (t : SyncTable) : SyncTable :=
  delete peer_id t.
(** The keys removed are the peer ids of the records. *)
Definition remove_all_state_sync_records (t : SyncTable) : SyncTable :=
  foldl (λ t p, delete p t) t (get_state_sync_record_peer_ids t).

(** ** The engine *)

(** [parse_uuid]: [Uuid::parse_str] *)
Class UuidLib := { parse_uuid : bytes → option bytes }.

(** [current_response_cycle]: the request whose answers are collected. *)
Record WalletStateSyncEngine (St : Type) := {
  sync_records : SyncTable;
  current_response_cycle : option bytes;
  sync_server : St;
}.
Arguments sync_records {St}.
Arguments current_response_cycle {St}.
Arguments sync_server {St}.

Definition put_records {St : Type} (x : SyncTable) (e : WalletStateSyncEngine St)
    : WalletStateSyncEngine St :=
  {| sync_records := x; current_response_cycle := current_response_cycle e;
     sync_server := sync_server e |}.
Definition put_cycle {St : Type} (x : option bytes) (e : WalletStateSyncEngine St)
    : WalletStateSyncEngine St :=
  {| sync_records := sync_records e; current_response_cycle := x; sync_server := sync_server e |}.
Definition put_sync_server {St : Type} (x : St) (e : WalletStateSyncEngine St)
    : WalletStateSyncEngine St :=
  {| sync_records := sync_records e; current_response_cycle := current_response_cycle e;
     sync_server := x |}.

Module WalletStateSync.
Section engine.
Context `{!Secp256k1, !PegLib, !Abi, !AbciLib, !SyncCodec, !UuidLib, Frost}.
Context {St : Type} `{!BtcServer St} {PE : Type}.
Context (contains_input : bytes → bytes → bool) (btc_network : Network) (frost_config : FrostConfig).
(** The chain and the clock when the message is handled. *)
Context (chain : ChainView PE) (now : Z).

Abbreviation EngineM := (SM (WalletStateSyncEngine St) ()).

(** The items of one block that are pegouts of the block, with its timestamp. *)
Definition hydrate_block (block : Z) (data : list bytes)
    : result EpochPegoutsError (list (PegoutId * Z)) :=
  let? pegouts_in_block := get_block_pegouts contains_input chain now block btc_network
                             (Some MAX_BLOCK_TS_CUTOFF_DURATION_SECS) in
  Ok (omap (λ item, match from_bytes item with
                    | Ok pegout_id => find (λ p, bool_decide (p.1 = pegout_id)) pegouts_in_block
                    | _ => None
                    end) data).

(** Grouped by block; a block that cannot be read fails the whole. *)
Definition group_by_block (l : list (Z * bytes)) : gmap Z (list bytes) :=
  foldl (λ m '(block, data), <[block := default [] (m !! block) ++ [data]]> m) ∅ l.
Fixpoint hydrate_blocks (l : list (Z * list bytes))
    : result EpochPegoutsError (list (Z * list (PegoutId * Z))) :=
  match l with
  | [] => Ok []
  | (block, data) :: l' =>
      let? here := hydrate_block block data in
      let? rest := hydrate_blocks l' in
      Ok (match here with [] => rest | _ => (block, here) :: rest end)
  end.
Definition hydrate_minimum_superset (minimum_superset : gset (Z * bytes))
    : result EpochPegoutsError (list (Z * list (PegoutId * Z))) :=
  hydrate_blocks (map_to_list (group_by_block (elements minimum_superset))).

Definition finalized_pegouts (l : list (Z * list (PegoutId * Z))) : list RpcFinalizedPegout :=
  '(block, data) ← l;
  (λ '(id, timestamp), {| rf_id := as_bytes id; rf_botanix_block_height := block;
                          rf_botanix_block_timestamp := timestamp |}) <$> data.

(** The data of an answer as the records hold it. *)
Definition items (answer : GetFinalizedPegoutIdsResponse) : list (Z * bytes) :=
  (λ p, (rf_botanix_block_height p, rf_id p)) <$> data answer.

(** The answer of a peer is recorded, unless an answer to another request is. *)
Definition record_answer (uuid : bytes) (peer_id : PeerId) (answer : GetFinalizedPegoutIdsResponse)
    (t : SyncTable) : option SyncTable :=
  match get_state_sync_record_by_peer_id peer_id t with
  | Some r =>
      if bool_decide (sy_uuid r ≠ uuid_to_b256 uuid) then None
      else Some (append_data_to_state_sync_record (sy_peer_id r) (items answer) t)
  | None => Some (create_new_state_sync_record (uuid_to_b256 uuid) peer_id (total_chunks answer)
                    (Some (items answer)) t)
  end.

(** With enough answers the server is reset; the records are removed whether or not
    that worked. *)
Definition try_reset : EngineM () :=
  let* e := sget in
  let '(found, minimum_superset) :=
    get_minimum_superset (fc_min_signers frost_config) (sync_records e) in
  if found then
    match hydrate_minimum_superset minimum_superset with
    | Err _ => sret tt
    | Panic => slift Panic
    | Ok hydrated => λ e,
        match srv_reset_wallet_state (finalized_pegouts hydrated) (sync_server e) with
        | (Panic, s) => (Panic, put_sync_server s e)
        | (_, s) =>
            (Ok tt, put_records (remove_all_state_sync_records (sync_records e))
                      (put_sync_server s e))
        end
    end
  else sret tt.

Definition handle_message (c : PeerMessageContext) : EngineM () :=
  match mc_message c with
  | PmWalletState wallet_state =>
      match parse_uuid (ws_uuid wallet_state), ws_finalized_pegout_ids wallet_state with
      | Some request_uuid, _ :: _ =>
          match sync_decode (ws_finalized_pegout_ids wallet_state) with
          | None => sret tt
          | Some answer =>
              let* e := sget in
              match current_response_cycle e with
              | None => sret tt
              | Some uuid =>
                  if bool_decide (uuid ≠ request_uuid) then sret tt
                  else
                    match record_answer uuid (mc_peer_id c) answer (sync_records e) with
                    | None => sret tt
                    | Some t => smodify (put_records t) ;;* try_reset
                    end
              end
          end
      | _, _ => sret tt
      end
  | _ => sret tt
  end.

(** A committed block: at the end of an epoch the peers are asked, with a new
    request id; whether the command could be sent is only logged. *)
Definition handle_commit (epoch_length : Z) (header : EthHeader) (uuid : bytes) : EngineM () :=
  let* epoch := slift (is_poa_epoch header epoch_length) in
  if negb epoch || (h_number header =? 0) then sret tt
  else smodify (put_cycle (Some uuid)).

End engine.
End WalletStateSync.
