(* ===== verification/WalletSyncTheory.v ===== *)
(** * Theorems about wallet synchronization

    What a node makes its wallet server believe to be paid, and when the answers of
    a peer are lost. *)

From S2P Require Import Prelude Bitcoin Psbt Database DatabaseTheory PegoutScheduler SchedulerTheory CoinSelection Signing Codec Headers Peg Mint HeaderRules Abci PegoutValidation DkgEncryption Dkg RpcTypes Jwt Server ServerPegs FrostSigning FrostTask ServerLink WalletSync.
Local Open Scope Z_scope.

(** ** Records and tables *)

Definition record_ok (p : PeerId) (r : WalletStateSyncRecord) : Prop :=
  sy_peer_id r = p ∧ length (sy_data r) = length (sy_blocks r).
Definition table_ok (t : SyncTable) : Prop := map_Forall record_ok t.

Lemma add_data_ok p data block r :
  record_ok p r → record_ok p (WalletStateSyncRecord.add_data_if_not_exists data block r).2.
Proof.
  unfold WalletStateSyncRecord.add_data_if_not_exists. intros [Hp Hl]. repeat case_match; [done..|].
  split; [done|]. simpl. rewrite !length_app. simpl. lia.
Qed.
Lemma append_all_ok p l r :
  record_ok p r → record_ok p (foldl (λ r '(block, chunk),
    WalletStateSyncRecord.append_data_with_block chunk block r) r l).
Proof.
  revert r. induction l as [|[b d] l IH]; intros r Hr; [done|]. simpl. apply IH. by apply add_data_ok.
Qed.

Lemma record_answer_ok uuid peer answer t t' :
  table_ok t → WalletStateSync.record_answer uuid peer answer t = Some t' → table_ok t'.
Proof.
  intros Ht Heq. unfold WalletStateSync.record_answer, get_state_sync_record_by_peer_id in Heq.
  destruct (t !! peer) as [r|] eqn:Hr.
  - case_bool_decide; [done|]. injection Heq as <-. unfold append_data_to_state_sync_record.
    pose proof (Ht _ _ Hr) as Hok. rewrite (proj1 Hok), Hr. apply map_Forall_insert_2; [|done].
    by apply append_all_ok.
  - injection Heq as <-. apply map_Forall_insert_2; [|done]. split; [done|]. simpl.
    by rewrite !length_fmap.
Qed.
(** Every record is removed, since the records carry their own keys. *)
Lemma remove_all_empty t : table_ok t → remove_all_state_sync_records t = ∅.
Proof.
  intros Ht. unfold remove_all_state_sync_records. apply map_empty. intros p.
  assert (∀ l (t : SyncTable) p, foldl (λ t p, delete p t) t l !! p = if decide (p ∈ l) then None else t !! p)
    as Hfold.
  { induction l as [|q l IH]; intros u p'; simpl; [done|]. rewrite IH.
    destruct (decide (p' = q)) as [->|Hne].
    - rewrite (decide_True (P := q ∈ q :: l)) by left. case_decide; [done|apply lookup_delete_eq].
    - rewrite lookup_delete_ne by done. repeat case_decide; set_solver. }
  rewrite Hfold. case_decide as Hin; [done|].
  destruct (t !! p) as [r|] eqn:Hr; [|done]. exfalso. apply Hin.
  unfold get_state_sync_record_peer_ids, get_state_sync_records. rewrite <-(proj1 (Ht _ _ Hr)).
  apply list_elem_of_fmap_2, (list_elem_of_fmap_2 snd _ (p, r)). by apply elem_of_map_to_list.
Qed.

(** A pair that the record of a peer holds which counts as having answered (a record
    may lack what the peer sent: [appended_chunk_one_per_block]). *)
Definition recorded (t : SyncTable) (x : Z * bytes) : Prop :=
  ∃ p r, t !! p = Some r ∧ reached r = true ∧ x ∈ zip (sy_blocks r) (sy_data r).
Lemma superset_elements n t s :
  get_minimum_superset n t = (true, s) → ∀ x, x ∈ s ↔ recorded t x.
Proof.
  unfold get_minimum_superset. case_match; [done|]. intros [= <-] x.
  rewrite elem_of_union_list. unfold recorded, WalletStateSyncRecord.blocks_and_data_to_set. split.
  - intros (X & (r & -> & Hr)%list_elem_of_fmap & Hx).
    apply list_elem_of_filter in Hr as [Hreach Hr].
    apply list_elem_of_fmap in Hr as ([p r'] & -> & Hin).
    apply elem_of_map_to_list in Hin. apply elem_of_list_to_set in Hx. by exists p, r'.
  - intros (p & r & Hp & Hreach & Hx). eexists. split; [apply list_elem_of_fmap_2|by apply elem_of_list_to_set].
    apply list_elem_of_filter. split; [done|]. apply (list_elem_of_fmap_2 snd _ (p, r)).
    by apply elem_of_map_to_list.
Qed.

(** ** Chunks after the first *)

Abbreviation pairs r := (zip (sy_blocks r) (sy_data r)).
Abbreviation append_all := (foldl (λ r '(block, chunk),
  WalletStateSyncRecord.append_data_with_block chunk block r)).

(** A pegout is added when neither it nor its block number is there. *)
Lemma add_data_pairs p d b r :
  record_ok p r →
  pairs (WalletStateSyncRecord.append_data_with_block d b r) =
    if decide (d ∈ sy_data r ∨ b ∈ sy_blocks r) then pairs r else pairs r ++ [(b, d)].
Proof.
  intros [_ Hl]. unfold WalletStateSyncRecord.append_data_with_block,
    WalletStateSyncRecord.add_data_if_not_exists.
  destruct (existsb (λ x, bool_decide (x = d)) (sy_data r)) eqn:Hd.
  { apply existsb_exists in Hd as (x & Hx%list_elem_of_In & Hxd). bool_to_prop.
    rewrite decide_True by naive_solver. done. }
  destruct (existsb (λ x, x =? b) (sy_blocks r)) eqn:Hb.
  { apply existsb_exists in Hb as (x & Hx%list_elem_of_In & Hxb). bool_to_prop. subst.
    rewrite decide_True by naive_solver. done. }
  rewrite decide_False; [simpl; by rewrite zip_with_app|].
  intros [Hin|Hin]; [rewrite <-not_true_iff_false, existsb_exists in Hd; apply Hd; exists d
                    |rewrite <-not_true_iff_false, existsb_exists in Hb; apply Hb; exists b].
  - split; [by apply list_elem_of_In|by apply bool_decide_eq_true_2].
  - split; [by apply list_elem_of_In|apply Z.eqb_refl].
Qed.
Lemma pairs_blocks p r b : record_ok p r → b ∈ sy_blocks r ↔ ∃ d, (b, d) ∈ pairs r.
Proof.
  intros [_ Hl]. rewrite <-(fst_zip (sy_blocks r) (sy_data r)) at 1 by lia.
  rewrite list_elem_of_fmap. split; [intros ([] & -> & ?); eauto|]. intros (d & Hd). by exists (b, d).
Qed.

(** A chunk that is appended to an answer adds at most one pegout per block,
    and none for a block that the answer already has: of two pegouts of one block
    that are not both in the first chunk, one is lost. *)
Theorem appended_chunk_one_per_block p l r b d d' :
  record_ok p r →
  (b, d) ∈ pairs (append_all r l) → (b, d') ∈ pairs (append_all r l) →
  ((b, d) ∈ pairs r ∧ (b, d') ∈ pairs r) ∨ ((b ∉ sy_blocks r) ∧ d = d').
Proof.
  revert r. induction l as [|[b1 d1] l IH]; intros r Hr Hd Hd'; simpl in *; [by left|].
  pose proof (add_data_ok p d1 b1 r Hr) as Hr1. fold (WalletStateSyncRecord.append_data_with_block d1 b1 r) in Hr1.
  specialize (IH _ Hr1 Hd Hd'). rewrite (pairs_blocks p _ _ Hr1), (add_data_pairs p _ _ _ Hr) in IH.
  rewrite (pairs_blocks p _ _ Hr). case_decide as Hin; [done|]. apply Decidable.not_or in Hin as [_ Hb].
  rewrite (pairs_blocks p _ _ Hr) in Hb. setoid_rewrite elem_of_app in IH.
  setoid_rewrite list_elem_of_singleton in IH. naive_solver.
Qed.

(** ** Checking against the chain *)

Lemma group_elements l b d :
  (∃ ds, WalletStateSync.group_by_block l !! b = Some ds ∧ d ∈ ds) ↔ (b, d) ∈ l.
Proof.
  unfold WalletStateSync.group_by_block.
  set (add := λ (m : gmap Z (list bytes)) '(block, data),
    <[block := default [] (m !! block) ++ [data]]> m).
  assert (∀ m, d ∈ default [] (foldl add m l !! b) ↔ (b, d) ∈ l ∨ d ∈ default [] (m !! b)) as Hgen.
  { induction l as [|[b' d'] l IH]; intros m; simpl; [by rewrite elem_of_nil; tauto|].
    rewrite IH, elem_of_cons. unfold add. destruct (decide (b = b')) as [->|Hne].
    - rewrite lookup_insert_eq. simpl. rewrite elem_of_app, list_elem_of_singleton. naive_solver.
    - rewrite lookup_insert_ne by done. naive_solver. }
  specialize (Hgen ∅). rewrite lookup_empty, elem_of_nil in Hgen.
  destruct (foldl add ∅ l !! b) as [ds|]; simpl in Hgen; [naive_solver|].
  rewrite elem_of_nil in Hgen. naive_solver.
Qed.

Section engine.
Context `{!Secp256k1, !PegLib, !Abi, !AbciLib, !SyncCodec, !UuidLib, Frost}.
Context {St : Type} `{!BtcServer St} {PE : Type}.
Context (contains_input : bytes → bytes → bool) (btc_network : Network) (frost_config : FrostConfig).
Context (chain : ChainView PE) (now : Z).

(** The pegouts of a block that is young enough, with the time of the block. *)
Definition pegouts_in (block : Z) (ps : list (PegoutId * Z)) : Prop :=
  get_block_pegouts contains_input chain now block btc_network
    (Some MAX_BLOCK_TS_CUTOFF_DURATION_SECS) = Ok ps.

Lemma pegouts_in_form block ps :
  pegouts_in block ps → ∃ ts, ∀ x, x ∈ ps → x.2 = ts ∧ 0 ≤ idx x.1 ≤ u32_max.
Proof.
  unfold pegouts_in, get_block_pegouts. intros Heq.
  apply rbind_ok in Heq as ([header|] & _ & Heq); [|done].
  exists (h_timestamp header). intros z Hz. repeat case_match; try (injection Heq as <-; set_solver).
  apply rbind_ok in Heq as ([txs|] & _ & Heq); apply rbind_ok in Heq as ([rs|] & _ & Heq); try done.
  injection Heq as <-. apply list_elem_of_bind in Hz as ([r tx] & Hz & _).
  apply list_elem_of_fmap in Hz as ([i q] & -> & _). split; [done|]. simpl. unfold u32_max.
  pose proof (Z.mod_pos_bound (Z.of_nat i) (2 ^ 32)). lia.
Qed.
Lemma find_pegout block ps id ts :
  pegouts_in block ps → find (λ p, bool_decide (p.1 = id)) ps = Some (id, ts) ↔ (id, ts) ∈ ps.
Proof.
  intros Hps. split.
  - intros [Hin _]%find_some. by apply list_elem_of_In.
  - intros Hin. destruct (find _ ps) as [[id' ts']|] eqn:Hf.
    + apply find_some in Hf as [Hin' Hid]. bool_to_prop. simpl in *. subst.
      apply list_elem_of_In in Hin'. destruct (pegouts_in_form _ _ Hps) as [t Ht].
      pose proof (proj1 (Ht _ Hin)). pose proof (proj1 (Ht _ Hin')). simpl in *. congruence.
    + apply list_elem_of_In in Hin. pose proof (find_none _ _ Hf _ Hin) as Hn. simpl in Hn.
      by rewrite bool_decide_eq_true_2 in Hn.
Qed.

Lemma hydrate_block_elements block ds here id ts :
  WalletStateSync.hydrate_block contains_input btc_network chain now block ds = Ok here →
  (id, ts) ∈ here ↔ ∃ ps item, pegouts_in block ps ∧ (id, ts) ∈ ps ∧ item ∈ ds ∧ from_bytes item = Ok id.
Proof.
  unfold WalletStateSync.hydrate_block. intros Heq. apply rbind_ok in Heq as (ps & Hps & [= <-]).
  rewrite list_elem_of_omap. split.
  - intros (item & Hitem & Hf). destruct (from_bytes item) as [id'| |] eqn:Hid; [|done..].
    assert (id' = id) as ->.
    { apply find_some in Hf as [_ Hp]. by bool_to_prop. }
    exists ps, item. split_and!; [done|by apply (find_pegout block)|done|done].
  - intros (ps' & item & Hps' & Hin & Hitem & Hid). exists item. split; [done|]. rewrite Hid.
    unfold pegouts_in in Hps'. rewrite Hps in Hps'. injection Hps' as <-. by apply (find_pegout block).
Qed.
Lemma hydrate_blocks_elements l h block x :
  WalletStateSync.hydrate_blocks contains_input btc_network chain now l = Ok h →
  (∃ xs, (block, xs) ∈ h ∧ x ∈ xs) ↔
  ∃ ds here, (block, ds) ∈ l ∧ x ∈ here ∧
    WalletStateSync.hydrate_block contains_input btc_network chain now block ds = Ok here.
Proof.
  revert h. induction l as [|[b ds] l IH]; intros h Heq; cbn [WalletStateSync.hydrate_blocks] in Heq.
  { injection Heq as <-. split; [intros (xs & Hin & _)|intros (ds & here & Hin & _)];
      by apply elem_of_nil in Hin. }
  apply rbind_ok in Heq as (here & Hhere & Heq). apply rbind_ok in Heq as (rest & Hrest & Heq).
  specialize (IH rest Hrest).
  assert (∀ xs, (block, xs) ∈ h ∧ x ∈ xs ↔
    (block = b ∧ xs = here ∧ x ∈ xs) ∨ ((block, xs) ∈ rest ∧ x ∈ xs)) as Hh.
  { intros xs. destruct here as [|y here]; injection Heq as <-.
    - split; [by right|]. intros [(_ & -> & Hx)|?]; [by apply elem_of_nil in Hx|done].
    - rewrite elem_of_cons. naive_solver. }
  setoid_rewrite Hh. clear Hh Heq. split.
  - intros (xs & [(-> & -> & Hx)|Hxs]); [exists ds, here; split; [left|done]|].
    destruct (proj1 IH (ex_intro _ xs Hxs)) as (ds' & here' & Hin & ?). exists ds', here'.
    split; [by right|done].
  - intros (ds' & here' & [[= -> ->]|Hin]%elem_of_cons & Hx & Hh).
    + rewrite Hhere in Hh. injection Hh as <-. exists here. by left.
    + destruct (proj2 IH) as (xs & Hxs); [by exists ds', here'|]. exists xs. by right.
Qed.

(** A pegout that is recorded of a peer, and that the chain has. *)
Definition known_paid (t : SyncTable) (f : RpcFinalizedPegout) : Prop :=
  ∃ item id ps, recorded t (rf_botanix_block_height f, item) ∧ from_bytes item = Ok id ∧
    pegouts_in (rf_botanix_block_height f) ps ∧ (id, rf_botanix_block_timestamp f) ∈ ps ∧
    rf_id f = as_bytes id.
Lemma chain_id_parses block ps id ts item :
  pegouts_in block ps → (id, ts) ∈ ps → from_bytes item = Ok id → from_bytes (as_bytes id) = Ok id.
Proof.
  intros Hps Hin Hid. destruct (pegouts_in_form _ _ Hps) as [ts' Hts].
  apply from_bytes_as_bytes_len; [|by apply (Hts _ Hin)]. unfold from_bytes in Hid.
  destruct (Nat.eqb_spec (length item) 36); [|done]. injection Hid as <-. simpl.
  rewrite length_take. lia.
Qed.
(** The ids of what is sent to the server. *)
Lemma known_paid_ids t id :
  (∃ f, known_paid t f ∧ from_bytes (rf_id f) = Ok id) ↔
  ∃ block item ts ps, recorded t (block, item) ∧ from_bytes item = Ok id ∧ pegouts_in block ps ∧ (id, ts) ∈ ps.
Proof.
  split.
  - intros (f & (item & id' & ps & Htold & Hitem & Hps & Hin & Hf) & Hid).
    rewrite Hf, (chain_id_parses _ _ _ _ _ Hps Hin Hitem) in Hid. injection Hid as ->.
    by exists (rf_botanix_block_height f), item, (rf_botanix_block_timestamp f), ps.
  - intros (block & item & ts & ps & Htold & Hitem & Hps & Hin).
    exists {| rf_id := as_bytes id; rf_botanix_block_height := block; rf_botanix_block_timestamp := ts |}.
    split; [by exists item, id, ps|]. by eapply chain_id_parses.
Qed.
Lemma request_elements n t s h :
  get_minimum_superset n t = (true, s) →
  WalletStateSync.hydrate_minimum_superset contains_input btc_network chain now s = Ok h →
  ∀ f, f ∈ WalletStateSync.finalized_pegouts h ↔ known_paid t f.
Proof.
  intros Hs Hh f. unfold WalletStateSync.hydrate_minimum_superset in Hh.
  assert (f ∈ WalletStateSync.finalized_pegouts h ↔ ∃ id, rf_id f = as_bytes id ∧
    ∃ xs, (rf_botanix_block_height f, xs) ∈ h ∧ (id, rf_botanix_block_timestamp f) ∈ xs) as ->.
  { unfold WalletStateSync.finalized_pegouts. rewrite list_elem_of_bind. split.
    - intros ([b xs] & Hf & Hin). apply list_elem_of_fmap in Hf as ([id ts] & -> & Hx).
      simpl. by exists id; split; [done|exists xs].
    - intros (id & Hid & xs & Hin & Hx). exists (rf_botanix_block_height f, xs). split; [|done].
      apply list_elem_of_fmap. exists (id, rf_botanix_block_timestamp f). split; [|done].
      destruct f; simpl in *. by rewrite Hid. }
  setoid_rewrite (hydrate_blocks_elements _ _ _ _ Hh). setoid_rewrite elem_of_map_to_list.
  unfold known_paid. split.
  - intros (id & Hid & ds & here & Hds & Hx & Hb).
    apply (hydrate_block_elements _ _ _ _ _ Hb) in Hx as (ps & item & Hps & Hin & Hitem & Hfrom).
    exists item, id, ps. split_and!; [|done..]. apply (superset_elements _ _ _ Hs), elem_of_elements.
    apply group_elements. by exists ds.
  - intros (item & id & ps & Htold & Hfrom & Hps & Hin & Hid). exists id. split; [done|].
    apply (superset_elements _ _ _ Hs), elem_of_elements, group_elements in Htold as (ds & Hds & Hitem).
    assert (∃ here, WalletStateSync.hydrate_block contains_input btc_network chain now
      (rf_botanix_block_height f) ds = Ok here) as [here Hhere].
    { unfold WalletStateSync.hydrate_block. unfold pegouts_in in Hps. rewrite Hps. by eexists. }
    exists ds, here. split_and!; [done| |done].
    apply (hydrate_block_elements _ _ _ _ _ Hhere). by exists ps, item.
Qed.

(** ** Messages *)

Abbreviation handle := (WalletStateSync.handle_message (St := St) contains_input btc_network
                          frost_config chain now).
(** How many peers have answered. *)
Definition answers (t : SyncTable) : Z :=
  Z.of_nat (length (filter (λ r, reached r = true) (get_state_sync_records t))).

(** The server is reset to what is recorded of the peers and the chain has. *)
Definition resets (t : SyncTable) (e e' : WalletStateSyncEngine St) : Prop :=
  ∃ l, sync_server e' = (srv_reset_wallet_state l (sync_server e)).2 ∧
    fc_min_signers frost_config ≤ answers t ∧ ∀ f, f ∈ l ↔ known_paid t f.
Lemma try_reset_cases (e : WalletStateSyncEngine St) :
  let '(r, e') := WalletStateSync.try_reset (St := St) contains_input btc_network frost_config chain now e in
  sync_server e' = sync_server e ∧ sync_records e' = sync_records e ∨
  resets (sync_records e) e e' ∧
    (sync_records e' = sync_records e ∨ sync_records e' = remove_all_state_sync_records (sync_records e)).
Proof.
  unfold WalletStateSync.try_reset, sbind, sget.
  destruct (get_minimum_superset _ _) as [[] s] eqn:Hs; [|by left].
  destruct (WalletStateSync.hydrate_minimum_superset _ _ _ _ s) as [h|err|] eqn:Hh; [|by left..].
  pose proof (request_elements _ _ _ _ Hs Hh) as Hl.
  assert (fc_min_signers frost_config ≤ answers (sync_records e)) as Hmin.
  { unfold get_minimum_superset in Hs. fold (answers (sync_records e)) in Hs.
    destruct (answers (sync_records e) <? fc_min_signers frost_config) eqn:Hlt; [done|].
    by bool_to_prop. }
  assert (∀ s', (srv_reset_wallet_state (WalletStateSync.finalized_pegouts h) (sync_server e)).2 = s' →
    ∀ e', sync_server e' = s' → resets (sync_records e) e e') as Hres.
  { intros s' Hs' e' He'. exists (WalletStateSync.finalized_pegouts h). by rewrite Hs'. }
  destruct (srv_reset_wallet_state _ (sync_server e)) as [[[]|err|] s'] eqn:Hsrv; right; (split; [by eapply Hres|]);
    [by right..|by left].
Qed.

(** What handling a message of a peer does. *)
Lemma handle_message_cases c e :
  let '(r, e') := handle c e in
  sync_server e' = sync_server e ∧ sync_records e' = sync_records e ∨
  ∃ uuid answer t, current_response_cycle e = Some uuid ∧
    WalletStateSync.record_answer uuid (mc_peer_id c) answer (sync_records e) = Some t ∧
    (sync_server e' = sync_server e ∧ sync_records e' = t ∨
     resets t e e' ∧ (sync_records e' = t ∨ sync_records e' = remove_all_state_sync_records t)).
Proof.
  unfold WalletStateSync.handle_message. destruct (mc_message c) as [| |w|]; [by left..| |by left].
  destruct (parse_uuid (ws_uuid w)) as [u|]; [|by left].
  destruct (ws_finalized_pegout_ids w); [by left|]. destruct (sync_decode _) as [answer|]; [|by left].
  unfold sbind at 1, sget. destruct (current_response_cycle e) as [uuid|] eqn:Hc; [|by left].
  case_bool_decide; [by left|].
  destruct (WalletStateSync.record_answer uuid _ answer (sync_records e)) as [t|] eqn:Ht; [|by left].
  unfold sbind at 1, smodify. pose proof (try_reset_cases (put_records t e)) as Hcases.
  destruct (WalletStateSync.try_reset _ _ _ _ _ (put_records t e)) as [r e'].
  right. exists uuid, answer, t. by split_and!.
Qed.

(** The invariant of the table. *)
Lemma handle_message_ok c e : table_ok (sync_records e) → table_ok (sync_records (handle c e).2).
Proof.
  intros Ht. pose proof (handle_message_cases c e) as Hc. destruct (handle c e) as [r e']. simpl.
  destruct Hc as [[_ ->]|(uuid & answer & t & _ & Ha & Hc)]; [done|].
  pose proof (record_answer_ok _ _ _ _ _ Ht Ha) as Ht'.
  destruct Hc as [[_ ->]|[_ [->| ->]]]; [done..|]. by rewrite remove_all_empty.
Qed.

(** An unfinished synchronization silences its peers.  While the record of a
    peer's answer to an earlier request is in the table, every message of the peer
    is ignored; and a new request leaves the records alone. *)
Theorem stale_answer_silences_peer c e r uuid epoch header fresh_uuid :
  sync_records e !! mc_peer_id c = Some r → current_response_cycle e = Some uuid →
  sy_uuid r ≠ uuid_to_b256 uuid →
  handle c e = (Ok tt, e) ∧
  sync_records (WalletStateSync.handle_commit (St := St) epoch header fresh_uuid e).2 = sync_records e.
Proof.
  intros Hr Hc Hne. split.
  - unfold WalletStateSync.handle_message. repeat case_match; try done.
    unfold sbind at 1, sget. rewrite Hc. case_bool_decide; [done|].
    unfold WalletStateSync.record_answer, get_state_sync_record_by_peer_id. rewrite Hr.
    by rewrite bool_decide_eq_true_2.
  - unfold WalletStateSync.handle_commit, sbind, slift. by destruct (is_poa_epoch _ _) as [[]| |]; simpl; [case_match|..].
Qed.
End engine.

(** ** The wallet behind the client *)

Lemma reset_finalized_dom fs d :
  dom (finalized_pegout_ids (reset_finalized_pegout_ids fs d)) = list_to_set (fin_id <$> fs) ∧
  pending_pegouts (reset_finalized_pegout_ids fs d) = pending_pegouts d ∧
  tracked_txs (reset_finalized_pegout_ids fs d) = tracked_txs d.
Proof.
  unfold reset_finalized_pegout_ids, clear_finalized_pegout_ids, store_finalized_pegout_ids,
    store_finalized_pegout_ids_atomically, store_finalized_pegout_id.
  assert (∀ m (d : Database.Db), finalized_pegout_ids (put_finalized m d) = m ∧
    pending_pegouts (put_finalized m d) = pending_pegouts d ∧
    tracked_txs (put_finalized m d) = tracked_txs d) as Hput by (by intros m []).
  assert (∀ fs, dom (insert_all_absent fin_id (λ f, f) fs (∅ : gmap PegoutId FinalizedPegout)) =
    list_to_set (fin_id <$> fs)) as Hdom.
  { intros l. rewrite insert_all_absent_dom. set_solver. }
  destruct fs as [|f [|f' fs]].
  - destruct (Hput ∅ d) as (-> & -> & ->). set_solver.
  - destruct (Hput (<[fin_id f := f]> (finalized_pegout_ids (put_finalized ∅ d))) (put_finalized ∅ d))
      as (-> & -> & ->). destruct (Hput ∅ d) as (-> & -> & ->). set_solver.
  - destruct (Hput (insert_all_absent fin_id (λ f, f) (f :: f' :: fs)
      (finalized_pegout_ids (put_finalized ∅ d))) (put_finalized ∅ d)) as (-> & -> & ->).
    destruct (Hput ∅ d) as (-> & -> & ->). by rewrite Hdom.
Qed.

Section wallet.
Context `{BitcoinLib, FrostSign, !DkgLib, Bdk, Hashing, Bitcoind, !BitcoindWallet, JwtLib, !JwtIssuer}.
Context `{!Secp256k1, !PegLib, !Abi, !AbciLib, !TextLib, !WireLib, !SyncCodec, !UuidLib}.
Context {PE : Type}.
Context (cfg : AppConfig) (env : Environment) (client_secret : option JwtSecret).
Context (contains_input : bytes → bytes → bool) (network : Network) (frost_config : FrostConfig).
Context (chain : ChainView PE) (now : Z).
#[local] Instance the_client : BtcServer Connected := BtcServerExtendedClient cfg env client_secret.

Lemma reset_wallet_state_cases clock req a r a' :
  App.reset_wallet_state cfg clock req a = (r, a') →
  a' = a ∨ ∃ ids, try_all App.parse_finalized_pegout (get_ref req) = Ok ids ∧
    a' = put_db (reset_finalized_pegout_ids ids (app_db a)) a.
Proof.
  unfold App.reset_wallet_state. intros Heq. unfold sbind at 1 in Heq.
  destruct (App.validate_jwt cfg clock req a) as [rv a1] eqn:Hv.
  apply validate_jwt_same in Hv as ->.
  destruct rv as [[]| |]; [|left; by injection Heq as _ <-..].
  unfold sbind, App.or_status, slift in Heq.
  destruct (try_all App.parse_finalized_pegout (get_ref req)) as [ids| |] eqn:Hids; simpl in Heq;
    [|left; by injection Heq as _ <-..].
  right. exists ids. split; [done|]. by injection Heq as _ <-.
Qed.
Lemma parsed_ids l ids id :
  try_all App.parse_finalized_pegout l = Ok ids →
  id ∈ (list_to_set (fin_id <$> ids) : gset PegoutId) ↔ ∃ f, f ∈ l ∧ from_bytes (rf_id f) = Ok id.
Proof.
  intros Hids%try_all_ok. rewrite elem_of_list_to_set, list_elem_of_fmap. split.
  - intros (x & -> & [i Hi]%list_elem_of_lookup).
    destruct (Forall2_lookup_r _ _ _ _ _ Hids Hi) as (f & Hf & Hp). exists f.
    split; [by eapply list_elem_of_lookup_2|]. unfold App.parse_finalized_pegout in Hp.
    by apply rbind_ok in Hp as (id' & Hid & [= <-]).
  - intros (f & [i Hi]%list_elem_of_lookup & Hf).
    destruct (Forall2_lookup_l _ _ _ _ _ Hids Hi) as (x & Hx & Hp). exists x.
    split; [|by eapply list_elem_of_lookup_2]. unfold App.parse_finalized_pegout in Hp.
    apply rbind_ok in Hp as (id' & Hid & [= <-]). simpl. congruence.
Qed.

(** The number of answered records that hold a pair. *)
Definition tellers (t : SyncTable) (x : Z * bytes) : Z :=
  Z.of_nat (length (filter (λ r, reached r = true ∧ x ∈ zip (sy_blocks r) (sy_data r))
                           (get_state_sync_records t))).
Lemma tellers_recorded t x : 0 < tellers t x → recorded t x.
Proof.
  unfold tellers. intros Hpos.
  destruct (filter _ (get_state_sync_records t)) as [|r l] eqn:Hf; [done|].
  assert (r ∈ filter (λ r, reached r = true ∧ x ∈ zip (sy_blocks r) (sy_data r))
    (get_state_sync_records t)) as Hr by (rewrite Hf; left).
  apply list_elem_of_filter in Hr as [[Hreach Hx] Hr].
  apply list_elem_of_fmap in Hr as ([p r'] & -> & Hin%elem_of_map_to_list). by exists p, r'.
Qed.

(** C33. Synchronization replaces the paid pegouts by what is recorded of the peers and
    the chain has.  Handling a message of a peer leaves the wallet server as it was, or,
    when the records of at least the minimum of signers count as answered, replaces its
    finalized pegouts such that every pegout in the new set is recorded of one of these
    peers at least, with a block, and is a burn in this block of the node's own chain,
    not older than the cutoff; and every such burn that is recorded of the minimum of
    signers is in the new set.  The pending and the tracked pegouts stay.  (A record may
    lack items that the peer sent; and the code takes a burn recorded of a single peer,
    which the trait's documentation does not: [superset_takes_single_records].) *)
Theorem wallet_sync_sets_paid_pegouts c e r e' :
  table_ok (sync_records e) →
  WalletStateSync.handle_message contains_input network frost_config chain now c e = (r, e') →
  let d := app_db (app (sync_server e)) in
  let d' := app_db (app (sync_server e')) in
  table_ok (sync_records e') ∧
  (d' = d ∨
   ∃ uuid answer t,
     current_response_cycle e = Some uuid ∧
     WalletStateSync.record_answer uuid (mc_peer_id c) answer (sync_records e) = Some t ∧
     fc_min_signers frost_config ≤ answers t ∧
     pending_pegouts d' = pending_pegouts d ∧ tracked_txs d' = tracked_txs d ∧
     (∀ id, id ∈ dom (finalized_pegout_ids d') →
        ∃ block item ts ps, recorded t (block, item) ∧ from_bytes item = Ok id ∧
          pegouts_in contains_input network chain now block ps ∧ (id, ts) ∈ ps) ∧
     (∀ id block item ts ps, 0 < tellers t (block, item) →
        fc_min_signers frost_config ≤ tellers t (block, item) → from_bytes item = Ok id →
        pegouts_in contains_input network chain now block ps → (id, ts) ∈ ps →
        id ∈ dom (finalized_pegout_ids d'))).
Proof.
  intros Ht Heq. cbv zeta.
  pose proof (handle_message_cases contains_input network frost_config chain now c e) as Hcases.
  pose proof (handle_message_ok contains_input network frost_config chain now c e Ht) as Hok.
  rewrite Heq in Hcases, Hok. split; [done|].
  destruct Hcases as [[-> _]|(uuid & answer & t & Hc & Ha & [[-> _]|[(l & Hs & Hmin & Hl) _]])]; [by left..|].
  cbn [srv_reset_wallet_state the_client BtcServerExtendedClient] in Hs.
  destruct (generate_method_app env client_secret
    (λ n, App.reset_wallet_state cfg (server_clock env n)) l (sync_server e)) as [Happ|(n & token & Happ)].
  { left. by rewrite Hs, Happ. }
  rewrite Hs, Happ. destruct (App.reset_wallet_state _ _ _ _) as [r' a'] eqn:Hrun. simpl.
  apply reset_wallet_state_cases in Hrun as [->|(ids & Hids & ->)]; [by left|right].
  exists uuid, answer, t. rewrite app_db_put.
  destruct (reset_finalized_dom ids (app_db (app (sync_server e)))) as (-> & -> & ->).
  assert (∀ id, id ∈ (list_to_set (fin_id <$> ids) : gset PegoutId) ↔
    ∃ block item ts ps, recorded t (block, item) ∧ from_bytes item = Ok id ∧
      pegouts_in contains_input network chain now block ps ∧ (id, ts) ∈ ps) as Hdom.
  { intros id. rewrite (parsed_ids _ _ _ Hids). setoid_rewrite Hl. apply known_paid_ids. }
  split_and!; try done; [intros id; apply Hdom|].
  intros id block item ts ps Hpos _ Hitem Hps Hin. apply Hdom. exists block, item, ts, ps.
  by split; [apply tellers_recorded|].
Qed.
End wallet.
