(* ===== verification/WalletSyncSample.v ===== *)
(** * A synchronization of two peers

    A wallet server that knows three pegouts as paid asks two peers that know the
    same three, and what it knows afterwards; the theorems of [WalletSyncTheory]
    at this synchronization. *)

From S2P Require Import Prelude Activation Bitcoin Psbt Database DatabaseTheory PegoutScheduler SchedulerTheory CoinSelection CoinSelectionTheory ValidatePsbt ValidateTheory Signing SigningTheory Codec Headers HeadersTheory Peg Mint MintTheory ChainRules HeaderRules Execution ExecutionTheory BlockBuilder BuilderTheory Abci AbciTheory.
From S2P Require Import PegoutValidation PegoutValidationTheory DkgEncryption Dkg DkgTheory RpcTypes Jwt Server ServerPegs ServerSample FrostSigning FrostTask FrostHistory ServerLink FrostTheory FrostSample WalletSync WalletSyncTheory.
Local Open Scope Z_scope.

Module SampleSync.
Import SampleCodec SampleServer SampleNode.

(** Pegouts 3, 4 and 5 are in block 1. *)
Definition chain : ChainView () := {|
  cv_receipt_by_hash _ := Ok None;
  cv_transaction_block _ := Ok None;
  cv_header_by_number _ := Ok None;
  cv_block_by_number _ := Ok (Some (SampleChain.header 100));
  cv_transactions_by_block _ := Ok (Some [replicate 32 3; replicate 32 4; replicate 32 5]);
  cv_receipts_by_block _ :=
    Ok (Some [SampleChain.receipt 3 40000; SampleChain.receipt 4 30000; SampleChain.receipt 5 20000]);
|}.
Definition paid (n : Z) : RpcFinalizedPegout :=
  {| rf_id := as_bytes (SampleDb.pid n); rf_botanix_block_height := 1;
     rf_botanix_block_timestamp := 100 |}.
(** The answer comes in two chunks. *)
Definition chunk (l : list RpcFinalizedPegout) (index : Z) : GetFinalizedPegoutIdsResponse :=
  {| data := l; chunk_index := index; total_chunks := 2; is_final := index =? 1 |}.
#[export] Instance codec : SyncCodec := {|
  sync_encode _ := None;
  sync_decode b := match b with
                   | [0] => Some (chunk [paid 3; paid 4] 0)
                   | [1] => Some (chunk [paid 5] 1)
                   | _ => None
                   end;
|}.
#[export] Instance uuids : UuidLib := {| parse_uuid b := Some b |}.

Definition finalized (n : Z) : FinalizedPegout :=
  {| fin_id := SampleDb.pid n; fin_block_number := 1; fin_timestamp := Some 100 |}.
Definition engine : WalletStateSyncEngine Connected := {|
  sync_records := ∅; current_response_cycle := Some [1];
  sync_server := {| app := member (store_finalized_pegout_ids (finalized <$> [3; 4; 5]) wallet);
                    round_trips := 2 |} |}.
Definition message (peer : Z) (part : bytes) : PeerMessageContext :=
  {| mc_peer_id := [peer]; mc_frost_identifier := Some peer;
     mc_message := PmWalletState {| ws_uuid := [1]; ws_finalized_pegout_ids := part |} |}.
Abbreviation items := WalletStateSync.items.
Definition handle (c : PeerMessageContext) : SM (WalletStateSyncEngine Connected) () () :=
  WalletStateSync.handle_message (λ _ _, true) NetRegtest frost_config chain 1000 c.
Definition known (e : WalletStateSyncEngine Connected) : list bytes :=
  (λ f, take 1 (pid_txid (fin_id f))) <$> get_finalized_pegout_ids (app_db (app (sync_server e))).
Definition after (l : list (Z * bytes)) : WalletStateSyncEngine Connected :=
  (sfor l (λ m, handle (message m.1 m.2)) engine).2.
End SampleSync.
Import SampleCodec SampleServer SampleNode SampleSync.

(** Both peers send all three pegouts, in two chunks each; the server is reset when
    both first chunks are there, and the last pegout is no longer known as paid.
    The second chunks become records of their own. *)
Example paid_pegout_forgotten :
  (known engine, known (after [(2, [0]); (3, [0]); (2, [1]); (3, [1])]),
   map_size (sync_records (after [(2, [0]); (3, [0]); (2, [1]); (3, [1])]))) =
  ([[3]; [4]; [5]], [[3]; [4]], 2%nat).
Proof. vm_compute. reflexivity. Qed.

(** Two records are required, each of the pegouts 3 and 5 is in one of them only, and
    all three pegouts are taken. *)
Example superset_takes_single_records :
  (λ x, bool_decide ((1, as_bytes (SampleDb.pid x)) ∈
     (get_minimum_superset 2 ({[[2] := WalletStateSyncRecord.new [2] (uuid_to_b256 [1]) 2
        (Some (items (chunk [paid 3; paid 4] 0)))]} ∪ {[[3] := WalletStateSyncRecord.new [3]
        (uuid_to_b256 [1]) 2 (Some (items (chunk [paid 4; paid 5] 0)))]})).2)) <$> [3; 4; 5] =
  [true; true; true].
Proof. vm_compute. reflexivity. Qed.

Lemma engine_ok : table_ok (sync_records engine).
Proof. apply map_Forall_empty. Qed.
Lemma after_ok l : table_ok (sync_records (after l)).
Proof.
  unfold after. generalize engine_ok. generalize engine. induction l as [|m l IH]; intros e He; [done|].
  cbn [sfor]. unfold sbind. pose proof (handle_message_ok (λ _ _, true) NetRegtest frost_config chain 1000
    (message m.1 m.2) e He) as Hok. unfold handle.
  destruct (WalletStateSync.handle_message _ _ _ _ _ _ e) as [[[]| |] e']; simpl in *; [by apply IH|done..].
Qed.
(** The second answer completes the synchronization. *)
Lemma wallet_sync_sets_paid_pegouts_witness :
  let e' := (handle (message 3 [0]) (after [(2, [0])])).2 in
  SampleDb.pid 4 ∈ dom (finalized_pegout_ids (app_db (app (sync_server e')))) ∧
  (SampleDb.pid 5 ∉ dom (finalized_pegout_ids (app_db (app (sync_server e'))))) ∧
  ∃ t block item, recorded t (block, item) ∧ from_bytes item = Ok (SampleDb.pid 4) ∧ 2 ≤ answers t.
Proof.
  set (e := after [(2, [0])]). cbv zeta.
  assert (SampleDb.pid 4 ∈ dom (finalized_pegout_ids (app_db (app (sync_server
    (handle (message 3 [0]) e).2))))) as H4 by decide_vm.
  split; [exact H4|]. split; [decide_vm|].
  destruct (wallet_sync_sets_paid_pegouts server_config env (Some [1; 2]) (λ _ _, true) NetRegtest
    frost_config chain 1000 (message 3 [0]) e (handle (message 3 [0]) e).1 (handle (message 3 [0]) e).2)
    as (_ & [Hsame|(uuid & answer & t & _ & _ & Hmin & _ & _ & Hsound & _)]).
  - apply after_ok.
  - apply surjective_pairing.
  - exfalso.
    assert (known (handle (message 3 [0]) e).2 = [[3]; [4]]) as Hk by (vm_compute; reflexivity).
    unfold known in Hk. rewrite Hsame in Hk.
    assert (known e = [[3]; [4]; [5]]) as He by (vm_compute; reflexivity).
    unfold known in He. rewrite Hk in He. discriminate He.
  - destruct (Hsound _ H4) as (block & item & ts & ps & Ht & Hitem & _).
    exists t, block, item. split; [exact Ht|]. split; [exact Hitem|exact Hmin].
Defined.

(** After that, a new request finds the peer silenced. *)
Definition stuck : WalletStateSyncEngine Connected :=
  put_cycle (Some [2]) (after [(2, [0]); (3, [0]); (2, [1]); (3, [1])]).
Definition retry : PeerMessageContext :=
  {| mc_peer_id := [2]; mc_frost_identifier := Some (2 : Identifier);
     mc_message := PmWalletState {| ws_uuid := [2]; ws_finalized_pegout_ids := [0] |} |}.
Lemma stale_answer_silences_peer_witness :
  handle retry stuck = (Ok tt, stuck) ∧ sync_records stuck ≠ ∅.
Proof.
  destruct (sync_records stuck !! mc_peer_id retry) as [r|] eqn:Hr.
  2: { exfalso. apply (f_equal (fmap sy_uuid)) in Hr. vm_compute in Hr. discriminate Hr. }
  assert (sy_uuid r = uuid_to_b256 [1]) as Hu.
  { apply (inj Some). apply (f_equal (fmap sy_uuid)) in Hr. cbn [fmap option_fmap option_map] in Hr.
    rewrite <-Hr. vm_compute. reflexivity. }
  split; [|intros He; rewrite He, lookup_empty in Hr; discriminate Hr].
  refine (proj1 (stale_answer_silences_peer (λ _ _, true) NetRegtest frost_config chain 1000 retry stuck r
    [2] 1 (SampleChain.header 100) [3] Hr eq_refl _)).
  rewrite Hu. intros Heq. apply (f_equal head) in Heq. discriminate Heq.
Defined.

(** Of the pegouts 4 and 5 of one block in a later chunk, only the first is kept. *)
Definition first_chunk : WalletStateSyncRecord :=
  WalletStateSyncRecord.new [2] (uuid_to_b256 [1]) 2 (Some [(7, as_bytes (SampleDb.pid 3))]).
Definition both_chunks : WalletStateSyncRecord := append_all first_chunk (items (chunk [paid 4; paid 5] 1)).
Lemma appended_chunk_one_per_block_witness :
  (1, as_bytes (SampleDb.pid 4)) ∈ pairs both_chunks ∧
  ((1, as_bytes (SampleDb.pid 5)) ∉ pairs both_chunks) ∧ (1 ∉ sy_blocks first_chunk).
Proof.
  assert ((1, as_bytes (SampleDb.pid 4)) ∈ pairs both_chunks) as H4 by decide_vm.
  split; [exact H4|]. split; [decide_vm|].
  destruct (appended_chunk_one_per_block [2] (items (chunk [paid 4; paid 5] 1)) first_chunk 1
    (as_bytes (SampleDb.pid 4)) (as_bytes (SampleDb.pid 4))) as [[Hin _]|[Hb _]].
  - split; reflexivity.
  - exact H4.
  - exact H4.
  - apply list_elem_of_singleton in Hin. discriminate Hin.
  - exact Hb.
Defined.
