(* ===== verification/FrostMessages.v ===== *)
(** * Messages between the members of the federation

    [crates/net/network/src/frost/messages.rs]: the wire format of the frost
    protocol.  [encoded] writes a message, [decode_message] reads one from a cursor;
    indexing, slicing and [advance] behind the end panic, as they do in Rust, so that
    it is a theorem that no bytes of a peer make the decoder panic. *)

From S2P Require Import Prelude Psbt FrostSigning.

(** [PeerId::to_string], [PeerId::from_str], and whether bytes are a string. *)
Class PeerText := {
  peer_to_string : PeerId → bytes;
  peer_from_str : bytes → option PeerId;
  is_utf8 : bytes → bool;
}.
(** The text of a peer id (64 bytes) is short and read back. *)
Class PeerTextLaws `{PeerText} : Prop := {
  peer_text_roundtrip p : length p = 64%nat → peer_from_str (peer_to_string p) = Some p;
  peer_text_utf8 p : is_utf8 (peer_to_string p) = true;
  peer_text_short p : Z.of_nat (length (peer_to_string p)) ≤ u16_max;
  peer_from_str_size s p : peer_from_str s = Some p → length p = 64%nat;
}.

Definition MESSAGE_VERSION : Z := 0.
Definition WALLET_STATE_MESSAGE_VERSION : Z := 0.

Module DkgRequest.
Record DkgRequest := { version : Z; data : bytes; sender : bytes; recipient : bytes }.
Definition new (data sender recipient : bytes) : DkgRequest :=
  {| version := MESSAGE_VERSION mod (u16_max + 1); data := data; sender := sender;
     recipient := recipient |}.
End DkgRequest.
Import DkgRequest (DkgRequest).

Module SignRequest.
Record SignRequest := { version : Z; signing_session_id : bytes; psbt : bytes }.
Definition new (signing_session_id psbt : bytes) : SignRequest :=
  {| version := MESSAGE_VERSION mod (u16_max + 1);
     signing_session_id := signing_session_id; psbt := psbt |}.
End SignRequest.
Import SignRequest (SignRequest).

Module WalletStateRequest.
Record WalletStateRequest := { uuid : bytes; version : Z; finalized_pegout_ids : bytes }.
Definition new (uuid finalized_pegout_ids : bytes) : WalletStateRequest :=
  {| version := WALLET_STATE_MESSAGE_VERSION mod (u16_max + 1);
     finalized_pegout_ids := finalized_pegout_ids; uuid := uuid |}.
End WalletStateRequest.
Import WalletStateRequest (WalletStateRequest).

Inductive FrostProtoMessageId :=
  | IdDkg | IdPing | IdPong | IdPingMessage | IdPongMessage
  | IdSignerRound1SigningPackage | IdCoordinatorRound1SigningPackage
  | IdSignerRound2SigningPackage | IdCoordinatorRound2SigningPackage
  | IdWalletState.
#[export] Instance FrostProtoMessageId_eq_dec : EqDecision FrostProtoMessageId.
Proof. solve_decision. Defined.

(** [message_type as u8]: the discriminants of the enum. *)
Definition id_as_u8 (i : FrostProtoMessageId) : Z :=
  match i with
  | IdDkg => 0x00 | IdPing => 0x02 | IdPong => 0x03
  | IdPingMessage => 0x04 | IdPongMessage => 0x05
  | IdSignerRound1SigningPackage => 0x06 | IdCoordinatorRound1SigningPackage => 0x07
  | IdSignerRound2SigningPackage => 0x08 | IdCoordinatorRound2SigningPackage => 0x09
  | IdWalletState => 0x0B
  end.

Inductive FrostProtoMessageKind :=
  | KDkg (r : DkgRequest)
  | KPing
  | KPong
  | KPingMessage (p : PeerId)
  | KPongMessage (p : PeerId)
  | KSignerRound1SigningPackage (r : SignRequest)
  | KCoordinatorRound1SigningPackage (r : SignRequest)
  | KSignerRound2SigningPackage (r : SignRequest)
  | KCoordinatorRound2SigningPackage (r : SignRequest)
  | KWalletState (r : WalletStateRequest).

Module FrostProtoMessage.
Record FrostProtoMessage := {
  message_type : FrostProtoMessageId;
  message : FrostProtoMessageKind;
}.

Definition ping : FrostProtoMessage := {| message_type := IdPing; message := KPing |}.
Definition pong : FrostProtoMessage := {| message_type := IdPong; message := KPong |}.
Definition ping_message (peer_id : PeerId) : FrostProtoMessage :=
  {| message_type := IdPingMessage; message := KPingMessage peer_id |}.
Definition pong_message (peer_id : PeerId) : FrostProtoMessage :=
  {| message_type := IdPongMessage; message := KPongMessage peer_id |}.
Definition dkg_request_message (resource : DkgRequest) : FrostProtoMessage :=
  {| message_type := IdDkg; message := KDkg resource |}.
Definition round1_signer_package_message (resource : SignRequest) : FrostProtoMessage :=
  {| message_type := IdSignerRound1SigningPackage;
     message := KSignerRound1SigningPackage resource |}.
Definition round1_coordinator_signing_package_message (resource : SignRequest) : FrostProtoMessage :=
  {| message_type := IdCoordinatorRound1SigningPackage;
     message := KCoordinatorRound1SigningPackage resource |}.
Definition round2_signer_package_message (resource : SignRequest) : FrostProtoMessage :=
  {| message_type := IdSignerRound2SigningPackage;
     message := KSignerRound2SigningPackage resource |}.
Definition round2_coordinator_signing_package_message (resource : SignRequest) : FrostProtoMessage :=
  {| message_type := IdCoordinatorRound2SigningPackage;
     message := KCoordinatorRound2SigningPackage resource |}.
Definition wallet_state_message (resource : WalletStateRequest) : FrostProtoMessage :=
  {| message_type := IdWalletState; message := KWalletState resource |}.

(** ** Writing *)

(** [len() as u8], [as u16], [as u32] keep the low bytes. *)
Definition len {A} (l : list A) : Z := Z.of_nat (length l).
Definition put_u8 (z : Z) : bytes := to_le_bytes 1 z.
Definition put_u16_le (z : Z) : bytes := to_le_bytes 2 z.
Definition put_u32_le (z : Z) : bytes := to_le_bytes 4 z.

Section wire.
Context `{PeerText}.

Definition payload (k : FrostProtoMessageKind) : bytes :=
  match k with
  | KDkg r =>
      put_u8 (len (DkgRequest.sender r)) ++ DkgRequest.sender r ++
      put_u8 (len (DkgRequest.recipient r)) ++ DkgRequest.recipient r ++
      put_u32_le (len (DkgRequest.data r)) ++ DkgRequest.data r
  | KPing | KPong => []
  | KPingMessage peer_id | KPongMessage peer_id =>
      put_u16_le (len (peer_to_string peer_id)) ++ peer_to_string peer_id
  | KSignerRound1SigningPackage r | KSignerRound2SigningPackage r
  | KCoordinatorRound1SigningPackage r | KCoordinatorRound2SigningPackage r =>
      put_u32_le (len (SignRequest.signing_session_id r)) ++ SignRequest.signing_session_id r ++
      put_u32_le (len (SignRequest.psbt r)) ++ SignRequest.psbt r
  | KWalletState r =>
      put_u32_le (len (WalletStateRequest.uuid r)) ++ WalletStateRequest.uuid r ++
      put_u16_le (WalletStateRequest.version r) ++
      put_u32_le (len (WalletStateRequest.finalized_pegout_ids r)) ++
      WalletStateRequest.finalized_pegout_ids r
  end.
Definition encoded (m : FrostProtoMessage) : bytes :=
  put_u8 (id_as_u8 (message_type m)) ++ payload (message m).

(** ** Reading: a cursor over the bytes; [Err] is [None] *)

Abbreviation Reader := (SM bytes ()).

(** [if buf.len() < n { return None; }] *)
Definition require (n : Z) : Reader () := λ buf,
  if len buf <? n then (Err tt, buf) else (Ok tt, buf).
(** [buf[0]] *)
Definition first_byte : Reader Z := λ buf,
  match buf with b :: _ => (Ok b, buf) | [] => (Panic, buf) end.
(** [buf[..n].to_vec()] *)
Definition slice_to (n : Z) : Reader bytes := λ buf,
  if n <=? len buf then (Ok (take (Z.to_nat n) buf), buf) else (Panic, buf).
(** [buf.advance(n)] *)
Definition advance (n : Z) : Reader () := λ buf,
  if n <=? len buf then (Ok tt, drop (Z.to_nat n) buf) else (Panic, buf).

Definition get_u8 : Reader Z :=
  require 1 ;;* let* b := first_byte in advance 1 ;;* sret b.
(** [u32::from_le_bytes] and [u16::from_le_bytes] of the first bytes *)
Definition get_le (n : Z) : Reader Z :=
  require n ;;* let* x := slice_to n in advance n ;;* sret (from_le_bytes x).
Definition get_vec (n : Z) : Reader bytes :=
  require n ;;* let* x := slice_to n in advance n ;;* sret x.
(** [String::from_utf8] of the next bytes, then [advance] *)
Definition get_str (n : Z) : Reader bytes :=
  require n ;;*
  let* x := slice_to n in
  if is_utf8 x then advance n ;;* sret x else slift (Err tt).

Definition decode_dkg : Reader FrostProtoMessageKind :=
  let* sender_len := get_u8 in
  let* sender := get_vec sender_len in
  let* recipient_len := get_u8 in
  let* recipient := get_vec recipient_len in
  let* data_len := get_le 4 in
  let* data := get_vec data_len in
  sret (KDkg (DkgRequest.new data sender recipient)).

Definition decode_peer : Reader PeerId :=
  let* peer_id_len := get_le 2 in
  require peer_id_len ;;*
  let* x := slice_to peer_id_len in
  if is_utf8 x then
    let* peer_id := slift (ok_or (peer_from_str x) tt) in
    advance peer_id_len ;;* sret peer_id
  else slift (Err tt).

Definition decode_sign : Reader SignRequest :=
  let* session_id_len := get_le 4 in
  let* signing_session_id := get_vec session_id_len in
  let* psbt_len := get_le 4 in
  let* psbt := get_vec psbt_len in
  sret (SignRequest.new signing_session_id psbt).

Definition decode_wallet_state : Reader FrostProtoMessageKind :=
  let* uuid_len := get_le 4 in
  let* uuid := get_str uuid_len in
  let* version := get_le 2 in
  let* finalized_pegout_ids_len := get_le 4 in
  let* finalized_pegout_ids := get_vec finalized_pegout_ids_len in
  sret (KWalletState {| WalletStateRequest.uuid := uuid; WalletStateRequest.version := version;
                        WalletStateRequest.finalized_pegout_ids := finalized_pegout_ids |}).

Definition message_id (id : Z) : option FrostProtoMessageId :=
  match id with
  | 0x00 => Some IdDkg | 0x02 => Some IdPing | 0x03 => Some IdPong
  | 0x04 => Some IdPingMessage | 0x05 => Some IdPongMessage
  | 0x06 => Some IdSignerRound1SigningPackage | 0x07 => Some IdCoordinatorRound1SigningPackage
  | 0x08 => Some IdSignerRound2SigningPackage | 0x09 => Some IdCoordinatorRound2SigningPackage
  | 0x0B => Some IdWalletState
  | _ => None
  end.

Definition decode_kind (message_type : FrostProtoMessageId) : Reader FrostProtoMessageKind :=
  match message_type with
  | IdDkg => decode_dkg
  | IdPing => sret KPing
  | IdPong => sret KPong
  | IdPingMessage => let* p := decode_peer in sret (KPingMessage p)
  | IdPongMessage => let* p := decode_peer in sret (KPongMessage p)
  | IdSignerRound1SigningPackage =>
      let* r := decode_sign in sret (KSignerRound1SigningPackage r)
  | IdCoordinatorRound1SigningPackage =>
      let* r := decode_sign in sret (KCoordinatorRound1SigningPackage r)
  | IdSignerRound2SigningPackage =>
      let* r := decode_sign in sret (KSignerRound2SigningPackage r)
  | IdCoordinatorRound2SigningPackage =>
      let* r := decode_sign in sret (KCoordinatorRound2SigningPackage r)
  | IdWalletState => decode_wallet_state
  end.

Definition decode_message : Reader FrostProtoMessage :=
  let* id := get_u8 in
  let* message_type := slift (ok_or (message_id id) tt) in
  let* message := decode_kind message_type in
  sret {| message_type := message_type; message := message |}.
End wire.
End FrostProtoMessage.
