(* ===== verification/FrostMessagesTheory.v ===== *)
(** * The wire format of the frost protocol: theorems

    A message that fits the widths of its length fields is read back, with the bytes
    behind it left over; whatever a peer sends, reading it does not panic, and what
    is read has one encoding (peer ids apart, which have several texts). *)

From S2P Require Import Prelude Psbt FrostSigning FrostMessages.
Import FrostProtoMessage.

(** ** Messages that fit *)

Definition kind_id (k : FrostProtoMessageKind) : FrostProtoMessageId :=
  match k with
  | KDkg _ => IdDkg | KPing => IdPing | KPong => IdPong
  | KPingMessage _ => IdPingMessage | KPongMessage _ => IdPongMessage
  | KSignerRound1SigningPackage _ => IdSignerRound1SigningPackage
  | KCoordinatorRound1SigningPackage _ => IdCoordinatorRound1SigningPackage
  | KSignerRound2SigningPackage _ => IdSignerRound2SigningPackage
  | KCoordinatorRound2SigningPackage _ => IdCoordinatorRound2SigningPackage
  | KWalletState _ => IdWalletState
  end.
Definition sign_fits (r : SignRequest.SignRequest) : Prop :=
  SignRequest.version r = 0 ∧ len (SignRequest.signing_session_id r) ≤ u32_max ∧
  len (SignRequest.psbt r) ≤ u32_max.
Definition kind_fits `{PeerText} (k : FrostProtoMessageKind) : Prop :=
  match k with
  | KDkg r => DkgRequest.version r = 0 ∧ len (DkgRequest.sender r) ≤ 255 ∧
      len (DkgRequest.recipient r) ≤ 255 ∧ len (DkgRequest.data r) ≤ u32_max
  | KPing | KPong => True
  | KPingMessage p | KPongMessage p => length p = 64%nat
  | KSignerRound1SigningPackage r | KCoordinatorRound1SigningPackage r
  | KSignerRound2SigningPackage r | KCoordinatorRound2SigningPackage r => sign_fits r
  | KWalletState r =>
      is_utf8 (WalletStateRequest.uuid r) = true ∧ len (WalletStateRequest.uuid r) ≤ u32_max ∧
      0 ≤ WalletStateRequest.version r ≤ u16_max ∧
      len (WalletStateRequest.finalized_pegout_ids r) ≤ u32_max
  end.
Definition fits `{PeerText} (m : FrostProtoMessage) : Prop :=
  message_type m = kind_id (message m) ∧ kind_fits (message m).
(** The messages that carry the text of a peer id. *)
Definition carries_peer (k : FrostProtoMessageKind) : bool :=
  match k with KPingMessage _ | KPongMessage _ => true | _ => false end.

(** ** Readers *)

Lemma len_app {A} (x y : list A) : len (x ++ y) = len x + len y.
Proof. unfold len. rewrite length_app. lia. Qed.
Lemma len_nonneg {A} (x : list A) : 0 ≤ len x.
Proof. unfold len. lia. Qed.

Lemma require_eq n buf : require n buf = if len buf <? n then (Err tt, buf) else (Ok tt, buf).
Proof. done. Qed.

Lemma get_vec_eq n buf :
  get_vec n buf = if len buf <? n then (Err tt, buf)
                  else (Ok (take (Z.to_nat n) buf), drop (Z.to_nat n) buf).
Proof.
  unfold get_vec, sbind, require, slice_to, advance. destruct (Z.ltb_spec (len buf) n); [done|].
  assert ((n <=? len buf) = true) as He by lia. by rewrite He, He.
Qed.
Lemma get_le_eq n buf :
  get_le n buf = if len buf <? n then (Err tt, buf)
                 else (Ok (from_le_bytes (take (Z.to_nat n) buf)), drop (Z.to_nat n) buf).
Proof.
  unfold get_le, sbind, require, slice_to, advance. destruct (Z.ltb_spec (len buf) n); [done|].
  assert ((n <=? len buf) = true) as He by lia. by rewrite He, He.
Qed.
Lemma get_u8_eq buf :
  get_u8 buf = match buf with [] => (Err tt, []) | b :: rest => (Ok b, rest) end.
Proof.
  destruct buf as [|b rest]; [done|]. unfold get_u8, sbind, require, first_byte, advance.
  assert ((len (b :: rest) <? 1) = false ∧ (1 <=? len (b :: rest)) = true) as [Hl Hg]
    by (unfold len; rewrite length_cons; split; [apply Z.ltb_ge|apply Z.leb_le]; lia).
  by rewrite Hl, Hg.
Qed.
Lemma get_str_eq `{PeerText} n buf :
  get_str n buf = if len buf <? n then (Err tt, buf)
                  else if is_utf8 (take (Z.to_nat n) buf)
                  then (Ok (take (Z.to_nat n) buf), drop (Z.to_nat n) buf) else (Err tt, buf).
Proof.
  unfold get_str, sbind, require, slice_to, advance. destruct (Z.ltb_spec (len buf) n); [done|].
  assert ((n <=? len buf) = true) as He by lia. rewrite He. destruct is_utf8; [by rewrite He|done].
Qed.

Lemma len_le_app {A} (x rest : list A) : len x ≤ len (x ++ rest).
Proof. rewrite len_app. pose proof (len_nonneg rest). lia. Qed.
Lemma require_app (x rest : bytes) : require (len x) (x ++ rest) = (Ok tt, x ++ rest).
Proof. unfold require. by rewrite (proj2 (Z.ltb_ge _ _)) by apply len_le_app. Qed.
Lemma slice_to_app x rest : slice_to (len x) (x ++ rest) = (Ok x, x ++ rest).
Proof.
  unfold slice_to. rewrite (proj2 (Z.leb_le _ _)) by apply len_le_app.
  unfold len. by rewrite Nat2Z.id, take_app_length.
Qed.
Lemma advance_app x rest : advance (len x) (x ++ rest) = (Ok tt, rest).
Proof.
  unfold advance. rewrite (proj2 (Z.leb_le _ _)) by apply len_le_app.
  unfold len. by rewrite Nat2Z.id, drop_app_length.
Qed.

Lemma sbind_step {S E A B} (m : SM S E A) (k : A → SM S E B) s a s1 :
  m s = (Ok a, s1) → sbind m k s = k a s1.
Proof. unfold sbind. by intros ->. Qed.
Ltac step_by lem := erewrite sbind_step by lem; cbv beta.

Lemma get_vec_app x rest n : n = len x → get_vec n (x ++ rest) = (Ok x, rest).
Proof.
  intros ->. unfold get_vec.
  step_by ltac:(apply require_app). step_by ltac:(apply slice_to_app).
  by step_by ltac:(apply advance_app).
Qed.
Lemma get_str_app `{PeerText} x rest n :
  n = len x → is_utf8 x = true → get_str n (x ++ rest) = (Ok x, rest).
Proof.
  intros -> Hu. unfold get_str.
  step_by ltac:(apply require_app). step_by ltac:(apply slice_to_app). rewrite Hu.
  by step_by ltac:(apply advance_app).
Qed.
Lemma get_le_app k z rest n :
  n = Z.of_nat k → 0 ≤ z < 256 ^ Z.of_nat k →
  get_le n (to_le_bytes k z ++ rest) = (Ok z, rest).
Proof.
  intros -> Hz. rewrite get_le_eq, len_app. pose proof (len_nonneg rest).
  unfold len at 1. rewrite length_to_le_bytes, (proj2 (Z.ltb_ge _ _)) by lia. rewrite Nat2Z.id.
  rewrite take_app_length', drop_app_length' by (by rewrite length_to_le_bytes).
  by rewrite from_to_le_bytes.
Qed.
Lemma get_u8_app z rest : 0 ≤ z < 256 → get_u8 (put_u8 z ++ rest) = (Ok z, rest).
Proof. intros Hz. rewrite get_u8_eq. simpl. by rewrite Z.mod_small. Qed.

(** Read the next field of bytes that start with it. *)
Ltac read_field :=
  rewrite <-?app_assoc;
  erewrite sbind_step by
    (first [ apply get_u8_app; unfold len, u32_max, u16_max in *; lia
            | apply get_le_app; [done|unfold len, u32_max, u16_max in *; lia]
            | apply get_vec_app; done
            | apply get_str_app; done ]); cbv beta.

(** ** Round trips *)

Section theory.
Context `{PeerText}.

Lemma decode_sign_encoded r rest :
  sign_fits r →
  decode_sign (put_u32_le (len (SignRequest.signing_session_id r)) ++
    SignRequest.signing_session_id r ++ put_u32_le (len (SignRequest.psbt r)) ++
    SignRequest.psbt r ++ rest) = (Ok r, rest).
Proof.
  intros (Hv & ? & ?). unfold decode_sign, put_u32_le. do 4 read_field.
  destruct r; simpl in *; subst; done.
Qed.

Lemma decode_dkg_encoded r rest :
  kind_fits (KDkg r) →
  decode_dkg (put_u8 (len (DkgRequest.sender r)) ++ DkgRequest.sender r ++
    put_u8 (len (DkgRequest.recipient r)) ++ DkgRequest.recipient r ++
    put_u32_le (len (DkgRequest.data r)) ++ DkgRequest.data r ++ rest) = (Ok (KDkg r), rest).
Proof.
  intros (Hv & ? & ? & ?). unfold decode_dkg, put_u32_le. do 6 read_field.
  destruct r; simpl in *; subst; done.
Qed.

Lemma decode_wallet_state_encoded r rest :
  kind_fits (KWalletState r) →
  decode_wallet_state (put_u32_le (len (WalletStateRequest.uuid r)) ++ WalletStateRequest.uuid r ++
    put_u16_le (WalletStateRequest.version r) ++
    put_u32_le (len (WalletStateRequest.finalized_pegout_ids r)) ++
    WalletStateRequest.finalized_pegout_ids r ++ rest) = (Ok (KWalletState r), rest).
Proof.
  intros (Hu & ? & ? & ?). unfold decode_wallet_state, put_u32_le, put_u16_le. do 5 read_field.
  by destruct r.
Qed.

Lemma decode_peer_encoded `{!PeerTextLaws} p rest :
  length p = 64%nat →
  decode_peer (put_u16_le (len (peer_to_string p)) ++ peer_to_string p ++ rest) = (Ok p, rest).
Proof.
  intros Hp. pose proof (peer_text_short p). unfold decode_peer, put_u16_le. read_field.
  step_by ltac:(apply require_app). step_by ltac:(apply slice_to_app). rewrite peer_text_utf8.
  step_by ltac:(unfold slift; by rewrite peer_text_roundtrip).
  by step_by ltac:(apply advance_app).
Qed.

Lemma message_id_as_u8 i : message_id (id_as_u8 i) = Some i.
Proof. by destruct i. Qed.
Lemma id_as_u8_range i : 0 ≤ id_as_u8 i < 256.
Proof. destruct i; simpl; lia. Qed.

Lemma decode_kind_payload `{!PeerTextLaws} k rest :
  kind_fits k → decode_kind (kind_id k) (payload k ++ rest) = (Ok k, rest).
Proof.
  destruct k as [r| | |p|p|r|r|r|r|r]; intros Hk; cbn [kind_id decode_kind payload];
    rewrite <-?app_assoc; try done;
    first [ by apply decode_dkg_encoded | by apply decode_wallet_state_encoded
          | by step_by ltac:(by apply decode_peer_encoded)
          | by step_by ltac:(by apply decode_sign_encoded) ].
Qed.

(** A message whose type fits its content and whose fields fit the widths of
    their length fields is read back from its encoding, with whatever bytes follow. *)
Lemma decode_message_encoded `{!PeerTextLaws} (m : FrostProtoMessage) (rest : bytes) :
  fits m → decode_message (encoded m ++ rest) = (Ok m, rest).
Proof.
  destruct m as [ty k]. intros [Hty Hk]. simpl in Hty, Hk. subst ty.
  unfold decode_message, encoded. simpl message_type. simpl message. rewrite <-app_assoc.
  step_by ltac:(apply get_u8_app, id_as_u8_range).
  step_by ltac:(unfold slift; by rewrite message_id_as_u8).
  by step_by ltac:(by apply decode_kind_payload).
Qed.

(** ** Whatever a peer sends *)

Definition no_panic {A} (r : SM bytes () A) : Prop := ∀ buf, (r buf).1 ≠ Panic.

Lemma no_panic_bind {A B} (m : SM bytes () A) (k : A → SM bytes () B) :
  no_panic m → (∀ a, no_panic (k a)) → no_panic (sbind m k).
Proof.
  intros Hm Hk buf. unfold sbind. specialize (Hm buf). destruct (m buf) as [[a|e|] s]; simpl in *;
    [apply Hk|done|done].
Qed.
Lemma no_panic_ret {A} (a : A) : no_panic (sret a).
Proof. done. Qed.
Lemma no_panic_lift {A} (o : option A) : no_panic (slift (ok_or o tt)).
Proof. by destruct o. Qed.
Lemma no_panic_fail {A} : no_panic (slift (Err tt) : SM bytes () A).
Proof. done. Qed.
Lemma no_panic_get_u8 : no_panic get_u8.
Proof. intros buf. rewrite get_u8_eq. by destruct buf. Qed.
Lemma no_panic_get_le n : no_panic (get_le n).
Proof. intros buf. rewrite get_le_eq. by destruct (_ <? _). Qed.
Lemma no_panic_get_vec n : no_panic (get_vec n).
Proof. intros buf. rewrite get_vec_eq. by destruct (_ <? _). Qed.
Lemma no_panic_get_str n : no_panic (get_str n).
Proof. intros buf. rewrite get_str_eq. destruct (_ <? _); [done|]. by destruct is_utf8. Qed.
#[local] Hint Resolve no_panic_ret no_panic_lift no_panic_fail no_panic_get_u8
  no_panic_get_le no_panic_get_vec no_panic_get_str : macbeth.

Lemma peer_text_eq n buf :
  (require n ;;*
   let* x := slice_to n in
   if is_utf8 x then
     let* peer_id := slift (ok_or (peer_from_str x) tt) in advance n ;;* sret peer_id
   else slift (Err tt)) buf =
  if len buf <? n then (Err tt, buf)
  else let x := take (Z.to_nat n) buf in
    match (if is_utf8 x then peer_from_str x else None) with
    | Some p => (Ok p, drop (Z.to_nat n) buf)
    | None => (Err tt, buf)
    end.
Proof.
  unfold sbind at 1, require. destruct (Z.ltb_spec (len buf) n); [done|].
  assert ((n <=? len buf) = true) as He by lia. unfold sbind at 1, slice_to. rewrite He. simpl.
  destruct is_utf8; [|done]. unfold sbind, slift, advance. destruct peer_from_str; [|done]. simpl.
  by rewrite He.
Qed.
Lemma no_panic_decode_peer : no_panic decode_peer.
Proof.
  apply no_panic_bind; [apply no_panic_get_le|]. intros n buf. rewrite peer_text_eq.
  destruct (_ <? _); [done|]. simpl. by destruct (if is_utf8 _ then _ else _).
Qed.
#[local] Hint Resolve no_panic_decode_peer : macbeth.

Lemma no_panic_decode_message : no_panic decode_message.
Proof.
  assert (∀ i, no_panic (decode_kind i)) as Hk.
  { intros []; unfold decode_kind, decode_dkg, decode_sign, decode_wallet_state;
      repeat first [solve [auto 2 with macbeth] | apply no_panic_bind | intros ?]. }
  unfold decode_message.
  repeat first [solve [auto 2 with macbeth] | apply no_panic_bind | intros ?].
Qed.

(** *** What is read has one encoding *)

Lemma get_u8_ok buf z rest :
  Forall is_byte buf → get_u8 buf = (Ok z, rest) →
  0 ≤ z < 256 ∧ Forall is_byte rest ∧ buf = put_u8 z ++ rest.
Proof.
  rewrite get_u8_eq. destruct buf; [done|]. intros [Hz ?]%Forall_cons [= <- <-].
  unfold is_byte in Hz. split_and!; [lia|lia|done|]. simpl. by rewrite Z.mod_small.
Qed.
Lemma get_vec_ok buf n x rest :
  0 ≤ n → Forall is_byte buf → get_vec n buf = (Ok x, rest) →
  len x = n ∧ Forall is_byte rest ∧ buf = x ++ rest.
Proof.
  intros Hn Hb. rewrite get_vec_eq. destruct (Z.ltb_spec (len buf) n); [done|].
  intros [= <- <-]. split_and!; [|by apply Forall_drop|by rewrite take_drop].
  unfold len in *. rewrite length_take. lia.
Qed.
Lemma get_str_ok buf n x rest :
  0 ≤ n → Forall is_byte buf → get_str n buf = (Ok x, rest) →
  is_utf8 x = true ∧ len x = n ∧ Forall is_byte rest ∧ buf = x ++ rest.
Proof.
  intros Hn Hb. rewrite get_str_eq. intros Hg. destruct (is_utf8 (take _ _)) eqn:Hu.
  - rewrite <-get_vec_eq in Hg. pose proof Hg as Hg'. apply get_vec_ok in Hg' as (? & ? & ?); [|done..].
    split_and!; try done. rewrite get_vec_eq in Hg. destruct (_ <? _); [done|]. injection Hg as <- _. done.
  - by destruct (_ <? _).
Qed.
Lemma get_le_ok k buf z rest :
  Forall is_byte buf → get_le (Z.of_nat k) buf = (Ok z, rest) →
  0 ≤ z < 256 ^ Z.of_nat k ∧ Forall is_byte rest ∧ buf = to_le_bytes k z ++ rest.
Proof.
  intros Hb. rewrite get_le_eq. destruct (Z.ltb_spec (len buf) (Z.of_nat k)) as [|Hl]; [done|].
  rewrite Nat2Z.id. intros [= <- <-]. unfold len in Hl.
  assert (length (take k buf) = k) as Hk by (rewrite length_take; lia).
  assert (Forall is_byte (take k buf)) as Ht by (by apply Forall_take).
  pose proof (from_le_bytes_bound _ Ht) as Hz. pose proof (to_from_le_bytes _ Ht) as He.
  rewrite Hk in Hz, He. split_and!; [lia..|by apply Forall_drop|]. by rewrite He, take_drop.
Qed.

(** Invert the next field of a chain of readers. *)
Ltac field_ok_by lem :=
  match goal with
  | Hr : sbind _ _ _ = (Ok _, _) |- _ =>
      let a := fresh "z" in let s1 := fresh "rest" in let Hg := fresh "Hg" in
      apply sbind_ok in Hr as (a & s1 & Hg & Hr); apply lem in Hg;
      [destruct_and! Hg; subst|first [done|lia]..]
  end.

Lemma decode_sign_ok buf r rest :
  Forall is_byte buf → decode_sign buf = (Ok r, rest) →
  sign_fits r ∧
  buf = put_u32_le (len (SignRequest.signing_session_id r)) ++ SignRequest.signing_session_id r ++
    put_u32_le (len (SignRequest.psbt r)) ++ SignRequest.psbt r ++ rest.
Proof.
  intros Hb Hr. unfold decode_sign in Hr.
  field_ok_by (get_le_ok 4). field_ok_by get_vec_ok. field_ok_by (get_le_ok 4).
  field_ok_by get_vec_ok. injection Hr as <- <-. unfold sign_fits, u32_max. simpl.
  split_and!; [done|lia|lia|]. by rewrite <-?app_assoc.
Qed.
Lemma decode_dkg_ok buf k rest :
  Forall is_byte buf → decode_dkg buf = (Ok k, rest) →
  ∃ r, k = KDkg r ∧ kind_fits k ∧ buf = payload k ++ rest.
Proof.
  intros Hb Hr. unfold decode_dkg in Hr.
  field_ok_by get_u8_ok. field_ok_by get_vec_ok. field_ok_by get_u8_ok. field_ok_by get_vec_ok.
  field_ok_by (get_le_ok 4). field_ok_by get_vec_ok. injection Hr as <- <-.
  eexists. split; [done|]. unfold kind_fits, u32_max.
  split; [simpl; split_and!; [done|lia..]|]. cbn [payload DkgRequest.sender DkgRequest.recipient DkgRequest.data DkgRequest.new].
  by rewrite <-?app_assoc.
Qed.
Lemma decode_wallet_state_ok buf k rest :
  Forall is_byte buf → decode_wallet_state buf = (Ok k, rest) →
  ∃ r, k = KWalletState r ∧ kind_fits k ∧ buf = payload k ++ rest.
Proof.
  intros Hb Hr. unfold decode_wallet_state in Hr.
  field_ok_by (get_le_ok 4). field_ok_by get_str_ok. field_ok_by (get_le_ok 2).
  field_ok_by (get_le_ok 4). field_ok_by get_vec_ok. injection Hr as <- <-.
  eexists. split; [done|]. unfold kind_fits, u32_max, u16_max.
  split; [simpl; split; [done|lia]|].
  cbn [payload WalletStateRequest.uuid WalletStateRequest.version WalletStateRequest.finalized_pegout_ids].
  by rewrite <-?app_assoc.
Qed.
Lemma decode_peer_ok buf p rest :
  decode_peer buf = (Ok p, rest) → ∃ s, peer_from_str s = Some p.
Proof.
  intros (n & rest0 & _ & Hp)%sbind_ok. rewrite peer_text_eq in Hp. destruct (_ <? _); [done|].
  simpl in Hp. destruct (is_utf8 _); [|done]. destruct peer_from_str eqn:Hf; [|done].
  injection Hp as <- _. eauto.
Qed.

Lemma decode_kind_ok `{!PeerTextLaws} i buf k rest :
  Forall is_byte buf → decode_kind i buf = (Ok k, rest) →
  i = kind_id k ∧ kind_fits k ∧ (carries_peer k = false → buf = payload k ++ rest).
Proof.
  intros Hb. destruct i; simpl; intros Hr;
    try (injection Hr as <- <-; done);
    try (apply decode_dkg_ok in Hr as (r & -> & ? & ?); [done|done]);
    try (apply decode_wallet_state_ok in Hr as (r & -> & ? & ?); [done|done]);
    apply sbind_ok in Hr as (r & rest0 & Hr & Hk); injection Hk as <- <-;
    try (apply decode_sign_ok in Hr as (? & ->); [|done]; cbn [payload]; rewrite <-?app_assoc; done).
  all: apply decode_peer_ok in Hr as [s Hs]; split_and!; try done; by eapply peer_from_str_size.
Qed.

Lemma message_id_ok z i : message_id z = Some i → z = id_as_u8 i.
Proof. unfold message_id. repeat (case_match; try done); by intros [= <-]. Qed.

(** C31. Whatever bytes a peer sends, reading a message from them does not panic.  A
    message that is read has the content its type announces, within the widths of its
    fields; and if it carries no peer id (is neither a ping nor a pong, whose peer ids have
    several texts), then the bytes read are exactly its encoding. *)
Theorem decode_message_sound `{!PeerTextLaws} (buf : bytes) :
  Forall is_byte buf →
  match decode_message buf with
  | (Ok m, rest) => fits m ∧ (carries_peer (message m) = false → buf = encoded m ++ rest)
  | (Err _, _) => True
  | (Panic, _) => False
  end.
Proof.
  intros Hb. pose proof (no_panic_decode_message buf) as Hn.
  destruct (decode_message buf) as [[m|e|] rest] eqn:Hr; [|done|done]. clear Hn.
  unfold decode_message in Hr. field_ok_by get_u8_ok.
  apply sbind_ok in Hr as (i & rest1 & Hi & Hr). injection Hi as Hi <-.
  apply ok_or_ok, message_id_ok in Hi as ->.
  apply sbind_ok in Hr as (k & rest2 & Hk & Hm). injection Hm as <- <-.
  apply decode_kind_ok in Hk as (-> & ? & He); [|done]. split; [done|]. simpl. intros Hc.
  by rewrite He by done.
Qed.
End theory.
