(* ===== verification/FrostNetwork.v ===== *)
(** * The network side of FROST

    [crates/net/network/src/frost/manager.rs] and [protocol.rs]: the manager, which
    knows the authorities and their connections and forwards their messages to the
    tasks, and the connection to one peer, which registers with the manager, turns
    commands into messages on the wire and messages from the wire into events.

    Channels are named by numbers.  What a handler finds of them (whether the other
    half is dropped, whether a send succeeds) is an argument, and so is what the
    runtime answers to one poll; a handler looks at each channel at most once, so
    that the argument may be any function.  What a handler sends is its output. *)

From S2P Require Import Prelude Bitcoin Psbt Codec FrostSigning FrostTask FrostMessages.

Inductive Direction := Incoming | Outgoing (p : PeerId).

(** The commands' channel to a connection, and the stream of a task. *)
Abbreviation Chan := Z.
Abbreviation StreamId := nat.

Inductive FrostPeerCommand :=
  | PingMessage (msg : bytes) (response : Z)
  | PeerMessage (r : PeerMessageResponse).

Inductive ConnectionEstablishedStatus :=
  | Success (idx : Z)
  | ClosedPeerCommandsCommunicationChannel
  | NoneAuthority
  | ConnectedToOurself.

Inductive FrostProtocolEvent :=
  | EvConnectionEstablished (direction : Direction) (peer_id : PeerId) (peer_commands_tx : Chan)
  | EvConnectionClosed (idx : Z)
  | EvPeerMessage (peer_id : PeerId) (response : PeerMessageResponse).

(** ** The manager *)

Module FrostManager.

Record AuthorityContext `{Frost} := {
  connections : gset Z;
  frost_identifier : Identifier;
}.
Record Connection := {
  c_peer_id : PeerId;
  peer_commands_tx : Chan;
  c_direction : Direction;
}.
Record PeerData `{Frost} := {
  p_peer_id : PeerId;
  p_peer_commands_tx : Chan;
  p_direction : Direction;
  p_frost_identifier : Identifier;
}.

Record FrostManager `{Frost} := {
  (** [network.peer_id()] *)
  own_peer_id : PeerId;
  connection_counter : Z;
  authorities : gmap PeerId AuthorityContext;
  peer_connections : gmap Z Connection;
  task_forwarder_txs : list StreamId;
}.

Inductive FrostCommand :=
  | CheckConnectedToAll
  | GetAllConnectedPeers
  | GetPeerMessagesStream
  | GetWalletStateFromPeer (uuid : bytes).

(** What the handlers send: the status to the connection, contexts to the tasks,
    commands to the connections, replies to the callers. *)
Inductive Output `{Frost} :=
  | Status (s : ConnectionEstablishedStatus)
  | Forward (stream : StreamId) (c : PeerMessageContext)
  | Command (to : Chan) (c : FrostPeerCommand)
  | AllConnected (b : bool)
  | ConnectedPeers (m : gmap PeerId PeerData)
  | Stream (s : StreamId).

(** The other halves of the channels while one event is handled: dropped, accepting a
    command, accepting a context; and the callback of a connection: dropped,
    accepting the status. *)
Record Channels := {
  is_closed : Chan → bool;
  accepts : Chan → bool;
  stream_open : StreamId → bool;
  callback_closed : bool;
  callback_accepts : bool;
}.

Section manager.
Context `{Frost}.
Abbreviation ManagerM := (SM FrostManager ()).

Definition put_counter (x : Z) (m : FrostManager) : FrostManager :=
  {| own_peer_id := own_peer_id m; connection_counter := x; authorities := authorities m;
     peer_connections := peer_connections m; task_forwarder_txs := task_forwarder_txs m |}.
Definition put_authorities (x : gmap PeerId AuthorityContext) (m : FrostManager) : FrostManager :=
  {| own_peer_id := own_peer_id m; connection_counter := connection_counter m; authorities := x;
     peer_connections := peer_connections m; task_forwarder_txs := task_forwarder_txs m |}.
Definition put_peer_connections (x : gmap Z Connection) (m : FrostManager) : FrostManager :=
  {| own_peer_id := own_peer_id m; connection_counter := connection_counter m;
     authorities := authorities m; peer_connections := x;
     task_forwarder_txs := task_forwarder_txs m |}.
Definition put_forwarders (x : list StreamId) (m : FrostManager) : FrostManager :=
  {| own_peer_id := own_peer_id m; connection_counter := connection_counter m;
     authorities := authorities m; peer_connections := peer_connections m;
     task_forwarder_txs := x |}.
Definition put_connections (x : gset Z) (a : AuthorityContext) : AuthorityContext :=
  {| connections := x; frost_identifier := frost_identifier a |}.

(** [Identifier::derive] of the index in two little-endian bytes, and
    [serialize_uncompressed] of the authorities' keys, are parameters. *)
Section new.
Context `{!Secp256k1} (derive : bytes → option Identifier) (uncompressed : PublicKey → bytes).

Definition authority_index_to_frost_identifier (authority_index : Z) : result () Identifier :=
  expect (derive (to_le_bytes 2 authority_index)).

(** [PeerId::from_slice] panics unless there are 64 bytes. *)
Definition peer_id_from_slice (s : bytes) : result () PeerId :=
  let? _ := rassert (length s =? 64)%nat in Ok s.

(** [collect] into a map: a repeated key keeps the last identifier. *)
Fixpoint collect_authorities (index : Z) (l : list PublicKey) (acc : gmap PeerId AuthorityContext)
    : result () (gmap PeerId AuthorityContext) :=
  match l with
  | [] => Ok acc
  | pk :: l' =>
      let? frost_identifier := authority_index_to_frost_identifier (index mod 65536) in
      let? peer_id := peer_id_from_slice (drop 1 (uncompressed pk)) in
      collect_authorities (index + 1) l'
        (<[peer_id := {| connections := ∅; frost_identifier := frost_identifier |}]> acc)
  end.

Definition new (config_authorities : list PublicKey) (network_peer_id : PeerId)
    : result () FrostManager :=
  let? authorities := collect_authorities 0 config_authorities ∅ in
  Ok {| own_peer_id := network_peer_id; connection_counter := 0; authorities := authorities;
        peer_connections := ∅; task_forwarder_txs := [] |}.
End new.

Context (env : Channels).

(** The connections of a peer up to the first live one: the dead ones found, and the
    live one. *)
Fixpoint scan_connections (peer_id : PeerId) (authority : AuthorityContext)
    (conns : gmap Z Connection) (l : list Z) : result () (list Z * option PeerData) :=
  match l with
  | [] => Ok ([], None)
  | idx :: l' =>
      let? conn := expect (conns !! idx) in
      if is_closed env (peer_commands_tx conn) then
        let? '(to_remove, peer_data) := scan_connections peer_id authority conns l' in
        Ok (idx :: to_remove, peer_data)
      else
        Ok ([], Some {| p_peer_id := peer_id; p_peer_commands_tx := peer_commands_tx conn;
                        p_direction := c_direction conn;
                        p_frost_identifier := frost_identifier authority |})
  end.

Definition retrieve_peer_data (peer_id : PeerId) : ManagerM (option PeerData) :=
  let* m := sget in
  match authorities m !! peer_id with
  | None => sret None
  | Some authority =>
      let* '(to_remove, peer_data) := slift (scan_connections peer_id authority
        (peer_connections m) (elements (connections authority))) in
      smodify (put_peer_connections (foldr delete (peer_connections m) to_remove)) ;;*
      smodify (λ m, put_authorities (<[peer_id := put_connections
        (connections authority ∖ list_to_set to_remove) authority]> (authorities m)) m) ;;*
      sret peer_data
  end.

(** [filter_map(|peer_id| self.retrieve_peer_data(peer_id))] *)
Fixpoint retrieve_all (peer_ids : list PeerId) : ManagerM (list PeerData) :=
  match peer_ids with
  | [] => sret []
  | peer_id :: l =>
      let* d := retrieve_peer_data peer_id in
      let* rest := retrieve_all l in
      sret (option_list d ++ rest)
  end.
Definition authority_ids (m : FrostManager) : list PeerId := (map_to_list (authorities m)).*1.

Definition all_authority_peers_connected : ManagerM bool :=
  let* m := sget in
  let* connected := retrieve_all (authority_ids m) in
  let* m := sget in
  sret (Z.of_nat (length connected) =? wrap64 (Z.of_nat (size (authorities m)) - 1)).

Definition is_authority_peer (peer_id : PeerId) (m : FrostManager) : bool :=
  bool_decide (is_Some (authorities m !! peer_id)).

(** Whether the status was sent, and the status as an output. *)
Definition respond_with_status (status : ConnectionEstablishedStatus) : bool * list Output :=
  if callback_closed env then (false, [])
  else if callback_accepts env then (true, [Status status]) else (false, []).

Definition on_connection_established (direction : Direction) (peer_id : PeerId)
    (peer_commands_tx : Chan) : ManagerM (list Output) :=
  let* m := sget in
  if negb (is_authority_peer peer_id m) then sret (respond_with_status NoneAuthority).2
  else if bool_decide (own_peer_id m = peer_id) then sret (respond_with_status ConnectedToOurself).2
  else if is_closed env peer_commands_tx then
    sret (respond_with_status ClosedPeerCommandsCommunicationChannel).2
  else
    let idx := connection_counter m in
    smodify (put_counter (wrap64 (idx + 1))) ;;*
    let '(responded, out) := respond_with_status (Success idx) in
    if negb responded then sret out
    else
      let conn := {| c_peer_id := peer_id; peer_commands_tx := peer_commands_tx;
                     c_direction := direction |} in
      let* m := sget in
      let* authority := slift (expect (authorities m !! peer_id)) in
      smodify (put_authorities (<[peer_id := put_connections
        ({[idx]} ∪ connections authority) authority]> (authorities m))) ;;*
      smodify (λ m, put_peer_connections (<[idx := conn]> (peer_connections m)) m) ;;*
      sret out.

Definition on_connection_closed (idx : Z) : ManagerM (list Output) :=
  let* m := sget in
  match peer_connections m !! idx with
  | None => sret []
  | Some conn =>
      let* authority := slift (expect (authorities m !! c_peer_id conn)) in
      smodify (put_authorities (<[c_peer_id conn := put_connections
        (connections authority ∖ {[idx]}) authority]> (authorities m))) ;;*
      sret []
  end.

Definition on_peer_message (peer_id : PeerId) (response : PeerMessageResponse)
    : ManagerM (list Output) :=
  let* m := sget in
  let err_auth_peer :=
    if is_authority_peer peer_id m then None else Some (PmError (PmNoneAuthority peer_id)) in
  let* peer_data := retrieve_peer_data peer_id in
  let err_peer_not_found :=
    match peer_data with Some _ => None | None => Some (PmError (PmPeerIdNotFound peer_id)) end in
  let err := match err_auth_peer with Some e => Some e | None => err_peer_not_found end in
  let* m := sget in
  sret ((λ s, Forward s {| mc_peer_id := peer_id;
                           mc_frost_identifier := p_frost_identifier <$> peer_data;
                           mc_message := default response err |})
        <$> filter (λ s, stream_open env s = true) (task_forwarder_txs m)).

Definition on_network_event (protocol_event : FrostProtocolEvent) : ManagerM (list Output) :=
  match protocol_event with
  | EvConnectionEstablished direction peer_id tx => on_connection_established direction peer_id tx
  | EvConnectionClosed idx => on_connection_closed idx
  | EvPeerMessage peer_id response => on_peer_message peer_id response
  end.

Fixpoint request_wallet_states (uuid : bytes) (peer_ids : list PeerId) : ManagerM (list Output) :=
  match peer_ids with
  | [] => sret []
  | peer_id :: l =>
      let* d := retrieve_peer_data peer_id in
      let* rest := request_wallet_states uuid l in
      sret (match d with
            | Some peer =>
                if accepts env (p_peer_commands_tx peer)
                then [Command (p_peer_commands_tx peer) (PeerMessage (PmWalletState
                        {| ws_uuid := uuid; ws_finalized_pegout_ids := [] |}))]
                else []
            | None => []
            end ++ rest)
  end.

Definition on_command (cmd : FrostCommand) : ManagerM (list Output) :=
  match cmd with
  | CheckConnectedToAll =>
      let* all_connected := all_authority_peers_connected in sret [AllConnected all_connected]
  | GetAllConnectedPeers =>
      let* m := sget in
      let* l := retrieve_all (authority_ids m) in
      sret [ConnectedPeers (list_to_map ((λ d, (p_peer_id d, d)) <$> l))]
  | GetPeerMessagesStream =>
      let* m := sget in
      let s := length (task_forwarder_txs m) in
      smodify (put_forwarders (task_forwarder_txs m ++ [s])) ;;*
      sret [Stream s]
  | GetWalletStateFromPeer uuid =>
      let* m := sget in request_wallet_states uuid (authority_ids m)
  end.
End manager.

(** [poll]: first the events that have arrived, then the commands; a channel that was
    closed panics. *)
Section poll.
Context `{Frost}.
Fixpoint drain {A} (handle : Channels → A → SM FrostManager () (list Output))
    (closed : bool) (l : list (Channels * A)) : SM FrostManager () (list Output) :=
  match l with
  | [] => if closed then slift Panic else sret []
  | (env, x) :: l' =>
      let* out := handle env x in
      let* rest := drain handle closed l' in
      sret (out ++ rest)
  end.
Definition poll (network_closed commands_closed : bool)
    (events : list (Channels * FrostProtocolEvent)) (cmds : list (Channels * FrostCommand))
    : SM FrostManager () (list Output) :=
  let* out := drain on_network_event network_closed events in
  let* rest := drain on_command commands_closed cmds in
  sret (out ++ rest).
End poll.
End FrostManager.

(** ** A connection *)

Module FrostProtoConnection.

Inductive Poll (A : Type) := Pending | Ready (a : A).
Arguments Pending {A}.
Arguments Ready {A} a.

(** While the registration is pending the connection holds the receiving half of the
    commands' channel it has offered to the manager. *)
Inductive RegistrationState :=
  | NotRegistered
  | RegPending (remote_peer_rx : list FrostPeerCommand)
  | Registered (idx : Z).

(** Queues are the messages that have arrived and are not read; [conn_closed]: the
    peer's side has ended behind them.  [emitted]: the events sent to the manager;
    [confirmed]: the ping responses that were answered. *)
Record FrostProtoConnection := {
  registration : RegistrationState;
  conn_rx : list bytes;
  conn_closed : bool;
  commands_rx : option (list FrostPeerCommand);
  my_peer_id : PeerId;
  peer_id : PeerId;
  direction : Direction;
  pending_pong : option Z;
  emitted : list FrostProtocolEvent;
  confirmed : list Z;
}.

(** What the runtime answers to one poll: whether a slot of the manager's channel can
    be reserved ([Ready false]: the manager is gone) and an event sent, for the
    registration and for a message; the channel made for the commands; and the
    callback of the registration ([None]: its sender was dropped). *)
Record PollEnv := {
  reserve_registration : Poll bool;
  send_registration : bool;
  fresh_channel : Chan;
  callback : Poll (option ConnectionEstablishedStatus);
  reserve_message : Poll bool;
  send_message : bool;
}.

Section connection.
Context `{PeerText}.

(** [FrostProtoHandler::on_incoming] and [on_outgoing] give every connection a
    handler, and [into_connection] a connection. *)
Definition into_connection (my_peer_id : PeerId) (direction : Direction) (peer_id : PeerId)
    (conn : list bytes) : FrostProtoConnection :=
  {| registration := NotRegistered; conn_rx := conn; conn_closed := false; commands_rx := None;
     my_peer_id := my_peer_id; peer_id := peer_id; direction := direction; pending_pong := None;
     emitted := []; confirmed := [] |}.

Definition put_registration (x : RegistrationState) (c : FrostProtoConnection) : FrostProtoConnection :=
  {| registration := x; conn_rx := conn_rx c; conn_closed := conn_closed c;
     commands_rx := commands_rx c; my_peer_id := my_peer_id c; peer_id := peer_id c;
     direction := direction c; pending_pong := pending_pong c; emitted := emitted c;
     confirmed := confirmed c |}.
Definition put_conn_rx (x : list bytes) (c : FrostProtoConnection) : FrostProtoConnection :=
  {| registration := registration c; conn_rx := x; conn_closed := conn_closed c;
     commands_rx := commands_rx c; my_peer_id := my_peer_id c; peer_id := peer_id c;
     direction := direction c; pending_pong := pending_pong c; emitted := emitted c;
     confirmed := confirmed c |}.
Definition put_conn_closed (x : bool) (c : FrostProtoConnection) : FrostProtoConnection :=
  {| registration := registration c; conn_rx := conn_rx c; conn_closed := x;
     commands_rx := commands_rx c; my_peer_id := my_peer_id c; peer_id := peer_id c;
     direction := direction c; pending_pong := pending_pong c; emitted := emitted c;
     confirmed := confirmed c |}.
Definition put_commands_rx (x : option (list FrostPeerCommand)) (c : FrostProtoConnection)
    : FrostProtoConnection :=
  {| registration := registration c; conn_rx := conn_rx c; conn_closed := conn_closed c;
     commands_rx := x; my_peer_id := my_peer_id c; peer_id := peer_id c;
     direction := direction c; pending_pong := pending_pong c; emitted := emitted c;
     confirmed := confirmed c |}.
Definition put_pending_pong (x : option Z) (c : FrostProtoConnection) : FrostProtoConnection :=
  {| registration := registration c; conn_rx := conn_rx c; conn_closed := conn_closed c;
     commands_rx := commands_rx c; my_peer_id := my_peer_id c; peer_id := peer_id c;
     direction := direction c; pending_pong := x; emitted := emitted c;
     confirmed := confirmed c |}.
Definition emit (e : FrostProtocolEvent) (c : FrostProtoConnection) : FrostProtoConnection :=
  {| registration := registration c; conn_rx := conn_rx c; conn_closed := conn_closed c;
     commands_rx := commands_rx c; my_peer_id := my_peer_id c; peer_id := peer_id c;
     direction := direction c; pending_pong := pending_pong c; emitted := emitted c ++ [e];
     confirmed := confirmed c |}.
Definition confirm (r : Z) (c : FrostProtoConnection) : FrostProtoConnection :=
  {| registration := registration c; conn_rx := conn_rx c; conn_closed := conn_closed c;
     commands_rx := commands_rx c; my_peer_id := my_peer_id c; peer_id := peer_id c;
     direction := direction c; pending_pong := pending_pong c; emitted := emitted c;
     confirmed := confirmed c ++ [r] |}.

(** The body of [poll_next]: [Err p] is [return p]. *)
Abbreviation PollM := (SM FrostProtoConnection (Poll (option bytes))).
Definition return_with {A} (p : Poll (option bytes)) : PollM A := slift (Err p).

(** [ready!] on a reservation, whose error ends the stream. *)
Definition reserved (r : Poll bool) : PollM () :=
  match r with
  | Pending => return_with Pending
  | Ready true => sret tt
  | Ready false => return_with (Ready None)
  end.

(** The answer of the manager to a registration. *)
Definition poll_callback (env : PollEnv) (remote_peer_rx : list FrostPeerCommand) : PollM () :=
  match callback env with
  | Ready (Some (Success idx)) =>
      smodify (put_registration (Registered idx)) ;;*
      smodify (put_commands_rx (Some remote_peer_rx))
  | Ready (Some _) | Ready None => return_with (Ready None)
  | Pending =>
      smodify (put_registration (RegPending remote_peer_rx)) ;;* return_with Pending
  end.

Definition register (env : PollEnv) : PollM () :=
  let* c := sget in
  match registration c with
  | NotRegistered =>
      reserved (reserve_registration env) ;;*
      (if send_registration env
       then smodify (emit (EvConnectionEstablished (direction c) (peer_id c) (fresh_channel env)))
       else return_with (Ready None)) ;;*
      poll_callback env []
  | RegPending remote_peer_rx =>
      smodify (put_registration NotRegistered) ;;* poll_callback env remote_peer_rx
  | Registered _ => sret tt
  end.

(** The message that carries a command out. *)
Definition outgoing (cmd : FrostPeerCommand) : PollM FrostProtoMessage.FrostProtoMessage :=
  match cmd with
  | PingMessage _ response =>
      smodify (put_pending_pong (Some response)) ;;*
      let* c := sget in sret (FrostProtoMessage.ping_message (my_peer_id c))
  | PeerMessage (PmError _) => return_with (Ready None)
  | PeerMessage (PmDkg r) =>
      sret (FrostProtoMessage.dkg_request_message
              (DkgRequest.new (dkg_data r) (dkg_sender r) (dkg_recipient r)))
  | PeerMessage (PmSigning r) =>
      let req := SignRequest.new (sr_session r) (sr_psbt r) in
      sret match response_type r with
           | SignerRound1SigningPackage => FrostProtoMessage.round1_signer_package_message req
           | CoordinatorRound1SigningPackage =>
               FrostProtoMessage.round1_coordinator_signing_package_message req
           | SignerRound2SigningPackage => FrostProtoMessage.round2_signer_package_message req
           | CoordinatorRound2SigningPackage =>
               FrostProtoMessage.round2_coordinator_signing_package_message req
           end
  | PeerMessage (PmWalletState r) =>
      sret (FrostProtoMessage.wallet_state_message
              (WalletStateRequest.new (ws_uuid r) (ws_finalized_pegout_ids r)))
  end.

Definition poll_commands : PollM () :=
  let* c := sget in
  let* q := slift (expect (commands_rx c)) in
  match q with
  | [] => sret tt
  | cmd :: q' =>
      smodify (put_commands_rx (Some q')) ;;*
      let* resp := outgoing cmd in
      return_with (Ready (Some (FrostProtoMessage.encoded resp)))
  end.

(** The first message that can be decoded; the others are dropped. *)
Fixpoint next_message (closed : bool) (q : list bytes) : PollM FrostProtoMessage.FrostProtoMessage :=
  match q with
  | [] => smodify (put_conn_rx []) ;;* return_with (if closed then Ready None else Pending)
  | b :: q' =>
      match (FrostProtoMessage.decode_message b).1 with
      | Ok m => smodify (put_conn_rx q') ;;* sret m
      | Err _ => next_message closed q'
      | Panic => slift Panic
      end
  end.

(** The response to a waiting ping. *)
Definition confirm_pong : PollM () :=
  let* c := sget in
  match pending_pong c with
  | Some sender => smodify (put_pending_pong None) ;;* smodify (confirm sender)
  | None => sret tt
  end.

Definition signing (t : SigningEventResponseType) (data : SignRequest.SignRequest)
    : PeerMessageResponse :=
  PmSigning {| response_type := t; sr_session := SignRequest.signing_session_id data;
               sr_psbt := SignRequest.psbt data |}.

(** What a message from the wire means to the tasks. *)
Definition incoming (k : FrostProtoMessageKind) : PollM PeerMessageResponse :=
  match k with
  | KPing => return_with (Ready (Some (FrostProtoMessage.encoded FrostProtoMessage.pong)))
  | KPingMessage _ =>
      let* c := sget in
      return_with (Ready (Some (FrostProtoMessage.encoded
        (FrostProtoMessage.pong_message (my_peer_id c)))))
  | KPong | KPongMessage _ => confirm_pong ;;* return_with Pending
  | KDkg data =>
      sret (PmDkg {| dkg_sender := DkgRequest.sender data;
                     dkg_recipient := DkgRequest.recipient data; dkg_data := DkgRequest.data data |})
  | KSignerRound1SigningPackage data => sret (signing SignerRound1SigningPackage data)
  | KCoordinatorRound1SigningPackage data => sret (signing CoordinatorRound1SigningPackage data)
  | KSignerRound2SigningPackage data => sret (signing SignerRound2SigningPackage data)
  | KCoordinatorRound2SigningPackage data => sret (signing CoordinatorRound2SigningPackage data)
  | KWalletState data =>
      sret (PmWalletState {| ws_uuid := WalletStateRequest.uuid data;
                             ws_finalized_pegout_ids := WalletStateRequest.finalized_pegout_ids data |})
  end.

(** The registered part of [poll_next] up to the next message for the tasks. *)
Definition next_response (env : PollEnv) : PollM PeerMessageResponse :=
  poll_commands ;;*
  reserved (reserve_message env) ;;*
  let* c := sget in
  let* msg := next_message (conn_closed c) (conn_rx c) in
  incoming (FrostProtoMessage.message msg).

Definition poll_body (env : PollEnv) : PollM () :=
  register env ;;*
  let* response := next_response env in
  let* c := sget in
  if send_message env then smodify (emit (EvPeerMessage (peer_id c) response))
  else return_with (Ready None).

Definition poll_next (env : PollEnv) (c : FrostProtoConnection)
    : result () (Poll (option bytes)) * FrostProtoConnection :=
  let '(r, c') := poll_body env c in
  (match r with Ok _ => Ok Pending | Err p => Ok p | Panic => Panic end, c').

(** [Drop]: a registered connection tells the manager, if the channel has room. *)
Definition drop_connection (room : bool) (c : FrostProtoConnection) : list FrostProtocolEvent :=
  match registration c with
  | Registered idx => if room then [EvConnectionClosed idx] else []
  | _ => []
  end.
End connection.
End FrostProtoConnection.
