(* ===== verification/FrostNetworkTheory.v ===== *)
(** * The network side of FROST: theorems

    The manager keeps track of the authorities' connections and never panics; what it
    forwards to the tasks as a message carries the identifier of the authority it came
    from; it reports to be connected to all authorities exactly when it is.  A message
    a task hands to a connection arrives unchanged at the tasks of the peer. *)

From S2P Require Import Prelude Bitcoin Psbt Codec FrostSigning FrostTask FrostMessages FrostMessagesTheory FrostNetwork.

(** ** The manager *)

Section manager.
Import FrostManager.
Context `{Frost}.

(** A peer with a connection whose channel is open. *)
Definition live_connection (env : Channels) (m : FrostManager) (p : PeerId) (idx : Z) (c : Connection)
    : Prop :=
  ∃ a, authorities m !! p = Some a ∧ idx ∈ connections a ∧ peer_connections m !! idx = Some c ∧
    is_closed env (peer_commands_tx c) = false.
Definition live (env : Channels) (m : FrostManager) (p : PeerId) : Prop :=
  ∃ idx c, live_connection env m p idx c.

(** Registered connections exist and belong to their authority, which is not the
    node itself; indices are below the counter. *)
Record manager_ok (m : FrostManager) : Prop := {
  ok_registered p a idx : authorities m !! p = Some a → idx ∈ connections a →
    ∃ c, peer_connections m !! idx = Some c ∧ c_peer_id c = p;
  ok_known idx c : peer_connections m !! idx = Some c →
    is_Some (authorities m !! c_peer_id c) ∧ c_peer_id c ≠ own_peer_id m ∧
    0 ≤ idx < connection_counter m;
  ok_counter : 0 ≤ connection_counter m;
}.

(** What no handler changes: who the authorities are, and their identifiers. *)
Definition identities (m : FrostManager) : gmap PeerId Identifier := frost_identifier <$> authorities m.
Definition same_identities (m m' : FrostManager) : Prop :=
  identities m' = identities m ∧ own_peer_id m' = own_peer_id m.

(** A connection that no authority lists any more. *)
Definition orphan (m : FrostManager) (idx : Z) (c : Connection) : Prop :=
  peer_connections m !! idx = Some c ∧
  ∀ p a, authorities m !! p = Some a → idx ∉ connections a.

(** Retrieving a peer's data only forgets dead connections that are listed. *)
Record only_collected (env : Channels) (m m' : FrostManager) : Prop := {
  col_ids : same_identities m m';
  col_counter : connection_counter m' = connection_counter m;
  col_streams : task_forwarder_txs m' = task_forwarder_txs m;
  col_conns idx c : peer_connections m' !! idx = Some c → peer_connections m !! idx = Some c;
  col_live p idx c : live_connection env m' p idx c ↔ live_connection env m p idx c;
  col_orphans idx c : orphan m idx c → orphan m' idx c;
}.

Lemma only_collected_refl env m : only_collected env m m.
Proof. by split. Qed.
Lemma only_collected_trans env m1 m2 m3 :
  only_collected env m1 m2 → only_collected env m2 m3 → only_collected env m1 m3.
Proof.
  intros [[Hi1 Ho1] Hc1 Hs1 Hp1 Hl1 ?] [[Hi2 Ho2] Hc2 Hs2 Hp2 Hl2 ?].
  split; [split; congruence|congruence|congruence|eauto| |eauto].
  intros p idx c. by rewrite Hl2.
Qed.
Lemma only_collected_live env m m' p : only_collected env m m' → live env m' p ↔ live env m p.
Proof. intros Hc. unfold live. by setoid_rewrite (col_live _ _ _ Hc). Qed.

Lemma scan_connections_spec env p a conns l :
  (∀ idx, idx ∈ l → is_Some (conns !! idx)) →
  ∃ rm d, scan_connections env p a conns l = Ok (rm, d) ∧ rm ⊆ l ∧
    (∀ idx c, idx ∈ rm → conns !! idx = Some c → is_closed env (peer_commands_tx c) = true) ∧
    match d with
    | None => ∀ idx c, idx ∈ l → conns !! idx = Some c → is_closed env (peer_commands_tx c) = true
    | Some d => ∃ idx c, idx ∈ l ∧ conns !! idx = Some c ∧
        is_closed env (peer_commands_tx c) = false ∧
        d = {| p_peer_id := p; p_peer_commands_tx := peer_commands_tx c;
               p_direction := c_direction c; p_frost_identifier := frost_identifier a |}
    end.
Proof.
  induction l as [|idx l IH]; intros Hl; simpl.
  - exists [], None. set_solver.
  - destruct (Hl idx) as [c Hc]; [set_solver|]. rewrite Hc. simpl.
    destruct IH as (rm & d & -> & Hrm & Hclosed & Hd); [set_solver|]. simpl.
    destruct (is_closed env (peer_commands_tx c)) eqn:He.
    + exists (idx :: rm), d. split; [done|]. split; [set_solver|]. split.
      * intros idx' c' [->|?]%elem_of_cons ?; [congruence|eauto].
      * destruct d as [d|].
        -- destruct Hd as (idx' & c' & ? & ?). exists idx', c'. set_solver.
        -- intros idx' c' [->|?]%elem_of_cons ?; [congruence|eauto].
    + eexists [], _. split; [done|]. split; [set_solver|]. split; [set_solver|].
      exists idx, c. set_solver.
Qed.

Lemma lookup_delete_all {A} (mp : gmap Z A) (l : list Z) idx x :
  foldr delete mp l !! idx = Some x ↔ (idx ∉ l) ∧ mp !! idx = Some x.
Proof.
  induction l as [|i l IH]; simpl; [set_solver|].
  rewrite lookup_delete_Some, IH. set_solver.
Qed.

(** The peer data of a live connection, if there is one. *)
Definition peer_data_of (env : Channels) (m : FrostManager) (p : PeerId) (d : option PeerData) : Prop :=
  match d with
  | None => ¬ live env m p
  | Some d => ∃ a idx c, authorities m !! p = Some a ∧ live_connection env m p idx c ∧
      d = {| p_peer_id := p; p_peer_commands_tx := peer_commands_tx c;
             p_direction := c_direction c; p_frost_identifier := frost_identifier a |}
  end.

Lemma collect_ok env m p a rm :
  manager_ok m → authorities m !! p = Some a →
  (∀ idx, idx ∈ rm → idx ∈ connections a) →
  (∀ idx c, idx ∈ rm → peer_connections m !! idx = Some c → is_closed env (peer_commands_tx c) = true) →
  let m' := put_authorities (<[p := put_connections (connections a ∖ list_to_set rm) a]>
              (authorities m)) (put_peer_connections (foldr delete (peer_connections m) rm) m) in
  manager_ok m' ∧ only_collected env m m'.
Proof.
  intros Hok Ha Hrm Hclosed m'.
  assert (∀ q b idx, authorities m' !! q = Some b → idx ∈ connections b →
    (idx ∉ rm) ∧ ∃ b', authorities m !! q = Some b' ∧ idx ∈ connections b') as Hin.
  { intros q b idx Hb Hidx. subst m'. simpl in Hb.
    apply lookup_insert_Some in Hb as [[<- <-]|[Hne Hb]]; simpl in *; [set_solver|].
    split; [|eauto]. intros Hr. destruct (ok_registered _ Hok _ _ _ Ha (Hrm _ Hr)) as (c & Hc & <-).
    destruct (ok_registered _ Hok _ _ _ Hb Hidx) as (c' & Hc' & Hq). congruence. }
  split; split; simpl.
  - intros q b idx Hb Hidx. destruct (Hin q b idx Hb Hidx) as (Hr & b' & Hb' & Hidx').
    destruct (ok_registered _ Hok _ _ _ Hb' Hidx') as (c & ? & ?). exists c.
    by rewrite lookup_delete_all.
  - intros idx c [_ Hc]%lookup_delete_all. destruct (ok_known _ Hok _ _ Hc) as (? & ? & ?).
    split_and!; try done; [|lia..]. rewrite lookup_insert_is_Some'. auto.
  - apply Hok.
  - split; [|done]. unfold identities. simpl. rewrite fmap_insert. simpl.
    apply insert_id. by rewrite lookup_fmap, Ha.
  - done.
  - done.
  - intros idx c. rewrite lookup_delete_all. tauto.
  - intros q idx c. split.
    + intros (b & Hb & Hidx & [_ Hc]%lookup_delete_all & Hl).
      destruct (Hin q b idx Hb Hidx) as (_ & b' & ? & ?). by exists b'.
    + intros (b & Hb & Hidx & Hc & Hl).
      assert (idx ∉ rm) as Hr by (intros Hr; specialize (Hclosed _ _ Hr Hc); congruence).
      destruct (decide (q = p)) as [->|Hne].
      * eexists. simpl. rewrite lookup_insert_eq, lookup_delete_all. simplify_eq.
        split_and!; [done|simpl; set_solver|done..].
      * exists b. simpl. by rewrite lookup_insert_ne, lookup_delete_all.
  - intros idx c [Hc Ho]. split.
    + simpl. rewrite lookup_delete_all. split; [|done]. intros Hr. by eapply Ho, Hrm.
    + intros q b Hb Hidx. destruct (Hin q b idx Hb Hidx) as (_ & b' & Hb' & ?). by eapply Ho.
Qed.

Lemma retrieve_peer_data_spec env p m :
  manager_ok m →
  ∃ d m', retrieve_peer_data env p m = (Ok d, m') ∧ manager_ok m' ∧ only_collected env m m' ∧
    peer_data_of env m p d.
Proof.
  intros Hok. unfold retrieve_peer_data, sbind at 1, sget.
  destruct (authorities m !! p) as [a|] eqn:Ha.
  - destruct (scan_connections_spec env p a (peer_connections m) (elements (connections a)))
      as (rm & d & Hs & Hrm & Hclosed & Hd).
    { intros idx Hidx%elem_of_elements. destruct (ok_registered _ Hok _ _ _ Ha Hidx) as (c & ? & _).
      eauto. }
    unfold slift, sbind at 1. rewrite Hs.
    destruct (collect_ok env m p a rm Hok Ha) as [Hok' Hcol]; [|done|].
    { intros idx Hidx%Hrm. by apply elem_of_elements. }
    eexists d, _. split; [reflexivity|]. split_and!; [done..|].
    destruct d as [d|]; simpl.
    + destruct Hd as (idx & c & Hidx%elem_of_elements & Hc & Hl & ->). exists a, idx, c.
      split_and!; [done|by exists a|done].
    + intros (idx & c & b & Hb & Hidx & Hc & Hl). simplify_eq.
      specialize (Hd idx c). rewrite elem_of_elements in Hd. rewrite Hd in Hl by done. done.
  - exists None, m. split_and!; [done|done|apply only_collected_refl|].
    intros (idx & c & b & Hb & _). congruence.
Qed.

Lemma peer_data_of_collected env m m' p d :
  only_collected env m m' → peer_data_of env m' p d → peer_data_of env m p d.
Proof.
  intros Hc. destruct d as [d|]; simpl.
  - intros (a & idx & c & Ha & Hl & ->). apply (col_live _ _ _ Hc) in Hl.
    destruct (col_ids _ _ _ Hc) as [Hi _]. pose proof (f_equal (.!! p) Hi) as Hp. simpl in Hp.
    unfold identities in Hp. rewrite !lookup_fmap, Ha in Hp.
    destruct Hl as (b & Hb & Hidx & Hpc & Hcl). rewrite Hb in Hp. injection Hp as Hp.
    exists b, idx, c. split_and!; [done|by exists b|]. by rewrite Hp.
  - by rewrite (only_collected_live _ _ _ _ Hc).
Qed.

Lemma peer_data_of_live env m p d :
  peer_data_of env m p d → (is_Some d ↔ live env m p) ∧ (∀ x, d = Some x → p_peer_id x = p).
Proof.
  destruct d as [d|]; simpl.
  - intros (a & idx & c & Ha & Hl & ->). split; [|by intros ? [= <-]].
    split; [intros _; by exists idx, c|by eexists].
  - intros Hn. split; [|done]. split; [by intros [? ?]|done].
Qed.

Lemma retrieve_all_spec env l m :
  manager_ok m →
  ∃ os m', retrieve_all env l m = (Ok (omap id os), m') ∧ manager_ok m' ∧ only_collected env m m' ∧
    Forall2 (peer_data_of env m) l os.
Proof.
  revert m. induction l as [|p l IH]; intros m Hok.
  - exists [], m. split_and!; [done|done|apply only_collected_refl|done].
  - destruct (retrieve_peer_data_spec env p m Hok) as (d & m1 & Hr & Hok1 & Hc1 & Hd).
    destruct (IH m1 Hok1) as (os & m2 & Hrs & Hok2 & Hc2 & Hds).
    exists (d :: os), m2. split_and!; [|done|by eapply only_collected_trans|].
    + simpl. unfold sbind. rewrite Hr, Hrs. by destruct d.
    + constructor; [done|]. eapply Forall2_impl; [exact Hds|]. intros q o.
      by apply peer_data_of_collected.
Qed.

(** The peers found are those with a live connection, each once. *)
Lemma retrieved_ids env m l os :
  NoDup l → Forall2 (peer_data_of env m) l os →
  NoDup (p_peer_id <$> omap id os) ∧
  ∀ p, p ∈ (p_peer_id <$> omap id os) ↔ p ∈ l ∧ live env m p.
Proof.
  intros Hnd Hf. induction Hf as [|p o l os Hp Hf IH]; [set_solver|].
  apply NoDup_cons in Hnd as [Hnp Hnd]. destruct (IH Hnd) as [IHn IHp].
  apply peer_data_of_live in Hp as [Hlive Hid]. destruct o as [d|]; csimpl.
  - rewrite (Hid d) by done. assert (live env m p) as Hl by (by apply Hlive). split.
    + apply NoDup_cons. split; [|done]. rewrite IHp. tauto.
    + intros q. rewrite !elem_of_cons, IHp. naive_solver.
  - split; [done|]. intros q. rewrite IHp, elem_of_cons.
    assert (¬ live env m p) by (intros ?%Hlive; by destruct H0). naive_solver.
Qed.

Lemma authority_ids_spec m :
  NoDup (authority_ids m) ∧ (∀ p, p ∈ authority_ids m ↔ p ∈ dom (authorities m)) ∧
  length (authority_ids m) = size (authorities m).
Proof.
  unfold authority_ids. split_and!; [apply NoDup_fst_map_to_list| |].
  - intros p. rewrite list_elem_of_fmap, elem_of_dom. split.
    + intros ([q a] & -> & Hq%elem_of_map_to_list). by exists a.
    + intros [a Ha]. exists (p, a). by rewrite elem_of_map_to_list.
  - by rewrite length_fmap, length_map_to_list.
Qed.

Lemma own_peer_not_live env m : manager_ok m → ¬ live env m (own_peer_id m).
Proof.
  intros Hok (idx & c & a & Ha & Hidx & Hc & _).
  destruct (ok_registered _ Hok _ _ _ Ha Hidx) as (c' & Hc' & Hp).
  destruct (ok_known _ Hok _ _ Hc') as (_ & Hne & _). done.
Qed.

(** The count of the retrieved peers is one less than that of the authorities exactly
    when all others are live. *)
Lemma all_others_live env m os :
  manager_ok m → own_peer_id m ∈ dom (authorities m) →
  Forall2 (peer_data_of env m) (authority_ids m) os →
  length (omap id os) = (size (authorities m) - 1)%nat ↔
  ∀ p, p ∈ dom (authorities m) → p ≠ own_peer_id m → live env m p.
Proof.
  intros Hok Hown Hf. destruct (authority_ids_spec m) as (Hnd & Hin & Hlen).
  destruct (retrieved_ids env m _ os Hnd Hf) as [Hnd' Hin'].
  set (found := list_to_set (p_peer_id <$> omap id os) : gset PeerId).
  assert (size found = length (omap id os)) as Hsize.
  { unfold found. by rewrite size_list_to_set, length_fmap. }
  assert (found ⊆ dom (authorities m) ∖ {[own_peer_id m]}) as Hsub.
  { intros p [Hp Hl]%elem_of_list_to_set%Hin'. apply Hin in Hp.
    apply elem_of_difference. split; [done|]. intros ->%elem_of_singleton.
    by eapply own_peer_not_live. }
  assert (size (dom (authorities m) ∖ {[own_peer_id m]}) = (size (authorities m) - 1)%nat) as Hothers.
  { rewrite size_difference by set_solver. by rewrite size_dom, size_singleton. }
  rewrite <-Hsize, <-Hothers. split.
  - intros He p Hp Hne. assert (p ∈ found) as Hpf.
    { rewrite (set_subseteq_size_eq _ _ Hsub) by lia. set_solver. }
    apply elem_of_list_to_set, Hin' in Hpf. tauto.
  - intros Hall. f_equal. apply set_eq. intros p. split; [apply Hsub|].
    intros [Hp Hne]%elem_of_difference. apply elem_of_list_to_set, Hin'.
    split; [by apply Hin|]. apply Hall; set_solver.
Qed.

Lemma size_wrap (n : nat) : (0 < n)%nat → Z.of_nat n ≤ u64_max → ∀ k : nat,
  (Z.of_nat k =? wrap64 (Z.of_nat n - 1)) = bool_decide (k = (n - 1)%nat).
Proof.
  intros Hn Hmax k. unfold wrap64. rewrite Z.mod_small by lia. case_bool_decide; lia.
Qed.

Lemma all_authority_peers_connected_spec env m :
  manager_ok m → own_peer_id m ∈ dom (authorities m) → Z.of_nat (size (authorities m)) ≤ u64_max →
  ∃ b m', all_authority_peers_connected env m = (Ok b, m') ∧ manager_ok m' ∧ only_collected env m m' ∧
    (b = true ↔ ∀ p, p ∈ dom (authorities m) → p ≠ own_peer_id m → live env m p).
Proof.
  intros Hok Hown Hmax. unfold all_authority_peers_connected, sbind at 1 2, sget.
  destruct (retrieve_all_spec env (authority_ids m) m Hok) as (os & m' & -> & Hok' & Hc & Hf).
  eexists _, m'. split; [reflexivity|]. split_and!; [done..|].
  assert (size (authorities m') = size (authorities m)) as ->.
  { destruct (col_ids _ _ _ Hc) as [Hi _]. apply (f_equal size) in Hi. unfold identities in Hi.
    by rewrite !map_size_fmap in Hi. }
  rewrite size_wrap; [| |done].
  2: { rewrite <-size_dom. assert (size (dom (authorities m)) ≠ 0%nat); [|lia].
       apply size_non_empty_iff. set_solver. }
  rewrite bool_decide_eq_true. by apply all_others_live.
Qed.

(** *** Events and commands *)

(** What a handler keeps, if the counter of connections does not wrap around. *)
Definition kept (m m' : FrostManager) : Prop :=
  manager_ok m' ∧ same_identities m m' ∧ connection_counter m ≤ connection_counter m' ∧
  ∀ idx c, orphan m idx c → orphan m' idx c.

Lemma kept_refl m : manager_ok m → kept m m.
Proof. intros ?. split_and!; [done|done|lia|done]. Qed.
Lemma kept_collected env m m' : manager_ok m' → only_collected env m m' → kept m m'.
Proof. intros ? [? ? ? ? ? ?]. split_and!; [done|done|lia|done]. Qed.

Lemma same_identities_insert m p a x :
  authorities m !! p = Some a →
  frost_identifier <$> <[p := put_connections x a]> (authorities m) = identities m.
Proof.
  intros Ha. unfold identities. rewrite fmap_insert. apply insert_id. by rewrite lookup_fmap, Ha.
Qed.

Lemma put_counter_kept m :
  manager_ok m → kept m (put_counter (connection_counter m + 1) m).
Proof.
  intros [Hr Hk Hc]. split_and!; [|done|simpl; lia|done].
  split; simpl; [done| |lia]. intros idx c Hi. destruct (Hk idx c Hi) as (? & ? & ?). split_and!; try done; lia.
Qed.

(** Registering a connection under an index that no connection has. *)
Lemma register_kept m p a idx c :
  manager_ok m → authorities m !! p = Some a → c_peer_id c = p → p ≠ own_peer_id m →
  0 ≤ idx < connection_counter m → peer_connections m !! idx = None →
  kept m (put_peer_connections (<[idx := c]> (peer_connections m))
    (put_authorities (<[p := put_connections ({[idx]} ∪ connections a) a]> (authorities m)) m)).
Proof.
  intros [Hr Hk Hc] Ha Hp Hne Hidx Hnew. split_and!; [| |simpl; lia|].
  - split; simpl; [| |done].
    + intros q b i [[<- <-]|[Hpq Hb]]%lookup_insert_Some Hi; simpl in *.
      * apply elem_of_union in Hi as [->%elem_of_singleton|Hi];
          [exists c; by rewrite lookup_insert_eq|].
        destruct (Hr _ _ _ Ha Hi) as (c' & Hc' & ?). exists c'.
        rewrite lookup_insert_ne by congruence. done.
      * destruct (Hr _ _ _ Hb Hi) as (c' & Hc' & ?). exists c'.
        rewrite lookup_insert_ne by congruence. done.
    + intros i d [[<- <-]|[Hi Hd]]%lookup_insert_Some; rewrite lookup_insert_is_Some'.
      * rewrite Hp. auto.
      * destruct (Hk i d Hd) as (? & ? & ?). auto.
  - split; [|done]. unfold identities at 1. simpl. by apply same_identities_insert.
  - intros i d [Hd Ho]. assert (i ≠ idx) as Hi by congruence. split; simpl.
    + by rewrite lookup_insert_ne.
    + intros q b [[<- <-]|[Hpq Hb]]%lookup_insert_Some; simpl; [|eauto].
      rewrite elem_of_union, elem_of_singleton. specialize (Ho _ _ Ha). naive_solver.
Qed.

(** Unlisting a connection. *)
Lemma unlist_kept m p a idx :
  manager_ok m → authorities m !! p = Some a →
  kept m (put_authorities (<[p := put_connections (connections a ∖ {[idx]}) a]> (authorities m)) m).
Proof.
  intros [Hr Hk Hc] Ha. split_and!; [| |simpl; lia|].
  - split; simpl; [| |done].
    + intros q b i [[<- <-]|[Hpq Hb]]%lookup_insert_Some Hi; simpl in *; [|eauto].
      apply (Hr _ a); [done|set_solver].
    + intros i d Hd. rewrite lookup_insert_is_Some'. destruct (Hk i d Hd) as (? & ? & ?). auto.
  - split; [|done]. unfold identities at 1. simpl. by apply same_identities_insert.
  - intros i d [Hd Ho]. split; simpl; [done|].
    intros q b [[<- <-]|[Hpq Hb]]%lookup_insert_Some; simpl; [|eauto].
    specialize (Ho _ _ Ha). set_solver.
Qed.

Lemma kept_trans m1 m2 m3 : kept m1 m2 → kept m2 m3 → kept m1 m3.
Proof.
  intros (? & [? ?] & ? & ?) (? & [? ?] & ? & ?). split_and!; [done|split; congruence|lia|auto].
Qed.

Lemma on_connection_established_ok env dir p tx m :
  manager_ok m → connection_counter m < u64_max →
  ∃ out m', on_connection_established env dir p tx m = (Ok out, m') ∧ kept m m' ∧
    ∀ s c, Forward s c ∉ out.
Proof.
  intros Hok Hmax. unfold on_connection_established, sbind at 1, sget.
  assert (∀ st s c, Forward s c ∉ (respond_with_status env st).2) as Hout.
  { intros st s c. unfold respond_with_status. repeat case_match; set_solver. }
  assert (∀ st, ∃ out m', sret (E := ()) (respond_with_status env st).2 m = (Ok out, m') ∧ kept m m' ∧
    ∀ s c, Forward s c ∉ out) as Hrefuse.
  { intros st. eexists _, m. split; [reflexivity|]. split; [by apply kept_refl|done]. }
  unfold is_authority_peer. case_bool_decide as Ha; simpl; [|done].
  case_bool_decide as Hown; [done|]. destruct (is_closed env tx); [done|]. clear Hrefuse.
  pose proof (put_counter_kept m Hok) as Hk1.
  assert (wrap64 (connection_counter m + 1) = connection_counter m + 1) as ->.
  { destruct Hok. unfold wrap64. apply Z.mod_small. lia. }
  unfold sbind at 1, smodify. destruct (respond_with_status env _) as [[|] out] eqn:Hs; simpl;
    pose proof (f_equal snd Hs) as Ho; simpl in Ho; subst out;
    [|by eexists _, _].
  destruct Ha as [a Ha]. unfold sbind, sget, slift. simpl. rewrite Ha. simpl.
  eexists _, _. split; [reflexivity|]. split; [|eauto].
  eapply kept_trans; [exact Hk1|].
  apply (register_kept (put_counter (connection_counter m + 1) m) p a (connection_counter m)); simpl;
    try done; [apply Hk1|destruct Hok; lia|].
  apply eq_None_not_Some. intros [d Hd]. apply (ok_known _ Hok) in Hd as (_ & _ & ?). lia.
Qed.

Lemma on_connection_closed_ok idx m :
  manager_ok m →
  ∃ m', on_connection_closed idx m = (Ok [], m') ∧ kept m m' ∧
    ∀ c, peer_connections m !! idx = Some c → orphan m' idx c.
Proof.
  intros Hok. unfold on_connection_closed, sbind at 1, sget.
  destruct (peer_connections m !! idx) as [c|] eqn:Hc.
  2: { exists m. split_and!; [done|by apply kept_refl|done]. }
  destruct (ok_known _ Hok _ _ Hc) as ([a Ha] & _). unfold sbind, slift. rewrite Ha. simpl.
  eexists. split; [reflexivity|]. split; [by apply unlist_kept|]. intros ? [= <-].
  split; simpl; [done|]. intros q b [[<- <-]|[Hq Hb]]%lookup_insert_Some; simpl; [set_solver|].
  intros Hidx. destruct (ok_registered _ Hok _ _ _ Hb Hidx) as (? & ? & ?). congruence.
Qed.

(** What a task is told about a message: the message itself with the identifier of the
    authority, if the peer is an authority with a live connection, and else an error. *)
Definition context_of (env : Channels) (m : FrostManager) (p : PeerId) (r : PeerMessageResponse)
    (c : PeerMessageContext) : Prop :=
  mc_peer_id c = p ∧
  ((live env m p ∧ mc_message c = r ∧ ∃ i, identities m !! p = Some i ∧ mc_frost_identifier c = Some i) ∨
   (¬ live env m p ∧ mc_frost_identifier c = None ∧ ∃ st, mc_message c = PmError st)).

Lemma on_peer_message_ok env p r m :
  manager_ok m →
  ∃ c m', on_peer_message env p r m =
      (Ok ((λ s, Forward s c) <$> filter (λ s, stream_open env s = true) (task_forwarder_txs m)), m') ∧
    kept m m' ∧ context_of env m p r c.
Proof.
  intros Hok. unfold on_peer_message, sbind at 1, sget.
  destruct (retrieve_peer_data_spec env p m Hok) as (d & m' & Hr & Hok' & Hcol & Hd).
  unfold sbind. rewrite Hr. eexists _, m'. rewrite (col_streams _ _ _ Hcol).
  split; [reflexivity|]. split; [by eapply kept_collected|]. split; [done|]. simpl.
  unfold is_authority_peer. destruct d as [d|]; simpl in Hd |- *.
  - destruct Hd as (a & idx & c & Ha & Hl & ->). left. split; [by exists idx, c|].
    rewrite Ha, bool_decide_eq_true_2 by eauto. split; [done|].
    exists (frost_identifier a). split; [|done]. unfold identities. by rewrite lookup_fmap, Ha.
  - right. split_and!; [done|done|]. case_bool_decide; eauto.
Qed.

Lemma on_network_event_ok env ev m :
  manager_ok m → connection_counter m < u64_max →
  ∃ out m', on_network_event env ev m = (Ok out, m') ∧ kept m m' ∧
    ∀ s c, Forward s c ∈ out → s ∈ task_forwarder_txs m ∧
      ∃ p r, ev = EvPeerMessage p r ∧ context_of env m p r c.
Proof.
  intros Hok Hmax. destruct ev as [dir p tx|idx|p r]; simpl.
  - destruct (on_connection_established_ok env dir p tx m Hok Hmax) as (out & m' & -> & ? & Hout).
    exists out, m'. split_and!; [done..|]. by intros s c ?%Hout.
  - destruct (on_connection_closed_ok idx m Hok) as (m' & -> & ? & _).
    exists [], m'. split_and!; [done..|]. by intros s c ?%not_elem_of_nil.
  - destruct (on_peer_message_ok env p r m Hok) as (c & m' & -> & ? & Hctx).
    eexists _, m'. split_and!; [done..|].
    intros s c' (s' & [= -> ->] & [_ ?]%list_elem_of_filter)%list_elem_of_fmap. split; [done|].
    by exists p, r.
Qed.

Lemma request_wallet_states_ok env uuid l m :
  manager_ok m → ∃ out m', request_wallet_states env uuid l m = (Ok out, m') ∧ kept m m'.
Proof.
  revert m. induction l as [|p l IH]; intros m Hok.
  { exists [], m. split; [done|by apply kept_refl]. }
  destruct (retrieve_peer_data_spec env p m Hok) as (d & m1 & Hr & Hok1 & Hcol & _).
  destruct (IH m1 Hok1) as (out & m2 & Hl & Hk). simpl. unfold sbind. rewrite Hr, Hl.
  eexists _, m2. split; [reflexivity|]. eapply kept_trans; [by eapply kept_collected|done].
Qed.

Lemma on_command_ok env cmd m :
  manager_ok m → ∃ out m', on_command env cmd m = (Ok out, m') ∧ kept m m'.
Proof.
  intros Hok. destruct (retrieve_all_spec env (authority_ids m) m Hok) as (os & m' & Hr & Hok' & Hcol & _).
  destruct cmd; simpl.
  - unfold all_authority_peers_connected, sbind, sget. rewrite Hr.
    eexists _, m'. eauto using kept_collected.
  - unfold sbind, sget. rewrite Hr. eexists _, m'. eauto using kept_collected.
  - eexists _, _. split; [reflexivity|]. split_and!; [|done|simpl; lia|done]. by destruct Hok.
  - by apply request_wallet_states_ok.
Qed.

(** *** Runs of the manager *)

Inductive manager_step : FrostManager → FrostManager → Prop :=
  | step_event env ev out m m' :
      connection_counter m < u64_max → on_network_event env ev m = (Ok out, m') → manager_step m m'
  | step_command env cmd out m m' : on_command env cmd m = (Ok out, m') → manager_step m m'.

Lemma manager_step_kept m m' : manager_ok m → manager_step m m' → kept m m'.
Proof.
  intros Hok Hs. destruct Hs as [env ev out m1 m2 Hmax Hr|env cmd out m1 m2 Hr].
  - destruct (on_network_event_ok env ev m1 Hok Hmax) as (? & ? & ? & ? & _). naive_solver congruence.
  - destruct (on_command_ok env cmd m1 Hok) as (? & ? & ? & ?). naive_solver congruence.
Qed.
Lemma manager_run_kept m m' : manager_ok m → rtc manager_step m m' → kept m m'.
Proof.
  intros Hok Hr. revert Hok. induction Hr as [m|m1 m2 m3 Hs Hr IH]; intros Hok; [by apply kept_refl|].
  pose proof (manager_step_kept _ _ Hok Hs) as Hk. eapply kept_trans; [exact Hk|]. apply IH, Hk.
Qed.

Section new.
Context `{!Secp256k1} (derive : bytes → option Identifier) (uncompressed : PublicKey → bytes).

(** The peer id [p] is the [i]-th of the configured keys, and [id] its identifier. *)
Definition configured (keys : list PublicKey) (p : PeerId) (id : Identifier) : Prop :=
  ∃ (i : nat) pk, keys !! i = Some pk ∧ p = drop 1 (uncompressed pk) ∧
    derive (to_le_bytes 2 (Z.of_nat i mod 65536)) = Some id.

Lemma collect_authorities_spec n l acc auths :
  collect_authorities derive uncompressed (Z.of_nat n) l acc = Ok auths →
  ∀ p a, auths !! p = Some a →
    acc !! p = Some a ∨
    (connections a = ∅ ∧ ∃ i pk, l !! i = Some pk ∧ p = drop 1 (uncompressed pk) ∧
      derive (to_le_bytes 2 (Z.of_nat (n + i) mod 65536)) = Some (frost_identifier a)).
Proof.
  revert n acc. induction l as [|pk l IH]; intros n acc Hc p a Ha; simpl in Hc.
  { injection Hc as <-. by left. }
  apply rbind_ok in Hc as (id & Hid%expect_ok & Hc).
  apply rbind_ok in Hc as (q & Hq & Hc). unfold peer_id_from_slice in Hq.
  apply rbind_ok in Hq as (? & _ & Hq). injection Hq as <-.
  replace (Z.of_nat n + 1) with (Z.of_nat (S n)) in Hc by lia.
  destruct (IH _ _ Hc p a Ha) as [Hacc|(He & i & pk' & Hl & Hp & Hd)].
  - apply lookup_insert_Some in Hacc as [[<- <-]|[_ ?]]; [|by left]. right. split; [done|].
    exists 0%nat, pk. by rewrite Nat.add_0_r.
  - right. split; [done|]. exists (S i), pk'. split_and!; [done..|].
    by replace (n + S i)%nat with (S n + i)%nat by lia.
Qed.

Lemma new_manager_ok keys own m :
  new derive uncompressed keys own = Ok m →
  manager_ok m ∧ own_peer_id m = own ∧
  ∀ p id, identities m !! p = Some id → configured keys p id.
Proof.
  unfold new. intros (auths & Ha & [= <-])%rbind_ok.
  pose proof (collect_authorities_spec 0 keys ∅ auths Ha) as Hspec.
  assert (∀ p a, auths !! p = Some a → connections a = ∅ ∧ configured keys p (frost_identifier a)) as Hp.
  { intros p a Hpa. destruct (Hspec p a Hpa) as [He|(? & i & pk & ? & ? & ?)]; [by rewrite lookup_empty in He|].
    split; [done|]. by exists i, pk. }
  split; [|split; [done|]].
  - split; simpl; [|intros ? ? Hx; by rewrite lookup_empty in Hx|done].
    intros p a idx [He _]%Hp. rewrite He. by intros ?%elem_of_empty.
  - unfold identities. simpl. intros p id. rewrite lookup_fmap, fmap_Some.
    intros (a & [_ ?]%Hp & ->). done.
Qed.

(** C29. A manager that starts from the configured keys and handles any events and
    commands never panics (until it has numbered 2^64 connections).  What it forwards
    to a task comes from an event of the same peer; with the message of that event it
    carries the identifier of the configured key the peer id is made of, and the peer
    has a live connection; in every other case it carries an error and no identifier. *)
Theorem forwarded_messages_authenticated (keys : list PublicKey) (own : PeerId) (m0 m : FrostManager)
    (env : Channels) (ev : FrostProtocolEvent) :
  new derive uncompressed keys own = Ok m0 → rtc manager_step m0 m →
  connection_counter m < u64_max →
  ∃ out m', on_network_event env ev m = (Ok out, m') ∧
    ∀ s c, Forward s c ∈ out → ∃ r, ev = EvPeerMessage (mc_peer_id c) r ∧
      ((mc_message c = r ∧ live env m (mc_peer_id c) ∧
        ∃ id, mc_frost_identifier c = Some id ∧ configured keys (mc_peer_id c) id) ∨
       (mc_frost_identifier c = None ∧ ¬ live env m (mc_peer_id c) ∧
        ∃ st, mc_message c = PmError st)).
Proof.
  intros Hnew Hrun Hmax. destruct (new_manager_ok _ _ _ Hnew) as (Hok0 & _ & Hconf).
  destruct (manager_run_kept _ _ Hok0 Hrun) as (Hok & [Hids _] & _).
  destruct (on_network_event_ok env ev m Hok Hmax) as (out & m' & Hr & _ & Hout).
  exists out, m'. split; [done|]. intros s c Hc.
  destruct (Hout s c Hc) as (_ & p & r & -> & <- & Hctx). exists r. split; [done|].
  destruct Hctx as [(? & ? & id & Hid & ?)|(? & ? & ?)]; [left|by right].
  split_and!; [done..|]. exists id. split; [done|]. apply Hconf. by rewrite <-Hids.
Qed.

(** Asked whether it is connected to all authorities, the manager of an authority
    answers yes exactly when every authority but itself has a live connection. *)
Theorem connected_to_all_iff (keys : list PublicKey) (own : PeerId) (m0 m : FrostManager)
    (env : Channels) :
  new derive uncompressed keys own = Ok m0 → rtc manager_step m0 m →
  own ∈ dom (authorities m0) → Z.of_nat (size (authorities m0)) ≤ u64_max →
  ∃ b m', on_command env CheckConnectedToAll m = (Ok [AllConnected b], m') ∧
    (b = true ↔ ∀ p, p ∈ dom (authorities m0) → p ≠ own → live env m p).
Proof.
  intros Hnew Hrun Hown Hmax. destruct (new_manager_ok _ _ _ Hnew) as (Hok0 & <- & _).
  destruct (manager_run_kept _ _ Hok0 Hrun) as (Hok & [Hids Ho] & _).
  assert (dom (authorities m) = dom (authorities m0)) as Hdom.
  { pose proof (f_equal dom Hids) as Hd. unfold identities in Hd. by rewrite !dom_fmap_L in Hd. }
  destruct (all_authority_peers_connected_spec env m Hok) as (b & m' & Hr & _ & _ & Hb).
  - by rewrite Hdom, Ho.
  - by rewrite <-size_dom, Hdom, size_dom.
  - exists b, m'. simpl. unfold sbind. rewrite Hr. split; [done|]. rewrite Hb. by rewrite Hdom, Ho.
Qed.

(** A connection that was reported closed stays in the manager's map whatever
    happens later. *)
Theorem closed_connection_never_freed (keys : list PublicKey) (own : PeerId)
    (m0 m1 m2 m3 : FrostManager) (env : Channels) (idx : Z) (c : Connection) out :
  new derive uncompressed keys own = Ok m0 → rtc manager_step m0 m1 →
  peer_connections m1 !! idx = Some c →
  on_network_event env (EvConnectionClosed idx) m1 = (Ok out, m2) → rtc manager_step m2 m3 →
  peer_connections m3 !! idx = Some c.
Proof.
  intros Hnew Hrun Hc Hclose Hrun'. destruct (new_manager_ok _ _ _ Hnew) as (Hok0 & _ & _).
  destruct (manager_run_kept _ _ Hok0 Hrun) as (Hok1 & _).
  destruct (on_connection_closed_ok idx m1 Hok1) as (m2' & Hr & (Hok2 & _) & Ho).
  simpl in Hclose. rewrite Hr in Hclose. injection Hclose as _ <-.
  destruct (manager_run_kept _ _ Hok2 Hrun') as (_ & _ & _ & Hk). apply Hk, Ho, Hc.
Qed.
End new.
End manager.

(** ** A connection *)

Section connection.
Import FrostProtoConnection FrostProtoMessage.
Context `{PeerText}.

(** The commands' receiver is there exactly while the connection is registered. *)
Definition connection_ok (c : FrostProtoConnection) : Prop :=
  match registration c with
  | Registered _ => is_Some (commands_rx c)
  | NotRegistered | RegPending _ => commands_rx c = None
  end.

(** What a poll does to a connection: it stays well-formed, it speaks for its peer,
    and it passes messages on only once the manager has registered it. *)
Definition speaks_for (c c' : FrostProtoConnection) (e : FrostProtocolEvent) : Prop :=
  (∃ ch, e = EvConnectionEstablished (direction c) (peer_id c) ch ∧ registration c = NotRegistered) ∨
  (∃ r, e = EvPeerMessage (peer_id c) r ∧ ∃ idx, registration c' = Registered idx).
Definition polled (c c' : FrostProtoConnection) : Prop :=
  connection_ok c' ∧ peer_id c' = peer_id c ∧ direction c' = direction c ∧
  my_peer_id c' = my_peer_id c ∧
  ∃ events, emitted c' = emitted c ++ events ∧ Forall (speaks_for c c') events.

(** The ways a poll changes a connection: nothing is emitted, or one event. *)
Lemma polled_silent c c' :
  connection_ok c' → peer_id c' = peer_id c → direction c' = direction c →
  my_peer_id c' = my_peer_id c → emitted c' = emitted c → polled c c'.
Proof. intros ? ? ? ? He. split_and!; try done. exists []. by rewrite He, app_nil_r. Qed.
Lemma polled_emits c c' e :
  connection_ok c' → peer_id c' = peer_id c → direction c' = direction c →
  my_peer_id c' = my_peer_id c → emitted c' = emitted c ++ [e] → speaks_for c c' e → polled c c'.
Proof.
  intros ? ? ? ? He Hs. split_and!; try done. exists [e]. split; [done|]. by apply Forall_singleton.
Qed.

(** After [register] the connection is registered or the poll has returned. *)
Lemma register_ok env c :
  connection_ok c →
  match register env c with
  | (Panic, _) => False
  | (Err _, c') => polled c c'
  | (Ok _, c') => polled c c' ∧ ∃ idx, registration c' = Registered idx
  end.
Proof.
  destruct c as [reg q closed cmds my p dir pong em co], env as [rr sr fc cb rm sm].
  unfold connection_ok. simpl. intros Hok. unfold register. cbn.
  destruct reg as [|rx|idx]; [destruct rr as [|[|]], sr, cb as [|[[]|]]|destruct cb as [|[[]|]]|]; cbn;
    repeat lazymatch goal with
    | |- polled _ _ ∧ _ => split; [|by eexists]
    end;
    first [ apply polled_silent; [|done..]
          | eapply polled_emits; [|done|done|done|done|left; by eexists] ];
    unfold connection_ok; simpl; eauto.
Qed.

(** A piece of a poll that emits nothing and leaves the registration alone. *)
Definition silent (c c' : FrostProtoConnection) : Prop :=
  registration c' = registration c ∧ peer_id c' = peer_id c ∧ direction c' = direction c ∧
  my_peer_id c' = my_peer_id c ∧ emitted c' = emitted c ∧
  (is_Some (commands_rx c) → is_Some (commands_rx c')).
#[local] Instance silent_preorder : PreOrder silent.
Proof.
  split; [done|]. intros c1 c2 c3 (? & ? & ? & ? & ? & ?) (? & ? & ? & ? & ? & ?).
  split_and!; try congruence. auto.
Qed.

Lemma poll_commands_silent : guarantees silent poll_commands.
Proof.
  intros c. unfold poll_commands, sbind, sget, slift, smodify, return_with. simpl.
  destruct (commands_rx c) as [[|cmd q]|] eqn:Hq; simpl; [done| |done].
  destruct cmd as [msg r|[?|?|?|?]]; simpl; (split_and!; try done; by eexists).
Qed.
Lemma next_message_silent closed q : guarantees silent (next_message closed q).
Proof.
  induction q as [|b q IH]; intros c; simpl; [by split_and!|].
  destruct (decode_message b).1; [by split_and!|apply IH|done].
Qed.
Lemma incoming_silent k : guarantees silent (incoming k).
Proof.
  intros c. destruct k; simpl; try done.
  all: unfold sbind, confirm_pong, sbind, sget, return_with, slift, smodify, sret;
    destruct (pending_pong c); by split_and!.
Qed.
Lemma reserved_silent r : guarantees silent (reserved r).
Proof. by destruct r as [|[|]]. Qed.

(** Pieces of a poll that do not panic, where the commands' receiver is there. *)
Definition calm {A} (m : SM FrostProtoConnection (Poll (option bytes)) A) : Prop :=
  ∀ c, is_Some (commands_rx c) → (m c).1 ≠ Panic.
Lemma calm_bind {A B} (m : SM FrostProtoConnection (Poll (option bytes)) A) k :
  calm m → guarantees silent m → (∀ a, calm (k a)) → calm (sbind (B := B) m k).
Proof.
  intros Hm Hs Hk c Hc. unfold sbind. specialize (Hm c Hc). specialize (Hs c).
  destruct (m c) as [[a|e|] c']; simpl in *; [|done|done]. apply Hk. by apply Hs.
Qed.
Lemma calm_poll_commands : calm poll_commands.
Proof.
  intros c [q Hq]. unfold poll_commands, sbind, sget, slift. rewrite Hq. simpl.
  destruct q as [|[msg r|[?|?|?|?]] q]; done.
Qed.
Lemma calm_next_message closed q : calm (next_message closed q).
Proof.
  induction q as [|b q IH]; intros c Hc; [done|]. simpl.
  pose proof (no_panic_decode_message b) as Hn. destruct (decode_message b).1; [done|by apply IH|done].
Qed.
Lemma calm_incoming k : calm (incoming k).
Proof.
  intros c _. destruct k; try done; simpl; unfold sbind, confirm_pong, sbind, sget;
    by destruct (pending_pong c).
Qed.
Lemma calm_reserved r : calm (reserved r).
Proof. by destruct r as [|[|]]. Qed.

Lemma silent_polled c c' idx :
  registration c = Registered idx → is_Some (commands_rx c) → silent c c' → polled c c'.
Proof.
  intros Hr Hc (Hr' & ? & ? & ? & ? & ?). apply polled_silent; try done.
  unfold connection_ok. rewrite Hr', Hr. auto.
Qed.

Lemma next_response_silent env : guarantees silent (next_response env).
Proof.
  unfold next_response. apply guarantees_bind; [apply _|apply poll_commands_silent|intros _].
  apply guarantees_bind; [apply _|apply reserved_silent|intros _].
  apply guarantees_bind; [apply _|by intros ?|intros c].
  apply guarantees_bind; [apply _|apply next_message_silent|intros msg]. apply incoming_silent.
Qed.
Lemma calm_next_response env : calm (next_response env).
Proof.
  unfold next_response.
  apply calm_bind; [apply calm_poll_commands|apply poll_commands_silent|intros _].
  apply calm_bind; [apply calm_reserved|apply reserved_silent|intros _].
  apply calm_bind; [done|by intros ?|intros c].
  apply calm_bind; [apply calm_next_message|apply next_message_silent|intros msg].
  apply calm_incoming.
Qed.

Lemma polled_trans_silent c c1 c2 idx :
  polled c c1 → registration c1 = Registered idx → silent c1 c2 → polled c c2.
Proof.
  intros (Hok & Hp & Hd & Hm & ev & He & Hf) Hr (Hr' & Hp' & Hd' & Hm' & He' & Hc').
  split_and!; try congruence.
  - unfold connection_ok in *. rewrite Hr', Hr. rewrite Hr in Hok. auto.
  - exists ev. split; [congruence|]. eapply Forall_impl; [exact Hf|]. intros e [?|(r & ? & ?)];
      [by left|right]. exists r. split; [done|]. exists idx. congruence.
Qed.

Lemma polled_emit c c1 idx r :
  polled c c1 → registration c1 = Registered idx → polled c (emit (EvPeerMessage (peer_id c1) r) c1).
Proof.
  intros (Hok & Hp & Hd & Hm & ev & He & Hf) Hr. split_and!; try done. exists (ev ++ [EvPeerMessage (peer_id c1) r]).
  split; [simpl; by rewrite He, app_assoc|]. apply Forall_app. split; [|apply Forall_singleton].
  - eapply Forall_impl; [exact Hf|]. intros e [?|?]; [by left|by right].
  - right. exists r. split; [by rewrite Hp|]. by exists idx.
Qed.

(** Polling a well-formed connection does not panic. *)
Lemma poll_next_ok env c :
  connection_ok c → ∃ p c', poll_next env c = (Ok p, c') ∧ polled c c'.
Proof.
  intros Hok. unfold poll_next, poll_body, sbind at 1. pose proof (register_ok env c Hok) as Hr.
  destruct (register env c) as [[[]|e|] c1]; [|by eexists _, c1|done].
  destruct Hr as (Hp & idx & Hreg).
  assert (is_Some (commands_rx c1)) as Hc1.
  { destruct Hp as [Hok1 _]. unfold connection_ok in Hok1. by rewrite Hreg in Hok1. }
  pose proof (next_response_silent env c1) as Hs. pose proof (calm_next_response env c1 Hc1) as Hn.
  unfold sbind at 1. destruct (next_response env c1) as [[r|e|] c2]; simpl in Hs, Hn; [| |done].
  - pose proof (polled_trans_silent _ _ _ _ Hp Hreg Hs) as Hp2. unfold sbind, sget.
    destruct (send_message env); (eexists _, _; split; [reflexivity|]); [|done].
    apply (polled_emit _ _ idx); [done|]. destruct Hs as [-> _]. done.
  - eexists _, c2. split; [done|]. by eapply polled_trans_silent.
Qed.

(** *** Runs of a connection: polls, messages of the peer, commands of the tasks *)

Inductive connection_step : FrostProtoConnection → FrostProtoConnection → Prop :=
  | conn_polled env r c c' : poll_next env c = (r, c') → connection_step c c'
  | conn_received b c : connection_step c (put_conn_rx (conn_rx c ++ [b]) c)
  | conn_ended c : connection_step c (put_conn_closed true c)
  | conn_commanded q cmd c :
      commands_rx c = Some q → connection_step c (put_commands_rx (Some (q ++ [cmd])) c)
  | conn_offered rx cmd c :
      registration c = RegPending rx →
      connection_step c (put_registration (RegPending (rx ++ [cmd])) c).

Lemma connection_step_ok c c' :
  connection_ok c → connection_step c c' →
  connection_ok c' ∧ peer_id c' = peer_id c ∧ direction c' = direction c.
Proof.
  intros Hok Hs. destruct Hs as [env r c c' Hp|b c|c|q cmd c Hq|rx cmd c Hr]; try done.
  - destruct (poll_next_ok env c Hok) as (p & c2 & Hp' & ? & ? & ? & _). naive_solver congruence.
  - split_and!; try done. unfold connection_ok in *. simpl. destruct (registration c); [congruence..|done].
  - split_and!; try done. unfold connection_ok in *. simpl. by rewrite Hr in Hok.
Qed.
Lemma connection_run_ok c c' :
  connection_ok c → rtc connection_step c c' →
  connection_ok c' ∧ peer_id c' = peer_id c ∧ direction c' = direction c.
Proof.
  intros Hok Hr. revert Hok. induction Hr as [c|c1 c2 c3 Hs _ IH]; intros Hok; [done|].
  destruct (connection_step_ok _ _ Hok Hs) as (? & <- & <-). by apply IH.
Qed.

(** C30. Polling a connection never panics, whatever the peer, the manager and the
    tasks have sent before.  Every event it emits is about its own peer: a
    registration, only while it is not registered, or a message, only once the manager
    has registered it. *)
Theorem connection_speaks_for_its_peer (my p : PeerId) (dir : Direction) (conn : list bytes)
    (c : FrostProtoConnection) (env : PollEnv) :
  rtc connection_step (into_connection my dir p conn) c →
  ∃ r c' events, poll_next env c = (Ok r, c') ∧ emitted c' = emitted c ++ events ∧
    ∀ e, e ∈ events →
      (∃ ch, e = EvConnectionEstablished dir p ch ∧ registration c = NotRegistered) ∨
      (∃ m, e = EvPeerMessage p m ∧ ∃ idx, registration c' = Registered idx).
Proof.
  intros Hrun. apply connection_run_ok in Hrun as (Hok & Hp & Hd); [|done]. simpl in Hp, Hd.
  destruct (poll_next_ok env c Hok) as (r & c' & Hpoll & _ & _ & _ & _ & events & He & Hf).
  exists r, c', events. split_and!; [done..|]. rewrite Forall_forall in Hf. intros e Hin.
  rewrite <-Hp, <-Hd. by apply Hf.
Qed.

(** *** From a task to the tasks of the peer *)

(** Messages of tasks that fit the wire format. *)
Definition response_fits (r : PeerMessageResponse) : Prop :=
  match r with
  | PmDkg d => len (dkg_sender d) ≤ 255 ∧ len (dkg_recipient d) ≤ 255 ∧ len (dkg_data d) ≤ u32_max
  | PmSigning g => len (sr_session g) ≤ u32_max ∧ len (sr_psbt g) ≤ u32_max
  | PmWalletState w => is_utf8 (ws_uuid w) = true ∧ len (ws_uuid w) ≤ u32_max ∧
      len (ws_finalized_pegout_ids w) ≤ u32_max
  | PmError _ => False
  end.

(** The message that carries a response, which the peer's side turns back into it. *)
Lemma outgoing_incoming r :
  response_fits r →
  ∃ m, fits m ∧ (∀ c, outgoing (PeerMessage r) c = (Ok m, c)) ∧
    ∀ c, incoming (message m) c = (Ok r, c).
Proof.
  destruct r as [d|[[] ? ?]|w|st]; simpl; intros Hfit; [..|done];
    (eexists; split; [|split; [reflexivity|]]);
    try (intros c; by destruct d); try (intros c; by destruct w); try (intros c; reflexivity);
    (split; [done|]); unfold kind_fits, sign_fits; simpl; unfold u16_max; destruct_and?;
    split_and!; first [done|lia].
Qed.

Lemma poll_sends env c idx r q m :
  registration c = Registered idx → commands_rx c = Some (PeerMessage r :: q) →
  (∀ c, outgoing (PeerMessage r) c = (Ok m, c)) →
  poll_next env c = (Ok (Ready (Some (encoded m))), put_commands_rx (Some q) c).
Proof.
  intros Hr Hq Hm. unfold poll_next, poll_body, register, next_response, poll_commands.
  unfold sbind, sget, smodify, slift. rewrite Hr. unfold sret. rewrite Hq. simpl.
  by rewrite Hm.
Qed.

Lemma next_message_skips `{!PeerTextLaws} closed junk m rest c :
  Forall (λ b, (decode_message b).1 = Err tt) junk → fits m →
  next_message closed (junk ++ encoded m :: rest) c = (Ok m, put_conn_rx rest c).
Proof.
  intros Hj Hm. induction Hj as [|b junk Hb _ IH]; simpl.
  - pose proof (decode_message_encoded m [] Hm) as Hd. rewrite app_nil_r in Hd. by rewrite Hd.
  - by rewrite Hb.
Qed.

Lemma poll_receives `{!PeerTextLaws} env c idx r junk m rest :
  registration c = Registered idx → commands_rx c = Some [] →
  conn_rx c = junk ++ encoded m :: rest → Forall (λ b, (decode_message b).1 = Err tt) junk →
  fits m → (∀ c, incoming (message m) c = (Ok r, c)) →
  reserve_message env = Ready true → send_message env = true →
  poll_next env c = (Ok Pending, emit (EvPeerMessage (peer_id c) r) (put_conn_rx rest c)).
Proof.
  intros Hr Hq Hc Hj Hm Hi Hres Hsend.
  assert (next_response env c = (Ok r, put_conn_rx rest c)) as Hn.
  { unfold next_response, poll_commands, sbind, sget, slift, reserved. rewrite Hq, Hres. simpl.
    rewrite Hc, next_message_skips by done. apply Hi. }
  unfold poll_next, poll_body, register. unfold sbind at 1 2, sget. rewrite Hr. unfold sret.
  unfold sbind. rewrite Hn. by rewrite Hsend.
Qed.
End connection.

Section delivery.
Import FrostManager.
Context `{Frost, PeerText, !PeerTextLaws, !Secp256k1}.
Context (derive : bytes → option Identifier) (uncompressed : PublicKey → bytes).

(** C28. A message of key generation, signing or wallet synchronization whose fields are
    within the widths of the wire format ([response_fits]: the sender and recipient of a
    key generation message at most 255 bytes, the other fields at most 2^32 - 1, the
    request id valid UTF-8) is delivered as it is; longer fields are truncated
    ([long_sender_is_misread]), and error answers have no such guarantee.  When a task
    hands it to the registered connection to a peer it leaves as bytes, and the registered
    connection at the peer, when it reads them (behind bytes it cannot decode), emits
    the same message as an event of the sender.  The manager there forwards it to every
    task that listens, with the identifier of the sender's configured key, if the sender
    has a live connection. *)
Theorem sent_message_delivered (r : PeerMessageResponse)
    (c1 c2 : FrostProtoConnection.FrostProtoConnection) (env1 env2 : FrostProtoConnection.PollEnv)
    (idx1 idx2 : Z) (q : list FrostPeerCommand) (junk rest : list bytes)
    (keys : list PublicKey) (own : PeerId) (m0 m : FrostManager) (env : Channels) :
  response_fits r →
  FrostProtoConnection.registration c1 = FrostProtoConnection.Registered idx1 →
  FrostProtoConnection.commands_rx c1 = Some (PeerMessage r :: q) →
  FrostProtoConnection.registration c2 = FrostProtoConnection.Registered idx2 →
  FrostProtoConnection.commands_rx c2 = Some [] →
  Forall (λ b, (FrostProtoMessage.decode_message b).1 = Err tt) junk →
  FrostProtoConnection.reserve_message env2 = FrostProtoConnection.Ready true →
  FrostProtoConnection.send_message env2 = true →
  new derive uncompressed keys own = Ok m0 → rtc manager_step m0 m →
  live env m (FrostProtoConnection.peer_id c2) →
  ∃ bs c1' c2' id m',
    FrostProtoConnection.poll_next env1 c1 = (Ok (FrostProtoConnection.Ready (Some bs)), c1') ∧
    FrostProtoConnection.commands_rx c1' = Some q ∧
    (FrostProtoConnection.conn_rx c2 = junk ++ bs :: rest →
     FrostProtoConnection.poll_next env2 c2 = (Ok FrostProtoConnection.Pending, c2') ∧
     FrostProtoConnection.conn_rx c2' = rest ∧
     FrostProtoConnection.emitted c2' =
       FrostProtoConnection.emitted c2 ++ [EvPeerMessage (FrostProtoConnection.peer_id c2) r]) ∧
    configured derive uncompressed keys (FrostProtoConnection.peer_id c2) id ∧
    on_network_event env (EvPeerMessage (FrostProtoConnection.peer_id c2) r) m =
      (Ok ((λ s, Forward s {| mc_peer_id := FrostProtoConnection.peer_id c2;
                              mc_frost_identifier := Some id; mc_message := r |})
           <$> filter (λ s, stream_open env s = true) (task_forwarder_txs m)), m').
Proof.
  intros Hfit Hr1 Hq1 Hr2 Hq2 Hj Hres Hsend Hnew Hrun Hlive.
  destruct (outgoing_incoming r Hfit) as (msg & Hm & Hout & Hin).
  destruct (new_manager_ok derive uncompressed _ _ _ Hnew) as (Hok0 & _ & Hconf).
  destruct (manager_run_kept _ _ Hok0 Hrun) as (Hok & [Hids _] & _).
  destruct (on_peer_message_ok env (FrostProtoConnection.peer_id c2) r m Hok)
    as ([p oid msg'] & m' & Hfwd & _ & Hp & [(_ & Hmsg & id & Hid & Hoid)|(Hn & _)]); [|done].
  simpl in Hp, Hmsg, Hoid. subst p msg' oid. rewrite Hids in Hid.
  eexists (FrostProtoMessage.encoded msg), _, _, id, m'. split_and!; [by eapply poll_sends|done| | |done].
  - intros Hc. split_and!; [by eapply poll_receives|done|done].
  - by apply Hconf.
Qed.
End delivery.
