(* ===== verification/FrostNetworkSample.v ===== *)
(** * Two authorities on the network

    The manager of the first of two authorities, to which the second has connected,
    and the connections at both ends; the theorems of [FrostMessagesTheory] and
    [FrostNetworkTheory] there. *)

From S2P Require Import Prelude Bitcoin Psbt Codec FrostSigning FrostTask FrostMessages FrostMessagesTheory FrostNetwork FrostNetworkTheory.

Module SampleNetwork.
Import Sample.

(** The text of a peer id is its bytes. *)
#[export] Instance text : PeerText := {|
  peer_to_string p := take 64 p;
  peer_from_str s := if (length s =? 64)%nat then Some s else None;
  is_utf8 _ := true;
|}.
#[export] Instance text_laws : PeerTextLaws.
Proof.
  split; simpl.
  - intros p Hp. rewrite length_take, Hp. simpl. by rewrite take_ge by lia.
  - done.
  - intros p. rewrite length_take. unfold u16_max. lia.
  - intros s p. destruct (Nat.eqb_spec (length s) 64); [|done]. by intros [= <-].
Qed.

(** A key is a number, its peer id 64 times the number. *)
#[export] Instance secp : Secp256k1 := {|
  PublicKey := Z;
  pk_serialize k := replicate 33 k;
  pk_from_slice s := head s;
  xonly_even_public_key s := head s;
|}.
Definition uncompressed (k : PublicKey) : bytes := 4 :: replicate 64 (k : Z).
Definition keys : list PublicKey := [10; 11].
Definition derive (b : bytes) : option Identifier := Some (from_le_bytes b).
Definition peer (k : Z) : PeerId := replicate 64 k.

(** The first authority's manager: the second connects, a task starts to listen. *)
Definition open_channels : FrostManager.Channels := {|
  FrostManager.is_closed _ := false; FrostManager.accepts _ := true;
  FrostManager.stream_open _ := true; FrostManager.callback_closed := false;
  FrostManager.callback_accepts := true |}.
Definition initial : FrostManager.FrostManager := {|
  FrostManager.own_peer_id := peer 10; FrostManager.connection_counter := 0;
  FrostManager.authorities :=
    {[ peer 10 := {| FrostManager.connections := ∅; FrostManager.frost_identifier := 0 : @Identifier frost |};
       peer 11 := {| FrostManager.connections := ∅; FrostManager.frost_identifier := 1 : @Identifier frost |} ]};
  FrostManager.peer_connections := ∅; FrostManager.task_forwarder_txs := [] |}.
Definition connected : FrostManager.FrostManager :=
  (FrostManager.on_network_event open_channels (EvConnectionEstablished Incoming (peer 11) 5) initial).2.
Definition listening : FrostManager.FrostManager :=
  (FrostManager.on_command open_channels FrostManager.GetPeerMessagesStream connected).2.

(** An equation that holds by evaluation. *)
Ltac exact_vm := lazymatch goal with |- _ = ?y => vm_cast_no_check (eq_refl y) end.

Lemma initial_new : FrostManager.new derive uncompressed keys (peer 10) = Ok initial.
Proof. exact_vm. Qed.
Lemma listening_reached : rtc manager_step initial listening.
Proof.
  apply rtc_l with connected; [|apply rtc_once].
  - apply (step_event open_channels (EvConnectionEstablished Incoming (peer 11) 5)
      [FrostManager.Status (Success 0)]); [done|]. exact_vm.
  - apply (step_command open_channels FrostManager.GetPeerMessagesStream [FrostManager.Stream 0%nat]).
    exact_vm.
Qed.
Lemma second_live : live open_channels listening (peer 11).
Proof.
  exists 0, {| FrostManager.c_peer_id := peer 11; FrostManager.peer_commands_tx := 5;
               FrostManager.c_direction := Incoming |}.
  exists {| FrostManager.connections := {[0]}; FrostManager.frost_identifier := 1 : @Identifier frost |}.
  split_and!; [exact_vm|set_solver|exact_vm|done].
Qed.

(** A message of key generation, and both ends of the connection. *)
Definition dkg : PeerMessageResponse :=
  PmDkg {| dkg_data := [1; 2; 3]; dkg_sender := [7]; dkg_recipient := [8] |}.
Definition registered (my p : Z) (idx : Z) (cmds : list FrostPeerCommand) (rx : list bytes)
    : FrostProtoConnection.FrostProtoConnection := {|
  FrostProtoConnection.registration := FrostProtoConnection.Registered idx;
  FrostProtoConnection.conn_rx := rx; FrostProtoConnection.conn_closed := false;
  FrostProtoConnection.commands_rx := Some cmds; FrostProtoConnection.my_peer_id := peer my;
  FrostProtoConnection.peer_id := peer p; FrostProtoConnection.direction := Incoming;
  FrostProtoConnection.pending_pong := None; FrostProtoConnection.emitted := [];
  FrostProtoConnection.confirmed := [] |}.
Definition ready : FrostProtoConnection.PollEnv := {|
  FrostProtoConnection.reserve_registration := FrostProtoConnection.Ready true;
  FrostProtoConnection.send_registration := true; FrostProtoConnection.fresh_channel := 5;
  FrostProtoConnection.callback := FrostProtoConnection.Ready (Some (Success 0));
  FrostProtoConnection.reserve_message := FrostProtoConnection.Ready true;
  FrostProtoConnection.send_message := true |}.
(** The message on the wire. *)
Definition wire : bytes := [0; 1; 7; 1; 8; 3; 0; 0; 0; 1; 2; 3].
End SampleNetwork.
Import Sample SampleNetwork.

Lemma decode_message_sound_witness :
  ∃ m, FrostProtoMessage.decode_message (wire ++ [9]) = (Ok m, [9]) ∧ fits m ∧
    wire ++ [9] = FrostProtoMessage.encoded m ++ [9].
Proof.
  eexists. split; [vm_compute; reflexivity|].
  assert (Forall is_byte (wire ++ [9])) as Hb by (repeat constructor; unfold is_byte; lia).
  pose proof (decode_message_sound (wire ++ [9]) Hb) as Hs.
  vm_compute (FrostProtoMessage.decode_message _) in Hs. destruct Hs as [Hf He].
  split; [exact Hf|]. by apply He.
Defined.

Lemma forwarded_messages_authenticated_witness :
  ∃ out m', FrostManager.on_network_event open_channels (EvPeerMessage (peer 11) dkg) listening =
      (Ok out, m') ∧
    ∀ s c, FrostManager.Forward s c ∈ out → mc_frost_identifier c = Some (1 : @Identifier frost) ∨
      mc_frost_identifier c = None.
Proof.
  destruct (forwarded_messages_authenticated derive uncompressed keys (peer 10) initial listening
    open_channels (EvPeerMessage (peer 11) dkg) initial_new listening_reached) as (out & m' & Hr & Hf);
    [done|].
  exists out, m'. split; [exact Hr|]. intros s c Hc.
  destruct (Hf s c Hc) as (r & [= <- _] & [(_ & _ & id & -> & i & pk & Hi & Hp & Hd)|(-> & _)]); [left|by right].
  destruct i as [|[|i]]; simpl in Hi; [|by injection Hd as <-|done].
  exfalso. injection Hi as <-. vm_compute in Hp. discriminate Hp.
Defined.

Lemma connected_to_all_iff_witness :
  ∃ m', FrostManager.on_command open_channels FrostManager.CheckConnectedToAll listening =
    (Ok [FrostManager.AllConnected true], m').
Proof.
  destruct (connected_to_all_iff derive uncompressed keys (peer 10) initial listening open_channels
    initial_new listening_reached) as (b & m' & Hr & Hb); [decide_vm|vm_compute; discriminate|].
  exists m'. rewrite Hr. repeat f_equal. apply Hb. intros p Hp Hne.
  assert (p = peer 11) as ->; [|exact second_live].
  unfold initial in Hp. simpl in Hp. rewrite dom_insert, dom_singleton in Hp.
  apply elem_of_union in Hp as [Hp|Hp]; apply elem_of_singleton in Hp; [by destruct Hne|done].
Defined.

Definition closed : FrostManager.FrostManager :=
  (FrostManager.on_network_event open_channels (EvConnectionClosed 0) listening).2.
Lemma closed_connection_never_freed_witness :
  FrostManager.peer_connections closed !! 0 =
    Some {| FrostManager.c_peer_id := peer 11; FrostManager.peer_commands_tx := 5;
            FrostManager.c_direction := Incoming |}.
Proof.
  apply (closed_connection_never_freed derive uncompressed keys (peer 10) initial listening
    closed closed open_channels 0 _ [] initial_new listening_reached); [exact_vm|exact_vm|constructor].
Defined.

Lemma connection_speaks_for_its_peer_witness :
  ∃ r c' events, FrostProtoConnection.poll_next ready
      (FrostProtoConnection.into_connection (peer 10) Incoming (peer 11) [wire]) = (Ok r, c') ∧
    FrostProtoConnection.emitted c' = events ∧
    ∀ e, e ∈ events → (∃ ch, e = EvConnectionEstablished Incoming (peer 11) ch) ∨
      ∃ m, e = EvPeerMessage (peer 11) m.
Proof.
  destruct (connection_speaks_for_its_peer (peer 10) (peer 11) Incoming [wire] _ ready
    (rtc_refl _ _)) as (r & c' & events & Hr & He & Hf).
  exists r, c', events. split_and!; [exact Hr|exact He|]. intros e Hin.
  destruct (Hf e Hin) as [(ch & -> & _)|(m & -> & _)]; eauto.
Defined.

Lemma sent_message_delivered_witness :
  ∃ c1' m',
    FrostProtoConnection.poll_next ready (registered 11 10 3 [PeerMessage dkg] []) =
      (Ok (FrostProtoConnection.Ready (Some wire)), c1') ∧
    FrostManager.on_network_event open_channels (EvPeerMessage (peer 11) dkg) listening =
      (Ok [FrostManager.Forward 0%nat {| mc_peer_id := peer 11;
             mc_frost_identifier := Some (1 : @Identifier frost); mc_message := dkg |}], m').
Proof.
  destruct (sent_message_delivered derive uncompressed dkg (registered 11 10 3 [PeerMessage dkg] [])
    (registered 10 11 0 [] [[99]; wire]) ready ready 3 0 [] [[99]] [] keys (peer 10) initial listening
    open_channels) as (bs & c1' & c2' & id & m' & Hs & _ & _ & Hc & Hf);
    [vm_compute; repeat split; discriminate|reflexivity|reflexivity|reflexivity|reflexivity
    |constructor; [vm_compute; reflexivity|constructor]|reflexivity|reflexivity
    |exact initial_new|exact listening_reached|exact second_live|].
  assert (bs = wire) as ->.
  { apply (f_equal fst) in Hs. vm_compute in Hs. by injection Hs. }
  assert (id = (1 : @Identifier frost)) as ->.
  { apply (f_equal fst) in Hf. vm_compute in Hf. by injection Hf. }
  exists c1', m'. split; [exact Hs|exact Hf].
Defined.

(** Two messages wait; the poll passes on the first and returns [Pending], although the
    second is there and nothing will wake the task for it. *)
Example second_message_waits :
  let '(r, c) := FrostProtoConnection.poll_next ready (registered 10 11 0 [] [wire; wire]) in
  r = Ok FrostProtoConnection.Pending ∧ FrostProtoConnection.conn_rx c = [wire] ∧
  FrostProtoConnection.emitted c = [EvPeerMessage (peer 11) dkg].
Proof. vm_compute. auto. Qed.

(** A sender of 256 bytes does not fit its length field: the peer reads a message with
    other content. *)
Example long_sender_is_misread :
  let m := FrostProtoMessage.dkg_request_message (DkgRequest.new [] (replicate 256 0) []) in
  (FrostProtoMessage.decode_message (FrostProtoMessage.encoded m)).1 =
    Ok (FrostProtoMessage.dkg_request_message (DkgRequest.new [] [] [])).
Proof. vm_compute. reflexivity. Qed.
