(* ===== verification/PeginRecovery.v ===== *)
(** * The pegin recovery service

    [bin/pegin-recovery]: a service that holds key shares exported by federation
    members and returns deposits that were never minted.  [database/mod.rs] is record
    [Db] with its operations; [bin/main.rs] is record [Service] with one definition
    per request.  Signing uses the PSBT fields, signing packages and FROST parameters
    of the BTC server ([Psbt], [Signing]).  Store I/O does not fail, and the thread
    that broadcasts does not panic. *)

From S2P Require Import Prelude Bitcoin Psbt Database ValidatePsbt CoinSelection Signing Codec Peg PegoutScheduler DkgEncryption Dkg RpcTypes Jwt Server.
Local Open Scope Z_scope.

(** ** The database *)

Module RecoveryDb.
Record MultisigKeyShares := { shares : gmap bytes KeyPackage }.
Record Db := {
  key_shares : gmap bytes MultisigKeyShares;
  public_key_packages : gmap bytes PublicKeyPackage;
}.
(** The errors these functions produce. *)
Inductive Error := DataCorruption | BadDecryptionPassphrase | BadExportedPackageFormatVersion.

Definition open : Db := {| key_shares := ∅; public_key_packages := ∅ |}.
Definition id_key (multisig_id : Z) : bytes := to_be_bytes 4 multisig_id.

Definition get_key_shares (multisig_id : Z) (d : Db) : option MultisigKeyShares :=
  key_shares d !! id_key multisig_id.
Definition set_key_shares (multisig_id : Z) (s : MultisigKeyShares) (d : Db) : Db :=
  {| key_shares := <[id_key multisig_id := s]> (key_shares d);
     public_key_packages := public_key_packages d |}.
Definition add_key_share (multisig_id : Z) (node_id : bytes) (k : KeyPackage) (d : Db) : Db :=
  let multisig_shares := default {| shares := ∅ |} (get_key_shares multisig_id d) in
  set_key_shares multisig_id {| shares := <[node_id := k]> (shares multisig_shares) |} d.
Definition get_key_share (multisig_id : Z) (node_id : bytes) (d : Db) : option KeyPackage :=
  s ← get_key_shares multisig_id d; shares s !! node_id.
Definition get_public_key_package (multisig_id : Z) (d : Db) : option PublicKeyPackage :=
  public_key_packages d !! id_key multisig_id.
Definition set_public_key_package (multisig_id : Z) (pk : PublicKeyPackage) (d : Db) : Db :=
  {| key_shares := key_shares d;
     public_key_packages := <[id_key multisig_id := pk]> (public_key_packages d) |}.

Definition import_from_btc_server `{Frost, KeyVault} (multisig_id : Z) (node_identifier : Identifier)
    (passphrase : bytes) (export : ExportedKeyPackage) : SM Db Error () :=
  if negb (exp_version export =? EXPORTED_PACKAGE_VERSION)
  then slift (Err BadExportedPackageFormatVersion)
  else
    let nonce := iv export in
    let* b1 := slift (ok_or (Database.aead_decrypt (Database.challenge nonce passphrase [] LABEL_SECRET) nonce
                               (enc_key_package export)) BadDecryptionPassphrase) in
    let* key_package := slift (ok_or (parse_key_package b1) DataCorruption) in
    let* b2 := slift (ok_or (Database.aead_decrypt (Database.challenge nonce passphrase [LABEL_SECRET] LABEL_PUBLIC)
                               nonce (enc_pk_package export)) BadDecryptionPassphrase) in
    let* pk_package := slift (ok_or (parse_pk_package b2) DataCorruption) in
    smodify (add_key_share multisig_id (id_serialize node_identifier) key_package) ;;*
    smodify (set_public_key_package multisig_id pk_package).
End RecoveryDb.

(** ** The service *)

(** [Address::script_pubkey], [str::parse::<Txid>] and [FeeRate::from_sat_per_vb]. *)
Class RecoveryLib `{!Secp256k1, !PegLib} := {
  script_pubkey_of : BtcAddress → Script;
  parse_txid : bytes → option Txid;
  fee_rate_from_sat_per_vb : Z → option Z;
}.

Module PeginRecovery.

(** What [anyhow] errors of the signing steps say. *)
Inductive StepError :=
  | NoInputs | NoOutputs
  | FeeUnknown (e : PsbtError) | FeeTooHigh
  | NonceCount | Packages (e : PackageError) | SignerNotFound (index : nat) | SignFailed
  | Aggregation (e : Coordinator.CoordinatorError) | FinalizationFailed | Extract (e : ExtractTxError).

Inductive Message :=
  | MIdentifierSize | MIdentifier | MExportRequired | MIvSize | MImport (e : RecoveryDb.Error)
  | MNoShares | MNoPublicKey | MNoShareAvailable
  | MAddress | MAddressNetwork | MTxid | MEthAddress
  | MRpc | MUtxoMissing | MTweak | MScriptMismatch
  | MFallbackRate | MFeeWeight | MFeeOverflow | MOutputUnderflow
  | MNodeIdentifier | MRound1 (e : StepError) | MShareMissing | MRound2 (e : StepError)
  | MAggregate (e : StepError) | MBroadcast.
Inductive Status := InvalidArgument (m : Message) | Internal (m : Message).

Record ImportKeyShareRequest := {
  ik_multisig_id : Z;
  ik_frost_identifier : bytes;
  ik_passphrase : bytes;
  ik_export : option ExportedKeyPackage;
}.
Record RecoverPeginRequest := {
  rp_destination : bytes;
  rp_txid : bytes;
  rp_vout : Z;
  rp_eth_address : bytes;
  rp_multisig_id : Z;
}.
Record RecoverPeginResponse := { rr_tx : bytes; rr_txid : Txid }.

(** The service's database, the numbers of calls to bitcoind and of random draws made,
    and the transactions handed to bitcoind. *)
Record Service := {
  db : RecoveryDb.Db;
  fallback_fee_rate : Z;
  calls : nat;
  draws : nat;
  broadcast : list Transaction;
}.
Definition put_db (x : RecoveryDb.Db) (s : Service) : Service :=
  {| db := x; fallback_fee_rate := fallback_fee_rate s; calls := calls s; draws := draws s;
     broadcast := broadcast s |}.
Definition put_calls (x : nat) (s : Service) : Service :=
  {| db := db s; fallback_fee_rate := fallback_fee_rate s; calls := x; draws := draws s;
     broadcast := broadcast s |}.
Definition put_draws (x : nat) (s : Service) : Service :=
  {| db := db s; fallback_fee_rate := fallback_fee_rate s; calls := calls s; draws := x;
     broadcast := broadcast s |}.
Definition put_broadcast (x : list Transaction) (s : Service) : Service :=
  {| db := db s; fallback_fee_rate := fallback_fee_rate s; calls := calls s; draws := draws s;
     broadcast := x |}.
Definition new (d : RecoveryDb.Db) (fallback_fee_rate : Z) : Service :=
  {| db := d; fallback_fee_rate := fallback_fee_rate; calls := 0; draws := 0; broadcast := [] |}.

Abbreviation ServiceM := (SM Service Status).

Section service.
Context `{BitcoinLib, FrostSign, !DkgLib, KeyVault, Bitcoind, !BitcoindWallet}.
Context `{!Secp256k1, !PegLib, !WireLib, TextLib, !RecoveryLib}.

Definition import_key_share (req : ImportKeyShareRequest) : ServiceM () :=
  let* frost_identifier := slift (
    if negb (length (ik_frost_identifier req) =? 32)%nat then Err (InvalidArgument MIdentifierSize)
    else ok_or (id_deserialize (ik_frost_identifier req)) (InvalidArgument MIdentifier)) in
  let* export_proto := slift (ok_or (ik_export req) (InvalidArgument MExportRequired)) in
  if negb (length (iv export_proto) =? 12)%nat then slift (Err (InvalidArgument MIvSize))
  else
    (** [version as u16] *)
    let export := {| exp_version := exp_version export_proto mod 65536; iv := iv export_proto;
                     enc_key_package := enc_key_package export_proto;
                     enc_pk_package := enc_pk_package export_proto |} in
    zoom db put_db (smap_err (λ e, Internal (MImport e))
      (RecoveryDb.import_from_btc_server (ik_multisig_id req) frost_identifier
         (ik_passphrase req) export)).

Definition parse_and_validate_address (address_str : bytes) (testnet : bool)
    : result Status BtcAddress :=
  let network := if testnet then NetTestnet else NetBitcoin in
  let? a := ok_or (address_from_str address_str) (InvalidArgument MAddress) in
  ok_or (require_network a network) (InvalidArgument MAddressNetwork).

(** An overflow starts the total again at zero. *)
Definition validate_psbt_fee_sanity (p : Psbt) : result StepError () :=
  let? fee := map_err FeeUnknown (psbt_fee p) in
  let total := foldl (λ total o, default 0 (checked_add total (value o))) 0
                 (output (unsigned_tx p)) in
  if total <? fee then Err FeeTooHigh else Ok tt.

(** The transaction of the recovery, and the metadata of an input. *)
Definition recovery_tx (ins : list Utxo) (script_pubkey : Script) (v : Z) : Transaction :=
  {| tx_version := 2; lock_time := 0;
     input := (λ u, {| previous_output := outpoint u; script_sig := [];
                       sequence := ENABLE_RBF_NO_LOCKTIME; txin_witness := [] |}) <$> ins;
     output := [{| value := v; script_pubkey := script_pubkey |}] |}.
Definition fill_recovery_input (i : PsbtInput) (u : Utxo) : PsbtInput :=
  let i1 := {| witness_utxo := Some (utxo_output u); in_proprietary := in_proprietary i;
               sighash_type := sighash_type i; tap_key_sig := tap_key_sig i;
               final_script_witness := final_script_witness i |} in
  let i2 := match utxo_eth_address u with Some a => set_eth_address a i1 | None => i1 end in
  add_version_to_psbt (utxo_version u) i2.
Definition create_recovery_psbt {E} (ins : list Utxo) (script_pubkey : Script) (v : Z)
    : result E Psbt :=
  let? p := expect (from_unsigned_tx (recovery_tx ins script_pubkey v)) in
  Ok (with_inputs (zip_update fill_recovery_input (inputs p) ins) p).

Definition calculate_fee (utxos : list Utxo) (script_pubkey : Script) (fee_rate : Z)
    : result Status Z :=
  let? p := create_recovery_psbt utxos script_pubkey 0 in
  let? total_weight := map_err (λ _, InvalidArgument MFeeWeight) (calculate_signed_tx_weight p) in
  ok_or (fee_wu fee_rate total_weight) (InvalidArgument MFeeOverflow).

(** Round 1 of one share; [n]: random draws made before. *)
Definition do_round1_signing (p : Psbt) (key_package : KeyPackage) (identifier : Identifier) (n : nat)
    : result StepError (Psbt * list (SigningNonces * SigningCommitments)) :=
  match inputs p, outputs p with
  | [], _ => Err NoInputs
  | _, [] => Err NoOutputs
  | _, _ =>
      let? _ := validate_psbt_fee_sanity p in
      match Signer.commit_inputs identifier key_package n (inputs p) with
      | Ok (l, pairs) => Ok (with_inputs l p, pairs)
      | _ => Panic
      end
  end.

(** The signatures of one share, input by input. *)
Fixpoint sign_recovery_inputs (identifier : Identifier) (key_package : KeyPackage) (index : nat)
    (pkgs : list Signing.SigningPackage) (nonces : list (SigningNonces * SigningCommitments))
    (l : list PsbtInput) : result StepError (list PsbtInput) :=
  match pkgs, l with
  | pkg :: pkgs', i :: l' =>
      if bool_decide (sp_commitments pkg !! identifier = None) then Err (SignerNotFound index)
      else
        match nonces with
        | [] => Panic
        | nonce :: nonces' =>
            let? sig := ok_or (sign_with_tweak pkg nonce.1 key_package (eth_address i)) SignFailed in
            let? rest := sign_recovery_inputs identifier key_package (S index) pkgs' nonces' l' in
            Ok (set_partial_signature identifier sig i :: rest)
        end
  | _, _ => Ok l
  end.
Definition do_round2_signing (p : Psbt) (key_package : KeyPackage) (identifier : Identifier)
    (signing_nonces : list (SigningNonces * SigningCommitments)) : result StepError Psbt :=
  if negb (length signing_nonces =? length (inputs p))%nat then Err NonceCount
  else
    let? pkgs := map_err Packages (signing_packages p) in
    let? l := sign_recovery_inputs identifier key_package 0 pkgs signing_nonces (inputs p) in
    Ok (with_inputs l p).

(** The final witness of an input, if the finalizer left one. *)
Definition with_final_witness (w : option (list bytes)) (i : PsbtInput) : PsbtInput :=
  {| witness_utxo := witness_utxo i; in_proprietary := in_proprietary i;
     sighash_type := sighash_type i; tap_key_sig := tap_key_sig i; final_script_witness := w |}.
Definition aggregate_and_finalize (p : Psbt) (pk_package : PublicKeyPackage)
    : result StepError Transaction :=
  let? pkgs := map_err Packages (signing_packages p) in
  let? l := map_err Aggregation (Coordinator.aggregate_inputs pk_package 0 pkgs (inputs p)) in
  let original := with_inputs l p in
  let? final := ok_or (finalize_mut original) FinalizationFailed in
  let copied := imap (λ index i, with_final_witness (f ← inputs final !! index; final_script_witness f) i)
                  (inputs original) in
  map_err Extract (extract_tx (with_inputs copied original)).

Definition call {A} (f : nat → result RpcError A) : ServiceM (result RpcError A) := λ s,
  (Ok (f (calls s)), put_calls (S (calls s)) s).

(** The shares in key order. *)
Definition selected_shares (m : RecoveryDb.MultisigKeyShares) : list (bytes * KeyPackage) :=
  tree_iter (λ k, k) (RecoveryDb.shares m).

Fixpoint round1_all (p : Psbt) (l : list (bytes * KeyPackage))
    : ServiceM (Psbt * list (Identifier * list (SigningNonces * SigningCommitments))) :=
  match l with
  | [] => sret (p, [])
  | (node_id_bytes, key_package) :: l' =>
      let* identifier := slift (
        if negb (length node_id_bytes =? 32)%nat then Err (Internal MNodeIdentifier)
        else ok_or (id_deserialize node_id_bytes) (Internal MNodeIdentifier)) in
      let* s := sget in
      let* '(p', nonces) := slift (map_err (λ e, Internal (MRound1 e))
        (do_round1_signing p key_package identifier (draws s))) in
      smodify (put_draws (draws s + length nonces)) ;;*
      let* '(p'', rest) := round1_all p' l' in
      sret (p'', (identifier, nonces) :: rest)
  end.

Fixpoint round2_all (m : RecoveryDb.MultisigKeyShares) (p : Psbt)
    (l : list (Identifier * list (SigningNonces * SigningCommitments))) : result Status Psbt :=
  match l with
  | [] => Ok p
  | (identifier, nonces) :: l' =>
      let? key_package := ok_or (RecoveryDb.shares m !! id_serialize identifier)
                            (Internal MShareMissing) in
      let? p' := map_err (λ e, Internal (MRound2 e))
                   (do_round2_signing p key_package identifier nonces) in
      round2_all m p' l'
  end.

(** The deposit of the request, checked against the chain: it is unspent and pays the
    group key tweaked with the eth address. *)
Definition validated_utxo (req : RecoverPeginRequest) (pk_package : PublicKeyPackage)
    : ServiceM Utxo :=
  let* txid := slift (ok_or (parse_txid (rp_txid req)) (InvalidArgument MTxid)) in
  let* eth_address := slift (map_err (λ _, InvalidArgument MEthAddress)
                               (parse_eth_address (rp_eth_address req))) in
  let outpoint := mkOutPoint txid (rp_vout req) in
  let* r := call (λ n, get_tx_out n outpoint) in
  let* on_chain := slift (map_err (λ _, Internal MRpc) r) in
  let* on_chain_utxo := slift (ok_or on_chain (InvalidArgument MUtxoMissing)) in
  let* tweaked_key := slift (map_err (λ _, Internal MTweak)
    (generate_tweaked_public_key (pkp_verifying_key pk_package) eth_address)) in
  let expected_script_pubkey := generate_taproot_scriptpubkey tweaked_key in
  if negb (bool_decide (script_pubkey on_chain_utxo = expected_script_pubkey))
  then slift (Err (InvalidArgument MScriptMismatch))
  else sret {| outpoint := outpoint;
               utxo_output := {| value := value on_chain_utxo;
                                 script_pubkey := expected_script_pubkey |};
               utxo_eth_address := Some eth_address; utxo_version := 1 |}.

Definition recovery_fee_rate : ServiceM Z :=
  let* fee_res := call estimate_smart_fee in
  let* s := sget in
  let* fallback := slift (ok_or (fee_rate_from_sat_per_vb (fallback_fee_rate s))
                            (InvalidArgument MFallbackRate)) in
  sret match fee_res with
       | Ok (Some f) => btc_per_kb_to_sat_per_vb f
       | _ => fallback
       end.

(** [recover_pegin] up to the signed transaction. *)
Definition signed_recovery (req : RecoverPeginRequest) : ServiceM Transaction :=
  let* s := sget in
  let* multisig_shares := slift (ok_or (RecoveryDb.get_key_shares (rp_multisig_id req) (db s))
                                   (InvalidArgument MNoShares)) in
  let* pk_package := slift (ok_or (RecoveryDb.get_public_key_package (rp_multisig_id req) (db s))
                              (InvalidArgument MNoPublicKey)) in
  if (size (RecoveryDb.shares multisig_shares) =? 0)%nat
  then slift (Err (InvalidArgument MNoShareAvailable))
  else
    let* destination := slift (parse_and_validate_address (rp_destination req) true) in
    let script_pubkey := script_pubkey_of destination in
    let* utxo := validated_utxo req pk_package in
    let* fee_rate := recovery_fee_rate in
    let* absolute_fee := slift (calculate_fee [utxo] script_pubkey fee_rate) in
    let* output_value := slift (ok_or (checked_sub (value (utxo_output utxo)) absolute_fee)
                                  (InvalidArgument MOutputUnderflow)) in
    let* psbt := slift (create_recovery_psbt [utxo] script_pubkey output_value) in
    let* '(psbt, all_nonces) := round1_all psbt (selected_shares multisig_shares) in
    let* psbt := slift (round2_all multisig_shares psbt all_nonces) in
    slift (map_err (λ e, Internal (MAggregate e)) (aggregate_and_finalize psbt pk_package)).

Definition recover_pegin (req : RecoverPeginRequest) : ServiceM RecoverPeginResponse :=
  let* final_tx := signed_recovery req in
  smodify (λ s, put_broadcast (broadcast s ++ [final_tx]) s) ;;*
  let* sent := call (λ n, send_raw_transaction n final_tx) in
  let* broadcasted_txid := slift (map_err (λ _, Internal MBroadcast) sent) in
  sret {| rr_tx := hex_encode (consensus_encode c_tx final_tx); rr_txid := broadcasted_txid |}.
End service.
End PeginRecovery.
