(* ===== verification/PeginRecoveryTheory.v ===== *)
(** * The pegin recovery service: theorems

    Whatever the service hands to bitcoind spends exactly the deposit of the request,
    which bitcoind reports as unspent and which pays the group key tweaked with the
    eth address of the request, and pays it to the requested address, less a fee that
    is not larger than what is paid out; the signature was verified.  Key shares that
    a member exports are what the service stores. *)

From S2P Require Import Prelude Bitcoin Psbt Database DatabaseTheory ValidatePsbt CoinSelection Signing SigningTheory Codec Peg PegoutScheduler DkgEncryption Dkg RpcTypes Jwt Server PeginRecovery.
Local Open Scope Z_scope.
Import PeginRecovery.

Section theory.
Context `{BitcoinLib, FrostSign, !DkgLib, KeyVault, Bitcoind, !BitcoindWallet}.
Context `{!Secp256k1, !PegLib, !WireLib, TextLib, !RecoveryLib}.

(** Signing adds proprietary fields of the signers only. *)
Definition same_input (i i' : PsbtInput) : Prop :=
  witness_utxo i' = witness_utxo i ∧ eth_address i' = eth_address i.
Definition same_base (p p' : Psbt) : Prop :=
  unsigned_tx p' = unsigned_tx p ∧ Forall2 same_input (inputs p) (inputs p').

#[local] Instance same_input_preorder : PreOrder same_input.
Proof. split; [done|]. intros i1 i2 i3 [? ?] [? ?]. split; congruence. Qed.
#[local] Instance same_base_preorder : PreOrder same_base.
Proof.
  split; [intros p; split; [done|reflexivity]|].
  intros p1 p2 p3 [? ?] [? ?]. split; [congruence|by etrans].
Qed.

Lemma set_prop_same k v i :
  k ≠ ETH_ADDRESS_KEY → same_input i (set_prop k v i).
Proof. intros Hk. split; [done|]. unfold eth_address. simpl. by rewrite lookup_insert_ne. Qed.
Lemma set_signing_commitment_same id c i i' :
  set_signing_commitment id c i = Ok i' → same_input i i'.
Proof.
  unfold set_signing_commitment. intros (b & _ & Hi)%rbind_ok. injection Hi as <-.
  by apply set_prop_same.
Qed.
Lemma set_partial_signature_same id s i : same_input i (set_partial_signature id s i).
Proof. by apply set_prop_same. Qed.

Lemma do_round1_same p k id n p' pairs :
  do_round1_signing p k id n = Ok (p', pairs) → same_base p p' ∧ validate_psbt_fee_sanity p = Ok tt.
Proof.
  unfold do_round1_signing. destruct (inputs p) as [|i l] eqn:Hi; [done|].
  destruct (outputs p); [done|]. rewrite <-Hi. intros ([] & Hv & Hr)%rbind_ok.
  destruct (Signer.commit_inputs id k n (inputs p)) as [[l' prs]| |] eqn:Hc; [|done..].
  injection Hr as <- <-. split; [|done]. split; [done|]. simpl.
  apply commit_inputs_spec in Hc as (Hlen & _ & Hall).
  apply Forall2_same_length_lookup. split; [done|]. intros j x y Hx Hy.
  destruct (Hall j x Hx) as (i' & Hi' & Hs). simplify_eq. by eapply set_signing_commitment_same.
Qed.

Lemma sign_recovery_same id k idx pkgs nonces l l' :
  sign_recovery_inputs id k idx pkgs nonces l = Ok l' → Forall2 same_input l l'.
Proof.
  revert idx nonces l l'. induction pkgs as [|pkg pkgs IH]; intros idx nonces l l' Hs; simpl in Hs.
  - injection Hs as <-. reflexivity.
  - destruct l as [|i l]; [injection Hs as <-; reflexivity|]. case_bool_decide; [done|].
    destruct nonces as [|nonce nonces]; [done|]. rinv Hs. injection Hs as <-.
    constructor; [apply set_partial_signature_same|by eapply IH].
Qed.
Lemma do_round2_same p k id nonces p' :
  do_round2_signing p k id nonces = Ok p' → same_base p p'.
Proof.
  unfold do_round2_signing. destruct (negb _); [done|]. intros Hs. rinv Hs. injection Hs as <-.
  split; [done|]. by eapply sign_recovery_same.
Qed.
Lemma round2_all_same m p l p' : round2_all m p l = Ok p' → same_base p p'.
Proof.
  revert p. induction l as [|[id nonces] l IH]; intros p Hr; simpl in Hr.
  - injection Hr as <-. reflexivity.
  - rinv Hr. apply map_err_ok, do_round2_same in E0. etrans; [exact E0|by apply IH].
Qed.

(** ** What the service keeps *)

Definition frame (s s' : Service) : Prop := db s' = db s ∧ broadcast s' = broadcast s.
#[local] Instance frame_preorder : PreOrder frame.
Proof. split; [done|]. intros s1 s2 s3 [? ?] [? ?]. split; congruence. Qed.
Lemma frame_call {A} (f : nat → result RpcError A) : guarantees frame (call f).
Proof. by intros s. Qed.
#[local] Hint Resolve frame_call : macbeth.

Lemma round1_all_frame p l : guarantees frame (round1_all p l).
Proof.
  revert p. induction l as [|[b k] l IH]; intros p; simpl; guarantees_tac.
  by intros s.
Qed.
Lemma validated_utxo_frame req pk : guarantees frame (validated_utxo req pk).
Proof. unfold validated_utxo. guarantees_tac. Qed.
Lemma recovery_fee_rate_frame : guarantees frame recovery_fee_rate.
Proof. unfold recovery_fee_rate. guarantees_tac. Qed.
#[local] Hint Resolve round1_all_frame validated_utxo_frame recovery_fee_rate_frame : macbeth.
Lemma signed_recovery_frame req : guarantees frame (signed_recovery req).
Proof. unfold signed_recovery. guarantees_tac. Qed.

(** The first step of a run, a step that only looks at the arguments. *)
Tactic Notation "pure_step" hyp(Hr) "as" ident(x) ident(Hx) :=
  let s1 := fresh "s1" in let Hs := fresh "Hs" in
  apply sbind_ok in Hr as (x & s1 & Hx & Hr); unfold slift in Hx; injection Hx as Hx Hs; subst s1.

(** ** What is checked *)

(** The output [out] at [o] is the deposit the request names: bitcoind has reported it
    as unspent, and it pays the group key tweaked with the eth address. *)
Definition deposit_of (req : RecoverPeginRequest) (pk : PublicKeyPackage) (o : OutPoint) (out : TxOut)
    (eth : bytes) : Prop :=
  ∃ txid key n, parse_txid (rp_txid req) = Some txid ∧ o = mkOutPoint txid (rp_vout req) ∧
    parse_eth_address (rp_eth_address req) = Ok eth ∧ get_tx_out n o = Ok (Some out) ∧
    generate_tweaked_public_key (pkp_verifying_key pk) eth = Ok key ∧
    script_pubkey out = generate_taproot_scriptpubkey key.

Definition deposit (o : OutPoint) (out : TxOut) (eth : bytes) : Utxo :=
  {| outpoint := o; utxo_output := out; utxo_eth_address := Some eth; utxo_version := 1 |}.

Lemma validated_utxo_ok req pk s u s' :
  validated_utxo req pk s = (Ok u, s') →
  ∃ o out eth, deposit_of req pk o out eth ∧ u = deposit o out eth.
Proof.
  unfold validated_utxo. intros Hr.
  pure_step Hr as txid Htx. apply ok_or_ok in Htx. pure_step Hr as eth He. apply map_err_ok in He.
  apply sbind_ok in Hr as (r & s1 & Hc & Hr). injection Hc as <- <-.
  pure_step Hr as oc Ho. apply map_err_ok in Ho. pure_step Hr as out Hx. apply ok_or_ok in Hx as ->.
  pure_step Hr as key Hk. apply map_err_ok in Hk.
  case_bool_decide as Hs; simpl in Hr; [|done]. injection Hr as <- _.
  eexists _, out, eth. split; [by exists txid, key, (calls s)|]. unfold deposit. f_equal.
  destruct out as [v spk]. simpl in *. by subst.
Qed.

Lemma round1_all_ok p l s p' ns s' :
  round1_all p l s = (Ok (p', ns), s') →
  same_base p p' ∧ (l ≠ [] → validate_psbt_fee_sanity p = Ok tt).
Proof.
  revert p s p' ns s'. induction l as [|[b k] l IH]; intros p s p' ns s' Hr; simpl in Hr.
  - injection Hr as <- _ _. by split.
  - apply sbind_ok in Hr as (id & s1 & _ & Hr). apply sbind_ok in Hr as (s2 & s3 & _ & Hr).
    apply sbind_ok in Hr as ([p1 nonces] & s4 & Hr1 & Hr). injection Hr1 as Hr1 _.
    apply map_err_ok, do_round1_same in Hr1 as [Hb Hv].
    apply sbind_ok in Hr as ([] & s5 & _ & Hr). apply sbind_ok in Hr as ([p2 rest] & s6 & Ha & Hr).
    injection Hr as <- _ _. apply IH in Ha as [Hb' _]. split; [by etrans|done].
Qed.

(** ** The transaction *)

Section laws.
Context `{!BitcoinLibLaws}.

Definition base_psbt (u : Utxo) (spk : Script) (v : Z) : Psbt :=
  {| unsigned_tx := recovery_tx [u] spk v; inputs := [fill_recovery_input default_input u];
     outputs := [default_output] |}.
Lemma create_recovery_psbt_eq {E} u spk v :
  create_recovery_psbt (E := E) [u] spk v = Ok (base_psbt u spk v).
Proof.
  unfold create_recovery_psbt. rewrite from_unsigned_tx_ok; [done|].
  unfold tx_unsigned. simpl. by repeat constructor.
Qed.

Lemma parsed_eth_size a eth : parse_eth_address a = Ok eth → length eth = 20%nat.
Proof.
  unfold parse_eth_address. intros (b & _ & Hb)%rbind_ok.
  destruct (Nat.eqb_spec (length b) 20); [|done]. by injection Hb as <-.
Qed.

Lemma filled_input o out eth :
  length eth = 20%nat →
  let i := fill_recovery_input default_input (deposit o out eth) in
  witness_utxo i = Some out ∧ eth_address i = Some eth.
Proof.
  intros He. split; [done|]. unfold eth_address, fill_recovery_input. simpl.
  rewrite lookup_insert_ne by done. rewrite lookup_insert_eq. simpl. by rewrite He.
Qed.

(** The fee of a recovery is what the deposit loses, and at most what is paid out. *)
Lemma fee_sanity_bound u spk v :
  0 ≤ v → validate_psbt_fee_sanity (base_psbt u spk v) = Ok tt → value (utxo_output u) - v ≤ v.
Proof.
  intros Hv. unfold validate_psbt_fee_sanity. intros (fee & Hf & Ht)%rbind_ok. apply map_err_ok in Hf.
  apply psbt_fee_ok in Hf as (vs & Hvs & -> & _). unfold base_psbt, recovery_tx in *. simpl in *.
  apply Forall2_cons_inv_l in Hvs as (w & vs' & Hw & Hn & ->). apply Forall2_nil_inv_l in Hn as ->.
  assert (w = value (utxo_output u)) as ->.
  { unfold fill_recovery_input in Hw. simpl in Hw. destruct (utxo_eth_address u); by injection Hw. }
  unfold zsum, checked_add in Ht. simpl in Ht. destruct (_ <? _) eqn:Hlt; [done|]. bool_to_prop.
  destruct (0 + v <=? u64_max); simpl in Hlt; lia.
Qed.

(** A signed transaction: the outputs and inputs of the PSBT, with a verified signature
    over the hash of its one input. *)
Lemma aggregate_and_finalize_ok p pk tx i :
  aggregate_and_finalize p pk = Ok tx → inputs p = [i] →
  output tx = output (unsigned_tx p) ∧
  previous_output <$> input tx = previous_output <$> input (unsigned_tx p) ∧
  ∃ h sig, calculate_sighash p 0 = Ok h ∧ verify pk (eth_address i) h sig = true.
Proof.
  intros Ha Hi. unfold aggregate_and_finalize in Ha. rinv Ha.
  apply map_err_ok in E, E0, Ha. apply extract_tx_ok in Ha as [Ho Hin].
  apply signing_packages_spec in E as [_ Hp]. apply aggregate_inputs_spec in E0 as [_ Hag].
  rewrite Hi in Hp, Hag. destruct (Hp 0%nat i eq_refl) as (h & Hh & Hpkg).
  destruct (Hag 0%nat i eq_refl) as (pkg & sig & secp & Hpkg' & _ & Hv & _). simplify_eq. simpl in Hv.
  split_and!; [done..|]. by exists h, sig.
Qed.

(** Signing the PSBT of a deposit. *)
Lemma signed_base_ok o out eth spk paid pk p tx :
  length eth = 20%nat → same_base (base_psbt (deposit o out eth) spk paid) p →
  aggregate_and_finalize p pk = Ok tx →
  previous_output <$> input tx = [o] ∧ output tx = [{| value := paid; script_pubkey := spk |}] ∧
  ∃ h sig, taproot_sighash (recovery_tx [deposit o out eth] spk paid) 0 [out] = Some h ∧
    verify pk (Some eth) h sig = true.
Proof.
  intros Hsz [Htx Hin] Ha. simpl in Hin.
  apply Forall2_cons_inv_l in Hin as (i & l & [Hw He] & Hn & Hl). apply Forall2_nil_inv_l in Hn as ->.
  destruct (filled_input o out eth Hsz) as [Hw0 He0]. rewrite Hw0 in Hw. rewrite He0 in He.
  destruct (aggregate_and_finalize_ok _ _ _ _ Ha Hl) as (Ho & Hprev & h & sig & Hh & Hv).
  unfold calculate_sighash in Hh. rewrite Hl in Hh. simpl in Hh. rewrite Hw in Hh. simpl in Hh.
  apply ok_or_ok in Hh. rewrite He in Hv. rewrite Htx in Ho, Hprev, Hh. split_and!; [done..|]. eauto.
Qed.

(** A transaction that recovers the deposit of the request. *)
Definition recovers (req : RecoverPeginRequest) (d : RecoveryDb.Db) (tx : Transaction) : Prop :=
  ∃ pk destination o out eth paid h sig,
    RecoveryDb.get_public_key_package (rp_multisig_id req) d = Some pk ∧
    parse_and_validate_address (rp_destination req) true = Ok destination ∧
    deposit_of req pk o out eth ∧
    previous_output <$> input tx = [o] ∧
    output tx = [{| value := paid; script_pubkey := script_pubkey_of destination |}] ∧
    0 ≤ value out - paid ≤ paid ∧
    taproot_sighash (recovery_tx [deposit o out eth] (script_pubkey_of destination) paid) 0 [out]
      = Some h ∧
    verify pk (Some eth) h sig = true.

Lemma signed_recovery_ok req s tx s' :
  signed_recovery req s = (Ok tx, s') → recovers req (db s) tx.
Proof.
  unfold signed_recovery. intros Hr.
  apply sbind_ok in Hr as (s0 & s1 & Hg & Hr). injection Hg as <- <-.
  pure_step Hr as ms Hms. pure_step Hr as pk Hpk. apply ok_or_ok in Hpk.
  destruct (Nat.eqb_spec (size (RecoveryDb.shares ms)) 0) as [|Hsize]; [done|].
  pure_step Hr as dest Hd. apply sbind_ok in Hr as (u & s1 & Hu & Hr).
  apply validated_utxo_ok in Hu as (o & out & eth & Hdep & ->).
  apply sbind_ok in Hr as (rate & s2 & _ & Hr). pure_step Hr as fee Hfee.
  pure_step Hr as paid Hpaid. apply ok_or_ok in Hpaid.
  pure_step Hr as p0 Hp0. rewrite create_recovery_psbt_eq in Hp0. injection Hp0 as <-.
  apply sbind_ok in Hr as ([p1 ns] & s3 & Hr1 & Hr). apply round1_all_ok in Hr1 as [Hb1 Hsane].
  pure_step Hr as p2 Hr2. apply round2_all_same in Hr2. injection Hr as Hr _. apply map_err_ok in Hr.
  assert (length eth = 20%nat) as Hsz.
  { destruct Hdep as (? & ? & ? & _ & _ & Hp & _). by eapply parsed_eth_size. }
  destruct (signed_base_ok o out eth (script_pubkey_of dest) paid pk p2 tx Hsz) as (? & ? & h & sig & ? & ?);
    [by etrans|done|].
  unfold checked_sub in Hpaid. destruct (fee <=? value out) eqn:Hle; [|done]. bool_to_prop.
  injection Hpaid as <-.
  assert (0 ≤ fee) as Hpos.
  { unfold calculate_fee in Hfee. apply rbind_ok in Hfee as (p & _ & Hfee).
    apply rbind_ok in Hfee as (w & _ & Hfee). apply ok_or_ok, fee_wu_nonneg in Hfee. lia. }
  assert (value out - (value out - fee) ≤ value out - fee) as Hbound.
  { apply (fee_sanity_bound (deposit o out eth) (script_pubkey_of dest)); [lia|]. apply Hsane.
    intros Hnil. apply Hsize. unfold selected_shares in Hnil.
    by rewrite <-length_map_to_list, <-(tree_iter_perm (λ k, k)), Hnil. }
  exists pk, dest, o, out, eth, (value out - fee), h, sig. split_and!; try done. lia.
Qed.

(** C32. Whatever the request and the answers of bitcoind, a recovery leaves the keys
    alone and hands bitcoind at most one transaction.  The transaction spends exactly
    the deposit of the request, unspent according to bitcoind and paid to the group
    key tweaked with the eth address of the request; it pays it to the requested
    address, less a fee that is not larger than the payment; its signature was verified
    under the tweaked key.  A recovery succeeds only with such a transaction, which it
    returns. *)
Theorem recovered_pegin_pays_destination (req : RecoverPeginRequest) (s s' : Service)
    (r : result Status RecoverPeginResponse) :
  recover_pegin req s = (r, s') →
  db s' = db s ∧
  ((broadcast s' = broadcast s ∧ ∀ a, r ≠ Ok a) ∨
   ∃ tx, broadcast s' = broadcast s ++ [tx] ∧ recovers req (db s) tx ∧
     ∀ a, r = Ok a → rr_tx a = hex_encode (consensus_encode c_tx tx) ∧
       ∃ n, send_raw_transaction n tx = Ok (rr_txid a)).
Proof.
  unfold recover_pegin. intros Hr. unfold sbind at 1 in Hr.
  pose proof (signed_recovery_frame req s) as [Hd Hb].
  destruct (signed_recovery req s) as [[tx|e|] s1] eqn:Hs; simpl in Hd, Hb;
    [|injection Hr as <- <-; split; [done|by left]..].
  apply signed_recovery_ok in Hs. unfold sbind, smodify, call, slift in Hr. simpl in Hr.
  destruct (send_raw_transaction (calls s1) tx) as [t|e|] eqn:Hsend; simpl in Hr;
    injection Hr as <- <-; (split; [done|right; exists tx; simpl; rewrite Hb; split_and!; try done]).
  intros a [= <-]. simpl. eauto.
Qed.
End laws.

(** ** Key shares *)

Lemma get_key_share_add id node k d :
  RecoveryDb.get_key_share id node (RecoveryDb.add_key_share id node k d) = Some k.
Proof.
  unfold RecoveryDb.get_key_share, RecoveryDb.get_key_shares, RecoveryDb.add_key_share. simpl.
  rewrite lookup_insert_eq. simpl. by rewrite lookup_insert_eq.
Qed.
Lemma get_key_share_add_ne id id' node node' k d :
  RecoveryDb.id_key id' ≠ RecoveryDb.id_key id ∨ node' ≠ node →
  RecoveryDb.get_key_share id' node' (RecoveryDb.add_key_share id node k d) =
  RecoveryDb.get_key_share id' node' d.
Proof.
  unfold RecoveryDb.get_key_share, RecoveryDb.get_key_shares, RecoveryDb.add_key_share. simpl.
  intros Hne. destruct (decide (RecoveryDb.id_key id' = RecoveryDb.id_key id)) as [He|Hn].
  - rewrite He, lookup_insert_eq. simpl. rewrite lookup_insert_ne by (destruct Hne; congruence).
    unfold RecoveryDb.get_key_shares.
    by destruct (RecoveryDb.key_shares d !! RecoveryDb.id_key id).
  - by rewrite lookup_insert_ne.
Qed.

(** Importing what a member has exported, under the same passphrase and for any
    multisig id and member, succeeds when the packages are well-formed; it stores
    exactly the exported key share for that member and the exported public keys, and
    keeps the shares of the other members. *)
Theorem exported_share_imported `{!KeyVaultLaws} (i j : Z) (node : Identifier) (pass nonce : bytes)
    (d : Database.Db) (rd : RecoveryDb.Db) (e : ExportedKeyPackage) (k pk : bytes) :
  export_key_package_by_id i pass nonce d = Some e →
  get_key_package_by_id i d = Some k → get_public_key_package_by_id i d = Some pk →
  is_Some (parse_key_package k) → is_Some (parse_pk_package pk) →
  ∃ rd', RecoveryDb.import_from_btc_server j node pass e rd = (Ok tt, rd') ∧
    RecoveryDb.get_key_share j (id_serialize node) rd' = Some k ∧
    RecoveryDb.get_public_key_package j rd' = Some pk ∧
    ∀ node', node' ≠ id_serialize node →
      RecoveryDb.get_key_share j node' rd' = RecoveryDb.get_key_share j node' rd.
Proof.
  intros He Hk Hpk [k' Hk'] [pk' Hpk']. unfold export_key_package_by_id in He.
  rewrite Hk, Hpk in He. simpl in He. injection He as <-. eexists.
  unfold RecoveryDb.import_from_btc_server, sbind, slift. simpl.
  rewrite !Database.aead_roundtrip. simpl. rewrite Hk', Hpk'. simpl.
  apply parse_key_package_ok in Hk' as ->. apply parse_pk_package_ok in Hpk' as ->.
  split; [reflexivity|]. split_and!.
  - apply get_key_share_add.
  - unfold RecoveryDb.get_public_key_package. simpl. by rewrite lookup_insert_eq.
  - intros node' Hne. apply get_key_share_add_ne. by right.
Qed.
End theory.
