(* ===== verification/PeginRecoverySample.v ===== *)
(** * A recovery

    A service that has imported the shares of two members recovers a deposit; the
    theorems of [PeginRecoveryTheory] there. *)

From S2P Require Import Prelude Bitcoin Psbt Database DatabaseTheory ValidatePsbt CoinSelection CoinSelectionTheory Signing SigningTheory Codec Headers Peg Mint MintTheory PegoutScheduler DkgEncryption Dkg DkgTheory RpcTypes Jwt Server ServerSample PeginRecovery PeginRecoveryTheory.
Local Open Scope Z_scope.
Import SampleCodec SampleServer PeginRecovery.

Module SampleRecovery.
#[export] Instance recovery_lib : RecoveryLib := {|
  script_pubkey_of a := 0 :: a;
  parse_txid b := Some b;
  fee_rate_from_sat_per_vb v := Some v;
|}.
#[export] Existing Instances SampleDb.vault SampleDb.vault_laws.

(** What a member with the key package [k] exports, and the request to import it. *)
Definition exported (k : bytes) : option ExportedKeyPackage :=
  export_key_package_by_id 3 [1] (replicate 12 2)
    (set_key_package_by_id 3 k (set_pubkey_package_by_id 3 [7; 8] open)).
Definition import (node : Z) (k : bytes) : ImportKeyShareRequest :=
  {| ik_multisig_id := 9; ik_frost_identifier := id_serialize (node : @Identifier Sample.frost);
     ik_passphrase := [1]; ik_export := exported k |}.
Definition service : Service :=
  (sfor [import 1 [5; 6]; import 2 [5; 7]] import_key_share (new RecoveryDb.open 3)).2.
Definition req : RecoverPeginRequest :=
  {| rp_destination := [82]; rp_txid := replicate 32 4; rp_vout := 1;
     rp_eth_address := encode eth; rp_multisig_id := 9 |}.
End SampleRecovery.
Import SampleRecovery.

Lemma recovered_pegin_pays_destination_witness :
  ∃ a s' tx, recover_pegin req service = (Ok a, s') ∧ broadcast s' = [tx] ∧
    recovers req (db service) tx.
Proof.
  destruct (ok_value_inv (recover_pegin req service)) as (a & s' & Hr); [vm_compute; reflexivity|].
  destruct (recovered_pegin_pays_destination req service s' _ Hr) as (_ & [[_ Hn]|(tx & Hb & Hrec & _)]).
  - by destruct (Hn a).
  - exists a, s', tx. split; [exact Hr|]. split; [|exact Hrec]. exact Hb.
Defined.

Lemma exported_share_imported_witness :
  ∃ e rd, exported [5; 6] = Some e ∧
    RecoveryDb.import_from_btc_server 9 (1 : @Identifier Sample.frost) [1] e RecoveryDb.open = (Ok tt, rd) ∧
    RecoveryDb.get_key_share 9 (id_serialize (1 : @Identifier Sample.frost)) rd = Some [5; 6].
Proof.
  destruct (exported [5; 6]) as [e|] eqn:He; [|discriminate He].
  destruct (exported_share_imported 3 9 (1 : @Identifier Sample.frost) [1] (replicate 12 2) _
    RecoveryDb.open e [5; 6] [7; 8] He eq_refl eq_refl) as (rd & Hr & Hk & _); [by eexists..|].
  exists e, rd. split; [reflexivity|]. split; [exact Hr|exact Hk].
Defined.

(** A share of another federation, imported under the same multisig id, replaces the
    public keys: the shares of both are kept, but no deposit of the first can be
    recovered. *)
Example other_group_replaces_keys :
  let other := export_key_package_by_id 3 [1] (replicate 12 2)
    (set_key_package_by_id 3 [9] (set_pubkey_package_by_id 3 [9; 9] open)) in
  let s := (import_key_share {| ik_multisig_id := 9; ik_frost_identifier := 3 :: replicate 31 0;
              ik_passphrase := [1]; ik_export := other |} service).2 in
  RecoveryDb.get_public_key_package 9 (db service) = Some [7; 8] ∧
  RecoveryDb.get_public_key_package 9 (db s) = Some [9; 9] ∧
  (size ∘ RecoveryDb.shares <$> RecoveryDb.get_key_shares 9 (db s)) = Some 3%nat.
Proof. vm_compute. auto. Qed.

(** The version of an export is cut to 16 bits: version 65537 passes as version 1. *)
Example version_is_truncated :
  let far := (λ e, {| exp_version := exp_version e + 65536; iv := iv e;
                      enc_key_package := enc_key_package e; enc_pk_package := enc_pk_package e |})
               <$> exported [5; 6] in
  is_ok (import_key_share {| ik_multisig_id := 9; ik_frost_identifier := 3 :: replicate 31 0;
           ik_passphrase := [1]; ik_export := far |} service).1 = true.
Proof. vm_compute. reflexivity. Qed.
