(* ===== verification/Migration.v ===== *)
(** * Moving the Botanix tables to a database of their own

    - [storage/db/src/mdbx.rs], [version.rs], [utils.rs] and
      [implementation/mdbx/mod.rs]: opening a database directory ([init_db]);
    - [crates/botanix-storage-migrate]: [is_migration_needed],
      [TableTransporter::transport_table] and [migrate_botanix_tables];
    - [bin/reth/src/commands/poa/mod.rs]: the start of a node, which decides about the
      migration, opens both databases and moves the tables.

    The disk is two paths.  A database is a finite map from table names to tables, and a
    table a map from encoded keys to stored values, walked in key order (a DUPSORT table
    is keyed by key and subkey; none is read here).  A write transaction works on a copy
    that [commit] stores at once.  Every call that can fail asks [io] what happens: it works, it fails without
    effect, or the process dies there ([Panic], which no handler sees). *)

From stdpp Require Import strings.
From S2P Require Import Prelude.

Abbreviation MdbxTable := (gmap bytes bytes).
Abbreviation Mdbx := (gmap string MdbxTable).

(** [botanix_storage::tables::Tables::ALL] *)
Definition botanix_tables : list string :=
  ["Snapshots"; "WalletStateSyncs"; "StagedHeader"; "RuntimeTransitions"; "Chunks";
   "BlockSnapshots"; "ChunkBlocks"; "SnapshotSyncs"]%string.

(** [reth_db::Tables::ALL] *)
Definition reth_tables : list string :=
  ["CanonicalHeaders"; "HeaderTerminalDifficulties"; "HeaderNumbers"; "Headers";
   "BlockBodyIndices"; "BlockOmmers"; "BlockWithdrawals"; "Transactions";
   "TransactionHashNumbers"; "TransactionBlocks"; "Receipts"; "Snapshots";
   "WalletStateSyncs"; "StagedHeader"; "RuntimeTransitions"; "Chunks"; "BlockSnapshots";
   "ChunkBlocks"; "SnapshotSyncs"; "Bytecodes"; "PlainAccountState"; "PlainStorageState";
   "AccountsHistory"; "StoragesHistory"; "AccountChangeSets"; "StorageChangeSets";
   "HashedAccounts"; "HashedStorages"; "AccountsTrie"; "StoragesTrie";
   "TransactionSenders"; "StageCheckpoints"; "StageCheckpointProgresses";
   "PruneCheckpoints"; "VersionHistory"; "BlockRequests"; "ChainState"]%string.

(** ** The disk *)

(** The version file with what it parses to, and the MDBX file. *)
Record Dir := mkDir {
  d_version : option (option Z);
  d_mdbx : option Mdbx;
}.
Definition empty_dir : Dir := mkDir None None.
Definition dir_count (d : Dir) : nat :=
  (if bool_decide (is_Some (d_version d)) then 1 else 0) +
  (if bool_decide (is_Some (d_mdbx d)) then 1 else 0).

Inductive PathState := Missing | NotDirectory | Directory (d : Dir).

Inductive Which := RethDb | BotanixDb.

Inductive Fault := Works | Fails | Crashes.

(** The two paths, the open write transactions and the number of calls made. *)
Record Disk := mkDisk {
  dk_reth : PathState;
  dk_botanix : PathState;
  reth_tx : Mdbx;
  botanix_tx : Mdbx;
  dk_calls : nat;
}.

Definition path_of (w : Which) (s : Disk) : PathState :=
  match w with RethDb => dk_reth s | BotanixDb => dk_botanix s end.
Definition set_path (w : Which) (p : PathState) (s : Disk) : Disk :=
  match w with
  | RethDb => mkDisk p (dk_botanix s) (reth_tx s) (botanix_tx s) (dk_calls s)
  | BotanixDb => mkDisk (dk_reth s) p (reth_tx s) (botanix_tx s) (dk_calls s)
  end.
Definition tx_of (w : Which) (s : Disk) : Mdbx :=
  match w with RethDb => reth_tx s | BotanixDb => botanix_tx s end.
Definition set_tx (w : Which) (m : Mdbx) (s : Disk) : Disk :=
  match w with
  | RethDb => mkDisk (dk_reth s) (dk_botanix s) m (botanix_tx s) (dk_calls s)
  | BotanixDb => mkDisk (dk_reth s) (dk_botanix s) (reth_tx s) m (dk_calls s)
  end.

Inductive DatabaseVersionError :=
  MissingFile | MalformedFile | VersionMismatch (version : Z) | IORead.

Inductive MigrationError :=
  | ReadDirectory
  | CreateDirectory
  | VersionError (e : DatabaseVersionError)
  | WriteVersionFile
  | OpenDatabase
  | InitTx
  | CreateTable
  | CursorFailed
  | ReadEntry
  | WriteEntry
  | EntriesMismatch (expected got : nat)
  | ClearTable
  | CommitFailed
  | RemoveDirectory.

Definition DB_VERSION : Z := 2.

(** The encodings of a table's entries. *)
Class TableCodec := {
  Entry : Type;
  decode_entry : string → bytes * bytes → option Entry;
  encode_entry : string → Entry → bytes * bytes;
}.

(** What happens to each call, the clock, and the version a client records. *)
Record Environment := {
  io : nat → Fault;
  now : nat → Z;
  client_version : bytes;
}.

(** The walk of a cursor over a table, and [Cursor::append]. *)
Definition walk_table (m : MdbxTable) : list (bytes * bytes) :=
  sort_by (λ a b, bytes_leb a.1 b.1) (map_to_list m).
Definition append_fits (k : bytes) (m : MdbxTable) : bool :=
  forallb (λ p, bytes_leb p.1 k && negb (bool_decide (p.1 = k))) (map_to_list m).

Section migration.
Context `{!TableCodec} (env : Environment).

Abbreviation MM := (SM Disk MigrationError).

Definition tick (s : Disk) : Disk :=
  mkDisk (dk_reth s) (dk_botanix s) (reth_tx s) (botanix_tx s) (S (dk_calls s)).

(** Whether a call works; the process may die in it. *)
Definition probe : MM bool := λ s,
  match io env (dk_calls s) with
  | Works => (Ok true, tick s)
  | Fails => (Ok false, tick s)
  | Crashes => (Panic, tick s)
  end.
Definition attempt (e : MigrationError) : MM () :=
  let* b := probe in if b then sret tt else slift (Err e).

(** ** Opening a database *)

Definition is_database_empty (w : Which) : MM bool :=
  let* s := sget in
  match path_of w s with
  | Missing => sret true
  | NotDirectory => sret false
  | Directory d => let* b := probe in sret (if b then (dir_count d =? 0)%nat else true)
  end.

Definition create_dir_all (w : Which) : MM () :=
  attempt CreateDirectory ;;*
  let* s := sget in
  match path_of w s with
  | Missing => smodify (set_path w (Directory empty_dir))
  | NotDirectory => slift (Err CreateDirectory)
  | Directory _ => sret tt
  end.

Definition create_db_version_file (w : Which) : MM () :=
  attempt WriteVersionFile ;;*
  let* s := sget in
  match path_of w s with
  | Directory d => smodify (set_path w (Directory (mkDir (Some (Some DB_VERSION)) (d_mdbx d))))
  | _ => slift (Err WriteVersionFile)
  end.

(** The outcome of reading the version file, as a value: [create_db] looks at it. *)
Definition get_db_version (w : Which) : MM (Z + DatabaseVersionError) :=
  let* s := sget in
  match path_of w s with
  | Directory d =>
      match d_version d with
      | None => sret (inr MissingFile)
      | Some v =>
          let* b := probe in
          sret (if b then match v with Some v => inl v | None => inr MalformedFile end
                else inr IORead)
      end
  | _ => sret (inr IORead)
  end.

Definition check_db_version_file (w : Which) : MM (option DatabaseVersionError) :=
  let* v := get_db_version w in
  match v with
  | inl v => sret (if v =? DB_VERSION then None else Some (VersionMismatch v))
  | inr e => sret (Some e)
  end.

(** [DatabaseEnv::open]: the MDBX file is made when there is none. *)
Definition open_env (w : Which) : MM () :=
  attempt OpenDatabase ;;*
  let* s := sget in
  match path_of w s with
  | Directory d =>
      smodify (set_path w (Directory (mkDir (d_version d) (Some (default ∅ (d_mdbx d))))))
  | _ => slift (Err OpenDatabase)
  end.

Definition create_db (w : Which) : MM () :=
  let* empty := is_database_empty w in
  (if empty then create_dir_all w ;;* create_db_version_file w
   else
     let* r := check_db_version_file w in
     match r with
     | None => sret tt
     | Some MissingFile => create_db_version_file w
     | Some e => slift (Err (VersionError e))
     end) ;;*
  open_env w.

(** [Database::tx_mut]: a copy of what is stored. *)
Definition stored (w : Which) (s : Disk) : Mdbx :=
  match path_of w s with Directory d => default ∅ (d_mdbx d) | _ => ∅ end.
Definition tx_mut (w : Which) : MM () :=
  attempt InitTx ;;* let* s := sget in smodify (set_tx w (stored w s)).
Definition commit (w : Which) : MM () :=
  attempt CommitFailed ;;*
  let* s := sget in
  match path_of w s with
  | Directory d => smodify (set_path w (Directory (mkDir (d_version d) (Some (tx_of w s)))))
  | _ => slift (Err CommitFailed)
  end.
Definition update_tx (w : Which) (f : Mdbx → Mdbx) : MM () :=
  smodify (λ s, set_tx w (f (tx_of w s)) s).

(** [create_db] of MDBX keeps a table that is there. *)
Definition create_table (t : string) (m : Mdbx) : Mdbx :=
  match m !! t with Some _ => m | None => <[t := ∅]> m end.
Definition create_tables (w : Which) : MM () :=
  tx_mut w ;;*
  sfor reth_tables (λ t, attempt CreateTable ;;* update_tx w (create_table t)) ;;*
  commit w.

Definition record_client_version (w : Which) : MM () :=
  if bool_decide (client_version env = []) then sret tt
  else
    tx_mut w ;;*
    attempt CursorFailed ;;*
    let* s := sget in
    match tx_of w s !! "VersionHistory"%string with
    | None => slift (Err CursorFailed)
    | Some history =>
        attempt ReadEntry ;;*
        if bool_decide (snd <$> last (walk_table history) = Some (client_version env))
        then sret tt
        else
          let key := to_be_bytes 8 (now env (dk_calls s)) in
          attempt WriteEntry ;;*
          update_tx w (<["VersionHistory"%string := <[key := client_version env]> history]>) ;;*
          commit w
    end.

Definition init_db (w : Which) : MM () :=
  create_db w ;;* create_tables w ;;* record_client_version w.

(** ** The migration *)

Definition path_has_content (w : Which) : MM bool :=
  let* s := sget in
  match path_of w s with
  | Missing => sret false
  | NotDirectory => slift (Err ReadDirectory)
  | Directory d => attempt ReadDirectory ;;* sret (0 <? dir_count d)%nat
  end.

(** [a? && !b?]: the second path is looked at only when the first has content. *)
Definition is_migration_needed : MM bool :=
  let* a := path_has_content RethDb in
  if a then let* b := path_has_content BotanixDb in sret (negb b) else sret false.

(** One turn of the loop of [transport_table]: read an entry, append it. *)
Definition transport_entry (t : string) (kv : bytes * bytes) : MM () :=
  attempt ReadEntry ;;*
  match decode_entry t kv with
  | None => slift (Err ReadEntry)
  | Some e =>
      attempt WriteEntry ;;*
      let* s := sget in
      let '(k, v) := encode_entry t e in
      let m := default ∅ (botanix_tx s !! t) in
      if append_fits k m then update_tx BotanixDb (<[t := <[k := v]> m]>)
      else slift (Err WriteEntry)
  end.

(** The report's number of keys.  A table that cannot be counted is taken for an empty
    one.  The walk reads once more to find its end; [migrated_keys_count] has then counted
    its entries. *)
Definition transport_table (t : string) : MM nat :=
  let* counted := probe in
  let* s := sget in
  match (if counted then reth_tx s !! t else None) with
  | None => sret 0%nat
  | Some table =>
      if (size table =? 0)%nat then sret 0%nat
      else
        attempt CursorFailed ;;*
        attempt CursorFailed ;;*
        (match botanix_tx s !! t with Some _ => sret tt | None => slift (Err CursorFailed) end) ;;*
        sfor (walk_table table) (transport_entry t) ;;*
        attempt ReadEntry ;;*
        let migrated := length (walk_table table) in
        if negb (size table =? migrated)%nat then slift (Err (EntriesMismatch (size table) migrated))
        else
          attempt ClearTable ;;*
          update_tx RethDb (<[t := ∅]>) ;;*
          sret migrated
  end.

Definition migrate_botanix_tables : MM () :=
  tx_mut RethDb ;;*
  tx_mut BotanixDb ;;*
  sfor botanix_tables (λ t, let* _ := transport_table t in sret tt) ;;*
  commit BotanixDb ;;*
  commit RethDb.

Definition remove_dir_all (w : Which) : MM () :=
  attempt RemoveDirectory ;;* smodify (set_path w Missing).

(** [.or_else(|e| { ..; Err(e) })] *)
Definition or_else {A} (m : MM A) (h : MM ()) : MM A := λ s,
  match m s with
  | (Err e, s') => (h ;;* slift (Err e)) s'
  | out => out
  end.

(** The start of a node, up to the use of its databases. *)
Definition start_node : MM () :=
  let* needed := is_migration_needed in
  init_db RethDb ;;*
  init_db BotanixDb ;;*
  if needed then or_else migrate_botanix_tables (remove_dir_all BotanixDb) else sret tt.
End migration.
