(* ===== verification/MigrationTheory.v ===== *)
(** * Theorems about the migration of the Botanix tables

    Whatever fails, and wherever the process dies, no table is lost, and a start on which
    everything works moves all of them. *)

From stdpp Require Import strings.
From S2P Require Import Prelude Migration.

(** ** Hoare triples

    [triple P m Q R]: from a state of [P], [m] returns with [Q] or ends otherwise with [R]. *)
Definition triple {S E A} (P : S → Prop) (m : SM S E A) (Q : A → S → Prop) (R : S → Prop) : Prop :=
  ∀ s, P s → match m s with (Ok a, s') => Q a s' | (_, s') => R s' end.

Section triples.
Context {S E : Type}.
Implicit Types (P R : S → Prop).

Lemma triple_bind {A B} P (m : SM S E A) (k : A → SM S E B) Q Q' R :
  triple P m Q R → (∀ a, triple (Q a) (k a) Q' R) → triple P (sbind m k) Q' R.
Proof.
  intros Hm Hk s Hs. specialize (Hm s Hs). unfold sbind.
  destruct (m s) as [[a|e|] s']; [apply Hk|..]; done.
Qed.
Lemma triple_ret {A} P (a : A) (Q : A → S → Prop) R :
  (∀ s, P s → Q a s) → triple P (sret (E := E) a) Q R.
Proof. intros H s. apply H. Qed.
Lemma triple_get P (Q : S → S → Prop) R : (∀ s, P s → Q s s) → triple P (sget (E := E)) Q R.
Proof. intros H s. apply H. Qed.
Lemma triple_modify P (f : S → S) (Q : () → S → Prop) R :
  (∀ s, P s → Q tt (f s)) → triple P (smodify (E := E) f) Q R.
Proof. intros H s. apply H. Qed.
Lemma triple_err {A} P (e : E) (Q : A → S → Prop) R :
  (∀ s, P s → R s) → triple P (slift (Err e)) Q R.
Proof. intros H s. apply H. Qed.
Lemma triple_weaken {A} P P' (m : SM S E A) (Q Q' : A → S → Prop) R R' :
  triple P' m Q' R' → (∀ s, P s → P' s) → (∀ a s, Q' a s → Q a s) → (∀ s, R' s → R s) →
  triple P m Q R.
Proof.
  intros Hm HP HQ HR s Hs. specialize (Hm s (HP s Hs)).
  destruct (m s) as [[a|e|] s']; auto.
Qed.
Lemma triple_assoc {A} P (m n : SM S E ()) (k : SM S E A) Q R :
  triple P ((m ;;* n) ;;* k) Q R → triple P (m ;;* n ;;* k) Q R.
Proof.
  intros Ht s Hs. specialize (Ht s Hs). unfold sbind in *.
  by destruct (m s) as [[]].
Qed.
(** The loop rule: [I] tells what holds when a prefix of the list is done. *)
Lemma triple_sfor {X} (I : list X → S → Prop) (l : list X) (f : X → SM S E ()) R :
  (∀ pre x post, l = pre ++ x :: post → triple (I pre) (f x) (λ _, I (pre ++ [x])) R) →
  triple (I []) (sfor l f) (λ _, I l) R.
Proof.
  intros Hf. assert (∀ post pre, l = pre ++ post → triple (I pre) (sfor post f) (λ _, I l) R) as H.
  { induction post as [|x post IH]; intros pre Hl.
    - rewrite app_nil_r in Hl. subst pre. by apply triple_ret.
    - simpl. eapply triple_bind; [by eapply Hf|]. intros []. apply IH.
      by rewrite <-app_assoc. }
  by apply (H l []).
Qed.
End triples.

(** ** Tables and paths *)

Definition table_of (m : Mdbx) (t : string) : MdbxTable := default ∅ (m !! t).
(** Two databases have the same Botanix tables. *)
Definition same_tables (m m' : Mdbx) : Prop :=
  ∀ t, t ∈ botanix_tables → table_of m' t = table_of m t.
#[export] Instance same_tables_preorder : PreOrder same_tables.
Proof.
  split; [done|]. intros m1 m2 m3 H1 H2 t Ht. by rewrite H2, H1.
Qed.

Definition mdbx_of (p : PathState) : Mdbx :=
  match p with Directory d => default ∅ (d_mdbx d) | _ => ∅ end.
Definition has_content (p : PathState) : bool :=
  match p with Directory d => (0 <? dir_count d)%nat | _ => false end.
(** What opening a database does to its path. *)
Definition grows (p p' : PathState) : Prop :=
  same_tables (mdbx_of p) (mdbx_of p') ∧ (has_content p = true → has_content p' = true) ∧
  (p' = NotDirectory → p = NotDirectory).
#[export] Instance grows_preorder : PreOrder grows.
Proof.
  split.
  - intros p. split; [reflexivity|done].
  - intros p1 p2 p3 (H1 & H2 & H3) (H4 & H5 & H6). split_and!; [by etrans|auto..].
Qed.

Lemma version_not_botanix t : t ∈ botanix_tables → t ≠ "VersionHistory"%string.
Proof. revert t. apply Forall_forall, (bool_decide_unpack _). by vm_compute. Qed.
Lemma botanix_in_reth t : t ∈ botanix_tables → t ∈ reth_tables.
Proof. revert t. apply Forall_forall, (bool_decide_unpack _). by vm_compute. Qed.

Lemma table_of_insert m t t' x : t ≠ t' → table_of (<[t := x]> m) t' = table_of m t'.
Proof. intros. unfold table_of. by rewrite lookup_insert_ne. Qed.
Lemma table_of_insert_eq m t x : table_of (<[t := x]> m) t = x.
Proof. unfold table_of. by rewrite lookup_insert_eq. Qed.

Lemma create_table_same t m : same_tables m (create_table t m).
Proof.
  intros t' _. unfold create_table. destruct (m !! t) eqn:Ht; [done|].
  destruct (decide (t = t')) as [->|]; [|by rewrite table_of_insert].
  rewrite table_of_insert_eq. unfold table_of. by rewrite Ht.
Qed.
Lemma create_table_has t t' m : is_Some (m !! t') ∨ t' = t → is_Some (create_table t m !! t').
Proof.
  unfold create_table. destruct (m !! t) eqn:Ht; [by intros [?| ->]|].
  rewrite lookup_insert_is_Some'. intros [?| ->]; auto.
Qed.

(** ** Walking and appending *)

Lemma walk_table_sorted m : StronglySorted (λ a b, bytes_leb a.1 b.1 = true) (walk_table m).
Proof.
  apply (sort_by_sorted (λ a b : bytes * bytes, bytes_leb a.1 b.1)).
  - intros. apply bytes_leb_total.
  - intros x y z. apply bytes_leb_trans.
Qed.
Lemma walk_table_perm m : walk_table m ≡ₚ map_to_list m.
Proof. apply sort_by_perm. Qed.
Lemma walk_table_nodup m : NoDup (walk_table m).*1.
Proof. rewrite walk_table_perm. apply NoDup_fst_map_to_list. Qed.
Lemma list_to_map_walk m : list_to_map (walk_table m) = m.
Proof.
  rewrite <-(list_to_map_to_list m) at 2. apply list_to_map_proper; [apply walk_table_nodup|].
  apply walk_table_perm.
Qed.
Lemma length_walk_table m : length (walk_table m) = size m.
Proof. by rewrite walk_table_perm, length_map_to_list. Qed.

(** The next entry of a walk goes behind those before it. *)
Lemma append_fits_next m pre k v post :
  walk_table m = pre ++ (k, v) :: post → append_fits k (list_to_map pre) = true.
Proof.
  intros Hw. apply forallb_forall. intros [k' v'] Hin. simpl.
  apply list_elem_of_In in Hin.
  pose proof (walk_table_nodup m) as Hnd. rewrite Hw, fmap_app in Hnd.
  apply NoDup_app in Hnd as (Hpre & Hdis & _).
  rewrite map_to_list_to_map in Hin by done.
  pose proof (walk_table_sorted m) as Hs. rewrite Hw in Hs.
  apply StronglySorted_app in Hs as (Hs & _ & _).
  specialize (Hs (k', v') (k, v) Hin ltac:(left)). simpl in Hs. rewrite Hs. simpl.
  apply negb_true_iff, bool_decide_eq_false. intros ->.
  apply (Hdis k); [by apply (list_elem_of_fmap_2 fst _ _ Hin)|]. csimpl. left.
Qed.

(** ** Opening a database *)

Definition other (w : Which) : Which :=
  match w with RethDb => BotanixDb | BotanixDb => RethDb end.

Lemma path_tick w s : path_of w (tick s) = path_of w s.
Proof. by destruct w. Qed.
Lemma tx_tick w s : tx_of w (tick s) = tx_of w s.
Proof. by destruct w. Qed.
Lemma path_set_path w p s : path_of w (set_path w p s) = p.
Proof. by destruct w. Qed.
Lemma path_set_path_other w p s : path_of (other w) (set_path w p s) = path_of (other w) s.
Proof. by destruct w. Qed.
Lemma tx_set_path w w' p s : tx_of w' (set_path w p s) = tx_of w' s.
Proof. by destruct w, w'. Qed.
Lemma path_set_tx w w' m s : path_of w' (set_tx w m s) = path_of w' s.
Proof. by destruct w, w'. Qed.
Lemma tx_set_tx w m s : tx_of w (set_tx w m s) = m.
Proof. by destruct w. Qed.
Lemma tx_set_tx_other w m s : tx_of (other w) (set_tx w m s) = tx_of (other w) s.
Proof. by destruct w. Qed.
Create Rewrite HintDb disk.
#[export] Hint Rewrite path_tick tx_tick path_set_path path_set_path_other tx_set_path path_set_tx
  tx_set_tx tx_set_tx_other : disk.
Ltac disk_simpl := autorewrite with disk in *.

(** What only reads the paths and transactions does not see the number of calls. *)
Definition tick_stable (P : Disk → Prop) : Prop := ∀ s, P s → P (tick s).
Ltac tick_stable_tac :=
  let Hs := fresh "Hs" in intros ? Hs; unfold stored in *; disk_simpl; exact Hs.

Lemma grows_create : grows Missing (Directory empty_dir).
Proof. split; [intros ? _; reflexivity|done]. Qed.
Lemma grows_version d v : grows (Directory d) (Directory (mkDir (Some v) (d_mdbx d))).
Proof.
  split; [done|split; [intros _|done]]. unfold has_content, dir_count. simpl.
  done.
Qed.
Lemma grows_mdbx d m :
  same_tables (mdbx_of (Directory d)) m →
  grows (Directory d) (Directory (mkDir (d_version d) (Some m))).
Proof.
  intros Hm. split; [done|split; [intros _|done]]. unfold has_content, dir_count. simpl.
  apply Nat.ltb_lt. lia.
Qed.

Section theory.
Context `{!TableCodec} (env : Environment).

Definition faulty : Prop := ∃ i, io env i ≠ Works.

Lemma probe_triple P :
  tick_stable P →
  triple P (probe env) (λ b s, P s ∧ (b = false → faulty)) (λ s, P s ∧ faulty).
Proof.
  intros Ht s Hs. unfold probe, faulty. destruct (io env (dk_calls s)) eqn:Hio;
    (split; [by apply Ht|]); try done; try intros _; exists (dk_calls s); by rewrite Hio.
Qed.
Lemma attempt_triple P e :
  tick_stable P → triple P (attempt env e) (λ _, P) (λ s, P s ∧ faulty).
Proof.
  intros Ht. eapply triple_bind; [by apply probe_triple|]. intros [].
  - apply triple_ret. naive_solver.
  - apply triple_err. naive_solver.
Qed.
(** An attempt in front of a program. *)
Lemma attempt_then {A} P e (k : SM Disk MigrationError A) Q R :
  tick_stable P → (∀ s, P s → faulty → R s) → triple P k Q R →
  triple P (attempt env e ;;* k) Q R.
Proof.
  intros Ht HR Hk. eapply triple_bind; [|intros []; exact Hk].
  eapply triple_weaken; [by apply attempt_triple|done..|]. intros s []. by apply HR.
Qed.

Section opening.
Context (w : Which) (p0 o0 : PathState).

(** A path on which no database can be opened. *)
Definition bad_path (p : PathState) : Prop :=
  match p with
  | Missing => False
  | NotDirectory => True
  | Directory d => d_version d ≠ None ∧ d_version d ≠ Some (Some DB_VERSION)
  end.

Definition opening (s : Disk) : Prop := grows p0 (path_of w s) ∧ path_of (other w) s = o0.
Definition open_fails (s : Disk) : Prop := opening s ∧ (faulty ∨ bad_path p0).
Definition open_dir (s : Disk) : Prop :=
  opening s ∧ ∃ d, path_of w s = Directory d.

Lemma opening_stable : tick_stable opening.
Proof. unfold opening. tick_stable_tac. Qed.
Lemma open_dir_stable : tick_stable open_dir.
Proof. unfold open_dir, opening. tick_stable_tac. Qed.

Lemma opening_set s p :
  opening s → grows (path_of w s) p → opening (set_path w p s).
Proof. intros [H1 H2] Hp. split; disk_simpl; [by etrans|done]. Qed.

Lemma create_version_triple :
  triple open_dir (create_db_version_file env w) (λ _, open_dir) open_fails.
Proof.
  apply attempt_then; [apply open_dir_stable|unfold open_fails, open_dir; naive_solver|].
  intros s (Ho & d & Hd). unfold sbind, sget, smodify. rewrite Hd. split.
  - apply opening_set; [done|]. rewrite Hd. apply grows_version.
  - disk_simpl. eauto.
Qed.
Lemma create_dir_triple :
  p0 ≠ NotDirectory → triple opening (create_dir_all env w) (λ _, open_dir) open_fails.
Proof.
  intros Hp. apply attempt_then; [apply opening_stable|unfold open_fails; naive_solver|].
  intros s Ho. unfold sbind, sget, smodify, sret. destruct (path_of w s) as [| |d] eqn:Hs.
  - split; [|disk_simpl; eauto]. apply opening_set; [done|]. rewrite Hs. apply grows_create.
  - destruct Ho as [(_ & _ & Ho) _]. by specialize (Ho Hs).
  - by split; [|exists d].
Qed.

(** Reading the version of the path that was found. *)
Lemma check_version_triple d :
  p0 = Directory d →
  triple (λ s, path_of w s = p0 ∧ path_of (other w) s = o0) (check_db_version_file env w)
    (λ r s, open_dir s ∧ (r ≠ None → r ≠ Some MissingFile → faulty ∨ bad_path p0)) open_fails.
Proof.
  intros Hp s [Hs Ho]. assert (open_dir s) as Hd.
  { split; [split; [by rewrite Hs|done]|]. exists d. congruence. }
  unfold check_db_version_file, get_db_version, sbind, sget, sret. rewrite Hs, Hp.
  destruct (d_version d) as [v|] eqn:Hv; simpl; [|done].
  pose proof (probe_triple open_dir open_dir_stable s Hd) as Hpr.
  destruct (probe env s) as [[b|e|] s'] eqn:Hb; simpl in *;
    [|split; [apply Hpr|naive_solver]..].
  destruct Hpr as [Hs' Hf], b; [|split; auto].
  destruct v as [v|]; [destruct (v =? DB_VERSION) eqn:Hvv|]; (split; [done|]);
    [done|intros _ _; right..]; simpl; rewrite Hv; split; try done.
  intros [= ->]. by rewrite Z.eqb_refl in Hvv.
Qed.

Definition open_db (s : Disk) : Prop :=
  opening s ∧ ∃ d, path_of w s = Directory d ∧ is_Some (d_mdbx d).
(** An open database has all tables. *)
Definition opened (s : Disk) : Prop :=
  opening s ∧ ∃ d m, path_of w s = Directory d ∧ d_mdbx d = Some m ∧
    ∀ t, t ∈ reth_tables → is_Some (m !! t).

Lemma open_db_fails s : open_db s → faulty → open_fails s.
Proof. unfold open_fails, open_db. naive_solver. Qed.
Lemma opened_fails s : opened s → faulty → open_fails s.
Proof. unfold open_fails, opened. naive_solver. Qed.
Lemma opened_open s : opened s → open_db s.
Proof. intros (Ho & d & m & Hd & Hm & _). split; [done|]. exists d. by rewrite Hm. Qed.

Lemma open_env_triple : triple open_dir (open_env env w) (λ _, open_db) open_fails.
Proof.
  apply attempt_then; [apply open_dir_stable|unfold open_fails, open_dir; naive_solver|].
  intros s (Ho & d & Hd). unfold sbind, sget, smodify. rewrite Hd. split.
  - apply opening_set; [done|]. rewrite Hd. by apply grows_mdbx.
  - disk_simpl. simpl. eauto.
Qed.

Definition found (s : Disk) : Prop := path_of w s = p0 ∧ path_of (other w) s = o0.
Lemma found_opening s : found s → opening s.
Proof. intros [Hs Ho]. split; [by rewrite Hs|done]. Qed.

Lemma make_dir_triple :
  p0 ≠ NotDirectory →
  triple opening (create_dir_all env w ;;* create_db_version_file env w) (λ _, open_dir) open_fails.
Proof.
  intros Hp. eapply triple_bind; [by apply create_dir_triple|]. intros [].
  apply create_version_triple.
Qed.

Lemma check_dir_triple :
  p0 ≠ Missing →
  triple found
    (let* r := check_db_version_file env w in
     match r with
     | None => sret tt
     | Some MissingFile => create_db_version_file env w
     | Some e => slift (Err (VersionError e))
     end) (λ _, open_dir) open_fails.
Proof.
  intros Hp. destruct p0 as [| |d] eqn:Hp0; [done|..].
  - intros s Hs. unfold sbind, check_db_version_file, get_db_version, sbind, sget, sret, slift.
    pose proof (found_opening s) as Ho. unfold found in *. rewrite Hp0 in *.
    destruct Hs as [Hs ?]. rewrite Hs. split; [by apply Ho|]. right. by rewrite Hp0.
  - eapply triple_bind; [by apply (check_version_triple d)|]. intros r.
    destruct r as [[]|]; [apply triple_weaken with open_dir (λ _, open_dir) open_fails;
      [apply create_version_triple|naive_solver|done..]| | | |apply triple_ret; naive_solver];
    apply triple_err; intros s [[] Hr]; (split; [done|]); by apply Hr.
Qed.

Lemma create_db_triple : triple found (create_db env w) (λ _, open_db) open_fails.
Proof.
  apply triple_bind with (Q := λ b s,
    if b : bool then p0 ≠ NotDirectory ∧ opening s else p0 ≠ Missing ∧ found s).
  - intros s Hs. unfold is_database_empty, sbind, sget, sret. pose proof Hs as [Hp _].
    destruct (path_of w s) eqn:Hps.
    + split; [by rewrite <-Hp|by apply found_opening].
    + split; [by rewrite <-Hp|done].
    + pose proof (probe_triple found ltac:(unfold found; tick_stable_tac) s Hs) as Hpr.
      destruct (probe env s) as [[b|e|] s'];
        [|split; [apply found_opening|left]; apply Hpr..].
      destruct Hpr as [Hs' _]. destruct b, (dir_count d =? 0)%nat; simpl;
        (split; [by rewrite <-Hp|]); try done; by apply found_opening.
  - intros empty. apply triple_bind with (λ _, open_dir); [|intros []; apply open_env_triple].
    destruct empty.
    + intros s [? Ho]. revert s Ho. by apply make_dir_triple.
    + intros s [? Ho]. revert s Ho. by apply check_dir_triple.
Qed.

Definition tables_fit (s : Disk) : Prop := same_tables (stored w s) (tx_of w s).

Lemma tx_mut_triple P Q R :
  tick_stable P → (∀ s, P s → faulty → R s) →
  (∀ s, P s → Q (set_tx w (stored w s) s)) →
  triple P (tx_mut env w) (λ _, Q) R.
Proof.
  intros Ht HR HQ. apply attempt_then; [done..|].
  intros s Hs. unfold sbind, sget, smodify. auto.
Qed.

Lemma set_tx_open_db m s : open_db s → open_db (set_tx w m s).
Proof. unfold open_db, opening. by disk_simpl. Qed.

(** A transaction that may be committed: it has the listed tables. *)
Definition ready (l : list string) (s : Disk) : Prop :=
  (open_db s ∧ tables_fit s) ∧ ∀ t, t ∈ l → is_Some (tx_of w s !! t).

Lemma commit_triple (tables : list string) :
  (∀ t, t ∈ reth_tables → t ∈ tables) →
  triple (ready tables) (commit env w) (λ _, opened) open_fails.
Proof.
  intros Hsub. apply attempt_then.
  - unfold ready, open_db, opening, tables_fit. tick_stable_tac.
  - intros s [[Ho _] _]. by apply open_db_fails.
  - intros s [[(Ho & d & Hd & Hm) Hfit] Hall]. unfold sbind, sget, smodify. rewrite Hd. split.
    + apply opening_set; [done|]. rewrite Hd. apply grows_mdbx.
      unfold tables_fit, stored in Hfit. by rewrite Hd in Hfit.
    + disk_simpl. simpl. eauto 10.
Qed.

Lemma create_tables_triple : triple open_db (create_tables env w) (λ _, opened) open_fails.
Proof.
  assert (∀ l, tick_stable (ready l)) as HI.
  { intros l. unfold ready, open_db, opening, tables_fit. tick_stable_tac. }
  apply triple_bind with (λ _, ready []).
  { apply tx_mut_triple; [unfold open_db, opening; tick_stable_tac|apply open_db_fails|].
    intros s Hs. unfold ready, tables_fit, stored. split; [split|].
    - by apply set_tx_open_db.
    - by disk_simpl.
    - intros t Ht. by apply not_elem_of_nil in Ht. }
  intros []. apply triple_bind with (λ _, ready reth_tables); [|by intros []; apply commit_triple].
  apply triple_sfor. intros pre t post _.
  apply attempt_then; [done|intros s [[Ho _] _]; by apply open_db_fails|].
  apply triple_modify. intros s [[Ho Hfit] Hall]. split; [split|].
  - by apply set_tx_open_db.
  - unfold tables_fit, stored in *. disk_simpl. etrans; [done|]. apply create_table_same.
  - intros t'. disk_simpl. rewrite elem_of_app, list_elem_of_singleton. intros Ht'.
    apply create_table_has. naive_solver.
Qed.

(** The entry a client adds leaves the other tables alone. *)
Lemma upsert_version_triple m history (same : bool) :
  (∀ t, t ∈ reth_tables → is_Some (m !! t)) →
  triple (λ s, opened s ∧ tx_of w s = m ∧ stored w s = m)
    (attempt env ReadEntry ;;*
     if same then sret tt
     else attempt env WriteEntry ;;*
          update_tx w (<["VersionHistory"%string := history]>) ;;* commit env w)
    (λ _, opened) open_fails.
Proof.
  intros Hall. assert (tick_stable (λ s, opened s ∧ tx_of w s = m ∧ stored w s = m)) as Ht.
  { unfold opened, opening. tick_stable_tac. }
  apply attempt_then; [done|intros s []; by apply opened_fails|].
  destruct same; [apply triple_ret; naive_solver|].
  apply attempt_then; [done|intros s []; by apply opened_fails|].
  apply triple_bind with (λ _, ready reth_tables); [|intros []; by apply commit_triple].
  apply triple_modify. intros s (Hs & Htx & Hst). split; [split|].
  - by apply set_tx_open_db, opened_open.
  - unfold tables_fit, stored in *. disk_simpl. rewrite Hst, Htx. intros t Hin.
    apply table_of_insert, not_eq_sym. by apply version_not_botanix.
  - intros t Hin. disk_simpl. rewrite Htx. apply lookup_insert_is_Some'. auto.
Qed.

Lemma record_version_triple : triple opened (record_client_version env w) (λ _, opened) open_fails.
Proof.
  unfold record_client_version. case_match; [by apply triple_ret|].
  apply triple_bind with (λ _ s, opened s ∧ tx_of w s = stored w s).
  { apply tx_mut_triple; [unfold opened, opening; tick_stable_tac|apply opened_fails|].
    intros s Hs. unfold opened, opening, stored in *. by disk_simpl. }
  intros []. apply attempt_then;
    [unfold opened, opening; tick_stable_tac|intros s []; by apply opened_fails|].
  intros s [Hs Htx]. unfold sbind at 1, sget. pose proof Hs as (_ & d & m & Hd & Hm & Hall).
  assert (stored w s = m) as Hst by (unfold stored; by rewrite Hd, Hm).
  destruct (Hall "VersionHistory"%string) as [history Hh].
  { apply (bool_decide_unpack _). by vm_compute. }
  rewrite Htx, Hst, Hh.
  apply (upsert_version_triple m _ (bool_decide _) Hall). by rewrite Htx, Hst.
Qed.

Lemma init_db_triple : triple found (init_db env w) (λ _, opened) open_fails.
Proof.
  eapply triple_bind; [apply create_db_triple|]. intros [].
  eapply triple_bind; [apply create_tables_triple|]. intros [].
  apply record_version_triple.
Qed.
End opening.

(** ** Moving the tables

    [T] is what the tables hold before the migration. *)
Section moving.
Context (T : string → MdbxTable).
Hypothesis decode_encode_entry : ∀ t e, decode_entry t (encode_entry t e) = Some e.
Hypothesis tables_encoded :
  ∀ t kv, t ∈ botanix_tables → kv ∈ map_to_list (T t) → ∃ e, encode_entry t e = kv.

(** A table that has been moved, and one that has not. *)
Definition moved (r b : Mdbx) (t : string) : Prop := table_of r t = ∅ ∧ table_of b t = T t.
Definition kept (r b : Mdbx) (t : string) : Prop := table_of r t = T t ∧ table_of b t = ∅.

Context (rp bp : PathState).
(** The transactions, with the tables of [pre] done; nothing is stored yet. *)
Definition on_paths (s : Disk) : Prop := dk_reth s = rp ∧ dk_botanix s = bp.
Definition progress (pre : list string) (s : Disk) : Prop :=
  on_paths s ∧
  (∀ t, t ∈ reth_tables → is_Some (reth_tx s !! t) ∧ is_Some (botanix_tx s !! t)) ∧
  ∀ t, t ∈ botanix_tables →
    if decide (t ∈ pre)
    then moved (reth_tx s) (botanix_tx s) t ∨ kept (reth_tx s) (botanix_tx s) t ∧ faulty
    else kept (reth_tx s) (botanix_tx s) t.

Section table.
Context (t : string) (r b : Mdbx).
Definition entries_done (l : list (bytes * bytes)) (s : Disk) : Prop :=
  on_paths s ∧ reth_tx s = r ∧ botanix_tx s = <[t := list_to_map l]> b.

Lemma transport_entry_triple pre kv post :
  t ∈ botanix_tables → walk_table (T t) = pre ++ kv :: post →
  triple (entries_done pre) (transport_entry env t kv) (λ _, entries_done (pre ++ [kv]))
    (λ s, on_paths s ∧ faulty).
Proof.
  intros Ht Hw. destruct (tables_encoded t kv) as [e He]; [done|..].
  { rewrite <-walk_table_perm, Hw. apply elem_of_app. right. left. }
  assert (tick_stable (entries_done pre)) as Hst by (intros ? Hs; exact Hs).
  apply attempt_then; [done|unfold entries_done; naive_solver|].
  rewrite <-He, decode_encode_entry.
  apply attempt_then; [done|unfold entries_done; naive_solver|].
  intros s (Hp & Hr & Hb). unfold sbind, sget. rewrite He, Hb. destruct kv as [k v].
  rewrite lookup_insert_eq. simpl. rewrite (append_fits_next _ _ _ _ _ Hw).
  split_and!; [done..|]. simpl. rewrite Hb, insert_insert_eq. f_equal.
  rewrite list_to_map_snoc; [done|]. pose proof (walk_table_nodup (T t)) as Hnd.
  rewrite Hw, fmap_app in Hnd. apply NoDup_app in Hnd as (_ & Hd & _).
  intros Hk. apply (Hd k Hk). csimpl. left.
Qed.

(** The rest of [transport_table] for a table with entries. *)
Lemma transport_entries_triple :
  t ∈ botanix_tables → is_Some (b !! t) →
  triple (entries_done [])
    (attempt env CursorFailed ;;*
     attempt env CursorFailed ;;*
     (match b !! t with Some _ => sret tt | None => slift (Err CursorFailed) end) ;;*
     sfor (walk_table (T t)) (transport_entry env t) ;;*
     attempt env ReadEntry ;;*
     let migrated := length (walk_table (T t)) in
     if negb (size (T t) =? migrated)%nat
     then slift (Err (EntriesMismatch (size (T t)) migrated))
     else attempt env ClearTable ;;* update_tx RethDb (<[t := ∅]>) ;;* sret migrated)
    (λ _ s, on_paths s ∧ reth_tx s = <[t := ∅]> r ∧ botanix_tx s = <[t := T t]> b)
    (λ s, on_paths s ∧ faulty).
Proof.
  intros Ht [tb Hb]. rewrite Hb.
  assert (∀ l, tick_stable (entries_done l)) as Hst by (intros l ? Hs; exact Hs).
  assert (∀ l s, entries_done l s → faulty → on_paths s ∧ faulty) as Hf by (intros l s []; done).
  do 2 (apply attempt_then; [done|apply Hf|]).
  apply triple_bind with (λ _, entries_done []); [by apply triple_ret|]. intros [].
  apply triple_bind with (λ _, entries_done (walk_table (T t))).
  { apply triple_sfor. intros pre kv post Hw. by eapply transport_entry_triple. }
  intros []. apply attempt_then; [done|apply Hf|].
  cbv zeta. rewrite length_walk_table, Nat.eqb_refl. simpl negb. cbv iota.
  apply attempt_then; [done|apply Hf|].
  intros s (Hp & Hr & Hbt). rewrite list_to_map_walk in Hbt.
  unfold sbind, update_tx, smodify, sret. simpl. by rewrite Hr.
Qed.
End table.

Lemma decide_snoc (t : string) pre (A B : Prop) : (if decide (t ∈ pre ++ [t]) then A else B) ↔ A.
Proof. by rewrite decide_True by (apply elem_of_app; right; left). Qed.
Lemma decide_snoc_ne (t t' : string) pre (A B : Prop) :
  t' ≠ t → (if decide (t' ∈ pre ++ [t]) then A else B) ↔ (if decide (t' ∈ pre) then A else B).
Proof.
  intros Hne. destruct (decide (t' ∈ pre)) as [Hin|Hin].
  - by rewrite decide_True by (apply elem_of_app; by left).
  - rewrite decide_False; [done|]. rewrite elem_of_app, list_elem_of_singleton. naive_solver.
Qed.
Lemma progress_skip pre t s :
  t ∈ botanix_tables → t ∉ pre → progress pre s → T t = ∅ ∨ faulty → progress (pre ++ [t]) s.
Proof.
  intros Ht Hpre (Hp & Hall & Htab) Hor. split_and!; [done..|]. intros t' Ht'.
  specialize (Htab t' Ht'). destruct (decide (t' = t)) as [->|Hne].
  - rewrite decide_False in Htab by done. apply decide_snoc.
    destruct Htab as [H1 H2], Hor as [H3|?]; [left|by right]. split; congruence.
  - by apply decide_snoc_ne.
Qed.
Lemma progress_move pre t s s' :
  t ∈ botanix_tables → progress pre s → on_paths s' →
  reth_tx s' = <[t := ∅]> (reth_tx s) → botanix_tx s' = <[t := T t]> (botanix_tx s) →
  progress (pre ++ [t]) s'.
Proof.
  intros Ht (_ & Hall & Htab) Hp Hr Hb. split_and!; [done|..].
  - intros t' Ht'. destruct (Hall t' Ht'). rewrite Hr, Hb, !lookup_insert_is_Some'. auto.
  - intros t' Ht'. specialize (Htab t' Ht'). destruct (decide (t' = t)) as [->|Hne].
    + apply decide_snoc. left. unfold moved.
      by rewrite Hr, Hb, !table_of_insert_eq.
    + apply decide_snoc_ne; [done|]. unfold moved, kept in *.
      by rewrite Hr, Hb, !table_of_insert.
Qed.

Lemma transport_table_triple pre t :
  t ∈ botanix_tables → t ∉ pre →
  triple (progress pre) (transport_table env t) (λ _, progress (pre ++ [t]))
    (λ s, on_paths s ∧ faulty).
Proof.
  intros Ht Hpre. assert (tick_stable (progress pre)) as Hst by (intros ? Hs; exact Hs).
  apply triple_bind with (λ c s, progress pre s ∧ (c = false → faulty)).
  { eapply triple_weaken; [by apply probe_triple|done|done|]. intros s [[] ?]. done. }
  intros counted s [Hs Hf]. unfold sbind at 1, sget.
  destruct counted; [|apply progress_skip; auto].
  pose proof Hs as (Hp & Hall & Htab).
  destruct (Hall t (botanix_in_reth t Ht)) as [[table Hr] [tb Hb]].
  specialize (Htab t Ht). rewrite decide_False in Htab by done. destruct Htab as [H1 H2].
  unfold table_of in H1, H2. rewrite Hr in H1. rewrite Hb in H2. simpl in H1, H2. subst table tb.
  rewrite Hr. destruct (size (T t) =? 0)%nat eqn:Hz.
  - apply progress_skip; [done..|]. left. apply map_size_empty_inv. by apply Nat.eqb_eq.
  - pose proof (transport_entries_triple t (reth_tx s) (botanix_tx s) Ht ltac:(by rewrite Hb) s) as H3.
    rewrite Hb in H3 |- *. cbv zeta in H3. specialize (H3 ltac:(split_and!; [done..|by rewrite insert_id])).
    revert H3. lazymatch goal with |- (let (_, _) := ?m in _) → _ => destruct m as [[n|e|] s'] end;
      [intros (? & ? & ?); by eapply progress_move|done..].
Qed.

Lemma botanix_tables_nodup : NoDup botanix_tables.
Proof. apply (bool_decide_unpack _). by vm_compute. Qed.

(** The transactions with all tables done. *)
Lemma transport_all_triple :
  triple (progress [])
    (sfor botanix_tables (λ t, let* _ := transport_table env t in sret tt))
    (λ _, progress botanix_tables) (λ s, on_paths s ∧ faulty).
Proof.
  apply triple_sfor. intros pre t post Hl.
  assert (t ∈ botanix_tables) as Ht by (rewrite Hl; apply elem_of_app; right; left).
  assert (t ∉ pre).
  { pose proof botanix_tables_nodup as Hnd. rewrite Hl in Hnd.
    apply NoDup_app in Hnd as (_ & Hd & _). intros Hin. apply (Hd t Hin). left. }
  eapply triple_bind; [by apply transport_table_triple|]. intros n. by apply triple_ret.
Qed.

(** The paths as the node has opened them. *)
Context (dr db : Dir) (mr mb : Mdbx).
Hypothesis rp_open : rp = Directory dr.
Hypothesis rp_mdbx : d_mdbx dr = Some mr.
Hypothesis bp_open : bp = Directory db.
Hypothesis bp_mdbx : d_mdbx db = Some mb.
Hypothesis all_tables : ∀ t, t ∈ reth_tables → is_Some (mr !! t) ∧ is_Some (mb !! t).
Hypothesis all_kept : ∀ t, t ∈ botanix_tables → kept mr mb t.

(** What the migration commits. *)
Definition committed (r b : Mdbx) : Prop :=
  ∀ t, t ∈ botanix_tables → moved r b t ∨ kept r b t ∧ faulty.
Definition stopped (s : Disk) : Prop :=
  faulty ∧ dk_reth s = rp ∧
  (dk_botanix s = bp ∨
   ∃ r b, dk_botanix s = Directory (mkDir (d_version db) (Some b)) ∧ committed r b).

Lemma migrate_triple :
  triple on_paths (migrate_botanix_tables env)
    (λ _ s, ∃ r b, dk_reth s = Directory (mkDir (d_version dr) (Some r)) ∧
       dk_botanix s = Directory (mkDir (d_version db) (Some b)) ∧ committed r b) stopped.
Proof.
  assert (∀ P, tick_stable P → ∀ w Q, (∀ s, P s → on_paths s) →
    (∀ s, P s → Q (set_tx w (stored w s) s)) → triple P (tx_mut env w) (λ _, Q) stopped) as Htx.
  { intros P HP w Q Hpaths HQ. apply tx_mut_triple; [done| |done].
    intros s Hs Hf. destruct (Hpaths s Hs). by split_and!; [| |left]. }
  eapply triple_bind; [apply (Htx on_paths) with (Q := λ s, on_paths s ∧ reth_tx s = mr)|].
  { by intros ? Hs. } { done. }
  { intros s [Hr Hb]. split; [by split|]. simpl. unfold stored. simpl.
    by rewrite Hr, rp_open, rp_mdbx. }
  intros []. eapply triple_bind; [eapply Htx with (Q := progress [])|].
  { by intros ? Hs. } { by intros s []. }
  { intros s [[Hr Hb] Hm]. unfold stored. simpl. rewrite Hb, bp_open, bp_mdbx. simpl.
    split_and!; [done..| |].
    - intros t Ht. simpl. rewrite Hm. by apply all_tables.
    - intros t Ht. rewrite decide_False by apply not_elem_of_nil. simpl. rewrite Hm.
      by apply all_kept. }
  intros []. eapply triple_bind.
  { eapply triple_weaken; [apply transport_all_triple|done|done|].
    intros s [[Hr Hb] Hf]. by split_and!; [| |left]. }
  intros []. apply triple_bind with (λ _ s, dk_reth s = rp ∧ ∃ b,
    dk_botanix s = Directory (mkDir (d_version db) (Some b)) ∧ committed (reth_tx s) b).
  { apply attempt_then; [by intros ? Hs|intros s [[Hr Hb] _] ?; by split_and!; [| |left]|].
    intros s ([Hr Hb] & _ & Htab). unfold sbind, sget, smodify. simpl. rewrite Hb, bp_open.
    split; [done|]. eexists. split; [done|]. intros t Ht. specialize (Htab t Ht).
    by rewrite decide_True in Htab. }
  intros []. apply attempt_then; [by intros ? Hs| |].
  { intros s (Hr & b & Hb & Hc) ?. split_and!; [done..|]. right. eauto. }
  intros s (Hr & b & Hb & Hc). unfold sbind, sget, smodify. simpl. rewrite Hr, rp_open. simpl. eauto.
Qed.
End moving.

(** ** Starting a node *)

Section starting.
Context (T : string → MdbxTable).

Definition reth_db (s : Disk) : Mdbx := mdbx_of (dk_reth s).
Definition botanix_db (s : Disk) : Mdbx := mdbx_of (dk_botanix s).

(** A node of before the migration: the tables are in the reth database, and there is no
    Botanix database. *)
Definition old_node (s : Disk) : Prop :=
  has_content (dk_reth s) = true ∧ has_content (dk_botanix s) = false ∧
  dk_botanix s ≠ NotDirectory ∧ ∀ t, t ∈ botanix_tables → table_of (reth_db s) t = T t.

(** A node with a Botanix database: every table is in it or was left behind. *)
Definition accounted (r b : Mdbx) (t : string) : Prop :=
  table_of b t = T t ∧ (table_of r t = ∅ ∨ table_of r t = T t) ∨ kept T r b t.
Definition new_node (s : Disk) : Prop :=
  has_content (dk_reth s) = true ∧ has_content (dk_botanix s) = true ∧
  ∀ t, t ∈ botanix_tables → accounted (reth_db s) (botanix_db s) t.

Hypothesis decode_encode_entry : ∀ t e, decode_entry t (encode_entry t e) = Some e.
Hypothesis tables_encoded :
  ∀ t kv, t ∈ botanix_tables → kv ∈ map_to_list (T t) → ∃ e, encode_entry t e = kv.

Lemma path_content_triple w rp bp :
  path_of w (mkDisk rp bp ∅ ∅ 0) ≠ NotDirectory →
  triple (on_paths rp bp) (path_has_content env w)
    (λ b s, on_paths rp bp s ∧ b = has_content (path_of w s)) (λ s, on_paths rp bp s ∧ faulty).
Proof.
  intros Hw s [Hr Hb]. unfold path_has_content, sbind at 1, sget.
  assert (path_of w s = path_of w (mkDisk rp bp ∅ ∅ 0)) as Hp by (destruct w; done).
  destruct (path_of w s) as [| |d] eqn:Hps; [split; [done|by rewrite Hps]|congruence|].
  apply (attempt_then (λ s, on_paths rp bp s ∧ path_of w s = Directory d));
    [intros ? Hs; disk_simpl; exact Hs|naive_solver| |by split].
  apply triple_ret. intros s' [? Hd]. by rewrite Hd.
Qed.

Lemma needed_triple rp bp :
  has_content rp = true → bp ≠ NotDirectory →
  triple (on_paths rp bp) (is_migration_needed env)
    (λ b s, on_paths rp bp s ∧ b = negb (has_content bp)) (λ s, on_paths rp bp s ∧ faulty).
Proof.
  intros Hrp Hbp. eapply triple_bind; [apply (path_content_triple RethDb); by destruct rp|].
  intros a s [[Hr Hb] ->]. simpl. rewrite Hr, Hrp.
  eapply (triple_bind (on_paths rp bp)); [by apply (path_content_triple BotanixDb)| |by split].
  intros b'. apply triple_ret. intros s' [[? Hb'] ->]. split; [by split|]. simpl. by rewrite Hb'.
Qed.

Lemma grows_has_content p p' : grows p p' → has_content p = true → has_content p' = true.
Proof. intros (_ & H1 & _). auto. Qed.
Lemma grows_table p p' t : grows p p' → t ∈ botanix_tables → table_of (mdbx_of p') t = table_of (mdbx_of p) t.
Proof. intros (H1 & _) Ht. by apply H1. Qed.

(** Opening both databases keeps the tables. *)
Lemma open_both_triple rp bp :
  triple (on_paths rp bp) (init_db env RethDb ;;* init_db env BotanixDb)
    (λ _ s, opened RethDb rp (dk_botanix s) s ∧ opened BotanixDb bp (dk_reth s) s)
    (λ s, (grows rp (dk_reth s) ∧ grows bp (dk_botanix s)) ∧ (faulty ∨ bad_path rp ∨ bad_path bp)).
Proof.
  eapply triple_bind; [eapply triple_weaken; [apply (init_db_triple RethDb rp bp)|done..|]|].
  { intros s [[Hg Ho] Hf]. simpl in *. rewrite Ho. split; [by split|tauto]. }
  intros [] s Hs. pose proof Hs as [[Hg Ho] Hd]. simpl in *.
  pose proof (init_db_triple BotanixDb bp (dk_reth s) s ltac:(by split)) as Hi.
  destruct (init_db env BotanixDb s) as [[[]|e|] s']; [|destruct Hi as [[Hg' Ho'] Hf]..].
  - split; [|by destruct Hi as [[Hg' Ho'] Hi]; split; [split|]].
    pose proof Hi as [[Hg' Ho'] _]. simpl in *.
    split; [split|]; simpl; rewrite ?Ho'; done.
  - simpl in *. rewrite Ho'. split; [by split|tauto].
  - simpl in *. rewrite Ho'. split; [by split|tauto].
Qed.

(** A node with a Botanix database only opens its databases. *)
Lemma start_new_triple rp bp :
  has_content rp = true → has_content bp = true →
  triple (on_paths rp bp) (start_node env)
    (λ _ s, grows rp (dk_reth s) ∧ grows bp (dk_botanix s))
    (λ s, grows rp (dk_reth s) ∧ grows bp (dk_botanix s)).
Proof.
  intros Hr Hb. eapply triple_bind.
  { eapply triple_weaken; [apply (needed_triple rp bp); [done|by destruct bp]|done|done|].
    intros s [[-> ->] _]. done. }
  intros needed s [Hp ->]. rewrite Hb. revert s Hp. apply triple_assoc.
  eapply triple_bind; [eapply triple_weaken; [apply open_both_triple|done|done|by intros s []]|].
  intros []. apply triple_ret. by intros s [[[? _] _] [[? _] _]].
Qed.

Lemma mdbx_content v m : has_content (Directory (mkDir v (Some m))) = true.
Proof. unfold has_content, dir_count. simpl. apply Nat.ltb_lt. lia. Qed.

Lemma committed_accounted r b t :
  committed T r b → t ∈ botanix_tables → accounted r b t.
Proof. intros Hc Ht. destruct (Hc t Ht) as [[]|[]]; [left; auto|by right]. Qed.

(** The databases of an old node, open. *)
Definition ready_to_move (s : Disk) (dr db : Dir) (mr mb : Mdbx) : Prop :=
  dk_reth s = Directory dr ∧ d_mdbx dr = Some mr ∧
  dk_botanix s = Directory db ∧ d_mdbx db = Some mb ∧
  (∀ t, t ∈ reth_tables → is_Some (mr !! t) ∧ is_Some (mb !! t)) ∧
  ∀ t, t ∈ botanix_tables → kept T mr mb t.

(** However the migration stops, the tables are still in the reth database. *)
Lemma stopped_tables s dr db mr mb s' :
  ready_to_move s dr db mr mb → stopped T (dk_reth s) (dk_botanix s) db s' →
  new_node s' ∧ ∀ t, t ∈ botanix_tables → table_of (reth_db s') t = T t.
Proof.
  intros (Hr & Hmr & Hb & Hmb & Hall & Hkept) (_ & Hr' & Hor).
  destruct dr as [vr ?], db as [vb ?]. simpl in *. subst.
  assert (∀ t, t ∈ botanix_tables → table_of (reth_db s') t = T t) as HT.
  { intros t Ht. unfold reth_db. rewrite Hr', Hr. by apply Hkept. }
  split; [|done]. split_and!; [rewrite Hr', Hr; apply mdbx_content|..].
  - destruct Hor as [->|(r & b & -> & _)]; [rewrite Hb|]; apply mdbx_content.
  - intros t Ht. destruct Hor as [Hb'|(r & b & Hb' & Hc)]; unfold botanix_db; rewrite Hb'.
    + rewrite Hb. right. split; [by apply HT|]. by apply Hkept.
    + destruct (Hc t Ht) as [[_ ?]|[[_ ?] _]]; [left; by split; [|right; apply HT]|].
      right. by split; [apply HT|].
Qed.

Lemma move_tables_triple s dr db mr mb :
  ready_to_move s dr db mr mb →
  match or_else (migrate_botanix_tables env) (remove_dir_all env BotanixDb) s with
  | (Ok _, s') => new_node s' ∧ committed T (reth_db s') (botanix_db s')
  | (_, s') => (old_node s' ∨ new_node s') ∧ faulty
  end.
Proof.
  intros Hready. pose proof Hready as (Hr & Hmr & Hb & Hmb & Hall & Hkept).
  pose proof (migrate_triple T decode_encode_entry tables_encoded (dk_reth s) (dk_botanix s)
    dr db mr mb Hr Hmr Hb Hmb Hall Hkept s ltac:(by split)) as Hm.
  unfold or_else. destruct (migrate_botanix_tables env s) as [[[]|e|] s'].
  - destruct Hm as (r & b & Hr' & Hb' & Hc). split; [split_and!|].
    + rewrite Hr'. apply mdbx_content.
    + rewrite Hb'. apply mdbx_content.
    + intros t Ht. unfold reth_db, botanix_db. rewrite Hr', Hb'. by apply committed_accounted.
    + unfold reth_db, botanix_db. by rewrite Hr', Hb'.
  - enough (triple (stopped T (dk_reth s) (dk_botanix s) db)
      (remove_dir_all env BotanixDb ;;* slift (Err e)) (λ (_ : ()) _, False)
      (λ s', (old_node s' ∨ new_node s') ∧ faulty)) as Ht.
    { specialize (Ht s' Hm). by destruct (sbind _ _ s') as [[]]. }
    apply triple_bind with (λ _ s', (old_node s' ∨ new_node s') ∧ faulty);
      [apply attempt_then|intros []; by apply triple_err].
    + by intros ? Hs.
    + intros s2 Hs2 ?. split; [right|done]. by eapply stopped_tables.
    + apply triple_modify. intros s2 Hs2. pose proof Hs2 as [Hf _].
      destruct (stopped_tables _ _ _ _ _ _ Hready Hs2) as [(Hc & _) HT]. split; [left|done].
      by split_and!.
  - pose proof Hm as [Hf _]. split; [right|done]. by eapply stopped_tables.
Qed.

(** An old node opens its databases and moves its tables. *)
Lemma start_old_triple rp bp :
  has_content rp = true → has_content bp = false → bp ≠ NotDirectory →
  (∀ t, t ∈ botanix_tables → table_of (mdbx_of rp) t = T t) →
  triple (on_paths rp bp) (start_node env)
    (λ _ s, new_node s ∧ committed T (reth_db s) (botanix_db s))
    (λ s, (old_node s ∨ new_node s) ∧ (faulty ∨ bad_path rp)).
Proof.
  intros Hr Hb Hbd HT.
  assert (∀ t, table_of (mdbx_of bp) t = ∅) as Hblank.
  { intros t. destruct bp as [| |[v m]]; [done..|]. unfold has_content, dir_count in Hb. simpl in *.
    by destruct m; [destruct (bool_decide _)|]. }
  assert (¬ bad_path bp) as Hbp.
  { destruct bp as [| |[v m]]; [naive_solver..|]. unfold has_content, dir_count in Hb. simpl in *.
    destruct v; [done|]. by intros []. }
  (* the tables before the migration has started *)
  assert (∀ s, grows rp (dk_reth s) → grows bp (dk_botanix s) → old_node s ∨ new_node s) as Hopen.
  { intros s Hgr Hgb. destruct (has_content (dk_botanix s)) eqn:Hc; [right|left].
    - split_and!; [by apply (grows_has_content rp)|done|]. intros t Ht. right.
      split; [unfold reth_db; by rewrite (grows_table _ _ _ Hgr), HT|].
      unfold botanix_db. by rewrite (grows_table _ _ _ Hgb).
    - split_and!; [by apply (grows_has_content rp)|done| |].
      + intros Hd. by apply Hbd, Hgb.
      + intros t Ht. unfold reth_db. by rewrite (grows_table _ _ _ Hgr), HT. }
  eapply triple_bind.
  { eapply triple_weaken; [by apply (needed_triple rp bp)|done|done|].
    intros s [[Hr' Hb'] Hf]. split; [|by left]. apply Hopen; [by rewrite Hr'|by rewrite Hb']. }
  intros needed s [Hp ->]. rewrite Hb. simpl negb. cbv iota. revert s Hp. apply triple_assoc.
  eapply triple_bind; [eapply triple_weaken; [apply open_both_triple|done|done|]|].
  { intros s [[? ?] Hf]. split; [by apply Hopen|]. tauto. }
  intros [] s [[[Hgr _] (dr & mr & Hdr & Hmr & Hall)] [[Hgb _] (db & mb & Hdb & Hmb & Hall')]].
  simpl in *. assert (ready_to_move s dr db mr mb) as Hready.
  { split_and!; [done..|intros t Ht; auto|]. intros t Ht. split.
    - rewrite <-HT by done. rewrite <-(grows_table _ _ _ Hgr) by done. by rewrite Hdr; simpl; rewrite Hmr.
    - rewrite <-(Hblank t), <-(grows_table _ _ _ Hgb) by done. by rewrite Hdb; simpl; rewrite Hmb. }
  pose proof (move_tables_triple s dr db mr mb Hready) as Hm.
  destruct (or_else _ _ s) as [[[]|e|] s']; [done|split; [apply Hm|left; apply Hm]..].
Qed.
End starting.
End theory.

(** What is stored can be read. *)
Class TableCodecLaws `{!TableCodec} : Prop :=
  decode_encode_entry t e : decode_entry t (encode_entry t e) = Some e.

Section runs.
Context `{!TableCodec, !TableCodecLaws}.
Implicit Types (T : string → MdbxTable) (s : Disk).

(** The stored entries of the tables. *)
Definition well_stored T : Prop :=
  ∀ t kv, t ∈ botanix_tables → kv ∈ map_to_list (T t) → ∃ e, encode_entry t e = kv.

(** Starts of a node one after another, each with its own faults. *)
Inductive starts s0 : Disk → Prop :=
  | starts_none : starts s0 s0
  | starts_more env s r s' : starts s0 s → start_node env s = (r, s') → starts s0 s'.

(** One start, by the state it finds. *)
Lemma old_node_start T env s r s' :
  well_stored T → old_node T s → start_node env s = (r, s') →
  (old_node T s' ∨ new_node T s') ∧
  (if is_ok r then committed env T (reth_db s') (botanix_db s')
   else faulty env ∨ bad_path (dk_reth s)).
Proof.
  intros HT (Hr & Hb & Hbd & Htab) Hstart.
  pose proof (start_old_triple env T decode_encode_entry HT _ _ Hr Hb Hbd Htab s ltac:(by split)) as Ht.
  rewrite Hstart in Ht. destruct r as [[]|e|]; [|done..].
  destruct Ht as [? ?]. split; [by right|done].
Qed.
Lemma new_node_start T env s r s' :
  new_node T s → start_node env s = (r, s') →
  new_node T s' ∧ same_tables (reth_db s) (reth_db s') ∧ same_tables (botanix_db s) (botanix_db s').
Proof.
  intros (Hr & Hb & Htab) Hstart.
  pose proof (start_new_triple env _ _ Hr Hb s ltac:(by split)) as Ht. rewrite Hstart in Ht.
  assert (grows (dk_reth s) (dk_reth s') ∧ grows (dk_botanix s) (dk_botanix s')) as [Hgr Hgb].
  { by destruct r as [[]|e|]. }
  split; [|by split; [apply Hgr|apply Hgb]]. split_and!.
  - by apply (grows_has_content _ _ Hgr).
  - by apply (grows_has_content _ _ Hgb).
  - intros t Ht'. specialize (Htab t Ht'). unfold accounted, kept, reth_db, botanix_db in *.
    by rewrite (grows_table _ _ _ Hgr), (grows_table _ _ _ Hgb).
Qed.

Lemma starts_state T s0 s :
  well_stored T → old_node T s0 → starts s0 s → old_node T s ∨ new_node T s.
Proof.
  intros HT Hstart0. induction 1 as [|env s r s' _ IH Hs]; [by left|]. destruct IH as [IH|IH].
  - by apply (old_node_start T env s r s').
  - right. by apply (new_node_start T env s r s').
Qed.

Lemma old_node_blank T s t : old_node T s → table_of (botanix_db s) t = ∅.
Proof.
  intros (_ & Hb & _). unfold botanix_db. destruct (dk_botanix s) as [| |[v m]]; [done..|].
  unfold has_content, dir_count in Hb. simpl in *. by destruct m; [destruct (bool_decide _)|].
Qed.
Lemma node_tables T s t :
  old_node T s ∨ new_node T s → t ∈ botanix_tables →
  table_of (botanix_db s) t = T t ∨
  table_of (reth_db s) t = T t ∧ table_of (botanix_db s) t = ∅.
Proof.
  intros [Hs|(_ & _ & Hs)] Ht.
  - right. split; [by apply Hs|]. by apply (old_node_blank T).
  - destruct (Hs t Ht) as [[? _]|[? ?]]; auto.
Qed.

(** C34. Moving the Botanix tables to their own database loses none of them: over any number
    of starts of a node, with failures at any call and the process dying anywhere, each table
    is in the Botanix database, or still in the reth database with none of its entries in the
    other.  A start that finds no Botanix database and on which no call fails moves all the
    tables; once there is a Botanix database, a start leaves the tables alone. *)
Theorem migration_loses_no_table T s0 s env r s' :
  well_stored T → old_node T s0 → starts s0 s → start_node env s = (r, s') →
  (∀ t, t ∈ botanix_tables →
     table_of (botanix_db s') t = T t ∨
     table_of (reth_db s') t = T t ∧ table_of (botanix_db s') t = ∅) ∧
  (has_content (dk_botanix s) = false → (∀ i, io env i = Works) → ¬ bad_path (dk_reth s) →
   r = Ok tt ∧ ∀ t, t ∈ botanix_tables → moved T (reth_db s') (botanix_db s') t) ∧
  (has_content (dk_botanix s) = true →
   same_tables (reth_db s) (reth_db s') ∧ same_tables (botanix_db s) (botanix_db s')).
Proof.
  intros HT Hstart0 Hrun Hs.
  assert (old_node T s' ∨ new_node T s') as Hs'.
  { apply (starts_state T s0); [done..|]. by eapply starts_more. }
  split; [intros t Ht; by apply node_tables|].
  destruct (starts_state T s0 s HT Hstart0 Hrun) as [Hold|Hnew].
  - pose proof Hold as (_ & Hb & _). split; [|congruence]. intros _ Hio Hbad.
    assert (¬ faulty env) as Hf by (intros [i Hi]; auto).
    destruct (old_node_start T env s r s' HT Hold Hs) as [_ Hc].
    destruct r as [[]|e|]; simpl in Hc; [|tauto..].
    split; [done|]. intros t Ht. destruct (Hc t Ht); tauto.
  - pose proof Hnew as (_ & Hb & _). split; [congruence|]. intros _.
    by apply (new_node_start T env s r s').
Qed.
End runs.
