(* ===== verification/MigrationSample.v ===== *)
(** * The migration of the Botanix tables, on an example

    Entries are stored as they are.  The disk is that of a node with one staged header
    and two snapshots. *)

From stdpp Require Import strings.
From S2P Require Import Prelude Migration MigrationTheory.

Module SampleMigration.
#[export] Instance codec : TableCodec := {|
  Entry := bytes * bytes;
  decode_entry _ kv := Some kv;
  encode_entry _ e := e;
|}.
#[export] Instance codec_laws : TableCodecLaws.
Proof. done. Qed.

Definition tables (t : string) : MdbxTable :=
  if decide (t = "StagedHeader"%string) then {[ [7] := [1; 2; 3] ]}
  else if decide (t = "Snapshots"%string) then {[ [1] := [10]; [2] := [20] ]}
  else ∅.
Definition reth : Mdbx :=
  {[ "StagedHeader"%string := tables "StagedHeader"; "Snapshots"%string := tables "Snapshots";
     "Headers"%string := {[ [0] := [9] ]} ]}.
Definition disk : Disk :=
  mkDisk (Directory (mkDir (Some (Some DB_VERSION)) (Some reth))) Missing ∅ ∅ 0.

(** Every call works, except perhaps one. *)
Definition world (calls : nat → Fault) : Environment := {|
  io := calls; now := λ n, 1000 + Z.of_nat n; client_version := [1; 0; 2];
|}.
Definition fault_at (n : nat) (f : Fault) (i : nat) : Fault := if (i =? n)%nat then f else Works.

Lemma tables_stored : well_stored tables.
Proof. intros t kv _ _. by exists kv. Qed.
Lemma disk_old : old_node tables disk.
Proof.
  split_and!; [done..|]. apply Forall_forall. by repeat constructor; vm_compute.
Qed.

Definition version_of (p : PathState) : option (option Z) :=
  match p with Directory d => d_version d | _ => None end.
Lemma version_of_fine p : version_of p = Some (Some DB_VERSION) → ¬ bad_path p.
Proof. destruct p; simpl; [done..|]. naive_solver. Qed.

(** The header staged before the migration, in either database. *)
Definition staged (m : Mdbx) : list (bytes * bytes) := map_to_list (table_of m "StagedHeader").
(** The outcome of two starts, with what each database then has of the staged header. *)
Definition two_starts (first : nat → Fault) :
    (bool * bool) * (list (bytes * bytes) * list (bytes * bytes)) :=
  let '(r1, s1) := start_node (world first) disk in
  let '(r2, s2) := start_node (world (λ _, Works)) s1 in
  ((is_ok r1, is_ok r2), (staged (botanix_db s2), staged (reth_db s2))).
End SampleMigration.
Import SampleMigration.

(** A first start that fails to commit, and a second one that works. *)
Lemma migration_loses_no_table_witness :
  let '(r1, s1) := start_node (world (fault_at 119 Fails)) disk in
  let '(r2, s2) := start_node (world (λ _, Works)) s1 in
  (r1 = Err CommitFailed ∧ r2 = Ok tt) ∧
  ∀ t, t ∈ botanix_tables → moved tables (reth_db s2) (botanix_db s2) t.
Proof.
  destruct (start_node (world (fault_at 119 Fails)) disk) as [r1 s1] eqn:H1.
  destruct (start_node (world (λ _, Works)) s1) as [r2 s2] eqn:H2.
  assert ((r1, has_content (dk_botanix s1), version_of (dk_reth s1)) =
          (Err CommitFailed, false, Some (Some DB_VERSION))) as H3.
  { change ((let '(r, s) := (r1, s1) in (r, has_content (dk_botanix s), version_of (dk_reth s))) =
      (Err CommitFailed, false, Some (Some DB_VERSION))). rewrite <-H1. by vm_compute. }
  injection H3 as -> Hc Hv. apply version_of_fine in Hv as Hb.
  destruct (migration_loses_no_table tables disk s1 (world (λ _, Works)) r2 s2
    tables_stored disk_old (starts_more _ _ _ _ _ (starts_none _) H1) H2) as (_ & Hmove & _).
  destruct (Hmove Hc (λ _, eq_refl) Hb) as [-> Ht]. exact (conj (conj eq_refl eq_refl) Ht).
Defined.

(** A process that dies between opening the Botanix database and the first commit leaves a
    database without the tables: the next start works, and moves nothing. *)
Example interrupted_migration_is_skipped :
  two_starts (fault_at 100 Crashes) = ((false, true), ([], [([7], [1; 2; 3])])).
Proof. by vm_compute. Qed.
(** So does a failure to open it, which is not handled like one of the migration. *)
Example failed_open_skips_migration :
  two_starts (fault_at 50 Fails) = ((false, true), ([], [([7], [1; 2; 3])])).
Proof. by vm_compute. Qed.
(** A table whose entries cannot be counted is taken for empty: the migration succeeds
    without it. *)
Example uncounted_table_is_left :
  two_starts (fault_at 107 Fails) = ((true, true), ([], [([7], [1; 2; 3])])).
Proof. by vm_compute. Qed.
(** A failed migration is repeated by the next start. *)
Example failed_migration_is_repeated :
  two_starts (fault_at 119 Fails) = ((false, true), ([([7], [1; 2; 3])], [])).
Proof. by vm_compute. Qed.
