(* ===== verification/Serialization.v ===== *)
(** * Serialization and compression

    [crates/botanix-data-parser]: [DataParser] serializes a value in one of three formats
    and compresses the bytes with one of seven strategies, or not at all;
    [ProstMessageSerdelizer] wraps protocol messages.

    The formats ([bincode], [postcard], [serde_json], [prost]) and the stream encoders of
    [async_compression] are parameters ([Serde], [Prost], [Compression]).  The parser then
    is what the other components expect: [block_parser] implements the interface the
    snapshots are proved against ([Snapshots.DataParser] with [ParserLaws]), and
    [sync_codec_of] the one of the wallet synchronization ([SyncCodec]). *)

From S2P Require Import Prelude Bitcoin Codec Headers Peg Mint ChainRules HeaderRules Execution.
From S2P Require Import Snapshots StateSyncTheory RpcTypes Server FrostSigning FrostTask.
Local Open Scope Z_scope.

Inductive SerializationType := Bincode | Postcard | Json.

(** The seven unit structs that implement the sealed trait [CompressionStrategy]. *)
Inductive CompressionStrategy := Zlib | Gzip | Brotli | Bz | Lzma | Deflate | Zstd.
Definition DEFAULT_COMPRESSION_STRATEGY : CompressionStrategy := Zlib.
Definition ALL_COMPRESSION_STRATEGIES : list CompressionStrategy :=
  [Zlib; Gzip; Brotli; Bz; Lzma; Deflate; Zstd].

(** [CompressionError] has a variant per strategy and [SerdeError] one per format. *)
Inductive ParserError := CompressionFailed (s : CompressionStrategy) | SerdeFailed (t : SerializationType).

(** [Serialize] and [DeserializeOwned] of a type, in each format. *)
Class Serde (A : Type) := {
  serde_to_bytes : SerializationType → A → option bytes;
  serde_from_bytes : SerializationType → bytes → option A;
}.

(** [async_compression::tokio::write]: an encoder or decoder takes bytes and is shut down
    before its output is taken. *)
Class Compression := {
  Encoder : Type;
  encoder_new : CompressionStrategy → Encoder;
  encoder_write_all : Encoder → bytes → option Encoder;
  encoder_shutdown : Encoder → option Encoder;
  encoder_into_inner : Encoder → bytes;
  Decoder : Type;
  decoder_new : CompressionStrategy → Decoder;
  decoder_write_all : Decoder → bytes → option Decoder;
  decoder_shutdown : Decoder → option Decoder;
  decoder_into_inner : Decoder → bytes;
}.

(** [prost::Message] of a message type. *)
Class Prost (A : Type) := {
  prost_encode : A → option bytes;
  prost_decode : bytes → option A;
}.
Inductive ProstError := ProstEncode | ProstDecode.

Module DataParser.
Record DataParser := mkParser {
  compression_strategy : option CompressionStrategy;
  serialization_type : SerializationType;
}.

Definition parser_default : DataParser := mkParser None Json.
Definition with_compression_strategy (s : CompressionStrategy) (p : DataParser) : DataParser :=
  mkParser (Some s) (serialization_type p).
Definition with_serialization_type (t : SerializationType) (p : DataParser) : DataParser :=
  mkParser (compression_strategy p) t.

Section parser.
Context `{!Compression}.
Implicit Types (p : DataParser) (data : bytes).

(** [CompressionStrategy::compress] and [decompress] *)
Definition strategy_compress (s : CompressionStrategy) (uncompressed : bytes) : result CompressionStrategy bytes :=
  let? encoder := ok_or (encoder_write_all (encoder_new s) uncompressed) s in
  let? encoder := ok_or (encoder_shutdown encoder) s in
  Ok (encoder_into_inner encoder).
Definition strategy_decompress (s : CompressionStrategy) (compressed : bytes) : result CompressionStrategy bytes :=
  let? decoder := ok_or (decoder_write_all (decoder_new s) compressed) s in
  let? decoder := ok_or (decoder_shutdown decoder) s in
  Ok (decoder_into_inner decoder).

Definition compress p data : result ParserError bytes :=
  match compression_strategy p with
  | Some s => map_err CompressionFailed (strategy_compress s data)
  | None => Ok data
  end.
Definition decompress p data : result ParserError bytes :=
  match compression_strategy p with
  | Some s => map_err CompressionFailed (strategy_decompress s data)
  | None => Ok data
  end.

Section values.
Context {A : Type} `{!Serde A}.

Definition serialize_json (raw_data : A) : result ParserError bytes :=
  ok_or (serde_to_bytes Json raw_data) (SerdeFailed Json).
Definition serialize p (raw_data : A) : result ParserError bytes :=
  ok_or (serde_to_bytes (serialization_type p) raw_data) (SerdeFailed (serialization_type p)).
Definition deserialize_json (raw_data : bytes) : result ParserError A :=
  ok_or (serde_from_bytes Json raw_data) (SerdeFailed Json).
Definition deserialize p (raw_data : bytes) : result ParserError A :=
  match serialization_type p with
  | Json => deserialize_json raw_data
  | t => ok_or (serde_from_bytes t raw_data) (SerdeFailed t)
  end.

Definition encode p (a : A) : result ParserError bytes :=
  let? serialized := serialize p a in
  match compression_strategy p with
  | Some s => map_err CompressionFailed (strategy_compress s serialized)
  | None => Ok serialized
  end.
Definition encode_json p (a : A) : result ParserError bytes := serialize_json a.
Definition decode p data : result ParserError A :=
  let? data :=
    match compression_strategy p with
    | Some s => map_err CompressionFailed (strategy_decompress s data)
    | None => Ok data
    end in
  deserialize p data.
Definition decode_json p data : result ParserError A := deserialize_json data.
End values.
End parser.

Section prost.
Context {A : Type} `{!Prost A}.
Definition prost_serialize (a : A) : result ProstError bytes := ok_or (prost_encode a) ProstEncode.
Definition prost_deserialize (buf : bytes) : result ProstError A := ok_or (prost_decode buf) ProstDecode.
End prost.
End DataParser.
Import DataParser.

(** ** What the libraries promise *)

Class SerdeLaws (A : Type) `{!Serde A} : Prop :=
  serde_roundtrip t (a : A) d : serde_to_bytes t a = Some d → serde_from_bytes t d = Some a.
(** Writing to memory does not fail, and a decoder gives back what was encoded. *)
Class CompressionLaws `{!Compression} : Prop := {
  strategy_compress_total s d : is_ok (strategy_compress s d) = true;
  strategy_roundtrip s d c : strategy_compress s d = Ok c → strategy_decompress s c = Ok d;
}.
Class ProstLaws (A : Type) `{!Prost A} : Prop :=
  prost_roundtrip (a : A) d : prost_encode a = Some d → prost_decode d = Some a.
(** A list is serialized when its elements are. *)
Class SerdeListLaws (A : Type) `{!Serde A, !Serde (list A)} : Prop :=
  serde_list_some t (l : list A) :
    Forall (λ a, is_Some (serde_to_bytes t a)) l → is_Some (serde_to_bytes t l).

(** ** The parser as the other components see it *)

Definition ok {E A} (r : result E A) : option A := match r with Ok a => Some a | _ => None end.

Section instances.
Context `{!Compression} (p : DataParser).

(** The parser of a node, for blocks. *)
Definition block_parser `{!EthLib, !BlockLib, !Serde BlockWithSenders, !Serde (list BlockWithSenders)} :
    Snapshots.DataParser := {|
  encode_block b := ok (encode p b);
  decode_block d := ok (decode p d);
  encode_blocks l := ok (encode p l);
  decode_blocks d := ok (decode p d);
|}.

(** The finalized ids a node sends to its peers: serialized by [prost], compressed by the
    parser of the sender, decompressed by the parser of the receiver. *)
Definition sync_codec_of `{!Prost GetFinalizedPegoutIdsResponse} : SyncCodec := {|
  sync_encode r := b ← ok (prost_serialize r); ok (compress p b);
  sync_decode d := b ← ok (decompress p d); ok (prost_deserialize b);
|}.
End instances.

(** ** Theorems *)

Section theory.
Context `{!Compression, !CompressionLaws}.
Implicit Types p : DataParser.

(** Bytes come out of the decompression as they went in. *)
Lemma compress_roundtrip p d c : compress p d = Ok c → decompress p c = Ok d.
Proof.
  unfold compress, decompress. destruct (compression_strategy p) as [s|]; [|by intros [= ->]].
  rewrite !map_err_ok. apply strategy_roundtrip.
Qed.
Lemma compress_total p d : is_ok (compress p d) = true.
Proof.
  unfold compress. destruct (compression_strategy p) as [s|]; [|done].
  pose proof (strategy_compress_total s d). by destruct (strategy_compress s d).
Qed.

Lemma deserialize_serialized `{!Serde A} p d :
  deserialize (A := A) p d =
  ok_or (serde_from_bytes (serialization_type p) d) (SerdeFailed (serialization_type p)).
Proof. unfold deserialize, deserialize_json. by destruct (serialization_type p). Qed.

(** A value encoded by a parser is decoded by it, whatever the format and the strategy. *)
Theorem decode_encoded `{!Serde A, !SerdeLaws A} p (a : A) d :
  encode p a = Ok d → decode p d = Ok a.
Proof.
  intros (b & Hb & Hc)%rbind_ok. apply ok_or_ok in Hb. change (compress p b = Ok d) in Hc.
  change (rbind (decompress p d) (deserialize p) = Ok a).
  rewrite (compress_roundtrip p b d Hc). simpl. rewrite deserialize_serialized.
  by rewrite (serde_roundtrip _ _ _ Hb).
Qed.
(** Encoding fails only in the serialization. *)
Lemma encode_some `{!Serde A} p (a : A) :
  is_Some (ok (encode p a)) ↔ is_Some (serde_to_bytes (serialization_type p) a).
Proof.
  unfold encode, serialize. destruct (serde_to_bytes _ a) as [b|]; simpl; [|done].
  pose proof (compress_total p b) as Ht. unfold compress in Ht.
  destruct (match compression_strategy p with Some _ => _ | None => _ end); simpl in *; [|done..].
  split; intros; by eexists.
Qed.

Lemma ok_some {E A} (r : result E A) a : ok r = Some a ↔ r = Ok a.
Proof. destruct r; simpl; naive_solver. Qed.

(** The parser keeps the promises the snapshots rely on. *)
Theorem block_parser_laws `{!EthLib, !BlockLib, !Serde BlockWithSenders, !Serde (list BlockWithSenders),
    !SerdeLaws BlockWithSenders, !SerdeLaws (list BlockWithSenders), !SerdeListLaws BlockWithSenders} p :
  @ParserLaws _ _ (block_parser p).
Proof.
  split; simpl.
  - intros b d Hd%ok_some. by apply ok_some, decode_encoded.
  - intros l d Hd%ok_some. by apply ok_some, decode_encoded.
  - intros l Hl. apply encode_some, serde_list_some. eapply Forall_impl; [exact Hl|].
    intros b. by rewrite encode_some.
Qed.

(** What one node sends about finalized pegouts, a node with the same strategy reads. *)
Theorem sync_codec_roundtrip `{!Prost GetFinalizedPegoutIdsResponse, !ProstLaws GetFinalizedPegoutIdsResponse}
    p p' r d :
  compression_strategy p = compression_strategy p' →
  @sync_encode (sync_codec_of p) r = Some d → @sync_decode (sync_codec_of p') d = Some r.
Proof.
  intros Hp. simpl. unfold prost_serialize, prost_deserialize.
  destruct (prost_encode r) as [b|] eqn:Hb; simpl; [|done]. intros Hd%ok_some.
  apply compress_roundtrip in Hd. unfold decompress in *. rewrite <-Hp, Hd. simpl.
  by rewrite (prost_roundtrip _ _ Hb).
Qed.
End theory.

(** ** An instance: bytes in the format of their number, stored between two marks *)
Module SampleParser.
#[export] Instance byte_serde : Serde bytes := {|
  serde_to_bytes t a := Some (match t with Bincode => 0 | Postcard => 1 | Json => 2 end :: a);
  serde_from_bytes t d :=
    match d with
    | x :: a => if x =? match t with Bincode => 0 | Postcard => 1 | Json => 2 end then Some a else None
    | [] => None
    end;
|}.
#[export] Instance byte_serde_laws : SerdeLaws bytes.
Proof. by intros [] a d [= <-]. Qed.
#[export] Instance marked : Compression := {|
  Encoder := bytes; encoder_new _ := [255]; encoder_write_all e d := Some (e ++ d);
  encoder_shutdown e := Some (e ++ [254]); encoder_into_inner e := e;
  Decoder := bytes; decoder_new _ := []; decoder_write_all e d := Some (e ++ d);
  decoder_shutdown e :=
    if bool_decide (head e = Some 255 ∧ last e = Some 254) then Some (removelast (tail e)) else None;
  decoder_into_inner e := e;
|}.
#[export] Instance marked_laws : CompressionLaws.
Proof.
  split; [done|]. intros s d c [= <-]. unfold strategy_decompress. simpl.
  rewrite bool_decide_true.
  - simpl. by rewrite removelast_last.
  - split; [done|]. apply (last_snoc 254 (255 :: d)).
Qed.
End SampleParser.

Import SampleParser.
Example encoded_bytes :
  encode (with_compression_strategy Zstd (with_serialization_type Postcard parser_default)) [7; 8] =
    Ok [255; 1; 7; 8; 254] ∧
  decode (A := bytes) (with_compression_strategy Gzip parser_default) [7; 8] =
    Err (CompressionFailed Gzip) ∧
  decode (A := bytes) parser_default [1; 7] = Err (SerdeFailed Json).
Proof. done. Qed.
