(* ===== verification/HeaderRlp.v ===== *)
(** * The RLP codec of block headers

    [crates/primitives-traits/src/header/mod.rs] and [sealed.rs]: how a header is written
    and read, and the hash it is sealed with.  The fields that later forks added are
    optional and have no marks of their own: the reader takes them in order while there are
    bytes left in the list.

    The items of [alloy_rlp] are parameters ([RlpLib]), with what the library documents:
    a value is read back from in front of any bytes, only canonical encodings are read, and
    [length] tells how many bytes are written ([RlpLaws]). *)

From S2P Require Import Prelude Bitcoin Codec Headers.

Inductive RlpError :=
  | Overflow | LeadingZero | InputTooShort | NonCanonicalSingleByte | NonCanonicalSize
  | UnexpectedLength | UnexpectedString | UnexpectedList
  | ListLengthMismatch (expected got : Z).

(** [Encodable] and [Decodable] of a type. *)
Record rlp (A : Type) := mkRlp {
  rlp_encode : A → bytes;
  rlp_decode : bytes → result RlpError (A * bytes);
  rlp_length : A → Z;
}.
Arguments rlp_encode {A}.
Arguments rlp_decode {A}.
Arguments rlp_length {A}.

(** [alloy_rlp::Header] *)
Record RlpHead := mkHead { list_head : bool; payload_length : Z }.

Class RlpLib := {
  rlp_head_encode : RlpHead → bytes;
  rlp_head_decode : bytes → result RlpError (RlpHead * bytes);
  length_of_length : Z → Z;
  (** byte arrays of a length, [U256], [u64] and [Bytes] *)
  rlp_fixed : nat → rlp bytes;
  rlp_u256 : rlp Z;
  rlp_u64 : rlp Z;
  rlp_bytes : rlp bytes;
  keccak256 : bytes → B256;
}.

Section header_rlp.
Context `{!RlpLib}.
Implicit Types h : EthHeader.

(** [Decodable::decode(buf)?] *)
Definition rlp_read {A} (c : rlp A) : SM bytes RlpError A := λ buf,
  match rlp_decode c buf with
  | Ok (a, rest) => (Ok a, rest)
  | Err e => (Err e, buf)
  | Panic => (Panic, buf)
  end.

(** An optional field, if it is there. *)
Definition length_opt {A} (c : rlp A) (o : option A) : Z := from_option (rlp_length c) 0 o.
Definition encode_opt {A} (c : rlp A) (o : option A) : bytes := from_option (rlp_encode c) [] o.

Definition B64_new (nonce : Z) : bytes := to_be_bytes 8 nonce.

Definition header_payload_length h : Z :=
  rlp_length (rlp_fixed 32) (h_parent_hash h) + rlp_length (rlp_fixed 32) (h_ommers_hash h) +
  rlp_length (rlp_fixed 20) (h_beneficiary h) + rlp_length (rlp_fixed 32) (h_state_root h) +
  rlp_length (rlp_fixed 32) (h_transactions_root h) +
  rlp_length (rlp_fixed 32) (h_receipts_root h) + rlp_length (rlp_fixed 256) (h_logs_bloom h) +
  rlp_length rlp_u256 (h_difficulty h) + rlp_length rlp_u256 (h_number h) +
  rlp_length rlp_u256 (h_gas_limit h) + rlp_length rlp_u256 (h_gas_used h) +
  rlp_length rlp_u64 (h_timestamp h) + rlp_length rlp_bytes (h_extra_data h) +
  rlp_length (rlp_fixed 32) (h_mix_hash h) + rlp_length (rlp_fixed 8) (B64_new (h_nonce h)) +
  length_opt rlp_u256 (h_base_fee_per_gas h) +
  length_opt (rlp_fixed 32) (h_withdrawals_root h) +
  length_opt rlp_u256 (h_blob_gas_used h) +
  length_opt rlp_u256 (h_excess_blob_gas h) +
  length_opt (rlp_fixed 32) (h_parent_beacon_block_root h) +
  length_opt (rlp_fixed 32) (h_requests_root h).

(** The fields of later forks. *)
Definition encode_tail h : bytes :=
  encode_opt rlp_u256 (h_base_fee_per_gas h) ++
  encode_opt (rlp_fixed 32) (h_withdrawals_root h) ++
  encode_opt rlp_u256 (h_blob_gas_used h) ++
  encode_opt rlp_u256 (h_excess_blob_gas h) ++
  encode_opt (rlp_fixed 32) (h_parent_beacon_block_root h) ++
  encode_opt (rlp_fixed 32) (h_requests_root h).

Definition header_encode h : bytes :=
  rlp_head_encode (mkHead true (header_payload_length h)) ++
  rlp_encode (rlp_fixed 32) (h_parent_hash h) ++
  rlp_encode (rlp_fixed 32) (h_ommers_hash h) ++
  rlp_encode (rlp_fixed 20) (h_beneficiary h) ++
  rlp_encode (rlp_fixed 32) (h_state_root h) ++
  rlp_encode (rlp_fixed 32) (h_transactions_root h) ++
  rlp_encode (rlp_fixed 32) (h_receipts_root h) ++
  rlp_encode (rlp_fixed 256) (h_logs_bloom h) ++
  rlp_encode rlp_u256 (h_difficulty h) ++
  rlp_encode rlp_u256 (h_number h) ++
  rlp_encode rlp_u256 (h_gas_limit h) ++
  rlp_encode rlp_u256 (h_gas_used h) ++
  rlp_encode rlp_u64 (h_timestamp h) ++
  rlp_encode rlp_bytes (h_extra_data h) ++
  rlp_encode (rlp_fixed 32) (h_mix_hash h) ++
  rlp_encode (rlp_fixed 8) (B64_new (h_nonce h)) ++
  encode_tail h.

Definition header_length h : Z :=
  header_payload_length h + length_of_length (header_payload_length h).

(** [if started_len - buf.len() < rlp_head.payload_length { Some(decode(buf)?) }]; the
    buffer only gets shorter. *)
Definition consumed (started_len : nat) (buf : bytes) : Z :=
  Z.of_nat started_len - Z.of_nat (length buf).
Definition read_opt {A} (started_len : nat) (payload : Z) (c : rlp A) : SM bytes RlpError (option A) :=
  let* buf := sget in
  if consumed started_len buf <? payload then let* a := rlp_read c in sret (Some a)
  else sret None.

Definition read_head : SM bytes RlpError RlpHead := λ buf,
  match rlp_head_decode buf with
  | Ok (a, rest) => (Ok a, rest)
  | Err e => (Err e, buf)
  | Panic => (Panic, buf)
  end.

Definition header_decode : SM bytes RlpError EthHeader :=
  let* rlp_head := read_head in
  if negb (list_head rlp_head) then slift (Err UnexpectedString)
  else
    let* buf := sget in
    let started_len := length buf in
    let payload := payload_length rlp_head in
    let* parent_hash := rlp_read (rlp_fixed 32) in
    let* ommers_hash := rlp_read (rlp_fixed 32) in
    let* beneficiary := rlp_read (rlp_fixed 20) in
    let* state_root := rlp_read (rlp_fixed 32) in
    let* transactions_root := rlp_read (rlp_fixed 32) in
    let* receipts_root := rlp_read (rlp_fixed 32) in
    let* logs_bloom := rlp_read (rlp_fixed 256) in
    let* difficulty := rlp_read rlp_u256 in
    let* number := rlp_read rlp_u64 in
    let* gas_limit := rlp_read rlp_u64 in
    let* gas_used := rlp_read rlp_u64 in
    let* timestamp := rlp_read rlp_u64 in
    let* extra_data := rlp_read rlp_bytes in
    let* mix_hash := rlp_read (rlp_fixed 32) in
    let* nonce := rlp_read (rlp_fixed 8) in
    let* base_fee_per_gas := read_opt started_len payload rlp_u64 in
    let* withdrawals_root := read_opt started_len payload (rlp_fixed 32) in
    let* blob_gas_used := read_opt started_len payload rlp_u64 in
    let* excess_blob_gas := read_opt started_len payload rlp_u64 in
    let* parent_beacon_block_root := read_opt started_len payload (rlp_fixed 32) in
    let* requests_root := read_opt started_len payload (rlp_fixed 32) in
    let* buf := sget in
    if negb (consumed started_len buf =? payload)
    then slift (Err (ListLengthMismatch payload (consumed started_len buf)))
    else sret {|
      h_parent_hash := parent_hash; h_ommers_hash := ommers_hash;
      h_beneficiary := beneficiary; h_state_root := state_root;
      h_transactions_root := transactions_root; h_receipts_root := receipts_root;
      h_withdrawals_root := withdrawals_root; h_logs_bloom := logs_bloom;
      h_difficulty := difficulty; h_number := number; h_gas_limit := gas_limit;
      h_gas_used := gas_used; h_timestamp := timestamp; h_mix_hash := mix_hash;
      h_nonce := from_be_bytes nonce; h_base_fee_per_gas := base_fee_per_gas;
      h_blob_gas_used := blob_gas_used; h_excess_blob_gas := excess_blob_gas;
      h_parent_beacon_block_root := parent_beacon_block_root;
      h_requests_root := requests_root; h_extra_data := extra_data |}.

(** [Header::hash_slow], and [SealedHeader]: it is written as its header, and a reader
    seals what it has read with the hash of the bytes it took. *)
Definition rlp_hash_slow h : B256 := keccak256 (header_encode h).
Definition sealed_encode (s : SealedHeader) : bytes := header_encode (sh_header s).
Definition sealed_decode : SM bytes RlpError SealedHeader := λ buf,
  match header_decode buf with
  | (Ok header, b) =>
      (Ok (seal header (keccak256 (take (length buf - length b) buf))), b)
  | (Err e, _) => (Err e, buf)
  | (Panic, _) => (Panic, buf)
  end.
End header_rlp.

(** ** What the library promises *)

Definition u64_dom (z : Z) : Prop := 0 ≤ z ≤ u64_max.
Definition u256_dom (z : Z) : Prop := 0 ≤ z < 2 ^ 256.
Definition bytes_dom (bs : bytes) : Prop := Forall is_byte bs.

(** Values of [dom] are read back, only their encodings are read, and their length is known. *)
Record rlp_laws {A} (dom : A → Prop) (c : rlp A) : Prop := {
  rlp_read_back a rest : dom a → rlp_decode c (rlp_encode c a ++ rest) = Ok (a, rest);
  rlp_canonical bs a rest :
    Forall is_byte bs → rlp_decode c bs = Ok (a, rest) → dom a ∧ bs = rlp_encode c a ++ rest;
  rlp_measured a : dom a → rlp_length c a = Z.of_nat (length (rlp_encode c a));
  rlp_nonempty a : dom a → rlp_encode c a ≠ [];
}.
Class RlpLaws `{!RlpLib} : Prop := {
  rlp_fixed_laws n : rlp_laws (array_dom n) (rlp_fixed n);
  rlp_u256_laws : rlp_laws u256_dom rlp_u256;
  rlp_u64_laws : rlp_laws u64_dom rlp_u64;
  rlp_bytes_laws : rlp_laws bytes_dom rlp_bytes;
  (** integers are written by their value, not by their type *)
  rlp_u64_u256 n : u64_dom n → rlp_encode rlp_u64 n = rlp_encode rlp_u256 n;
  rlp_head_back n rest :
    0 ≤ n ≤ Z.of_nat (length rest) →
    rlp_head_decode (rlp_head_encode (mkHead true n) ++ rest) = Ok (mkHead true n, rest);
  rlp_head_canonical bs n rest :
    Forall is_byte bs → rlp_head_decode bs = Ok (mkHead true n, rest) →
    bs = rlp_head_encode (mkHead true n) ++ rest;
  rlp_head_measured n : 0 ≤ n → length_of_length n = Z.of_nat (length (rlp_head_encode (mkHead true n)));
}.
