(* ===== verification/HeaderRlpTheory.v ===== *)
(** * Theorems about the RLP codec of headers

    A header whose optional fields are there in the order of the forks is read back from its
    bytes; whatever is read re-encodes to the bytes that were taken, so the hash a reader
    seals a header with is the hash of the header. *)

From S2P Require Import Prelude Bitcoin Codec Headers HeaderRlp.

(** No field behind one that is missing. *)
Fixpoint no_gaps (l : list bool) : bool :=
  match l with
  | [] => true
  | b :: l => if b then no_gaps l else forallb negb l
  end.
Definition present {A} (o : option A) : bool := if o is Some _ then true else false.
Definition fork_fields (h : EthHeader) : list bool :=
  [present (h_base_fee_per_gas h); present (h_withdrawals_root h); present (h_blob_gas_used h);
   present (h_excess_blob_gas h); present (h_parent_beacon_block_root h);
   present (h_requests_root h)].
Definition opt_dom {A} (dom : A → Prop) (o : option A) : Prop := from_option dom True o.

(** The values of the header's Rust types. *)
Record header_typed (h : EthHeader) : Prop := {
  ht_parent : array_dom 32 (h_parent_hash h);
  ht_ommers : array_dom 32 (h_ommers_hash h);
  ht_beneficiary : array_dom 20 (h_beneficiary h);
  ht_state : array_dom 32 (h_state_root h);
  ht_transactions : array_dom 32 (h_transactions_root h);
  ht_receipts : array_dom 32 (h_receipts_root h);
  ht_bloom : array_dom 256 (h_logs_bloom h);
  ht_difficulty : u256_dom (h_difficulty h);
  ht_number : u64_dom (h_number h);
  ht_gas_limit : u64_dom (h_gas_limit h);
  ht_gas_used : u64_dom (h_gas_used h);
  ht_timestamp : u64_dom (h_timestamp h);
  ht_extra : bytes_dom (h_extra_data h);
  ht_mix : array_dom 32 (h_mix_hash h);
  ht_nonce : u64_dom (h_nonce h);
  ht_base_fee : opt_dom u64_dom (h_base_fee_per_gas h);
  ht_withdrawals : opt_dom (array_dom 32) (h_withdrawals_root h);
  ht_blob : opt_dom u64_dom (h_blob_gas_used h);
  ht_excess : opt_dom u64_dom (h_excess_blob_gas h);
  ht_beacon : opt_dom (array_dom 32) (h_parent_beacon_block_root h);
  ht_requests : opt_dom (array_dom 32) (h_requests_root h);
}.
(** A header that a chain can have: the fields of the forks come in order. *)
Definition header_in_order (h : EthHeader) : Prop := header_typed h ∧ no_gaps (fork_fields h) = true.

Section theory.
Context `{!RlpLib, !RlpLaws}.
Implicit Types h : EthHeader.

(** ** Items *)

(** The items an encoded header is made of, in a form shared by writing and reading: the
    integers are [u64] for the reader. *)
Lemma u64_u256_dom n : u64_dom n → u256_dom n.
Proof. unfold u64_dom, u256_dom, u64_max. lia. Qed.
Lemma u64_length n : u64_dom n → rlp_length rlp_u64 n = rlp_length rlp_u256 n.
Proof.
  intros Hn. rewrite (rlp_measured _ _ rlp_u64_laws) by done.
  rewrite (rlp_measured _ _ rlp_u256_laws) by (by apply u64_u256_dom).
  by rewrite rlp_u64_u256.
Qed.
Lemma nonce_array n : array_dom 8 (B64_new n).
Proof. split; [apply length_to_be_bytes|]. apply Forall_reverse, to_le_bytes_is_byte. Qed.
Lemma nonce_back n : u64_dom n → from_be_bytes (B64_new n) = n.
Proof. intros Hn. apply from_to_be_bytes. unfold u64_dom, u64_max in Hn. lia. Qed.
Lemma nonce_of_array bs : array_dom 8 bs → u64_dom (from_be_bytes bs) ∧ B64_new (from_be_bytes bs) = bs.
Proof.
  intros [Hl Hb]. split; [|by apply to_from_be_bytes].
  pose proof (from_le_bytes_bound (reverse bs) ltac:(by apply Forall_reverse)) as Hn.
  rewrite length_reverse, Hl in Hn. unfold u64_dom, from_be_bytes, u64_max. lia.
Qed.

Section item.
Context {A : Type} (dom : A → Prop) (c : rlp A) (laws : rlp_laws dom c).

(** One step of a reader. *)
Lemma read_back {B} (k : A → SM bytes RlpError B) a rest :
  dom a → sbind (rlp_read c) k (rlp_encode c a ++ rest) = k a rest.
Proof. intros Ha. unfold sbind, rlp_read. by rewrite (rlp_read_back _ _ laws). Qed.
Lemma read_canonical bs a rest :
  Forall is_byte bs → rlp_read c bs = (Ok a, rest) →
  dom a ∧ bs = rlp_encode c a ++ rest ∧ Forall is_byte rest.
Proof.
  intros Hbs. unfold rlp_read. destruct (rlp_decode c bs) as [[a' rest']|e|] eqn:Hd; [|done..].
  intros [= <- <-]. destruct (rlp_canonical _ _ laws _ _ _ Hbs Hd) as [? ->].
  apply Forall_app in Hbs as [_ ?]. done.
Qed.

Lemma encode_opt_nil o : opt_dom dom o → encode_opt c o = [] → present o = false.
Proof. destruct o as [a|]; [|done]. intros Ha He. by destruct (rlp_nonempty _ _ laws a). Qed.
Lemma length_opt_measured o :
  opt_dom dom o → length_opt c o = Z.of_nat (length (encode_opt c o)).
Proof. destruct o as [a|]; [|done]. apply (rlp_measured _ _ laws). Qed.

(** An optional field in front of [buf], which ends with the bytes behind the list. *)
Lemma read_opt_back {B} (k : option A → SM bytes RlpError B) started payload o buf rest :
  opt_dom dom o → payload = Z.of_nat started - Z.of_nat (length rest) →
  (length rest ≤ length buf)%nat → (present o = false → buf = rest) →
  sbind (read_opt started payload c) k (encode_opt c o ++ buf) = k o buf.
Proof.
  intros Ho -> Hle Hnone. unfold read_opt, sbind, sget, sret, consumed. cbv beta iota.
  rewrite !length_app. destruct o as [a|]; simpl in *.
  - assert (length (rlp_encode c a) ≠ 0)%nat.
    { intros Hl%nil_length_inv. by apply (rlp_nonempty _ _ laws a). }
    rewrite (proj2 (Z.ltb_lt _ _)) by lia.
    unfold rlp_read. by rewrite (rlp_read_back _ _ laws).
  - rewrite Hnone by done. by rewrite (proj2 (Z.ltb_ge _ _)) by lia.
Qed.
(** What is read, and that nothing is left to read when it is missing. *)
Lemma read_opt_canonical started payload bs o rest :
  Forall is_byte bs → read_opt started payload c bs = (Ok o, rest) →
  opt_dom dom o ∧ bs = encode_opt c o ++ rest ∧ Forall is_byte rest ∧
  (present o = false ↔ payload ≤ consumed started bs).
Proof.
  intros Hbs. unfold read_opt, sbind, sget. destruct (_ <? payload) eqn:Hlt; bool_to_prop.
  - destruct (rlp_read c bs) as [[a|e|] rest'] eqn:Hr; [|done..]. intros [= <- <-].
    destruct (read_canonical _ _ _ Hbs Hr) as (? & ? & ?). split_and!; [done..|].
    simpl. split; [done|lia].
  - intros [= <- <-]. by split_and!.
Qed.
End item.

(** ** Headers *)

(** The payload of the list, as the reader sees it. *)
Definition payload_tail h : bytes :=
  encode_opt rlp_u64 (h_base_fee_per_gas h) ++
  encode_opt (rlp_fixed 32) (h_withdrawals_root h) ++
  encode_opt rlp_u64 (h_blob_gas_used h) ++
  encode_opt rlp_u64 (h_excess_blob_gas h) ++
  encode_opt (rlp_fixed 32) (h_parent_beacon_block_root h) ++
  encode_opt (rlp_fixed 32) (h_requests_root h).
Definition payload h : bytes :=
  rlp_encode (rlp_fixed 32) (h_parent_hash h) ++
  rlp_encode (rlp_fixed 32) (h_ommers_hash h) ++
  rlp_encode (rlp_fixed 20) (h_beneficiary h) ++
  rlp_encode (rlp_fixed 32) (h_state_root h) ++
  rlp_encode (rlp_fixed 32) (h_transactions_root h) ++
  rlp_encode (rlp_fixed 32) (h_receipts_root h) ++
  rlp_encode (rlp_fixed 256) (h_logs_bloom h) ++
  rlp_encode rlp_u256 (h_difficulty h) ++
  rlp_encode rlp_u64 (h_number h) ++
  rlp_encode rlp_u64 (h_gas_limit h) ++
  rlp_encode rlp_u64 (h_gas_used h) ++
  rlp_encode rlp_u64 (h_timestamp h) ++
  rlp_encode rlp_bytes (h_extra_data h) ++
  rlp_encode (rlp_fixed 32) (h_mix_hash h) ++
  rlp_encode (rlp_fixed 8) (B64_new (h_nonce h)) ++
  payload_tail h.

Lemma encode_opt_u64 o : opt_dom u64_dom o → encode_opt rlp_u64 o = encode_opt rlp_u256 o.
Proof. destruct o; [|done]. apply rlp_u64_u256. Qed.
Lemma length_opt_u64 o : opt_dom u64_dom o → length_opt rlp_u64 o = length_opt rlp_u256 o.
Proof. destruct o; [|done]. apply u64_length. Qed.

Lemma header_encode_payload h :
  header_typed h →
  header_encode h = rlp_head_encode (mkHead true (header_payload_length h)) ++ payload h.
Proof.
  intros []. unfold header_encode, payload, encode_tail, payload_tail.
  rewrite !rlp_u64_u256, !encode_opt_u64 by done. reflexivity.
Qed.
Lemma payload_measured h :
  header_typed h → header_payload_length h = Z.of_nat (length (payload h)).
Proof.
  intros []. unfold header_payload_length, payload, payload_tail.
  rewrite <-(u64_length (h_number h)), <-(u64_length (h_gas_limit h)), <-(u64_length (h_gas_used h)),
    <-!length_opt_u64 by done.
  rewrite !(length_opt_measured _ _ rlp_u64_laws), !(length_opt_measured _ _ (rlp_fixed_laws 32)) by done.
  rewrite !(rlp_measured _ _ rlp_u64_laws), (rlp_measured _ _ rlp_u256_laws),
    (rlp_measured _ _ rlp_bytes_laws) by done.
  pose proof (nonce_array (h_nonce h)).
  rewrite !(rlp_measured _ _ (rlp_fixed_laws _)) by done.
  rewrite !length_app, !Nat2Z.inj_add. lia.
Qed.

(** A missing field has nothing behind it. *)
Lemma no_gaps_tail h :
  header_in_order h →
  (present (h_base_fee_per_gas h) = false → encode_opt (rlp_fixed 32) (h_withdrawals_root h) = [] ∧
     encode_opt rlp_u64 (h_blob_gas_used h) = [] ∧ encode_opt rlp_u64 (h_excess_blob_gas h) = [] ∧
     encode_opt (rlp_fixed 32) (h_parent_beacon_block_root h) = [] ∧
     encode_opt (rlp_fixed 32) (h_requests_root h) = []) ∧
  (present (h_withdrawals_root h) = false →
     encode_opt rlp_u64 (h_blob_gas_used h) = [] ∧ encode_opt rlp_u64 (h_excess_blob_gas h) = [] ∧
     encode_opt (rlp_fixed 32) (h_parent_beacon_block_root h) = [] ∧
     encode_opt (rlp_fixed 32) (h_requests_root h) = []) ∧
  (present (h_blob_gas_used h) = false → encode_opt rlp_u64 (h_excess_blob_gas h) = [] ∧
     encode_opt (rlp_fixed 32) (h_parent_beacon_block_root h) = [] ∧
     encode_opt (rlp_fixed 32) (h_requests_root h) = []) ∧
  (present (h_excess_blob_gas h) = false →
     encode_opt (rlp_fixed 32) (h_parent_beacon_block_root h) = [] ∧
     encode_opt (rlp_fixed 32) (h_requests_root h) = []) ∧
  (present (h_parent_beacon_block_root h) = false → encode_opt (rlp_fixed 32) (h_requests_root h) = []).
Proof.
  intros [_ Hg]. unfold fork_fields in Hg.
  destruct (h_base_fee_per_gas h), (h_withdrawals_root h), (h_blob_gas_used h), (h_excess_blob_gas h),
    (h_parent_beacon_block_root h), (h_requests_root h); simpl in *; split_and!; intros; done.
Qed.

Ltac tail_tac :=
  first [done | rewrite ?length_app; lia |
    intros; destruct_and!;
    repeat match goal with Hn : ?p = false, Ht : ?p = false → _ |- _ => specialize (Ht Hn) end;
    destruct_and?;
    repeat match goal with He : encode_opt _ _ = [] |- _ => rewrite He end; done].

Lemma header_decode_encoded h rest :
  header_in_order h → header_decode (header_encode h ++ rest) = (Ok h, rest).
Proof.
  intros Hh. pose proof Hh as [Ht _]. pose proof (no_gaps_tail h Hh) as Htail.
  rewrite header_encode_payload by done.
  pose proof (payload_measured h Ht) as Hlen. unfold header_decode, read_head.
  rewrite <-app_assoc. unfold sbind at 1.
  rewrite rlp_head_back by (rewrite length_app, Hlen; lia).
  cbn [negb list_head payload_length]. unfold sbind at 1, sget at 1.
  remember (length (payload h ++ rest)) as started eqn:Hst.
  assert (header_payload_length h = Z.of_nat started - Z.of_nat (length rest)) as Hp.
  { rewrite Hst, Hlen, length_app. lia. }
  clear Hlen Hst. unfold payload, payload_tail. rewrite <-!app_assoc. destruct Ht.
  pose proof (nonce_array (h_nonce h)).
  do 2 rewrite (read_back _ _ (rlp_fixed_laws 32)) by done.
  rewrite (read_back _ _ (rlp_fixed_laws 20)) by done.
  do 3 rewrite (read_back _ _ (rlp_fixed_laws 32)) by done.
  rewrite (read_back _ _ (rlp_fixed_laws 256)), (read_back _ _ rlp_u256_laws) by done.
  do 4 rewrite (read_back _ _ rlp_u64_laws) by done.
  rewrite (read_back _ _ rlp_bytes_laws), (read_back _ _ (rlp_fixed_laws 32)),
    (read_back _ _ (rlp_fixed_laws 8)) by done.
  rewrite (read_opt_back _ _ rlp_u64_laws _ _ _ _ _ rest) by tail_tac.
  rewrite (read_opt_back _ _ (rlp_fixed_laws 32) _ _ _ _ _ rest) by tail_tac.
  do 2 rewrite (read_opt_back _ _ rlp_u64_laws _ _ _ _ _ rest) by tail_tac.
  do 2 rewrite (read_opt_back _ _ (rlp_fixed_laws 32) _ _ _ _ _ rest) by tail_tac.
  unfold sbind, sget, sret, consumed. rewrite Hp, Z.eqb_refl. simpl.
  rewrite nonce_back by done. by destruct h.
Qed.

(** After a missing field the reader is where it was. *)
Lemma absent_next {A B} (c : rlp A) (o : option A) (o' : option B) started n bs rest :
  bs = encode_opt c o ++ rest →
  (present o = false ↔ n ≤ consumed started bs) → (present o' = false ↔ n ≤ consumed started rest) →
  present o = false → present o' = false.
Proof. intros -> H1 H2 Ho. apply H2. destruct o; [done|]. by apply H1. Qed.
Lemma no_gaps_chain (b1 b2 b3 b4 b5 b6 : bool) :
  (b1 = false → b2 = false) → (b2 = false → b3 = false) → (b3 = false → b4 = false) →
  (b4 = false → b5 = false) → (b5 = false → b6 = false) → no_gaps [b1; b2; b3; b4; b5; b6] = true.
Proof.
  intros H1 H2 H3 H4 H5. destruct b1; simpl; [destruct b2; simpl; [destruct b3; simpl;
    [destruct b4; simpl; [destruct b5; simpl; [by destruct b6|]|]|]|]|].
  all: repeat match goal with Hc : false = false → _ |- _ => specialize (Hc eq_refl) end; subst.
  all: repeat match goal with Hc : false = false → _ |- _ => specialize (Hc eq_refl); subst end; done.
Qed.

Ltac read_step law H :=
  let a := fresh "a" in let b := fresh "b" in let Hr := fresh "Hr" in
  let Hd := fresh "Hd" in let He := fresh "He" in
  apply sbind_ok in H as (a & b & Hr & H);
  apply (read_canonical _ _ law) in Hr as (Hd & He & ?); [|assumption].
Ltac read_opt_step law H :=
  let a := fresh "o" in let b := fresh "b" in let Hr := fresh "Hr" in
  let Hd := fresh "Hd" in let He := fresh "He" in let Hn := fresh "Hn" in
  apply sbind_ok in H as (a & b & Hr & H);
  apply (read_opt_canonical _ _ law) in Hr as (Hd & He & ? & Hn); [|assumption].

Lemma header_decode_canonical bs h rest :
  Forall is_byte bs → header_decode bs = (Ok h, rest) →
  header_in_order h ∧ bs = header_encode h ++ rest.
Proof.
  intros Hbs Hd. unfold header_decode in Hd.
  apply sbind_ok in Hd as ([list n] & buf & Hhead & Hd). unfold read_head in Hhead.
  destruct (rlp_head_decode bs) as [[x y]| |] eqn:Hh; [|done..]. injection Hhead as -> ->.
  destruct list; [|done]. apply rlp_head_canonical in Hh; [|done].
  assert (Forall is_byte buf) as Hbuf by (rewrite Hh in Hbs; by apply Forall_app in Hbs as [_ ?]).
  cbn [negb list_head payload_length] in Hd. apply sbind_ok in Hd as (b' & s' & Hg & Hd).
  injection Hg as <- <-. remember (length buf) as started eqn:Hst.
  do 2 read_step (rlp_fixed_laws 32) Hd. read_step (rlp_fixed_laws 20) Hd.
  do 3 read_step (rlp_fixed_laws 32) Hd. read_step (rlp_fixed_laws 256) Hd.
  read_step rlp_u256_laws Hd. do 4 read_step rlp_u64_laws Hd. read_step rlp_bytes_laws Hd.
  read_step (rlp_fixed_laws 32) Hd. read_step (rlp_fixed_laws 8) Hd.
  read_opt_step rlp_u64_laws Hd. read_opt_step (rlp_fixed_laws 32) Hd.
  do 2 read_opt_step rlp_u64_laws Hd. do 2 read_opt_step (rlp_fixed_laws 32) Hd.
  apply sbind_ok in Hd as (b'' & s'' & Hg & Hd). injection Hg as <- <-.
  destruct (consumed started b19 =? n) eqn:Hn5; [|done]. injection Hd as Hd Hrest.
  bool_to_prop. subst rest. destruct (nonce_of_array _ Hd14) as [Hnonce Hback].
  assert (header_typed h) as Ht by (subst h; by constructor).
  assert (buf = payload h ++ b19) as Hpay.
  { subst h. unfold payload, payload_tail. simpl. rewrite Hback, <-!app_assoc. congruence. }
  assert (header_payload_length h = n) as Hn6.
  { rewrite (payload_measured h Ht), <-Hn5, Hst, Hpay. unfold consumed. rewrite length_app. lia. }
  split.
  - split; [done|]. subst h. unfold fork_fields. simpl.
    apply no_gaps_chain; eapply absent_next; eassumption.
  - by rewrite (header_encode_payload h Ht), Hn6, <-app_assoc, <-Hpay.
Qed.

Lemma sealed_decode_ok bs s rest :
  sealed_decode bs = (Ok s, rest) →
  header_decode bs = (Ok (sh_header s), rest) ∧
  sh_hash s = keccak256 (take (length bs - length rest) bs).
Proof.
  unfold sealed_decode. destruct (header_decode bs) as [[h|e|] b]; [|done..].
  by intros [= <- <-].
Qed.
Lemma take_consumed (bs rest : bytes) : take (length (bs ++ rest) - length rest) (bs ++ rest) = bs.
Proof.
  rewrite length_app. replace (length bs + length rest - length rest)%nat with (length bs) by lia.
  apply take_app_length.
Qed.

(** C35. The hash of a sealed header is the hash of its header.  A header whose fork fields come
    in order is written in the announced number of bytes, and read back from them sealed
    with its hash, whatever follows; bytes of any origin that are read are the encoding of
    the header they give, whose fields have their types and come in order, and the hash taken
    from the bytes is the one computed from the header; two such headers have the same hash
    only through a Keccak collision. *)
Theorem sealed_headers_identified :
  (∀ h rest, header_in_order h →
     header_length h = Z.of_nat (length (header_encode h)) ∧
     sealed_decode (header_encode h ++ rest) = (Ok (seal h (rlp_hash_slow h)), rest)) ∧
  (∀ bs s rest, Forall is_byte bs → sealed_decode bs = (Ok s, rest) →
     header_in_order (sh_header s) ∧ bs = sealed_encode s ++ rest ∧
     sh_hash s = rlp_hash_slow (sh_header s)) ∧
  (∀ h h', header_in_order h → header_in_order h' → rlp_hash_slow h = rlp_hash_slow h' →
     h = h' ∨ header_encode h ≠ header_encode h' ∧
              keccak256 (header_encode h) = keccak256 (header_encode h')).
Proof.
  split_and!.
  - intros h rest Hh. pose proof Hh as [Ht _]. split.
    + pose proof (payload_measured h Ht) as Hl. unfold header_length.
      rewrite header_encode_payload, length_app, rlp_head_measured by (done || lia). lia.
    + unfold sealed_decode. rewrite (header_decode_encoded h rest Hh), take_consumed. done.
  - intros bs s rest Hbs [Hd Hs]%sealed_decode_ok.
    destruct (header_decode_canonical _ _ _ Hbs Hd) as [Ho ->]. split_and!; [done..|].
    by rewrite Hs, take_consumed.
  - intros h h' Hh Hh' Heq. destruct (decide (header_encode h = header_encode h')) as [He|He];
      [left|by right].
    pose proof (header_decode_encoded h [] Hh) as H1. rewrite He, header_decode_encoded in H1 by done.
    by injection H1.
Qed.
End theory.
