(* ===== verification/HeaderRlpSample.v ===== *)
(** * The RLP codec of headers, on an example

    Items of a simple kind with the promised laws: arrays behind a mark, integers in 32
    bytes, byte strings with a mark before each byte, and list heads in unary. *)

From S2P Require Import Prelude Bitcoin Codec Headers HeaderRlp HeaderRlpTheory.

Module SampleRlp.

Definition fixed_decode (n : nat) (buf : bytes) : result RlpError (bytes * bytes) :=
  match buf with
  | 0 :: buf =>
      if decide (array_dom n (take n buf)) then Ok (take n buf, drop n buf) else Err InputTooShort
  | _ => Err UnexpectedList
  end.
Definition uint_decode (max : Z) (buf : bytes) : result RlpError (Z * bytes) :=
  if decide (array_dom 32 (take 32 buf) ∧ from_be_bytes (take 32 buf) ≤ max)
  then Ok (from_be_bytes (take 32 buf), drop 32 buf) else Err Overflow.
Fixpoint bytes_encode (bs : bytes) : bytes :=
  match bs with [] => [0] | b :: bs => 1 :: b :: bytes_encode bs end.
Fixpoint bytes_decode (buf : bytes) : result RlpError (bytes * bytes) :=
  match buf with
  | 0 :: rest => Ok ([], rest)
  | 1 :: b :: buf =>
      match bytes_decode buf with Ok (bs, rest) => Ok (b :: bs, rest) | Err e => Err e | Panic => Panic end
  | _ => Err InputTooShort
  end.
Fixpoint unary_decode (buf : bytes) : option (nat * bytes) :=
  match buf with
  | 0 :: rest => Some (O, rest)
  | 1 :: buf => '(n, rest) ← unary_decode buf; Some (S n, rest)
  | _ => None
  end.

#[export] Instance lib : RlpLib := {|
  rlp_head_encode hd := replicate (Z.to_nat (payload_length hd)) 1 ++ [0];
  rlp_head_decode buf :=
    match unary_decode buf with
    | Some (n, rest) => if (n <=? length rest)%nat then Ok (mkHead true (Z.of_nat n), rest) else Err InputTooShort
    | None => Err UnexpectedLength
    end;
  length_of_length n := n + 1;
  rlp_fixed n := mkRlp _ (λ a, 0 :: a) (fixed_decode n) (λ a, 1 + Z.of_nat (length a));
  rlp_u256 := mkRlp _ (to_be_bytes 32) (uint_decode (2 ^ 256 - 1)) (λ _, 32);
  rlp_u64 := mkRlp _ (to_be_bytes 32) (uint_decode u64_max) (λ _, 32);
  rlp_bytes := mkRlp _ bytes_encode bytes_decode (λ a, 1 + 2 * Z.of_nat (length a));
  keccak256 bs := take 32 (bs ++ zeros 32);
|}.

Lemma fixed_laws n : rlp_laws (array_dom n) (rlp_fixed n).
Proof.
  split; simpl; [|..|done].
  - intros a rest Ha. pose proof Ha as [Hl _]. rewrite take_app_length', drop_app_length' by done.
    by rewrite decide_True.
  - intros bs a rest _. unfold fixed_decode. destruct bs as [|[] bs]; try done.
    case_decide as Hd; [|done]. intros [= <- <-]. split; [done|]. by rewrite take_drop.
  - intros a _. lia.
Qed.
Lemma uint_laws max : max < 2 ^ 256 → rlp_laws (λ n, 0 ≤ n ≤ max)
  (mkRlp _ (to_be_bytes 32) (uint_decode max) (λ _, 32)).
Proof.
  intros Hmax. split; cbn [rlp_encode rlp_decode rlp_length].
  - intros n rest Hn. unfold uint_decode.
    rewrite take_app_length', drop_app_length' by (by rewrite length_to_be_bytes).
    rewrite from_to_be_bytes by lia. rewrite decide_True; [done|].
    split; [|lia]. split; [apply length_to_be_bytes|]. apply Forall_reverse, to_le_bytes_is_byte.
  - intros bs n rest _. unfold uint_decode. case_decide as Hd; [|done]. intros [= <- <-].
    destruct Hd as [[Hl Hb] Hm]. split.
    + pose proof (from_le_bytes_bound (reverse (take 32 bs)) ltac:(by apply Forall_reverse)).
      unfold from_be_bytes in *. lia.
    + by rewrite to_from_be_bytes, take_drop.
  - intros n _. by rewrite length_to_be_bytes.
  - intros n _ Hn. pose proof (length_to_be_bytes 32 n). by rewrite Hn in *.
Qed.
Lemma bytes_read_canonical n bs a rest :
  (length bs < n)%nat → Forall is_byte bs → bytes_decode bs = Ok (a, rest) →
  bytes_dom a ∧ bs = bytes_encode a ++ rest.
Proof.
  revert bs a. induction n as [|n IH]; intros bs a Hn Hbs Hd; [lia|].
  destruct bs as [|x bs]; [done|]. destruct x as [|[]|]; try done.
  - injection Hd as <- <-. by split; [constructor|].
  - destruct bs as [|b bs]; [done|]. simpl in Hd, Hn.
    destruct (bytes_decode bs) as [[a' r]| |] eqn:Hr; [|done..]. injection Hd as <- <-.
    apply Forall_cons in Hbs as [_ [Hb Hbs]%Forall_cons].
    destruct (IH bs a') as [? ->]; [lia|done..|]. by split; [constructor|].
Qed.
Lemma bytes_laws : rlp_laws bytes_dom rlp_bytes.
Proof.
  split; cbn [rlp_encode rlp_decode rlp_length rlp_bytes lib].
  - intros a rest _. induction a as [|b a IH]; simpl; [done|]. by rewrite IH.
  - intros bs a rest. apply (bytes_read_canonical (S (length bs))). lia.
  - intros a _. induction a as [|b a IH]; simpl; lia.
  - intros []; done.
Qed.
Lemma unary_back n rest : unary_decode (replicate n 1 ++ 0 :: rest) = Some (n, rest).
Proof. induction n as [|n IH]; simpl; [done|]. by rewrite IH. Qed.
Lemma unary_canonical bs n rest : unary_decode bs = Some (n, rest) → bs = replicate n 1 ++ 0 :: rest.
Proof.
  revert n. induction bs as [|x bs IH]; intros n Hd; [done|]. destruct x as [|[]|]; try done.
  - by injection Hd as <- <-.
  - simpl in Hd. destruct (unary_decode bs) as [[m r]|] eqn:Hr; [|done]. injection Hd as <- <-.
    by rewrite (IH m).
Qed.

#[export] Instance laws : RlpLaws.
Proof.
  split; [apply fixed_laws|..|apply bytes_laws| | | |].
  - destruct (uint_laws (2 ^ 256 - 1) ltac:(lia)) as [l1 l2 l3 l4].
    unfold u256_dom. split; [intros; apply l1; lia|intros bs a rest Hb Hd|intros; apply l3; lia|intros; apply l4; lia].
    destruct (l2 bs a rest Hb Hd). split; [lia|done].
  - apply (uint_laws u64_max). unfold u64_max. lia.
  - done.
  - intros n rest Hn. cbn [rlp_head_decode rlp_head_encode lib payload_length]. rewrite <-app_assoc. simpl.
    rewrite unary_back. rewrite (proj2 (Nat.leb_le _ _)) by lia. by rewrite Z2Nat.id by lia.
  - intros bs n rest _. cbn [rlp_head_decode rlp_head_encode lib payload_length].
    destruct (unary_decode bs) as [[m r]|] eqn:Hu; [|done]. destruct (_ <=? _)%nat; [|done].
    intros [= <- <-]. rewrite Nat2Z.id, <-app_assoc. simpl. by apply unary_canonical.
  - intros n Hn. cbn [length_of_length rlp_head_encode lib payload_length].
    rewrite length_app, length_replicate. simpl. lia.
Qed.

(** A header with the fields of the first two forks, and one with a gap. *)
Definition header (fee : option Z) (withdrawals : option B256) (blob : option Z) : EthHeader := {|
  h_parent_hash := zeros 32; h_ommers_hash := zeros 32; h_beneficiary := zeros 20;
  h_state_root := zeros 32; h_transactions_root := zeros 32; h_receipts_root := zeros 32;
  h_withdrawals_root := withdrawals; h_logs_bloom := zeros 256; h_difficulty := 0; h_number := 7;
  h_gas_limit := 30000000; h_gas_used := 21000; h_timestamp := 1700000000; h_mix_hash := zeros 32;
  h_nonce := 1; h_base_fee_per_gas := fee; h_blob_gas_used := blob; h_excess_blob_gas := None;
  h_parent_beacon_block_root := None; h_requests_root := None; h_extra_data := [1; 2; 3];
|}.
Definition london : EthHeader := header (Some 5) (Some (zeros 32)) None.
Lemma london_in_order : header_in_order london.
Proof.
  split; [|done]. constructor; simpl; try done.
  all: try (split; [done|]; apply (bool_decide_unpack _); by vm_compute).
  all: try (unfold u64_dom, u256_dom, u64_max; lia).
  repeat constructor; unfold is_byte; lia.
Qed.
End SampleRlp.
Import SampleRlp.

Lemma sealed_headers_identified_witness :
  header_in_order london ∧
  sealed_decode (header_encode london ++ [9]) = (Ok (seal london (rlp_hash_slow london)), [9]).
Proof.
  split; [exact london_in_order|].
  exact (proj2 (proj1 sealed_headers_identified london [9] london_in_order)).
Defined.

(** A header with a gap has the bytes of another header, and is read as that one. *)
Example gap_is_misread :
  header_encode (header None None (Some 5)) = header_encode (header (Some 5) None None) ∧
  (header_decode (header_encode (header None None (Some 5)))).1 = Ok (header (Some 5) None None).
Proof. by vm_compute. Qed.
