(* ===== verification/JwtTheory.v ===== *)
(** * Theorems about the tokens

    The server admits the requests of a client with its secret exactly while their clocks
    agree to a minute, and a secret written to its file is the one read at the next start. *)

From S2P Require Import Prelude Bitcoin Psbt Database PegoutScheduler CoinSelection Signing Codec Peg DkgEncryption Dkg RpcTypes Jwt Server ServerPegs FrostSigning ServerLink.
Local Open Scope Z_scope.
Import JwtSecret.

(** A token is text, and is decoded to its claims with the key it was signed with, until it
    has expired for a minute. *)
Class JwtLaws `{JwtLib} : Prop := {
  jwt_decode_encoded key claims token now :
    jsonwebtoken_encode key claims = Some token →
    (∀ e, exp claims = Some e → now - 60 ≤ e) →
    jsonwebtoken_decode key now token = Ok claims;
  jwt_text key claims token : jsonwebtoken_encode key claims = Some token → from_utf8 token = true;
}.
Class JwtIssuerLaws `{JwtIssuer} : Prop :=
  base64_decode_encode b : base64_decode (base64_encode b) = Some b.
(** Two digits per byte. *)
Class HexSizes `{TextLib} : Prop :=
  hex_encode_length b : length (hex_encode b) = (2 * length b)%nat.

(** ** The window of a token *)

Section tokens.
Context `{JwtLib, !JwtLaws}.

(** A token is valid for a minute before and after its issue. *)
Theorem issued_token_valid_iff secret now now' e token :
  encode secret (mkClaims now (Some e)) = Some token → now' - 60 ≤ e →
  validate secret now' token = Ok tt ↔ Z.abs (now' - now) ≤ 60.
Proof.
  intros Htok He. unfold validate. rewrite (jwt_decode_encoded _ _ _ _ Htok) by naive_solver.
  unfold is_within_time_window, JWT_MAX_IAT_DIFF. simpl.
  destruct (_ <=? 60) eqn:Hw; bool_to_prop; simpl; split; done || lia.
Qed.
End tokens.

Section requests.
Context `{BitcoinLib, FrostSign, !DkgLib, Bdk, Hashing, Bitcoind, !BitcoindWallet, JwtLib, !JwtLaws}.
Context `{!JwtIssuer, !JwtIssuerLaws, Secp256k1, !PegLib, !WireLib, TextLib}.
Context (cfg : AppConfig) (secret : JwtSecret).
Hypothesis shared : jwt_secret cfg = Some secret.

(** What the server says to a request of the client with the same secret. *)
Theorem client_request_admitted_iff {A} (request : A) sent received token a :
  generate_jwt_token (Some secret) sent = Ok token → received ≤ 10000000060 →
  App.validate_jwt cfg received {| metadata := base64_encode <$> token; get_ref := request |} a =
    (if Z.abs (received - sent) <=? 60 then Ok tt else Err (Unauthenticated MJwtFailed), a).
Proof.
  intros Hgen Hr. unfold generate_jwt_token in Hgen.
  apply rbind_ok in Hgen as (tok & Htok%expect_ok & Hgen).
  apply rbind_ok in Hgen as (? & _ & [= <-]).
  unfold App.validate_jwt. rewrite shared. simpl. rewrite base64_decode_encode. simpl.
  unfold App.ok_or_status, sbind, sret, slift. simpl. rewrite (jwt_text _ _ _ Htok). simpl.
  pose proof (issued_token_valid_iff secret sent received _ _ Htok ltac:(lia)) as Hiff.
  destruct (_ <=? 60) eqn:Hw; bool_to_prop.
  - by rewrite (proj2 Hiff).
  - destruct (validate secret received tok) as [[]| |]; [|done..].
    specialize (proj1 Hiff eq_refl). lia.
Qed.
End requests.

(** ** The file of the secret *)

Section secrets.
Context `{TextLib, !TextLibLaws, !HexSizes}.

Lemma strip_all_none ws fuel s :
  (∀ w, w ∈ ws → ∃ x w', w = x :: w' ∧ is_hex_digit x = false) →
  Forall (λ c, is_hex_digit c = true) s → strip_all ws fuel s = s.
Proof.
  intros Hws Hs. destruct fuel as [|fuel]; [done|]. simpl.
  destruct (list_find _ ws) as [[i w]|] eqn:Hf; [|done]. exfalso.
  apply list_find_Some in Hf as (Hi & Hst & _). unfold starts_with in Hst. bool_to_prop.
  destruct (Hws w) as (x & w' & -> & Hx); [by eapply list_elem_of_lookup_2|].
  destruct s as [|c s]; [done|]. simpl in Hst. injection Hst as -> _.
  apply Forall_cons in Hs as [Hs _]. congruence.
Qed.
Definition starts_no_digit (w : bytes) : bool :=
  match w with x :: _ => negb (is_hex_digit x) | [] => false end.
Lemma starts_no_digit_all ws :
  forallb starts_no_digit ws = true → ∀ w, w ∈ ws → ∃ x w', w = x :: w' ∧ is_hex_digit x = false.
Proof.
  rewrite forallb_forall. intros Hall w Hw%list_elem_of_In. specialize (Hall w Hw).
  destruct w as [|x w']; [done|]. exists x, w'. split; [done|]. by apply negb_true_iff.
Qed.
Lemma trim_digits s : Forall (λ c, is_hex_digit c = true) s → trim s = s.
Proof.
  intros Hs. unfold trim, trim_start, trim_end.
  rewrite (strip_all_none WHITESPACE) by (done || by apply starts_no_digit_all).
  rewrite strip_all_none; [apply reverse_involutive| |by apply Forall_reverse].
  by apply starts_no_digit_all.
Qed.
Lemma from_hex_encoded b :
  length b = 32%nat → Forall is_byte b → from_hex (hex_encode b) = Ok b.
Proof.
  intros Hl Hb. unfold from_hex. pose proof (hex_encode_digits b) as Hd.
  rewrite trim_digits, hex_trim by done. rewrite hex_encode_length, Hl. simpl.
  rewrite hex_decode_encode by done. simpl. by rewrite Hl.
Qed.

(** The secret made at the first start is the one read at the next, whatever is drawn then. *)
Theorem secret_survives_restart made written written' readable b b' file secret :
  length b = 32%nat → Forall is_byte b →
  get_or_create_jwt_secret readable made written b None = (Ok secret, file) →
  secret = b ∧ get_or_create_jwt_secret true made written' b' file = (Ok secret, file).
Proof.
  intros Hl Hb. unfold get_or_create_jwt_secret, try_create_random, random, sbind, sget, slift, sret, smodify.
  rewrite (from_hex_encoded b Hl Hb). destruct made, written; simpl; try done.
  intros [= <- <-]. split; [done|]. unfold from_file. cbn [ok_or rbind].
  by rewrite (from_hex_encoded b Hl Hb).
Qed.
(** A secret that is read has 32 bytes, and reading one never panics. *)
Theorem from_hex_sized s :
  (∀ s b, hex_decode s = Some b → length s = (2 * length b)%nat) →
  match from_hex s with Ok b => length b = 32%nat | Err _ => True | Panic => False end.
Proof.
  intros Hdec. unfold from_hex. set (h := trim_0x (trim s)).
  destruct (_ =? JWT_SECRET_LEN) eqn:Hlen; cbn [negb]; [|done]. bool_to_prop.
  unfold JWT_SECRET_LEN in Hlen.
  destruct (hex_decode h) as [b|] eqn:Hb; cbn [ok_or rbind]; [|done]. apply Hdec in Hb.
  assert (length b = 32%nat) as Hl by lia. by rewrite Hl.
Qed.
End secrets.

(** ** Examples *)
Module JwtSample.
Definition key : bytes := replicate 32 7.
#[export] Instance lib : JwtLib := {|
  base64_decode b := Some (reverse b);
  from_utf8 _ := true;
  (** the key, the time of issue and the expiry, in the open *)
  jsonwebtoken_decode k now token :=
    if decide (take 32 token = k) then
      let c := mkClaims (from_be_bytes (take 8 (drop 32 token))) (Some (from_be_bytes (drop 40 token))) in
      match exp c with
      | Some e => if e <? now - 60 then Err OtherKind else Ok c
      | None => Ok c
      end
    else Err InvalidSignatureKind;
  jsonwebtoken_encode k c :=
    match exp c with
    | Some e =>
        if decide (length k = 32%nat ∧ 0 ≤ iat c ≤ u64_max ∧ 0 ≤ e ≤ u64_max)
        then Some (k ++ to_be_bytes 8 (iat c) ++ to_be_bytes 8 e) else None
    | None => None
    end;
|}.
#[export] Instance laws : JwtLaws.
Proof.
  split; [|done]. intros k [i [e|]] token now;
    cbn [jsonwebtoken_encode jsonwebtoken_decode lib exp iat]; [|done]. case_decide as Hd; [|done].
  intros Htok He. apply (inj Some) in Htok. subst token.
  destruct Hd as (Hk & Hi & Hx). unfold u64_max in *.
  rewrite take_app_length' by done. rewrite decide_True by done.
  assert (drop 40 (k ++ to_be_bytes 8 i ++ to_be_bytes 8 e) = to_be_bytes 8 e) as ->.
  { rewrite (app_assoc k). apply drop_app_length'. by rewrite length_app, length_to_be_bytes, Hk. }
  rewrite drop_app_length' by done. rewrite take_app_length' by (by rewrite length_to_be_bytes).
  rewrite !from_to_be_bytes by (change (256 ^ Z.of_nat 8) with (2 ^ 64); lia).
  cbn [exp]. rewrite (proj2 (Z.ltb_ge _ _)); [done|]. by apply He.
Qed.
End JwtSample.
Import JwtSample.

(** A token of time 1000 at later times, and for another key. *)
Example token_times :
  (λ now, match encode key (mkClaims 1000 (Some 2000)) with
          | Some token => is_ok (validate key now token)
          | None => false
          end) <$> [939; 940; 1060; 1061] = [false; true; true; false].
Proof. by vm_compute. Qed.
Example token_other_key :
  (token ← encode key (mkClaims 1000 (Some 2000)); Some (validate (replicate 32 8) 1000 token)) =
  Some (Err InvalidSignature).
Proof. by vm_compute. Qed.
